(* ===== verification/_CoqProject ===== *)
-Q . S2P
Prelude.v
Text.v
Floats.v
DnsWire.v
Transaction.v
TxnStore.v
Selectors.v
Script.v
Rules.v
Health.v
Routing.v
CacheStore.v
Message.v
Send.v
CacheServe.v
CacheRegistry.v
Lookup.v
Orchestrator.v
Acl.v
ForwardTable.v
Forward.v
PolicyQueue.v
Dataplane.v
Ingress.v
Config.v
Synthesize.v
Configurator.v
DataSources.v
Messages.v
Compile.v
Snapshot.v
Validate.v
Extra.v
Events.v
Effects.v
Fstrm.v
Dnstap.v
Lmdb.v
LmdbMap.v
LmdbLimits.v
LmdbSync.v
LmdbOpen.v
Reconcile.v
System.v
Probes.v
MetricsPlan.v
Metrics.v
Export.v
Yaml.v
FileSchema.v
ConfigFile.v
FileRoundTrip.v
