(* ===== verification/Prelude.v ===== *)
(** * DNS Conduit: a verification library for the forwarding core

    DNS Conduit is a DNS forwarder in Rust. A client's query is admitted by a listener,
    takes a slot of a fixed pool, and goes through a pipeline of phases - Parse,
    RequestRules, Lookup (a cache, or Route, Forward and WaitResponse), ResponseRules, Send - until it has
    an answer or is dropped. Two runtimes drive the pipeline: in the synchronous one a listener
    thread runs a query to its end; in the asynchronous one ingress threads queue new
    queries, policy workers run them until they wait for an upstream, and I/O threads
    queue the resumptions. This library translates those parts into executable
    definitions, named as in the source, and proves what they promise each other. Paths below
    are relative to src/crates.

    ** The files and what they model

    - [Prelude] (this file): machine integers as [Z] with their wrap-around written out,
      [result] with the [?] operator ([let?], [let!]), record update, association lists,
      lemmas and tactics the components share. [Text], [Floats]: the parts of [str] and
      of [f64] that the program uses.
    - [DnsWire]: conduit-dns-wire, the IANA tables and the names of wire numbers.
    - [Transaction]: conduit-core/src/transaction.rs, the state of one query.
    - [TxnStore]: conduit-core/src/txn_store, the slot pool; the arena as functions, the
      shared store as a step relation whose steps are its critical sections.
    - [Selectors], [Script], [Rules]: conduit-events/src/selectors.rs, the effects of
      Rhai scripts (conduit-script/src/runtime.rs) and the two rule hooks
      (conduit-core/src/rules, stages).
    - [Health]: conduit-core/src/health/state.rs and control.rs. [Routing]: routing.rs
      and the Route stage.
    - [CacheStore], [CacheServe], [CacheRegistry]: conduit-core/src/lookup/cache, the
      in-memory store, the keys and the served answers, and the registry with its
      in-flight gates. The registry is proved against the class [CacheStore] of
      stores, and the in-memory store is an instance.
    - [Message], [Send]: parsing and sending; the wire codec (hickory_proto) is the
      class [DnsCodec].
    - [Lookup], [Orchestrator]: conduit-core/src/lookup/stage.rs and orchestrator.rs; the
      stages they call are arbitrary functions on the transaction and an environment.
    - [Acl]: conduit-core/src/acl.rs, its validation, and the gate of the listeners.
    - [ForwardTable], [Forward]: conduit-dataplane/src/forward, the tables of outstanding
      upstream queries, and the stages that send them; the network is the class
      [Network].
    - [PolicyQueue], [Dataplane], [Ingress]: the work queue and the reply routes, the
      policy worker, the synchronous run in a slot, draining, and the receive loops
      of both runtimes (conduit-dataplane/src/runtime, listener, query_slot.rs, drain.rs).
    - [Config], [Synthesize], [Configurator]: the configuration messages (config.proto),
      merging and overlays (conduit-config/src/merge.rs, overlay.rs), the overlay for a
      desired configuration (synthesize.rs), and proposals with their installation
      (conduit-core/src/configurator.rs, snapshot.rs). The sections that are only
      copied are the types of the class [Sections].
    - [DataSources]: conduit-script/src/data_sources.rs and cidr.rs, the tables that rules
      and scripts look up; the prefix trie is the class [PrefixTrie].
    - [Messages], [Compile], [Snapshot], [Validate]: the remaining sections (the instance
      [messages] of [Sections]) with their effective values, the compiled forward,
      health and lookup sections (conduit-config/src/forward.rs, health.rs, lookup.rs),
      scripts, rules and snapshots (conduit-script/src/compile.rs,
      conduit-core/src/snapshot.rs), and the whole validation (validate.rs, logging.rs,
      listeners.rs).
    - [Extra], [Events]: conduit-events, what an exported event says of its transaction,
      and the sinks with their filters, queues and counters
      (compile.rs, filters.rs, queue.rs, hub.rs, extra.rs). [Fstrm], [Dnstap]: the frame stream
      protocol (fstrm.rs, and the receive loop of conduit-dnstap-tracer) and the
      worker of a sink (dnstap.rs, connect_retry.rs).
    - [Effects]: state and errors in one type, for code that changes state before it
      fails, with its program logic.
    - [Lmdb], [LmdbMap], [LmdbLimits], [LmdbSync], [LmdbOpen]: conduit-core/src/lookup/cache/lmdb.rs,
      the durable store: its values and operations, the map it implements, eviction
      and capacity, map sizes and durability, opening and the layout on disk. Every call of
      the library may fail, as a schedule in the state says.
    - [Reconcile]: the caches of a new configuration (registry.rs [reconcile], backend.rs, the
      reopening of a store in lmdb.rs) and the pass of the reaper.
    - [Probes]: conduit-core/src/health/probe.rs and conduit-dataplane/src/probe, the probe loop and its
      scheduler, with the states it shares with the health registry through references.
    - [MetricsPlan]: conduit-metrics/src/plan.rs, compile.rs and consumer.rs, what is counted and exported,
      the activation of traces and the validation of both sections.
    - [Metrics], [Export]: conduit-metrics, the store of series and the registry with its labels, what
      is recorded and what a scrape shows, the counters of scripts and the hub (builtin.rs, store.rs, labels.rs, user.rs,
      lib.rs); and the controller of the scrape server and the push task (export_controller.rs).
    - [Yaml], [FileSchema], [ConfigFile], [FileRoundTrip]: conduit-config/src/file.rs, export.rs and size.rs, the
      derived readers and writers of structs, the schema of the configuration file, the
      conversions to and from the messages, and what an export is worth.
    - [System]: the configurator with validation, compilation, caches and health table in
      the places of its parameters, and the histories of such a system.

    ** What the theorems show

    Resources. The slot pool refines a set of slots in use, whatever is called in
    whatever order, and of any number of threads at most one owns a slot. A submitted
    forward leaves exactly one pending entry and one id, a failed one none; an id has one
    owner, a reply resumes the slot that sent the query and no other, a timeout
    is delivered exactly when it is due.

    The pipeline. A run ends by its deadline if reading the clock takes time, what it
    returns is what the Send phase left, the turns of a query that goes upstream are bounded
    by its attempts whatever the clock does, and what is sent fits the client's limit. Rules have the effect of the first match;
    routing chooses only healthy backends of the pool, finds one if there is one, and gives
    each its exact share over consecutive ids.

    The caches. The store refines a map and keeps to its size; keys are injective on
    what may differ between answers; a served answer is the stored one, aged; one
    leader per key goes upstream and its followers resume with its answer.

    The durable cache. Whatever calls of the library fail, the store does no more than an
    unreliable map may do: it never serves what was not stored, or an expired entry, and
    an insertion that reports success can be found until something removes it. Its count is
    exact, and its shards together keep to the limit, unless reads fail. Entries survive a
    restart. A change of the durability mode is made whole or not at all but for the
    failures the theorem names, and no interleaving of writes and syncs forgets a write.

    Health and access. The health machine has the hysteresis it is configured with and
    keeps what operators freeze. Each backend has at most one probe outstanding, probes are at
    least an interval apart and keep coming, and its state records their results in
    order, whatever fails. The two ACL tiers decide as one pass over the
    rules, the control plane's check agrees with the gate, and a validated
    configuration never makes them panic.

    The runtimes. An admitted datagram is queued with its route and answered to the peer it
    came from; the queue keeps the work of each slot in order; no route carries two
    replies; draining ends and says what it found.

    Configuration changes. The overlay synthesized for a desired configuration gives that
    configuration when it is merged onto the file; so a primitive changes what it names
    and nothing else, also after others. A proposal is installed whole or leaves the
    running snapshot alone. The caches of a new configuration are the ones it names, those
    it does not change keep what they hold, and a change they reject leaves each of them working.

    Files. A valid configuration that is exported is read back as one that is valid and compiles to the same
    snapshot, sinks, tracing and policies, and the export of that reads as itself.

    The whole. In every history of proposals, queries, probes and operator controls, the
    snapshot in force is compiled from a valid configuration, the caches are those it
    names, and the health table has exactly the backends it probes.

    A configuration that passes the validation is compiled to a snapshot without a
    panic, and what it refers to by name or index is there: pools, caches, weights, the
    script of each action. A loaded table has the last value of each key, or the value
    of the longest prefix, and keeps to its limits. A validated metrics section is compiled as it
    is written, and nothing is exported that is not recorded. In every history of events, scrapes and
    reloads a counter or histogram shows the events that carry its labels, each once; and
    the sinks that run are those of the configuration in force, but for the failures the theorem names.

    Events. The queues of the hub lose nothing without counting it and keep the order, and the
    JSON of a sink reads back as what was asked for. A worker writes each event it
    takes to its destinations, in order, with counters that tell what was lost; and what one
    end of a frame stream writes the other end reads, frame by frame, up to the stop.

    Theorems that are also findings show behaviour a reader of the code would not
    expect, such as [Forward.sync_takes_any_datagram] or
    [Dataplane.finished_run_frees_a_place].

    ** Bounds and fuel

    Loops that are structural in the source are structural here. [Orchestrator.run_loop]
    has fuel; [run_loop_terminates] gives an amount that suffices, from the deadline and the
    clock's progress. [Dataplane.drain_loop] has fuel; [drain_ends] shows that one
    unit per poll interval of the timeout and two more suffice. Loops over a table or
    a section have as many rounds as it has elements. [Fstrm.parse_fields] and
    [Fstrm.serve_frames] consume their input; [Dnstap.sleep_steps] has a step per 50 ms.

    ** What is assumed

    No axioms. What is not in the sources is a parameter: the wire codec, the network and the
    clocks, the Rhai engine, the CIDR stores, [DefaultHasher] and the iteration order of a
    [HashMap] (a permutation of its entries), the parsers and printers of addresses and
    floats, the disk, the trie of prefixes, the Rhai compiler, the encoding of dnstap messages and
    the validator of the metrics sections. LMDB (heed) is taken as it documents itself: a
    map with transactions that commit whole or not at all, one writer at a time, and a cursor
    that lists the entries in some order. The vectors of the prometheus crate are the class [Prometheus]
    with its laws, and serde_yaml the class [Yaml], of which it is assumed that what was written is read back. Theorems that need something of a parameter name it as a hypothesis and have a
    witness with a concrete one. Strings are byte sequences, and case folding is that of
    ASCII except where stated.

    ** Not modelled

    The text of a scrape, the messages of a push and their HTTP servers and clients, the reading of /proc,
    the protocol buffers of dnstap, the timing of its flusher thread, the control plane's gRPC services and the command-line tools, the
    YAML text format, the setup of the logger, the Rhai compiler with its scans of scripts,
    the sockets and threads of the probes, and the starting and stopping of threads. Relaxed
    memory order is not modelled: an atomic is a field that its operations read and write whole. *)

From Stdlib Require Export ZArith Lia.
From stdpp Require Export base tactics option numbers gmap strings fin_maps countable list.

(** The ASCII scope of machine integers is [Z]; natural numbers index lists. *)
#[global] Open Scope Z_scope.

(** ** Machine integers

    A [w]-bit unsigned integer of the program is a [Z]; the operators that can
    leave the range are written out: [wrap] for the wrapping operators and the
    narrowing [as] casts, the saturating ones below. *)

Definition wrap (w z : Z) : Z := z mod 2 ^ w.
Definition u16_max : Z := 2 ^ 16 - 1.
Definition u32_max : Z := 2 ^ 32 - 1.
Definition u64_max : Z := 2 ^ 64 - 1.

(** [z] is the value of a [w]-bit unsigned integer. *)
Definition fits (w z : Z) : Prop := 0 <= z < 2 ^ w.
#[global] Instance fits_dec w z : Decision (fits w z).
Proof. unfold fits. apply _. Defined.

Definition sat_add (w a b : Z) : Z := Z.min (a + b) (2 ^ w - 1).
Definition sat_sub (a b : Z) : Z := Z.max (a - b) 0.

Lemma wrap_small w z : fits w z -> wrap w z = z.
Proof. intros H. unfold wrap. by apply Z.mod_small. Qed.

Lemma wrap_fits w z : 0 <= w -> fits w (wrap w z).
Proof. intros H. unfold fits, wrap. apply Z.mod_pos_bound. by apply Z.pow_pos_nonneg. Qed.

Lemma sat_sub_le a b : 0 <= b -> 0 <= a -> sat_sub a b <= a.
Proof. unfold sat_sub. lia. Qed.

Lemma sat_add_fits w a b : fits w a -> 0 <= b -> fits w (sat_add w a b).
Proof. unfold fits, sat_add. lia. Qed.

(** ** Rust's [Result] *)

Inductive result (A E : Type) : Type :=
  | Ok (a : A)
  | Err (e : E).
Arguments Ok {A E} a.
Arguments Err {A E} e.

Definition result_map {A B E} (f : A -> B) (r : result A E) : result B E :=
  match r with Ok a => Ok (f a) | Err e => Err e end.

Definition result_ok {A E} (r : result A E) : option A :=
  match r with Ok a => Some a | Err _ => None end.

Declare Scope conduit_scope.
Delimit Scope conduit_scope with conduit.
#[global] Open Scope conduit_scope.

(** [let? x := c in k] is the [?] operator on a [Result]. *)
Notation "'let?' x := c 'in' k" :=
  (match c with Ok x => k | Err e => Err e end)
  (at level 10, x name, c at level 100, k at level 200) : conduit_scope.

(** [let! x := c in k] is the [?] operator on an [Option]. *)
Notation "'let!' x := c 'in' k" :=
  (match c with Some x => k | None => None end)
  (at level 10, x name, c at level 100, k at level 200) : conduit_scope.

Definition or_else {A} (o o' : option A) : option A :=
  match o with Some a => Some a | None => o' end.

Definition is_someb {A} (o : option A) : bool :=
  match o with Some _ => true | None => false end.

(** ** Network addresses *)

(** The std types as the program compares them: an address is its integer value. *)
Inductive IpAddr :=
  | IpV4 (bits : Z)
  | IpV6 (bits : Z).

Inductive SocketAddr :=
  | SockV4 (ip port : Z)
  | SockV6 (ip port flowinfo scope_id : Z).

Definition sock_ip (a : SocketAddr) : IpAddr :=
  match a with SockV4 ip _ => IpV4 ip | SockV6 ip _ _ _ => IpV6 ip end.

Definition is_ipv4 (a : SocketAddr) : bool :=
  match a with SockV4 _ _ => true | SockV6 _ _ _ _ => false end.

#[global] Instance IpAddr_eq_dec : EqDecision IpAddr.
Proof. solve_decision. Defined.
#[global] Instance SocketAddr_eq_dec : EqDecision SocketAddr.
Proof. solve_decision. Defined.

Definition sock_encode (a : SocketAddr) : (Z * Z) + (Z * Z * Z * Z) :=
  match a with SockV4 i p => inl (i, p) | SockV6 i p f s => inr (i, p, f, s) end.
Definition sock_decode (c : (Z * Z) + (Z * Z * Z * Z)) : SocketAddr :=
  match c with inl (i, p) => SockV4 i p | inr (i, p, f, s) => SockV6 i p f s end.

#[global] Instance SocketAddr_countable : Countable SocketAddr.
Proof.
  apply (inj_countable' sock_encode sock_decode). by intros [].
Defined.

(** ** Record update

    [t <| p := v |>] is the record [t] with field [p] replaced: the assignment
    [t.p = v] of the source. Each record of mutable state declares one [Setter]
    instance per field it assigns; [setter c ps] builds it from the constructor
    and the tuple of the projections. *)
Class Setter {R T : Type} (p : R -> T) := set : T -> R -> R.
Arguments set {R T} p {_} v t.

Notation "t <| p := v |>" := (set p v t)
  (at level 1, left associativity, p at level 0) : conduit_scope.

Ltac record_set c ps t p v :=
  lazymatch ps with
  | (?qs, ?q) =>
      let c' := record_set c qs t p v in
      lazymatch q with
      | p => constr:(c' v)
      | _ => constr:(c' (q t))
      end
  | ?q =>
      lazymatch q with
      | p => constr:(c v)
      | _ => constr:(c (q t))
      end
  end.

Ltac setter c ps :=
  lazymatch goal with
  | |- Setter ?p => exact (fun v t => ltac:(let r := record_set c ps t p v in exact r))
  end.

(** ** Vectors

    A [Vec] is a list; [push] appends, [pop] removes the last element. *)
Definition push {A} (l : list A) (a : A) : list A := l ++ [a].

Fixpoint pop {A} (l : list A) : option (A * list A) :=
  match l with
  | [] => None
  | [a] => Some (a, [])
  | a :: l' => let! r := pop l' in Some (r.1, a :: r.2)
  end.

Lemma pop_push {A} (l : list A) a : pop (push l a) = Some (a, l).
Proof.
  induction l as [|b l IH]; [done|].
  change (push (b :: l) a) with (b :: push l a).
  simpl. rewrite IH. by destruct l.
Qed.

Lemma pop_Some {A} (l : list A) a l' : pop l = Some (a, l') -> l = push l' a.
Proof.
  destruct l as [|b l _] using rev_ind; [done|].
  change (l ++ [b]) with (push l b). rewrite pop_push. by intros [= -> ->].
Qed.

Lemma pop_None {A} (l : list A) : pop l = None -> l = [].
Proof.
  destruct l as [|b l _] using rev_ind; [done|].
  change (l ++ [b]) with (push l b). by rewrite pop_push.
Qed.

(** [len() as u32] and friends. *)
Definition zlen {A} (l : list A) : Z := Z.of_nat (length l).

Lemma zlen_nonneg {A} (l : list A) : 0 <= zlen l.
Proof. unfold zlen. lia. Qed.

Lemma zlen_app {A} (l k : list A) : zlen (l ++ k) = zlen l + zlen k.
Proof. unfold zlen. rewrite length_app. lia. Qed.

Lemma zlen_cons {A} (a : A) l : zlen (a :: l) = zlen l + 1.
Proof. unfold zlen. simpl. lia. Qed.

Lemma zlen_push {A} (l : list A) a : zlen (push l a) = zlen l + 1.
Proof. unfold push. rewrite zlen_app. done. Qed.

Lemma foldl_ext {A B} (f g : A -> B -> A) l a :
  (forall a b, f a b = g a b) -> foldl f a l = foldl g a l.
Proof. intros H. revert a. induction l as [|b l IH]; intros a; simpl; [done|]. by rewrite H, IH. Qed.

(** Building a map from a list of entries with distinct keys. *)
Lemma foldl_insert_lookup {E A} `{Countable K} (key : E -> K) (f : E -> A)
    (entries : list E) (t : gmap K A) (k : K) :
  NoDup (key <$> entries) ->
  foldl (fun t e => <[key e := f e]> t) t entries !! k =
  match List.find (fun e => bool_decide (key e = k)) entries with
  | Some e => Some (f e)
  | None => t !! k
  end.
Proof.
  revert t. induction entries as [|e entries IH]; intros t Hnd; [done|]. simpl.
  apply NoDup_cons in Hnd as [Hni Hnd]. rewrite IH by done. case_bool_decide as Hek.
  - destruct (List.find _ entries) as [e'|] eqn:Ef.
    + apply find_some in Ef as [Hin He]. apply bool_decide_eq_true in He.
      exfalso. apply Hni. apply list_elem_of_fmap. exists e'. split; [congruence|].
      by apply list_elem_of_In.
    + rewrite <- Hek. apply lookup_insert_eq.
  - destruct (List.find _ entries); [done|]. by apply lookup_insert_ne.
Qed.

Lemma find_NoDup {E} `{EqDecision K} (key : E -> K) (entries : list E) (e : E) :
  NoDup (key <$> entries) -> e ∈ entries ->
  List.find (fun x => bool_decide (key x = key e)) entries = Some e.
Proof.
  induction entries as [|x entries IH]; intros Hnd Hin; [by apply elem_of_nil in Hin|]. simpl.
  apply NoDup_cons in Hnd as [Hni Hnd]. apply elem_of_cons in Hin as [<-|Hin].
  - by rewrite bool_decide_true.
  - case_bool_decide as He; [|by apply IH]. exfalso. apply Hni. rewrite He.
    by apply list_elem_of_fmap_2.
Qed.

(** ** Counting over a window of integers *)

Definition countZ (P : Z -> bool) (start len : Z) : Z := zlen (List.filter P (seqZ start len)).

Lemma countZ_app P a n m : 0 <= n -> 0 <= m ->
  countZ P a (n + m) = countZ P a n + countZ P (a + n) m.
Proof.
  intros Hn Hm. unfold countZ. rewrite seqZ_app by done. by rewrite List.filter_app, zlen_app.
Qed.

Lemma countZ_one P a : countZ P a 1 = if P a then 1 else 0.
Proof. unfold countZ. rewrite seqZ_cons by lia. simpl. by destruct (P a). Qed.

Lemma countZ_const P a n b : 0 <= n -> (forall x, a <= x < a + n -> P x = b) ->
  countZ P a n = if b then n else 0.
Proof.
  intros Hn. revert a. pattern n. apply natlike_ind; [by destruct b|clear n Hn|done].
  intros n Hn IH a H. rewrite <- Z.add_1_l. rewrite countZ_app, countZ_one by lia.
  rewrite (H a), IH by (lia || (intros; apply H; lia)). destruct b; lia.
Qed.

Lemma countZ_ext P Q a n : 0 <= n -> (forall x, a <= x < a + n -> P x = Q x) ->
  countZ P a n = countZ Q a n.
Proof.
  intros Hn. revert a. pattern n. apply natlike_ind; [done|clear n Hn|done].
  intros n Hn IH a H. rewrite <- Z.add_1_l. rewrite !(countZ_app _ a 1 n), !countZ_one by lia.
  rewrite (H a), IH by (lia || (intros; apply H; lia)). done.
Qed.

Lemma countZ_shift P a n g : 0 <= n -> countZ (fun x => P (x + g)) a n = countZ P (a + g) n.
Proof.
  intros Hn. revert a. pattern n. apply natlike_ind; [done|clear n Hn|done].
  intros n Hn IH a. rewrite <- Z.add_1_l. rewrite !countZ_app, !countZ_one by lia.
  rewrite IH. f_equal. f_equal. lia.
Qed.

(** A predicate that holds exactly on an interval of the window. *)
Lemma countZ_interval P lo hi n : 0 <= lo -> lo <= hi -> hi <= n ->
  (forall x, 0 <= x < n -> P x = (lo <=? x) && (x <? hi)) -> countZ P 0 n = hi - lo.
Proof.
  intros H0 H1 H2 HP. replace n with (lo + ((hi - lo) + (n - hi))) by lia.
  rewrite !countZ_app by lia.
  rewrite (countZ_const P 0 lo false), (countZ_const P (0 + lo) (hi - lo) true),
    (countZ_const P (0 + lo + (hi - lo)) (n - hi) false); try lia;
    intros x Hx; rewrite HP by lia; lia.
Qed.

(** A window of a whole period counts the same wherever it starts. *)
Lemma countZ_periodic P n a : 0 < n -> 0 <= a -> (forall x, 0 <= x -> P (x + n) = P x) ->
  countZ P a n = countZ P 0 n.
Proof.
  intros Hn Ha HP. revert a Ha. apply natlike_ind; [done|]. intros a Ha IH.
  assert (H : countZ P a (1 + n) = countZ P a (n + 1)) by (f_equal; lia).
  rewrite (countZ_app P a 1 n), (countZ_app P a n 1), !countZ_one, HP in H by lia.
  rewrite <- IH. unfold Z.succ. lia.
Qed.

(** ** Clocks

    [Instant]s and [SystemTime]s are nanoseconds; the operations that read a
    clock take the reading as an argument. *)
Record Clock := { instant_now : Z; system_now : Z }.

(** [Instant::elapsed] saturates at zero. *)
Definition elapsed (now started : Z) : Z := sat_sub now started.
Definition as_millis (ns : Z) : Z := ns / 1000000.
Definition as_micros (ns : Z) : Z := ns / 1000.

(** ** Automation *)

(** Case analysis on every [match] and [if] of the goal or of a hypothesis, the
    common first step of a proof about a handler. *)
Ltac case_all :=
  repeat (case_match; simplify_eq/=; try done).

(** Hints of the development: bounds of machine integers, list facts. *)
Create HintDb conduit.
#[export] Hint Resolve wrap_fits sat_add_fits : conduit.
#[export] Hint Extern 4 (_ <= _) => lia : conduit.
#[export] Hint Extern 4 (_ < _) => lia : conduit.
