(* ===== verification/Text.v ===== *)
(** * Text: the string operations of the Rust standard library the program uses

    A string is the sequence of its bytes. The operations below agree with
    [str] and [String] on ASCII strings, which is what configuration keys, DNS
    mnemonics and presentation names are; [trim] removes the ASCII white space
    characters only. *)

From stdpp Require Import strings.
From Stdlib Require Import Ascii String.
From S2P Require Import Prelude.

#[local] Open Scope string_scope.
#[local] Open Scope Z_scope.

Definition byte_of (c : ascii) : Z := Z.of_N (N_of_ascii c).
Definition in_range (lo hi : Z) (c : ascii) : bool := (lo <=? byte_of c) && (byte_of c <=? hi).

Definition to_upper (c : ascii) : ascii :=
  if in_range 97 122 c then ascii_of_N (N_of_ascii c - 32) else c.
Definition to_lower (c : ascii) : ascii :=
  if in_range 65 90 c then ascii_of_N (N_of_ascii c + 32) else c.

Fixpoint str_map (f : ascii -> ascii) (s : string) : string :=
  match s with "" => "" | String c s' => String (f c) (str_map f s') end.

Definition to_ascii_uppercase : string -> string := str_map to_upper.
Definition to_ascii_lowercase : string -> string := str_map to_lower.

Definition eq_ignore_ascii_case (a b : string) : bool :=
  String.eqb (to_ascii_lowercase a) (to_ascii_lowercase b).

Fixpoint str_forall (p : ascii -> bool) (s : string) : bool :=
  match s with "" => true | String c s' => p c && str_forall p s' end.

(** [trim_start_matches] and [trim_end_matches] for a character predicate. *)
Fixpoint trim_start_by (p : ascii -> bool) (s : string) : string :=
  match s with
  | "" => ""
  | String c s' => if p c then trim_start_by p s' else s
  end.

Fixpoint trim_end_by (p : ascii -> bool) (s : string) : string :=
  match s with
  | "" => ""
  | String c s' =>
      match trim_end_by p s' with
      | "" => if p c then "" else String c ""
      | r => String c r
      end
  end.

Definition is_whitespace (c : ascii) : bool := in_range 9 13 c || (byte_of c =? 32).
Definition trim (s : string) : string := trim_end_by is_whitespace (trim_start_by is_whitespace s).

Fixpoint strip_prefix (p s : string) : option string :=
  match p, s with
  | "", _ => Some s
  | String c p', String d s' => if Ascii.eqb c d then strip_prefix p' s' else None
  | String _ _, "" => None
  end.

Definition starts_with (s p : string) : bool := is_someb (strip_prefix p s).

(** [s.ends_with(p)]. *)
Fixpoint ends_with (s p : string) : bool :=
  String.eqb s p || match s with "" => false | String _ s' => ends_with s' p end.

(** [s.split_once(c)]. *)
Fixpoint split_once (c : ascii) (s : string) : option (string * string) :=
  match s with
  | "" => None
  | String d s' =>
      if Ascii.eqb d c then Some ("", s')
      else let! kv := split_once c s' in Some (String d kv.1, kv.2)
  end.

(** [s.split(c)]: never empty. *)
Fixpoint split_on (c : ascii) (s : string) : list string :=
  match s with
  | "" => [""]
  | String d s' =>
      if Ascii.eqb d c then "" :: split_on c s'
      else match split_on c s' with
           | [] => [String d ""]
           | w :: ws => String d w :: ws
           end
  end.

(** [words.join(sep)]. *)
Fixpoint join (sep : string) (ws : list string) : string :=
  match ws with
  | [] => ""
  | [w] => w
  | w :: ws' => w ++ sep ++ join sep ws'
  end.

(** ** Decimal numbers *)

Definition digit_char (d : Z) : ascii := ascii_of_N (Z.to_N (48 + d)).
Definition digit_of (c : ascii) : option Z :=
  if in_range 48 57 c then Some (byte_of c - 48) else None.

(** [n.to_string()] for an unsigned integer of at most 64 bits: twenty digits. *)
Fixpoint dec_fuel (fuel : nat) (n : Z) (acc : string) : string :=
  let acc' := String (digit_char (n mod 10)) acc in
  if n <? 10 then acc'
  else match fuel with O => acc' | S f => dec_fuel f (n / 10) acc' end.
Definition dec (n : Z) : string := dec_fuel 19 n "".

Fixpoint digits_val (max acc : Z) (s : string) : option Z :=
  match s with
  | "" => Some acc
  | String c s' =>
      let! d := digit_of c in
      let v := acc * 10 + d in
      if v <=? max then digits_val max v s' else None
  end.

(** [s.parse::<uN>()] with maximum [max]: digits after an optional plus sign,
    at least one of them, no overflow. *)
Definition parse_uint (max : Z) (s : string) : option Z :=
  match s with
  | "" => None
  | String c s' =>
      if byte_of c =? 43 then match s' with "" => None | _ => digits_val max 0 s' end
      else digits_val max 0 s
  end.

(** ** Lemmas *)

Lemma byte_of_digit d : 0 <= d < 10 -> byte_of (digit_char d) = 48 + d.
Proof.
  intros H. unfold byte_of, digit_char. rewrite N_ascii_embedding by lia. lia.
Qed.

Lemma digit_of_char d : 0 <= d < 10 -> digit_of (digit_char d) = Some d.
Proof.
  intros H. unfold digit_of, in_range. rewrite byte_of_digit by done.
  destruct (48 <=? 48 + d) eqn:E1, (48 + d <=? 57) eqn:E2; simpl; try lia.
  f_equal; lia.
Qed.

Definition is_digit (c : ascii) : bool := in_range 48 57 c.

Lemma is_digit_char d : 0 <= d < 10 -> is_digit (digit_char d) = true.
Proof. intros H. unfold is_digit, in_range. rewrite byte_of_digit by done. lia. Qed.

Lemma dec_fuel_digits f n acc :
  0 <= n -> str_forall is_digit acc = true -> str_forall is_digit (dec_fuel f n acc) = true.
Proof.
  revert n acc. induction f as [|f IH]; intros n acc Hn Hacc; simpl;
    assert (Hd : is_digit (digit_char (n mod 10)) = true) by (apply is_digit_char, Z.mod_pos_bound; lia);
    case_match; simpl; rewrite ?Hd; try done.
  apply IH; [apply Z.div_pos; lia|]. simpl. by rewrite Hd.
Qed.

Lemma dec_digits n : 0 <= n -> str_forall is_digit (dec n) = true.
Proof. intros. by apply dec_fuel_digits. Qed.

Lemma dec_fuel_cons f n acc : exists c s, dec_fuel f n acc = String c s.
Proof.
  revert n acc. induction f as [|f IH]; intros; simpl; case_match; eauto.
Qed.

Lemma digits_val_dec_fuel max f n acc :
  0 <= n < 10 ^ (Z.of_nat f + 1) -> n <= max ->
  digits_val max 0 (dec_fuel f n acc) = digits_val max n acc.
Proof.
  revert n acc. induction f as [|f IH]; intros n acc Hn Hmax; cbn [dec_fuel];
    assert (0 <= n mod 10 < 10) by (apply Z.mod_pos_bound; lia).
  - assert (n < 10) by (change (10 ^ (Z.of_nat 0 + 1)) with 10 in Hn; lia).
    destruct (n <? 10) eqn:E; [|lia]. cbn [digits_val].
    rewrite digit_of_char by lia. rewrite Z.mod_small by lia.
    rewrite Z.mul_0_l, Z.add_0_l. destruct (n <=? max) eqn:E2; [done|lia].
  - destruct (n <? 10) eqn:E.
    + cbn [digits_val]. rewrite digit_of_char by lia. rewrite Z.mod_small by lia.
      rewrite Z.mul_0_l, Z.add_0_l. destruct (n <=? max) eqn:E2; [done|lia].
    + rewrite IH.
      * cbn [digits_val]. rewrite digit_of_char by lia.
        rewrite Z.mul_comm, <- Z.div_mod by lia.
        destruct (n <=? max) eqn:E2; [done|lia].
      * rewrite Nat2Z.inj_succ, Z.add_succ_l, Z.pow_succ_r in Hn by lia.
        split; [apply Z.div_pos; lia|]. apply Z.div_lt_upper_bound; lia.
      * assert (n / 10 <= n) by (apply Z.div_le_upper_bound; lia). lia.
Qed.

Lemma digits_val_dec max n : fits 64 n -> n <= max -> digits_val max 0 (dec n) = Some n.
Proof.
  intros [H1 H2] Hm. unfold dec. rewrite digits_val_dec_fuel; [done| |done].
  split; [done|]. eapply Z.lt_trans; [exact H2|]. vm_compute. done.
Qed.

Lemma parse_uint_dec max n : fits 64 n -> n <= max -> parse_uint max (dec n) = Some n.
Proof.
  intros H Hm. pose proof (digits_val_dec max n H Hm) as Hv.
  pose proof (dec_digits n (proj1 H)) as Hd.
  destruct (dec_fuel_cons 19 n "") as (c & s & E). fold (dec n) in E.
  rewrite E in *. simpl in Hd. apply andb_prop in Hd as [Hc _].
  unfold parse_uint. unfold is_digit, in_range in Hc.
  destruct (byte_of c =? 43) eqn:E43; [lia|done].
Qed.

Lemma dec_inj n m : fits 64 n -> fits 64 m -> dec n = dec m -> n = m.
Proof.
  intros Hn Hm E.
  pose proof (digits_val_dec (Z.max n m) n Hn ltac:(lia)) as H1.
  pose proof (digits_val_dec (Z.max n m) m Hm ltac:(lia)) as H2.
  rewrite E in H1. congruence.
Qed.

(** *** Character classes *)

Lemma str_forall_app p a b : str_forall p (a ++ b) = str_forall p a && str_forall p b.
Proof. induction a as [|c a IH]; simpl; [done|]. by rewrite IH, andb_assoc. Qed.

Lemma str_forall_impl (p q : ascii -> bool) s :
  (forall c, p c = true -> q c = true) -> str_forall p s = true -> str_forall q s = true.
Proof.
  intros H. induction s as [|c s IH]; simpl; [done|].
  intros [Hc Hs]%andb_prop. by rewrite (H c Hc), (IH Hs).
Qed.

Lemma str_map_app f a b : str_map f (a ++ b) = str_map f a ++ str_map f b.
Proof. induction a as [|c a IH]; simpl; [done|]. by rewrite IH. Qed.

Lemma str_map_id_on f p s :
  (forall c, p c = true -> f c = c) -> str_forall p s = true -> str_map f s = s.
Proof.
  intros H. induction s as [|c s IH]; simpl; [done|].
  intros [Hc Hs]%andb_prop. by rewrite (H c Hc), (IH Hs).
Qed.

Lemma digit_lower c : is_digit c = true -> to_lower c = c.
Proof.
  unfold is_digit, to_lower, in_range. intros H.
  destruct (65 <=? byte_of c) eqn:E; [lia|done].
Qed.

Lemma digit_upper c : is_digit c = true -> to_upper c = c.
Proof.
  unfold is_digit, to_upper, in_range. intros H.
  destruct (97 <=? byte_of c) eqn:E; [lia|done].
Qed.

Lemma digit_not_ws c : is_digit c = true -> negb (is_whitespace c) = true.
Proof. unfold is_digit, is_whitespace, in_range. lia. Qed.

Lemma trim_start_by_id p s : str_forall (fun c => negb (p c)) s = true -> trim_start_by p s = s.
Proof. destruct s as [|c s]; simpl; [done|]. by destruct (p c). Qed.

Lemma trim_end_by_id p s : str_forall (fun c => negb (p c)) s = true -> trim_end_by p s = s.
Proof.
  induction s as [|c s IH]; simpl; [done|]. intros [Hc Hs]%andb_prop.
  rewrite (IH Hs). destruct s; [|done]. by destruct (p c).
Qed.

Lemma trim_id s : str_forall (fun c => negb (is_whitespace c)) s = true -> trim s = s.
Proof.
  intros H. unfold trim. by rewrite trim_start_by_id, trim_end_by_id.
Qed.

Lemma strip_prefix_app p s : strip_prefix p (p ++ s) = Some s.
Proof. induction p as [|c p IH]; simpl; [done|]. by rewrite Ascii.eqb_refl. Qed.

Lemma starts_with_app p s : starts_with (p ++ s) p = true.
Proof. unfold starts_with. by rewrite strip_prefix_app. Qed.

Lemma str_app_inj_l p a b : p ++ a = p ++ b -> a = b.
Proof. induction p as [|c p IH]; simpl; [done|]. intros [= H]. by apply IH. Qed.
