(* ===== verification/Floats.v ===== *)
(** * Floats: the binary64 arithmetic the program uses

    Sampling rates and latency factors are [f64]s. They are the Standard
    Library's [spec_float] at precision 53 and exponent bound 1024, with the
    conversions of Rust: [as] from an integer rounds to nearest even, [as] to an
    integer saturates and sends NaN to zero, [round] is half away from zero. *)

From Stdlib Require Import SpecFloat.
From S2P Require Import Prelude.

Definition f64 : Type := spec_float.

Definition f64_of_Z (z : Z) : f64 := binary_normalize 53 1024 z 0 false.
Definition f64_mul : f64 -> f64 -> f64 := SFmul 53 1024.
Definition f64_div : f64 -> f64 -> f64 := SFdiv 53 1024.
Definition f64_add : f64 -> f64 -> f64 := SFadd 53 1024.
Definition f64_sub : f64 -> f64 -> f64 := SFsub 53 1024.

(** [a >= b], [a <= b] and [a < b]; false on NaN. *)
Definition f64_ge (a b : f64) : bool :=
  match SFcompare a b with Some Gt | Some Eq => true | _ => false end.
Definition f64_le (a b : f64) : bool :=
  match SFcompare a b with Some Lt | Some Eq => true | _ => false end.
Definition f64_lt (a b : f64) : bool :=
  match SFcompare a b with Some Lt => true | _ => false end.

(** [f64::min]: the other operand when one is NaN. *)
Definition f64_min (a b : f64) : f64 :=
  match a, b with
  | S754_nan, _ => b
  | _, S754_nan => a
  | _, _ => if f64_le a b then a else b
  end.

Definition f64_max (a b : f64) : f64 :=
  match a, b with
  | S754_nan, _ => b
  | _, S754_nan => a
  | _, _ => if f64_le a b then b else a
  end.

(** The value [m * 2 ^ e] rounded down, and a magnitude rounded half up. *)
Definition scale_floor (m e : Z) : Z :=
  if 0 <=? e then m * 2 ^ e else m / 2 ^ (- e).
Definition scale_round (m e : Z) : Z :=
  if 0 <=? e then m * 2 ^ e else (2 * m + 2 ^ (- e)) / 2 ^ (1 - e).

(** The saturating cast of an integral value to the range [lo .. hi]. *)
Definition clamp (lo hi z : Z) : Z := Z.max lo (Z.min hi z).

(** [x.floor() as T] and [x.round() as T] for a type of range [lo .. hi]. *)
Definition floor_as (lo hi : Z) (x : f64) : Z :=
  match x with
  | S754_zero _ => clamp lo hi 0
  | S754_nan => 0
  | S754_infinity s => if s then lo else hi
  | S754_finite s m e => clamp lo hi (scale_floor (if s then Zneg m else Zpos m) e)
  end.

Definition round_as (lo hi : Z) (x : f64) : Z :=
  match x with
  | S754_zero _ => clamp lo hi 0
  | S754_nan => 0
  | S754_infinity s => if s then lo else hi
  | S754_finite s m e =>
      clamp lo hi (if s then - scale_round (Zpos m) e else scale_round (Zpos m) e)
  end.

Definition i64_min : Z := - 2 ^ 63.
Definition i64_max : Z := 2 ^ 63 - 1.
