(* ===== verification/DnsWire.v ===== *)
(** * DnsWire: the wire-number enums of conduit-dns-wire

    src/crates/conduit-dns-wire/src/lib.rs and the registry tables of iana.rs:
    mnemonics of record types, response codes, classes, opcodes and EDNS
    options, with the [PREFIXn] spelling of unassigned numbers. The theorem of
    the file is the print/parse round trip for every number of every enum. *)

From stdpp Require Import strings.
From Stdlib Require Import Ascii String.
From S2P Require Import Prelude Text.

#[local] Open Scope string_scope.
#[local] Open Scope Z_scope.

Record WireEnumEntry := Entry { number : Z; name : string }.

Definition canonical_from_entries (entries : list WireEnumEntry) (n : Z)
    (unknown_prefix : string) : string :=
  match List.find (fun e => number e =? n) entries with
  | Some e => name e
  | None => unknown_prefix ++ dec n
  end.

Definition parse_name_from_entries (entries : list WireEnumEntry) (s unknown_prefix : string)
    : option Z :=
  let trimmed := trim s in
  match List.find (fun e => eq_ignore_ascii_case (name e) trimmed
                       || eq_ignore_ascii_case (unknown_prefix ++ dec (number e)) trimmed)
                  entries with
  | Some e => Some (number e)
  | None =>
      let! rest := strip_prefix (to_ascii_uppercase unknown_prefix) (to_ascii_uppercase trimmed) in
      parse_uint u16_max rest
  end.

Definition parse_name_with_aliases (entries : list WireEnumEntry) (name_aliases : list (string * Z))
    (s unknown_prefix : string) : option Z :=
  or_else (parse_name_from_entries entries s unknown_prefix)
    (let trimmed := trim s in
     snd <$> List.find (fun a => eq_ignore_ascii_case a.1 trimmed) name_aliases).

(** ** The registries *)

Definition KNOWN_RECORD_TYPES : list WireEnumEntry :=
  [Entry 0 "ZERO"; Entry 1 "A"; Entry 2 "NS"; Entry 3 "MD"; Entry 4 "MF"; Entry 5 "CNAME";
   Entry 6 "SOA"; Entry 7 "MB"; Entry 8 "MG"; Entry 9 "MR"; Entry 10 "NULL"; Entry 11 "WKS";
   Entry 12 "PTR"; Entry 13 "HINFO"; Entry 14 "MINFO"; Entry 15 "MX"; Entry 16 "TXT";
   Entry 17 "RP"; Entry 18 "AFSDB"; Entry 19 "X25"; Entry 20 "ISDN"; Entry 21 "RT";
   Entry 22 "NSAP"; Entry 23 "NSAP_PTR"; Entry 24 "SIG"; Entry 25 "KEY"; Entry 26 "PX";
   Entry 27 "GPOS"; Entry 28 "AAAA"; Entry 29 "LOC"; Entry 30 "NXT"; Entry 31 "EID";
   Entry 32 "NIMLOC"; Entry 33 "SRV"; Entry 34 "ATMA"; Entry 35 "NAPTR"; Entry 36 "KX";
   Entry 37 "CERT"; Entry 38 "A6"; Entry 39 "DNAME"; Entry 40 "SINK"; Entry 41 "OPT";
   Entry 42 "APL"; Entry 43 "DS"; Entry 44 "SSHFP"; Entry 45 "IPSECKEY"; Entry 46 "RRSIG";
   Entry 47 "NSEC"; Entry 48 "DNSKEY"; Entry 49 "DHCID"; Entry 50 "NSEC3";
   Entry 51 "NSEC3PARAM"; Entry 52 "TLSA"; Entry 53 "SMIMEA"; Entry 54 "UNASSIGNED";
   Entry 55 "HIP"; Entry 56 "NINFO"; Entry 57 "RKEY"; Entry 58 "TALINK"; Entry 59 "CDS";
   Entry 60 "CDNSKEY"; Entry 61 "OPENPGPKEY"; Entry 62 "CSYNC"; Entry 63 "ZONEMD";
   Entry 64 "SVCB"; Entry 65 "HTTPS"; Entry 66 "DSYNC"; Entry 67 "HHIT"; Entry 68 "BRID";
   Entry 99 "SPF"; Entry 100 "UINFO"; Entry 101 "UID"; Entry 102 "GID"; Entry 103 "UNSPEC";
   Entry 104 "NID"; Entry 105 "L32"; Entry 106 "L64"; Entry 107 "LP"; Entry 108 "EUI48";
   Entry 109 "EUI64"; Entry 128 "NXNAME"; Entry 249 "TKEY"; Entry 250 "TSIG"; Entry 251 "IXFR";
   Entry 252 "AXFR"; Entry 253 "MAILB"; Entry 254 "MAILA"; Entry 256 "URI"; Entry 257 "CAA";
   Entry 258 "AVC"; Entry 259 "DOA"; Entry 260 "AMTRELAY"; Entry 261 "RESINFO";
   Entry 262 "WALLET"; Entry 263 "CLA"; Entry 264 "IPN"; Entry 32768 "TA"; Entry 32769 "DLV";
   Entry 65305 "ANAME"; Entry 65535 "RESERVED"].

Definition KNOWN_RCODES : list WireEnumEntry :=
  [Entry 0 "NOERROR"; Entry 1 "FORMERR"; Entry 2 "SERVFAIL"; Entry 3 "NXDOMAIN";
   Entry 4 "NOTIMP"; Entry 5 "REFUSED"; Entry 6 "YXDOMAIN"; Entry 7 "YXRRSET";
   Entry 8 "NXRRSET"; Entry 9 "NOTAUTH"; Entry 10 "NOTZONE"; Entry 11 "DSOTYPENI";
   Entry 16 "BADVERS"; Entry 17 "BADKEY"; Entry 18 "BADTIME"; Entry 19 "BADMODE";
   Entry 20 "BADNAME"; Entry 21 "BADALG"; Entry 22 "BADTRUNC"; Entry 23 "BADCOOKIE";
   Entry 65535 "RESERVED_CAN_BE_ALLOCATED_BY_STANDARDS_ACTION"].

Definition KNOWN_QUERY_CLASSES : list WireEnumEntry :=
  [Entry 0 "RESERVED"; Entry 1 "IN"; Entry 2 "UNASSIGNED"; Entry 3 "CH"; Entry 4 "HS";
   Entry 254 "NONE"; Entry 255 "ANY"; Entry 65535 "RESERVED65535"].

Definition KNOWN_DNS_OPCODES : list WireEnumEntry :=
  [Entry 0 "QUERY"; Entry 1 "IQUERY"; Entry 2 "STATUS"; Entry 3 "UNASSIGNED"; Entry 4 "NOTIFY";
   Entry 5 "UPDATE"; Entry 6 "DNS_STATEFUL_OPERATIONS"].

Definition KNOWN_EDNS_OPTION_CODES : list WireEnumEntry :=
  [Entry 0 "ZERO"; Entry 1 "LLQ"; Entry 2 "UPDATE_LEASE"; Entry 3 "NSID"; Entry 4 "RESERVED4";
   Entry 5 "DAU"; Entry 6 "DHU"; Entry 7 "N3U"; Entry 8 "EDNS_CLIENT_SUBNET";
   Entry 9 "EDNS_EXPIRE"; Entry 10 "COOKIE"; Entry 11 "EDNS_TCP_KEEPALIVE"; Entry 12 "PADDING";
   Entry 13 "CHAIN"; Entry 14 "EDNS_KEY_TAG"; Entry 15 "EXTENDED_DNS_ERROR";
   Entry 16 "EDNS_CLIENT_TAG"; Entry 17 "EDNS_SERVER_TAG"; Entry 18 "REPORT_CHANNEL";
   Entry 19 "ZONEVERSION"; Entry 20 "MQTYPE_QUERY"; Entry 21 "MQTYPE_RESPONSE";
   Entry 22 "EDE_EXTRA_TEXT_LANGUAGE"; Entry 23 "FILTERING_CONTACT";
   Entry 24 "FILTERING_ORGANIZATION"; Entry 25 "FILTERING_DB"; Entry 20292 "UMBRELLA_IDENT";
   Entry 26946 "DEVICEID"; Entry 65535 "RESERVED_FOR_FUTURE_EXPANSION"].

Definition RECORD_TYPE_PARSE_ALIASES : list (string * Z) :=
  [].

Definition RCODE_PARSE_ALIASES : list (string * Z) :=
  [("BADSIG", 16)].

Definition QUERY_CLASS_PARSE_ALIASES : list (string * Z) :=
  [].

Definition DNS_OPCODE_PARSE_ALIASES : list (string * Z) :=
  [("DSO", 6)].

Definition EDNS_OPTION_CODE_PARSE_ALIASES : list (string * Z) :=
  [("UL", 2); ("CLIENT_SUBNET", 8); ("EXPIRE", 9); ("TCP_KEEPALIVE", 11); ("KEY_TAG", 14); ("EDE", 15); ("UMBRELLA", 20292)].

(** ** The enums

    The macro [impl_wire_enum!] instantiates one newtype per registry; the
    record holds the macro's arguments, [width] the bits of the number type. *)
Record WireEnum := {
  known : list WireEnumEntry;
  parse_aliases : list (string * Z);
  UNKNOWN_PREFIX : string;
  width : Z;
}.

Definition RecordType := {| known := KNOWN_RECORD_TYPES;
  parse_aliases := RECORD_TYPE_PARSE_ALIASES; UNKNOWN_PREFIX := "TYPE"; width := 16 |}.
Definition Rcode := {| known := KNOWN_RCODES;
  parse_aliases := RCODE_PARSE_ALIASES; UNKNOWN_PREFIX := "RCODE"; width := 16 |}.
Definition QueryClass := {| known := KNOWN_QUERY_CLASSES;
  parse_aliases := QUERY_CLASS_PARSE_ALIASES; UNKNOWN_PREFIX := "CLASS"; width := 16 |}.
Definition DnsOpcode := {| known := KNOWN_DNS_OPCODES;
  parse_aliases := DNS_OPCODE_PARSE_ALIASES; UNKNOWN_PREFIX := "OPCODE"; width := 8 |}.
Definition EdnsOptionCode := {| known := KNOWN_EDNS_OPTION_CODES;
  parse_aliases := EDNS_OPTION_CODE_PARSE_ALIASES; UNKNOWN_PREFIX := "CODE"; width := 16 |}.

Definition name_for (E : WireEnum) (n : Z) : string :=
  canonical_from_entries (known E) n (UNKNOWN_PREFIX E).

(** The number of the newtype [parse_name] returns: narrowed with [as]. *)
Definition parse_name (E : WireEnum) (s : string) : option Z :=
  wrap (width E) <$> parse_name_with_aliases (known E) (parse_aliases E) s (UNKNOWN_PREFIX E).

(** The error carries the offending text; its wording is not modelled. *)
Inductive WireError :=
  | UnknownValue (s : string)
  | NotWireEnum (selector_type : string).

Definition parse_name_or_err (E : WireEnum) (s : string) : result Z WireError :=
  match parse_name E s with Some n => Ok n | None => Err (UnknownValue s) end.

Definition parse_selector_wire_value (selector_type value : string) : result Z WireError :=
  if String.eqb selector_type "qtype" then parse_name_or_err RecordType value
  else if String.eqb selector_type "rcode" then parse_name_or_err Rcode value
  else if String.eqb selector_type "qclass" then parse_name_or_err QueryClass value
  else if String.eqb selector_type "opcode" then parse_name_or_err DnsOpcode value
  else if String.eqb selector_type "edns_option" then parse_name_or_err EdnsOptionCode value
  else Err (NotWireEnum selector_type).

(** ** Round trip *)

(** What the generator guarantees of a registry, checked by evaluation: every
    mnemonic parses to its own number, starts with no unknown prefix, and the
    prefix is upper case text without white space. *)
Definition upper_alpha (c : ascii) : bool := in_range 65 90 c.

Definition registry_ok (E : WireEnum) : bool :=
  forallb (fun e =>
    match parse_name_from_entries (known E) (name e) (UNKNOWN_PREFIX E) with
    | Some n => n =? number e
    | None => false
    end
    && negb (starts_with (to_ascii_lowercase (name e)) (to_ascii_lowercase (UNKNOWN_PREFIX E)))
    && (0 <=? number e) && (number e <=? u16_max)) (known E)
  && str_forall upper_alpha (UNKNOWN_PREFIX E)
  && (8 <=? width E) && (width E <=? 16).

Lemma upper_alpha_upper c : upper_alpha c = true -> to_upper c = c.
Proof.
  unfold upper_alpha, to_upper, in_range. intros H.
  destruct (97 <=? byte_of c) eqn:E; [lia|done].
Qed.

Lemma upper_alpha_not_ws c : upper_alpha c = true -> negb (is_whitespace c) = true.
Proof. unfold upper_alpha, is_whitespace, in_range. lia. Qed.

Section roundtrip.
Context (E : WireEnum) (HE : registry_ok E = true).

Lemma registry_entry e :
  In e (known E) ->
  parse_name_from_entries (known E) (name e) (UNKNOWN_PREFIX E) = Some (number e)
  /\ starts_with (to_ascii_lowercase (name e)) (to_ascii_lowercase (UNKNOWN_PREFIX E)) = false
  /\ fits 16 (number e).
Proof using HE.
  intros Hin. unfold registry_ok in HE.
  repeat match goal with H : _ && _ = true |- _ => apply andb_prop in H as [H ?] end.
  pose proof (proj1 (forallb_forall _ _) HE e Hin) as H'. cbv beta in H'.
  repeat match goal with H : _ && _ = true |- _ => apply andb_prop in H as [H ?] end.
  case_match; [|done]. simplify_eq/=. unfold fits, u16_max in *.
  split_and!; [f_equal; lia|by apply negb_true_iff|lia|lia].
Qed.

Lemma registry_prefix : str_forall upper_alpha (UNKNOWN_PREFIX E) = true.
Proof using HE.
  unfold registry_ok in HE. by repeat (apply andb_prop in HE as [HE ?]).
Qed.

Lemma prefixed_trim n : 0 <= n -> trim (UNKNOWN_PREFIX E ++ dec n) = UNKNOWN_PREFIX E ++ dec n.
Proof using HE.
  intros Hn. apply trim_id. rewrite str_forall_app.
  by rewrite (str_forall_impl _ _ _ upper_alpha_not_ws registry_prefix),
    (str_forall_impl _ _ _ digit_not_ws (dec_digits n Hn)).
Qed.

Lemma prefixed_lower n : 0 <= n ->
  to_ascii_lowercase (UNKNOWN_PREFIX E ++ dec n) = to_ascii_lowercase (UNKNOWN_PREFIX E) ++ dec n.
Proof using HE.
  intros Hn. unfold to_ascii_lowercase. rewrite str_map_app. f_equal.
  apply (str_map_id_on _ is_digit); [apply digit_lower|by apply dec_digits].
Qed.

(** The [PREFIXn] spelling parses to [n], whether or not [n] is assigned. *)
Lemma parse_prefixed n : fits 16 n ->
  parse_name_from_entries (known E) (UNKNOWN_PREFIX E ++ dec n) (UNKNOWN_PREFIX E) = Some n.
Proof using HE.
  intros Hn. pose proof Hn as [Hn0 Hn1]. unfold parse_name_from_entries.
  rewrite prefixed_trim by done.
  destruct (List.find _ _) as [e|] eqn:Ef.
  - apply find_some in Ef as [Hin Hm]. destruct (registry_entry e Hin) as (_ & Hp & He).
    f_equal. unfold eq_ignore_ascii_case in Hm.
    rewrite !prefixed_lower in Hm by (done || apply He).
    apply orb_prop in Hm as [Hm|Hm]; apply String.eqb_eq in Hm.
    + rewrite Hm, starts_with_app in Hp. done.
    + apply str_app_inj_l in Hm. unfold fits in *.
      apply dec_inj in Hm; unfold fits; lia.
  - unfold to_ascii_uppercase. rewrite str_map_app, strip_prefix_app.
    rewrite (str_map_id_on _ is_digit) by (apply digit_upper || by apply dec_digits).
    apply parse_uint_dec; unfold fits, u16_max in *; lia.
Qed.

Lemma canonical_parse n : fits 16 n ->
  parse_name_from_entries (known E) (name_for E n) (UNKNOWN_PREFIX E) = Some n.
Proof using HE.
  intros Hn. unfold name_for, canonical_from_entries.
  destruct (List.find _ _) as [e|] eqn:Ef; [|by apply parse_prefixed].
  apply find_some in Ef as [Hin Heq]. apply Z.eqb_eq in Heq as <-.
  apply (registry_entry e Hin).
Qed.
End roundtrip.

#[export] Hint Extern 1 (registry_ok _ = true) => vm_compute; reflexivity : conduit.

(** For every wire enum of the program (record types, response codes,
    classes, opcodes, EDNS options) and every number of its width, parsing the
    canonical name gives the number back: labels and selectors agree on every
    value, assigned or not. *)
Theorem wire_name_roundtrip (E : WireEnum) (n : Z) :
  In E [RecordType; Rcode; QueryClass; DnsOpcode; EdnsOptionCode] ->
  fits (width E) n ->
  parse_name E (name_for E n) = Some n.
Proof.
  intros HE Hn. unfold parse_name, parse_name_with_aliases.
  assert (Hok : registry_ok E = true /\ 2 ^ width E <= 2 ^ 16).
  { simpl in HE. destruct_or!; subst; split; auto with conduit; done. }
  destruct Hok as [Hok Hw]. rewrite (canonical_parse E Hok) by (unfold fits in *; lia).
  simpl. by rewrite wrap_small.
Qed.

Lemma wire_name_roundtrip_witness :
  fits (width RecordType) 65280 /\
  parse_name RecordType (name_for RecordType 65280) = Some 65280.
Proof.
  assert (H : fits (width RecordType) 65280) by (vm_compute; split; [intros [=]|done]).
  split; [exact H|]. apply (wire_name_roundtrip RecordType 65280); [left; reflexivity|exact H].
Defined.

(** An opcode selector narrows the parsed number to eight bits, so the
    spelling [OPCODEn] selects opcode [n mod 256] for every [n] of sixteen
    bits: an out-of-range opcode is accepted and means another opcode. *)
Theorem opcode_selector_wraps (n : Z) :
  fits 16 n ->
  parse_selector_wire_value "opcode" ("OPCODE" ++ dec n) = Ok (n mod 256).
Proof.
  intros Hn. unfold parse_selector_wire_value, parse_name_or_err, parse_name,
    parse_name_with_aliases. cbn [String.eqb Ascii.eqb Bool.eqb].
  pose proof (parse_prefixed DnsOpcode ltac:(auto with conduit) n Hn) as H.
  cbn [UNKNOWN_PREFIX DnsOpcode] in *. by rewrite H.
Qed.

Lemma opcode_selector_wraps_witness :
  fits 16 256 /\ parse_selector_wire_value "opcode" ("OPCODE" ++ dec 256) = Ok 0.
Proof.
  assert (H : fits 16 256) by (vm_compute; split; [intros [=]|done]).
  split; [exact H|]. exact (opcode_selector_wraps 256 H).
Defined.
