(* ===== verification/Transaction.v ===== *)
(** * Transaction: the per-query state of the pipeline

    src/crates/conduit-core/src/transaction.rs, with the small types of phase.rs,
    parse_reject.rs, lookup/outcome.rs, the attempt record of routing.rs and the
    trace buffer of conduit-metrics/src/trace.rs. A method of [Transaction] is a
    function on the record; a method that reads a clock takes the reading. *)

From stdpp Require Import strings gmap.
From Stdlib Require Import String.
From S2P Require Import Prelude Text DnsWire.

#[local] Open Scope string_scope.
#[local] Open Scope Z_scope.

Inductive Phase :=
  | Receive | Parse | RequestRules | Lookup | ResponseRules | Send
  | Route | Forward | WaitResponse.

#[global] Instance Phase_eq_dec : EqDecision Phase.
Proof. solve_decision. Defined.

Inductive ClientProtocol := Udp | Tcp.

#[global] Instance ClientProtocol_eq_dec : EqDecision ClientProtocol.
Proof. solve_decision. Defined.

Inductive ParseRejectReason :=
  | RejectEmpty | RejectWireError | RejectNotQuery | RejectNoQuestion | RejectMultiQuestion.

Inductive LookupOutcome := Answered | Miss | Pending | Bypass | LookupFail.

Inductive AnswerSource := SourceCache | SourceForward.

Inductive LookupForwardStep := Wait.

(** What a pipeline stage returns (pipeline.rs). *)
Inductive StageOutcome :=
  | Continue (p : Phase)
  | DropQuery
  | Suspend (resume_phase : Phase).

#[global] Instance StageOutcome_eq_dec : EqDecision StageOutcome.
Proof. solve_decision. Defined.

Record ResponseWireMeta := {
  answer_count : Z;
  authority_count : Z;
  additional_count : Z;
  truncated : bool;
  authoritative : bool;
}.

Record AttemptRecord := { ar_pool : string; ar_backend : SocketAddr; ar_attempt : Z }.

Record LookupCacheWait := { cw_cache_name : string; cw_key : list Z }.
Record LookupCacheFill := { cf_cache_name : string; cf_key : list Z }.

(** The pinned registry is identified by its generation. *)
Record MetricsPin := { pin_generation : Z }.

Record TraceEvent := {
  te_phase : string;
  te_elapsed_us : Z;
  te_message : option string;
  te_pool : option string;
  te_backend : option string;
  te_cache : option string;
}.

(** ** Tags *)

Record TagSet := { flags : gmap string bool; strings : gmap string string }.

Definition TagSet_default : TagSet := {| flags := ∅; strings := ∅ |}.

Definition set_bool (t : TagSet) (key : string) (value : bool) : TagSet :=
  {| flags := <[key := value]> (flags t); strings := strings t |}.

Definition set_string (t : TagSet) (key value : string) : TagSet :=
  {| flags := flags t; strings := <[key := value]> (strings t) |}.

Definition clear_tag (t : TagSet) (key : string) : TagSet :=
  {| flags := delete key (flags t); strings := delete key (strings t) |}.

Definition has_tag (t : TagSet) (key : string) : bool :=
  default false (flags t !! key) || is_someb (strings t !! key).

(** ** The transaction *)

Record Transaction := MkTransaction {
  id : Z;
  global_query_index : Z;
  tags : TagSet;
  current_phase : Phase;
  query_wire : list Z;
  response_wire : option (list Z);
  response_meta : option ResponseWireMeta;
  dns_id : Z;
  qname : option string;
  qtype : option Z;
  qclass : option Z;
  opcode : option Z;
  edns_option_codes : list Z;
  client_addr : SocketAddr;
  parse_reject_reason : option ParseRejectReason;
  listener_label : option string;
  protocol : ClientProtocol;
  client_udp_payload_size : option Z;
  udp_response_truncated_on_send : bool;
  selected_pool : option string;
  selected_backend : option SocketAddr;
  selected_backend_label : option string;
  attempts : list AttemptRecord;
  attempt_count : Z;
  retry_pool : option string;
  started_at : Z;
  received_at : Z;
  last_forward_ms : Z;
  forward_started_at : option Z;
  snapshot_generation : Z;
  metrics_pin : option MetricsPin;
  dropped : bool;
  soft_drop : bool;
  source_override_v4 : option Z;
  source_override_v6 : option Z;
  retry_source_override_v4 : option Z;
  retry_source_override_v6 : option Z;
  trace_log : option (list TraceEvent);
  pre_parsed : bool;
  suspend_phase_started_at : option Z;
  forward_metrics_recorded : bool;
  lookup_profile : option string;
  lookup_outcome : option LookupOutcome;
  answer_source : option AnswerSource;
  cache_instance : option string;
  cache_lookup_eligible : bool;
  lookup_forward_step : option LookupForwardStep;
  lookup_cache_wait : option LookupCacheWait;
  lookup_cache_fill : option LookupCacheFill;
  rcode : option Z;
}.

Ltac txn_setter :=
  setter MkTransaction (id, global_query_index, tags, current_phase, query_wire, response_wire, response_meta,
    dns_id, qname, qtype, qclass, opcode, edns_option_codes, client_addr, parse_reject_reason,
    listener_label, protocol, client_udp_payload_size, udp_response_truncated_on_send,
    selected_pool, selected_backend, selected_backend_label, attempts, attempt_count,
    retry_pool, started_at, received_at, last_forward_ms, forward_started_at,
    snapshot_generation, metrics_pin, dropped, soft_drop, source_override_v4,
    source_override_v6, retry_source_override_v4, retry_source_override_v6, trace_log,
    pre_parsed, suspend_phase_started_at, forward_metrics_recorded, lookup_profile,
    lookup_outcome, answer_source, cache_instance, cache_lookup_eligible, lookup_forward_step,
    lookup_cache_wait, lookup_cache_fill, rcode).

#[export] Instance set_id : Setter id := ltac:(txn_setter).
#[export] Instance set_global_query_index : Setter global_query_index := ltac:(txn_setter).
#[export] Instance set_tags : Setter tags := ltac:(txn_setter).
#[export] Instance set_current_phase : Setter current_phase := ltac:(txn_setter).
#[export] Instance set_query_wire : Setter query_wire := ltac:(txn_setter).
#[export] Instance set_response_wire : Setter response_wire := ltac:(txn_setter).
#[export] Instance set_response_meta : Setter response_meta := ltac:(txn_setter).
#[export] Instance set_dns_id : Setter dns_id := ltac:(txn_setter).
#[export] Instance set_qname : Setter qname := ltac:(txn_setter).
#[export] Instance set_qtype : Setter qtype := ltac:(txn_setter).
#[export] Instance set_qclass : Setter qclass := ltac:(txn_setter).
#[export] Instance set_opcode : Setter opcode := ltac:(txn_setter).
#[export] Instance set_edns_option_codes : Setter edns_option_codes := ltac:(txn_setter).
#[export] Instance set_parse_reject_reason : Setter parse_reject_reason := ltac:(txn_setter).
#[export] Instance set_listener_label : Setter listener_label := ltac:(txn_setter).
#[export] Instance set_client_udp_payload_size : Setter client_udp_payload_size := ltac:(txn_setter).
#[export] Instance set_udp_response_truncated_on_send : Setter udp_response_truncated_on_send := ltac:(txn_setter).
#[export] Instance set_selected_pool : Setter selected_pool := ltac:(txn_setter).
#[export] Instance set_selected_backend : Setter selected_backend := ltac:(txn_setter).
#[export] Instance set_selected_backend_label : Setter selected_backend_label := ltac:(txn_setter).
#[export] Instance set_attempts : Setter attempts := ltac:(txn_setter).
#[export] Instance set_attempt_count : Setter attempt_count := ltac:(txn_setter).
#[export] Instance set_retry_pool : Setter retry_pool := ltac:(txn_setter).
#[export] Instance set_started_at : Setter started_at := ltac:(txn_setter).
#[export] Instance set_last_forward_ms : Setter last_forward_ms := ltac:(txn_setter).
#[export] Instance set_forward_started_at : Setter forward_started_at := ltac:(txn_setter).
#[export] Instance set_snapshot_generation : Setter snapshot_generation := ltac:(txn_setter).
#[export] Instance set_metrics_pin : Setter metrics_pin := ltac:(txn_setter).
#[export] Instance set_dropped : Setter dropped := ltac:(txn_setter).
#[export] Instance set_soft_drop : Setter soft_drop := ltac:(txn_setter).
#[export] Instance set_source_override_v4 : Setter source_override_v4 := ltac:(txn_setter).
#[export] Instance set_source_override_v6 : Setter source_override_v6 := ltac:(txn_setter).
#[export] Instance set_retry_source_override_v4 : Setter retry_source_override_v4 := ltac:(txn_setter).
#[export] Instance set_retry_source_override_v6 : Setter retry_source_override_v6 := ltac:(txn_setter).
#[export] Instance set_trace_log : Setter trace_log := ltac:(txn_setter).
#[export] Instance set_pre_parsed : Setter pre_parsed := ltac:(txn_setter).
#[export] Instance set_suspend_phase_started_at : Setter suspend_phase_started_at := ltac:(txn_setter).
#[export] Instance set_forward_metrics_recorded : Setter forward_metrics_recorded := ltac:(txn_setter).
#[export] Instance set_lookup_profile : Setter lookup_profile := ltac:(txn_setter).
#[export] Instance set_lookup_outcome : Setter lookup_outcome := ltac:(txn_setter).
#[export] Instance set_answer_source : Setter answer_source := ltac:(txn_setter).
#[export] Instance set_cache_instance : Setter cache_instance := ltac:(txn_setter).
#[export] Instance set_cache_lookup_eligible : Setter cache_lookup_eligible := ltac:(txn_setter).
#[export] Instance set_lookup_forward_step : Setter lookup_forward_step := ltac:(txn_setter).
#[export] Instance set_lookup_cache_wait : Setter lookup_cache_wait := ltac:(txn_setter).
#[export] Instance set_lookup_cache_fill : Setter lookup_cache_fill := ltac:(txn_setter).
#[export] Instance set_rcode : Setter rcode := ltac:(txn_setter).

Definition Transaction_new (txn_id : Z) (addr : SocketAddr) (p : ClientProtocol) (now : Clock)
    : Transaction := {|
  id := txn_id;
  global_query_index := 0;
  tags := TagSet_default;
  current_phase := Receive;
  query_wire := [];
  response_wire := None;
  response_meta := None;
  dns_id := 0;
  qname := None;
  qtype := None;
  qclass := None;
  opcode := None;
  edns_option_codes := [];
  client_addr := addr;
  parse_reject_reason := None;
  listener_label := None;
  protocol := p;
  client_udp_payload_size := None;
  udp_response_truncated_on_send := false;
  selected_pool := None;
  selected_backend := None;
  selected_backend_label := None;
  attempts := [];
  attempt_count := 0;
  retry_pool := None;
  started_at := instant_now now;
  received_at := system_now now;
  last_forward_ms := 0;
  forward_started_at := None;
  snapshot_generation := 0;
  metrics_pin := None;
  dropped := false;
  soft_drop := false;
  source_override_v4 := None;
  source_override_v6 := None;
  retry_source_override_v4 := None;
  retry_source_override_v6 := None;
  trace_log := None;
  pre_parsed := false;
  suspend_phase_started_at := None;
  forward_metrics_recorded := false;
  lookup_profile := None;
  lookup_outcome := None;
  answer_source := None;
  cache_instance := None;
  cache_lookup_eligible := true;
  lookup_forward_step := None;
  lookup_cache_wait := None;
  lookup_cache_fill := None;
  rcode := None;
|}.

(** [TraceLog::record] through [trace_record_phase]. *)
Definition trace_record_phase (t : Transaction) (now : Z) (phase : string)
    (message pool backend cache : option string) : Transaction :=
  match trace_log t with
  | Some log =>
      t <| trace_log := Some (push log {| te_phase := phase;
             te_elapsed_us := wrap 64 (as_micros (elapsed now (started_at t)));
             te_message := message; te_pool := pool; te_backend := backend;
             te_cache := cache |}) |>
  | None => t
  end.

(** [u64::try_from(..).unwrap_or(u64::MAX)]. *)
Definition forward_elapsed_ms (now started : Z) : Z :=
  let ms := as_millis (elapsed now started) in
  if ms <=? u64_max then ms else u64_max.

Definition mark_forward_started (t : Transaction) (at_ : Z) : Transaction :=
  t <| forward_started_at := Some at_ |>.

Definition complete_forward_rtt (t : Transaction) (now started : Z) : Transaction :=
  t <| last_forward_ms := forward_elapsed_ms now started |> <| forward_started_at := None |>.

Definition complete_forward_rtt_from_mark (t : Transaction) (now : Z) : Transaction :=
  match forward_started_at t with
  | Some started =>
      t <| forward_started_at := None |> <| last_forward_ms := forward_elapsed_ms now started |>
  | None => t
  end.

Definition take_effective_source_override_v4 (t : Transaction) : option Z * Transaction :=
  if 1 <? attempt_count t then
    match retry_source_override_v4 t with
    | Some addr => (Some addr, t <| retry_source_override_v4 := None |>)
    | None => (source_override_v4 t, t)
    end
  else (source_override_v4 t, t).

Definition take_effective_source_override_v6 (t : Transaction) : option Z * Transaction :=
  if 1 <? attempt_count t then
    match retry_source_override_v6 t with
    | Some addr => (Some addr, t <| retry_source_override_v6 := None |>)
    | None => (source_override_v6 t, t)
    end
  else (source_override_v6 t, t).

Definition qtype_label (t : Transaction) : option string := name_for RecordType <$> qtype t.
Definition rcode_label (t : Transaction) : option string := name_for Rcode <$> rcode t.

Definition set_rcode_name (t : Transaction) (s : string) : Transaction :=
  t <| rcode := Some (default 2 (parse_name Rcode s)) |>.

Definition set_rcode_code (t : Transaction) (code : Z) : Transaction :=
  t <| rcode := Some code |>.

(** [attempt_count += 1] is a 32-bit addition. *)
Definition record_attempt (t : Transaction) (pool : string) (backend : SocketAddr)
    (backend_label : string) : Transaction :=
  let n := wrap 32 (attempt_count t + 1) in
  t <| attempt_count := n |>
    <| attempts := push (attempts t) {| ar_pool := pool; ar_backend := backend; ar_attempt := n |} |>
    <| selected_pool := Some pool |>
    <| selected_backend := Some backend |>
    <| selected_backend_label := Some backend_label |>.

(** The printed address is a parameter: [SocketAddr]'s [Display]. *)
Definition selected_backend_display (show_addr : SocketAddr -> string) (t : Transaction)
    : option string :=
  or_else (selected_backend_label t) (show_addr <$> selected_backend t).

Definition take_retry_pool (t : Transaction) : option string * Transaction :=
  (retry_pool t, t <| retry_pool := None |>).

Definition set_soft_drop_intent (t : Transaction) : Transaction := t <| soft_drop := true |>.

Definition clear_soft_drop (t : Transaction) : Transaction :=
  t <| soft_drop := false |> <| dropped := false |>.

Definition clear_retry_pool (t : Transaction) : Transaction := t <| retry_pool := None |>.
Definition clear_pool (t : Transaction) : Transaction := t <| selected_pool := None |>.

(** ** Attempts

    What [record_attempt] maintains: the attempts are numbered from one in
    order, their number is [attempt_count]. *)
Definition attempts_wf (t : Transaction) : Prop :=
  zlen (attempts t) = attempt_count t
  /\ forall i a, attempts t !! i = Some a -> ar_attempt a = Z.of_nat i + 1.

Lemma attempts_wf_new i a p now : attempts_wf (Transaction_new i a p now).
Proof. split; [done|]. intros j x. simpl. by rewrite lookup_nil. Qed.

Lemma record_attempt_wf t pool backend label :
  attempts_wf t -> attempt_count t < u32_max ->
  attempts_wf (record_attempt t pool backend label).
Proof.
  intros [Hlen Hnum] Hb. pose proof (zlen_nonneg (attempts t)).
  assert (Hw : wrap 32 (attempt_count t + 1) = attempt_count t + 1).
  { apply wrap_small. unfold fits, u32_max in *. lia. }
  split; simpl; rewrite Hw; [rewrite zlen_push; lia|].
  intros i a [Hi|[Hge Ha]]%lookup_app_Some; [by apply Hnum|].
  unfold zlen in *. apply list_lookup_singleton_Some in Ha as [? <-]. simpl. lia.
Qed.

#[export] Hint Resolve attempts_wf_new record_attempt_wf : conduit.
