(* ===== verification/TxnStore.v ===== *)
(** * TxnStore: the transaction slot pool

    src/crates/conduit-core/src/txn_store/mod.rs and wire_buf.rs: fixed wire
    buffers, the chunked slot arena [TxnStore], and [SharedTxnStore], whose
    operations take the free-list lock and the slot locks in turn.

    The arena refines a set of slots in use. The shared store is a transition
    system whose steps are the critical sections, so every interleaving of any
    number of threads is a run of it. *)

From S2P Require Import Prelude Text DnsWire Transaction.

(** ** Wire buffers *)

Definition DNS_WIRE_BUFFER_SIZE : Z := 4096.

Inductive WireBufferError := TooLarge (len max : Z).

(** [buf] is the whole fixed array, [len] the bytes in use. *)
Record WireBuffer := { wb_buf : list Z; wb_len : Z }.

Definition WireBuffer_default : WireBuffer :=
  {| wb_buf := replicate (Z.to_nat DNS_WIRE_BUFFER_SIZE) 0; wb_len := 0 |}.

Definition wb_clear (b : WireBuffer) : WireBuffer := {| wb_buf := wb_buf b; wb_len := 0 |}.

Definition as_slice (b : WireBuffer) : list Z := take (Z.to_nat (wb_len b)) (wb_buf b).

Definition set_from_slice (b : WireBuffer) (data : list Z) : result WireBuffer WireBufferError :=
  if DNS_WIRE_BUFFER_SIZE <? zlen data then Err (TooLarge (zlen data) DNS_WIRE_BUFFER_SIZE)
  else Ok {| wb_buf := data ++ drop (length data) (wb_buf b); wb_len := zlen data |}.

Definition wb_wf (b : WireBuffer) : Prop :=
  zlen (wb_buf b) = DNS_WIRE_BUFFER_SIZE /\ 0 <= wb_len b <= DNS_WIRE_BUFFER_SIZE.

(** ** Slots *)

Inductive SlotState :=
  | Free | Ingress | Policy | IoWait | SidecarWait | ReplyPending | IngressSend | Terminal.

#[global] Instance SlotState_eq_dec : EqDecision SlotState.
Proof. solve_decision. Defined.

Record TxnSlot := MkSlot {
  slot_state : SlotState;
  slot_txn : Transaction;
  slot_query : WireBuffer;
  slot_response : WireBuffer;
  slot_response_overflow : option (list Z);
  slot_pre_parsed : bool;
}.

Ltac slot_setter :=
  setter MkSlot (slot_state, slot_txn, slot_query, slot_response, slot_response_overflow,
    slot_pre_parsed).

#[export] Instance set_slot_state : Setter slot_state := ltac:(slot_setter).
#[export] Instance set_slot_txn : Setter slot_txn := ltac:(slot_setter).
#[export] Instance set_slot_query : Setter slot_query := ltac:(slot_setter).
#[export] Instance set_slot_response : Setter slot_response := ltac:(slot_setter).
#[export] Instance set_slot_overflow : Setter slot_response_overflow := ltac:(slot_setter).
#[export] Instance set_slot_pre_parsed : Setter slot_pre_parsed := ltac:(slot_setter).

Definition placeholder_txn (now : Clock) : Transaction := Transaction_new 0 (SockV4 0 0) Udp now.

Definition new_free (now : Clock) : TxnSlot := {|
  slot_state := Free;
  slot_txn := placeholder_txn now;
  slot_query := WireBuffer_default;
  slot_response := WireBuffer_default;
  slot_response_overflow := None;
  slot_pre_parsed := false;
|}.

Definition slot_clear (now : Clock) (s : TxnSlot) : TxnSlot := {|
  slot_state := Free;
  slot_txn := placeholder_txn now;
  slot_query := wb_clear (slot_query s);
  slot_response := wb_clear (slot_response s);
  slot_response_overflow := None;
  slot_pre_parsed := false;
|}.

Definition slot_hand_out (i : nat) (s : TxnSlot) : TxnSlot :=
  s <| slot_state := Ingress |> <| slot_txn := (slot_txn s) <| id := Z.of_nat i |> |>.

Inductive AcquireError := Exhausted.

Inductive SlotError :=
  | InvalidId (i : nat)
  | StateMismatch (expected actual : SlotState)
  | NotTerminal (actual : SlotState).

(** ** The arena *)

(** A [SlotId] is its index, below the 32-bit capacity. *)
Record TxnStore := MkStore {
  slots : list TxnSlot;
  free_list : list nat;
  capacity : Z;
  chunk_size : Z;
  exhaustion_total : Z;
}.

Ltac store_setter :=
  setter MkStore (slots, free_list, capacity, chunk_size, exhaustion_total).

#[export] Instance set_slots : Setter slots := ltac:(store_setter).
#[export] Instance set_free_list : Setter free_list := ltac:(store_setter).
#[export] Instance set_exhaustion : Setter exhaustion_total := ltac:(store_setter).

(** [None] is the panic of the two assertions. *)
Definition TxnStore_new (cap chunk : Z) : option TxnStore :=
  if (1 <=? cap) && (1 <=? chunk) then
    Some {| slots := []; free_list := []; capacity := cap; chunk_size := chunk;
            exhaustion_total := 0 |}
  else None.

Definition allocated (s : TxnStore) : Z := wrap 32 (zlen (slots s)).

Definition in_use (s : TxnStore) : Z := sat_sub (allocated s) (wrap 32 (zlen (free_list s))).

Definition active_slots_matching (pred : TxnSlot -> bool) (s : TxnStore) : Z :=
  wrap 32 (zlen (filter (fun sl => slot_state sl <> Free /\ pred sl = true) (slots s))).

(** The loop [for i in 0..grow_by]: one slot and one free id per round. *)
Fixpoint grow_loop (now : Clock) (next grow_by : nat) (s : TxnStore) : TxnStore :=
  match grow_by with
  | O => s
  | S n => grow_loop now (S next) n
             (s <| slots := push (slots s) (new_free now) |>
                <| free_list := push (free_list s) next |>)
  end.

Definition grow_chunk (now : Clock) (s : TxnStore) : bool * TxnStore :=
  let n := allocated s in
  if capacity s <=? n then (false, s)
  else
    let grow_by := Z.min (chunk_size s) (capacity s - n) in
    (true, grow_loop now (Z.to_nat n) (Z.to_nat grow_by) s).

Definition slot_mut (s : TxnStore) (i : nat) : option TxnSlot := slots s !! i.

Definition put_slot (s : TxnStore) (i : nat) (sl : TxnSlot) : TxnStore :=
  s <| slots := <[i := sl]> (slots s) |>.

(** The first critical section of [acquire]: grow when the free list is empty,
    then pop. The two [expect]s are the inner [None]. *)
Definition acquire_pop (now : Clock) (s : TxnStore) : option (result nat AcquireError * TxnStore) :=
  let '(ok, s) := match free_list s with [] => grow_chunk now s | _ => (true, s) end in
  if ok then
    let! r := pop (free_list s) in
    let! _sl := slot_mut s r.1 in
    Some (Ok r.1, s <| free_list := r.2 |>)
  else Some (Err Exhausted, s <| exhaustion_total := wrap 64 (exhaustion_total s + 1) |>).

(** [acquire]; [None] is a panic of an [expect]. *)
Definition acquire (now : Clock) (s : TxnStore) : option (result nat AcquireError * TxnStore) :=
  let! r := acquire_pop now s in
  match r with
  | (Err e, s') => Some (Err e, s')
  | (Ok i, s') =>
      let! sl := slot_mut s' i in
      Some (Ok i, put_slot s' i (slot_hand_out i sl))
  end.

(** [with_slot]: the closure [f] returns its result and the slot it leaves. *)
Definition with_slot {R} (s : TxnStore) (i : nat) (expected : SlotState)
    (f : TxnSlot -> result R SlotError * TxnSlot) : result R SlotError * TxnStore :=
  match slot_mut s i with
  | None => (Err (InvalidId i), s)
  | Some sl =>
      if decide (slot_state sl = expected) then
        let '(r, sl') := f sl in (r, put_slot s i sl')
      else (Err (StateMismatch expected (slot_state sl)), s)
  end.

Definition transition (s : TxnStore) (i : nat) (from to : SlotState)
    : result unit SlotError * TxnStore :=
  with_slot s i from (fun sl => (Ok tt, sl <| slot_state := to |>)).

Definition return_to_free (s : TxnStore) (i : nat) : TxnStore :=
  s <| free_list := push (free_list s) i |>.

Definition release (now : Clock) (s : TxnStore) (i : nat) : result unit SlotError * TxnStore :=
  match with_slot s i Terminal (fun sl => (Ok tt, slot_clear now sl)) with
  | (Ok _, s') => (Ok tt, return_to_free s' i)
  | (Err e, s') => (Err e, s')
  end.

Definition release_active (now : Clock) (s : TxnStore) (i : nat) : result unit SlotError * TxnStore :=
  match slot_mut s i with
  | None => (Err (InvalidId i), s)
  | Some sl =>
      if decide (slot_state sl = Free) then (Ok tt, s)
      else (Ok tt, return_to_free (put_slot s i (slot_clear now sl)) i)
  end.

(** ** The shared store

    A configuration is the arena with the slot ids in transit: popped by an
    [acquire] that has not locked the slot yet, or cleared by a release that has
    not pushed the id yet. A step is one critical section. *)
Record Shared := { sh_store : TxnStore; sh_acquiring : list nat; sh_returning : list nat }.

Inductive StoreEvent :=
  | Acquired (i : nat)
  | Released (i : nat)
  | Internal.

#[global] Instance StoreEvent_eq_dec : EqDecision StoreEvent.
Proof. solve_decision. Defined.

Inductive shared_step : Shared -> StoreEvent -> Shared -> Prop :=
  | step_pop now s a r i s' :
      acquire_pop now s = Some (Ok i, s') ->
      shared_step {| sh_store := s; sh_acquiring := a; sh_returning := r |} Internal
        {| sh_store := s'; sh_acquiring := i :: a; sh_returning := r |}
  | step_exhausted now s a r e s' :
      acquire_pop now s = Some (Err e, s') ->
      shared_step {| sh_store := s; sh_acquiring := a; sh_returning := r |} Internal
        {| sh_store := s'; sh_acquiring := a; sh_returning := r |}
  | step_hand_out s a1 i a2 r sl :
      slot_mut s i = Some sl ->
      shared_step {| sh_store := s; sh_acquiring := a1 ++ i :: a2; sh_returning := r |} (Acquired i)
        {| sh_store := put_slot s i (slot_hand_out i sl);
           sh_acquiring := a1 ++ a2; sh_returning := r |}
  | step_use s a r i sl sl' :
      slot_mut s i = Some sl -> slot_state sl <> Free -> slot_state sl' <> Free ->
      shared_step {| sh_store := s; sh_acquiring := a; sh_returning := r |} Internal
        {| sh_store := put_slot s i sl'; sh_acquiring := a; sh_returning := r |}
  | step_clear now s a r i sl :
      slot_mut s i = Some sl -> slot_state sl <> Free ->
      shared_step {| sh_store := s; sh_acquiring := a; sh_returning := r |} (Released i)
        {| sh_store := put_slot s i (slot_clear now sl);
           sh_acquiring := a; sh_returning := i :: r |}
  | step_return s a r1 i r2 :
      shared_step {| sh_store := s; sh_acquiring := a; sh_returning := r1 ++ i :: r2 |} Internal
        {| sh_store := return_to_free s i; sh_acquiring := a; sh_returning := r1 ++ r2 |}.

Inductive shared_run : Shared -> list StoreEvent -> Shared -> Prop :=
  | run_nil c : shared_run c [] c
  | run_snoc c tr c' e c'' :
      shared_run c tr c' -> shared_step c' e c'' -> shared_run c (tr ++ [e]) c''.

(** ** The invariant *)

(** A slot that carries nothing of an earlier query. *)
Definition slot_blank (s : TxnSlot) : Prop :=
  (exists now, slot_txn s = placeholder_txn now)
  /\ as_slice (slot_query s) = [] /\ as_slice (slot_response s) = []
  /\ slot_response_overflow s = None /\ slot_pre_parsed s = false.

(** [transit]: ids neither on the free list nor in use. *)
Record store_wf (s : TxnStore) (transit : list nat) : Prop := {
  wf_capacity : 1 <= capacity s <= u32_max;
  wf_chunk : 1 <= chunk_size s;
  wf_slots : zlen (slots s) <= capacity s;
  wf_nodup : NoDup (free_list s ++ transit);
  wf_free : forall i, i ∈ free_list s ++ transit <->
              exists sl, slots s !! i = Some sl /\ slot_state sl = Free;
  wf_blank : forall i sl, slots s !! i = Some sl -> slot_state sl = Free -> slot_blank sl;
}.

Definition slot_busy (s : TxnStore) (i : nat) : bool :=
  match slots s !! i with Some sl => bool_decide (slot_state sl <> Free) | None => false end.

(** The set of slots in use, the abstract state of the pool. *)
Definition used (s : TxnStore) : gset nat :=
  list_to_set (filter (fun i => slot_busy s i = true) (seq 0 (length (slots s)))).

(** ** Runs of the shared store *)

Definition shared_wf (c : Shared) : Prop :=
  store_wf (sh_store c) (sh_acquiring c ++ sh_returning c).

Definition shared_init (s : TxnStore) : Shared :=
  {| sh_store := s; sh_acquiring := []; sh_returning := [] |}.

(** One more when [e] happened at this step. *)
Definition occurs (e e' : StoreEvent) : Z := if decide (e = e') then 1 else 0.

Definition count (e : StoreEvent) (tr : list StoreEvent) : Z :=
  zlen (filter (fun e' => e' = e) tr).

Definition busy_z (c : Shared) (i : nat) : Z := if slot_busy (sh_store c) i then 1 else 0.

(** ** The pool as a set of slots in use *)

Inductive PoolOp :=
  | OpAcquire
  | OpRelease (i : nat)
  | OpReleaseActive (i : nat)
  | OpTransition (i : nat) (from to : SlotState).

(** The callers never move a slot to or from [Free] by a transition. *)
Definition op_ok (o : PoolOp) : Prop :=
  match o with OpTransition _ from to => from <> Free /\ to <> Free | _ => True end.

Inductive PoolRet := RetId (i : nat) | RetExhausted | RetOk | RetErr.

Definition ret_of (r : result unit SlotError) : PoolRet :=
  match r with Ok _ => RetOk | Err _ => RetErr end.

Definition pool_exec (now : Clock) (o : PoolOp) (s : TxnStore) : option (PoolRet * TxnStore) :=
  match o with
  | OpAcquire =>
      let! r := acquire now s in
      Some (match r.1 with Ok i => RetId i | Err _ => RetExhausted end, r.2)
  | OpRelease i => let '(r, s') := release now s i in Some (ret_of r, s')
  | OpReleaseActive i => let '(r, s') := release_active now s i in Some (ret_of r, s')
  | OpTransition i from to => let '(r, s') := transition s i from to in Some (ret_of r, s')
  end.

Fixpoint pool_exec_all (ops : list (Clock * PoolOp)) (s : TxnStore)
    : option (list PoolRet * TxnStore) :=
  match ops with
  | [] => Some ([], s)
  | (now, o) :: ops' =>
      let! r := pool_exec now o s in
      let! rs := pool_exec_all ops' r.2 in
      Some (r.1 :: rs.1, rs.2)
  end.

(** The contract: a bounded set of ids. *)
Inductive pool_spec (cap : Z) : PoolOp -> gset nat -> PoolRet -> gset nat -> Prop :=
  | spec_acquire u i : i ∉ u -> Z.of_nat (size u) < cap ->
      pool_spec cap OpAcquire u (RetId i) ({[i]} ∪ u)
  | spec_exhausted u : Z.of_nat (size u) = cap -> pool_spec cap OpAcquire u RetExhausted u
  | spec_release u i : i ∈ u -> pool_spec cap (OpRelease i) u RetOk (u ∖ {[i]})
  | spec_release_err u i : pool_spec cap (OpRelease i) u RetErr u
  | spec_release_active u i : pool_spec cap (OpReleaseActive i) u RetOk (u ∖ {[i]})
  | spec_release_active_err u i : i ∉ u -> pool_spec cap (OpReleaseActive i) u RetErr u
  | spec_transition u i from to : i ∈ u -> pool_spec cap (OpTransition i from to) u RetOk u
  | spec_transition_err u i from to : pool_spec cap (OpTransition i from to) u RetErr u.

Inductive pool_spec_run (cap : Z) : list PoolOp -> gset nat -> list PoolRet -> gset nat -> Prop :=
  | spec_run_nil u : pool_spec_run cap [] u [] u
  | spec_run_cons o os u r u' rs u'' :
      pool_spec cap o u r u' -> pool_spec_run cap os u' rs u'' ->
      pool_spec_run cap (o :: os) u (r :: rs) u''.

(** ** Lemmas *)

Lemma wb_set_get b data b' : wb_wf b -> set_from_slice b data = Ok b' ->
  as_slice b' = data /\ wb_wf b'.
Proof.
  unfold set_from_slice, wb_wf, as_slice. intros [Hb Hl] H.
  destruct (_ <? _) eqn:E; simplify_eq/=. pose proof (zlen_nonneg data).
  apply Z.ltb_ge in E. unfold zlen in *. rewrite Nat2Z.id, take_app_length.
  split_and!; [done| |lia..]. rewrite length_app, length_drop. lia.
Qed.

Lemma new_free_blank now : slot_blank (new_free now).
Proof. by repeat split; [exists now|..]. Qed.

Lemma slot_clear_blank now sl : slot_blank (slot_clear now sl).
Proof. by repeat split; [exists now|..]. Qed.

#[export] Hint Resolve new_free_blank slot_clear_blank : conduit.

Lemma slot_busy_true s i :
  slot_busy s i = true <-> exists sl, slots s !! i = Some sl /\ slot_state sl <> Free.
Proof.
  unfold slot_busy. destruct (slots s !! i) as [sl|]; [|naive_solver].
  rewrite bool_decide_eq_true. naive_solver.
Qed.

Lemma elem_of_used s i : i ∈ used s <-> slot_busy s i = true.
Proof.
  unfold used. rewrite elem_of_list_to_set, list_elem_of_filter, elem_of_seq.
  split; [naive_solver|]. intros H. split; [done|].
  apply slot_busy_true in H as (sl & H%lookup_lt_Some & _). lia.
Qed.

Lemma grow_loop_spec now b n s :
  grow_loop now b n s =
  s <| slots := slots s ++ replicate n (new_free now) |>
    <| free_list := free_list s ++ seq b n |>.
Proof.
  revert b s. induction n as [|n IH]; intros b s; simpl.
  - rewrite !app_nil_r. by destruct s.
  - rewrite IH. unfold set, push; simpl. by rewrite <- !app_assoc.
Qed.

Lemma allocated_wf s tr : store_wf s tr -> allocated s = zlen (slots s).
Proof.
  intros [Hc _ Hs _ _ _]. unfold allocated. apply wrap_small.
  pose proof (zlen_nonneg (slots s)). unfold fits, u32_max in *. lia.
Qed.

(** The lookup of a slot in a grown arena. *)
Lemma lookup_grown (l : list TxnSlot) n x i sl :
  (l ++ replicate n x) !! i = Some sl <->
  l !! i = Some sl \/ (length l <= i < length l + n)%nat /\ sl = x.
Proof.
  rewrite lookup_app_Some, lookup_replicate. split; intros [H|H]; try (by left).
  - right. destruct H as (? & -> & ?). split; [lia|done].
  - right. destruct H as ([? ?] & ->). split_and!; [done|done|lia].
Qed.

Lemma wf_free_lt s tr i : store_wf s tr -> i ∈ free_list s ++ tr -> (i < length (slots s))%nat.
Proof. intros H Hi. apply (wf_free _ _ H) in Hi as (sl & ?%lookup_lt_Some & _). done. Qed.

Lemma grow_wf now s tr n :
  store_wf s tr -> zlen (slots s) + Z.of_nat n <= capacity s ->
  store_wf (grow_loop now (length (slots s)) n s) tr.
Proof.
  intros H Hn. pose proof (fun i => wf_free_lt s tr i H) as Hlt. destruct H as [Hc Hk Hs Hnd Hf Hb].
  rewrite grow_loop_spec. constructor; simpl; try done.
  - rewrite zlen_app. unfold zlen. rewrite length_replicate. unfold zlen in *. lia.
  - rewrite <- app_assoc, (Permutation_app_comm (seq _ _)), app_assoc.
    apply NoDup_app; split_and!; [done| |apply NoDup_seq].
    intros i Hi%Hlt. rewrite elem_of_seq. lia.
  - intros i. rewrite !elem_of_app, elem_of_seq. setoid_rewrite lookup_grown.
    setoid_rewrite elem_of_app in Hf. specialize (Hf i). split.
    + intros [[?|?]|?]; [naive_solver| |naive_solver]. exists (new_free now). naive_solver.
    + naive_solver.
  - intros i sl [H|[_ ->]]%lookup_grown; [naive_solver|]. auto with conduit.
Qed.

Lemma put_slot_lookup s i sl j x : is_Some (slots s !! i) ->
  slots (put_slot s i sl) !! j = Some x <->
  (j = i /\ x = sl) \/ (j <> i /\ slots s !! j = Some x).
Proof.
  intros [y Hy]. simpl. destruct (decide (j = i)) as [->|Hne].
  - rewrite list_lookup_insert_eq by (by eapply lookup_lt_Some). naive_solver.
  - rewrite list_lookup_insert_ne by done. naive_solver.
Qed.

(** The ids in transit are a bag. *)
#[export] Instance store_wf_proper : Proper (eq ==> (≡ₚ) ==> iff) store_wf.
Proof.
  assert (Himp : forall s tr tr', tr ≡ₚ tr' -> store_wf s tr -> store_wf s tr').
  { intros s tr tr' Hp [Hc Hk Hs Hnd Hf Hb]. constructor; try done.
    - by rewrite <- Hp.
    - intros i. by rewrite <- Hp. }
  intros s ? <- tr tr' Hp. split; apply Himp; by rewrite Hp.
Qed.

Lemma store_wf_put s tr tr' i sl sl' :
  store_wf s tr -> slots s !! i = Some sl ->
  NoDup (free_list s ++ tr') ->
  (i ∈ free_list s ++ tr' <-> slot_state sl' = Free) ->
  (forall j, j <> i -> (j ∈ tr' <-> j ∈ tr)) ->
  (slot_state sl' = Free -> slot_blank sl') ->
  store_wf (put_slot s i sl') tr'.
Proof.
  intros [Hc Hk Hs Hnd Hf Hb] Hi Hnd' Hi' Ht Hbl.
  assert (Hl : is_Some (slots s !! i)) by eauto.
  constructor; try done.
  - simpl. unfold zlen. by rewrite length_insert.
  - intros j. setoid_rewrite (put_slot_lookup s i sl' j _ Hl).
    destruct (decide (j = i)) as [->|Hne]; [naive_solver|].
    change (free_list (put_slot s i sl')) with (free_list s).
    setoid_rewrite elem_of_app. rewrite Ht by done. setoid_rewrite elem_of_app in Hf.
    rewrite Hf. naive_solver.
  - intros j x Hj. apply (put_slot_lookup s i sl' j x Hl) in Hj. naive_solver.
Qed.

Lemma wf_transit_free s tr i sl : store_wf s tr -> i ∈ tr -> slots s !! i = Some sl ->
  slot_state sl = Free.
Proof.
  intros H Hi Hs. destruct (proj1 (wf_free _ _ H i)) as (x & ? & ?); [|by simplify_eq].
  apply elem_of_app. by right.
Qed.

Lemma wf_busy_not_free s tr i sl : store_wf s tr -> slots s !! i = Some sl ->
  slot_state sl <> Free -> i ∉ free_list s ++ tr.
Proof. intros H Hs Hb Hi. apply (wf_free _ _ H) in Hi as (x & ? & ?). by simplify_eq. Qed.

(** Handing out a slot in transit. *)
Lemma hand_out_wf s tr i sl sl' :
  store_wf s (i :: tr) -> slots s !! i = Some sl -> slot_state sl' <> Free ->
  store_wf (put_slot s i sl') tr.
Proof.
  intros H Hi Hb. pose proof (wf_nodup _ _ H) as Hnd.
  rewrite <- Permutation_middle in Hnd. apply NoDup_cons in Hnd as [Hni Hnd].
  eapply store_wf_put; eauto; [naive_solver|set_solver|done].
Qed.

Lemma use_wf s tr i sl sl' :
  store_wf s tr -> slots s !! i = Some sl -> slot_state sl <> Free -> slot_state sl' <> Free ->
  store_wf (put_slot s i sl') tr.
Proof.
  intros H Hi Hb Hb'. pose proof (wf_busy_not_free _ _ _ _ H Hi Hb).
  eapply store_wf_put; eauto using wf_nodup; naive_solver.
Qed.

Lemma clear_wf now s tr i sl :
  store_wf s tr -> slots s !! i = Some sl -> slot_state sl <> Free ->
  store_wf (put_slot s i (slot_clear now sl)) (i :: tr).
Proof.
  intros H Hi Hb. pose proof (wf_busy_not_free _ _ _ _ H Hi Hb).
  eapply store_wf_put; eauto with conduit; [|set_solver..].
  rewrite <- Permutation_middle. apply NoDup_cons. eauto using wf_nodup.
Qed.

Lemma return_wf s tr i : store_wf s (i :: tr) -> store_wf (return_to_free s i) tr.
Proof.
  intros [Hc Hk Hs Hnd Hf Hb].
  assert (Hp : push (free_list s) i ++ tr ≡ₚ free_list s ++ i :: tr).
  { unfold push. by rewrite <- app_assoc. }
  constructor; try done; simpl; [by rewrite Hp|]. intros j. by rewrite Hp.
Qed.

Lemma grow_chunk_wf now s tr :
  store_wf s tr -> free_list s = [] ->
  if bool_decide (zlen (slots s) = capacity s) then grow_chunk now s = (false, s)
  else exists s', grow_chunk now s = (true, s') /\ store_wf s' tr /\ free_list s' <> []
         /\ forall j, slot_busy s' j = slot_busy s j.
Proof.
  intros H Hf. unfold grow_chunk. rewrite (allocated_wf _ _ H).
  pose proof H as [Hc Hk Hs _ _ _]. pose proof (zlen_nonneg (slots s)).
  case_bool_decide as E; (destruct (Z.leb_spec (capacity s) (zlen (slots s))); [|try lia]);
    try lia; [done|].
  eexists. split; [done|]. replace (Z.to_nat (zlen (slots s))) with (length (slots s))
    by (unfold zlen; lia).
  split; [apply grow_wf; [done|lia]|]. rewrite grow_loop_spec. split.
  - simpl. rewrite Hf. destruct (Z.to_nat _) eqn:En; [lia|done].
  - intros j. unfold slot_busy. simpl.
    destruct (slots s !! j) as [x|] eqn:Ej.
    + by rewrite (lookup_app_l_Some _ _ _ _ Ej).
    + rewrite lookup_app_r by (by apply lookup_ge_None).
      by destruct (replicate _ _ !! _) as [x|] eqn:E'; [apply lookup_replicate in E' as [-> _]|].
Qed.

(** What the first critical section of [acquire] does, in a consistent store:
    it pops an id and moves it in transit, or every slot up to the capacity is
    in use or in transit. It never panics. *)
Lemma acquire_pop_spec now s tr :
  store_wf s tr ->
  (exists i s', acquire_pop now s = Some (Ok i, s') /\ store_wf s' (i :: tr)
     /\ forall j, slot_busy s' j = slot_busy s j)
  \/ (acquire_pop now s =
        Some (Err Exhausted, s <| exhaustion_total := wrap 64 (exhaustion_total s + 1) |>)
      /\ free_list s = [] /\ zlen (slots s) = capacity s).
Proof.
  intros H. unfold acquire_pop.
  assert (Hpop : forall s0, store_wf s0 tr -> free_list s0 <> [] ->
            exists i s', (let! r := pop (free_list s0) in
               let! _sl := slot_mut s0 r.1 in
               Some (@Ok _ AcquireError r.1, s0 <| free_list := r.2 |>)) = Some (Ok i, s')
             /\ store_wf s' (i :: tr) /\ forall j, slot_busy s' j = slot_busy s0 j).
  { intros s0 H0 Hne. destruct (pop (free_list s0)) as [[i l]|] eqn:Ep;
      [|by apply pop_None in Ep]. apply pop_Some in Ep.
    destruct (proj1 (wf_free _ _ H0 i)) as (sl & Hsl & _);
      [rewrite Ep; unfold push; set_solver|].
    unfold slot_mut. simpl. rewrite Hsl. eexists _, _. split; [done|]. split; [|done].
    destruct H0 as [Hc Hk Hs Hnd Hf Hb].
    assert (Hp : l ++ i :: tr = free_list s0 ++ tr).
    { rewrite Ep. unfold push. by rewrite <- app_assoc. }
    constructor; try done; simpl; [by rewrite Hp|]. intros j. by rewrite Hp. }
  destruct (free_list s) eqn:Ef.
  - pose proof (grow_chunk_wf now s tr H Ef) as Hg. case_bool_decide as E.
    + right. by rewrite Hg.
    + left. destruct Hg as (s' & -> & Hw & Hne & Hbusy).
      destruct (Hpop s' Hw Hne) as (i & s'' & -> & ? & Hb). exists i, s''.
      split_and!; [done..|]. intros j. by rewrite Hb.
  - left. apply (Hpop s); [done|by rewrite Ef].
Qed.

Lemma used_put s i sl sl' : slots s !! i = Some sl ->
  used (put_slot s i sl') =
  if decide (slot_state sl' = Free) then used s ∖ {[i]} else {[i]} ∪ used s.
Proof.
  intros Hi. apply set_eq. intros j. assert (Hl : is_Some (slots s !! i)) by eauto.
  rewrite elem_of_used, slot_busy_true. setoid_rewrite (put_slot_lookup s i sl' j _ Hl).
  case_decide; rewrite ?elem_of_difference, ?elem_of_union, elem_of_singleton, elem_of_used,
    slot_busy_true; destruct (decide (j = i)); naive_solver.
Qed.

Lemma used_ext s s' : (forall j, slot_busy s' j = slot_busy s j) -> used s' = used s.
Proof. intros H. apply set_eq. intros j. by rewrite !elem_of_used, H. Qed.

(** Every allocated slot is free, in transit or in use. *)
Lemma size_used_transit s tr : store_wf s tr ->
  zlen (slots s) = zlen (free_list s) + zlen tr + Z.of_nat (size (used s)).
Proof.
  intros H. pose proof (wf_nodup _ _ H) as Hnd. pose proof (wf_free _ _ H) as Hf.
  assert (Hp : seq 0 (length (slots s)) ≡ₚ (free_list s ++ tr) ++ elements (used s)).
  { apply NoDup_Permutation; [apply NoDup_seq| |].
    - apply NoDup_app. split_and!; [done| |apply NoDup_elements].
      intros i (x & ? & ?)%Hf. rewrite elem_of_elements, elem_of_used, slot_busy_true. naive_solver.
    - intros i. rewrite elem_of_seq, (elem_of_app (free_list s ++ tr)), elem_of_elements,
        elem_of_used, slot_busy_true, Hf.
      split.
      + intros [_ Hi]. destruct (lookup_lt_is_Some_2 (slots s) i) as [x Hx]; [lia|].
        destruct (decide (slot_state x = Free)); [left|right]; eauto.
      + intros [(x & ?%lookup_lt_Some & _)|(x & ?%lookup_lt_Some & _)]; lia. }
  apply Permutation_length in Hp. rewrite !length_app, length_seq in Hp.
  unfold zlen, size, set_size. simpl in *. lia.
Qed.

Lemma size_used s : store_wf s [] -> zlen (slots s) = zlen (free_list s) + Z.of_nat (size (used s)).
Proof. intros H. rewrite (size_used_transit s [] H). unfold zlen. simpl. lia. Qed.

Lemma store_wf_new cap chunk s : TxnStore_new cap chunk = Some s -> cap <= u32_max -> store_wf s [].
Proof.
  unfold TxnStore_new. intros H Hc. destruct (_ && _) eqn:E; simplify_eq/=.
  constructor; simpl; [lia|lia|unfold zlen; simpl; lia|constructor| |intros i sl; by rewrite lookup_nil].
  intros i. split; [intros Hi; by apply elem_of_nil in Hi|intros (sl & H & _)].
  by rewrite lookup_nil in H.
Qed.

Lemma acquire_spec now s : store_wf s [] ->
  (exists i s' sl, acquire now s = Some (Ok i, s') /\ store_wf s' []
     /\ (i ∉ used s) /\ used s' = {[i]} ∪ used s
     /\ slots s' !! i = Some (slot_hand_out i sl) /\ slot_blank sl)
  \/ (acquire now s =
        Some (Err Exhausted, s <| exhaustion_total := wrap 64 (exhaustion_total s + 1) |>)
      /\ Z.of_nat (size (used s)) = capacity s).
Proof.
  intros H. unfold acquire. destruct (acquire_pop_spec now s [] H) as [(i & s' & -> & Hw & Hb)|Hx].
  - left. destruct (proj1 (wf_free _ _ Hw i)) as (sl & Hsl & Hfree); [set_solver|].
    unfold slot_mut. rewrite Hsl. eexists _, _, sl. split; [done|].
    assert (Hu : used s' = used s) by by apply used_ext.
    split_and!.
    + by eapply hand_out_wf.
    + rewrite <- Hu, elem_of_used, slot_busy_true. naive_solver.
    + by rewrite (used_put _ _ _ _ Hsl), Hu.
    + simpl. apply list_lookup_insert_eq. by eapply lookup_lt_Some.
    + by eapply wf_blank.
  - right. destruct Hx as (-> & Hf & Hc). split; [done|].
    pose proof (size_used s H) as Hz. rewrite Hf in Hz. unfold zlen in *. simpl in Hz. lia.
Qed.

Lemma release_active_spec now s i : store_wf s [] ->
  match slots s !! i with
  | None => release_active now s i = (Err (InvalidId i), s)
  | Some _ => exists s', release_active now s i = (Ok tt, s') /\ store_wf s' []
                /\ used s' = used s ∖ {[i]}
  end.
Proof.
  intros H. unfold release_active, slot_mut. destruct (slots s !! i) as [sl|] eqn:Ei; [|done].
  case_decide as Hs; eexists; (split; [done|]).
  - split; [done|]. assert (i ∉ used s); [|set_solver].
    rewrite elem_of_used, slot_busy_true. naive_solver.
  - split; [by eapply return_wf, clear_wf|].
    change (used (return_to_free ?x i)) with (used x). by rewrite (used_put _ _ _ _ Ei).
Qed.

(** ** Runs of the shared store: lemmas *)

Lemma count_snoc e tr e' : count e (tr ++ [e']) = count e tr + occurs e' e.
Proof.
  unfold count, occurs. rewrite filter_app, zlen_app, filter_cons, filter_nil.
  by case_decide.
Qed.

Lemma busy_put s i sl sl' j : slots s !! i = Some sl ->
  slot_busy (put_slot s i sl') j =
  if decide (j = i) then bool_decide (slot_state sl' <> Free) else slot_busy s j.
Proof.
  intros Hi. unfold slot_busy. simpl. case_decide as E; [subst|].
  - by rewrite list_lookup_insert_eq by (by eapply lookup_lt_Some).
  - by rewrite list_lookup_insert_ne.
Qed.

Ltac busy_cases :=
  repeat case_decide; subst; repeat case_match; repeat case_bool_decide; simplify_eq/=;
  try done; try lia.

Lemma shared_step_wf c e c' : shared_step c e c' -> shared_wf c ->
  shared_wf c' /\ forall i, busy_z c' i = busy_z c i + occurs e (Acquired i) - occurs e (Released i).
Proof.
  intros Hstep Hw. unfold shared_wf, busy_z, occurs in *.
  destruct Hstep as [now s a r i s' H|now s a r e s' H|s a1 i a2 r sl H|s a r i sl sl' H Hb Hb'
    |now s a r i sl H Hb|s a r1 i r2]; simpl in *.
  - destruct (acquire_pop_spec now s _ Hw) as [(i' & s'' & Heq & Hw' & Hb)|[Heq _]];
      rewrite Heq in H; simplify_eq. split; [done|]. intros j. rewrite Hb. busy_cases.
  - destruct (acquire_pop_spec now s _ Hw) as [(i' & s'' & Heq & Hw' & Hb)|[Heq _]];
      rewrite Heq in H; simplify_eq. split; [by destruct Hw|].
    intros j. unfold slot_busy. simpl. busy_cases.
  - rewrite <- app_assoc in Hw. simpl in Hw. rewrite <- Permutation_middle in Hw.
    split; [rewrite <- app_assoc; by eapply hand_out_wf|]. intros j.
    rewrite (busy_put _ _ _ _ _ H). pose proof (wf_transit_free _ _ i sl Hw ltac:(set_solver) H).
    unfold slot_busy, slot_mut in *. busy_cases.
  - split; [by eapply use_wf|]. intros j. rewrite (busy_put _ _ _ _ _ H).
    unfold slot_busy, slot_mut in *. busy_cases.
  - split; [rewrite <- Permutation_middle; by eapply clear_wf|].
    intros j. rewrite (busy_put _ _ _ _ _ H). unfold slot_busy, slot_mut in *. busy_cases.
  - split; [|intros j; unfold slot_busy; simpl; busy_cases]. apply return_wf.
    by rewrite !Permutation_middle.
Qed.

Lemma shared_run_wf c tr c' : shared_run c tr c' -> shared_wf c ->
  shared_wf c' /\ forall i, busy_z c' i = busy_z c i + count (Acquired i) tr - count (Released i) tr.
Proof.
  induction 1 as [c|c tr c' e c'' Hr IH Hs]; intros Hw.
  - split; [done|]. intros i. unfold count, zlen. simpl. lia.
  - destruct (IH Hw) as [Hw' Hc]. destruct (shared_step_wf _ _ _ Hs Hw') as [Hw'' Hc'].
    split; [done|]. intros i. rewrite Hc', Hc, !count_snoc. lia.
Qed.

Lemma shared_init_wf cap chunk s : TxnStore_new cap chunk = Some s -> cap <= u32_max ->
  shared_wf (shared_init s).
Proof. apply store_wf_new. Qed.

Lemma shared_init_idle cap chunk s i : TxnStore_new cap chunk = Some s ->
  busy_z (shared_init s) i = 0.
Proof. unfold TxnStore_new. intros H. by destruct (_ && _); simplify_eq/=. Qed.

Lemma shared_run_app c tr1 tr2 c' : shared_run c (tr1 ++ tr2) c' ->
  exists c1, shared_run c tr1 c1 /\ shared_run c1 tr2 c'.
Proof.
  revert c'. induction tr2 as [|e tr2 IH] using rev_ind; intros c' H.
  - rewrite app_nil_r in H. exists c'. split; [done|constructor].
  - rewrite app_assoc in H. inversion H as [? Hc Hnil|? tr ? e' ? Hr Hs Hc Heq].
    + by destruct (tr1 ++ tr2).
    + apply app_inj_tail in Heq as [-> ->]. destruct (IH _ Hr) as (c1 & ? & ?).
      exists c1. split; [done|]. by econstructor.
Qed.

Lemma count_not_in e tr : e ∉ tr -> count e tr = 0.
Proof.
  induction tr as [|e' tr IH]; [done|]. rewrite not_elem_of_cons. intros [Hne Hn].
  unfold count. rewrite filter_cons_False by done. by apply IH.
Qed.

Lemma count_nonneg e tr : 0 <= count e tr.
Proof. apply zlen_nonneg. Qed.

Lemma busy_z_bounds c i : 0 <= busy_z c i <= 1.
Proof. unfold busy_z. case_match; lia. Qed.

(** ** Properties *)

Lemma with_slot_busy s i sl sl' : store_wf s [] -> slots s !! i = Some sl ->
  slot_state sl <> Free -> slot_state sl' <> Free ->
  store_wf (put_slot s i sl') [] /\ used (put_slot s i sl') = used s /\ i ∈ used s.
Proof.
  intros H Hi Hb Hb'. assert (Hu : i ∈ used s) by (rewrite elem_of_used, slot_busy_true; eauto).
  split_and!; [by eapply use_wf| |done]. rewrite (used_put _ _ _ _ Hi), decide_False by done.
  set_solver.
Qed.

Lemma acquire_capacity now s r s' : acquire now s = Some (r, s') -> capacity s' = capacity s.
Proof.
  unfold acquire, acquire_pop, grow_chunk. intros Ha.
  by case_all; rewrite ?grow_loop_spec in *; case_all.
Qed.

Lemma pool_exec_spec now o s : store_wf s [] -> op_ok o ->
  exists r s', pool_exec now o s = Some (r, s') /\ store_wf s' [] /\ capacity s' = capacity s
    /\ pool_spec (capacity s) o (used s) r (used s').
Proof.
  intros H Hok. destruct o as [|i|i|i from to]; simpl.
  - pose proof (acquire_capacity now s) as Hcap.
    pose proof (size_used s H) as Hsz.
    destruct (acquire_spec now s H) as [(i & s' & sl & Ha & Hw & Hi & Hu & _)|[Ha Hf]];
      rewrite Ha; simpl; eexists _, _; (split; [done|]); split_and!; eauto.
    + rewrite Hu. constructor; [done|].
      pose proof (size_used s' Hw) as Hsz'. pose proof (wf_slots _ _ Hw) as Hle.
      rewrite Hu, size_union, size_singleton in Hsz' by set_solver.
      pose proof (zlen_nonneg (free_list s')). rewrite (Hcap _ _ Ha) in Hle. lia.
    + by destruct H.
    + by constructor.
  - unfold release, with_slot, slot_mut. destruct (slots s !! i) as [sl|] eqn:Ei; simpl;
      [|eexists _, _; split_and!; [done..|constructor]].
    case_decide as Ht; simpl; [|eexists _, _; split_and!; [done..|constructor]].
    eexists _, _. split; [done|]. split; [by eapply return_wf, clear_wf; [..|rewrite Ht]|].
    split; [done|]. change (used (return_to_free ?x i)) with (used x).
    rewrite (used_put _ _ _ _ Ei). constructor. rewrite elem_of_used, slot_busy_true.
    exists sl. by rewrite Ht.
  - pose proof (release_active_spec now s i H) as Hr.
    destruct (slots s !! i) as [sl|] eqn:Ei.
    + destruct Hr as (s' & Hr & Hw & Hu). rewrite Hr. eexists _, _. split; [done|].
      split_and!; [done| |rewrite Hu; constructor].
      unfold release_active, slot_mut in Hr. rewrite Ei in Hr. by case_all.
    + rewrite Hr. eexists _, _. split_and!; [done..|]. constructor.
      rewrite elem_of_used, slot_busy_true. naive_solver.
  - destruct Hok as [Hfrom Hto]. unfold transition, with_slot, slot_mut.
    destruct (slots s !! i) as [sl|] eqn:Ei; simpl;
      [|eexists _, _; split_and!; [done..|constructor]].
    case_decide as Ht; simpl; [|eexists _, _; split_and!; [done..|constructor]]. subst from.
    destruct (with_slot_busy s i sl (sl <| slot_state := to |>)) as (Hw & Hu & Hin); [done..|].
    eexists _, _. split_and!; [done..|]. rewrite Hu. by constructor.
Qed.

Lemma pool_exec_all_spec ops s : store_wf s [] -> Forall (fun o => op_ok o.2) ops ->
  exists rs s', pool_exec_all ops s = Some (rs, s') /\ store_wf s' []
    /\ pool_spec_run (capacity s) (snd <$> ops) (used s) rs (used s').
Proof.
  revert s. induction ops as [|[now o] ops IH]; intros s H Hok; simpl.
  - eexists _, _. split_and!; [done..|constructor].
  - inversion Hok as [|? ? Ho Hos]; subst.
    destruct (pool_exec_spec now o s H Ho) as (r & s' & -> & Hw & Hc & Hs). simpl.
    destruct (IH s' Hw Hos) as (rs & s'' & -> & Hw' & Hr). simpl.
    eexists _, _. split_and!; [done..|]. rewrite Hc in Hr. by econstructor.
Qed.

(** C1: the slot pool implements a bounded set of slot ids. From a fresh store,
    every sequence of acquires, releases and state transitions runs to the end
    without a panic, its results are those of the set of slots in use (an
    acquire returns an id that is not in use, and fails exactly when the whole
    capacity is in use), and [in_use] counts that set. *)
Theorem pool_refines_set cap chunk s ops :
  TxnStore_new cap chunk = Some s -> cap <= u32_max ->
  Forall (fun o => op_ok o.2) ops ->
  exists rets s', pool_exec_all ops s = Some (rets, s')
    /\ pool_spec_run cap (snd <$> ops) ∅ rets (used s')
    /\ in_use s' = Z.of_nat (size (used s')).
Proof.
  intros Hnew Hcap Hops. pose proof (store_wf_new _ _ _ Hnew Hcap) as Hw.
  destruct (pool_exec_all_spec ops s Hw Hops) as (rs & s' & -> & Hw' & Hr).
  eexists _, _. split; [done|].
  assert (used s = ∅ /\ capacity s = cap) as [Hu Hc].
  { unfold TxnStore_new in Hnew. destruct (_ && _); by simplify_eq/=. }
  rewrite Hu, Hc in Hr. split; [done|]. pose proof (size_used s' Hw') as Hz.
  unfold in_use. rewrite (allocated_wf _ _ Hw'). pose proof (zlen_nonneg (free_list s')).
  pose proof (wf_capacity _ _ Hw'). pose proof (wf_slots _ _ Hw').
  rewrite wrap_small; unfold fits, sat_sub, u32_max in *; lia.
Qed.

Lemma pool_refines_set_witness :
  exists rets s',
    pool_exec_all [(Build_Clock 0 0, OpAcquire); (Build_Clock 1 1, OpReleaseActive 0)]
      {| slots := []; free_list := []; capacity := 1; chunk_size := 1; exhaustion_total := 0 |}
      = Some (rets, s')
    /\ pool_spec_run 1 [OpAcquire; OpReleaseActive 0] ∅ rets (used s')
    /\ in_use s' = Z.of_nat (size (used s')).
Proof.
  apply (pool_refines_set 1 1 _
    [(Build_Clock 0 0, OpAcquire); (Build_Clock 1 1, OpReleaseActive 0)]).
  - reflexivity.
  - vm_compute. discriminate.
  - repeat constructor.
Defined.

(** C3: under every interleaving of any number of threads, a slot handed out by
    [SharedTxnStore::acquire] is not handed out again before it is released:
    between two hand-outs of one id there is a release of that id. *)
Theorem shared_slot_exclusive cap chunk s i tr1 tr2 c :
  TxnStore_new cap chunk = Some s -> cap <= u32_max ->
  shared_run (shared_init s) (tr1 ++ [Acquired i] ++ tr2 ++ [Acquired i]) c ->
  Released i ∈ tr2.
Proof.
  intros Hnew Hcap Hrun. pose proof (shared_init_wf _ _ _ Hnew Hcap) as Hw.
  rewrite app_assoc in Hrun.
  apply shared_run_app in Hrun as (c1 & Hr1 & Hr2).
  apply shared_run_app in Hr1 as (c0 & Hr0 & Hra).
  destruct (shared_run_wf _ _ _ Hr0 Hw) as [Hw0 _].
  destruct (shared_run_wf _ _ _ Hra Hw0) as [Hw1 Hc1]. specialize (Hc1 i).
  destruct (shared_run_wf _ _ _ Hr2 Hw1) as [_ Hc2]. specialize (Hc2 i).
  change [Acquired i] with ([] ++ [Acquired i]) in Hc1. rewrite !count_snoc in Hc1, Hc2.
  unfold occurs in *. rewrite !decide_True, !decide_False in Hc1, Hc2 by done.
  pose proof (busy_z_bounds c i). pose proof (busy_z_bounds c0 i). pose proof (busy_z_bounds c1 i).
  pose proof (count_nonneg (Acquired i) tr2).
  destruct (decide (Released i ∈ tr2)) as [?|Hn]; [done|]. exfalso.
  rewrite (count_not_in _ _ Hn) in Hc2.
  unfold count at 1 2 in Hc1. simpl in Hc1. unfold zlen in Hc1. simpl in Hc1. lia.
Qed.

Lemma shared_slot_exclusive_witness :
  exists c,
    shared_run (shared_init {| slots := []; free_list := []; capacity := 1; chunk_size := 1;
                               exhaustion_total := 0 |})
      ([Internal] ++ [Acquired 0] ++ [Released 0; Internal; Internal] ++ [Acquired 0]) c
    /\ Released 0 ∈ [Released 0; Internal; Internal].
Proof.
  assert (Hrun : exists c,
    shared_run (shared_init {| slots := []; free_list := []; capacity := 1; chunk_size := 1;
                               exhaustion_total := 0 |})
      (((((([] ++ [Internal]) ++ [Acquired 0]) ++ [Released 0]) ++ [Internal]) ++ [Internal])
         ++ [Acquired 0]) c).
  { eexists.
    eapply run_snoc; [eapply run_snoc; [eapply run_snoc; [eapply run_snoc;
      [eapply run_snoc; [eapply run_snoc; [apply run_nil|]|]|]|]|]|].
    - eapply (step_pop (Build_Clock 0 0)). reflexivity.
    - eapply (step_hand_out _ [] 0 []). reflexivity.
    - eapply (step_clear (Build_Clock 0 0)); [reflexivity|discriminate].
    - eapply (step_return _ _ [] 0 []).
    - eapply (step_pop (Build_Clock 0 0)). reflexivity.
    - eapply (step_hand_out _ [] 0 []). reflexivity. }
  destruct Hrun as [c Hrun]. exists c. split; [exact Hrun|].
  apply (shared_slot_exclusive 1 1 _ 0%nat [Internal] [Released 0; Internal; Internal] c eq_refl).
  - vm_compute. discriminate.
  - exact Hrun.
Defined.

(** In every reachable state of the shared pool, a slot on its way to a new
    owner carries nothing of an earlier query (placeholder transaction, empty
    buffers), and the next [acquire] does not panic: it pops a slot that is not
    in use, or it reports exhaustion when every slot of the capacity is in use
    or on its way to or from an owner. *)
Theorem shared_acquire_sound cap chunk s tr c now :
  TxnStore_new cap chunk = Some s -> cap <= u32_max ->
  shared_run (shared_init s) tr c ->
  (forall i, i ∈ sh_acquiring c -> exists sl, slots (sh_store c) !! i = Some sl /\ slot_blank sl)
  /\ ((exists i s', acquire_pop now (sh_store c) = Some (Ok i, s') /\ (i ∉ used (sh_store c)))
      \/ (exists s', acquire_pop now (sh_store c) = Some (Err Exhausted, s')
            /\ Z.of_nat (size (used (sh_store c))) + zlen (sh_acquiring c ++ sh_returning c)
               = capacity (sh_store c))).
Proof.
  intros Hnew Hcap Hrun. pose proof (shared_init_wf _ _ _ Hnew Hcap) as Hw.
  destruct (shared_run_wf _ _ _ Hrun Hw) as [Hc _]. unfold shared_wf in Hc. split.
  - intros i Hi. destruct (proj1 (wf_free _ _ Hc i)) as (sl & Hs & Hf); [set_solver|].
    exists sl. split; [done|]. by eapply wf_blank.
  - destruct (acquire_pop_spec now _ _ Hc) as [(i & s' & Ha & Hw' & Hb)|(Ha & Hf & Hz)].
    + left. exists i, s'. split; [done|]. rewrite elem_of_used, <- Hb, slot_busy_true.
      intros (sl & Hs & Hn). by apply (wf_busy_not_free _ _ _ _ Hw' Hs Hn); set_solver.
    + right. eexists. split; [done|]. pose proof (size_used_transit _ _ Hc) as Hsz.
      rewrite Hf in Hsz. unfold zlen in *. simpl in Hsz. lia.
Qed.

Lemma shared_acquire_sound_witness :
  exists c, shared_run (shared_init {| slots := []; free_list := []; capacity := 1;
                          chunk_size := 1; exhaustion_total := 0 |}) [Internal] c
    /\ sh_acquiring c = [0%nat]
    /\ exists sl, slots (sh_store c) !! 0%nat = Some sl /\ slot_blank sl.
Proof.
  eexists. split; [|split].
  - eapply (run_snoc _ []); [apply run_nil|]. eapply (step_pop (Build_Clock 0 0)). reflexivity.
  - reflexivity.
  - eapply (proj1 (shared_acquire_sound 1 1 _ [Internal] _ (Build_Clock 0 0) eq_refl _ _)).
    simpl. left.
    Unshelve.
    + vm_compute. discriminate.
    + eapply (run_snoc _ []); [apply run_nil|]. eapply (step_pop (Build_Clock 0 0)). reflexivity.
Defined.
