(* ===== verification/Selectors.v ===== *)
(** * Selectors: rule and sink selectors

    src/crates/conduit-events/src/selectors.rs and the match context of
    conduit-core/src/selector_ctx.rs. Two functions of the standard library stay
    abstract, quantified over in every theorem: [DefaultHasher], whose algorithm
    is unspecified, and the decimal parser of [f64]. *)

From stdpp Require Import strings.
From Stdlib Require Import String.
From S2P Require Import Prelude Text Floats DnsWire Transaction.

#[local] Open Scope string_scope.
#[local] Open Scope Z_scope.

Inductive SampleKey := SampleGlobal | SampleLiteral (s : string) | SampleFromQname.

Inductive AnswerSourceSelector := SelCache | SelForward.

(** [PercentKey] is the percentage in hundredths. *)
Inductive CompiledSelector :=
  | QnameSuffix (s : string)
  | QnameExact (s : string)
  | SelQtype (n : Z)
  | SelRcode (n : Z)
  | SelQclass (n : Z)
  | SelOpcode (n : Z)
  | SelEdnsOption (n : Z)
  | SelTag (s : string)
  | SelAnswerSource (a : AnswerSourceSelector)
  | SelCacheInstance (s : string)
  | SamplePercent (percent : Z) (key : SampleKey)
  | EveryNthWorker (n : Z)
  | EveryNthGlobal (n : Z)
  | ClientCidr (s : string).

Record SelectorCompileCtx := { cc_rule_name : option string; cc_sink_name : option string }.

Record Selector := {
  sel_type : string;
  sel_value : string;
  sel_key : option string;
  sel_key_from : option string;
}.

Record SelectorMatchCtx := {
  cx_txn_id : Z;
  cx_global_query_index : Z;
  cx_qname : option string;
  cx_qtype : option Z;
  cx_rcode : option Z;
  cx_qclass : option Z;
  cx_opcode : option Z;
  cx_edns_option_codes : list Z;
  cx_answer_source : option string;
  cx_cache_instance : option string;
  cx_tag_has : string -> bool;
  cx_client_cidr_match : option (string -> bool);
}.

Definition RULE_ONLY_SELECTOR_TYPES : list string :=
  ["every_nth_worker"; "every_nth_global"; "client_cidr"].

Definition SELECTOR_TYPES : list string :=
  ["qname_suffix"; "qname_exact"; "qtype"; "rcode"; "qclass"; "opcode"; "edns_option"; "tag";
   "answer_source"; "cache_instance"; "sample_percent"; "every_nth_worker"; "every_nth_global";
   "client_cidr"].

Definition contains (l : list string) (s : string) : bool := existsb (String.eqb s) l.

(** Errors carry the offending value; their wording is not modelled. *)
Inductive SelectorError :=
  | UnknownSelectorType (ty : string)
  | RuleOnlySelector (ty : string)
  | BadWireValue (e : WireError)
  | BadAnswerSource (s : string)
  | EmptyValue
  | BadPercent (s : string)
  | BadEveryNth (s : string)
  | SampleKeysExclusive
  | BadKeyFrom (s : string).

Definition validate_selector_type (ty : string) : result unit SelectorError :=
  if contains SELECTOR_TYPES ty then Ok tt else Err (UnknownSelectorType ty).

Definition validate_non_rule_selector_type (ty : string) : result unit SelectorError :=
  let? _u := validate_selector_type ty in
  if contains RULE_ONLY_SELECTOR_TYPES ty then Err (RuleOnlySelector ty) else Ok tt.

Definition parse_answer_source (value : string) : result AnswerSourceSelector SelectorError :=
  let v := to_ascii_lowercase (trim value) in
  if String.eqb v "cache" then Ok SelCache
  else if String.eqb v "forward" then Ok SelForward
  else Err (BadAnswerSource v).

Definition wire_value (ty value : string) : result Z SelectorError :=
  match parse_selector_wire_value ty value with Ok n => Ok n | Err e => Err (BadWireValue e) end.

Definition nonempty_key (k : option string) : option string :=
  let! s := k in if String.eqb s EmptyString then None else Some s.

Definition compile_sample_key_from (key_from : string) (ctx : SelectorCompileCtx)
    (allow_rule_name allow_sink_name : bool) : result SampleKey SelectorError :=
  if String.eqb key_from "qname" then Ok SampleFromQname
  else if String.eqb key_from "rule_name" && allow_rule_name then
    match cc_rule_name ctx with Some n => Ok (SampleLiteral n) | None => Err (BadKeyFrom key_from) end
  else if String.eqb key_from "sink_name" && allow_sink_name then
    match cc_sink_name ctx with Some n => Ok (SampleLiteral n) | None => Err (BadKeyFrom key_from) end
  else Err (BadKeyFrom key_from).

Definition compile_sample_key_fields (key key_from : option string) (ctx : SelectorCompileCtx)
    (allow_rule_name allow_sink_name : bool) : result SampleKey SelectorError :=
  match nonempty_key key, nonempty_key key_from with
  | Some _, Some _ => Err SampleKeysExclusive
  | Some literal, None => Ok (SampleLiteral literal)
  | None, Some from => compile_sample_key_from from ctx allow_rule_name allow_sink_name
  | None, None => Ok SampleGlobal
  end.

Definition parse_every_nth (value : string) : result Z SelectorError :=
  match parse_uint u64_max (trim value) with
  | None => Err (BadEveryNth value)
  | Some n => if n =? 0 then Err (BadEveryNth value) else Ok n
  end.

(** [checked_rem] is [None] on zero. *)
Definition matches_every_nth (index nth : Z) : bool := (1 <=? nth) && (index mod nth =? 0).

Definition resolve_sample_key (key : SampleKey) (ctx : SelectorMatchCtx) : option string :=
  match key with
  | SampleGlobal => None
  | SampleLiteral s => Some s
  | SampleFromQname => cx_qname ctx
  end.

Definition as_fraction (percent : Z) : f64 := f64_div (f64_of_Z percent) (f64_of_Z 10000).

Definition GOLDEN : Z := 11400714819323198485.

Section Sampling.
Context (siphash : Z -> string -> Z) (parse_f64 : string -> option f64).

(** [siphash id salt] is [DefaultHasher] over the id and the salt. *)
Definition sample_bucket (txn_id : Z) (key : option string) : Z :=
  match nonempty_key key with
  | None => wrap 64 (txn_id * GOLDEN) mod 10000
  | Some salt => siphash txn_id salt mod 10000
  end.

Definition sample_threshold (rate : f64) : Z := floor_as 0 u64_max (f64_mul rate (f64_of_Z 10000)).

Definition hash_sample_keyed (txn_id : Z) (rate : f64) (key : option string) : bool :=
  if f64_ge rate (f64_of_Z 1) then true
  else if f64_le rate (f64_of_Z 0) then false
  else sample_bucket txn_id key <? sample_threshold rate.

Definition parse_sample_percent (value : string) : result f64 SelectorError :=
  match parse_f64 (trim value) with
  | None => Err (BadPercent value)
  | Some x => if f64_le (f64_of_Z 0) x && f64_le x (f64_of_Z 100) then Ok x
              else Err (BadPercent value)
  end.

Definition parse_percent_key (value : string) : result Z SelectorError :=
  let? x := parse_sample_percent value in
  Ok (round_as 0 u16_max (f64_mul x (f64_of_Z 100))).

Definition selector_compile (sel : Selector) (ctx : SelectorCompileCtx)
    : result CompiledSelector SelectorError :=
  let ty := sel_type sel in
  let v := sel_value sel in
  if String.eqb ty "qname_exact" then Ok (QnameExact v)
  else if String.eqb ty "qtype" then result_map SelQtype (wire_value ty v)
  else if String.eqb ty "rcode" then result_map SelRcode (wire_value ty v)
  else if String.eqb ty "qclass" then result_map SelQclass (wire_value ty v)
  else if String.eqb ty "opcode" then result_map (fun n => SelOpcode (wrap 8 n)) (wire_value ty v)
  else if String.eqb ty "edns_option" then result_map SelEdnsOption (wire_value ty v)
  else if String.eqb ty "tag" then Ok (SelTag v)
  else if String.eqb ty "answer_source" then result_map SelAnswerSource (parse_answer_source v)
  else if String.eqb ty "cache_instance" then
    if String.eqb (trim v) EmptyString then Err EmptyValue else Ok (SelCacheInstance v)
  else if String.eqb ty "sample_percent" then
    let? percent := parse_percent_key v in
    let? key := compile_sample_key_fields (sel_key sel) (sel_key_from sel) ctx
                  (is_someb (cc_rule_name ctx)) (is_someb (cc_sink_name ctx)) in
    Ok (SamplePercent percent key)
  else if String.eqb ty "every_nth_worker" then result_map EveryNthWorker (parse_every_nth v)
  else if String.eqb ty "every_nth_global" then result_map EveryNthGlobal (parse_every_nth v)
  else if String.eqb ty "client_cidr" then
    if String.eqb (trim v) EmptyString then Err EmptyValue else Ok (ClientCidr v)
  else Ok (QnameSuffix v).

Definition opt_eqb {A} `{EqDecision A} (o : option A) (a : A) : bool := bool_decide (o = Some a).

Definition matches_ctx (s : CompiledSelector) (ctx : SelectorMatchCtx) : bool :=
  match s with
  | QnameSuffix suffix => match cx_qname ctx with Some q => ends_with q suffix | None => false end
  | QnameExact n => opt_eqb (cx_qname ctx) n
  | SelQtype n => opt_eqb (cx_qtype ctx) n
  | SelRcode n => opt_eqb (cx_rcode ctx) n
  | SelQclass n => opt_eqb (cx_qclass ctx) n
  | SelOpcode n => opt_eqb (cx_opcode ctx) n
  | SelEdnsOption n => existsb (Z.eqb n) (cx_edns_option_codes ctx)
  | SelTag key => cx_tag_has ctx key
  | SelAnswerSource expected =>
      match cx_answer_source ctx, expected with
      | Some s, SelCache => String.eqb s "cache"
      | Some s, SelForward => String.eqb s "forward"
      | None, _ => false
      end
  | SelCacheInstance n => opt_eqb (cx_cache_instance ctx) n
  | SamplePercent percent key =>
      match key, cx_qname ctx with
      | SampleFromQname, None => false
      | _, _ => hash_sample_keyed (cx_txn_id ctx) (as_fraction percent) (resolve_sample_key key ctx)
      end
  | EveryNthWorker n => matches_every_nth (cx_txn_id ctx) n
  | EveryNthGlobal n => matches_every_nth (cx_global_query_index ctx) n
  | ClientCidr n => match cx_client_cidr_match ctx with Some f => f n | None => false end
  end.
End Sampling.

Definition source_as_str (s : AnswerSource) : string :=
  match s with SourceCache => "cache" | SourceForward => "forward" end.

Definition selector_match_ctx (t : Transaction) (tag_has : string -> bool)
    (client_cidr_match : option (string -> bool)) : SelectorMatchCtx := {|
  cx_txn_id := id t;
  cx_global_query_index := global_query_index t;
  cx_qname := qname t;
  cx_qtype := qtype t;
  cx_rcode := rcode t;
  cx_qclass := qclass t;
  cx_opcode := opcode t;
  cx_edns_option_codes := edns_option_codes t;
  cx_answer_source := source_as_str <$> answer_source t;
  cx_cache_instance := cache_instance t;
  cx_tag_has := tag_has;
  cx_client_cidr_match := client_cidr_match;
|}.

(** ** Properties *)

(** [every_nth_worker] and [every_nth_global] select exactly one of every
    [nth] consecutive indices, wherever the window starts. *)
Theorem every_nth_exactly_one (start nth : Z) :
  0 <= start -> 1 <= nth ->
  exists i, start <= i < start + nth /\ matches_every_nth i nth = true
    /\ forall j, start <= j < start + nth -> matches_every_nth j nth = true -> j = i.
Proof.
  intros Hs Hn. unfold matches_every_nth. rewrite (proj2 (Z.leb_le 1 nth)) by lia. simpl.
  set (q := (start + nth - 1) / nth).
  pose proof (Z.mod_pos_bound (start + nth - 1) nth ltac:(lia)) as Hm.
  pose proof (Z.div_mod (start + nth - 1) nth ltac:(lia)) as Hd. fold q in Hd.
  exists (q * nth). split; [nia|]. rewrite Z.mod_mul by lia. split; [done|].
  intros j Hj Hj0. apply Z.eqb_eq in Hj0.
  pose proof (Z.div_mod j nth ltac:(lia)) as Hjd. rewrite Hj0 in Hjd.
  assert (j / nth = q) by nia. nia.
Qed.

Lemma every_nth_exactly_one_witness :
  exists i, 5 <= i < 5 + 4 /\ matches_every_nth i 4 = true
    /\ forall j, 5 <= j < 5 + 4 -> matches_every_nth j 4 = true -> j = i.
Proof. apply (every_nth_exactly_one 5 4); lia. Defined.

(** A [sample_percent] of 0.03 (three hundredths) samples two buckets of ten
    thousand, not three: the fraction is rounded below 3/10000 in binary64 and
    the threshold is its floor. A hundred percent samples every transaction and
    zero percent none. *)
Theorem sample_percent_three_hundredths siphash ctx :
  matches_ctx siphash (SamplePercent 3 SampleGlobal) ctx
    = (sample_bucket siphash (cx_txn_id ctx) None <? 2)
  /\ matches_ctx siphash (SamplePercent 10000 SampleGlobal) ctx = true
  /\ matches_ctx siphash (SamplePercent 0 SampleGlobal) ctx = false.
Proof.
  assert (Ht : sample_threshold (as_fraction 3) = 2) by (vm_compute; reflexivity).
  assert (H1 : f64_ge (as_fraction 3) (f64_of_Z 1) = false) by (vm_compute; reflexivity).
  assert (H0 : f64_le (as_fraction 3) (f64_of_Z 0) = false) by (vm_compute; reflexivity).
  unfold matches_ctx, hash_sample_keyed. rewrite Ht, H1, H0. split_and!; done.
Qed.
