(* ===== verification/Script.v ===== *)
(** * Script: the effects of Rhai rule scripts

    src/crates/conduit-script/src/runtime.rs: the effect record a script fills
    through the methods of [RhaiTxn], [run_scripts] and [apply_effects], with the
    transaction side of conduit-core/src/script_host.rs. The Rhai engine is a
    parameter: which host calls a script makes, and whether it ends in an error,
    is the engine's business; what the calls do is the program's.

    Address arguments are given as the result of parsing them. *)

From stdpp Require Import strings gmap.
From Stdlib Require Import String.
From S2P Require Import Prelude Text Floats DnsWire Transaction Selectors.

#[local] Open Scope string_scope.
#[local] Open Scope Z_scope.

Inductive ScriptPhase := RequestPhase | ResponsePhase.

#[global] Instance ScriptPhase_eq_dec : EqDecision ScriptPhase.
Proof. solve_decision. Defined.

Inductive TagOp := TagBool (b : bool) | TagString (s : string) | TagClear.

#[global] Instance TagOp_eq_dec : EqDecision TagOp.
Proof. solve_decision. Defined.

(** User metric flushes are left out: they go to the metrics registry. *)
Record ScriptEffects := MkEffects {
  fx_pool : option string;
  fx_retry_pool : option string;
  fx_retry_requested : bool;
  fx_hard_retry : bool;
  fx_clear_soft_retry : bool;
  fx_clear_retry_pool : bool;
  fx_clear_pool : bool;
  fx_tag_ops : gmap string TagOp;
  fx_rcode : option Z;
  fx_soft_drop : bool;
  fx_hard_drop : bool;
  fx_clear_soft_drop : bool;
  fx_sample_decisions : gmap (Z * string) bool;
  fx_source_override_v4 : option Z;
  fx_source_override_v6 : option Z;
  fx_retry_source_override_v4 : option Z;
  fx_retry_source_override_v6 : option Z;
  fx_clear_retry_source_v4 : bool;
  fx_clear_retry_source_v6 : bool;
  fx_cache_lookup_eligible : option bool;
}.

Ltac fx_setter :=
  setter MkEffects (fx_pool, fx_retry_pool, fx_retry_requested, fx_hard_retry,
    fx_clear_soft_retry, fx_clear_retry_pool, fx_clear_pool, fx_tag_ops, fx_rcode, fx_soft_drop,
    fx_hard_drop, fx_clear_soft_drop, fx_sample_decisions, fx_source_override_v4,
    fx_source_override_v6, fx_retry_source_override_v4, fx_retry_source_override_v6,
    fx_clear_retry_source_v4, fx_clear_retry_source_v6, fx_cache_lookup_eligible).

#[export] Instance set_fx_pool : Setter fx_pool := ltac:(fx_setter).
#[export] Instance set_fx_retry_pool : Setter fx_retry_pool := ltac:(fx_setter).
#[export] Instance set_fx_retry_requested : Setter fx_retry_requested := ltac:(fx_setter).
#[export] Instance set_fx_hard_retry : Setter fx_hard_retry := ltac:(fx_setter).
#[export] Instance set_fx_clear_soft_retry : Setter fx_clear_soft_retry := ltac:(fx_setter).
#[export] Instance set_fx_clear_retry_pool : Setter fx_clear_retry_pool := ltac:(fx_setter).
#[export] Instance set_fx_clear_pool : Setter fx_clear_pool := ltac:(fx_setter).
#[export] Instance set_fx_tag_ops : Setter fx_tag_ops := ltac:(fx_setter).
#[export] Instance set_fx_rcode : Setter fx_rcode := ltac:(fx_setter).
#[export] Instance set_fx_soft_drop : Setter fx_soft_drop := ltac:(fx_setter).
#[export] Instance set_fx_hard_drop : Setter fx_hard_drop := ltac:(fx_setter).
#[export] Instance set_fx_clear_soft_drop : Setter fx_clear_soft_drop := ltac:(fx_setter).
#[export] Instance set_fx_sample : Setter fx_sample_decisions := ltac:(fx_setter).
#[export] Instance set_fx_src4 : Setter fx_source_override_v4 := ltac:(fx_setter).
#[export] Instance set_fx_src6 : Setter fx_source_override_v6 := ltac:(fx_setter).
#[export] Instance set_fx_rsrc4 : Setter fx_retry_source_override_v4 := ltac:(fx_setter).
#[export] Instance set_fx_rsrc6 : Setter fx_retry_source_override_v6 := ltac:(fx_setter).
#[export] Instance set_fx_crs4 : Setter fx_clear_retry_source_v4 := ltac:(fx_setter).
#[export] Instance set_fx_crs6 : Setter fx_clear_retry_source_v6 := ltac:(fx_setter).
#[export] Instance set_fx_eligible : Setter fx_cache_lookup_eligible := ltac:(fx_setter).

Definition ScriptEffects_default : ScriptEffects :=
  MkEffects None None false false false false false ∅ None false false false ∅
    None None None None false false None.

(** The methods of [RhaiTxn] that write the effect record. *)
Inductive HostCall :=
  | CallSetTagBool (key : string) (b : bool)
  | CallSetTagString (key s : string)
  | CallClearTag (key : string)
  | CallSetPool (n : string)
  | CallSetRetryPool (n : string)
  | CallRequestRetry
  | CallRequestRetryNow
  | CallDropQuery
  | CallDropQueryNow
  | CallClearDrop
  | CallClearRetry
  | CallClearRetryPool
  | CallClearPool
  | CallSetRcodeEnum (n : Z)
  | CallSetRcodeName (s : string)
  | CallSetSourceV4 (addr : option Z)
  | CallSetSourceV6 (addr : option Z)
  | CallSetRetrySourceV4 (addr : option Z)
  | CallSetRetrySourceV6 (addr : option Z)
  | CallClearRetrySourceV4
  | CallClearRetrySourceV6
  | CallSamplePercent (percent : f64) (key : string)
  | CallSetCacheLookupEligible (b : bool).

Record CompiledScript := { cs_path : string; cs_rule_name : string; cs_hook : ScriptPhase }.

Inductive ScriptRunOutcome := RunOk | RunError | RunDrop | RunDropNow | RunRetry | RunRetryNow.

Record ScriptRunStats := { st_errors : Z; st_clear_soft_retry : bool }.

(** [percent.clamp(0.0, 100.0)]; NaN stays NaN. *)
Definition clamp_percent (x : f64) : f64 :=
  if f64_lt x (f64_of_Z 0) then f64_of_Z 0
  else if f64_lt (f64_of_Z 100) x then f64_of_Z 100 else x.

Section Engine.
Context (siphash : Z -> string -> Z).
(** The engine: the host calls a script makes on a transaction, in order, and
    whether it runs to the end without an error. *)
Context (run_ast : CompiledScript -> ScriptPhase -> Transaction -> list HostCall * bool).

Definition sample_percent_keyed (txn_id : Z) (fx : ScriptEffects) (percent : f64) (key : string)
    : ScriptEffects :=
  let clamped := clamp_percent percent in
  let cache_key := (round_as 0 u16_max (f64_mul clamped (f64_of_Z 100)), key) in
  match fx_sample_decisions fx !! cache_key with
  | Some _ => fx
  | None =>
      let salt := if String.eqb key EmptyString then None else Some key in
      let decision := hash_sample_keyed siphash txn_id (f64_div clamped (f64_of_Z 100)) salt in
      let fx := fx <| fx_sample_decisions := <[cache_key := decision]> (fx_sample_decisions fx) |> in
      if decision then fx <| fx_tag_ops := <["sampled" := TagBool true]> (fx_tag_ops fx) |> else fx
  end.

(** A call; one that raises a script error leaves the record as it is. *)
Definition exec_call (phase : ScriptPhase) (txn_id : Z) (fx : ScriptEffects) (c : HostCall)
    : ScriptEffects :=
  let response := bool_decide (phase = ResponsePhase) in
  match c with
  | CallSetTagBool k b => fx <| fx_tag_ops := <[k := TagBool b]> (fx_tag_ops fx) |>
  | CallSetTagString k s => fx <| fx_tag_ops := <[k := TagString s]> (fx_tag_ops fx) |>
  | CallClearTag k => fx <| fx_tag_ops := <[k := TagClear]> (fx_tag_ops fx) |>
  | CallSetPool n => fx <| fx_pool := Some n |> <| fx_clear_pool := false |>
  | CallSetRetryPool n => fx <| fx_retry_pool := Some n |>
  | CallRequestRetry => if response then fx <| fx_retry_requested := true |> else fx
  | CallRequestRetryNow => if response then fx <| fx_hard_retry := true |> else fx
  | CallDropQuery => fx <| fx_soft_drop := true |>
  | CallDropQueryNow => fx <| fx_hard_drop := true |>
  | CallClearDrop => fx <| fx_clear_soft_drop := true |>
  | CallClearRetry => if response then fx <| fx_clear_soft_retry := true |> else fx
  | CallClearRetryPool => fx <| fx_clear_retry_pool := true |>
  | CallClearPool => fx <| fx_pool := None |> <| fx_clear_pool := true |>
  | CallSetRcodeEnum n => fx <| fx_rcode := Some n |>
  | CallSetRcodeName s => fx <| fx_rcode := parse_name Rcode s |>
  | CallSetSourceV4 (Some a) =>
      if response then fx else fx <| fx_source_override_v4 := Some a |>
  | CallSetSourceV6 (Some a) =>
      if response then fx else fx <| fx_source_override_v6 := Some a |>
  | CallSetRetrySourceV4 (Some a) => fx <| fx_retry_source_override_v4 := Some a |>
  | CallSetRetrySourceV6 (Some a) => fx <| fx_retry_source_override_v6 := Some a |>
  | CallSetSourceV4 None | CallSetSourceV6 None
  | CallSetRetrySourceV4 None | CallSetRetrySourceV6 None => fx
  | CallClearRetrySourceV4 => fx <| fx_clear_retry_source_v4 := true |>
  | CallClearRetrySourceV6 => fx <| fx_clear_retry_source_v6 := true |>
  | CallSamplePercent percent key => sample_percent_keyed txn_id fx percent key
  | CallSetCacheLookupEligible b =>
      if response then fx else fx <| fx_cache_lookup_eligible := Some b |>
  end.

Definition run_one (script : CompiledScript) (t : Transaction) (phase : ScriptPhase)
    : option ScriptEffects :=
  let '(calls, ok) := run_ast script phase t in
  if ok then Some (foldl (exec_call phase (id t)) ScriptEffects_default calls) else None.

(** [RhaiTxn::has_tag]: what a script sees of a tag, its own writes included. *)
Definition rhai_has_tag (t : Transaction) (fx : ScriptEffects) (key : string) : bool :=
  match fx_tag_ops fx !! key with
  | Some TagClear => false
  | Some (TagBool v) => v
  | Some (TagString _) => true
  | None => has_tag (tags t) key
  end.

Definition apply_tag_op (key : string) (op : TagOp) (ts : TagSet) : TagSet :=
  match op with
  | TagBool v => set_bool ts key v
  | TagString v => set_string ts key v
  | TagClear => clear_tag ts key
  end.

(** The source goes through the keys in sorted order; a key is touched once. *)
Definition apply_tag_ops (ops : gmap string TagOp) (ts : TagSet) : TagSet :=
  map_fold apply_tag_op ts ops.

Definition opt_set {A} (o : option A) (f : A -> Transaction -> Transaction) (t : Transaction)
    : Transaction := match o with Some a => f a t | None => t end.
Definition when (b : bool) (f : Transaction -> Transaction) (t : Transaction) : Transaction :=
  if b then f t else t.

Definition apply_effects (t : Transaction) (fx : ScriptEffects) : Transaction :=
  let t := if fx_clear_pool fx then clear_pool t
           else opt_set (fx_pool fx) (fun p t => t <| selected_pool := Some p |>) t in
  let t := opt_set (fx_retry_pool fx) (fun p t => t <| retry_pool := Some p |>) t in
  let t := t <| tags := apply_tag_ops (fx_tag_ops fx) (tags t) |> in
  let t := opt_set (fx_rcode fx) (fun c t => set_rcode_code t c) t in
  let t := opt_set (fx_source_override_v4 fx) (fun a t => t <| source_override_v4 := Some a |>) t in
  let t := opt_set (fx_source_override_v6 fx) (fun a t => t <| source_override_v6 := Some a |>) t in
  let t := opt_set (fx_retry_source_override_v4 fx)
             (fun a t => t <| retry_source_override_v4 := Some a |>) t in
  let t := opt_set (fx_retry_source_override_v6 fx)
             (fun a t => t <| retry_source_override_v6 := Some a |>) t in
  let t := when (fx_clear_retry_source_v4 fx) (fun t => t <| retry_source_override_v4 := None |>) t in
  let t := when (fx_clear_retry_source_v6 fx) (fun t => t <| retry_source_override_v6 := None |>) t in
  let t := when (fx_clear_soft_drop fx) clear_soft_drop t in
  let t := when (fx_clear_retry_pool fx) clear_retry_pool t in
  let t := when (fx_soft_drop fx) set_soft_drop_intent t in
  let t := when (fx_hard_drop fx) (fun t => t <| dropped := true |>) t in
  opt_set (fx_cache_lookup_eligible fx) (fun b t => t <| cache_lookup_eligible := b |>) t.

Definition stat_error (st : ScriptRunStats) : ScriptRunStats :=
  {| st_errors := wrap 32 (st_errors st + 1); st_clear_soft_retry := st_clear_soft_retry st |}.
Definition stat_clear (st : ScriptRunStats) : ScriptRunStats :=
  {| st_errors := st_errors st; st_clear_soft_retry := true |}.

Fixpoint run_scripts_loop (scripts : list CompiledScript) (ids : list nat) (t : Transaction)
    (phase : ScriptPhase) (st : ScriptRunStats) : ScriptRunOutcome * ScriptRunStats * Transaction :=
  match ids with
  | [] => (RunOk, st, t)
  | i :: ids' =>
      match scripts !! i with
      | None => run_scripts_loop scripts ids' t phase st
      | Some script =>
          if decide (cs_hook script = phase) then
            match run_one script t phase with
            | Some fx =>
                let t := apply_effects t fx in
                if fx_hard_drop fx then (RunDropNow, st, t)
                else if fx_soft_drop fx then (RunDrop, st, t)
                else if fx_hard_retry fx then (RunRetryNow, st, t)
                else
                  let st := if fx_clear_soft_retry fx then stat_clear st else st in
                  if fx_retry_requested fx && negb (fx_clear_soft_retry fx) then (RunRetry, st, t)
                  else run_scripts_loop scripts ids' t phase st
            | None => run_scripts_loop scripts ids' t phase (stat_error st)
            end
          else run_scripts_loop scripts ids' t phase st
      end
  end.

Definition run_scripts (scripts : list CompiledScript) (ids : list nat) (t : Transaction)
    (phase : ScriptPhase) : ScriptRunOutcome * ScriptRunStats * Transaction :=
  run_scripts_loop scripts ids t phase {| st_errors := 0; st_clear_soft_retry := false |}.
End Engine.

(** ** Lemmas *)

(** What a tag operation leaves of one key. *)
Definition flag_after (op : option TagOp) (b : option bool) : option bool :=
  match op with Some (TagBool v) => Some v | Some TagClear => None | _ => b end.
Definition string_after (op : option TagOp) (s : option string) : option string :=
  match op with Some (TagString v) => Some v | Some TagClear => None | _ => s end.

Lemma apply_tag_ops_lookup ops ts key :
  flags (apply_tag_ops ops ts) !! key = flag_after (ops !! key) (flags ts !! key)
  /\ strings (apply_tag_ops ops ts) !! key = string_after (ops !! key) (strings ts !! key).
Proof.
  unfold apply_tag_ops. revert ops.
  apply (map_fold_weak_ind (fun r ops =>
    flags r !! key = flag_after (ops !! key) (flags ts !! key)
    /\ strings r !! key = string_after (ops !! key) (strings ts !! key))).
  - by rewrite lookup_empty.
  - intros k op ops r Hk [IHf IHs]. destruct (decide (k = key)) as [->|Hne].
    + rewrite lookup_insert_eq. rewrite Hk in IHf, IHs. simpl in IHf, IHs.
      by destruct op; simpl; rewrite ?lookup_insert_eq, ?lookup_delete_eq.
    + rewrite lookup_insert_ne by done.
      by destruct op; simpl; rewrite ?lookup_insert_ne, ?lookup_delete_ne by done.
Qed.

Arguments opt_set : simpl never.
Arguments when : simpl never.

(** A field the steps of [apply_effects] leave alone. *)
Lemma opt_set_proj {A B} (p : Transaction -> B) (o : option A) f t :
  (forall a t, p (f a t) = p t) -> p (opt_set o f t) = p t.
Proof. intros H. by destruct o; unfold opt_set. Qed.

Lemma when_proj {B} (p : Transaction -> B) b f t :
  (forall t, p (f t) = p t) -> p (when b f t) = p t.
Proof. intros H. by destruct b; unfold when. Qed.

Lemma apply_effects_tags t fx : tags (apply_effects t fx) = apply_tag_ops (fx_tag_ops fx) (tags t).
Proof.
  unfold apply_effects. cbv zeta.
  repeat first [rewrite (opt_set_proj tags) by done | rewrite (when_proj tags) by done].
  simpl. by case_match; rewrite ?(opt_set_proj tags) by done.
Qed.

(** After a script's effects are applied, a tag is set exactly when the
    script saw it set at its end, but for one case: a script that wrote [false]
    to a tag that also has a string value. The script reads it as unset and the
    transaction keeps it set. *)
Theorem script_tags_applied t fx key :
  has_tag (tags (apply_effects t fx)) key
  = rhai_has_tag t fx key
    || (bool_decide (fx_tag_ops fx !! key = Some (TagBool false)) && is_someb (strings (tags t) !! key)).
Proof.
  rewrite apply_effects_tags. unfold has_tag, rhai_has_tag.
  destruct (apply_tag_ops_lookup (fx_tag_ops fx) (tags t) key) as [-> ->].
  destruct (fx_tag_ops fx !! key) as [[[]|s|]|]; simpl; rewrite ?orb_true_r, ?orb_false_r; done.
Qed.

Lemma exec_call_soft_drop siphash phase i fx c :
  fx_soft_drop fx = true -> fx_soft_drop (exec_call siphash phase i fx c) = true.
Proof.
  intros H. destruct c; simpl; unfold sample_percent_keyed; repeat case_match; done.
Qed.

Lemma foldl_soft_drop siphash phase i calls fx :
  fx_soft_drop fx = true \/ CallDropQuery ∈ calls ->
  fx_soft_drop (foldl (exec_call siphash phase i) fx calls) = true.
Proof.
  revert fx. induction calls as [|c calls IH]; intros fx H; simpl.
  - destruct H as [H|H]; [done|by apply elem_of_nil in H].
  - apply IH. destruct H as [H|[<-|H]%elem_of_cons]; auto using exec_call_soft_drop.
Qed.

Lemma apply_effects_soft_drop t fx :
  soft_drop (apply_effects t fx) =
  fx_soft_drop fx || (soft_drop t && negb (fx_clear_soft_drop fx)).
Proof.
  unfold apply_effects. cbv zeta.
  rewrite (opt_set_proj soft_drop), (when_proj soft_drop) by done.
  destruct (fx_soft_drop fx); [done|]. unfold when at 1. rewrite (when_proj soft_drop) by done.
  destruct (fx_clear_soft_drop fx); simpl; [by rewrite andb_false_r|]. rewrite andb_true_r.
  unfold when at 1.
  repeat first [rewrite (opt_set_proj soft_drop) by done | rewrite (when_proj soft_drop) by done].
  simpl.
  by case_match; rewrite ?(opt_set_proj soft_drop) by done.
Qed.

(** A script that calls [drop_query] ends with the soft-drop intent set and
    a drop outcome, whatever else it calls and in whatever order: a later
    [clear_drop] of the same script does not cancel it, and an earlier
    [request_retry_now] does not stop the script and is lost. *)
Theorem script_drop_query_wins siphash run_ast script t phase :
  cs_hook script = phase ->
  (run_ast script phase t).2 = true ->
  CallDropQuery ∈ (run_ast script phase t).1 ->
  exists st t', run_scripts siphash run_ast [script] [0%nat] t phase
      = (if fx_hard_drop (foldl (exec_call siphash phase (id t)) ScriptEffects_default
                            (run_ast script phase t).1) then RunDropNow else RunDrop, st, t')
    /\ soft_drop t' = true.
Proof.
  intros Hh Hok Hin. unfold run_scripts, run_scripts_loop, run_one. simpl.
  rewrite decide_True by done. destruct (run_ast script phase t) as [calls ok]. simpl in *. subst ok.
  pose proof (foldl_soft_drop siphash phase (id t) calls ScriptEffects_default (or_intror Hin)) as Hs.
  rewrite Hs. case_match; eexists _, _; (split; [done|]); by rewrite apply_effects_soft_drop, Hs.
Qed.

Lemma script_drop_query_wins_witness :
  exists st t',
    run_scripts (fun _ _ => 0)
      (fun _ _ _ => ([CallRequestRetryNow; CallDropQuery; CallClearDrop], true))
      [{| cs_path := "s.rhai"; cs_rule_name := "r"; cs_hook := ResponsePhase |}] [0%nat]
      (Transaction_new 1 (SockV4 0 53) Udp (Build_Clock 0 0)) ResponsePhase = (RunDrop, st, t')
    /\ soft_drop t' = true.
Proof.
  apply (script_drop_query_wins (fun _ _ => 0)
    (fun _ _ _ => ([CallRequestRetryNow; CallDropQuery; CallClearDrop], true))
    {| cs_path := "s.rhai"; cs_rule_name := "r"; cs_hook := ResponsePhase |}
    (Transaction_new 1 (SockV4 0 53) Udp (Build_Clock 0 0)) ResponsePhase).
  - reflexivity.
  - reflexivity.
  - simpl. right. left.
Defined.
