(* ===== verification/Rules.v ===== *)
(** * Rules: the request and response rule hooks

    src/crates/conduit-core/src/rules/mod.rs and the stages of
    stages/request_rules.rs and stages/response_rules.rs. Parameters: the Rhai
    engine and hasher of [Script], and the CIDR data sources ([lookup_ip]). *)

From stdpp Require Import strings gmap.
From Stdlib Require Import Ascii String.
From S2P Require Import Prelude Text Floats DnsWire Transaction Selectors Script.

#[local] Open Scope string_scope.
#[local] Open Scope Z_scope.

Inductive RuleHook := HookRequest | HookResponse.

#[global] Instance RuleHook_eq_dec : EqDecision RuleHook.
Proof. solve_decision. Defined.

Inductive CompiledAction :=
  | SetPool (p : string)
  | SetTag (key value : string)
  | SetRetryPool (p : string)
  | ActRetry
  | ActRetryNow
  | ActDrop
  | ActDropNow
  | ActClearDrop
  | ActClearRetry
  | ActClearRetryPool
  | ActClearPool
  | ActClearTag (key : string)
  | SetRcode (rc : Z)
  | SetSourceV4 (a : Z)
  | SetSourceV6 (a : Z)
  | SetRetrySourceV4 (a : Z)
  | SetRetrySourceV6 (a : Z)
  | ClearRetrySourceV4
  | ClearRetrySourceV6
  | Rhai (script_id : nat).

Record CompiledRule := {
  rule_name : string;
  rule_hook : RuleHook;
  rule_selectors : list CompiledSelector;
  rule_actions : list CompiledAction;
}.

Inductive RuleOutcome := OutcomeContinue | OutcomeDrop | OutcomeRetry.

#[global] Instance RuleOutcome_eq_dec : EqDecision RuleOutcome.
Proof. solve_decision. Defined.

Record RuleEvalResult := { outcome : RuleOutcome; matched_rule_name : option string }.

(** ** Compilation of actions *)

Record Action := { act_type : string; act_value : string }.

(** [CompiledAction::compile] on a validated action; [None] is a panic. The IP
    address parsers are the standard library's. *)
Definition action_compile (parse_v4 parse_v6 : string -> option Z) (act : Action)
    : option CompiledAction :=
  let v := act_value act in
  let ty_is s := String.eqb (act_type act) s in
  if ty_is "set_pool" then Some (SetPool v)
  else if ty_is "set_retry_pool" then Some (SetRetryPool v)
  else if ty_is "retry" then Some ActRetry
  else if ty_is "retry_now" then Some ActRetryNow
  else if ty_is "drop" then Some ActDrop
  else if ty_is "drop_now" then Some ActDropNow
  else if ty_is "clear_drop" then Some ActClearDrop
  else if ty_is "clear_retry" then Some ActClearRetry
  else if ty_is "clear_retry_pool" then Some ActClearRetryPool
  else if ty_is "clear_pool" then Some ActClearPool
  else if ty_is "clear_tag" then Some (ActClearTag v)
  else if ty_is "set_rcode" then SetRcode <$> parse_name Rcode v
  else if ty_is "set_tag" then
    Some (match split_once "="%char v with
          | Some (k, x) => SetTag k x
          | None => SetTag v "true"
          end)
  else if ty_is "set_source_v4" then SetSourceV4 <$> parse_v4 v
  else if ty_is "set_source_v6" then SetSourceV6 <$> parse_v6 v
  else if ty_is "set_retry_source_v4" then SetRetrySourceV4 <$> parse_v4 v
  else if ty_is "set_retry_source_v6" then SetRetrySourceV6 <$> parse_v6 v
  else if ty_is "clear_retry_source_v4" then Some ClearRetrySourceV4
  else if ty_is "clear_retry_source_v6" then Some ClearRetrySourceV6
  else None.

(** The actions of a rule: the [i]-th [rhai] action runs the rule's [i]-th
    compiled script. *)
Fixpoint compile_actions (parse_v4 parse_v6 : string -> option Z) (script_ids : list nat)
    (rhai_idx : nat) (acts : list Action) : option (list CompiledAction) :=
  match acts with
  | [] => Some []
  | act :: acts' =>
      if String.eqb (act_type act) "rhai" then
        let! script_id := script_ids !! rhai_idx in
        let! rest := compile_actions parse_v4 parse_v6 script_ids (S rhai_idx) acts' in
        Some (Rhai script_id :: rest)
      else
        let! a := action_compile parse_v4 parse_v6 act in
        let! rest := compile_actions parse_v4 parse_v6 script_ids rhai_idx acts' in
        Some (a :: rest)
  end.

(** ** Execution *)

Definition final_outcome (t : Transaction) (retry : bool) : RuleOutcome :=
  if soft_drop t then OutcomeDrop else if retry then OutcomeRetry else OutcomeContinue.

Definition retry_outcome (t : Transaction) : RuleOutcome :=
  if soft_drop t then OutcomeDrop else OutcomeRetry.

(** [apply_builtin]: the outcome that stops the rule, if any, with the new
    transaction and retry flag. [Rhai] is unreachable here. *)
Definition apply_builtin (a : CompiledAction) (t : Transaction) (retry : bool)
    : option RuleOutcome * Transaction * bool :=
  match a with
  | SetPool p => (None, t <| selected_pool := Some p |>, retry)
  | SetTag key value => (None, t <| tags := set_string (tags t) key value |>, retry)
  | SetRetryPool p => (None, t <| retry_pool := Some p |>, retry)
  | ActRetry => (None, t, true)
  | ActRetryNow => (Some (retry_outcome t), t, retry)
  | ActDrop => (None, set_soft_drop_intent t, retry)
  | ActDropNow => (Some OutcomeDrop, t, retry)
  | ActClearDrop => (None, clear_soft_drop t, retry)
  | ActClearRetry => (None, t, false)
  | ActClearRetryPool => (None, clear_retry_pool t, retry)
  | ActClearPool => (None, clear_pool t, retry)
  | ActClearTag key => (None, t <| tags := clear_tag (tags t) key |>, retry)
  | SetRcode rc => (None, set_rcode_code t rc, retry)
  | SetSourceV4 a => (None, t <| source_override_v4 := Some a |>, retry)
  | SetSourceV6 a => (None, t <| source_override_v6 := Some a |>, retry)
  | SetRetrySourceV4 a => (None, t <| retry_source_override_v4 := Some a |>, retry)
  | SetRetrySourceV6 a => (None, t <| retry_source_override_v6 := Some a |>, retry)
  | ClearRetrySourceV4 => (None, t <| retry_source_override_v4 := None |>, retry)
  | ClearRetrySourceV6 => (None, t <| retry_source_override_v6 := None |>, retry)
  | Rhai _ => (None, t, retry)
  end.

Definition script_phase (h : RuleHook) : ScriptPhase :=
  match h with HookRequest => RequestPhase | HookResponse => ResponsePhase end.

Section Eval.
Context (siphash : Z -> string -> Z).
Context (run_ast : CompiledScript -> ScriptPhase -> Transaction -> list HostCall * bool).
Context (scripts : list CompiledScript).
Context (lookup_ip : string -> IpAddr -> option string).

Definition rule_matches (r : CompiledRule) (t : Transaction) : bool :=
  match rule_selectors r with
  | [] => true
  | sels =>
      let client_cidr_match n := is_someb (lookup_ip n (sock_ip (client_addr t))) in
      let ctx := selector_match_ctx t (has_tag (tags t)) (Some client_cidr_match) in
      forallb (fun s => matches_ctx siphash s ctx) sels
  end.

(** The loop of [execute_ordered] over the remaining actions. *)
Fixpoint execute_actions (h : RuleHook) (actions : list CompiledAction) (t : Transaction)
    (retry : bool) : RuleOutcome * Transaction :=
  match actions with
  | [] => (final_outcome t retry, t)
  | Rhai script_id :: rest =>
      let '(script_outcome, stats, t) :=
        run_scripts siphash run_ast scripts [script_id] t (script_phase h) in
      match script_outcome with
      | RunDropNow => (OutcomeDrop, t)
      | RunDrop => execute_actions h rest t retry
      | RunRetry =>
          execute_actions h rest t (if decide (h = HookResponse) then true else retry)
      | RunRetryNow =>
          if decide (h = HookResponse) then (retry_outcome t, t) else execute_actions h rest t retry
      | RunError => (final_outcome t retry, t)
      | RunOk => execute_actions h rest t (if st_clear_soft_retry stats then false else retry)
      end
  | a :: rest =>
      let '(stop, t, retry) := apply_builtin a t retry in
      match stop with
      | Some o => (o, t)
      | None => execute_actions h rest t retry
      end
  end.

Definition execute_ordered (r : CompiledRule) (t : Transaction) : RuleOutcome * Transaction :=
  execute_actions (rule_hook r) (rule_actions r) t false.

Fixpoint eval (rules : list CompiledRule) (hook : RuleHook) (t : Transaction)
    : RuleEvalResult * Transaction :=
  match rules with
  | [] => ({| outcome := OutcomeContinue; matched_rule_name := None |}, t)
  | r :: rules' =>
      if decide (rule_hook r = hook) then
        if rule_matches r t then
          let '(o, t) := execute_ordered r t in
          ({| outcome := o; matched_rule_name := Some (rule_name r) |}, t)
        else eval rules' hook t
      else eval rules' hook t
  end.

Definition request_rules_stage (rules : list CompiledRule) (t : Transaction)
    : StageOutcome * Transaction :=
  let '(r, t) := eval rules HookRequest t in
  match outcome r with
  | OutcomeDrop => (DropQuery, t)
  | OutcomeContinue | OutcomeRetry => (Continue Lookup, t)
  end.

Definition response_rules_stage (rules : list CompiledRule) (t : Transaction)
    : StageOutcome * Transaction :=
  let '(r, t) := eval rules HookResponse t in
  match outcome r with
  | OutcomeRetry => (Continue Lookup, t)
  | OutcomeDrop => (DropQuery, t)
  | OutcomeContinue => (Continue Send, t)
  end.
End Eval.

(** ** A declarative reading of a rule without scripts *)

Definition is_hard (a : CompiledAction) : bool :=
  match a with ActRetryNow | ActDropNow => true | _ => false end.

(** The actions before the first hard one, and the hard one. *)
Fixpoint split_hard (acts : list CompiledAction) : list CompiledAction * option CompiledAction :=
  match acts with
  | [] => ([], None)
  | a :: rest => if is_hard a then ([], Some a)
                 else let '(pre, h) := split_hard rest in (a :: pre, h)
  end.

(** The last [drop] or [clear_drop] decides, and so for [retry]. *)
Definition drop_intent (init : bool) (acts : list CompiledAction) : bool :=
  foldl (fun b a => match a with ActDrop => true | ActClearDrop => false | _ => b end) init acts.
Definition retry_intent (init : bool) (acts : list CompiledAction) : bool :=
  foldl (fun b a => match a with ActRetry => true | ActClearRetry => false | _ => b end) init acts.

Definition builtin (a : CompiledAction) : Prop := match a with Rhai _ => False | _ => True end.

Definition apply_action (t : Transaction) (a : CompiledAction) : Transaction :=
  (apply_builtin a t false).1.2.

Definition declared_outcome (drop retry : bool) (hard : option CompiledAction) : RuleOutcome :=
  match hard with
  | Some ActDropNow => OutcomeDrop
  | Some _ => if drop then OutcomeDrop else OutcomeRetry
  | None => if drop then OutcomeDrop else if retry then OutcomeRetry else OutcomeContinue
  end.

(** ** Properties *)

Lemma execute_actions_builtin siphash run_ast scripts h acts t retry :
  Forall builtin acts ->
  execute_actions siphash run_ast scripts h acts t retry =
  let '(pre, hard) := split_hard acts in
  (declared_outcome (drop_intent (soft_drop t) pre) (retry_intent retry pre) hard,
   foldl apply_action t pre).
Proof.
  revert t retry. induction acts as [|a acts IH]; intros t retry Hb; [done|].
  inversion Hb as [|? ? Ha Hacts]; subst. pose proof (fun t r => IH t r Hacts) as IH'. simpl.
  destruct (split_hard acts) as [pre hard] eqn:Es.
  destruct a; simpl; try (rewrite IH'; done); done.
Qed.

(** A rule without scripts does what its actions say in order up to the
    first hard action and nothing after it; its outcome is the hard drop, or the
    retry of a hard retry unless a drop is pending, or else drop before retry,
    where the last [drop]/[clear_drop] and the last [retry]/[clear_retry] before
    that point decide. *)
Theorem builtin_rule_outcome siphash run_ast scripts r t :
  Forall builtin (rule_actions r) ->
  execute_ordered siphash run_ast scripts r t =
  let '(pre, hard) := split_hard (rule_actions r) in
  (declared_outcome (drop_intent (soft_drop t) pre) (retry_intent false pre) hard,
   foldl apply_action t pre).
Proof. apply execute_actions_builtin. Qed.

Lemma builtin_rule_outcome_witness :
  Forall builtin [ActDrop; ActClearDrop; ActRetryNow; ActDropNow]
  /\ (execute_ordered (fun _ _ => 0) (fun _ _ _ => ([], true)) []
       {| rule_name := "r"; rule_hook := HookResponse; rule_selectors := [];
          rule_actions := [ActDrop; ActClearDrop; ActRetryNow; ActDropNow] |}
       (Transaction_new 1 (SockV4 0 53) Udp (Build_Clock 0 0))).1 = OutcomeRetry.
Proof.
  assert (H : Forall builtin [ActDrop; ActClearDrop; ActRetryNow; ActDropNow])
    by (repeat constructor).
  split; [exact H|].
  exact (f_equal fst (builtin_rule_outcome (fun _ _ => 0) (fun _ _ _ => ([], true)) []
    {| rule_name := "r"; rule_hook := HookResponse; rule_selectors := [];
       rule_actions := [ActDrop; ActClearDrop; ActRetryNow; ActDropNow] |}
    (Transaction_new 1 (SockV4 0 53) Udp (Build_Clock 0 0)) H)).
Defined.

(** Rule evaluation is first match: the first rule of the hook whose
    selectors all match runs, alone, and names the result; the transaction is
    untouched when none matches. *)
Theorem eval_first_match siphash run_ast scripts lookup_ip rules hook t :
  eval siphash run_ast scripts lookup_ip rules hook t =
  match List.find (fun r => bool_decide (rule_hook r = hook)
                            && rule_matches siphash lookup_ip r t) rules with
  | Some r =>
      let '(o, t') := execute_ordered siphash run_ast scripts r t in
      ({| outcome := o; matched_rule_name := Some (rule_name r) |}, t')
  | None => ({| outcome := OutcomeContinue; matched_rule_name := None |}, t)
  end.
Proof.
  induction rules as [|r rules IH]; [done|]. simpl.
  destruct (decide (rule_hook r = hook)) as [->|Hne].
  - rewrite bool_decide_true by done. simpl. by destruct (rule_matches _ _ r t).
  - by rewrite bool_decide_false.
Qed.

(** An outcome other than drop leaves no drop intent. *)
Definition no_intent (r : RuleOutcome * Transaction) : Prop :=
  r.1 = OutcomeDrop \/ soft_drop r.2 = false.

Lemma final_no_intent t retry : no_intent (final_outcome t retry, t).
Proof. unfold no_intent, final_outcome. simpl. destruct (soft_drop t), retry; auto. Qed.

Lemma retry_no_intent t : no_intent (retry_outcome t, t).
Proof. unfold no_intent, retry_outcome. simpl. destruct (soft_drop t); auto. Qed.

#[export] Hint Resolve final_no_intent retry_no_intent : conduit.

Lemma execute_actions_no_intent siphash run_ast scripts h acts t retry :
  no_intent (execute_actions siphash run_ast scripts h acts t retry).
Proof.
  revert t retry. induction acts as [|a acts IH]; intros t retry; simpl; auto with conduit.
  destruct a; simpl; auto with conduit; try by left.
  destruct (run_scripts _ _ _ _ _ _) as [[[] stats] t']; auto with conduit;
    repeat case_decide; auto with conduit; try by left.
Qed.

Lemma eval_no_intent siphash run_ast scripts lookup_ip rules hook t :
  soft_drop t = false ->
  let '(r, t') := eval siphash run_ast scripts lookup_ip rules hook t in
  outcome r = OutcomeDrop \/ soft_drop t' = false.
Proof.
  intros H. induction rules as [|r rules IH]; simpl; [by right|].
  case_decide; [|done]. destruct (rule_matches siphash lookup_ip r t); [|done].
  pose proof (execute_actions_no_intent siphash run_ast scripts (rule_hook r) (rule_actions r) t false)
    as Hn. unfold execute_ordered. by destruct (execute_actions _ _ _ _ _ _ _).
Qed.

(** The rule stages keep to the phase graph and resolve drops: the request
    hook goes on to Lookup, the response hook to Lookup (a retry) or Send, or
    the query is dropped; a query that goes on carries no drop intent, so a
    later hook never drops it for an intent of this one. *)
Theorem rule_stages_resolve_drop siphash run_ast scripts lookup_ip rules t :
  soft_drop t = false ->
  (let '(o, t') := request_rules_stage siphash run_ast scripts lookup_ip rules t in
   o = DropQuery \/ o = Continue Lookup /\ soft_drop t' = false)
  /\ (let '(o, t') := response_rules_stage siphash run_ast scripts lookup_ip rules t in
      o = DropQuery \/ (o = Continue Lookup \/ o = Continue Send) /\ soft_drop t' = false).
Proof.
  intros H. unfold request_rules_stage, response_rules_stage. split.
  - pose proof (eval_no_intent siphash run_ast scripts lookup_ip rules HookRequest t H) as Hn.
    destruct (eval _ _ _ _ _ HookRequest _) as [r t']. destruct (outcome r); naive_solver.
  - pose proof (eval_no_intent siphash run_ast scripts lookup_ip rules HookResponse t H) as Hn.
    destruct (eval _ _ _ _ _ HookResponse _) as [r t']. destruct (outcome r); naive_solver.
Qed.

Lemma rule_stages_resolve_drop_witness :
  soft_drop (Transaction_new 1 (SockV4 0 53) Udp (Build_Clock 0 0)) = false
  /\ let '(o, t') := request_rules_stage (fun _ _ => 0) (fun _ _ _ => ([], true)) []
       (fun _ _ => None)
       [{| rule_name := "r"; rule_hook := HookRequest; rule_selectors := [];
           rule_actions := [ActDrop; ActClearDrop; ActRetry] |}]
       (Transaction_new 1 (SockV4 0 53) Udp (Build_Clock 0 0)) in
     o = DropQuery \/ o = Continue Lookup /\ soft_drop t' = false.
Proof.
  split; [reflexivity|].
  apply (proj1 (rule_stages_resolve_drop (fun _ _ => 0) (fun _ _ _ => ([], true)) []
    (fun _ _ => None)
    [{| rule_name := "r"; rule_hook := HookRequest; rule_selectors := [];
        rule_actions := [ActDrop; ActClearDrop; ActRetry] |}]
    (Transaction_new 1 (SockV4 0 53) Udp (Build_Clock 0 0)) eq_refl)).
Defined.
