(* ===== verification/Health.v ===== *)
(** * Health: per-backend liveness

    src/crates/conduit-core/src/health/state.rs and control.rs, with the compiled
    configuration types of conduit-config/src/health.rs: the observed/applied
    state machine, the registry and its reconciliation across reloads, and the
    operator controls with their scopes. The atomics are single fields: probe
    updates come from one writer, and the theorems are about sequences of
    whole operations. *)

From stdpp Require Import strings gmap.
From Stdlib Require Import String.
From S2P Require Import Prelude Text Floats.

Inductive Health := Unknown | Up | Down.

#[global] Instance Health_eq_dec : EqDecision Health.
Proof. solve_decision. Defined.

Record BackendKey := { bk_pool : string; bk_address : SocketAddr }.

#[global] Instance BackendKey_eq_dec : EqDecision BackendKey.
Proof. solve_decision. Defined.

#[global] Instance BackendKey_countable : Countable BackendKey.
Proof.
  apply (inj_countable' (fun k => (bk_pool k, bk_address k))
           (fun p => {| bk_pool := p.1; bk_address := p.2 |})). by intros [].
Defined.

Inductive InitialHealthState := Optimistic | Require1Good | RequireFullRise.

Record CompiledBackendHealth := {
  cb_address : SocketAddr;
  cb_name : option string;
  cb_label : string;
  cb_probe_qname : string;
  cb_probe_qtype : Z;
  cb_probe_source : option IpAddr;
}.

Record CompiledPoolHealth := {
  cp_interval_ms : Z;
  cp_timeout_ms : Z;
  cp_rise : Z;
  cp_fall : Z;
  cp_acceptable_rcodes : option (list Z);
  cp_initial_state : InitialHealthState;
  cp_latency_weighting : bool;
  cp_latency_ewma_alpha : f64;
  cp_latency_floor : f64;
  cp_min_eligible : Z;
  cp_passive_fast_trip : bool;
  cp_passive_fall : Z;
  cp_backends : list CompiledBackendHealth;
}.

(** [CompiledHealth]: the pools with probing enabled. *)
Definition CompiledHealth : Type := gmap string CompiledPoolHealth.

(** ** The state machine of one backend *)

Record BackendHealthState := MkHealth {
  observed : Health;
  applied : Health;
  frozen : bool;
  last_transition_unix_ms : Z;
  consecutive_successes : Z;
  consecutive_failures : Z;
  passive_consecutive_failures : Z;
  latency_ewma_ms : option f64;
  weight_factor : f64;
  transitions_total : Z;
}.

Ltac health_setter :=
  setter MkHealth (observed, applied, frozen, last_transition_unix_ms, consecutive_successes,
    consecutive_failures, passive_consecutive_failures, latency_ewma_ms, weight_factor,
    transitions_total).

#[export] Instance set_observed : Setter observed := ltac:(health_setter).
#[export] Instance set_applied_field : Setter applied := ltac:(health_setter).
#[export] Instance set_frozen : Setter frozen := ltac:(health_setter).
#[export] Instance set_last_transition : Setter last_transition_unix_ms := ltac:(health_setter).
#[export] Instance set_successes : Setter consecutive_successes := ltac:(health_setter).
#[export] Instance set_failures : Setter consecutive_failures := ltac:(health_setter).
#[export] Instance set_passive : Setter passive_consecutive_failures := ltac:(health_setter).
#[export] Instance set_ewma : Setter latency_ewma_ms := ltac:(health_setter).
#[export] Instance set_weight_factor : Setter weight_factor := ltac:(health_setter).
#[export] Instance set_transitions : Setter transitions_total := ltac:(health_setter).

Definition from_initial_policy (initial : InitialHealthState) : BackendHealthState := {|
  observed := Unknown;
  applied := match initial with Optimistic => Up | Require1Good | RequireFullRise => Down end;
  frozen := false;
  last_transition_unix_ms := 0;
  consecutive_successes := 0;
  consecutive_failures := 0;
  passive_consecutive_failures := 0;
  latency_ewma_ms := None;
  weight_factor := f64_of_Z 1;
  transitions_total := 0;
|}.

(** [now_ms]: Unix milliseconds. *)
Definition note_transition (now_ms : Z) (s : BackendHealthState) : BackendHealthState :=
  s <| last_transition_unix_ms := wrap 64 now_ms |>
    <| transitions_total := wrap 64 (transitions_total s + 1) |>.

Definition damp_weight_factor (s : BackendHealthState) (target damping : f64) : BackendHealthState :=
  let current := weight_factor s in
  s <| weight_factor := f64_add current (f64_mul damping (f64_sub target current)) |>.

Definition set_applied (now_ms : Z) (value : Health) (s : BackendHealthState) : BackendHealthState :=
  let s' := s <| applied := value |> in
  if decide (applied s = value) then s' else note_transition now_ms s'.

Definition update_ewma (s : BackendHealthState) (rtt_ms alpha : f64) : BackendHealthState :=
  let next := match latency_ewma_ms s with
    | None => rtt_ms
    | Some prev => f64_add (f64_mul alpha rtt_ms) (f64_mul (f64_sub (f64_of_Z 1) alpha) prev)
    end in
  s <| latency_ewma_ms := Some next |>.

(** The common tail of the three recorders: [observed := h], and [applied]
    follows when not frozen. *)
Definition observe (now_ms : Z) (h : Health) (s : BackendHealthState) : BackendHealthState :=
  let prev := observed s in
  let s := s <| observed := h |> in
  let s := if decide (prev = h) then s else note_transition now_ms s in
  if frozen s then s else set_applied now_ms h s.

Definition record_success (now_ms rise : Z) (alpha rtt_ms : f64) (s : BackendHealthState)
    : BackendHealthState :=
  let s := update_ewma s rtt_ms alpha in
  let s := s <| consecutive_failures := 0 |> in
  let successes := sat_add 32 (consecutive_successes s) 1 in
  let s := s <| consecutive_successes := successes |> in
  if Z.max rise 1 <=? successes then observe now_ms Up s else s.

Definition record_failure (now_ms fall : Z) (s : BackendHealthState) : BackendHealthState :=
  let s := s <| consecutive_successes := 0 |> in
  let failures := sat_add 32 (consecutive_failures s) 1 in
  let s := s <| consecutive_failures := failures |> in
  if Z.max fall 1 <=? failures then observe now_ms Down s else s.

Record PassiveFailureResult := {
  pf_applied : Health;
  pf_consecutive_failures : Z;
  pf_passive_fall : Z;
  pf_transitioned : bool;
  pf_already_down : bool;
}.

Definition record_passive_failure (now_ms passive_fall : Z) (s : BackendHealthState)
    : PassiveFailureResult * BackendHealthState :=
  let was_already_down := bool_decide (observed s = Down) in
  let failures := sat_add 32 (passive_consecutive_failures s) 1 in
  let s := s <| passive_consecutive_failures := failures |> in
  let trip := Z.max passive_fall 1 <=? failures in
  let transitioned := trip && negb (bool_decide (observed s = Down)) in
  let s := if trip then observe now_ms Down s else s in
  ({| pf_applied := applied s; pf_consecutive_failures := failures;
      pf_passive_fall := passive_fall; pf_transitioned := transitioned;
      pf_already_down := was_already_down |}, s).

Definition record_passive_success (s : BackendHealthState) : BackendHealthState :=
  s <| passive_consecutive_failures := 0 |>.

Definition freeze (s : BackendHealthState) : BackendHealthState := s <| frozen := true |>.

Definition unfreeze (now_ms : Z) (s : BackendHealthState) : BackendHealthState :=
  let s := s <| frozen := false |> in set_applied now_ms (observed s) s.

Definition set_up (now_ms : Z) (s : BackendHealthState) : BackendHealthState :=
  freeze (set_applied now_ms Up s).

Definition set_down (now_ms : Z) (s : BackendHealthState) : BackendHealthState :=
  freeze (set_applied now_ms Down s).

(** ** The registry *)

Definition HealthTable : Type := gmap BackendKey BackendHealthState.

Inductive ScopeMode := Inherit | Frozen | Automatic.
Inductive EffectiveScope := ScopeFrozen | ScopeAutomatic.

#[global] Instance EffectiveScope_eq_dec : EqDecision EffectiveScope.
Proof. solve_decision. Defined.

Inductive HealthControlScope :=
  | ScopeGlobal
  | ScopePool (pool : string)
  | ScopeBackend (pool : string) (address : SocketAddr).

Inductive HealthControlAction := Freeze | SetUp | SetDown | ResumeAutomatic.

(** The stored levels: [u8] encodings, [SCOPE_AUTOMATIC] = 0, [SCOPE_FROZEN] = 1. *)
Record HealthControlScopes := MkScopes {
  sc_global : Z;
  sc_pools : gmap string Z;
  sc_backends : gmap BackendKey Z;
}.

Record HealthRegistry := MkRegistry { table : HealthTable; scopes : HealthControlScopes }.

Definition scopes_default : HealthControlScopes :=
  {| sc_global := 0; sc_pools := ∅; sc_backends := ∅ |}.

Definition pool_entries (pool : string) (p : CompiledPoolHealth) : list (BackendKey * CompiledBackendHealth) :=
  (fun b => ({| bk_pool := pool; bk_address := cb_address b |}, b)) <$> cp_backends p.

(** [for (pool_name, pool) in &health.pools { for backend in &pool.backends .. }]. *)
Definition all_entries (h : CompiledHealth)
    : list (BackendKey * CompiledBackendHealth * CompiledPoolHealth) :=
  map_to_list h ≫= fun '(n, p) => (fun e => (e, p)) <$> pool_entries n p.

Definition from_compiled (h : CompiledHealth) : HealthRegistry := {|
  table := foldl (fun t '(k, _, p) => <[k := from_initial_policy (cp_initial_state p)]> t)
             ∅ (all_entries h);
  scopes := scopes_default;
|}.

Definition probe_semantics_eq (a b : CompiledBackendHealth) : bool :=
  String.eqb (cb_probe_qname a) (cb_probe_qname b)
  && (cb_probe_qtype a =? cb_probe_qtype b)
  && bool_decide (cb_probe_source a = cb_probe_source b).

Definition preserved (prev : CompiledHealth) (old : HealthTable) (k : BackendKey)
    (b : CompiledBackendHealth) : option BackendHealthState :=
  let! s := old !! k in
  let! pp := prev !! bk_pool k in
  let! pb := List.find (fun x => bool_decide (cb_address x = cb_address b)) (cp_backends pp) in
  if probe_semantics_eq pb b then Some s else None.

Definition reconcile (prev new : CompiledHealth) (r : HealthRegistry) : HealthRegistry := {|
  table := foldl (fun t '(k, b, p) =>
      <[k := match preserved prev (table r) k b with
             | Some s => s
             | None => from_initial_policy (cp_initial_state p)
             end]> t) ∅ (all_entries new);
  scopes := scopes r;
|}.

Definition record_passive_forward_outcome (now_ms : Z) (h : CompiledHealth) (pool : string)
    (backend : SocketAddr) (is_failure : bool) (r : HealthRegistry)
    : option PassiveFailureResult * HealthRegistry :=
  let k := {| bk_pool := pool; bk_address := backend |} in
  match h !! pool with
  | None => (None, r)
  | Some p =>
      if cp_passive_fast_trip p then
        match table r !! k with
        | None => (None, r)
        | Some s =>
            if is_failure then
              let '(res, s) := record_passive_failure now_ms (cp_passive_fall p) s in
              (Some res, {| table := <[k := s]> (table r); scopes := scopes r |})
            else (None, {| table := <[k := record_passive_success s]> (table r); scopes := scopes r |})
        end
      else (None, r)
  end.

(** ** Operator controls *)

Definition scope_to_u8 (m : ScopeMode) : Z := match m with Automatic | Inherit => 0 | Frozen => 1 end.
Definition u8_to_scope (v : Z) : ScopeMode := if v =? 1 then Frozen else Automatic.
Definition to_effective (m : ScopeMode) : EffectiveScope :=
  match m with Frozen => ScopeFrozen | Inherit | Automatic => ScopeAutomatic end.

Definition set_level (sc : HealthControlScopes) (scope : HealthControlScope) (mode : ScopeMode)
    : HealthControlScopes :=
  match scope with
  | ScopeGlobal =>
      {| sc_global := scope_to_u8 mode; sc_pools := sc_pools sc; sc_backends := sc_backends sc |}
  | ScopePool pool =>
      {| sc_global := sc_global sc;
         sc_pools := match mode with
                     | Inherit => delete pool (sc_pools sc)
                     | other => <[pool := scope_to_u8 other]> (sc_pools sc)
                     end;
         sc_backends := sc_backends sc |}
  | ScopeBackend pool address =>
      let key := {| bk_pool := pool; bk_address := address |} in
      {| sc_global := sc_global sc; sc_pools := sc_pools sc;
         sc_backends := match mode with
                        | Inherit => delete key (sc_backends sc)
                        | other => <[key := scope_to_u8 other]> (sc_backends sc)
                        end |}
  end.

Definition resolve (sc : HealthControlScopes) (pool : string) (key : BackendKey) : EffectiveScope :=
  match sc_backends sc !! key with
  | Some m => to_effective (u8_to_scope m)
  | None =>
      match sc_pools sc !! pool with
      | Some m => to_effective (u8_to_scope m)
      | None => to_effective (u8_to_scope (sc_global sc))
      end
  end.

Definition resolve_scope (r : HealthRegistry) (pool : string) (address : SocketAddr)
    : EffectiveScope :=
  resolve (scopes r) pool {| bk_pool := pool; bk_address := address |}.

Definition is_effectively_frozen (r : HealthRegistry) (pool : string) (address : SocketAddr) : bool :=
  bool_decide (resolve_scope r pool address = ScopeFrozen).

(** [sync_one]: the frozen flag follows the resolved scope. *)
Definition sync_one (r : HealthRegistry) (pool : string) (address : SocketAddr)
    (s : BackendHealthState) : BackendHealthState :=
  s <| frozen := is_effectively_frozen r pool address |>.

Definition sync_frozen_flags (h : CompiledHealth) (r : HealthRegistry) : HealthRegistry := {|
  table := foldl (fun t '(k, _, _) =>
      match t !! k with
      | Some s => <[k := sync_one r (bk_pool k) (bk_address k) s]> t
      | None => t
      end) (table r) (all_entries h);
  scopes := scopes r;
|}.

Inductive ControlError :=
  | UnknownPool (pool : string)
  | NotInPool (address : SocketAddr) (pool : string)
  | NoBackendsInScope.

Definition validate_scope (h : CompiledHealth) (scope : HealthControlScope)
    : result unit ControlError :=
  match scope with
  | ScopeGlobal => Ok tt
  | ScopePool pool => if is_someb (h !! pool) then Ok tt else Err (UnknownPool pool)
  | ScopeBackend pool address =>
      match h !! pool with
      | None => Err (UnknownPool pool)
      | Some p => if existsb (fun b => bool_decide (cb_address b = address)) (cp_backends p)
                  then Ok tt else Err (NotInPool address pool)
      end
  end.

Definition backends_in_scope (h : CompiledHealth) (scope : HealthControlScope)
    : list (string * SocketAddr) :=
  match scope with
  | ScopeGlobal => (fun '(k, _, _) => (bk_pool k, bk_address k)) <$> all_entries h
  | ScopePool pool =>
      match h !! pool with
      | Some p => (fun b => (pool, cb_address b)) <$> cp_backends p
      | None => []
      end
  | ScopeBackend pool address => [(pool, address)]
  end.

Definition scope_for_backend (request : HealthControlScope) (pool : string) (address : SocketAddr)
    : HealthControlScope :=
  match request with
  | ScopeGlobal | ScopePool _ => ScopeBackend pool address
  | ScopeBackend _ _ => request
  end.

Record HealthControlOutcome := {
  co_scope : HealthControlScope;
  co_scope_state : EffectiveScope;
  co_pool : string;
  co_backend : SocketAddr;
  co_applied : Health;
}.

Definition action_mode (a : HealthControlAction) : ScopeMode :=
  match a with Freeze => Frozen | ResumeAutomatic => Automatic | SetUp | SetDown => Frozen end.

(** One backend of the loop of [set_health_control]. *)
Definition control_one (now_ms : Z) (r : HealthRegistry) (a : HealthControlAction)
    (pool : string) (address : SocketAddr) (s : BackendHealthState) : BackendHealthState :=
  let s := match a with
    | Freeze => s
    | SetUp => set_applied now_ms Up s
    | SetDown => set_applied now_ms Down s
    | ResumeAutomatic =>
        if decide (resolve_scope r pool address = ScopeAutomatic)
        then set_applied now_ms (observed s) s else s
    end in
  sync_one r pool address s.

Fixpoint control_loop (now_ms : Z) (scope : HealthControlScope) (a : HealthControlAction)
    (affected : list (string * SocketAddr)) (r : HealthRegistry)
    : list HealthControlOutcome * HealthRegistry :=
  match affected with
  | [] => ([], r)
  | (pool, address) :: rest =>
      let key := {| bk_pool := pool; bk_address := address |} in
      match table r !! key with
      | None => control_loop now_ms scope a rest r
      | Some s =>
          let s := control_one now_ms r a pool address s in
          let r := {| table := <[key := s]> (table r); scopes := scopes r |} in
          let o := {| co_scope := scope_for_backend scope pool address;
                      co_scope_state := resolve_scope r pool address;
                      co_pool := pool; co_backend := address; co_applied := applied s |} in
          let '(os, r) := control_loop now_ms scope a rest r in (o :: os, r)
      end
  end.

Definition set_health_control (now_ms : Z) (h : CompiledHealth) (scope : HealthControlScope)
    (a : HealthControlAction) (r : HealthRegistry)
    : result (list HealthControlOutcome) ControlError * HealthRegistry :=
  match validate_scope h scope with
  | Err e => (Err e, r)
  | Ok _ =>
      match backends_in_scope h scope with
      | [] => (Err NoBackendsInScope, r)
      | affected =>
          let r := {| table := table r; scopes := set_level (scopes r) scope (action_mode a) |} in
          let '(os, r) := control_loop now_ms scope a affected r in (Ok os, r)
      end
  end.

Record BackendHealthView := {
  hv_pool : string;
  hv_backend : SocketAddr;
  hv_observed : Health;
  hv_applied : Health;
  hv_scope_state : EffectiveScope;
  hv_eligible : bool;
  hv_latency_ewma_ms : option f64;
  hv_last_transition_unix_ms : option Z;
}.

Record BackendHealthFilter := { hf_pool : option string; hf_backend : option SocketAddr }.

Definition health_view (r : HealthRegistry) (k : BackendKey) (s : BackendHealthState)
    : BackendHealthView := {|
  hv_pool := bk_pool k;
  hv_backend := bk_address k;
  hv_observed := observed s;
  hv_applied := applied s;
  hv_scope_state := resolve_scope r (bk_pool k) (bk_address k);
  hv_eligible := bool_decide (applied s = Up);
  hv_latency_ewma_ms := latency_ewma_ms s;
  hv_last_transition_unix_ms :=
    if last_transition_unix_ms s =? 0 then None else Some (last_transition_unix_ms s);
|}.

Definition wanted {A} `{EqDecision A} (filter : option A) (a : A) : bool :=
  match filter with Some x => bool_decide (x = a) | None => true end.

Definition backend_health_views (h : CompiledHealth) (f : BackendHealthFilter) (r : HealthRegistry)
    : list BackendHealthView * HealthRegistry :=
  let r := sync_frozen_flags h r in
  (omap (fun '(k, _, _) =>
     if wanted (hf_pool f) (bk_pool k) && wanted (hf_backend f) (bk_address k)
     then health_view r k <$> table r !! k else None) (all_entries h), r).

(** ** Sequences of operations on one backend *)

(** A probe result: the time it is recorded, and the round trip of a success. *)
Definition Probe : Type := Z * option f64.
Definition good (x : Probe) : bool := is_someb x.2.

Definition probe_step (rise fall : Z) (alpha : f64) (s : BackendHealthState) (x : Probe)
    : BackendHealthState :=
  match x.2 with
  | Some rtt => record_success x.1 rise alpha rtt s
  | None => record_failure x.1 fall s
  end.

Definition run_probes (rise fall : Z) (alpha : f64) (s : BackendHealthState) (l : list Probe)
    : BackendHealthState := foldl (probe_step rise fall alpha) s l.

(** The last [n] results are there and all [b]. *)
Definition last_all (b : bool) (n : Z) (l : list Probe) : Prop :=
  n <= zlen l /\ Forall (fun x => good x = b) (drop (length l - Z.to_nat n) l).

(** The length of the longest suffix of results [b]. *)
Definition trailing (b : bool) (l : list Probe) : Z :=
  foldl (fun n x => if eqb (good x) b then n + 1 else 0) 0 l.

Inductive HealthOp :=
  | OpProbe (x : Probe)
  | OpPassiveFailure (now_ms : Z)
  | OpPassiveSuccess
  | OpFreeze
  | OpUnfreeze (now_ms : Z)
  | OpSetUp (now_ms : Z)
  | OpSetDown (now_ms : Z).

Definition health_step (rise fall passive_fall : Z) (alpha : f64) (s : BackendHealthState)
    (o : HealthOp) : BackendHealthState :=
  match o with
  | OpProbe x => probe_step rise fall alpha s x
  | OpPassiveFailure now => (record_passive_failure now passive_fall s).2
  | OpPassiveSuccess => record_passive_success s
  | OpFreeze => freeze s
  | OpUnfreeze now => unfreeze now s
  | OpSetUp now => set_up now s
  | OpSetDown now => set_down now s
  end.

(** An observation, not an operator command. *)
Definition is_observation (o : HealthOp) : bool :=
  match o with OpProbe _ | OpPassiveFailure _ | OpPassiveSuccess => true | _ => false end.

Definition tracks (s : BackendHealthState) : Prop :=
  frozen s = false -> observed s <> Unknown -> applied s = observed s.

(** ** Lemmas *)

Lemma set_applied_fields now v s :
  applied (set_applied now v s) = v /\ observed (set_applied now v s) = observed s
  /\ frozen (set_applied now v s) = frozen s
  /\ consecutive_successes (set_applied now v s) = consecutive_successes s
  /\ consecutive_failures (set_applied now v s) = consecutive_failures s.
Proof. unfold set_applied. by case_decide. Qed.

Lemma observe_fields now h s :
  observed (observe now h s) = h /\ frozen (observe now h s) = frozen s
  /\ applied (observe now h s) = (if frozen s then applied s else h)
  /\ consecutive_successes (observe now h s) = consecutive_successes s
  /\ consecutive_failures (observe now h s) = consecutive_failures s.
Proof.
  unfold observe. case_decide; simpl; destruct (frozen s) eqn:E; simpl;
    rewrite ?E; try done; unfold set_applied; case_decide; simpl; by rewrite ?E.
Qed.

Lemma tracks_observe now h s : tracks (observe now h s).
Proof.
  destruct (observe_fields now h s) as (Ho & Hf & Ha & _). unfold tracks.
  rewrite Ho, Hf, Ha. by intros ->.
Qed.

Lemma tracks_step rise fall pf alpha s o : tracks s -> tracks (health_step rise fall pf alpha s o).
Proof.
  intros H. destruct o as [[now [rtt|]]| | | | | |]; simpl.
  - unfold probe_step, record_success. simpl. case_match; [apply tracks_observe|exact H].
  - unfold probe_step, record_failure. simpl. case_match; [apply tracks_observe|exact H].
  - unfold record_passive_failure. simpl. case_match; [apply tracks_observe|exact H].
  - exact H.
  - intros [=].
  - intros _ _. unfold unfreeze, set_applied. by case_decide.
  - intros [=].
  - intros [=].
Qed.

Lemma trailing_snoc b l x :
  trailing b (l ++ [x]) = if eqb (good x) b then trailing b l + 1 else 0.
Proof. unfold trailing. by rewrite foldl_app. Qed.

Lemma trailing_bounds b l : 0 <= trailing b l <= zlen l.
Proof.
  induction l as [|x l IH] using rev_ind; [done|].
  rewrite trailing_snoc, zlen_app. change (zlen [x]) with 1. case_match; lia.
Qed.

Lemma last_all_trailing b n l : 0 <= n -> last_all b n l <-> n <= trailing b l.
Proof.
  revert n. induction l as [|x l IH] using rev_ind; intros n Hn.
  - unfold last_all, trailing, zlen. simpl. split; [lia|]. intros H. split; [lia|].
    constructor.
  - rewrite trailing_snoc. destruct (decide (n = 0)) as [->|Hne].
    + split; [intros _; pose proof (trailing_bounds b l); case_match; lia|].
      intros _. split; [apply zlen_nonneg|]. by rewrite Nat.sub_0_r, drop_all.
    + assert (Hiff : last_all b n (l ++ [x]) <-> last_all b (n - 1) l /\ good x = b).
      { unfold last_all. rewrite zlen_app, length_app. simpl.
        change (zlen [x]) with 1. split.
        - intros [Hle Hf]. unfold zlen in *.
          rewrite drop_app_le in Hf by lia. apply Forall_app in Hf as [Hf Hx].
          inversion Hx; subst. split; [|done]. split; [lia|].
          by replace (length l - Z.to_nat (n - 1))%nat with (length l + 1 - Z.to_nat n)%nat by lia.
        - intros [[Hle Hf] Hx]. unfold zlen in *. split; [lia|].
          rewrite drop_app_le by lia. apply Forall_app. split; [|by constructor].
          by replace (length l + 1 - Z.to_nat n)%nat with (length l - Z.to_nat (n - 1))%nat by lia. }
      rewrite Hiff, IH by lia. destruct (good x), b; simpl; lia.
Qed.

Lemma run_probes_snoc rise fall alpha s l x :
  run_probes rise fall alpha s (l ++ [x]) = probe_step rise fall alpha (run_probes rise fall alpha s l) x.
Proof. unfold run_probes. by rewrite foldl_app. Qed.

Definition sat32 (n : Z) : Z := Z.min n u32_max.

Lemma sat32_succ n : 0 <= n -> sat_add 32 (sat32 n) 1 = sat32 (n + 1).
Proof. unfold sat_add, sat32, u32_max. lia. Qed.

(** One probe, field by field. *)
Lemma probe_step_fields rise fall alpha s x :
  let s' := probe_step rise fall alpha s x in
  let n := sat_add 32 (consecutive_successes s) 1 in
  let m := sat_add 32 (consecutive_failures s) 1 in
  consecutive_successes s' = (if good x then n else 0)
  /\ consecutive_failures s' = (if good x then 0 else m)
  /\ frozen s' = frozen s
  /\ observed s' = (if good x then if Z.max rise 1 <=? n then Up else observed s
                    else if Z.max fall 1 <=? m then Down else observed s).
Proof.
  destruct x as [now [rtt|]]; unfold probe_step, record_success, record_failure; simpl.
  - case_match; [|done]. by destruct (observe_fields now Up ((update_ewma s rtt alpha)
      <| consecutive_failures := 0 |>
      <| consecutive_successes := sat_add 32 (consecutive_successes s) 1 |>))
      as (-> & -> & _ & -> & ->).
  - case_match; [|done]. by destruct (observe_fields now Down (s <| consecutive_successes := 0 |>
      <| consecutive_failures := sat_add 32 (consecutive_failures s) 1 |>))
      as (-> & -> & _ & -> & ->).
Qed.

(** The counters are the lengths of the current runs, saturated. *)
Lemma run_probes_counters rise fall alpha init l :
  let s := run_probes rise fall alpha (from_initial_policy init) l in
  consecutive_successes s = sat32 (trailing true l)
  /\ consecutive_failures s = sat32 (trailing false l)
  /\ frozen s = false /\ tracks s.
Proof.
  induction l as [|x l IH] using rev_ind; [split_and!; [done..|]; by intros _ []|].
  simpl in *. destruct IH as (Hs & Hf & Hz & Ht).
  pose proof (trailing_bounds true l). pose proof (trailing_bounds false l).
  rewrite run_probes_snoc, !trailing_snoc.
  destruct (probe_step_fields rise fall alpha (run_probes rise fall alpha (from_initial_policy init) l) x)
    as (-> & -> & -> & _).
  rewrite Hs, Hf, !sat32_succ by lia.
  split_and!; [by destruct (good x)..|done|apply (tracks_step rise fall 1 alpha _ (OpProbe x) Ht)].
Qed.

(** [observed] after one more probe, by the runs that end there. *)
Lemma run_probes_observed rise fall alpha init l x :
  1 <= rise <= u32_max -> 1 <= fall <= u32_max ->
  observed (run_probes rise fall alpha (from_initial_policy init) (l ++ [x])) =
  if decide (rise <= trailing true (l ++ [x])) then Up
  else if decide (fall <= trailing false (l ++ [x])) then Down
  else observed (run_probes rise fall alpha (from_initial_policy init) l).
Proof.
  intros Hr Hf. destruct (run_probes_counters rise fall alpha init l) as (Hs & Hl & _).
  pose proof (trailing_bounds true l). pose proof (trailing_bounds false l).
  rewrite run_probes_snoc.
  destruct (probe_step_fields rise fall alpha (run_probes rise fall alpha (from_initial_policy init) l) x)
    as (_ & _ & _ & ->).
  rewrite Hs, Hl, !sat32_succ, !trailing_snoc by lia. unfold sat32, u32_max in *.
  destruct (good x); simpl; repeat case_decide; try lia; case_match; try done; lia.
Qed.

Lemma frozen_observation rise fall pf alpha s o :
  frozen s = true -> is_observation o = true ->
  let s' := health_step rise fall pf alpha s o in applied s' = applied s /\ frozen s' = true.
Proof.
  intros Hz Ho. destruct o as [[now [rtt|]]|now| | | | |]; try discriminate; simpl.
  - unfold probe_step, record_success. simpl. case_match; [|done].
    edestruct (observe_fields now Up) as (_ & -> & -> & _). simpl. by rewrite Hz.
  - unfold probe_step, record_failure. simpl. case_match; [|done].
    edestruct (observe_fields now Down) as (_ & -> & -> & _). simpl. by rewrite Hz.
  - unfold record_passive_failure. simpl. case_match; [|done].
    edestruct (observe_fields now Down) as (_ & -> & -> & _). simpl. by rewrite Hz.
  - done.
Qed.

Lemma frozen_observations rise fall pf alpha s ops :
  frozen s = true -> Forall (fun o => is_observation o = true) ops ->
  let s' := foldl (health_step rise fall pf alpha) s ops in applied s' = applied s /\ frozen s' = true.
Proof.
  intros Hz Hops. revert s Hz. induction Hops as [|o ops Ho Hops IH]; intros s Hz; [done|]. simpl.
  destruct (frozen_observation rise fall pf alpha s o Hz Ho) as [Ha Hz'].
  destruct (IH _ Hz') as [-> ->]. done.
Qed.

Lemma tracks_ops rise fall pf alpha s ops :
  tracks s -> tracks (foldl (health_step rise fall pf alpha) s ops).
Proof. revert s. induction ops; intros s Hs; simpl; auto using tracks_step. Qed.

Lemma control_loop_scopes now scope a affected r :
  scopes (control_loop now scope a affected r).2 = scopes r.
Proof.
  revert r. induction affected as [|[pool address] rest IH]; intros r; simpl; [done|].
  case_match; [|apply IH]. specialize (IH (MkRegistry (<[{| bk_pool := pool; bk_address := address |} :=
    control_one now r a pool address b]> (table r)) (scopes r))).
  by destruct (control_loop _ _ _ _ _).
Qed.

(** A property of one backend's state that every visit of the loop keeps. *)
Lemma control_loop_keeps now scope a affected r k s (P : BackendHealthState -> Prop) :
  table r !! k = Some s -> P s ->
  (forall r' s', scopes r' = scopes r -> P s' -> P (control_one now r' a (bk_pool k) (bk_address k) s')) ->
  exists s', table (control_loop now scope a affected r).2 !! k = Some s' /\ P s'.
Proof.
  revert r s. induction affected as [|[pool address] rest IH]; intros r s Hk Hs HP; simpl; [eauto|].
  set (key := {| bk_pool := pool; bk_address := address |}).
  destruct (table r !! key) as [x|] eqn:Ex; [|eauto].
  set (r1 := MkRegistry (<[key := control_one now r a pool address x]> (table r)) (scopes r)).
  assert (H : exists s', table (control_loop now scope a rest r1).2 !! k = Some s' /\ P s').
  { destruct (decide (k = key)) as [->|Hne].
    - rewrite Hk in Ex. injection Ex as <-.
      eapply (IH r1 (control_one now r a pool address s));
        [apply lookup_insert_eq|by apply (HP r)|exact HP].
    - eapply (IH r1 s); [etrans; [by apply lookup_insert_ne|exact Hk]|done|exact HP]. }
  revert H. unfold r1. by destruct (control_loop now scope a rest _).
Qed.

(** The addresses of a pool are distinct, as validation requires. *)
Definition health_wf (h : CompiledHealth) : Prop :=
  forall n p, h !! n = Some p -> NoDup (cb_address <$> cp_backends p).

Lemma entries_of_list (ps : list (string * CompiledPoolHealth)) :
  NoDup (fst <$> ps) -> (forall n p, (n, p) ∈ ps -> NoDup (cb_address <$> cp_backends p)) ->
  NoDup ((fun e => e.1.1) <$>
           (ps ≫= fun '(n, p) => (fun e => (e, p)) <$> pool_entries n p)).
Proof.
  induction ps as [|[n p] ps IH]; intros Hnd Hp; [constructor|]. csimpl.
  apply NoDup_cons in Hnd as [Hni Hnd]. rewrite fmap_app. apply NoDup_app. split_and!.
  - rewrite <- list_fmap_compose. unfold pool_entries. rewrite <- list_fmap_compose.
    pose proof (Hp n p ltac:(left)) as Hb. revert Hb. generalize (cp_backends p).
    intros bs. induction bs as [|b bs IHb]; intros Hb; csimpl; [constructor|].
    apply NoDup_cons in Hb as [Hb1 Hb2]. constructor; [|by apply IHb].
    rewrite list_elem_of_fmap. intros (b' & Heq & Hb'). apply Hb1. apply list_elem_of_fmap.
    exists b'. split; [by injection Heq|done].
  - intros k Hk. rewrite list_elem_of_fmap. intros ([[k' b'] p'] & -> & Hin). apply Hni.
    apply list_elem_of_bind in Hin as ([n2 p2] & Hin & Hin2). simpl in *.
    apply list_elem_of_fmap in Hin as (e & [= <- <-] & He).
    apply list_elem_of_fmap in He as (b2 & [= -> ->] & _).
    apply list_elem_of_fmap in Hk as ([[k3 b3] p3] & Hk3 & Hin3). simpl in Hk3. subst k3.
    apply list_elem_of_fmap in Hin3 as (e & [= <- <-] & He).
    apply list_elem_of_fmap in He as (b4 & [= <- _ _] & _).
    by apply (list_elem_of_fmap_2' fst _ _ _ Hin2).
  - apply IH; [done|]. intros n' p' Hin. apply (Hp n'). by right.
Qed.

Lemma all_entries_nodup h : health_wf h -> NoDup ((fun e => e.1.1) <$> all_entries h).
Proof.
  intros Hw. apply entries_of_list; [apply NoDup_fst_map_to_list|].
  intros n p Hin. apply elem_of_map_to_list in Hin. by eapply Hw.
Qed.

Lemma elem_of_all_entries h k b p :
  (k, b, p) ∈ all_entries h <->
  h !! bk_pool k = Some p /\ b ∈ cp_backends p /\ cb_address b = bk_address k.
Proof.
  unfold all_entries. rewrite list_elem_of_bind. split.
  - intros ([n p'] & He & Hin). apply elem_of_map_to_list in Hin.
    apply list_elem_of_fmap in He as (e & [= <- <-] & He).
    apply list_elem_of_fmap in He as (b' & [= -> ->] & Hb). simpl. done.
  - intros (Hp & Hb & Ha). exists (bk_pool k, p). split; [|by apply elem_of_map_to_list].
    apply list_elem_of_fmap. exists (k, b). split; [done|]. apply list_elem_of_fmap.
    exists b. split; [|done]. destruct k. simpl in *. by subst.
Qed.

Lemma find_entry h k b p : health_wf h -> (k, b, p) ∈ all_entries h ->
  List.find (fun e => bool_decide (e.1.1 = k)) (all_entries h) = Some (k, b, p).
Proof.
  intros Hw Hin. apply (find_NoDup (fun e => e.1.1) _ (k, b, p) (all_entries_nodup h Hw) Hin).
Qed.

Lemma reconcile_entry prev new r k b p : health_wf new -> (k, b, p) ∈ all_entries new ->
  table (reconcile prev new r) !! k =
  Some (match preserved prev (table r) k b with
        | Some s => s
        | None => from_initial_policy (cp_initial_state p)
        end).
Proof.
  intros Hw Hin. simpl.
  pose proof (foldl_insert_lookup (fun e => e.1.1) (fun e =>
    match preserved prev (table r) e.1.1 e.1.2 with
    | Some s => s | None => from_initial_policy (cp_initial_state e.2) end)
    (all_entries new) ∅ k (all_entries_nodup new Hw)) as H. cbv beta in H.
  rewrite (find_entry new k b p Hw Hin) in H. simpl in H. rewrite <- H. f_equal.
  apply foldl_ext. by intros t [[k' b'] p'].
Qed.

(** A small configuration the examples below are evaluated on. *)
Definition sample_backend : CompiledBackendHealth := {|
  cb_address := SockV4 1 53; cb_name := None; cb_label := "b"; cb_probe_qname := ".";
  cb_probe_qtype := 2; cb_probe_source := None |}.

Definition sample_pool : CompiledPoolHealth := {|
  cp_interval_ms := 1000; cp_timeout_ms := 1000; cp_rise := 3; cp_fall := 2;
  cp_acceptable_rcodes := None; cp_initial_state := Optimistic; cp_latency_weighting := false;
  cp_latency_ewma_alpha := f64_of_Z 1; cp_latency_floor := f64_of_Z 1; cp_min_eligible := 0;
  cp_passive_fast_trip := true; cp_passive_fall := 2; cp_backends := [sample_backend] |}.

Definition sample_health : CompiledHealth := {[ "p" := sample_pool ]}.
Definition sample_key : BackendKey := {| bk_pool := "p"; bk_address := SockV4 1 53 |}.

Lemma sample_health_wf : health_wf sample_health.
Proof.
  intros n p Hp.
  destruct (proj1 (lookup_singleton_Some (M := gmap string) "p" n sample_pool p) Hp) as [_ <-].
  apply NoDup_singleton.
Qed.

Lemma sample_entry : (sample_key, sample_backend, sample_pool) ∈ all_entries sample_health.
Proof. apply elem_of_all_entries. split_and!; [apply (lookup_singleton_eq (M := gmap string))|left|done]. Qed.

(** ** Properties *)



(** After any sequence of probe results, live-traffic outcomes and operator
    commands, a backend that is not frozen and has a verdict is applied as
    observed; and once a backend is frozen, no probe or live-traffic outcome
    changes what routing sees of it. *)
Theorem applied_tracks_or_holds rise fall pf alpha init ops obs :
  Forall (fun o => is_observation o = true) obs ->
  let s := foldl (health_step rise fall pf alpha) (from_initial_policy init) ops in
  tracks s
  /\ (frozen s = true -> applied (foldl (health_step rise fall pf alpha) s obs) = applied s).
Proof.
  intros Hobs s. split; [apply tracks_ops; by intros _ []|].
  intros Hz. by apply frozen_observations.
Qed.

Lemma applied_tracks_or_holds_witness :
  applied (foldl (health_step 1 1 1 (f64_of_Z 1))
    (set_down 5 (from_initial_policy Optimistic)) [OpProbe (6, Some (f64_of_Z 2))]) = Down.
Proof.
  apply (proj2 (applied_tracks_or_holds 1 1 1 (f64_of_Z 1) Optimistic [OpSetDown 5]
    [OpProbe (6, Some (f64_of_Z 2))] ltac:(repeat constructor)) eq_refl).
Defined.

(** Live traffic opens the circuit and never closes it, but one probe can:
    the run of good probes before a passive trip still counts after it, so a
    backend with [rise - 1] good probes on the counter that live traffic has
    just marked down is marked up again by the next good probe. *)
Theorem passive_trip_undone_by_one_probe now now' rise pf alpha rtt s :
  frozen s = false -> 1 <= rise <= u32_max ->
  rise - 1 <= consecutive_successes s ->
  Z.max pf 1 <= sat_add 32 (passive_consecutive_failures s) 1 ->
  applied (record_passive_failure now pf s).2 = Down
  /\ applied (record_success now' rise alpha rtt (record_passive_failure now pf s).2) = Up.
Proof.
  intros Hz Hr Hs Hp. unfold record_passive_failure.
  rewrite (proj2 (Z.leb_le _ _)) by exact Hp. simpl.
  edestruct (observe_fields now Down) as (_ & Hz1 & Ha1 & Hs1 & _).
  rewrite Ha1. simpl in *. rewrite Hz in *. split; [done|].
  unfold record_success. rewrite (proj2 (Z.leb_le _ _)).
  - edestruct (observe_fields now' Up) as (_ & _ & -> & _). simpl. by rewrite Hz1.
  - simpl. rewrite Hs1. unfold sat_add, u32_max in *. simpl. lia.
Qed.

Lemma passive_trip_undone_by_one_probe_witness :
  applied (record_success 9 3 (f64_of_Z 1) (f64_of_Z 4)
    (record_passive_failure 8 1 (run_probes 3 2 (f64_of_Z 1) (from_initial_policy Optimistic)
      [(1, Some (f64_of_Z 1)); (2, Some (f64_of_Z 1))])).2) = Up.
Proof.
  apply (passive_trip_undone_by_one_probe 8 9 3 1 (f64_of_Z 1) (f64_of_Z 4)).
  - reflexivity.
  - vm_compute. split; discriminate.
  - vm_compute. discriminate.
  - vm_compute. discriminate.
Defined.

(** Scope precedence. Setting a level decides exactly the backends for which
    no more specific level is set; every other backend resolves as before. *)
Theorem scope_most_specific_wins sc scope mode pool address :
  mode <> Inherit ->
  let k := {| bk_pool := pool; bk_address := address |} in
  resolve (set_level sc scope mode) pool k =
  match scope with
  | ScopeBackend p a => if decide (p = pool /\ a = address) then to_effective mode else resolve sc pool k
  | ScopePool p =>
      if decide (p = pool /\ sc_backends sc !! k = None) then to_effective mode else resolve sc pool k
  | ScopeGlobal =>
      if decide (sc_pools sc !! pool = None /\ sc_backends sc !! k = None)
      then to_effective mode else resolve sc pool k
  end.
Proof.
  intros Hm k. assert (He : to_effective (u8_to_scope (scope_to_u8 mode)) = to_effective mode)
    by (by destruct mode).
  unfold resolve, k. destruct scope as [|p|p a]; simpl.
  - destruct (sc_backends sc !! _) eqn:Eb; [case_decide; naive_solver|].
    destruct (sc_pools sc !! pool) eqn:Ep; case_decide; naive_solver.
  - destruct (sc_backends sc !! _) eqn:Eb; [case_decide; naive_solver|].
    destruct (decide (p = pool)) as [->|Hne].
    + rewrite decide_True by done. destruct mode; [done|..]; by rewrite lookup_insert_eq.
    + rewrite decide_False by naive_solver. destruct mode; [done|..]; by rewrite lookup_insert_ne.
  - case_decide as Hd.
    + destruct Hd as [-> ->]. destruct mode; [done|..]; by rewrite lookup_insert_eq.
    + destruct mode; [done|..]; rewrite lookup_insert_ne by naive_solver; done.
Qed.

Lemma scope_most_specific_wins_witness :
  resolve (set_level (set_level scopes_default (ScopeBackend "p" (SockV4 1 53)) Frozen)
    ScopeGlobal Automatic) "p" {| bk_pool := "p"; bk_address := SockV4 1 53 |} = ScopeFrozen.
Proof.
  exact (scope_most_specific_wins (set_level scopes_default (ScopeBackend "p" (SockV4 1 53)) Frozen)
    ScopeGlobal Automatic "p" (SockV4 1 53) ltac:(discriminate)).
Defined.

Lemma resolve_global sc mode pool address : mode <> Inherit ->
  is_Some (sc_backends sc !! {| bk_pool := pool; bk_address := address |}) ->
  resolve (set_level sc ScopeGlobal mode) pool {| bk_pool := pool; bk_address := address |}
  = resolve sc pool {| bk_pool := pool; bk_address := address |}.
Proof. intros _ [m Hm]. unfold resolve. simpl. by rewrite Hm. Qed.

(** The effect of draining one backend. *)
Lemma drain_backend now h pool address r s :
  validate_scope h (ScopeBackend pool address) = Ok tt ->
  table r !! {| bk_pool := pool; bk_address := address |} = Some s ->
  let r' := (set_health_control now h (ScopeBackend pool address) SetDown r).2 in
  let k := {| bk_pool := pool; bk_address := address |} in
  sc_backends (scopes r') !! k = Some 1
  /\ exists s', table r' !! k = Some s' /\ applied s' = Down /\ frozen s' = true.
Proof.
  intros Hv Hk. unfold set_health_control. rewrite Hv. simpl. rewrite Hk. simpl.
  split; [apply lookup_insert_eq|]. eexists. split; [apply lookup_insert_eq|].
  unfold control_one, sync_one, is_effectively_frozen, resolve_scope, resolve. simpl.
  rewrite lookup_insert_eq. simpl. by rewrite (proj1 (set_applied_fields now Down s)).
Qed.

(** A backend the operator drained (set down at backend scope) stays out of
    rotation when the whole system is later resumed: its applied health is still
    down and it is still frozen. *)
Theorem drained_backend_survives_global_resume now now' h pool address r s :
  validate_scope h (ScopeBackend pool address) = Ok tt ->
  table r !! {| bk_pool := pool; bk_address := address |} = Some s ->
  let r1 := (set_health_control now h (ScopeBackend pool address) SetDown r).2 in
  let r2 := (set_health_control now' h ScopeGlobal ResumeAutomatic r1).2 in
  exists s', table r2 !! {| bk_pool := pool; bk_address := address |} = Some s'
    /\ applied s' = Down /\ frozen s' = true.
Proof.
  intros Hv Hk r1 r2. destruct (drain_backend now h pool address r s Hv Hk) as (Hsc & s1 & H1 & Ha & Hz).
  fold r1 in Hsc, H1. unfold r2, set_health_control. cbn [validate_scope].
  destruct (backends_in_scope h ScopeGlobal) as [|e es]; [eauto|]. cbv zeta.
  set (r1' := MkRegistry (table r1) _).
  pose proof (control_loop_keeps now' ScopeGlobal ResumeAutomatic (e :: es) r1'
    {| bk_pool := pool; bk_address := address |} s1
    (fun x => applied x = Down /\ frozen x = true) H1 (conj Ha Hz)) as H.
  destruct H as (s' & Hs' & ?).
  - intros r' x Hr' [Hx Hzx]. unfold control_one, sync_one, is_effectively_frozen, resolve_scope.
    simpl. rewrite Hr'. unfold r1', resolve. simpl. rewrite Hsc. simpl. done.
  - exists s'. split; [|done]. revert Hs'. by destruct (control_loop now' _ _ (e :: es) r1').
Qed.

Lemma drained_backend_survives_global_resume_witness :
  exists s', table (set_health_control 7 sample_health ScopeGlobal ResumeAutomatic
      (set_health_control 6 sample_health (ScopeBackend "p" (SockV4 1 53)) SetDown
        (from_compiled sample_health)).2).2 !! sample_key = Some s'
    /\ applied s' = Down /\ frozen s' = true.
Proof.
  apply (drained_backend_survives_global_resume 6 7 sample_health "p" (SockV4 1 53)
    (from_compiled sample_health) (from_initial_policy Optimistic)).
  - vm_compute. reflexivity.
  - vm_compute. reflexivity.
Defined.

(** Reconciliation on reload. A backend of the new configuration keeps its
    health object when the old configuration had it with the same probe
    question and source; otherwise it starts from its pool's initial policy.
    Backends that are gone leave the table, and the operator scopes stay. *)
Theorem reconcile_spec prev new r :
  health_wf new ->
  (forall k b p, (k, b, p) ∈ all_entries new ->
     table (reconcile prev new r) !! k =
     Some (match preserved prev (table r) k b with
           | Some s => s
           | None => from_initial_policy (cp_initial_state p)
           end))
  /\ (forall k, (forall b p, (k, b, p) ∉ all_entries new) -> table (reconcile prev new r) !! k = None)
  /\ scopes (reconcile prev new r) = scopes r.
Proof.
  intros Hw. split_and!; [intros k b p; by apply reconcile_entry| |done].
  intros k Hno. simpl.
  pose proof (foldl_insert_lookup (fun e => e.1.1) (fun e =>
    match preserved prev (table r) e.1.1 e.1.2 with
    | Some s => s | None => from_initial_policy (cp_initial_state e.2) end)
    (all_entries new) ∅ k (all_entries_nodup new Hw)) as H. cbv beta in H.
  destruct (List.find _ _) as [[[k' b'] p']|] eqn:Ef.
  - apply find_some in Ef as [Hin He]. apply bool_decide_eq_true in He. simpl in He. subst k'.
    apply list_elem_of_In in Hin. by apply Hno in Hin.
  - rewrite lookup_empty in H. rewrite <- H. f_equal. apply foldl_ext. by intros t [[? ?] ?].
Qed.

Lemma reconcile_spec_witness :
  table (reconcile sample_health sample_health
    {| table := {[ sample_key := set_down 3 (from_initial_policy Optimistic) ]};
       scopes := scopes_default |}) !! sample_key
  = Some (set_down 3 (from_initial_policy Optimistic)).
Proof.
  exact (proj1 (reconcile_spec sample_health sample_health
    {| table := {[ sample_key := set_down 3 (from_initial_policy Optimistic) ]};
       scopes := scopes_default |} sample_health_wf) sample_key sample_backend sample_pool
    sample_entry).
Defined.

(** A backend added by a reload while its scope is frozen is routed to at
    once under the default policy: reconciliation gives it the initial policy
    whatever the operator scopes say, unfrozen and applied up. *)
Theorem new_backend_ignores_frozen_scope prev new r k b p :
  health_wf new -> (k, b, p) ∈ all_entries new -> table r !! k = None ->
  cp_initial_state p = Optimistic ->
  resolve_scope r (bk_pool k) (bk_address k) = ScopeFrozen ->
  exists s, table (reconcile prev new r) !! k = Some s /\ applied s = Up /\ frozen s = false
    /\ resolve_scope (reconcile prev new r) (bk_pool k) (bk_address k) = ScopeFrozen.
Proof.
  intros Hw Hin Hold Hp Hsc. exists (from_initial_policy Optimistic).
  rewrite (reconcile_entry prev new r k b p Hw Hin). unfold preserved. by rewrite Hold, Hp.
Qed.

Lemma new_backend_ignores_frozen_scope_witness :
  exists s, table (reconcile ∅ sample_health
      {| table := ∅; scopes := set_level scopes_default ScopeGlobal Frozen |}) !! sample_key = Some s
    /\ applied s = Up /\ frozen s = false
    /\ resolve_scope (reconcile ∅ sample_health
         {| table := ∅; scopes := set_level scopes_default ScopeGlobal Frozen |})
         "p" (SockV4 1 53) = ScopeFrozen.
Proof.
  apply (new_backend_ignores_frozen_scope ∅ sample_health
    {| table := ∅; scopes := set_level scopes_default ScopeGlobal Frozen |}
    sample_key sample_backend sample_pool sample_health_wf sample_entry).
  - apply lookup_empty.
  - reflexivity.
  - vm_compute. reflexivity.
Defined.

(** The policies [require_1_good] and [require_full_rise] are one policy:
    with [rise] above one, a backend that must show one good probe is still out
    of rotation after it. *)
Theorem require_1_good_needs_full_rise rise fall alpha now rtt :
  1 < rise -> rise <= u32_max ->
  applied (run_probes rise fall alpha (from_initial_policy Require1Good) [(now, Some rtt)]) = Down
  /\ from_initial_policy Require1Good = from_initial_policy RequireFullRise.
Proof.
  intros H1 H2. split; [|done]. unfold run_probes, probe_step, record_success. simpl.
  rewrite (proj2 (Z.leb_gt _ _)); [done|]. unfold sat_add, u32_max in *. lia.
Qed.

Lemma require_1_good_needs_full_rise_witness :
  applied (run_probes 3 2 (f64_of_Z 1) (from_initial_policy Require1Good)
    [(1, Some (f64_of_Z 2))]) = Down.
Proof.
  apply (proj1 (require_1_good_needs_full_rise 3 2 (f64_of_Z 1) 1 (f64_of_Z 2)
    ltac:(lia) ltac:(vm_compute; discriminate))).
Defined.
