(* ===== verification/Routing.v ===== *)
(** * Routing: weighted, health-aware backend selection

    src/crates/conduit-core/src/routing.rs, the Route stage of stages/route.rs,
    the pool runtime view of runtime_view.rs and the weight default of
    conduit-config/src/backend.rs. The socket address parser of the standard
    library is quantified over ([parse_addr]), as is its printer.

    The theorems are about what is selected (soundness, completeness, never a
    backend twice) and how often: over consecutive transaction ids each backend
    gets exactly its weight. *)

From stdpp Require Import strings gmap.
From Stdlib Require Import String.
From S2P Require Import Prelude Text Floats DnsWire Transaction Health.

#[local] Open Scope string_scope.
#[local] Open Scope list_scope.
#[local] Open Scope Z_scope.

(** ** Configuration *)

Record Backend := {
  be_address : string;
  be_weight : option Z;
  be_name : option string;
}.

Record Pool := { pool_name : string; pool_backends : list Backend }.

Definition DEFAULT_BACKEND_WEIGHT : Z := 100.

Definition effective_backend_weight (b : Backend) : Z := default DEFAULT_BACKEND_WEIGHT (be_weight b).

Definition resolve_backend_weight : Backend -> Z := effective_backend_weight.

Definition find_pool (pools : list Pool) (n : string) : option Pool :=
  List.find (fun p => String.eqb (pool_name p) n) pools.

Definition default_pool_name (pools : list Pool) : option string :=
  match find_pool pools "default" with
  | Some p => Some (pool_name p)
  | None => pool_name <$> head pools
  end.

Definition nonempty_name (n : option string) : option string :=
  let! s := n in if String.eqb s EmptyString then None else Some s.

Definition backend_metric_label (b : Backend) : string :=
  default (be_address b) (nonempty_name (be_name b)).

(** ** Selection *)

Record PoolHealthView := { hvw_config : CompiledPoolHealth; hvw_table : HealthTable }.

Definition backend_eligible (t : HealthTable) (pool : string) (addr : SocketAddr) : bool :=
  match t !! {| bk_pool := pool; bk_address := addr |} with
  | Some s => bool_decide (applied s = Up)
  | None => true
  end.

Definition effective_weight (configured : Z) (factor : f64) : Z :=
  Z.max (round_as i64_min i64_max (f64_mul (f64_of_Z configured) factor)) 1.

Definition tried_backends_in_pool (attempts : list AttemptRecord) (pool : string) : list SocketAddr :=
  ar_backend <$> List.filter (fun a => String.eqb (ar_pool a) pool) attempts.

Section Selection.
Context (parse_addr : string -> option SocketAddr).
Context (show_addr : SocketAddr -> string).

Definition Candidate : Type := Backend * SocketAddr.

Definition contains_addr (l : list SocketAddr) (a : SocketAddr) : bool :=
  existsb (fun x => bool_decide (x = a)) l.

Definition candidates (p : Pool) (attempt_count : Z) (tried : list SocketAddr) : list Candidate :=
  omap (fun b =>
    let! addr := parse_addr (be_address b) in
    if (0 <? attempt_count) && contains_addr tried addr then None else Some (b, addr))
    (pool_backends p).

Definition eligible_of (t : HealthTable) (pool : string) (cs : list Candidate) : list Candidate :=
  List.filter (fun c => backend_eligible t pool c.2) cs.

(** The fail-open floor: at least one, and a single-backend pool always opens. *)
Definition fail_open (p : Pool) (cfg : CompiledPoolHealth) (eligible : list Candidate) : bool :=
  (zlen (pool_backends p) <=? 1) || (zlen eligible <? Z.max (cp_min_eligible cfg) 1).

Definition choose (p : Pool) (cs : list Candidate) (health : option PoolHealthView)
    : list Candidate * bool :=
  match health with
  | Some view =>
      let eligible := eligible_of (hvw_table view) (pool_name p) cs in
      if fail_open p (hvw_config view) eligible then (cs, false)
      else (eligible, cp_latency_weighting (hvw_config view))
  | None => (cs, false)
  end.

Definition weight_of (pool : string) (health : option PoolHealthView) (use_latency : bool)
    (c : Candidate) : Z :=
  let configured := resolve_backend_weight c.1 in
  if use_latency then
    match health with
    | Some view =>
        match hvw_table view !! {| bk_pool := pool; bk_address := c.2 |} with
        | Some s => effective_weight configured (weight_factor s)
        | None => configured
        end
    | None => configured
    end
  else configured.

(** The sum wraps at 64 bits. *)
Definition total_weight (w : Candidate -> Z) (cs : list Candidate) : Z :=
  foldl (fun acc c => wrap 64 (acc + w c)) 0 cs.

Fixpoint pick_loop (w : Candidate -> Z) (pick acc : Z) (cs : list Candidate) : option SocketAddr :=
  match cs with
  | [] => None
  | c :: cs' =>
      let acc := wrap 64 (acc + w c) in
      if pick <? acc then Some c.2 else pick_loop w pick acc cs'
  end.

Definition select_backend (pools : list Pool) (pool : string) (txn_id generation attempt_count : Z)
    (tried : list SocketAddr) (health : option PoolHealthView) : option (string * SocketAddr) :=
  let! p := find_pool pools pool in
  match pool_backends p with
  | [] => None
  | _ =>
      match candidates p attempt_count tried with
      | [] => None
      | cs =>
          let '(chosen, use_latency) := choose p cs health in
          let w := weight_of pool health use_latency in
          let total := total_weight w chosen in
          if total =? 0 then None
          else
            let pick := wrap 64 (txn_id + generation) mod total in
            match pick_loop w pick 0 chosen with
            | Some addr => Some (pool, addr)
            | None => (fun c => (pool, c.2)) <$> last chosen
            end
      end
  end.

Definition effective_weights_for_scrape (p : Pool) (cfg : CompiledPoolHealth) (t : HealthTable)
    : gmap SocketAddr Z :=
  let cs := candidates p 0 [] in
  let eligible := eligible_of t (pool_name p) cs in
  let fo := fail_open p cfg eligible in
  let use_latency := negb fo && cp_latency_weighting cfg in
  foldl (fun out c =>
    let configured := resolve_backend_weight c.1 in
    let weight :=
      if fo then configured
      else if negb (backend_eligible t (pool_name p) c.2) then 0
      else if use_latency then
        match t !! {| bk_pool := pool_name p; bk_address := c.2 |} with
        | Some s => effective_weight configured (weight_factor s)
        | None => configured
        end
      else configured in
    <[c.2 := weight]> out) ∅ cs.

Definition backend_metric_label_for_addr (pools : list Pool) (pool : string) (addr : SocketAddr)
    : string :=
  default (show_addr addr)
    (let! p := find_pool pools pool in
     let! b := List.find (fun b => bool_decide (parse_addr (be_address b) = Some addr))
                 (pool_backends p) in
     Some (backend_metric_label b)).

(** ** The Route stage *)

Definition route_pool (pools : list Pool) (t : Transaction) : option string * Transaction :=
  let '(o, t) :=
    if 0 <? attempt_count t then
      let '(rp, t) := take_retry_pool t in (or_else rp (selected_pool t), t)
    else (selected_pool t, t) in
  (or_else o (default_pool_name pools), t).

Definition route_stage (pools : list Pool) (compiled : CompiledHealth) (generation : Z)
    (registry : option HealthTable) (t : Transaction) : StageOutcome * Transaction :=
  let '(pool, t) := route_pool pools t in
  match pool with
  | None => (Continue Send, set_rcode_name t "SERVFAIL")
  | Some pool =>
      let view := match registry, compiled !! pool with
        | Some tbl, Some cfg => Some {| hvw_config := cfg; hvw_table := tbl |}
        | _, _ => None
        end in
      match select_backend pools pool (id t) generation (attempt_count t)
              (tried_backends_in_pool (attempts t) pool) view with
      | None => (Continue Send, set_rcode_name t "SERVFAIL")
      | Some (pool, backend) =>
          (Continue Forward,
           record_attempt t pool backend (backend_metric_label_for_addr pools pool backend))
      end
  end.
End Selection.

(** ** Lemmas on the weighted pick *)

Definition sum_weights (w : Candidate -> Z) (cs : list Candidate) : Z :=
  foldr (fun c acc => w c + acc) 0 cs.

Definition weights_ok (w : Candidate -> Z) (cs : list Candidate) : Prop :=
  Forall (fun c => 0 <= w c) cs /\ sum_weights w cs < 2 ^ 64.

Lemma sum_weights_app w cs cs' : sum_weights w (cs ++ cs') = sum_weights w cs + sum_weights w cs'.
Proof. induction cs; simpl; lia. Qed.

Lemma sum_weights_nonneg w cs : Forall (fun c => 0 <= w c) cs -> 0 <= sum_weights w cs.
Proof. induction 1; simpl; lia. Qed.

Lemma total_weight_from w cs acc : 0 <= acc -> Forall (fun c => 0 <= w c) cs ->
  acc + sum_weights w cs < 2 ^ 64 ->
  foldl (fun acc c => wrap 64 (acc + w c)) acc cs = acc + sum_weights w cs.
Proof.
  intros Ha Hw. revert acc Ha. induction Hw as [|c cs Hc Hcs IH]; intros acc Ha Hs; simpl in *; [lia|].
  pose proof (sum_weights_nonneg w cs Hcs).
  rewrite wrap_small by (unfold fits; lia). rewrite IH by lia. lia.
Qed.

Lemma total_weight_sum w cs : weights_ok w cs -> total_weight w cs = sum_weights w cs.
Proof. intros [Hw Hs]. unfold total_weight. rewrite total_weight_from; [lia|lia|done|lia]. Qed.

(** The pick falls in the slice of the returned candidate, the slices being
    laid out in order with the weights as lengths. *)
Lemma pick_loop_slice w pick acc cs :
  0 <= acc <= pick -> Forall (fun c => 0 <= w c) cs -> acc + sum_weights w cs < 2 ^ 64 ->
  pick < acc + sum_weights w cs ->
  exists pre c post, cs = pre ++ c :: post /\ pick_loop w pick acc cs = Some c.2
    /\ acc + sum_weights w pre <= pick < acc + sum_weights w pre + w c.
Proof.
  intros Hacc Hw. revert acc Hacc. induction Hw as [|c cs Hc Hcs IH]; intros acc Hacc Hs Hp;
    simpl in *; [lia|]. pose proof (sum_weights_nonneg w cs Hcs).
  rewrite wrap_small by (unfold fits; lia). destruct (Z.ltb_spec pick (acc + w c)) as [Hlt|Hge].
  - exists [], c, cs. simpl. split_and!; [done..|lia|lia].
  - destruct (IH (acc + w c)) as (pre & d & post & -> & -> & Hb); [lia..|].
    exists (c :: pre), d, post. simpl. split_and!; [done..|lia|lia].
Qed.

Lemma pick_loop_in w pick acc pre c post :
  0 <= acc -> Forall (fun c => 0 <= w c) (pre ++ c :: post) ->
  acc + sum_weights w (pre ++ c :: post) < 2 ^ 64 ->
  acc + sum_weights w pre <= pick < acc + sum_weights w pre + w c ->
  pick_loop w pick acc (pre ++ c :: post) = Some c.2.
Proof.
  revert acc. induction pre as [|x pre IH]; intros acc Ha Hw Hs Hp; simpl in *;
    inversion Hw as [|? ? Hx Hw']; subst; pose proof (sum_weights_nonneg w _ Hw');
    rewrite wrap_small by (unfold fits; lia).
  - by rewrite (proj2 (Z.ltb_lt _ _)) by lia.
  - pose proof Hw' as [Hpre _]%Forall_app. pose proof (sum_weights_nonneg w pre Hpre).
    rewrite (proj2 (Z.ltb_ge _ _)) by lia. apply IH; lia || done.
Qed.

(** The slice decides, when no address is listed twice. *)
Lemma pick_loop_iff w pick pre c post :
  weights_ok w (pre ++ c :: post) -> NoDup (snd <$> pre ++ c :: post) ->
  0 <= pick < sum_weights w (pre ++ c :: post) ->
  (pick_loop w pick 0 (pre ++ c :: post) = Some c.2 <->
   sum_weights w pre <= pick < sum_weights w pre + w c).
Proof.
  intros [Hw Hs] Hnd Hp. split; [|intros Hb; by apply pick_loop_in].
  destruct (pick_loop_slice w pick 0 (pre ++ c :: post)) as (pre' & c' & post' & Heq & -> & Hb);
    [lia|done|lia|lia|].
  intros [= Haddr]. assert (length pre' = length pre) as Hlen.
  { apply (NoDup_lookup (snd <$> pre ++ c :: post) _ _ c.2 Hnd).
    - rewrite Heq, fmap_app, lookup_app_r by (by rewrite length_fmap).
      rewrite length_fmap, Nat.sub_diag. simpl. by rewrite Haddr.
    - rewrite fmap_app, lookup_app_r by (by rewrite length_fmap).
      by rewrite length_fmap, Nat.sub_diag. }
  apply app_inj_1 in Heq as [-> [= -> ->]]; [lia|done].
Qed.

(** ** Lemmas on selection *)

Section SelectionLemmas.
Context (parse_addr : string -> option SocketAddr).

(** The backends a selection draws from, with their weights. *)
Definition selectable (p : Pool) (attempt_count : Z) (tried : list SocketAddr)
    (health : option PoolHealthView) : list Candidate :=
  (choose p (candidates parse_addr p attempt_count tried) health).1.

Definition selection_weight (p : Pool) (attempt_count : Z) (tried : list SocketAddr)
    (health : option PoolHealthView) : Candidate -> Z :=
  weight_of (pool_name p) health (choose p (candidates parse_addr p attempt_count tried) health).2.

Lemma find_pool_Some pools pool p : find_pool pools pool = Some p ->
  p ∈ pools /\ pool_name p = pool.
Proof.
  intros [Hin Heq]%find_some. apply String.eqb_eq in Heq. split; [by apply list_elem_of_In|done].
Qed.

Lemma elem_of_candidates p attempt tried b addr :
  (b, addr) ∈ candidates parse_addr p attempt tried <->
  b ∈ pool_backends p /\ parse_addr (be_address b) = Some addr /\ (0 < attempt -> addr ∉ tried).
Proof.
  assert (Hc : contains_addr tried addr = true <-> addr ∈ tried).
  { unfold contains_addr. rewrite existsb_exists. setoid_rewrite bool_decide_eq_true.
    setoid_rewrite <- list_elem_of_In. naive_solver. }
  unfold candidates. rewrite list_elem_of_omap. split.
  - intros (b' & Hb & H). destruct (parse_addr (be_address b')) as [a|] eqn:Ea; [|done].
    destruct (_ && _) eqn:E; simplify_eq. split_and!; [done..|]. intros Ha Ht.
    apply Hc in Ht. rewrite Ht, andb_true_r in E. lia.
  - intros (Hb & Ha & Ht). exists b. split; [done|]. rewrite Ha.
    destruct (Z.ltb_spec 0 attempt); simpl; [|done].
    destruct (contains_addr tried addr) eqn:E; [|done]. exfalso. by apply Ht, Hc.
Qed.

Lemma choose_sub p cs health c : c ∈ (choose p cs health).1 -> c ∈ cs.
Proof.
  destruct health as [view|]; simpl; [|done]. case_match; simpl; [done|].
  unfold eligible_of. rewrite list_elem_of_In, filter_In, <- list_elem_of_In. naive_solver.
Qed.

Lemma choose_eligible p cs view c : c ∈ (choose p cs (Some view)).1 ->
  fail_open p (hvw_config view) (eligible_of (hvw_table view) (pool_name p) cs) = false ->
  backend_eligible (hvw_table view) (pool_name p) c.2 = true.
Proof.
  simpl. intros Hc Hf. rewrite Hf in Hc. simpl in Hc. unfold eligible_of in Hc.
  rewrite list_elem_of_In, filter_In in Hc. naive_solver.
Qed.

Lemma choose_nonempty p cs health : cs <> [] -> (choose p cs health).1 <> [].
Proof.
  intros Hne. destruct health as [view|]; simpl; [|done]. case_match eqn:E; simpl; [done|].
  unfold fail_open in E. apply orb_false_elim in E as [_ E]. apply Z.ltb_ge in E.
  intros Hnil. rewrite Hnil in E. unfold zlen in E. simpl in E. lia.
Qed.

(** Selection with a positive total weight is the pick. *)
Lemma select_backend_pick pools pool p txn gen attempt tried health :
  find_pool pools pool = Some p ->
  let chosen := selectable p attempt tried health in
  let w := selection_weight p attempt tried health in
  weights_ok w chosen -> 0 < sum_weights w chosen ->
  exists c, c ∈ chosen
    /\ pick_loop w (wrap 64 (txn + gen) mod sum_weights w chosen) 0 chosen = Some c.2
    /\ select_backend parse_addr pools pool txn gen attempt tried health = Some (pool, c.2).
Proof.
  intros Hp chosen w Hok Hpos. destruct (find_pool_Some _ _ _ Hp) as [_ Hname].
  destruct (pick_loop_slice w (wrap 64 (txn + gen) mod sum_weights w chosen) 0 chosen)
    as (pre & c & post & Heq & Hl & _); [|apply Hok|destruct Hok; lia| |].
  { pose proof (Z.mod_pos_bound (wrap 64 (txn + gen)) (sum_weights w chosen) Hpos). lia. }
  { pose proof (Z.mod_pos_bound (wrap 64 (txn + gen)) (sum_weights w chosen) Hpos). lia. }
  exists c. split; [rewrite Heq; set_solver|]. split; [done|].
  unfold select_backend. rewrite Hp.
  assert (Hcs : c ∈ candidates parse_addr p attempt tried).
  { apply (choose_sub p _ health). change (c ∈ chosen). rewrite Heq. set_solver. }
  destruct (pool_backends p) as [|b bs] eqn:Eb.
  { destruct c as [b addr]. apply elem_of_candidates in Hcs as [Hb _]. rewrite Eb in Hb.
    by apply elem_of_nil in Hb. }
  destruct (candidates parse_addr p attempt tried) as [|x xs] eqn:Ec; [by apply elem_of_nil in Hcs|].
  unfold chosen, w, selectable, selection_weight in *. rewrite Ec in *. rewrite Hname in *.
  destruct (choose p (x :: xs) health) as [ch ul]. simpl in *.
  rewrite (total_weight_sum _ _ Hok). rewrite (proj2 (Z.eqb_neq _ _)) by lia. by rewrite Hl.
Qed.
End SelectionLemmas.

(** A pool as validation accepts it: weights of at least one. *)
Definition pool_weights_ok (p : Pool) : Prop :=
  Forall (fun b => 1 <= effective_backend_weight b) (pool_backends p).

Lemma effective_weight_pos n f : 1 <= effective_weight n f.
Proof. unfold effective_weight. lia. Qed.

Lemma selection_weight_pos parse_addr p attempt tried health c :
  pool_weights_ok p -> c ∈ selectable parse_addr p attempt tried health ->
  1 <= selection_weight parse_addr p attempt tried health c.
Proof.
  intros Hw Hc. apply choose_sub in Hc. destruct c as [b addr].
  apply elem_of_candidates in Hc as (Hb & _). unfold pool_weights_ok in Hw.
  rewrite Forall_forall in Hw. pose proof (Hw b Hb) as Hwb. unfold selection_weight, weight_of.
  repeat case_match; auto using effective_weight_pos.
Qed.

Lemma sum_weights_ge w cs c : Forall (fun c => 0 <= w c) cs -> c ∈ cs -> w c <= sum_weights w cs.
Proof.
  induction 1 as [|x cs Hx Hcs IH]; intros Hc; [by apply elem_of_nil in Hc|]. simpl.
  pose proof (sum_weights_nonneg w cs Hcs). apply elem_of_cons in Hc as [->|Hc]; [lia|].
  specialize (IH Hc). lia.
Qed.

Lemma selection_ok parse_addr p attempt tried health :
  pool_weights_ok p ->
  let w := selection_weight parse_addr p attempt tried health in
  let chosen := selectable parse_addr p attempt tried health in
  sum_weights w chosen < 2 ^ 64 -> weights_ok w chosen.
Proof.
  intros Hw w chosen Hs. split; [|done]. apply Forall_forall. intros c Hc.
  pose proof (selection_weight_pos parse_addr p attempt tried health c Hw Hc). unfold w. lia.
Qed.

Lemma selection_pos parse_addr p attempt tried health b addr :
  pool_weights_ok p ->
  (b, addr) ∈ candidates parse_addr p attempt tried ->
  0 < sum_weights (selection_weight parse_addr p attempt tried health)
        (selectable parse_addr p attempt tried health).
Proof.
  intros Hw Hc. unfold selectable.
  destruct (choose p _ health).1 as [|c cs] eqn:E.
  - apply choose_nonempty in E; [done|]. intros Hnil. rewrite Hnil in Hc. by apply elem_of_nil in Hc.
  - assert (Hin : forall x, x ∈ c :: cs -> 1 <= selection_weight parse_addr p attempt tried health x).
    { intros x Hx. apply selection_weight_pos; [done|]. unfold selectable. by rewrite E. }
    pose proof (sum_weights_ge (selection_weight parse_addr p attempt tried health) (c :: cs) c) as Hge.
    pose proof (Hin c ltac:(left)). rewrite Forall_forall in Hge.
    specialize (Hge ltac:(intros x Hx; specialize (Hin x Hx); lia) ltac:(left)). lia.
Qed.

(** A two-backend pool for the examples, and a parser of its two addresses. *)
Definition sample_parse (s : string) : option SocketAddr :=
  if String.eqb s "10.0.0.1:53" then Some (SockV4 167772161 53)
  else if String.eqb s "10.0.0.2:53" then Some (SockV4 167772162 53) else None.

Definition sample_b1 : Backend :=
  {| be_address := "10.0.0.1:53"; be_weight := Some 3; be_name := None |}.
Definition sample_b2 : Backend :=
  {| be_address := "10.0.0.2:53"; be_weight := Some 1; be_name := None |}.
Definition sample_pools : list Pool :=
  [{| pool_name := "default"; pool_backends := [sample_b1; sample_b2] |}].
Definition sample_p : Pool := {| pool_name := "default"; pool_backends := [sample_b1; sample_b2] |}.

Lemma sample_weights : pool_weights_ok sample_p.
Proof. repeat constructor; vm_compute; discriminate. Qed.

(** ** Properties *)

(** C35: weighted selection is exact. Over any window of consecutive transaction
    ids as long as the total weight, a backend is selected by exactly as many
    of them as its effective weight, whatever the health view and the
    backends already tried. *)
Theorem select_exact_share parse_addr pools pool p gen attempt tried health c start :
  find_pool pools pool = Some p -> pool_weights_ok p ->
  let w := selection_weight parse_addr p attempt tried health in
  let chosen := selectable parse_addr p attempt tried health in
  let total := sum_weights w chosen in
  NoDup (snd <$> chosen) -> c ∈ chosen ->
  0 <= start -> 0 <= gen -> start + gen + total < 2 ^ 64 ->
  countZ (fun txn => bool_decide
    (select_backend parse_addr pools pool txn gen attempt tried health = Some (pool, c.2))) start total
  = w c.
Proof.
  intros Hp Hw w chosen total Hnd Hc Hs Hg Hb.
  assert (Hok : weights_ok w chosen) by (apply selection_ok; [done|]; fold w chosen total; lia).
  pose proof (selection_weight_pos parse_addr p attempt tried health c Hw Hc) as Hwc. fold w in Hwc.
  pose proof (sum_weights_ge w chosen c (proj1 Hok) Hc). assert (Htot : 0 < total) by (unfold total; lia).
  set (f x := bool_decide (pick_loop w (x mod total) 0 chosen = Some c.2)).
  rewrite (countZ_ext _ (fun x => f (x + gen))); [|lia|].
  2:{ intros x Hx. unfold f. apply bool_decide_ext.
      destruct (select_backend_pick parse_addr pools pool p x gen attempt tried health Hp Hok Htot)
        as (c' & _ & Hl & ->). fold w chosen in Hl. fold total in Hl.
      rewrite wrap_small in Hl by (unfold fits; lia). rewrite Hl.
      split; intros [= ->]; done. }
  assert (Hper : forall x, 0 <= x -> f (x + total) = f x).
  { intros x _. unfold f. replace (x + total) with (x + 1 * total) by lia.
    by rewrite Z_mod_plus_full. }
  rewrite countZ_shift, countZ_periodic by (done || lia).
  apply list_elem_of_split in Hc as (pre & post & Heq). rewrite Heq in *.
  rewrite (countZ_interval f (sum_weights w pre) (sum_weights w pre + w c)); [lia|..].
  - apply sum_weights_nonneg. destruct Hok as [Hf _]. by apply Forall_app in Hf as [Hf _].
  - lia.
  - unfold total. rewrite Heq, sum_weights_app. simpl. destruct Hok as [Hf _].
    apply Forall_app in Hf as [_ Hf]. inversion Hf as [|? ? ? Hpost]; subst.
    pose proof (sum_weights_nonneg w post Hpost). lia.
  - intros x Hx. unfold f. rewrite Z.mod_small by done.
    pose proof (pick_loop_iff w x pre c post Hok Hnd) as Hiff. unfold total in Hx. rewrite Heq in Hx.
    specialize (Hiff Hx). rewrite Heq. case_bool_decide as E; [apply Hiff in E; lia|].
    destruct (_ && _) eqn:Eb; [|done]. exfalso. apply E, Hiff. lia.
Qed.

Lemma select_exact_share_witness :
  countZ (fun txn => bool_decide
    (select_backend sample_parse sample_pools "default" txn 7 0 [] None
     = Some ("default", SockV4 167772161 53))) 100 4 = 3.
Proof.
  apply (select_exact_share sample_parse sample_pools "default" sample_p 7 0 [] None
    (sample_b1, SockV4 167772161 53) 100 eq_refl sample_weights).
  - vm_compute. repeat constructor; set_solver.
  - vm_compute. left.
  - lia.
  - lia.
  - vm_compute. reflexivity.
Defined.

(** Selection is sound: the selected address is a configured backend of the
    requested pool, not one already tried on a retry, and up unless the
    fail-open floor is in force. *)
Theorem select_backend_sound parse_addr pools pool p txn gen attempt tried health r :
  find_pool pools pool = Some p -> pool_weights_ok p ->
  sum_weights (selection_weight parse_addr p attempt tried health)
    (selectable parse_addr p attempt tried health) < 2 ^ 64 ->
  select_backend parse_addr pools pool txn gen attempt tried health = Some r ->
  r.1 = pool
  /\ (exists b, b ∈ pool_backends p /\ parse_addr (be_address b) = Some r.2)
  /\ (0 < attempt -> r.2 ∉ tried)
  /\ (forall view, health = Some view ->
        fail_open p (hvw_config view)
          (eligible_of (hvw_table view) pool (candidates parse_addr p attempt tried)) = true
        \/ backend_eligible (hvw_table view) pool r.2 = true).
Proof.
  intros Hp Hw Hs Hr. destruct (find_pool_Some _ _ _ Hp) as [_ Hname].
  assert (Hc : exists c, c ∈ selectable parse_addr p attempt tried health /\ r = (pool, c.2)).
  { destruct (candidates parse_addr p attempt tried) as [|[b a] cs] eqn:Ec.
    - unfold select_backend in Hr. rewrite Hp, Ec in Hr. by destruct (pool_backends p).
    - destruct (select_backend_pick parse_addr pools pool p txn gen attempt tried health Hp
        (selection_ok _ _ _ _ _ Hw Hs)) as (c & Hc & _ & Heq).
      + apply (selection_pos parse_addr p attempt tried health b a Hw). rewrite Ec. left.
      + exists c. split; [done|]. by rewrite Heq in Hr; simplify_eq. }
  destruct Hc as ([b addr] & Hc & ->). simpl.
  pose proof (choose_sub _ _ _ _ Hc) as Hcand. apply elem_of_candidates in Hcand as (Hb & Ha & Ht).
  split_and!; [done|by exists b|done|]. intros view ->.
  destruct (fail_open _ _ _) eqn:Ef; [by left|right]. rewrite <- Hname in Ef |- *.
  by apply (choose_eligible p _ view (b, addr) Hc).
Qed.

Lemma select_backend_sound_witness :
  exists b, b ∈ pool_backends sample_p /\ sample_parse (be_address b) = Some (SockV4 167772162 53).
Proof.
  apply (proj1 (proj2 (select_backend_sound sample_parse sample_pools "default" sample_p 1 2 1
    [SockV4 167772161 53] None ("default", SockV4 167772162 53) eq_refl sample_weights
    eq_refl eq_refl))).
Defined.

(** Selection is complete: with validated weights, a pool yields a backend
    exactly when it has a backend whose address parses and that this
    transaction has not tried yet (any, on the first attempt). In particular
    health never empties a pool. *)
Theorem select_backend_complete parse_addr pools pool p txn gen attempt tried health :
  find_pool pools pool = Some p -> pool_weights_ok p ->
  sum_weights (selection_weight parse_addr p attempt tried health)
    (selectable parse_addr p attempt tried health) < 2 ^ 64 ->
  (is_Some (select_backend parse_addr pools pool txn gen attempt tried health) <->
   exists b addr, b ∈ pool_backends p /\ parse_addr (be_address b) = Some addr
     /\ (0 < attempt -> addr ∉ tried)).
Proof.
  intros Hp Hw Hs. setoid_rewrite <- elem_of_candidates. split.
  - intros [r Hr]. unfold select_backend in Hr. rewrite Hp in Hr.
    destruct (pool_backends p) as [|b0 bs]; [done|].
    destruct (candidates parse_addr p attempt tried) as [|[b addr] cs]; [done|].
    exists b, addr. left.
  - intros (b & addr & Hc).
    destruct (select_backend_pick parse_addr pools pool p txn gen attempt tried health Hp
      (selection_ok _ _ _ _ _ Hw Hs)) as (c & _ & _ & ->); [|done].
    by eapply selection_pos.
Qed.

Lemma select_backend_complete_witness :
  is_Some (select_backend sample_parse sample_pools "default" 5 1 1 [SockV4 167772161 53] None).
Proof.
  apply (select_backend_complete sample_parse sample_pools "default" sample_p 5 1 1
    [SockV4 167772161 53] None eq_refl sample_weights eq_refl).
  exists sample_b2, (SockV4 167772162 53). split_and!.
  - right. left.
  - reflexivity.
  - intros _. apply not_elem_of_cons. split; [discriminate|apply not_elem_of_nil].
Defined.

Lemma pick_loop_elem w pick acc cs a : pick_loop w pick acc cs = Some a -> a ∈ snd <$> cs.
Proof.
  revert acc. induction cs as [|c cs IH]; intros acc H; simpl in *; [done|].
  destruct (_ <? _); [simplify_eq; left|right; by eapply IH].
Qed.

(** Whatever the weights, a selected backend is a candidate. *)
Lemma select_backend_candidate parse_addr pools pool txn gen attempt tried health r :
  select_backend parse_addr pools pool txn gen attempt tried health = Some r ->
  r.1 = pool /\ (0 < attempt -> r.2 ∉ tried).
Proof.
  unfold select_backend. intros H. destruct (find_pool pools pool) as [p|]; [|done].
  destruct (pool_backends p); [done|].
  destruct (candidates parse_addr p attempt tried) as [|x xs] eqn:Ec; [done|].
  pose proof (choose_sub p (x :: xs) health) as Hsub.
  destruct (choose p (x :: xs) health) as [chosen ul]. simpl in Hsub.
  destruct (_ =? 0); [done|].
  assert (Ha : forall a, a ∈ snd <$> chosen -> 0 < attempt -> a ∉ tried).
  { intros a (c & -> & Hc)%list_elem_of_fmap. apply Hsub in Hc. rewrite <- Ec in Hc.
    destruct c as [bb addr]. by apply elem_of_candidates in Hc as (_ & _ & ?). }
  destruct (pick_loop _ _ _ _) as [a|] eqn:El.
  - simplify_eq/=. split; [done|]. apply Ha. by eapply pick_loop_elem.
  - destruct (last chosen) as [c|] eqn:Ew; [|done]. simplify_eq/=. split; [done|]. apply Ha.
    apply last_Some_elem_of in Ew. by apply list_elem_of_fmap_2.
Qed.

(** No pool and backend pair is attempted twice. *)
Definition attempts_distinct (t : Transaction) : Prop :=
  NoDup ((fun a => (ar_pool a, ar_backend a)) <$> attempts t).

Lemma elem_of_tried attempts pool addr :
  addr ∈ tried_backends_in_pool attempts pool <->
  (pool, addr) ∈ (fun a => (ar_pool a, ar_backend a)) <$> attempts.
Proof.
  unfold tried_backends_in_pool. rewrite !list_elem_of_fmap.
  setoid_rewrite list_elem_of_In. setoid_rewrite filter_In. setoid_rewrite String.eqb_eq.
  split; [intros (a & -> & Hin & <-)|intros (a & [= -> ->] & Hin)]; eauto.
Qed.

Lemma route_pool_fields pools t :
  let t' := (route_pool pools t).2 in
  attempts t' = attempts t /\ attempt_count t' = attempt_count t /\ id t' = id t.
Proof. unfold route_pool. by destruct (0 <? attempt_count t). Qed.

(** The Route stage either records one more attempt, numbered next, on a
    backend this transaction has not tried in that pool, and goes on to
    Forward; or it records nothing, sets SERVFAIL and goes to Send. Attempts
    stay numbered and distinct. *)
Theorem route_never_repeats parse_addr show_addr pools compiled gen registry t :
  attempts_wf t -> attempt_count t < u32_max -> attempts_distinct t ->
  let '(o, t') := route_stage parse_addr show_addr pools compiled gen registry t in
  attempts_wf t' /\ attempts_distinct t'
  /\ ((o = Continue Forward /\ attempt_count t' = attempt_count t + 1
       /\ exists a, attempts t' = attempts t ++ [a]
            /\ selected_pool t' = Some (ar_pool a) /\ selected_backend t' = Some (ar_backend a))
      \/ (o = Continue Send /\ attempts t' = attempts t /\ rcode t' = Some 2)).
Proof.
  intros Hwf Hlt Hd. unfold route_stage.
  destruct (route_pool pools t) as [pool t1] eqn:Er.
  pose proof (route_pool_fields pools t) as (Ha & Hc & _). rewrite Er in Ha, Hc. simpl in Ha, Hc.
  assert (Hwf1 : attempts_wf t1) by (unfold attempts_wf; by rewrite Ha, Hc).
  assert (Hd1 : attempts_distinct t1) by (unfold attempts_distinct; by rewrite Ha).
  assert (Hserv : rcode (set_rcode_name t1 "SERVFAIL") = Some 2) by (vm_compute; reflexivity).
  destruct pool as [pool|]; [|split_and!; [done..|right; done]].
  destruct (select_backend _ _ _ _ _ _ _ _) as [[pool' backend]|] eqn:Es;
    [|split_and!; [done..|right; done]].
  apply select_backend_candidate in Es as [Hpool Hnt]. simpl in *. subst pool'.
  rewrite <- Hc in Hlt. split_and!.
  - by apply record_attempt_wf.
  - unfold attempts_distinct. simpl. unfold push. rewrite fmap_app. apply NoDup_app.
    split_and!; [done| |apply NoDup_singleton]. intros x Hx Hx'.
    apply list_elem_of_singleton in Hx' as ->. simpl in Hx. apply elem_of_tried in Hx.
    destruct (decide (0 < attempt_count t1)) as [Hpos|Hneg]; [by apply Hnt|].
    destruct Hwf1 as [Hz _]. destruct (attempts t1) as [|a l]; [by apply elem_of_nil in Hx|].
    unfold zlen in Hz. simpl in Hz. lia.
  - left. split; [done|]. split.
    + simpl. rewrite wrap_small; [lia|]. destruct Hwf1 as [Hz _].
      pose proof (zlen_nonneg (attempts t1)). unfold fits, u32_max in *. lia.
    + eexists. split; [simpl; unfold push; by rewrite Ha|done].
Qed.

Lemma route_never_repeats_witness :
  let t := record_attempt (Transaction_new 1 (SockV4 0 53) Udp (Build_Clock 0 0))
             "default" (SockV4 167772161 53) "b1" in
  let '(o, t') := route_stage sample_parse (fun _ => EmptyString) sample_pools ∅ 1 None t in
  attempts_wf t' /\ attempts_distinct t'
  /\ ((o = Continue Forward /\ attempt_count t' = 1 + 1
       /\ exists a, attempts t' = attempts t ++ [a]
            /\ selected_pool t' = Some (ar_pool a) /\ selected_backend t' = Some (ar_backend a))
      \/ (o = Continue Send /\ attempts t' = attempts t /\ rcode t' = Some 2)).
Proof.
  apply (route_never_repeats sample_parse (fun _ => EmptyString) sample_pools ∅ 1 None
    (record_attempt (Transaction_new 1 (SockV4 0 53) Udp (Build_Clock 0 0))
       "default" (SockV4 167772161 53) "b1")).
  - apply record_attempt_wf; [apply attempts_wf_new|vm_compute; reflexivity].
  - vm_compute. reflexivity.
  - apply NoDup_singleton.
Defined.

(** The weights exported for a pool are those selection uses: on a first
    attempt a backend selection can draw has its selection weight, and a
    backend it cannot draw has weight zero. *)
Theorem scrape_weights_agree parse_addr p cfg tbl c :
  let view := Some {| hvw_config := cfg; hvw_table := tbl |} in
  let cs := candidates parse_addr p 0 [] in
  NoDup (snd <$> cs) -> c ∈ cs ->
  (c ∈ selectable parse_addr p 0 [] view ->
     effective_weights_for_scrape parse_addr p cfg tbl !! c.2
     = Some (selection_weight parse_addr p 0 [] view c))
  /\ (c ∉ selectable parse_addr p 0 [] view ->
     effective_weights_for_scrape parse_addr p cfg tbl !! c.2 = Some 0).
Proof.
  intros view cs Hnd Hc. unfold effective_weights_for_scrape, selectable, selection_weight, view.
  fold cs. cbv zeta. simpl choose.
  pose proof (foldl_insert_lookup (snd (A := Backend)) (fun c : Candidate =>
    if fail_open p cfg (eligible_of tbl (pool_name p) cs) then resolve_backend_weight c.1
    else if negb (backend_eligible tbl (pool_name p) c.2) then 0
    else if negb (fail_open p cfg (eligible_of tbl (pool_name p) cs)) && cp_latency_weighting cfg then
      match tbl !! {| bk_pool := pool_name p; bk_address := c.2 |} with
      | Some s => effective_weight (resolve_backend_weight c.1) (weight_factor s)
      | None => resolve_backend_weight c.1
      end
    else resolve_backend_weight c.1) cs ∅ c.2 Hnd) as H. cbv beta in H.
  rewrite (find_NoDup snd cs c Hnd Hc) in H.
  destruct (fail_open p cfg (eligible_of tbl (pool_name p) cs)); simpl in *.
  - split; [by intros _; rewrite H|done].
  - rewrite H. unfold eligible_of. rewrite list_elem_of_In, filter_In, <- list_elem_of_In.
    destruct (backend_eligible tbl (pool_name p) c.2); simpl; split; naive_solver.
Qed.

Lemma scrape_weights_agree_witness :
  effective_weights_for_scrape sample_parse sample_p sample_pool ∅ !! SockV4 167772161 53 = Some 3.
Proof.
  apply (proj1 (scrape_weights_agree sample_parse sample_p sample_pool ∅
    (sample_b1, SockV4 167772161 53) ltac:(vm_compute; repeat constructor; set_solver)
    ltac:(vm_compute; left))).
  vm_compute. left.
Defined.
