(* ===== verification/CacheStore.v ===== *)
(** * CacheStore: the in-memory answer cache

    src/crates/conduit-core/src/lookup/cache/entry.rs and memory.rs: entries with
    their expiry, and the sharded store with insertion, eviction and reaping.
    Two things of the standard library are quantified over: the hash that picks
    a shard, and the iteration order of a [HashMap], known only to visit every
    entry once ([iter_perm]).

    The store refines a map that never forgets: what a lookup returns is what
    was last inserted under that key; and it keeps to its capacity. *)

From S2P Require Import Prelude.

Inductive EntryKind := Positive | NxDomain | NoData | ServFail.

#[global] Instance EntryKind_eq_dec : EqDecision EntryKind.
Proof. solve_decision. Defined.

Definition kind_from_rcode (rcode answer_count : Z) : EntryKind :=
  if rcode =? 0 then if answer_count =? 0 then NoData else Positive
  else if rcode =? 3 then NxDomain
  else if rcode =? 2 then ServFail
  else Positive.

(** Instants are nanoseconds. *)
Record CacheEntry := { ce_kind : EntryKind; ce_wire : list Z; ce_filled_at : Z; ce_expires_at : Z }.

Definition is_fresh (e : CacheEntry) (now : Z) : bool := now <? ce_expires_at e.

Definition NANOS : Z := 1000000000.
Definition as_secs (ns : Z) : Z := ns / NANOS.

Definition ttl_remaining_secs (e : CacheEntry) (now : Z) : Z :=
  if ce_expires_at e <=? now then 0 else Z.min (as_secs (ce_expires_at e - now)) u32_max.

Definition expires_at_from_ttl (now ttl_secs : Z) : Z := now + ttl_secs * NANOS.

(** A [CacheKey] is its bytes. *)
Abbreviation CacheKey := (list Z).
Abbreviation Shard := (gmap CacheKey CacheEntry).

Record MemoryCacheBackend := MkBackend {
  shard_count : nat;
  max_entries : Z;
  live_entries : Z;
  shards : list Shard;
}.

Ltac backend_setter := setter MkBackend (shard_count, max_entries, live_entries, shards).
#[export] Instance set_max_field : Setter max_entries := ltac:(backend_setter).
#[export] Instance set_live : Setter live_entries := ltac:(backend_setter).
#[export] Instance set_shards : Setter shards := ltac:(backend_setter).

Inductive CacheGetResult := GetHit | GetMiss | GetExpired.

Record InsertOutcome := { io_stored : bool; io_evictions : Z }.

Definition memory_from_config (shards_cfg max_cfg : Z) : MemoryCacheBackend :=
  let n := Z.to_nat (Z.max shards_cfg 1) in
  {| shard_count := n; max_entries := max_cfg; live_entries := 0; shards := replicate n ∅ |}.

Section Store.
Context (hash : CacheKey -> Z).
Context (iter : Shard -> list (CacheKey * CacheEntry)).

Definition shard_index (b : MemoryCacheBackend) (key : CacheKey) : nat :=
  Z.to_nat (wrap 64 (hash key) mod Z.of_nat (shard_count b)).

(** [self.shards[i]]: the index is in range in every well-formed backend. *)
Definition shard_at (b : MemoryCacheBackend) (i : nat) : Shard := default ∅ (shards b !! i).

Definition put_shard (b : MemoryCacheBackend) (i : nat) (s : Shard) : MemoryCacheBackend :=
  b <| shards := <[i := s]> (shards b) |>.

(** [live_entries.fetch_sub(n)] and [fetch_add(n)] wrap. *)
Definition live_sub (b : MemoryCacheBackend) (n : Z) : MemoryCacheBackend :=
  b <| live_entries := wrap 64 (live_entries b - n) |>.
Definition live_add (b : MemoryCacheBackend) (n : Z) : MemoryCacheBackend :=
  b <| live_entries := wrap 64 (live_entries b + n) |>.

Definition cache_get (b : MemoryCacheBackend) (key : CacheKey) (now : Z) : option CacheEntry :=
  let! e := shard_at b (shard_index b key) !! key in
  if is_fresh e now then Some e else None.

Definition get_result (b : MemoryCacheBackend) (key : CacheKey) (now : Z) : CacheGetResult :=
  match shard_at b (shard_index b key) !! key with
  | None => GetMiss
  | Some e => if is_fresh e now then GetHit else GetMiss
  end.

(** The stale entry the iterator meets first, or else its first entry. *)
Definition evict_one_in_shard (s : Shard) (now : Z) : option Shard :=
  match List.find (fun kv => negb (is_fresh kv.2 now)) (iter s) with
  | Some kv => Some (delete kv.1 s)
  | None =>
      match iter s with
      | kv :: _ => Some (delete kv.1 s)
      | [] => None
      end
  end.

(** Evict from the shards listed, in order. *)
Fixpoint evict_from (b : MemoryCacheBackend) (order : list nat) (now : Z)
    : option MemoryCacheBackend :=
  match order with
  | [] => None
  | i :: rest =>
      match evict_one_in_shard (shard_at b i) now with
      | Some s => Some (live_sub (put_shard b i s) 1)
      | None => evict_from b rest now
      end
  end.

Definition evict_one (b : MemoryCacheBackend) (now : Z) : option MemoryCacheBackend :=
  evict_from b (seq 0 (length (shards b))) now.

Definition evict_one_excluding (b : MemoryCacheBackend) (exclude : nat) (now : Z)
    : option MemoryCacheBackend :=
  evict_from b
    (List.filter (fun i => negb (Nat.eqb i exclude)) (seq 0 (length (shards b))) ++ [exclude]) now.

(** [while live > max { if !evict_one { break } }] *)
Fixpoint trim_loop (fuel : nat) (b : MemoryCacheBackend) (now evictions : Z)
    : option (Z * MemoryCacheBackend) :=
  match fuel with
  | O => None
  | S fuel =>
      if max_entries b <? live_entries b then
        match evict_one b now with
        | Some b' => trim_loop fuel b' now (evictions + 1)
        | None => Some (evictions, b)
        end
      else Some (evictions, b)
  end.

Definition trim_to_max (fuel : nat) (b : MemoryCacheBackend) (now : Z)
    : option MemoryCacheBackend :=
  if max_entries b =? 0 then Some b
  else snd <$> trim_loop fuel b now 0.

Definition set_max_entries (fuel : nat) (b : MemoryCacheBackend) (max now : Z)
    : option MemoryCacheBackend :=
  let prev := max_entries b in
  let b := b <| max_entries := max |> in
  if (0 <? max) && ((max <? prev) || (prev =? 0)) && (max <? live_entries b)
  then trim_to_max fuel b now else Some b.

Definition retain_fresh (s : Shard) (now : Z) : Shard := filter (fun kv => is_fresh kv.2 now = true) s.

(** The end of [insert]: put the entry and trim an overshoot. *)
Definition insert_store (fuel : nat) (b : MemoryCacheBackend) (idx : nat) (key : CacheKey)
    (entry : CacheEntry) (now ev : Z) : option (InsertOutcome * MemoryCacheBackend) :=
  let b := live_add (put_shard b idx (<[key := entry]> (shard_at b idx))) 1 in
  if 0 <? max_entries b then
    (fun r => ({| io_stored := true; io_evictions := r.1 |}, r.2)) <$> trim_loop fuel b now ev
  else Some ({| io_stored := true; io_evictions := ev |}, b).

(** [retain] on the key's shard, and the counter. *)
Definition insert_purge (b : MemoryCacheBackend) (idx : nat) (now : Z) : MemoryCacheBackend :=
  let s := retain_fresh (shard_at b idx) now in
  live_sub (put_shard b idx s) (Z.of_nat (size (shard_at b idx)) - Z.of_nat (size s)).

(** The loop of [insert]: one turn holds the write lock of the key's shard.
    [None] is running out of fuel. *)
Fixpoint insert_loop (fuel : nat) (b : MemoryCacheBackend) (key : CacheKey) (entry : CacheEntry)
    (now evictions : Z) : option (InsertOutcome * MemoryCacheBackend) :=
  match fuel with
  | O => None
  | S fuel' =>
      let idx := shard_index b key in
      let prior := (fun e => is_fresh e now) <$> shard_at b idx !! key in
      if bool_decide (prior = Some true) then
        Some ({| io_stored := true; io_evictions := evictions |},
              put_shard b idx (<[key := entry]> (shard_at b idx)))
      else
        let b := if bool_decide (prior = Some false)
                 then live_sub (put_shard b idx (delete key (shard_at b idx))) 1 else b in
        if 0 <? max_entries b then
          let b := insert_purge b idx now in
          if max_entries b <=? live_entries b then
            match evict_one_in_shard (shard_at b idx) now with
            | Some s =>
                insert_store fuel (live_sub (put_shard b idx s) 1) idx key entry now (evictions + 1)
            | None =>
                match evict_one_excluding b idx now with
                | None => insert_loop fuel' b key entry now evictions
                | Some b => insert_loop fuel' b key entry now (evictions + 1)
                end
            end
          else insert_store fuel b idx key entry now evictions
        else insert_store fuel b idx key entry now evictions
  end.

Definition cache_insert (fuel : nat) (b : MemoryCacheBackend) (key : CacheKey)
    (entry : CacheEntry) (now : Z) : option (InsertOutcome * MemoryCacheBackend) :=
  insert_loop fuel b key entry now 0.

Definition cache_remove (b : MemoryCacheBackend) (key : CacheKey) : bool * MemoryCacheBackend :=
  let idx := shard_index b key in
  match shard_at b idx !! key with
  | Some _ => (true, live_sub (put_shard b idx (delete key (shard_at b idx))) 1)
  | None => (false, b)
  end.

Record ReapBudget := { max_lock_hold : Z; max_keys_per_lock : nat }.

(** The scan of one shard: the keys to remove and whether it got to the end.
    [tick i] is the clock read before the [i]-th entry. *)
Fixpoint reap_scan (es : list (CacheKey * CacheEntry)) (examined : nat) (now deadline : Z)
    (budget : ReapBudget) (tick : nat -> Z) (to_remove : list CacheKey)
    : list CacheKey * bool :=
  match es with
  | [] => (to_remove, true)
  | (key, entry) :: rest =>
      if (Nat.eqb (Nat.land examined 63) 0) && (deadline <=? tick examined)
      then (to_remove, false)
      else if negb (is_fresh entry now) then
        let to_remove := push to_remove key in
        if (max_keys_per_lock budget <=? length to_remove)%nat then (to_remove, false)
        else reap_scan rest (S examined) now deadline budget tick to_remove
      else reap_scan rest (S examined) now deadline budget tick to_remove
  end.

(** [start] is the clock when the shard is taken, [tick] as above. *)
Definition reap_shard_budgeted (b : MemoryCacheBackend) (i : nat) (now : Z) (budget : ReapBudget)
    (start : Z) (tick : nat -> Z) : Z * bool * MemoryCacheBackend :=
  let s := shard_at b i in
  let '(to_remove, finished) := reap_scan (iter s) 0 now (start + max_lock_hold budget) budget tick [] in
  let removed := zlen to_remove in
  let b := put_shard b i (foldl (fun s key => delete key s) s to_remove) in
  (removed, finished, if 0 <? removed then live_sub b removed else b).

(** Result of a pass: [removed], [incomplete], the new cursor, the backend. *)
Fixpoint reap_loop (b : MemoryCacheBackend) (start : nat) (offsets : list nat) (now : Z)
    (budget : ReapBudget) (clock : nat -> Z) (tick : nat -> nat -> Z) (removed : Z) (cursor : nat)
    : Z * bool * nat * MemoryCacheBackend :=
  match offsets with
  | [] => (removed, false, cursor, b)
  | offset :: rest =>
      let n := shard_count b in
      let idx := ((start + offset) mod n)%nat in
      let '(shard_removed, finished, b) := reap_shard_budgeted b idx now budget (clock idx) (tick idx) in
      let removed := removed + shard_removed in
      if finished
      then reap_loop b start rest now budget clock tick removed ((idx + 1) mod n)%nat
      else (removed, true, idx, b)
  end.

Definition reap_expired_budgeted (b : MemoryCacheBackend) (now : Z) (budget : ReapBudget)
    (clock : nat -> Z) (tick : nat -> nat -> Z) (cursor : nat) : Z * bool * nat * MemoryCacheBackend :=
  if (shard_count b =? 0)%nat then (0, false, cursor, b)
  else reap_loop b (cursor mod shard_count b)%nat (seq 0 (shard_count b)) now budget clock tick 0 cursor.
End Store.

(** ** The invariant *)

Definition total (ss : list Shard) : nat := sum_list_with size ss.

Section Facts.
Context (hash : CacheKey -> Z).
Context (iter : Shard -> list (CacheKey * CacheEntry)).
Context (iter_perm : forall s, iter s ≡ₚ map_to_list s).

#[local] Abbreviation shard_index := (shard_index hash).

(** What the store holds for a key, fresh or not. *)
Definition stored (b : MemoryCacheBackend) (key : CacheKey) : option CacheEntry :=
  shard_at b (shard_index b key) !! key.

Record wf (b : MemoryCacheBackend) : Prop := {
  wf_len : length (shards b) = shard_count b;
  wf_pos : (0 < shard_count b)%nat;
  wf_live : live_entries b = Z.of_nat (total (shards b));
  wf_fits : live_entries b <= u64_max;
  wf_home : forall i k e, shard_at b i !! k = Some e -> shard_index b k = i;
}.

Definition within_cap (b : MemoryCacheBackend) : Prop :=
  max_entries b = 0 \/ live_entries b <= max_entries b.

(** [b'] has the shape of [b] and nothing stored that [b] had not. *)
Definition shrinks (b b' : MemoryCacheBackend) : Prop :=
  shard_count b' = shard_count b /\ max_entries b' = max_entries b /\
  forall k e, stored b' k = Some e -> stored b k = Some e.

Lemma shrinks_refl b : shrinks b b.
Proof. by repeat split. Qed.

Lemma shrinks_trans b1 b2 b3 : shrinks b1 b2 -> shrinks b2 b3 -> shrinks b1 b3.
Proof. intros (?&?&?) (?&?&?). repeat split; [congruence..|eauto]. Qed.

Lemma shard_index_lt b k : (0 < shard_count b)%nat -> (shard_index b k < shard_count b)%nat.
Proof.
  intros H. unfold CacheStore.shard_index.
  pose proof (Z.mod_pos_bound (wrap 64 (hash k)) (Z.of_nat (shard_count b))). lia.
Qed.

Lemma total_insert ss i s s' :
  ss !! i = Some s -> (total (<[i := s']> ss) + size s = total ss + size s')%nat.
Proof.
  revert i. induction ss as [|a ss IH]; intros [|i] H; simplify_eq/=; [lia|].
  specialize (IH _ H). lia.
Qed.

Lemma total_lookup ss i s : ss !! i = Some s -> (size s <= total ss)%nat.
Proof. revert i. induction ss as [|a ss IH]; intros [|i] H; simplify_eq/=; [lia|]. specialize (IH _ H). lia. Qed.

Lemma total_zero ss : (forall i s, ss !! i = Some s -> s = ∅) -> total ss = 0%nat.
Proof.
  induction ss as [|a ss IH]; intros H; [done|].
  change (size a + total ss = 0)%nat. rewrite (H 0%nat a) by done. apply IH. intros i s Hs. by apply (H (S i)).
Qed.

Lemma shard_at_Some b i : wf b -> (i < shard_count b)%nat -> shards b !! i = Some (shard_at b i).
Proof.
  intros Hwf Hi. rewrite <- (wf_len _ Hwf) in Hi. unfold shard_at.
  destruct (lookup_lt_is_Some_2 _ _ Hi) as [s ->]. done.
Qed.

Lemma shard_at_put b i j s : wf b -> (i < shard_count b)%nat ->
  shard_at (put_shard b i s) j = if decide (i = j) then s else shard_at b j.
Proof.
  intros Hwf Hi. unfold shard_at, put_shard, set, set_shards. simpl.
  destruct (decide (i = j)) as [->|Hne].
  - rewrite list_lookup_insert_eq; [done|]. by rewrite (wf_len _ Hwf).
  - by rewrite list_lookup_insert_ne.
Qed.

Lemma shard_at_live b n i : shard_at (b <| live_entries := n |>) i = shard_at b i.
Proof. done. Qed.

Lemma size_le_live b i : wf b -> (i < shard_count b)%nat ->
  Z.of_nat (size (shard_at b i)) <= live_entries b.
Proof.
  intros Hwf Hi. rewrite (wf_live _ Hwf).
  pose proof (total_lookup _ _ _ (shard_at_Some _ _ Hwf Hi)). lia.
Qed.

(** Replacing a shard by [s'] and setting the counter to match keeps the
    invariant, provided the keys of [s'] are at home there. *)
Lemma put_wf b i s' n :
  wf b -> (i < shard_count b)%nat ->
  (forall k e, s' !! k = Some e -> shard_index b k = i) ->
  n = live_entries b - Z.of_nat (size (shard_at b i)) + Z.of_nat (size s') ->
  n <= u64_max ->
  wf ((put_shard b i s') <| live_entries := n |>).
Proof.
  intros Hwf Hi Hhome -> Hn. pose proof (shard_at_Some _ _ Hwf Hi) as Hs.
  split; simpl.
  - rewrite length_insert. apply Hwf.
  - apply Hwf.
  - rewrite (wf_live _ Hwf). pose proof (total_insert _ _ _ s' Hs). lia.
  - done.
  - intros j k e. rewrite shard_at_live, shard_at_put by done.
    case_decide; subst; [by apply Hhome|by apply Hwf].
Qed.

Lemma stored_put b i s' n k : wf b -> (i < shard_count b)%nat ->
  stored ((put_shard b i s') <| live_entries := n |>) k =
  if decide (i = shard_index b k) then s' !! k else stored b k.
Proof.
  intros Hwf Hi. unfold stored. rewrite shard_at_live.
  change (shard_index _ k) with (shard_index b k) at 1. rewrite shard_at_put by done.
  by case_decide.
Qed.

Lemma live_sub_eq b n : 0 <= n <= live_entries b -> live_entries b <= u64_max ->
  live_sub b n = b <| live_entries := live_entries b - n |>.
Proof.
  intros ??. unfold live_sub. f_equal. rewrite wrap_small; [done|]. unfold fits, u64_max in *. lia.
Qed.

(** Shrinking one shard to a submap. *)
Lemma shrink_shard b i s' n :
  wf b -> (i < shard_count b)%nat -> s' ⊆ shard_at b i ->
  n = Z.of_nat (size (shard_at b i)) - Z.of_nat (size s') ->
  let b' := live_sub (put_shard b i s') n in
  wf b' /\ shrinks b b' /\ live_entries b' = live_entries b - n.
Proof.
  intros Hwf Hi Hsub -> b'.
  pose proof (map_subseteq_size _ _ Hsub). pose proof (size_le_live _ _ Hwf Hi).
  pose proof (wf_fits _ Hwf).
  assert (b' = (put_shard b i s') <| live_entries := live_entries b -
    (Z.of_nat (size (shard_at b i)) - Z.of_nat (size s')) |>) as ->.
  { unfold b'. rewrite live_sub_eq; [done| |done]. cbn. lia. }
  split; [apply put_wf; try done; try lia|split; [split_and!; try done|done]].
  - intros k e Hk. apply (wf_home _ Hwf _ _ e). by eapply lookup_weaken.
  - intros k e. rewrite stored_put by done. case_decide as Heq; [|done]. unfold stored. rewrite <- Heq.
    intros Hk. by eapply lookup_weaken.
Qed.

Lemma iter_In s k e : In (k, e) (iter s) -> s !! k = Some e.
Proof.
  intros H. apply elem_of_map_to_list. rewrite <- (iter_perm s). by apply list_elem_of_In.
Qed.

Lemma iter_nil s : iter s = [] -> s = ∅.
Proof. intros H. apply map_to_list_empty_iff. pose proof (iter_perm s) as Hp. rewrite H in Hp. by apply Permutation_nil in Hp. Qed.

Lemma delete_sub (s : Shard) k e : s !! k = Some e ->
  delete k s ⊆ s /\ Z.of_nat (size s) - Z.of_nat (size (delete k s)) = 1.
Proof.
  intros H. split; [apply delete_subseteq|].
  rewrite map_size_delete_Some by eauto.
  assert (size s <> 0%nat). { intros Hz%map_size_empty_inv. subst. by rewrite lookup_empty in H. }
  lia.
Qed.

Lemma evict_one_in_shard_spec s now :
  match evict_one_in_shard iter s now with
  | Some s' => exists k e, s !! k = Some e /\ s' = delete k s
  | None => s = ∅
  end.
Proof.
  unfold evict_one_in_shard. destruct (List.find _ _) as [[k e]|] eqn:Hf.
  - apply find_some in Hf as [Hin _]. exists k, e. by split; [apply iter_In|].
  - destruct (iter s) as [|[k e] l] eqn:Hi; [by apply iter_nil|].
    exists k, e. split; [|done]. apply iter_In. rewrite Hi. by left.
Qed.

Lemma evict_from_spec b order now :
  wf b -> (forall i, In i order -> (i < shard_count b)%nat) ->
  match evict_from iter b order now with
  | Some b' => wf b' /\ shrinks b b' /\ live_entries b' = live_entries b - 1
  | None => forall i, In i order -> shard_at b i = ∅
  end.
Proof.
  intros Hwf. induction order as [|i rest IH]; intros Hin; simpl; [done|].
  pose proof (evict_one_in_shard_spec (shard_at b i) now) as He.
  destruct (evict_one_in_shard iter (shard_at b i) now) as [s'|].
  - destruct He as (k & e & Hk & ->). destruct (delete_sub _ _ _ Hk).
    apply (shrink_shard b i (delete k (shard_at b i)) 1); auto using in_eq.
  - specialize (IH (fun j Hj => Hin j (or_intror Hj))).
    destruct (evict_from iter b rest now); [done|]. intros j [<-|Hj]; [done|by apply IH].
Qed.

Lemma evict_one_spec b now : wf b ->
  match evict_one iter b now with
  | Some b' => wf b' /\ shrinks b b' /\ live_entries b' = live_entries b - 1
  | None => live_entries b = 0
  end.
Proof.
  intros Hwf. unfold evict_one. rewrite (wf_len _ Hwf).
  assert (forall i, In i (seq 0 (shard_count b)) <-> (i < shard_count b)%nat) as Hin
    by (intros i; rewrite in_seq; lia).
  pose proof (evict_from_spec b (seq 0 (shard_count b)) now Hwf (fun i => proj1 (Hin i))) as H.
  destruct (evict_from _ _ _ _); [done|]. rewrite (wf_live _ Hwf), total_zero; [done|].
  intros i s Hs. assert (i < shard_count b)%nat as Hi
    by (rewrite <- (wf_len _ Hwf); by eapply lookup_lt_Some).
  rewrite shard_at_Some in Hs by done. simplify_eq. by apply H, Hin.
Qed.

Lemma evict_one_excluding_spec b i now : wf b -> (i < shard_count b)%nat ->
  match evict_one_excluding iter b i now with
  | Some b' => wf b' /\ shrinks b b' /\ live_entries b' = live_entries b - 1
  | None => live_entries b = 0
  end.
Proof.
  intros Hwf Hi. unfold evict_one_excluding. rewrite (wf_len _ Hwf).
  set (order := _ ++ _).
  assert (forall j, In j order <-> (j < shard_count b)%nat) as Hin.
  { intros j. unfold order. rewrite in_app_iff, filter_In, in_seq, negb_true_iff, Nat.eqb_neq.
    simpl. destruct (decide (j = i)); naive_solver lia. }
  pose proof (evict_from_spec b order now Hwf (fun i => proj1 (Hin i))) as H.
  destruct (evict_from _ _ _ _); [done|]. rewrite (wf_live _ Hwf), total_zero; [done|].
  intros j s Hs. assert (j < shard_count b)%nat as Hj
    by (rewrite <- (wf_len _ Hwf); by eapply lookup_lt_Some).
  rewrite shard_at_Some in Hs by done. simplify_eq. by apply H, Hin.
Qed.

(** Trimming ends below the cap after exactly as many evictions as needed. *)
Lemma trim_loop_spec fuel b now ev :
  wf b -> 0 <= max_entries b -> Z.max 0 (live_entries b - max_entries b) < Z.of_nat fuel ->
  exists b', trim_loop iter fuel b now ev =
      Some (ev + Z.max 0 (live_entries b - max_entries b), b') /\
    wf b' /\ shrinks b b' /\ live_entries b' = Z.min (live_entries b) (max_entries b).
Proof.
  revert b ev. induction fuel as [|fuel IH]; intros b ev Hwf Hmax Hfuel; simpl.
  - lia.
  - destruct (Z.ltb_spec (max_entries b) (live_entries b)).
    + pose proof (evict_one_spec b now Hwf) as He. destruct (evict_one _ _ _) as [b1|]; [|lia].
      destruct He as (Hwf1 & Hs1 & Hl). pose proof Hs1 as (_ & Hm & _).
      destruct (IH b1 (ev + 1)) as (b2 & -> & Hwf2 & Hs2 & Hl2); [done|lia..|].
      exists b2. split_and!; [do 2 f_equal; lia|done|by eapply shrinks_trans|lia].
    + exists b. split_and!; [do 2 f_equal; lia|done|apply shrinks_refl|lia].
Qed.

Lemma trim_loop_noop fuel b now ev : (0 < fuel)%nat ->
  live_entries b <= max_entries b -> trim_loop iter fuel b now ev = Some (ev, b).
Proof. intros Hf Hl. destruct fuel; [lia|]. simpl. by rewrite (proj2 (Z.ltb_ge _ _)). Qed.

(** Nothing of [b] but the entry of [key] is lost while it is fresh. *)
Definition keeps_fresh (b b' : MemoryCacheBackend) (key : CacheKey) (now : Z) : Prop :=
  forall k e, k <> key -> stored b k = Some e -> is_fresh e now = true -> stored b' k = Some e.

Lemma keeps_fresh_trans b1 b2 b3 key now :
  keeps_fresh b1 b2 key now -> keeps_fresh b2 b3 key now -> keeps_fresh b1 b3 key now.
Proof. unfold keeps_fresh. eauto. Qed.

(** Storing under a key the shard does not have, below the cap. *)
Lemma insert_store_spec fuel b key entry now ev :
  wf b -> (0 < fuel)%nat -> stored b key = None ->
  live_entries b < u64_max ->
  (0 < max_entries b -> live_entries b < max_entries b) -> 0 <= max_entries b ->
  exists b', insert_store iter fuel b (shard_index b key) key entry now ev =
      Some ({| io_stored := true; io_evictions := ev |}, b') /\
    wf b' /\ within_cap b' /\ max_entries b' = max_entries b /\
    live_entries b' = live_entries b + 1 /\
    (forall k, stored b' k = if decide (k = key) then Some entry else stored b k).
Proof.
  intros Hwf Hf Hnone Hfits Hcap Hmax. unfold insert_store.
  set (i := shard_index b key) in *. assert (i < shard_count b)%nat as Hi
    by apply shard_index_lt, Hwf.
  set (b' := (put_shard b i (<[key := entry]> (shard_at b i)))
    <| live_entries := live_entries b + 1 |>).
  assert (live_add (put_shard b i (<[key := entry]> (shard_at b i))) 1 = b') as ->.
  { unfold live_add, b'. cbn. f_equal. apply wrap_small.
    pose proof (wf_live _ Hwf). unfold fits, u64_max in *. lia. }
  assert (wf b').
  { apply put_wf; try done; try lia.
    - intros k e. destruct (decide (k = key)) as [->|]; [done|].
      rewrite lookup_insert_ne by done. by apply Hwf.
    - rewrite map_size_insert_None by done. lia. }
  exists b'. split_and!; try done.
  - change (max_entries b') with (max_entries b). case_match eqn:Hm; [|done].
    rewrite trim_loop_noop; [done|done|]. cbn. lia.
  - unfold within_cap. cbn. lia.
  - intros k. unfold b'. rewrite stored_put by done. case_decide as Hk; case_decide; subst.
    + by rewrite lookup_insert_eq.
    + rewrite lookup_insert_ne by done. unfold stored. by rewrite <- Hk.
    + done.
    + done.
Qed.

Lemma retain_fresh_sub s now : retain_fresh s now ⊆ s.
Proof. apply map_filter_subseteq. Qed.

Lemma insert_purge_spec b i now key : wf b -> (i < shard_count b)%nat ->
  let b' := insert_purge b i now in
  wf b' /\ shrinks b b' /\ live_entries b' <= live_entries b /\ keeps_fresh b b' key now.
Proof.
  intros Hwf Hi b'. pose proof (retain_fresh_sub (shard_at b i) now) as Hsub.
  destruct (shrink_shard b i _ _ Hwf Hi Hsub eq_refl) as (H1 & H2 & H3).
  pose proof (map_subseteq_size _ _ Hsub). split_and!; [done|done|unfold b', insert_purge; lia|].
  intros k e _ Hk Hfr. unfold b', insert_purge, live_sub. rewrite stored_put by done.
  case_decide as Heq; [|done]. subst i. apply map_lookup_filter_Some. by split.
Qed.

Lemma remove_spec b key e : wf b -> stored b key = Some e ->
  let b' := live_sub (put_shard b (shard_index b key)
                        (delete key (shard_at b (shard_index b key)))) 1 in
  wf b' /\ shrinks b b' /\ live_entries b' = live_entries b - 1 /\ stored b' key = None /\
  forall k, k <> key -> stored b' k = stored b k.
Proof.
  intros Hwf He b'. assert (shard_index b key < shard_count b)%nat as Hi
    by apply shard_index_lt, Hwf.
  destruct (delete_sub _ _ _ He) as [Hsub Hsz].
  destruct (shrink_shard b _ _ 1 Hwf Hi Hsub) as (H1 & H2 & H3); [done|].
  split_and!; try done; unfold b', live_sub.
  - rewrite stored_put, decide_True by done. apply lookup_delete_eq.
  - intros k Hk. rewrite stored_put by done. case_decide as Heq; [|done].
    rewrite lookup_delete_ne by done. unfold stored. by rewrite <- Heq.
Qed.

(** The result of an insertion that made [n] evictions. *)
Record inserted (b : MemoryCacheBackend) (key : CacheKey) (entry : CacheEntry) (now n : Z)
    (b' : MemoryCacheBackend) : Prop := {
  ins_wf : wf b';
  ins_cap : within_cap b';
  ins_max : max_entries b' = max_entries b;
  ins_live : live_entries b' <= live_entries b + 1;
  ins_key : stored b' key = Some entry;
  ins_others : forall k e, k <> key -> stored b' k = Some e -> stored b k = Some e;
  ins_fresh : n = 0 -> keeps_fresh b b' key now;
}.

Lemma insert_replaces b key entry now :
  wf b -> within_cap b -> is_Some (stored b key) ->
  inserted b key entry now 0
    (put_shard b (shard_index b key) (<[key := entry]> (shard_at b (shard_index b key)))).
Proof.
  intros Hwf Hcap [e0 He0]. set (i := shard_index b key).
  assert (i < shard_count b)%nat as Hi by apply shard_index_lt, Hwf.
  set (b' := put_shard b i (<[key := entry]> (shard_at b i))).
  assert (b' = b' <| live_entries := live_entries b |>) as -> by done.
  assert (forall k, stored (b' <| live_entries := live_entries b |>) k =
    if decide (k = key) then Some entry else stored b k) as Hst.
  { intros k. unfold b'. rewrite stored_put by done. case_decide as Hk; case_decide; subst; try done.
    - by rewrite lookup_insert_eq.
    - rewrite lookup_insert_ne by done. unfold stored. by rewrite <- Hk. }
  split; try done.
  - apply put_wf; try done; try apply (wf_fits _ Hwf).
    + intros k e. destruct (decide (k = key)) as [->|]; [done|].
      rewrite lookup_insert_ne by done. by apply Hwf.
    + rewrite map_size_insert_Some by eauto. lia.
  - cbn. lia.
  - by rewrite Hst, decide_True.
  - intros k e Hk. by rewrite Hst, decide_False.
  - intros _ k e Hk Hs _. by rewrite Hst, decide_False.
Qed.

(** The state after a stale prior entry is dropped. *)
Definition drop_stale (b : MemoryCacheBackend) (key : CacheKey) (now : Z) : MemoryCacheBackend :=
  if bool_decide ((fun e => is_fresh e now) <$> stored b key = Some false)
  then live_sub (put_shard b (shard_index b key) (delete key (shard_at b (shard_index b key)))) 1
  else b.

Lemma drop_stale_spec b key now :
  wf b -> (fun e => is_fresh e now) <$> stored b key <> Some true ->
  let b' := drop_stale b key now in
  wf b' /\ shrinks b b' /\ live_entries b' <= live_entries b /\ stored b' key = None /\
  keeps_fresh b b' key now.
Proof.
  intros Hwf Hp b'. unfold b', drop_stale.
  destruct (stored b key) as [e|] eqn:He; simpl in *.
  - destruct (is_fresh e now) eqn:Hf; [done|]. rewrite bool_decide_true by done.
    destruct (remove_spec b key e Hwf He) as (H1 & H2 & H3 & H4 & H5).
    split_and!; [done|done|lia|done|]. intros k e' Hk Hs _. by rewrite H5.
  - split_and!; try done; try lia; try apply shrinks_refl.
    by intros k e _ Hs _.
Qed.

(** The purge that precedes the capacity test, when there is a cap. *)
Definition purged (b : MemoryCacheBackend) (key : CacheKey) (now : Z) : MemoryCacheBackend :=
  if 0 <? max_entries b then insert_purge b (shard_index b key) now else b.

Lemma purged_spec b key now : wf b ->
  let b' := purged b key now in
  wf b' /\ shrinks b b' /\ live_entries b' <= live_entries b /\ keeps_fresh b b' key now.
Proof.
  intros Hwf b'. unfold b', purged. case_match.
  - apply insert_purge_spec; [done|]. apply shard_index_lt, Hwf.
  - split_and!; [done|apply shrinks_refl|lia|]. by intros k e _ Hs _.
Qed.

(** One turn of the loop, with its three ways on. *)
Lemma insert_loop_turn fuel b key entry now ev :
  wf b -> 0 <= max_entries b -> (fun e => is_fresh e now) <$> stored b key <> Some true ->
  let b1 := purged (drop_stale b key now) key now in
  insert_loop hash iter (S fuel) b key entry now ev =
  if (0 <? max_entries b) && (max_entries b <=? live_entries b1) then
    match evict_one_in_shard iter (shard_at b1 (shard_index b1 key)) now with
    | Some s =>
        insert_store iter (S fuel) (live_sub (put_shard b1 (shard_index b1 key) s) 1)
          (shard_index b1 key) key entry now (ev + 1)
    | None =>
        match evict_one_excluding iter b1 (shard_index b1 key) now with
        | None => insert_loop hash iter fuel b1 key entry now ev
        | Some b2 => insert_loop hash iter fuel b2 key entry now (ev + 1)
        end
    end
  else insert_store iter (S fuel) b1 (shard_index b1 key) key entry now ev.
Proof.
  intros Hwf Hmax Hp b1.
  destruct (drop_stale_spec b key now Hwf Hp) as (Hwf0 & (Hc0 & Hm0 & _) & _).
  destruct (purged_spec _ key now Hwf0) as (Hwf1 & (Hc1 & Hm1 & _) & _). fold b1 in Hwf1, Hc1, Hm1.
  cbn [insert_loop]. fold (stored b key). rewrite bool_decide_false by done.
  fold (drop_stale b key now).
  assert (forall c, shard_count c = shard_count b -> CacheStore.shard_index hash c key = shard_index b key)
    as Hidx by (intros c Hc; unfold CacheStore.shard_index; by rewrite Hc).
  rewrite (Hidx b1) by congruence. rewrite <- Hm0.
  unfold b1, purged in *. destruct (0 <? max_entries (drop_stale b key now)) eqn:H0; cbn [andb].
  - rewrite (Hidx (drop_stale b key now)) in * by done. by rewrite Hm1.
  - done.
Qed.

(** Storing into [b1], which came from [b] by dropping entries. *)
Lemma insert_store_inserted fuel b b1 key entry now n ev :
  wf b1 -> shrinks b b1 -> stored b1 key = None -> (0 < fuel)%nat ->
  live_entries b1 <= live_entries b -> live_entries b < u64_max -> 0 <= max_entries b ->
  (0 < max_entries b -> live_entries b1 < max_entries b) ->
  (n = 0 -> keeps_fresh b b1 key now) ->
  exists b', insert_store iter fuel b1 (shard_index b1 key) key entry now ev =
      Some ({| io_stored := true; io_evictions := ev |}, b') /\ inserted b key entry now n b'.
Proof.
  intros Hwf (Hc & Hm & Hs) Hnone Hf Hlive Hfits Hmax Hroom Hkeep.
  destruct (insert_store_spec fuel b1 key entry now ev) as (b' & Heq & H1 & H2 & H3 & H4 & H5);
    try done; try lia.
  exists b'. split; [done|]. split; try done; try congruence; try lia.
  - by rewrite H5, decide_True.
  - intros k e Hk. rewrite H5, decide_False by done. apply Hs.
  - intros Hn k e Hk Hst Hfr. rewrite H5, decide_False by done. by apply Hkeep.
Qed.

(** With room in the cache an insertion takes one turn and evicts nothing. *)
Lemma insert_room fuel b0 b key entry now n ev :
  wf b -> shrinks b0 b -> within_cap b -> (0 < fuel)%nat ->
  live_entries b <= live_entries b0 -> live_entries b0 < u64_max -> 0 <= max_entries b ->
  (0 < max_entries b -> live_entries b < max_entries b) ->
  (n = 0 -> keeps_fresh b0 b key now) -> stored b key = None ->
  exists b', insert_loop hash iter fuel b key entry now ev =
      Some ({| io_stored := true; io_evictions := ev |}, b') /\ inserted b0 key entry now n b'.
Proof.
  intros Hwf Hs Hcap Hf Hlive Hfits Hmax Hroom Hkeep Hnone. destruct fuel as [|fuel]; [lia|].
  assert ((fun e => is_fresh e now) <$> stored b key <> Some true) as Hp by by rewrite Hnone.
  rewrite insert_loop_turn by done.
  destruct (drop_stale_spec b key now Hwf Hp) as (Hwf0 & Hs0 & Hl0 & Hn0 & Hk0).
  destruct (purged_spec _ key now Hwf0) as (Hwf1 & Hs1 & Hl1 & Hk1).
  set (b1 := purged _ _ _) in *. assert (shrinks b0 b1) by eauto using shrinks_trans.
  destruct Hs as (_ & Hm & _).
  replace (_ && _) with false by (symmetry; apply andb_false_iff; lia).
  eapply insert_store_inserted; try done; try lia.
  - destruct (stored b1 key) eqn:He; [|done]. apply Hs1 in He. congruence.
  - intros ->. eauto using keeps_fresh_trans.
Qed.

(** The turn of a full cache: [b1] is [b] without its stale entries, and one
    entry goes. *)
Lemma insert_full fuel b b1 key entry now :
  wf b1 -> shrinks b b1 -> stored b1 key = None -> (1 <= fuel)%nat ->
  live_entries b1 <= live_entries b -> live_entries b < u64_max ->
  0 < max_entries b -> live_entries b1 = max_entries b ->
  exists b', inserted b key entry now 1 b' /\
    match evict_one_in_shard iter (shard_at b1 (shard_index b1 key)) now with
    | Some s =>
        insert_store iter (S fuel) (live_sub (put_shard b1 (shard_index b1 key) s) 1)
          (shard_index b1 key) key entry now (0 + 1)
    | None =>
        match evict_one_excluding iter b1 (shard_index b1 key) now with
        | None => insert_loop hash iter fuel b1 key entry now 0
        | Some b2 => insert_loop hash iter fuel b2 key entry now (0 + 1)
        end
    end = Some ({| io_stored := true; io_evictions := 1 |}, b').
Proof.
  intros Hwf1 Hsb Hnone Hf Hl Hfits Hmax Hfull.
  assert (max_entries b1 = max_entries b) as Hm by apply Hsb.
  assert (shard_index b1 key < shard_count b1)%nat as Hi by apply shard_index_lt, Hwf1.
  assert (forall b2, shrinks b1 b2 -> stored b2 key = None) as Hnone'.
  { intros b2 (_ & _ & Hs). destruct (stored b2 key) eqn:He; [|done]. apply Hs in He. congruence. }
  pose proof (evict_one_in_shard_spec (shard_at b1 (shard_index b1 key)) now) as He.
  destruct (evict_one_in_shard iter _ now) as [s|].
  - destruct He as (k & e & Hk & ->). destruct (delete_sub _ _ _ Hk) as [Hsub Hsz].
    destruct (shrink_shard b1 _ _ 1 Hwf1 Hi Hsub) as (Hwf2 & Hs2 & Hl2); [done|].
    set (b2 := live_sub _ _) in *. change (shard_index b1 key) with (shard_index b2 key).
    edestruct (insert_store_inserted (S fuel) b b2 key entry now 1) as (b' & -> & Hins);
      try done; try lia; [by eapply shrinks_trans|auto|by exists b'].
  - pose proof (evict_one_excluding_spec b1 _ now Hwf1 Hi) as Hx.
    destruct (evict_one_excluding _ _ _ _) as [b2|]; [|lia]. destruct Hx as (Hwf2 & Hs2 & Hl2).
    pose proof Hs2 as (_ & Hm2 & _).
    edestruct (insert_room fuel b b2 key entry now 1) as (b' & -> & Hins);
      try done; try lia; try (unfold within_cap; lia); [by eapply shrinks_trans|auto|by exists b'].
Qed.

(** Two turns are always enough, with at most one eviction, and that only at
    the cap. *)
Lemma insert_spec fuel b key entry now :
  wf b -> within_cap b -> (2 <= fuel)%nat -> live_entries b < u64_max -> 0 <= max_entries b ->
  exists n b', cache_insert hash iter fuel b key entry now =
      Some ({| io_stored := true; io_evictions := n |}, b') /\
    inserted b key entry now n b' /\
    (n = 0 \/ n = 1 /\ max_entries b <= live_entries b).
Proof.
  intros Hwf Hcap Hf Hfits Hmax. unfold cache_insert. destruct fuel as [|fuel]; [lia|].
  destruct (decide ((fun e => is_fresh e now) <$> stored b key = Some true)) as [Hp|Hp].
  { exists 0. eexists. split; [|split; [apply insert_replaces|by left]]; try done.
    - cbn [insert_loop]. fold (stored b key). by rewrite bool_decide_true.
    - destruct (stored b key); [by eexists|done]. }
  rewrite insert_loop_turn by done.
  destruct (drop_stale_spec b key now Hwf Hp) as (Hwf0 & Hs0 & Hl0 & Hn0 & Hk0).
  destruct (purged_spec _ key now Hwf0) as (Hwf1 & Hs1 & Hl1 & Hk1).
  set (b1 := purged _ _ _) in *. assert (shrinks b b1) as Hsb by eauto using shrinks_trans.
  assert (stored b1 key = None) as Hnone.
  { destruct (stored b1 key) eqn:He; [|done]. apply Hs1 in He. congruence. }
  destruct ((0 <? _) && _) eqn:Hfull.
  - apply andb_true_iff in Hfull as [??].
    destruct (insert_full fuel b b1 key entry now) as (b' & Hins & ->);
      try done; try (destruct Hcap; lia).
    exists 1, b'. split_and!; [done..|right; lia].
  - edestruct (insert_store_inserted (S fuel) b b1 key entry now 0) as (b' & -> & Hins);
      try done; try lia; [eauto using keeps_fresh_trans|by exists 0, b'; auto].
Qed.

(** Lowering the cap trims to it; raising it changes nothing else. *)
Lemma set_max_spec b max now :
  wf b -> within_cap b -> 0 <= max ->
  exists b', set_max_entries iter (S (Z.to_nat (live_entries b))) b max now = Some b' /\
    wf b' /\ within_cap b' /\ max_entries b' = max /\ live_entries b' <= live_entries b /\
    (forall k e, stored b' k = Some e -> stored b k = Some e) /\
    (max = 0 \/ live_entries b' = Z.min (live_entries b) max).
Proof.
  intros Hwf Hcap Hmax. unfold set_max_entries, trim_to_max.
  set (b1 := b <| max_entries := max |>). assert (wf b1) as Hwf1 by (destruct Hwf; by split).
  change (max_entries b1) with max. change (live_entries b1) with (live_entries b).
  pose proof (wf_live _ Hwf).
  destruct (_ && _ && _) eqn:Hc.
  - rewrite (proj2 (Z.eqb_neq _ _)) by lia.
    destruct (trim_loop_spec (S (Z.to_nat (live_entries b))) b1 now 0)
      as (b' & -> & Hwf' & (_ & Hm & Hs) & Hl);
      [done|cbn; lia|cbn; lia|].
    change (max_entries b1) with max in *. change (live_entries b1) with (live_entries b) in *.
    exists b'. split_and!; try done; try (unfold within_cap; lia); lia.
  - exists b1. unfold within_cap in *. change (max_entries b1) with max.
    change (live_entries b1) with (live_entries b). split_and!; try done; lia.
Qed.

(** The scan collects expired keys of the shard, each once, and all of them
    when it gets to the end. *)
Lemma reap_scan_spec es examined now deadline budget tick acc r fin :
  reap_scan es examined now deadline budget tick acc = (r, fin) ->
  exists ks, r = acc ++ ks /\ ks `sublist_of` es.*1 /\
    (forall k, k ∈ ks -> exists e, (k, e) ∈ es /\ is_fresh e now = false) /\
    (fin = true -> forall k e, (k, e) ∈ es -> is_fresh e now = false -> k ∈ ks).
Proof.
  revert examined acc. induction es as [|[k e] es IH]; intros n acc; simpl.
  { intros [= <- <-]. exists []. split_and!; [by rewrite app_nil_r|done| |]; set_solver. }
  case_match. { intros [= <- <-]. exists []. rewrite app_nil_r.
    split_and!; [done|apply sublist_nil_l|set_solver|done]. }
  destruct (is_fresh e now) eqn:Hf; simpl.
  - intros (ks & -> & Hsub & Hin & Hfin)%IH. exists ks. split_and!; [done|by apply sublist_cons| |].
    + intros k' Hk. destruct (Hin k' Hk) as (e' & ? & ?). exists e'. split; [by right|done].
    + intros Ht k' e' [[= -> ->]|Hin']%elem_of_cons He; [congruence|eauto].
  - case_match.
    { intros [= <- <-]. exists [k]. split_and!; [done|apply sublist_skip, sublist_nil_l| |done].
      intros k' ->%list_elem_of_singleton. exists e. split; [by left|done]. }
    intros (ks & -> & Hsub & Hin & Hfin)%IH. exists (k :: ks).
    split_and!; [by unfold push; rewrite <- app_assoc|by apply sublist_skip| |].
    + intros k' [->|Hk]%elem_of_cons; [exists e; split; [by left|done]|].
      destruct (Hin k' Hk) as (e' & ? & ?). exists e'. split; [by right|done].
    + intros Ht k' e' [[= -> ->]|Hin']%elem_of_cons He; [by left|right; eauto].
Qed.

Lemma foldl_delete_lookup (ks : list CacheKey) (s : Shard) k :
  foldl (fun s key => delete key s) s ks !! k = if decide (k ∈ ks) then None else s !! k.
Proof.
  revert s. induction ks as [|a ks IH]; intros s; simpl; [done|]. rewrite IH.
  destruct (decide (k = a)) as [->|Hne].
  - rewrite (decide_True (P := a ∈ a :: ks)) by set_solver. rewrite lookup_delete_eq. by case_decide.
  - rewrite lookup_delete_ne by done. do 2 case_decide; set_solver.
Qed.

Lemma foldl_delete_size (ks : list CacheKey) (s : Shard) :
  NoDup ks -> (forall k, k ∈ ks -> is_Some (s !! k)) ->
  (size (foldl (fun s key => delete key s) s ks) + length ks = size s)%nat.
Proof.
  revert s. induction ks as [|a ks IH]; intros s Hnd Hin; simpl; [lia|].
  apply NoDup_cons in Hnd as [Ha Hnd].
  destruct (Hin a) as [e He]; [by left|]. destruct (delete_sub _ _ _ He) as [_ Hsz].
  specialize (IH (delete a s) Hnd). lapply IH; [lia|].
  intros k Hk. rewrite lookup_delete_ne by set_solver. apply Hin. by right.
Qed.

(** Reaping loses expired entries only. *)
Definition keeps_all_fresh (b b' : MemoryCacheBackend) (now : Z) : Prop :=
  forall k e, stored b k = Some e -> is_fresh e now = true -> stored b' k = Some e.

(** Shard [i] has no expired entry. *)
Definition shard_clean (b : MemoryCacheBackend) (now : Z) (i : nat) : Prop :=
  forall k e, shard_at b i !! k = Some e -> is_fresh e now = true.

Lemma reap_shard_spec b i now budget start tick r fin b' :
  wf b -> (i < shard_count b)%nat ->
  reap_shard_budgeted iter b i now budget start tick = (r, fin, b') ->
  wf b' /\ shrinks b b' /\ live_entries b' = live_entries b - r /\ 0 <= r /\
  keeps_all_fresh b b' now /\ (fin = true -> shard_clean b' now i) /\
  (forall j, shard_clean b now j -> shard_clean b' now j).
Proof.
  intros Hwf Hi. unfold reap_shard_budgeted.
  destruct (reap_scan _ _ _ _ _ _ _) as [ks f] eqn:Hscan.
  apply reap_scan_spec in Hscan as (ks' & -> & Hsub & Hin & Hfin). simpl app.
  assert (forall k e, (k, e) ∈ iter (shard_at b i) <-> shard_at b i !! k = Some e) as Hit.
  { intros k e. by rewrite iter_perm, elem_of_map_to_list. }
  assert (NoDup ks') as Hnd.
  { eapply sublist_NoDup; [|done]. rewrite iter_perm. apply NoDup_fst_map_to_list. }
  set (s' := foldl _ _ _).
  assert (forall k, s' !! k = if decide (k ∈ ks') then None else shard_at b i !! k) as Hs'
    by apply foldl_delete_lookup.
  assert (s' ⊆ shard_at b i) as Hss.
  { apply map_subseteq_spec. intros k e. rewrite Hs'. by case_decide. }
  assert (zlen ks' = Z.of_nat (size (shard_at b i)) - Z.of_nat (size s')) as Hlen.
  { unfold s', zlen. rewrite <- (foldl_delete_size ks' (shard_at b i)); [lia|done|].
    intros k Hk. destruct (Hin k Hk) as (e & He & _). exists e. by apply Hit. }
  destruct (shrink_shard b i s' (zlen ks') Hwf Hi Hss Hlen) as (H1 & H2 & H3).
  intros [= <- <- <-].
  assert ((if 0 <? zlen ks' then live_sub (put_shard b i s') (zlen ks') else put_shard b i s')
    = live_sub (put_shard b i s') (zlen ks')) as ->.
  { case_match; [done|]. pose proof (zlen_nonneg ks'). rewrite live_sub_eq; cbn;
    [|pose proof (wf_live _ Hwf); lia|apply (wf_fits _ Hwf)].
    replace (live_entries b - zlen ks') with (live_entries b) by lia. done. }
  split_and!; try done; try apply zlen_nonneg.
  - intros k e Hk Hf. unfold live_sub. rewrite stored_put by done. case_decide as Heq; [|done].
    rewrite Hs'. unfold stored in Hk. rewrite <- Heq in Hk. case_decide as Hk'; [|done].
    destruct (Hin k Hk') as (e' & He'%Hit & Hf'). congruence.
  - intros Ht k e. unfold live_sub. rewrite shard_at_live, shard_at_put, decide_True by done.
    rewrite Hs'. case_decide as Hk; [done|]. intros He. destruct (is_fresh e now) eqn:Hf; [done|].
    destruct Hk. eapply Hfin; [done| |done]. by apply Hit.
  - intros j Hj k e. unfold live_sub. rewrite shard_at_live, shard_at_put by done.
    case_decide; subst; [|apply Hj]. rewrite Hs'. case_decide; [done|apply Hj].
Qed.

Lemma reap_loop_spec offsets b start now budget clock tick removed cursor r inc c b' :
  wf b ->
  reap_loop iter b start offsets now budget clock tick removed cursor = (r, inc, c, b') ->
  wf b' /\ shrinks b b' /\ live_entries b' = live_entries b - (r - removed) /\ removed <= r /\
  keeps_all_fresh b b' now /\
  (forall j, shard_clean b now j -> shard_clean b' now j) /\
  (inc = false -> forall o, o ∈ offsets -> shard_clean b' now ((start + o) mod shard_count b)).
Proof.
  revert b removed cursor. induction offsets as [|o rest IH]; intros b removed cursor Hwf; simpl.
  { intros [= <- <- <- <-]. split_and!; try done; try lia; try apply shrinks_refl; [by intros k|].
    set_solver. }
  destruct (reap_shard_budgeted _ _ _ _ _ _ _) as [[r1 fin] b1] eqn:H1.
  pose proof (wf_pos _ Hwf). apply reap_shard_spec in H1 as (Hwf1 & Hs1 & Hl1 & Hr1 & Hk1 & Hf1 & Hc1);
    [|done|apply Nat.mod_upper_bound; lia].
  destruct fin.
  - intros (Hwf2 & Hs2 & Hl2 & Hr2 & Hk2 & Hc2 & Ho2)%IH; [|done].
    split_and!; try done; try lia; [by eapply shrinks_trans|by intros k e ??; apply Hk2; [apply Hk1|]|auto|].
    intros Hi o' [->|Ho]%elem_of_cons; [by apply Hc2, Hf1|].
    destruct Hs1 as (Hsc & _). rewrite <- Hsc. by apply Ho2.
  - intros [= <- <- <- <-]. split_and!; try done; lia.
Qed.

(** ** Histories

    The operations that change a backend, with the clock values they see, and
    the map of all insertions that an unbounded cache would hold. *)
Inductive CacheOp :=
  | OpInsert (key : CacheKey) (entry : CacheEntry) (now : Z)
  | OpRemove (key : CacheKey)
  | OpSetMax (max now : Z)
  | OpReap (now : Z) (budget : ReapBudget) (clock : nat -> Z) (tick : nat -> nat -> Z) (cursor : nat).

Definition op_step (b : MemoryCacheBackend) (op : CacheOp) : option MemoryCacheBackend :=
  match op with
  | OpInsert key entry now =>
      snd <$> cache_insert hash iter (S (S (Z.to_nat (live_entries b)))) b key entry now
  | OpRemove key => Some (cache_remove hash b key).2
  | OpSetMax max now => set_max_entries iter (S (Z.to_nat (live_entries b))) b max now
  | OpReap now budget clock tick cursor =>
      Some (reap_expired_budgeted iter b now budget clock tick cursor).2
  end.

Definition op_spec (m : Shard) (op : CacheOp) : Shard :=
  match op with
  | OpInsert key entry _ => <[key := entry]> m
  | OpRemove key => delete key m
  | OpSetMax _ _ | OpReap _ _ _ _ _ => m
  end.

Definition op_valid (op : CacheOp) : Prop :=
  match op with OpSetMax max _ => 0 <= max | _ => True end.

Fixpoint run_ops (b : MemoryCacheBackend) (ops : list CacheOp) : option MemoryCacheBackend :=
  match ops with
  | [] => Some b
  | op :: rest => let! b' := op_step b op in run_ops b' rest
  end.

(** The simulation relation. *)
Record simulates (b : MemoryCacheBackend) (m : Shard) : Prop := {
  sim_wf : wf b;
  sim_cap : within_cap b;
  sim_max : 0 <= max_entries b;
  sim_sub : forall k e, stored b k = Some e -> m !! k = Some e;
}.

Lemma from_config_wf n max : wf (memory_from_config n max).
Proof.
  split; cbn.
  - apply length_replicate.
  - lia.
  - induction (Z.to_nat (Z.max n 1)); [done|]. cbn. done.
  - unfold u64_max. lia.
  - intros i k e. unfold shard_at. cbn. destruct (replicate _ _ !! i) eqn:H; simpl;
      [apply lookup_replicate in H as [-> _]|]; by rewrite lookup_empty.
Qed.

Lemma from_config_simulates n max : 0 <= max -> simulates (memory_from_config n max) ∅.
Proof.
  intros Hm. pose proof (from_config_wf n max) as Hwf. split; [done|right; cbn; lia|done|].
  intros k e. unfold stored, shard_at, memory_from_config. cbn.
  destruct (replicate _ _ !! _) eqn:H; simpl; [apply lookup_replicate in H as [-> _]|];
    by rewrite lookup_empty.
Qed.

Lemma op_step_simulates b m op :
  simulates b m -> op_valid op -> live_entries b < u64_max ->
  exists b', op_step b op = Some b' /\ simulates b' (op_spec m op) /\
    live_entries b' <= live_entries b + 1.
Proof.
  intros [Hwf Hcap Hmax Hsub] Hv Hl. destruct op as [key entry now|key|max now|now bud clk tick cur]; cbn [op_step op_spec].
  - destruct (insert_spec (S (S (Z.to_nat (live_entries b)))) b key entry now)
      as (n & b' & -> & Hins & _); [done|done|lia|done|done|].
    destruct Hins. exists b'. split; [done|]. split; [|done]. split; [done|done|lia|].
    intros k e. destruct (decide (k = key)) as [->|].
    + rewrite lookup_insert_eq. congruence.
    + rewrite lookup_insert_ne by done. eauto.
  - eexists. split; [done|]. unfold cache_remove. fold (stored b key).
    destruct (stored b key) as [e|] eqn:He; cbn [snd].
    + destruct (remove_spec b key e Hwf He) as (H1 & (H2 & H2m & _) & H3 & H4 & H5). split; [|lia].
      split; [done|unfold within_cap in *; lia|lia|]. intros k e'.
      destruct (decide (k = key)) as [->|]; [by rewrite H4|].
      rewrite lookup_delete_ne, H5 by done. apply Hsub.
    + split; [|lia]. split; try done. intros k e' Hk.
      rewrite lookup_delete_ne by (intros ->; congruence). by apply Hsub.
  - simpl in Hv. destruct (set_max_spec b max now Hwf Hcap Hv) as (b' & -> & H1 & H2 & H3 & H4 & H5 & _).
    exists b'. split; [done|]. split; [|lia]. split; [done..|lia|auto].
  - eexists. split; [done|]. unfold reap_expired_budgeted. case_match; simpl; [split; [by split|lia]|].
    destruct (reap_loop _ _ _ _ _ _ _ _ _ _) as [[[r inc] c] b'] eqn:Hr.
    apply reap_loop_spec in Hr as (H1 & (_ & Hm & H2) & H3 & H4 & _); [|done]. simpl.
    split; [|lia]. split; [done|unfold within_cap in *; lia|lia|auto].
Qed.

Lemma run_ops_simulates ops b m :
  simulates b m -> Forall op_valid ops -> live_entries b + zlen ops <= u64_max ->
  exists b', run_ops b ops = Some b' /\ simulates b' (foldl op_spec m ops).
Proof.
  revert b m. induction ops as [|op ops IH]; intros b m Hsim Hv Hl; simpl; [by exists b|].
  apply Forall_cons in Hv as [Hv Hvs]. rewrite zlen_cons in Hl. pose proof (zlen_nonneg ops).
  destruct (op_step_simulates b m op) as (b' & -> & Hs' & Hl'); [done|done|lia|].
  apply IH; [done|done|lia].
Qed.

(** C4: a cache never answers with anything but the latest insertion under the
    very key asked for: after any history of insertions, removals, cap changes
    and reaping passes, from an empty backend of any shard count and cap, no
    operation has run out of its loop bound, the counter is exact, the cap
    holds, and what a lookup returns is fresh and is the entry that a map
    which never forgets has under the key. *)
Theorem cache_refines_map (n max : Z) (ops : list CacheOp) :
  0 <= max -> Forall op_valid ops -> zlen ops <= u64_max ->
  exists b, run_ops (memory_from_config n max) ops = Some b /\
    live_entries b = Z.of_nat (total (shards b)) /\ within_cap b /\
    forall k now e, cache_get hash b k now = Some e ->
      foldl op_spec ∅ ops !! k = Some e /\ is_fresh e now = true.
Proof.
  intros Hm Hv Hl.
  destruct (run_ops_simulates ops (memory_from_config n max) ∅) as (b & Hrun & [Hwf Hcap _ Hsub]);
    [by apply from_config_simulates|done|done|].
  exists b. split_and!; [done|apply Hwf|done|]. intros k now e. unfold cache_get. fold (stored b k).
  destruct (stored b k) as [e'|] eqn:He; [|done]. case_match; [|done]. intros [= ->]. auto.
Qed.

(** Inserting into a bounded cache always stores the entry, within two
    turns of its loop, and evicts at most one other entry, and only when the
    cache is full: below the cap every fresh entry survives. Entries under
    other keys are never altered. *)
Theorem insert_stores_within_cap (fuel : nat) (b : MemoryCacheBackend) (key : CacheKey)
    (entry : CacheEntry) (now : Z) :
  wf b -> within_cap b -> (2 <= fuel)%nat -> live_entries b < u64_max -> 0 <= max_entries b ->
  exists n b', cache_insert hash iter fuel b key entry now =
      Some ({| io_stored := true; io_evictions := n |}, b') /\
    wf b' /\ within_cap b' /\
    (is_fresh entry now = true -> cache_get hash b' key now = Some entry) /\
    (forall k e, k <> key -> stored b' k = Some e -> stored b k = Some e) /\
    (n = 0 /\ keeps_fresh b b' key now \/ n = 1 /\ max_entries b <= live_entries b).
Proof.
  intros Hwf Hcap Hf Hl Hm.
  destruct (insert_spec fuel b key entry now) as (n & b' & Heq & [] & Hn); try done.
  exists n, b'. split_and!; try done.
  - intros Hfr. unfold cache_get. fold (stored b' key). rewrite ins_key0. by rewrite Hfr.
  - destruct Hn as [->|]; [left|right]; auto.
Qed.

(** What a reaping pass does to the counters and the fresh entries. *)
Lemma reap_pass_spec b b' now budget clock tick cursor c removed incomplete :
  wf b -> reap_expired_budgeted iter b now budget clock tick cursor = (removed, incomplete, c, b') ->
  wf b' /\ live_entries b' <= live_entries b /\ max_entries b' = max_entries b /\ keeps_all_fresh b b' now.
Proof.
  intros Hwf. unfold reap_expired_budgeted. pose proof (wf_pos _ Hwf). rewrite (proj2 (Nat.eqb_neq _ _)) by lia.
  intros (H1 & (_ & ? & _) & Hl & ? & Hk & _)%reap_loop_spec; [|done]. split_and!; [done|lia|done|done].
Qed.

(** A reaping pass removes expired entries only, counts what it removes,
    and one that does not report being cut short by its budget leaves no
    expired entry in any shard. *)
Theorem reap_pass_exact (b b' : MemoryCacheBackend) (now : Z) (budget : ReapBudget)
    (clock : nat -> Z) (tick : nat -> nat -> Z) (cursor c : nat) (removed : Z) (incomplete : bool) :
  wf b ->
  reap_expired_budgeted iter b now budget clock tick cursor = (removed, incomplete, c, b') ->
  wf b' /\ live_entries b' = live_entries b - removed /\
  (forall k e, stored b' k = Some e -> stored b k = Some e) /\
  (forall k e, stored b k = Some e -> is_fresh e now = true -> stored b' k = Some e) /\
  (incomplete = false -> forall k e, stored b' k = Some e -> is_fresh e now = true).
Proof.
  intros Hwf. unfold reap_expired_budgeted. pose proof (wf_pos _ Hwf).
  rewrite (proj2 (Nat.eqb_neq _ _)) by lia.
  intros (H1 & (Hc & _ & Hs) & Hl & _ & Hk & _ & Hcl)%reap_loop_spec; [|done].
  split_and!; [done|lia|done|done|]. intros Hi k e He.
  set (n := shard_count b) in *. set (s0 := (cursor mod n)%nat) in *.
  assert (shard_index b' k < n)%nat as Hlt by (rewrite <- Hc; apply shard_index_lt, H1).
  assert (s0 < n)%nat by (apply Nat.mod_upper_bound; lia).
  assert (exists o, o ∈ seq 0 n /\ ((s0 + o) mod n)%nat = shard_index b' k) as (o & Ho & Heq).
  { set (j := shard_index b' k) in *. destruct (decide (s0 <= j)%nat).
    - exists (j - s0)%nat. split; [apply elem_of_seq; lia|]. rewrite Nat.mod_small; lia.
    - exists (j + n - s0)%nat. split; [apply elem_of_seq; lia|].
      replace (s0 + (j + n - s0))%nat with (j + 1 * n)%nat by lia.
      rewrite Nat.Div0.mod_add, Nat.mod_small; lia. }
  apply (Hcl Hi o Ho k e). by rewrite Heq.
Qed.
End Facts.

(** ** Witnesses: the identity hash of the first byte, stdpp's own order *)

Definition sample_hash (k : CacheKey) : Z := default 0 (head k).

Definition sample_entry (t : Z) : CacheEntry :=
  {| ce_kind := Positive; ce_wire := [t]; ce_filled_at := 0; ce_expires_at := t |}.

Definition sample_ops : list CacheOp :=
  [OpInsert [0] (sample_entry 10) 0; OpInsert [1] (sample_entry 20) 0;
   OpInsert [2] (sample_entry 30) 5; OpSetMax 1 6].

Lemma cache_refines_map_witness :
  exists b, run_ops sample_hash map_to_list (memory_from_config 2 2) sample_ops = Some b /\
    live_entries b = Z.of_nat (total (shards b)) /\ within_cap b /\
    forall k now e, cache_get sample_hash b k now = Some e ->
      foldl op_spec ∅ sample_ops !! k = Some e /\ is_fresh e now = true.
Proof.
  apply (cache_refines_map sample_hash map_to_list); [done|lia| |done].
  repeat constructor; simpl; lia.
Defined.

Lemma insert_stores_within_cap_witness :
  exists n b', cache_insert sample_hash map_to_list 2 (memory_from_config 2 2) [7] (sample_entry 10) 0 =
      Some ({| io_stored := true; io_evictions := n |}, b') /\
    wf sample_hash b' /\ within_cap b' /\
    (is_fresh (sample_entry 10) 0 = true -> cache_get sample_hash b' [7] 0 = Some (sample_entry 10)) /\
    (forall k e, k <> [7] -> stored sample_hash b' k = Some e ->
       stored sample_hash (memory_from_config 2 2) k = Some e) /\
    (n = 0 /\ keeps_fresh sample_hash (memory_from_config 2 2) b' [7] 0 \/
     n = 1 /\ max_entries (memory_from_config 2 2) <= live_entries (memory_from_config 2 2)).
Proof.
  apply (insert_stores_within_cap sample_hash map_to_list);
    [done|apply from_config_wf|right; vm_compute; done|done|done|done].
Defined.

(** One shard with an entry that expires at 3 and one that expires at 9. *)
Definition sample_backend : MemoryCacheBackend :=
  {| shard_count := 1; max_entries := 4; live_entries := 2;
     shards := [{[ [7] := sample_entry 3; [8] := sample_entry 9 ]}] |}.

Lemma sample_backend_wf : wf sample_hash sample_backend.
Proof.
  split; [done|simpl; lia|done|unfold u64_max; simpl; lia|].
  intros [|i] k e H; [unfold shard_index; cbn; by rewrite Z.mod_1_r|by destruct i].
Qed.

Definition sample_budget : ReapBudget := {| max_lock_hold := 1000; max_keys_per_lock := 8 |}.

Lemma reap_pass_exact_witness :
  let r := reap_expired_budgeted map_to_list sample_backend 5 sample_budget (fun _ => 0) (fun _ _ => 1) 3 in
  r.1.1.1 = 1 /\ forall k e, stored sample_hash r.2 k = Some e -> is_fresh e 5 = true.
Proof.
  intros r. split; [reflexivity|].
  apply (reap_pass_exact sample_hash map_to_list (fun _ => ltac:(reflexivity)) sample_backend r.2 5
    sample_budget (fun _ => 0) (fun _ _ => 1) 3 0 1 false sample_backend_wf); reflexivity.
Defined.
