(* ===== verification/Message.v ===== *)
(** * Message: DNS messages, the wire codec and the parse stage

    A [Message] is what the program sees of hickory's [Message] through its
    accessors. The codec itself (hickory_proto) is the class [DnsCodec]; nothing
    is assumed of it here. On top of it: structural_parse.rs, upstream_response.rs
    and stages/parse.rs of conduit-core. *)

From stdpp Require Import strings sorting.
From Stdlib Require Import String.
From S2P Require Import Prelude Text Transaction.

#[local] Open Scope string_scope.
#[local] Open Scope list_scope.
#[local] Open Scope Z_scope.

(** A name is its presentation form ([Name::to_utf8]). *)
Record Query := { q_name : string; q_type : Z; q_class : Z }.

Record RR := MkRR { rr_name : string; rr_type : Z; rr_class : Z; rr_ttl : Z; rr_data : list Z }.

#[export] Instance set_rr_ttl : Setter rr_ttl :=
  ltac:(setter MkRR (rr_name, rr_type, rr_class, rr_ttl, rr_data)).

(** The client-subnet option with its encoding, which can fail; any other. *)
Inductive EdnsOption :=
  | Subnet (encoded : option (list Z))
  | OtherOption (data : list Z).

(** The options in the order the option map iterates over them. *)
Record Edns := {
  max_payload : Z;
  rcode_high : Z;
  edns_version : Z;
  dnssec_ok : bool;
  options : list (Z * EdnsOption);
}.

Record Message := MkMessage {
  m_id : Z;
  m_response : bool;
  m_op_code : Z;
  m_authoritative : bool;
  m_truncated : bool;
  m_recursion_desired : bool;
  m_recursion_available : bool;
  m_authentic_data : bool;
  m_checking_disabled : bool;
  m_rcode : Z;
  m_queries : list Query;
  m_answers : list RR;
  m_name_servers : list RR;
  m_additionals : list RR;
  m_edns : option Edns;
}.

Ltac msg_setter :=
  setter MkMessage (m_id, m_response, m_op_code, m_authoritative, m_truncated, m_recursion_desired,
    m_recursion_available, m_authentic_data, m_checking_disabled, m_rcode, m_queries, m_answers,
    m_name_servers, m_additionals, m_edns).

#[export] Instance set_m_id : Setter m_id := ltac:(msg_setter).
#[export] Instance set_m_response : Setter m_response := ltac:(msg_setter).
#[export] Instance set_m_authoritative : Setter m_authoritative := ltac:(msg_setter).
#[export] Instance set_m_truncated : Setter m_truncated := ltac:(msg_setter).
#[export] Instance set_m_rcode : Setter m_rcode := ltac:(msg_setter).
#[export] Instance set_m_queries : Setter m_queries := ltac:(msg_setter).
#[export] Instance set_m_answers : Setter m_answers := ltac:(msg_setter).
#[export] Instance set_m_name_servers : Setter m_name_servers := ltac:(msg_setter).
#[export] Instance set_m_additionals : Setter m_additionals := ltac:(msg_setter).
#[export] Instance set_m_edns : Setter m_edns := ltac:(msg_setter).

(** [Message::new]. *)
Definition Message_new : Message := {|
  m_id := 0; m_response := false; m_op_code := 0; m_authoritative := false; m_truncated := false;
  m_recursion_desired := false; m_recursion_available := false; m_authentic_data := false;
  m_checking_disabled := false; m_rcode := 0; m_queries := []; m_answers := [];
  m_name_servers := []; m_additionals := []; m_edns := None;
|}.

Definition add_query (m : Message) (q : Query) : Message := m <| m_queries := push (m_queries m) q |>.
Definition set_edns (m : Message) (e : option Edns) : Message :=
  match e with Some _ => m <| m_edns := e |> | None => m end.

(** The hickory codec: [Message::from_vec], [emit] into a fresh buffer (an error
    leaves what was written), and a name's wire form from its presentation form
    ([Name::from_utf8] followed by [emit]). *)
Class DnsCodec := {
  from_vec : list Z -> option Message;
  emit : Message -> result (list Z) (list Z);
  name_wire : string -> option (list Z);
}.

(** [response_code().low()]: the four bits of the header. *)
Definition rcode_low (m : Message) : Z := Z.land (m_rcode m) 15.

(** [u16::try_from(len).unwrap_or(u16::MAX)]. *)
Definition count16 {A} (l : list A) : Z := Z.min (zlen l) u16_max.

(** ** Structural parse *)

Record ParsedQuery := {
  pq_dns_id : Z;
  pq_opcode : Z;
  pq_qname : string;
  pq_qtype : Z;
  pq_qclass : Z;
  pq_client_udp_payload_size : option Z;
  pq_edns_option_codes : list Z;
}.

(** [Vec::dedup]. *)
Fixpoint dedup (l : list Z) : list Z :=
  match l with
  | a :: ((b :: _) as rest) => if a =? b then dedup rest else a :: dedup rest
  | _ => l
  end.

Section Parse.
Context `{DnsCodec}.

Definition structural_parse (wire : list Z) : result ParsedQuery ParseRejectReason :=
  match wire with
  | [] => Err RejectEmpty
  | _ :: _ =>
      match from_vec wire with
      | None => Err RejectWireError
      | Some message =>
          if m_response message then Err RejectNotQuery
          else
            match m_queries message with
            | [] => Err RejectNoQuestion
            | _ :: _ :: _ => Err RejectMultiQuestion
            | [query] =>
                Ok {| pq_dns_id := m_id message;
                      pq_opcode := m_op_code message;
                      pq_qname := q_name query;
                      pq_qtype := q_type query;
                      pq_qclass := q_class query;
                      pq_client_udp_payload_size := max_payload <$> m_edns message;
                      pq_edns_option_codes :=
                        match m_edns message with
                        | Some edns => dedup (merge_sort Z.le (options edns).*1)
                        | None => []
                        end |}
            end
      end
  end.

Definition apply_parsed_query (t : Transaction) (p : ParsedQuery) : Transaction :=
  t <| dns_id := pq_dns_id p |>
    <| opcode := Some (pq_opcode p) |>
    <| qname := Some (pq_qname p) |>
    <| qtype := Some (pq_qtype p) |>
    <| qclass := Some (pq_qclass p) |>
    <| client_udp_payload_size := pq_client_udp_payload_size p |>
    <| edns_option_codes := pq_edns_option_codes p |>
    <| pre_parsed := true |>.

Definition drop_with (t : Transaction) (r : ParseRejectReason) : StageOutcome * Transaction :=
  (DropQuery, t <| parse_reject_reason := Some r |>).

Definition parse_stage (t : Transaction) : StageOutcome * Transaction :=
  if pre_parsed t then
    match qname t with
    | None => drop_with t RejectWireError
    | Some _ => (Continue RequestRules, t)
    end
  else
    match structural_parse (query_wire t) with
    | Ok p => (Continue RequestRules, apply_parsed_query t p)
    | Err r => drop_with t r
    end.

Definition record_upstream_response (t : Transaction) (wire : list Z) (parse_wire_meta : bool)
    : Transaction :=
  match from_vec wire with
  | Some msg =>
      let t := set_rcode_code t (rcode_low msg) in
      if parse_wire_meta then
        t <| response_meta := Some {| answer_count := count16 (m_answers msg);
                                      authority_count := count16 (m_name_servers msg);
                                      additional_count := count16 (m_additionals msg);
                                      truncated := m_truncated msg;
                                      authoritative := m_authoritative msg |} |>
      else t <| response_meta := None |>
  | None => if parse_wire_meta then t <| response_meta := None |> else t
  end.
End Parse.

(** ** Facts *)

Lemma elem_of_dedup l x : x ∈ dedup l <-> x ∈ l.
Proof.
  induction l as [|a [|b l] IH]; [done..|]. cbn [dedup]. destruct (Z.eqb_spec a b) as [->|].
  - rewrite IH. set_solver.
  - rewrite !elem_of_cons in *. naive_solver.
Qed.

Lemma dedup_sorted l : Sorted Z.le l -> StronglySorted Z.lt (dedup l).
Proof.
  intros Hs%Sorted_StronglySorted; [|intros ???; lia].
  induction Hs as [|a l Hs IH Ha]; [constructor|].
  destruct l as [|b l]; [repeat constructor|]. cbn [dedup]. destruct (Z.eqb_spec a b) as [->|Hne]; [done|].
  constructor; [done|]. apply Forall_forall. intros x Hx.
  change (x ∈ dedup (b :: l)) in Hx. rewrite elem_of_dedup in Hx.
  rewrite Forall_forall in Ha. apply StronglySorted_inv in Hs as [_ Hb].
  rewrite Forall_forall in Hb. pose proof (Ha b ltac:(by left)). pose proof (Ha x Hx).
  apply elem_of_cons in Hx as [->|Hx]; [lia|]. specialize (Hb x Hx). lia.
Qed.

(** The parse stage either drops the query with the reason recorded, or
    passes it on with every question field set; the EDNS option codes it
    records are strictly increasing and are exactly the codes of the query. *)
Theorem parse_stage_outcome `{DnsCodec} (t : Transaction) :
  pre_parsed t = false ->
  match parse_stage t with
  | (DropQuery, t') => exists r, t' = t <| parse_reject_reason := Some r |> /\
      (r = RejectEmpty <-> query_wire t = [])
  | (Continue p, t') => p = RequestRules /\ pre_parsed t' = true /\ response_wire t' = response_wire t /\
      exists m q, from_vec (query_wire t) = Some m /\ m_response m = false /\ m_queries m = [q] /\
        dns_id t' = m_id m /\ qname t' = Some (q_name q) /\ qtype t' = Some (q_type q) /\
        qclass t' = Some (q_class q) /\ StronglySorted Z.lt (edns_option_codes t') /\
        forall c, c ∈ edns_option_codes t' <-> exists e o, m_edns m = Some e /\ (c, o) ∈ options e
  | (Suspend _, _) => False
  end.
Proof.
  intros Hp. unfold parse_stage, structural_parse. rewrite Hp.
  destruct (query_wire t) as [|b w] eqn:Hw; [by exists RejectEmpty|].
  destruct (from_vec (b :: w)) as [m|] eqn:Hm; [|by exists RejectWireError].
  destruct (m_response m) eqn:Hr; [by exists RejectNotQuery|].
  destruct (m_queries m) as [|q [|q' qs]] eqn:Hq; [by exists RejectNoQuestion| |by exists RejectMultiQuestion].
  split_and!; try done. exists m, q. split_and!; try done; simpl; destruct (m_edns m) as [e|] eqn:He.
  - apply dedup_sorted. apply Sorted_merge_sort. intros ??. lia.
  - constructor.
  - intros c. rewrite elem_of_dedup, (merge_sort_Permutation Z.le), list_elem_of_fmap.
    split; [intros ([c' o] & -> & Ho); eauto|intros (e' & o & [= <-] & Ho); by exists (c, o)].
  - intros c. split; [by intros ?%elem_of_nil|naive_solver].
Qed.

(** A codec of one message, for the witnesses. *)
Definition sample_query : Message :=
  Message_new <| m_id := 7 |>
    <| m_queries := [{| q_name := "a.example."; q_type := 1; q_class := 1 |}] |>
    <| m_edns := Some {| max_payload := 1232; rcode_high := 0; edns_version := 0; dnssec_ok := true;
                         options := [(10, OtherOption []); (8, Subnet (Some [0; 1; 24; 0; 10; 0; 0]))] |} |>.

#[local] Instance sample_codec : DnsCodec := {|
  from_vec w := if decide (w = [1]) then Some sample_query else None;
  emit m := Ok [m_id m];
  name_wire s := Some (byte_of <$> String.list_ascii_of_string s);
|}.

Lemma parse_stage_outcome_witness :
  let t := (Transaction_new 1 (SockV4 0 53) Udp {| instant_now := 0; system_now := 0 |})
             <| query_wire := [1] |> in
  pre_parsed t = false /\ (parse_stage t).1 = Continue RequestRules /\
  edns_option_codes (parse_stage t).2 = [8; 10] /\ pre_parsed (parse_stage t).2 = true.
Proof.
  intros t. split_and!; [reflexivity|reflexivity|vm_compute; reflexivity|].
  pose proof (parse_stage_outcome t eq_refl) as Ht. cbn in Ht. apply Ht.
Defined.
