(* ===== verification/Send.v ===== *)
(** * Send: the last stage, and fitting an answer into a UDP datagram

    src/crates/conduit-core/src/stages/send.rs: [SendStage::handle],
    [build_error_response], [truncate_udp] and the helpers that emit a message.
    The codec is the class of Message.v. Nothing about it is needed for the size
    limit; that a truncated answer has its TC bit on the wire relies on where the
    codec puts the bit ([emit_tc]). *)

From Stdlib Require Import String.
From S2P Require Import Prelude Text Transaction Message.

#[local] Open Scope Z_scope.

(** [if buf.len() >= 3 { buf[2] |= 0x02 }] *)
Definition set_tc_bit (buf : list Z) : list Z :=
  match buf with
  | a :: b :: c :: rest => a :: b :: Z.lor c 2 :: rest
  | _ => buf
  end.

Definition has_tc_bit (buf : list Z) : bool :=
  match buf with _ :: _ :: c :: _ => Z.testbit c 1 | _ => false end.

(** [buf.truncate(limit)] followed by the TC bit. *)
Definition clip (buf : list Z) (limit : Z) : list Z := set_tc_bit (take (Z.to_nat limit) buf).

Definition udp_limit (udp_payload_size : option Z) : Z := default 512 udp_payload_size.

Section Send.
Context `{DnsCodec}.

Definition emit_message (m : Message) : result (list Z) (list Z) := emit m.

Definition emit_if_fits (m : Message) (limit : Z) : option (list Z) :=
  let! wire := result_ok (emit_message m) in
  if zlen wire <=? limit then Some wire else None.

(** [while !msg.answers().is_empty() { .. pop }]: the wire that fits, or the
    message with no answer left; one turn per answer. *)
Fixpoint trim_answers (fuel : nat) (m : Message) (edns : option Edns) (limit : Z)
    : option (list Z) * Message :=
  match fuel with
  | O => (None, m)
  | S fuel =>
      match pop (m_answers m) with
      | None => (None, m)
      | Some (_, rest) =>
          let m := set_edns m edns in
          match emit_if_fits m limit with
          | Some wire => (Some wire, m)
          | None => trim_answers fuel (m <| m_answers := rest |>) edns limit
          end
      end
  end.

Definition truncate_udp (buf : list Z) (udp_payload_size : option Z) : list Z * bool :=
  let limit := udp_limit udp_payload_size in
  if zlen buf <=? limit then (buf, false)
  else
    match from_vec buf with
    | None => (clip buf limit, true)
    | Some msg =>
        let edns := m_edns msg in
        let had_answers := negb (bool_decide (m_answers msg = [])) in
        let had_authority := negb (bool_decide (m_name_servers msg = [])) in
        let msg := set_edns (msg <| m_additionals := [] |>) edns in
        match emit_if_fits msg limit with
        | Some wire => (wire, false)
        | None =>
            let msg := msg <| m_name_servers := [] |> in
            let required := had_authority && negb had_answers in
            let msg := if required then msg <| m_truncated := true |> else msg in
            let msg := set_edns msg edns in
            match emit_if_fits msg limit with
            | Some wire => (wire, required)
            | None =>
                let msg := msg <| m_truncated := true |> in
                match trim_answers (length (m_answers msg)) msg edns limit with
                | (Some wire, _) => (wire, true)
                | (None, msg) =>
                    match emit_message (set_edns msg edns) with
                    | Ok wire => (if limit <? zlen wire then clip wire limit else wire, true)
                    | Err _ => (clip buf limit, true)
                    end
                end
            end
        end
    end.

Definition build_error_response (rid rc : Z) (qwire : list Z) (udp_payload_size : option Z)
    : list Z * bool * Z :=
  let msg := Message_new <| m_id := rid |> <| m_response := true |> in
  let msg :=
    match qwire with
    | [] => msg
    | _ :: _ =>
        match from_vec qwire with
        | Some query => set_edns (foldl add_query msg (m_queries query)) (m_edns query)
        | None => msg
        end
    end in
  let msg := msg <| m_rcode := Z.land rc 15 |> <| m_authoritative := true |> in
  let buf := match emit msg with Ok w => w | Err w => w end in
  let before_len := zlen buf in
  let '(buf, cut) := truncate_udp buf udp_payload_size in
  (buf, cut, before_len).

Definition send_stage (t : Transaction) : StageOutcome * Transaction :=
  match response_wire t with
  | Some wire =>
      if bool_decide (protocol t = Udp) then
        let '(wire, cut) := truncate_udp wire (client_udp_payload_size t) in
        (Continue Send,
         (if cut then t <| udp_response_truncated_on_send := true |> else t)
           <| response_wire := Some wire |>)
      else (Continue Send, t)
  | None =>
      let rc := default 2 (rcode t) in
      let '(wire, cut, _) :=
        build_error_response (dns_id t) rc (query_wire t) (client_udp_payload_size t) in
      (Continue Send,
       (if cut then t <| udp_response_truncated_on_send := true |> else t)
         <| response_wire := Some wire |>)
  end.
End Send.

(** ** What fitting does *)

Section Facts.
Context `{DnsCodec}.

Lemma clip_len buf limit : 0 <= limit -> zlen (clip buf limit) <= limit.
Proof.
  intros Hl. unfold clip, zlen.
  assert (length (set_tc_bit (take (Z.to_nat limit) buf)) = length (take (Z.to_nat limit) buf)) as ->
    by (by destruct (take (Z.to_nat limit) buf) as [|? [|? [|? ?]]]).
  rewrite length_take. lia.
Qed.

Lemma clip_tc buf limit : 3 <= limit -> limit < zlen buf -> has_tc_bit (clip buf limit) = true.
Proof.
  intros Hl Hb. unfold clip, zlen in *.
  assert (exists n, Z.to_nat limit = S (S (S n))) as [n ->] by (exists (Z.to_nat limit - 3)%nat; lia).
  destruct buf as [|a [|b [|c rest]]]; simpl in *; [lia..|].
  change (Z.testbit (Z.lor c 2) 1 = true). rewrite Z.lor_spec. change (Z.testbit 2 1) with true. apply orb_true_r.
Qed.

Lemma emit_if_fits_Some m limit w : emit_if_fits m limit = Some w -> emit m = Ok w /\ zlen w <= limit.
Proof.
  unfold emit_if_fits, emit_message. destruct (emit m) as [w'|]; simpl; [|done].
  case_match; [|done]. intros [= ->]. split; [done|lia].
Qed.

(** [m'] is the message [m] cut down: everything but the sections is as it was,
    the optional sections are whole or empty, the answers are a prefix. *)
Record cut_of (m m' : Message) : Prop := {
  cut_id : m_id m' = m_id m;
  cut_response : m_response m' = m_response m;
  cut_rcode : m_rcode m' = m_rcode m;
  cut_queries : m_queries m' = m_queries m;
  cut_edns : m_edns m' = m_edns m;
  cut_answers : m_answers m' `prefix_of` m_answers m;
  cut_name_servers : m_name_servers m' = m_name_servers m \/ m_name_servers m' = [];
  cut_additionals : m_additionals m' = m_additionals m \/ m_additionals m' = [];
}.

Lemma set_edns_same m e : m_edns m = e -> set_edns m e = m.
Proof. intros <-. destruct m; unfold set_edns; simpl. by case_match. Qed.

Lemma trim_answers_spec fuel m m0 limit :
  cut_of m0 m -> (length (m_answers m) <= fuel)%nat ->
  match trim_answers fuel m (m_edns m0) limit with
  | (Some w, _) => exists m', emit m' = Ok w /\ zlen w <= limit /\ cut_of m0 m' /\
      m_truncated m' = m_truncated m
  | (None, m') => cut_of m0 m' /\ m_answers m' = [] /\ m_truncated m' = m_truncated m
  end.
Proof.
  revert m. induction fuel as [|fuel IH]; intros m Hc Hf; simpl.
  - split_and!; [done|destruct (m_answers m); [done|simpl in Hf; lia]|done].
  - destruct (pop (m_answers m)) as [[a r]|] eqn:Hp.
    + rewrite set_edns_same by apply Hc.
      apply pop_Some in Hp as Happ. unfold push in Happ.
      destruct (emit_if_fits m limit) as [w|] eqn:He.
      * apply emit_if_fits_Some in He as [??]. by exists m.
      * destruct Hc. lapply (IH (m <| m_answers := r |>)).
        { intros HI. apply HI. simpl. rewrite Happ, length_app in Hf. simpl in Hf. lia. }
        split; try done. simpl. rewrite Happ in cut_answers0.
        etransitivity; [|done]. by exists [a].
    + apply pop_None in Hp. by split_and!.
Qed.

(** The four ways an answer leaves [truncate_udp]. *)
Inductive fitted (buf : list Z) (limit : Z) : list Z -> bool -> Prop :=
  | fits_already : zlen buf <= limit -> fitted buf limit buf false
  | fits_whole_answer m m' w : from_vec buf = Some m -> cut_of m m' -> emit m' = Ok w -> zlen w <= limit ->
      m_answers m' = m_answers m -> m_truncated m' = m_truncated m ->
      (m_name_servers m' = m_name_servers m \/ m_answers m <> []) -> fitted buf limit w false
  | fits_truncated m m' w : from_vec buf = Some m -> cut_of m m' -> emit m' = Ok w -> zlen w <= limit ->
      m_truncated m' = true -> fitted buf limit w true
  | fits_clipped w : limit < zlen w -> fitted buf limit (clip w limit) true.

Lemma truncate_udp_fitted buf sz :
  let r := truncate_udp buf sz in fitted buf (udp_limit sz) r.1 r.2.
Proof.
  unfold truncate_udp. set (limit := udp_limit sz).
  destruct (Z.leb_spec (zlen buf) limit) as [?|Hlong]; [by apply fits_already|].
  destruct (from_vec buf) as [m|] eqn:Hm; [|by apply fits_clipped].
  set (m1 := set_edns (m <| m_additionals := [] |>) (m_edns m)).
  assert (m1 = m <| m_additionals := [] |>) as E1 by (by apply set_edns_same).
  assert (cut_of m m1) as C1 by (rewrite E1; split; try done; auto).
  destruct (emit_if_fits m1 limit) as [w|] eqn:He1.
  { apply emit_if_fits_Some in He1 as [??].
    eapply fits_whole_answer; try done; rewrite E1; auto. }
  set (req := _ && _). set (m2 := m1 <| m_name_servers := [] |>).
  set (m3 := if req then m2 <| m_truncated := true |> else m2).
  assert (cut_of m m3) as C3 by (destruct C1; unfold m3; destruct req; split; auto).
  assert (m_truncated m3 = if req then true else m_truncated m) as T3
    by (unfold m3, m2; rewrite E1; by destruct req).
  assert (m_answers m3 = m_answers m) as A3 by (unfold m3, m2; rewrite E1; by destruct req).
  rewrite (set_edns_same m3) by apply C3.
  destruct (emit_if_fits m3 limit) as [w|] eqn:He3.
  { apply emit_if_fits_Some in He3 as [??]. simpl. destruct req eqn:Hreq.
    - by eapply (fits_truncated _ _ m m3).
    - eapply (fits_whole_answer _ _ m m3); try done.
      unfold req in Hreq. apply andb_false_iff in Hreq as [Hr|Hr]; [left|right].
      + apply negb_false_iff, bool_decide_eq_true in Hr. rewrite Hr. by destruct C3 as [? ? ? ? ? ? [-> | ->] _].
      + apply negb_false_iff, negb_true_iff, bool_decide_eq_false in Hr. done. }
  set (m4 := m3 <| m_truncated := true |>).
  assert (cut_of m m4) as C4 by (destruct C3; split; done).
  pose proof (trim_answers_spec (length (m_answers m4)) m4 m limit C4 ltac:(lia)) as Ht.
  destruct (trim_answers _ _ _ _) as [[w|] m5].
  { destruct Ht as (m' & ? & ? & ? & ?). by eapply (fits_truncated _ _ m m'). }
  destruct Ht as (C5 & A5 & T5). rewrite set_edns_same by apply C5. unfold emit_message.
  destruct (emit m5) as [w|] eqn:He5; [|by apply fits_clipped]. simpl.
  destruct (Z.ltb_spec limit (zlen w)); [by apply fits_clipped|].
  by eapply (fits_truncated _ _ m m5).
Qed.

Lemma truncate_udp_len buf sz : 0 <= udp_limit sz -> zlen (truncate_udp buf sz).1 <= udp_limit sz.
Proof.
  intros Hl. pose proof (truncate_udp_fitted buf sz) as Hf. simpl in Hf.
  destruct (truncate_udp buf sz) as [w c]. simpl in *. destruct Hf; try done. by apply clip_len.
Qed.

(** Whatever upstream or the cache answered, and however the codec behaves,
    the datagram sent to a UDP client is no longer than the payload size it
    announced, or 512 bytes; and so is a locally made error response, on
    either transport. *)
Theorem send_stage_fits (t : Transaction) :
  (protocol t = Udp \/ response_wire t = None) -> 0 <= udp_limit (client_udp_payload_size t) ->
  exists w, (send_stage t).1 = Continue Send /\ response_wire (send_stage t).2 = Some w /\
    zlen w <= udp_limit (client_udp_payload_size t).
Proof.
  intros Hp Hl. unfold send_stage, build_error_response. destruct (response_wire t) as [w|].
  - destruct Hp as [Hp|Hp]; [|done]. rewrite bool_decide_true by done.
    pose proof (truncate_udp_len w (client_udp_payload_size t) Hl) as Hlen.
    destruct (truncate_udp w _) as [w' c]. by exists w'.
  - set (buf := match emit _ with Ok w => w | Err w => w end).
    pose proof (truncate_udp_len buf (client_udp_payload_size t) Hl) as Hlen.
    destruct (truncate_udp buf _) as [w' c]. by exists w'.
Qed.

(** Fitting never cuts a record in two and never drops required data
    silently: the datagram is the answer itself, or a message with the same
    identifier, question, rcode and OPT whose answers are all of them without
    TC, or a prefix of them with TC; only bytes that no message can stand for
    are clipped, and then marked. With a codec that writes the TC flag where
    the protocol has it, the second result says exactly whether records that
    are required were left out, and then the bit is on the wire. *)
Theorem truncate_udp_sound (buf : list Z) (sz : option Z) :
  (forall m w, emit m = Ok w -> m_truncated m = true -> has_tc_bit w = true) ->
  3 <= udp_limit sz ->
  let '(w, cut) := truncate_udp buf sz in
  (cut = true -> has_tc_bit w = true) /\
  (cut = false -> w = buf \/
     exists m m', from_vec buf = Some m /\ emit m' = Ok w /\ cut_of m m' /\
       m_answers m' = m_answers m /\ m_truncated m' = m_truncated m /\
       (m_answers m = [] -> m_name_servers m' = m_name_servers m)) /\
  (cut = true -> (exists m m', from_vec buf = Some m /\ emit m' = Ok w /\ cut_of m m') \/
     exists b, w = clip b (udp_limit sz)).
Proof.
  intros Htc Hl. pose proof (truncate_udp_fitted buf sz) as Hf.
  destruct (truncate_udp buf sz) as [w cut]. simpl in Hf.
  destruct Hf as [?|m m' w Hm Hc He ? Ha Ht Hn|m m' w Hm Hc He ? Ht|w ?]; split_and!; try done.
  - by left.
  - intros _. right. exists m, m'. split_and!; try done. by destruct Hn.
  - intros _. by eapply Htc.
  - intros _. left. eauto.
  - intros _. by apply clip_tc.
  - eauto.
Qed.
End Facts.

(** A codec whose messages are their header bits and one byte per record. *)
#[local] Instance tiny_codec : DnsCodec := {|
  from_vec w :=
    match w with
    | i :: r :: f :: rest =>
        Some (Message_new <| m_id := i |> <| m_response := true |> <| m_truncated := Z.testbit f 1 |>
                <| m_answers := (fun b => MkRR EmptyString 1 1 b []) <$> rest |>)
    | _ => None
    end;
  emit m := Ok (m_id m :: m_rcode m :: (if m_truncated m then 2 else 0) ::
                (rr_ttl <$> m_answers m) ++ (rr_ttl <$> m_name_servers m));
  name_wire _ := None;
|}.

Definition sample_txn (p : ClientProtocol) : Transaction :=
  (Transaction_new 1 (SockV4 0 53) p {| instant_now := 0; system_now := 0 |})
    <| client_udp_payload_size := Some 5 |> <| response_wire := Some [9; 0; 0; 1; 2; 3; 4] |>.

Lemma send_stage_fits_witness :
  exists w, (send_stage (sample_txn Udp)).1 = Continue Send /\
    response_wire (send_stage (sample_txn Udp)).2 = Some w /\ zlen w <= 5.
Proof. apply (send_stage_fits (sample_txn Udp)); [by left|simpl; lia]. Defined.

Lemma tiny_codec_tc m w : emit m = Ok w -> m_truncated m = true -> has_tc_bit w = true.
Proof. intros He Ht. cbn in He. rewrite Ht in He. by injection He as <-. Qed.

Lemma truncate_udp_sound_witness :
  let r := truncate_udp [9; 0; 0; 1; 2; 3; 4] (Some 5) in
  r = ([9; 0; 2; 1; 2], true) /\ has_tc_bit r.1 = true.
Proof.
  intros r. assert (r = ([9; 0; 2; 1; 2], true)) as Hr by reflexivity. split; [exact Hr|].
  pose proof (truncate_udp_sound [9; 0; 0; 1; 2; 3; 4] (Some 5) tiny_codec_tc ltac:(done)) as Hs.
  fold r in Hs. rewrite Hr in *. by apply (proj1 Hs).
Defined.
