(* ===== verification/CacheServe.v ===== *)
(** * CacheServe: cache keys, storage times and the answers served from a cache

    src/crates/conduit-core/src/lookup/cache/key.rs (the key of a query),
    the TTL functions of memory.rs ([ttl_for_wire], [entry_from_wire]),
    serve.rs (the stored answer made into the client's) and [ancestor_qnames] of
    registry.rs. The wire codec is the class of Message.v. *)

From stdpp Require Import strings.
From Stdlib Require Import Ascii String.
From S2P Require Import Prelude Text Transaction Message CacheStore.

#[local] Open Scope string_scope.
#[local] Open Scope list_scope.
#[local] Open Scope Z_scope.

(** ** The cache key *)

Definition KEY_VERSION : Z := 1.

Inductive TransportKey := Complete | UdpTruncated.
Definition as_byte (k : TransportKey) : Z := match k with Complete => 0 | UdpTruncated => 2 end.

(** [n.to_be_bytes()] of a [u16]. *)
Definition be16 (n : Z) : list Z := [Z.shiftr n 8; Z.land n 255].

Definition is_dot (c : ascii) : bool := byte_of c =? 46.

(** The name handed to hickory by [normalize_qname]. *)
Definition normal_name (name : string) : string :=
  let trimmed := trim_end_by is_dot name in
  let lower := to_ascii_lowercase trimmed in
  if String.eqb lower EmptyString then "."
  else if ends_with name "." then String.append lower "."
  else lower.

Fixpoint first_subnet (opts : list EdnsOption) : option (option (list Z)) :=
  match opts with
  | [] => None
  | Subnet e :: _ => Some e
  | _ :: rest => first_subnet rest
  end.

(** The bytes of a key with these fields. *)
Definition key_bytes (normalized : list Z) (qt qc : Z) (cd do_bit : bool) (k : TransportKey)
    (ecs : list Z) : CacheKey :=
  [KEY_VERSION] ++ be16 (wrap 16 (zlen normalized)) ++ normalized ++ be16 qt ++ be16 qc ++
  [Z.lor (Z.shiftl (Z.b2z cd) 1) (Z.b2z do_bit)] ++ [as_byte k] ++ [wrap 8 (zlen ecs)] ++ ecs.

Section Key.
Context `{DnsCodec}.

Definition normalize_qname (name : string) : option (list Z) := name_wire (normal_name name).

Definition dnssec_flags (qwire : list Z) : option (bool * bool) :=
  let! msg := from_vec qwire in
  Some (m_checking_disabled msg, default false (dnssec_ok <$> m_edns msg)).

Definition ecs_option_bytes (qwire : list Z) : option (list Z) :=
  let! msg := from_vec qwire in
  match m_edns msg with
  | None => Some []
  | Some edns =>
      match first_subnet (options edns).*2 with
      | Some encoded => encoded
      | None => Some []
      end
  end.

Definition build_key_from_parts (name : string) (qt qc : Z) (qwire : list Z) (k : TransportKey)
    : option CacheKey :=
  let! fl := dnssec_flags qwire in
  let! ecs := ecs_option_bytes qwire in
  let! normalized := normalize_qname name in
  Some (key_bytes normalized qt qc fl.1 fl.2 k ecs).

Definition build_key (t : Transaction) (k : TransportKey) : option CacheKey :=
  build_key_from_parts (default "." (qname t)) (default 0 (qtype t)) (default 1 (qclass t))
    (query_wire t) k.
Definition build_query_key (t : Transaction) : option CacheKey := build_key t Complete.
Definition build_truncated_udp_key (t : Transaction) : option CacheKey := build_key t UdpTruncated.

(** ** Storage times *)

Definition minimum_ttl_from_message (m : Message) : option Z :=
  foldl (fun min_ttl rr => Some (match min_ttl with None => rr_ttl rr | Some t => Z.min t (rr_ttl rr) end))
    None (m_answers m ++ m_name_servers m).

Definition cacheable_ttl_from_rrset (min_ttl : option Z) (default_if_absent : Z) : option Z :=
  match min_ttl with
  | None => Some default_if_absent
  | Some t => if t =? 0 then None else Some t
  end.

Definition kind_of_message (m : Message) : EntryKind :=
  kind_from_rcode (rcode_low m) (count16 (m_answers m)).

Definition ttl_for_wire (wire : list Z) (negative_enabled : bool) (servfail_ttl_secs : Z) : option Z :=
  let! msg := from_vec wire in
  match kind_of_message msg with
  | ServFail => if servfail_ttl_secs =? 0 then None else Some servfail_ttl_secs
  | NxDomain | NoData =>
      if negb negative_enabled then None
      else cacheable_ttl_from_rrset (minimum_ttl_from_message msg) 300
  | Positive => cacheable_ttl_from_rrset (minimum_ttl_from_message msg) 60
  end.

Definition entry_from_wire (wire : list Z) (negative_enabled : bool) (servfail_ttl_secs now : Z)
    : option CacheEntry :=
  let! msg := from_vec wire in
  let! ttl := ttl_for_wire wire negative_enabled servfail_ttl_secs in
  Some {| ce_kind := kind_of_message msg; ce_wire := wire; ce_filled_at := now;
          ce_expires_at := expires_at_from_ttl now ttl |}.
End Key.

(** ** Serving *)

(** [now.saturating_duration_since(filled_at)] in whole seconds. *)
Definition cache_age_secs (filled_at now : Z) : Z := Z.min (as_secs (sat_sub now filled_at)) u32_max.

Definition decay_section (section : list RR) (age_secs : Z) : list RR :=
  (fun rr => rr <| rr_ttl := sat_sub (rr_ttl rr) age_secs |>) <$> section.

Definition decay_rr_ttls (m : Message) (age_secs : Z) : Message :=
  if age_secs =? 0 then m
  else m <| m_answers := decay_section (m_answers m) age_secs |>
         <| m_name_servers := decay_section (m_name_servers m) age_secs |>
         <| m_additionals := decay_section (m_additionals m) age_secs |>.

(** xorshift64*: the new state is the number drawn. *)
Definition next_serve_rand (x : Z) : Z :=
  let x := Z.lxor x (Z.shiftr x 12) in
  let x := Z.lxor x (wrap 64 (Z.shiftl x 25)) in
  let x := Z.lxor x (Z.shiftr x 27) in
  wrap 64 (x * 0x2545F4914F6CDD1D).

(** One record into the groups, in order of first appearance. *)
Fixpoint add_to_groups (groups : list (string * Z * list RR)) (rr : RR) : list (string * Z * list RR) :=
  match groups with
  | [] => [(rr_name rr, rr_type rr, [rr])]
  | (n, t, rrs) :: rest =>
      if String.eqb n (rr_name rr) && (t =? rr_type rr) then (n, t, push rrs rr) :: rest
      else (n, t, rrs) :: add_to_groups rest rr
  end.

Definition rotate_left {A} (l : list A) (n : nat) : list A := drop n l ++ take n l.

(** Each group of more than one record draws its offset. *)
Fixpoint emit_groups (groups : list (string * Z * list RR)) (rand : Z) : list RR * Z :=
  match groups with
  | [] => ([], rand)
  | (_, _, rrs) :: rest =>
      if 1 <? zlen rrs then
        let rand := next_serve_rand rand in
        let '(out, rand') := emit_groups rest rand in
        (rotate_left rrs (Z.to_nat (rand mod zlen rrs)) ++ out, rand')
      else
        let '(out, rand') := emit_groups rest rand in (rrs ++ out, rand')
  end.

Definition rotate_answer_rrsets (m : Message) (rand : Z) : Message * Z :=
  if zlen (m_answers m) <=? 1 then (m, rand)
  else
    let '(answers, rand) := emit_groups (foldl add_to_groups [] (m_answers m)) rand in
    (m <| m_answers := answers |>, rand).

Section Serve.
Context `{DnsCodec}.

Definition apply_client_query (m : Message) (qwire : list Z) : option Message :=
  let! client := from_vec qwire in
  Some (set_edns (m <| m_queries := m_queries client |>) (m_edns client)).

(** The message served, before it is emitted. *)
Definition served_message (stored : list Z) (query_id : Z) (rotate_rrset : bool)
    (filled_at now : Z) (client_query_wire : option (list Z)) (rand : Z) : option (Message * Z) :=
  let! msg := from_vec stored in
  let msg := msg <| m_id := query_id |> in
  let! msg := match client_query_wire with
              | Some qw => apply_client_query msg qw
              | None => Some msg
              end in
  let msg := decay_rr_ttls msg (cache_age_secs filled_at now) in
  Some (if rotate_rrset then rotate_answer_rrsets msg rand else (msg, rand)).

(** The random state is advanced whether or not the emission succeeds. *)
Definition prepare_served_wire (stored : list Z) (query_id : Z) (rotate_rrset : bool)
    (filled_at now : Z) (client_query_wire : option (list Z)) (rand : Z) : option (list Z) * Z :=
  match served_message stored query_id rotate_rrset filled_at now client_query_wire rand with
  | Some (msg, rand) => (result_ok (emit msg), rand)
  | None => (None, rand)
  end.
End Serve.

(** ** Ancestors (RFC 8020) *)

Fixpoint ancestors_of (labels : list string) : list string :=
  match labels with
  | [] | [_] => []
  | _ :: rest => String.append (join "." rest) "." :: ancestors_of rest
  end.

Definition ancestor_qnames (name : string) : list string :=
  let trimmed := trim_end_by is_dot name in
  if String.eqb trimmed EmptyString || String.eqb trimmed "." then []
  else ancestors_of (split_on "."%char trimmed).

(** ** The key determines the question *)

Lemma be16_inj a b : fits 16 a -> fits 16 b -> be16 a = be16 b -> a = b.
Proof.
  unfold fits, be16. intros Ha Hb [= H1 H2].
  rewrite !Z.shiftr_div_pow2 in H1 by lia.
  change 255 with (Z.ones 8) in H2. rewrite !Z.land_ones in H2 by lia.
  rewrite (Z.div_mod a (2 ^ 8)), (Z.div_mod b (2 ^ 8)) by lia. lia.
Qed.

Lemma key_flags_inj (cd cd' dob dob' : bool) :
  Z.lor (Z.shiftl (Z.b2z cd) 1) (Z.b2z dob) = Z.lor (Z.shiftl (Z.b2z cd') 1) (Z.b2z dob') ->
  cd = cd' /\ dob = dob'.
Proof. by destruct cd, cd', dob, dob'. Qed.

Lemma as_byte_inj k k' : as_byte k = as_byte k' -> k = k'.
Proof. by destruct k, k'. Qed.

(** The lengths a key can record: a name of at most 255 bytes, as DNS has it,
    and a client-subnet option of at most 20. *)
Definition key_parts_ok (normalized : list Z) (qt qc : Z) (ecs : list Z) : Prop :=
  zlen normalized <= 255 /\ fits 16 qt /\ fits 16 qc /\ zlen ecs <= 20.

Lemma key_bytes_inj n qt qc cd dob k e n' qt' qc' cd' dob' k' e' :
  key_parts_ok n qt qc e -> key_parts_ok n' qt' qc' e' ->
  key_bytes n qt qc cd dob k e = key_bytes n' qt' qc' cd' dob' k' e' ->
  n = n' /\ qt = qt' /\ qc = qc' /\ cd = cd' /\ dob = dob' /\ k = k' /\ e = e'.
Proof.
  intros (Hn & Hqt & Hqc & He) (Hn' & Hqt' & Hqc' & He') Heq. unfold key_bytes in Heq.
  pose proof (zlen_nonneg n). pose proof (zlen_nonneg n').
  apply app_inj_1 in Heq as [_ Heq]; [|done].
  apply app_inj_1 in Heq as [Hlen Heq]; [|done].
  apply be16_inj in Hlen; [|by apply wrap_fits..].
  rewrite !wrap_small in Hlen by (unfold fits; lia). unfold zlen in Hlen.
  apply app_inj_1 in Heq as [-> Heq]; [|lia].
  apply app_inj_1 in Heq as [H1%be16_inj Heq]; [|done..].
  apply app_inj_1 in Heq as [H2%be16_inj Heq]; [|done..].
  apply app_inj_1 in Heq as [[= H3%key_flags_inj] Heq]; [|done].
  apply app_inj_1 in Heq as [[= H4%as_byte_inj] Heq]; [|done].
  apply app_inj_1 in Heq as [_ Heq]; [|done]. destruct H3. by subst.
Qed.

(** Lower-casing commutes with the string operations of [normal_name]. *)
Lemma to_lower_dot c : is_dot (to_lower c) = is_dot c.
Proof. destruct c as [[] [] [] [] [] [] [] []]; vm_compute; reflexivity. Qed.

Lemma to_lower_idem c : to_lower (to_lower c) = to_lower c.
Proof. destruct c as [[] [] [] [] [] [] [] []]; vm_compute; reflexivity. Qed.

Lemma lowercase_idem s : to_ascii_lowercase (to_ascii_lowercase s) = to_ascii_lowercase s.
Proof. unfold to_ascii_lowercase. induction s as [|c s IH]; [done|]. cbn. by rewrite to_lower_idem, IH. Qed.

Lemma trim_dots_lowercase s :
  to_ascii_lowercase (trim_end_by is_dot s) = trim_end_by is_dot (to_ascii_lowercase s).
Proof.
  unfold to_ascii_lowercase. induction s as [|c s IH]; [done|]. cbn. rewrite <- IH, to_lower_dot.
  destruct (trim_end_by is_dot s); cbn; [by destruct (is_dot c)|done].
Qed.

Lemma ends_with_dot_lowercase s : ends_with (to_ascii_lowercase s) "." = ends_with s ".".
Proof.
  unfold to_ascii_lowercase. induction s as [|c s IH]; [done|]. cbn [str_map ends_with]. rewrite IH. f_equal.
  destruct s as [|d s].
  - destruct c as [[] [] [] [] [] [] [] []]; vm_compute; reflexivity.
  - cbn. by destruct (Ascii.eqb (to_lower c) _), (Ascii.eqb c _).
Qed.

Lemma normal_name_lowercase s : normal_name (to_ascii_lowercase s) = normal_name s.
Proof.
  unfold normal_name. rewrite <- trim_dots_lowercase, lowercase_idem, ends_with_dot_lowercase. done.
Qed.

Section KeyTheorems.
Context `{DnsCodec}.

(** C37: two queries share a cache key only if they ask the same thing: the same
    normalised name, type, class, CD and DO bits and client subnet, and the
    same kind of answer; so a truncated stub is never found under the key of
    a complete answer. *)
Theorem cache_key_injective (name name' : string) (qt qc qt' qc' : Z) (w w' : list Z)
    (k k' : TransportKey) (key : CacheKey) :
  (forall s b, name_wire s = Some b -> zlen b <= 255) ->
  (forall q b, ecs_option_bytes q = Some b -> zlen b <= 20) ->
  fits 16 qt -> fits 16 qc -> fits 16 qt' -> fits 16 qc' ->
  build_key_from_parts name qt qc w k = Some key ->
  build_key_from_parts name' qt' qc' w' k' = Some key ->
  normalize_qname name = normalize_qname name' /\ qt = qt' /\ qc = qc' /\
  dnssec_flags w = dnssec_flags w' /\ ecs_option_bytes w = ecs_option_bytes w' /\ k = k'.
Proof.
  intros Hname Hecs Hqt Hqc Hqt' Hqc'. unfold build_key_from_parts.
  destruct (dnssec_flags w) as [[cd dob]|]; [|done].
  destruct (ecs_option_bytes w) as [e|] eqn:He; [|done].
  destruct (normalize_qname name) as [n|] eqn:Hn; [|done]. intros [= <-].
  destruct (dnssec_flags w') as [[cd' dob']|]; [|done].
  destruct (ecs_option_bytes w') as [e'|] eqn:He'; [|done].
  destruct (normalize_qname name') as [n'|] eqn:Hn'; [|done]. intros Heq%(inj Some). symmetry in Heq. simpl in Heq.
  apply key_bytes_inj in Heq as (-> & -> & -> & -> & -> & -> & ->);
    [done|split_and!; eauto..].
Qed.

(** The letter case of the name does not matter to the key. *)
Theorem cache_key_case_insensitive (name name' : string) (qt qc : Z) (w : list Z) (k : TransportKey) :
  eq_ignore_ascii_case name name' = true ->
  build_key_from_parts name qt qc w k = build_key_from_parts name' qt qc w k.
Proof.
  intros Heq%String.eqb_eq. unfold build_key_from_parts, normalize_qname.
  by rewrite <- (normal_name_lowercase name), Heq, normal_name_lowercase.
Qed.
End KeyTheorems.

(** ** Serving: what is kept *)

Lemma add_to_groups_perm gs rr : concat (add_to_groups gs rr).*2 ≡ₚ rr :: concat gs.*2.
Proof.
  induction gs as [|[[n t] rrs] gs IH]; [done|]. cbn [add_to_groups]. case_match; cbn.
  - unfold push. rewrite <- app_assoc. simpl. by rewrite Permutation_middle.
  - rewrite IH. by rewrite Permutation_middle.
Qed.

Lemma groups_perm rrs gs : concat (foldl add_to_groups gs rrs).*2 ≡ₚ concat gs.*2 ++ rrs.
Proof.
  revert gs. induction rrs as [|rr rrs IH]; intros gs; simpl; [by rewrite app_nil_r|].
  rewrite IH, add_to_groups_perm. simpl. by rewrite Permutation_middle.
Qed.

Lemma rotate_left_perm {A} (l : list A) n : rotate_left l n ≡ₚ l.
Proof. unfold rotate_left. rewrite Permutation_app_comm. by rewrite take_drop. Qed.

Lemma emit_groups_perm gs rand : (emit_groups gs rand).1 ≡ₚ concat gs.*2.
Proof.
  revert rand. induction gs as [|[[n t] rrs] gs IH]; intros rand; [done|]. cbn [emit_groups].
  case_match.
  - specialize (IH (next_serve_rand rand)). destruct (emit_groups gs _). simpl in *.
    by rewrite rotate_left_perm, IH.
  - specialize (IH rand). destruct (emit_groups gs _). simpl in *. by rewrite IH.
Qed.

Lemma rotate_answers_perm m rand : m_answers (rotate_answer_rrsets m rand).1 ≡ₚ m_answers m.
Proof.
  unfold rotate_answer_rrsets. case_match; [done|].
  pose proof (emit_groups_perm (foldl add_to_groups [] (m_answers m)) rand) as Hp.
  rewrite groups_perm in Hp. by destruct (emit_groups _ _).
Qed.

Lemma rotate_other m rand :
  let m' := (rotate_answer_rrsets m rand).1 in
  m_id m' = m_id m /\ m_rcode m' = m_rcode m /\ m_queries m' = m_queries m /\
  m_name_servers m' = m_name_servers m.
Proof. unfold rotate_answer_rrsets. case_match; [done|]. by destruct (emit_groups _ _). Qed.

(** [decay_rr_ttls] subtracts exactly the age when no TTL runs out. *)
Definition aged (age : Z) (rr : RR) : RR := rr <| rr_ttl := rr_ttl rr - age |>.

Lemma decay_section_exact rrs age :
  (forall rr, rr ∈ rrs -> age <= rr_ttl rr) -> decay_section rrs age = aged age <$> rrs.
Proof.
  intros Hr. unfold decay_section. apply list_fmap_ext. intros i rr Hi%list_elem_of_lookup_2.
  unfold aged, sat_sub. rewrite Z.max_l; [done|]. specialize (Hr rr Hi). lia.
Qed.

Lemma aged_0 (rrs : list RR) : aged 0 <$> rrs = rrs.
Proof.
  rewrite <- (list_fmap_id rrs) at 2. apply list_fmap_ext. intros i [] _.
  unfold aged, set, set_rr_ttl. simpl. by rewrite Z.sub_0_r.
Qed.

Lemma decay_exact m age :
  (forall rr, rr ∈ m_answers m ++ m_name_servers m -> age <= rr_ttl rr) ->
  m_answers (decay_rr_ttls m age) = aged age <$> m_answers m /\
  m_name_servers (decay_rr_ttls m age) = aged age <$> m_name_servers m /\
  m_id (decay_rr_ttls m age) = m_id m /\ m_rcode (decay_rr_ttls m age) = m_rcode m /\
  m_queries (decay_rr_ttls m age) = m_queries m.
Proof.
  intros Hr. unfold decay_rr_ttls. destruct (Z.eqb_spec age 0) as [->|Hne].
  - by rewrite !aged_0.
  - cbn. rewrite !decay_section_exact; [done|set_solver..].
Qed.

Lemma min_fold_le (rrs : list RR) (acc : option Z) t :
  foldl (fun mt rr => Some (match mt with None => rr_ttl rr | Some t => Z.min t (rr_ttl rr) end)) acc rrs
    = Some t ->
  (forall a, acc = Some a -> t <= a) /\ forall rr, rr ∈ rrs -> t <= rr_ttl rr.
Proof.
  revert acc. induction rrs as [|r rrs IH]; intros acc; simpl.
  - intros ->. split; [intros a [= ->]; lia|set_solver].
  - intros [Ha Hr]%IH. specialize (Ha _ eq_refl). split.
    + intros a ->. lia.
    + intros rr [->|Hin]%elem_of_cons; [destruct acc; lia|by apply Hr].
Qed.

Lemma min_fold_ge (rrs : list RR) (acc : option Z) t lo :
  foldl (fun mt rr => Some (match mt with None => rr_ttl rr | Some t => Z.min t (rr_ttl rr) end)) acc rrs
    = Some t ->
  (forall a, acc = Some a -> lo <= a) -> (forall rr, rr ∈ rrs -> lo <= rr_ttl rr) -> lo <= t.
Proof.
  revert acc. induction rrs as [|r rrs IH]; intros acc; simpl; [intros -> Ha _; by apply Ha|].
  intros Hf Ha Hr. apply (IH _ Hf); [|intros; apply Hr; by right]. intros a [= <-].
  pose proof (Hr r ltac:(by left)). destruct acc; [specialize (Ha _ eq_refl)|]; lia.
Qed.

Lemma minimum_ttl_le m t rr :
  minimum_ttl_from_message m = Some t -> rr ∈ m_answers m ++ m_name_servers m -> t <= rr_ttl rr.
Proof. intros Hm Hin. by apply (proj2 (min_fold_le _ _ _ Hm)). Qed.

Lemma min_fold_Some (rrs : list RR) (acc : option Z) :
  (exists a, acc = Some a) \/ rrs <> [] ->
  is_Some (foldl (fun mt rr => Some (match mt with None => rr_ttl rr | Some t => Z.min t (rr_ttl rr) end)) acc rrs).
Proof.
  revert acc. induction rrs as [|r rrs IH]; intros acc Hor; simpl; [|apply IH; eauto].
  destruct Hor as [[a ->]|?]; [by eexists|done].
Qed.

(** For every record stored, the entry's lifetime is at most its TTL, unless it
    is a server failure, which has a lifetime of its own. *)
Lemma entry_ttl_le `{DnsCodec} w ne sf t0 e m :
  entry_from_wire w ne sf t0 = Some e -> ce_kind e <> ServFail -> from_vec w = Some m ->
  forall rr, rr ∈ m_answers m ++ m_name_servers m -> ce_expires_at e <= t0 + rr_ttl rr * NANOS.
Proof.
  intros He Hk Hm rr Hin. unfold entry_from_wire, ttl_for_wire in He. rewrite Hm in He.
  destruct (min_fold_Some (m_answers m ++ m_name_servers m) None) as [t Ht];
    [right; intros Hn; rewrite Hn in Hin; set_solver|].
  assert (t <= rr_ttl rr) as Hle by (by eapply minimum_ttl_le).
  fold (minimum_ttl_from_message m) in Ht. rewrite Ht in He.
  assert (forall d x, cacheable_ttl_from_rrset (Some t) d = Some x -> x = t) as Hc
    by (intros d x; unfold cacheable_ttl_from_rrset; destruct (t =? 0); congruence).
  assert (exists x, x = t /\ ce_expires_at e = expires_at_from_ttl t0 x) as (x & -> & ->);
    [|unfold expires_at_from_ttl, NANOS; lia].
  destruct (kind_of_message m) eqn:Hkm; [| | |by case_match; simplify_eq/=];
    repeat case_match; simplify_eq/=; eauto.
Qed.

Section ServeTheorems.
Context `{DnsCodec}.

(** C36: an answer is served from the cache with its records intact and its TTLs
    honest: for any stored answer but a server failure, at any instant its
    entry is fresh, the answer and authority records served are those stored,
    each with its TTL less the whole seconds since it was stored, and still at
    least one; rotation only permutes the answers. The identifier and the
    question are the client's, the rcode is the stored one. *)
Theorem served_answer_exact (wire qwire : list Z) (ne rotate : bool) (sf t0 now qid rand : Z)
    (e : CacheEntry) (stored client m' : Message) (rand' : Z) :
  entry_from_wire wire ne sf t0 = Some e -> ce_kind e <> ServFail ->
  from_vec wire = Some stored -> from_vec qwire = Some client ->
  t0 <= now -> is_fresh e now = true -> as_secs (now - t0) <= u32_max ->
  served_message (ce_wire e) qid rotate (ce_filled_at e) now (Some qwire) rand = Some (m', rand') ->
  let age := as_secs (now - t0) in
  m_answers m' ≡ₚ (aged age <$> m_answers stored) /\
  m_name_servers m' = aged age <$> m_name_servers stored /\
  (forall rr, rr ∈ m_answers m' ++ m_name_servers m' -> 1 <= rr_ttl rr) /\
  m_id m' = qid /\ m_queries m' = m_queries client /\ m_rcode m' = m_rcode stored.
Proof.
  intros He Hk Hst Hcl Hnow Hfr Hage Hs age. pose proof (entry_ttl_le _ _ _ _ _ _ He Hk Hst) as Hexp.
  assert (ce_wire e = wire /\ ce_filled_at e = t0) as [Hw Hf].
  { unfold entry_from_wire in He. rewrite Hst in He. case_match; [|done]. by simplify_eq/=. }
  assert (forall rr, rr ∈ m_answers stored ++ m_name_servers stored -> age + 1 <= rr_ttl rr) as Httl.
  { intros rr Hrr. specialize (Hexp rr Hrr). unfold is_fresh in Hfr. apply Z.ltb_lt in Hfr.
    assert (age < rr_ttl rr); [|lia]. unfold age, as_secs.
    apply Z.div_lt_upper_bound; unfold NANOS in *; lia. }
  assert (cache_age_secs t0 now = age) as Hca.
  { unfold cache_age_secs, sat_sub, age. rewrite Z.max_l by lia. apply Z.min_l. done. }
  unfold served_message, apply_client_query in Hs. rewrite Hw, Hf, Hst, Hcl, Hca in Hs.
  set (m1 := set_edns _ _) in Hs.
  assert (m_answers m1 = m_answers stored /\ m_name_servers m1 = m_name_servers stored /\
    m_id m1 = qid /\ m_queries m1 = m_queries client /\ m_rcode m1 = m_rcode stored)
    as (Ha & Hn & Hi & Hq & Hr) by (unfold m1, set_edns; destruct (m_edns client); by split_and!).
  destruct (decay_exact m1 age) as (Da & Dn & Di & Dr & Dq).
  { rewrite Ha, Hn. intros rr Hrr. specialize (Httl rr Hrr). lia. }
  assert (m_answers m' ≡ₚ m_answers (decay_rr_ttls m1 age) /\
    m_name_servers m' = m_name_servers (decay_rr_ttls m1 age) /\
    m_id m' = m_id (decay_rr_ttls m1 age) /\ m_queries m' = m_queries (decay_rr_ttls m1 age) /\
    m_rcode m' = m_rcode (decay_rr_ttls m1 age)) as (Pa & Pn & Pi & Pq & Pr).
  { destruct rotate; [|by simplify_eq].
    pose proof (rotate_answers_perm (decay_rr_ttls m1 age) rand).
    destruct (rotate_other (decay_rr_ttls m1 age) rand) as (?&?&?&?).
    destruct (rotate_answer_rrsets _ _). by simplify_eq/=. }
  rewrite Pa, Pn, Pi, Pq, Pr, Da, Dn, Di, Dr, Dq, Ha, Hn, Hi, Hq, Hr. split_and!; try done.
  intros rr [Hrr|Hrr]%elem_of_app; [rewrite Pa, Da, Ha in Hrr|];
    apply list_elem_of_fmap in Hrr as (rr0 & -> & Hin); cbn;
    (assert (age + 1 <= rr_ttl rr0) by (apply Httl, elem_of_app; auto)); lia.
Qed.

(** Nothing is stored that is stale at once: an entry made from an answer is
    fresh from the instant it is stored until its lifetime, a whole number of
    seconds, has passed. *)
Theorem entry_fresh_for_ttl (wire : list Z) (ne : bool) (sf t0 : Z) (e : CacheEntry) :
  (forall m rr, from_vec wire = Some m -> rr ∈ m_answers m ++ m_name_servers m -> 0 <= rr_ttl rr) ->
  0 <= sf -> entry_from_wire wire ne sf t0 = Some e ->
  exists ttl, ttl_for_wire wire ne sf = Some ttl /\ 1 <= ttl /\
    forall now, is_fresh e now = true <-> now < t0 + ttl * NANOS.
Proof.
  intros Hpos Hsf He. unfold entry_from_wire in He. destruct (from_vec wire) as [m|] eqn:Hm; [|done].
  destruct (ttl_for_wire wire ne sf) as [ttl|] eqn:Ht; [|done]. exists ttl. simplify_eq/=.
  split_and!; [done| |intros now; unfold is_fresh; cbn; apply Z.ltb_lt].
  unfold ttl_for_wire in Ht. rewrite Hm in Ht.
  assert (forall d, 1 <= d -> cacheable_ttl_from_rrset (minimum_ttl_from_message m) d = Some ttl -> 1 <= ttl) as Hc.
  { intros d Hd. unfold cacheable_ttl_from_rrset. destruct (minimum_ttl_from_message m) as [t|] eqn:Hmin;
      [|intros [= <-]; done]. destruct (Z.eqb_spec t 0); [done|]. intros [= <-].
    assert (0 <= t); [|lia]. eapply min_fold_ge; [exact Hmin| |]; eauto; done. }
  destruct (kind_of_message m); [exact (Hc 60 ltac:(lia) Ht)|destruct ne; [exact (Hc 300 ltac:(lia) Ht)|done]..|].
  destruct (Z.eqb_spec sf 0); simplify_eq/=; lia.
Qed.
End ServeTheorems.

(** The OPT record served is the client's when the query has one, and else
    the one stored with the answer: a client that did not use EDNS is sent the
    OPT of whichever exchange filled the entry. *)
Theorem served_opt `{DnsCodec} (wire qwire : list Z) (rotate : bool) (filled now qid rand rand' : Z)
    (stored client m' : Message) :
  from_vec wire = Some stored -> from_vec qwire = Some client ->
  served_message wire qid rotate filled now (Some qwire) rand = Some (m', rand') ->
  m_edns m' = or_else (m_edns client) (m_edns stored).
Proof.
  intros Hst Hcl. unfold served_message, apply_client_query. rewrite Hst, Hcl.
  assert (forall m age, m_edns (decay_rr_ttls m age) = m_edns m) as Hd
    by (intros m age; unfold decay_rr_ttls; by case_match).
  assert (forall m r, m_edns (rotate_answer_rrsets m r).1 = m_edns m) as Hr.
  { intros m r. unfold rotate_answer_rrsets. case_match; [done|]. by destruct (emit_groups _ _). }
  destruct rotate.
  - specialize (Hr (decay_rr_ttls (set_edns ((stored <| m_id := qid |>) <| m_queries := m_queries client |>)
      (m_edns client)) (cache_age_secs filled now)) rand).
    destruct (rotate_answer_rrsets _ _). intros [= <- <-]. cbn in Hr. rewrite Hr, Hd.
    unfold set_edns. by destruct (m_edns client).
  - intros [= <- <-]. rewrite Hd. unfold set_edns. by destruct (m_edns client).
Qed.

(** An answer is classified by the low four bits of its rcode: an extended
    rcode such as BADVERS (16) with no answers is taken for NODATA, and kept
    for five minutes when it has no authority records either. *)
Theorem badvers_cached_as_nodata `{DnsCodec} (wire : list Z) (m : Message) (sf now : Z) :
  from_vec wire = Some m -> m_rcode m = 16 -> m_answers m = [] -> m_name_servers m = [] ->
  entry_from_wire wire true sf now =
    Some {| ce_kind := NoData; ce_wire := wire; ce_filled_at := now;
            ce_expires_at := now + 300 * NANOS |}.
Proof.
  intros Hm Hr Ha Hn. unfold entry_from_wire, ttl_for_wire. rewrite Hm.
  unfold kind_of_message, rcode_low, minimum_ttl_from_message. by rewrite Hr, Ha, Hn.
Qed.

(** ** Witnesses *)

Definition sample_answer : Message :=
  Message_new <| m_response := true |>
    <| m_queries := [{| q_name := "A.example."; q_type := 1; q_class := 1 |}] |>
    <| m_answers := [MkRR "a.example." 1 1 30 [192; 0; 2; 1]; MkRR "a.example." 1 1 60 [192; 0; 2; 2]] |>
    <| m_edns := Some {| max_payload := 1232; rcode_high := 0; edns_version := 0; dnssec_ok := false;
                         options := [] |} |>.

Definition plain_query : Message := sample_query <| m_edns := None |>.

(** Wires of one byte; a name is its bytes, when it is short enough. *)
#[local] Instance one_byte_codec : DnsCodec := {|
  from_vec w :=
    if decide (w = [1]) then Some sample_query
    else if decide (w = [2]) then Some sample_answer
    else if decide (w = [3]) then Some plain_query
    else if decide (w = [4]) then Some (Message_new <| m_rcode := 16 |>)
    else None;
  emit m := Ok [m_id m];
  name_wire s :=
    let b := byte_of <$> String.list_ascii_of_string s in
    if zlen b <=? 255 then Some b else None;
|}.

Lemma one_byte_name_len s b : name_wire s = Some b -> zlen b <= 255.
Proof. cbn [name_wire one_byte_codec]. case_match; intros [= <-]. lia. Qed.

Lemma one_byte_ecs_len q b : ecs_option_bytes q = Some b -> zlen b <= 20.
Proof.
  unfold ecs_option_bytes. cbn [from_vec one_byte_codec].
  repeat case_decide; cbn; intros [= <-]; vm_compute; done.
Qed.

Lemma cache_key_injective_witness :
  exists key, build_key_from_parts "A.Example." 1 1 [1] Complete = Some key /\
    build_key_from_parts "a.example." 1 1 [1] Complete = Some key /\
    normalize_qname "A.Example." = normalize_qname "a.example.".
Proof.
  eexists. split; [vm_compute; reflexivity|]. split; [vm_compute; reflexivity|].
  eapply (cache_key_injective "A.Example." "a.example." 1 1 1 1 [1] [1] Complete Complete _
    one_byte_name_len one_byte_ecs_len); try done; vm_compute; reflexivity.
Defined.

Lemma cache_key_case_insensitive_witness :
  eq_ignore_ascii_case "A.Example." "a.example." = true /\
  build_key_from_parts "A.Example." 1 1 [1] Complete = build_key_from_parts "a.example." 1 1 [1] Complete.
Proof. split; [reflexivity|]. by apply cache_key_case_insensitive. Defined.

Lemma served_answer_exact_witness :
  exists e m' r, entry_from_wire [2] true 10 0 = Some e /\
    served_message (ce_wire e) 7 true (ce_filled_at e) (29 * NANOS) (Some [1]) 1 = Some (m', r) /\
    (rr_ttl <$> m_answers m') ≡ₚ [1; 31] /\
    (forall rr, rr ∈ m_answers m' ++ m_name_servers m' -> 1 <= rr_ttl rr).
Proof.
  eexists _, _, _. split; [reflexivity|]. split; [vm_compute; reflexivity|].
  split; [vm_compute; first [reflexivity | apply Permutation_swap]|].
  eapply (served_answer_exact [2] [1] true true 10 0 (29 * NANOS) 7 1 _ sample_answer sample_query);
    try reflexivity; vm_compute; done.
Defined.

Lemma entry_fresh_for_ttl_witness :
  exists e, entry_from_wire [2] true 10 5 = Some e /\
    exists ttl, ttl_for_wire [2] true 10 = Some ttl /\ 1 <= ttl /\
      forall now, is_fresh e now = true <-> now < 5 + ttl * NANOS.
Proof.
  eexists. split; [reflexivity|]. eapply entry_fresh_for_ttl; [|done|reflexivity].
  intros m rr [= <-] Hrr. cbn in Hrr. set_unfold. by destruct Hrr as [->|[->|[]]].
Defined.

Lemma served_opt_witness :
  exists m' r, served_message [2] 7 false 0 0 (Some [3]) 1 = Some (m', r) /\
    m_edns plain_query = None /\ m_edns m' = m_edns sample_answer.
Proof.
  eexists _, _. split; [vm_compute; reflexivity|]. split; [reflexivity|].
  apply (served_opt [2] [3] false 0 0 7 1 1 sample_answer plain_query); reflexivity.
Defined.

Lemma badvers_cached_as_nodata_witness :
  entry_from_wire [4] true 10 0 =
    Some {| ce_kind := NoData; ce_wire := [4]; ce_filled_at := 0; ce_expires_at := 0 + 300 * NANOS |}.
Proof. by apply (badvers_cached_as_nodata [4] (Message_new <| m_rcode := 16 |>)). Defined.
