(* ===== verification/CacheRegistry.v ===== *)
(** * CacheRegistry: single flight, lookup, fill and resume

    src/crates/conduit-core/src/lookup/cache/inflight.rs (the in-flight gates)
    and registry.rs ([LookupCacheRegistry]: [lookup] as [registry_lookup], [fill_from_forward],
    [complete_inflight_miss], [resume_after_wait] and their helpers). The store
    behind an instance is the class [CacheStore] with its laws; the in-memory
    backend of CacheStore.v is shown to be one. The durable store is not: it keeps expiry in
    whole seconds of another clock and removes on lookup; LmdbMap.v says what it does.

    A follower of the synchronous runtime blocks inside [registry_lookup]: there the model
    stops with [WouldBlock], and [lookup_unblocked] is what the thread does when
    the wait is over. Waking a parked transaction is recorded in [woken]. *)

From stdpp Require Import strings gmap.
From Stdlib Require Import String.
From S2P Require Import Prelude Text Transaction Message CacheStore CacheServe.

#[local] Open Scope string_scope.
#[local] Open Scope list_scope.
#[local] Open Scope Z_scope.

(** ** The store interface *)

Class CacheStoreOps (B : Type) := {
  store_get : B -> CacheKey -> Z -> option CacheEntry;
  store_insert : B -> CacheKey -> CacheEntry -> Z -> bool * B;
  store_remove : B -> CacheKey -> bool * B;
}.

Class CacheStoreLaws (B : Type) `{CacheStoreOps B} := {
  store_ok : B -> Prop;
  store_insert_ok b k e now : store_ok b -> store_ok (store_insert b k e now).2;
  store_remove_ok b k : store_ok b -> store_ok (store_remove b k).2;
  store_get_fresh b k now e : store_get b k now = Some e -> is_fresh e now = true;
  store_get_inserted b k e now t : store_ok b -> (store_insert b k e now).1 = true ->
    store_get (store_insert b k e now).2 k t = if is_fresh e t then Some e else None;
  store_get_insert b k e now k' e' t : store_ok b -> k' <> k ->
    store_get (store_insert b k e now).2 k' t = Some e' -> store_get b k' t = Some e';
  store_get_refused b k e now k' e' t : store_ok b -> (store_insert b k e now).1 = false ->
    store_get (store_insert b k e now).2 k' t = Some e' -> store_get b k' t = Some e';
  store_get_removed b k t : store_ok b -> store_get (store_remove b k).2 k t = None;
  store_get_remove b k k' t : store_ok b -> k' <> k ->
    store_get (store_remove b k).2 k' t = store_get b k' t;
}.

(** ** In-flight gates *)

Record InFlightGate := MkGate { leader_active : bool; g_result : option (list Z); waiters : list Z }.

Definition gate_new : InFlightGate := {| leader_active := false; g_result := None; waiters := [] |}.

Inductive InFlightRole := Leader | Follower.

Definition gate_register (g : InFlightGate) (txn_id : Z) (async_wait : bool)
    : InFlightRole * InFlightGate :=
  if leader_active g then
    (Follower, if async_wait
               then {| leader_active := true; g_result := g_result g; waiters := push (waiters g) txn_id |}
               else g)
  else (Leader, {| leader_active := true; g_result := None; waiters := [] |}).

Definition gate_complete (g : InFlightGate) (wire : option (list Z)) : list Z * InFlightGate :=
  (waiters g, {| leader_active := false; g_result := wire; waiters := [] |}).

(** ** The registry *)

Record CacheConfig := {
  cc_name : string;
  negative_enabled : bool;
  nxdomain_covers_descendants : bool;
  servfail_ttl_secs : Z;
  truncated_enabled : bool;
  truncated_ttl_secs : Z;
  rotate_rrset_on_serve : bool;
  on_hit_skip : bool;
}.

Record CacheInstance (B : Type) := MkInstance {
  config : CacheConfig;
  backend : B;
  rebuilding : bool;
  inflight : gmap CacheKey InFlightGate;
}.
Arguments MkInstance {B}.
Arguments config {B}.
Arguments backend {B}.
Arguments rebuilding {B}.
Arguments inflight {B}.

Record Registry (B : Type) := MkRegistry {
  instances : gmap string (CacheInstance B);
  async_coalesce : bool;
  wake_handler : bool;
  serve_rand : Z;
  woken : list Z;
}.
Arguments MkRegistry {B}.
Arguments instances {B}.
Arguments async_coalesce {B}.
Arguments wake_handler {B}.
Arguments serve_rand {B}.
Arguments woken {B}.

Inductive CacheLookupOutcome :=
  | Hit (wire : list Z) (cache_name : string) (skip_response_rules : bool)
  | CacheMiss (key : CacheKey)
  | WaitAsync (key : CacheKey)
  | WouldBlock (key : CacheKey)
  | CacheBypass.

Section Registry.
Context {B : Type} `{CacheStoreOps B} `{DnsCodec}.

Definition put_instance (r : Registry B) (name : string) (i : CacheInstance B) : Registry B :=
  {| instances := <[name := i]> (instances r); async_coalesce := async_coalesce r;
     wake_handler := wake_handler r; serve_rand := serve_rand r; woken := woken r |}.
Definition put_rand (r : Registry B) (x : Z) : Registry B :=
  {| instances := instances r; async_coalesce := async_coalesce r;
     wake_handler := wake_handler r; serve_rand := x; woken := woken r |}.

Definition with_inflight (i : CacheInstance B) (m : gmap CacheKey InFlightGate) : CacheInstance B :=
  {| config := config i; backend := backend i; rebuilding := rebuilding i; inflight := m |}.
Definition with_backend (i : CacheInstance B) (b : B) : CacheInstance B :=
  {| config := config i; backend := b; rebuilding := rebuilding i; inflight := inflight i |}.

(** [InFlightTable::gate_for]: the gate, made if there is none. *)
Definition gate_for (i : CacheInstance B) (key : CacheKey) : InFlightGate * CacheInstance B :=
  match inflight i !! key with
  | Some g => (g, i)
  | None => (gate_new, with_inflight i (<[key := gate_new]> (inflight i)))
  end.

Definition put_gate (i : CacheInstance B) (key : CacheKey) (g : InFlightGate) : CacheInstance B :=
  with_inflight i (<[key := g]> (inflight i)).

Definition inflight_remove (i : CacheInstance B) (key : CacheKey) : CacheInstance B :=
  with_inflight i (delete key (inflight i)).

Definition wake_waiters (r : Registry B) (ids : list Z) : Registry B :=
  if wake_handler r then
    {| instances := instances r; async_coalesce := async_coalesce r;
       wake_handler := wake_handler r; serve_rand := serve_rand r; woken := woken r ++ ids |}
  else r.

(** [hit_from_entry] and, with the entry's age zero, [hit_from_stored]. *)
Definition hit_from (r : Registry B) (i : CacheInstance B) (wire : list Z) (filled_at : Z)
    (t : Transaction) (now : Z) : CacheLookupOutcome * Registry B :=
  let '(out, rand) := prepare_served_wire wire (dns_id t) (rotate_rrset_on_serve (config i))
                        filled_at now (Some (query_wire t)) (serve_rand r) in
  (match out with
   | Some w => Hit w (cc_name (config i)) (on_hit_skip (config i))
   | None => CacheBypass
   end, put_rand r rand).
Definition hit_from_entry (r : Registry B) (i : CacheInstance B) (e : CacheEntry) (t : Transaction)
    (now : Z) : CacheLookupOutcome * Registry B :=
  hit_from r i (ce_wire e) (ce_filled_at e) t now.
Definition hit_from_stored (r : Registry B) (i : CacheInstance B) (wire : list Z) (t : Transaction)
    (now : Z) : CacheLookupOutcome * Registry B :=
  hit_from r i wire now t now.

(** The walk ends at the first ancestor that has no entry ([?] on [get]). *)
Fixpoint ancestor_walk (i : CacheInstance B) (names : list string) (t : Transaction) (now : Z)
    : option CacheEntry :=
  match names with
  | [] => None
  | ancestor :: rest =>
      let! key := build_key_from_parts ancestor (default 0 (qtype t)) (default 1 (qclass t))
                    (query_wire t) Complete in
      let! e := store_get (backend i) key now in
      if bool_decide (ce_kind e = NxDomain) then Some e else ancestor_walk i rest t now
  end.

Definition try_ancestor_nxdomain_hit (i : CacheInstance B) (t : Transaction) (now : Z)
    : option CacheEntry :=
  if negb (negative_enabled (config i)) || negb (nxdomain_covers_descendants (config i)) then None
  else ancestor_walk i (ancestor_qnames (default "." (qname t))) t now.

(** The truncated sibling, for UDP clients of an instance that stores it. *)
Definition truncated_hit (i : CacheInstance B) (t : Transaction) (now : Z) : option CacheEntry :=
  if truncated_enabled (config i) && bool_decide (protocol t = Udp) then
    let! tc_key := build_truncated_udp_key t in store_get (backend i) tc_key now
  else None.

Definition registry_lookup (r : Registry B) (cache_name : string) (t : Transaction) (now : Z)
    : CacheLookupOutcome * Registry B :=
  match instances r !! cache_name with
  | None => (CacheBypass, r)
  | Some i =>
      if rebuilding i then (CacheBypass, r)
      else if negb (cache_lookup_eligible t) then (CacheBypass, r)
      else
        match build_query_key t with
        | None => (CacheBypass, r)
        | Some key =>
            match or_else (store_get (backend i) key now)
                    (or_else (try_ancestor_nxdomain_hit i t now) (truncated_hit i t now)) with
            | Some e => hit_from_entry r i e t now
            | None =>
                let '(g, i) := gate_for i key in
                let '(role, g) := gate_register g (id t) (async_coalesce r) in
                let r := put_instance r cache_name (put_gate i key g) in
                match role with
                | Leader => (CacheMiss key, r)
                | Follower =>
                    if async_coalesce r then (WaitAsync key, r) else (WouldBlock key, r)
                end
            end
        end
  end.

(** What a blocked follower does with the result of its wait. *)
Definition lookup_unblocked (r : Registry B) (cache_name : string) (key : CacheKey)
    (waited : option (list Z)) (t : Transaction) (now : Z) : CacheLookupOutcome * Registry B :=
  match instances r !! cache_name with
  | None => (CacheBypass, r)
  | Some i =>
      let i := inflight_remove i key in
      let r := put_instance r cache_name i in
      match store_get (backend i) key now with
      | Some e => hit_from_entry r i e t now
      | None =>
          match waited with
          | Some w => hit_from_stored r i w t now
          | None => (CacheBypass, r)
          end
      end
  end.

Definition is_truncated_udp_wire (wire : list Z) (t : Transaction) : bool :=
  bool_decide (protocol t = Udp) && default false (m_truncated <$> from_vec wire).

Definition should_store_truncated (c : CacheConfig) (wire : list Z) (t : Transaction) : bool :=
  truncated_enabled c && is_truncated_udp_wire wire t.

(** [let _ = gate.complete(None); inst.inflight.remove(key)]: the waiters the
    gate returns are dropped. *)
Definition abandon_flight (r : Registry B) (cache_name : string) (i : CacheInstance B)
    (key : CacheKey) : Registry B :=
  let '(g, i) := gate_for i key in
  let '(_, g) := gate_complete g None in
  put_instance r cache_name (inflight_remove (put_gate i key g) key).

Definition fill_from_forward (r : Registry B) (cache_name : string) (key : CacheKey)
    (wire : list Z) (t : Transaction) (now : Z) : Registry B :=
  match instances r !! cache_name with
  | None => r
  | Some i =>
      let cfg := config i in
      let store_key := if should_store_truncated cfg wire t then build_truncated_udp_key t else None in
      if rebuilding i then abandon_flight r cache_name i key
      else if negb (is_someb store_key) && is_truncated_udp_wire wire t
      then abandon_flight r cache_name i key
      else
        match entry_from_wire wire (negative_enabled cfg) (servfail_ttl_secs cfg) now with
        | None => abandon_flight r cache_name i key
        | Some e =>
            let e := if is_someb store_key
                     then {| ce_kind := ce_kind e; ce_wire := ce_wire e; ce_filled_at := ce_filled_at e;
                             ce_expires_at := expires_at_from_ttl now (truncated_ttl_secs cfg) |}
                     else e in
            let '(stored, b) := store_insert (backend i) (default key store_key) e now in
            let b :=
              if stored && negb (is_someb store_key) then
                match build_truncated_udp_key t with
                | Some tc_key => (store_remove b tc_key).2
                | None => b
                end
              else b in
            let '(g, i) := gate_for i key in
            let '(ids, g) := gate_complete g (Some wire) in
            wake_waiters
              (put_instance r cache_name (inflight_remove (put_gate (with_backend i b) key g) key)) ids
        end
  end.

Definition complete_inflight_miss (r : Registry B) (cache_name : string) (key : CacheKey) : Registry B :=
  match instances r !! cache_name with
  | None => r
  | Some i =>
      let '(g, i) := gate_for i key in
      let '(ids, g) := gate_complete g None in
      wake_waiters (put_instance r cache_name (inflight_remove (put_gate i key g) key)) ids
  end.

Definition resume_after_wait (r : Registry B) (cache_name : string) (key : CacheKey)
    (t : Transaction) (now : Z) : CacheLookupOutcome * Registry B :=
  match instances r !! cache_name with
  | None => (CacheBypass, r)
  | Some i =>
      let '(g, i) := gate_for i key in
      match store_get (backend i) key now with
      | Some e =>
          let i := inflight_remove i key in
          hit_from_entry (put_instance r cache_name i) i e t now
      | None =>
          match g_result g with
          | Some w =>
              let i := inflight_remove i key in
              hit_from_stored (put_instance r cache_name i) i w t now
          | None => (CacheBypass, put_instance r cache_name i)
          end
      end
  end.
End Registry.

(** ** The in-memory backend is a store *)

Section MemoryStore.
Context (hash : CacheKey -> Z).
Context (iter : Shard -> list (CacheKey * CacheEntry)).
Context (iter_perm : forall s, iter s ≡ₚ map_to_list s).

(** Two turns are enough ([insert_spec]), so the default is never used. *)
Definition memory_ops : CacheStoreOps MemoryCacheBackend := {|
  store_get := cache_get hash;
  store_insert b k e now :=
    match cache_insert hash iter (S (S (Z.to_nat (live_entries b)))) b k e now with
    | Some (o, b') => (io_stored o, b')
    | None => (false, b)
    end;
  store_remove := cache_remove hash;
|}.

(** A backend with a cap, which is what the configuration requires. *)
Definition memory_ok (b : MemoryCacheBackend) : Prop :=
  wf hash b /\ within_cap b /\ 0 < max_entries b < u64_max.

Lemma memory_insert b k e now : memory_ok b ->
  exists n b', @store_insert _ memory_ops b k e now = (true, b') /\ inserted hash b k e now n b'.
Proof.
  intros (Hwf & Hcap & Hm). cbn [store_insert memory_ops].
  destruct (insert_spec hash iter iter_perm (S (S (Z.to_nat (live_entries b)))) b k e now)
    as (n & b' & -> & Hi & _); [done|done|lia| |lia|by exists n, b'].
  destruct Hcap; lia.
Qed.

Lemma cache_get_stored b k t :
  cache_get hash b k t = match stored hash b k with
                         | Some e => if is_fresh e t then Some e else None
                         | None => None
                         end.
Proof. done. Qed.

Lemma memory_remove b k : memory_ok b ->
  memory_ok (cache_remove hash b k).2 /\ stored hash (cache_remove hash b k).2 k = None /\
  forall k', k' <> k -> stored hash (cache_remove hash b k).2 k' = stored hash b k'.
Proof.
  intros (Hwf & Hcap & Hm). unfold cache_remove. fold (stored hash b k).
  destruct (stored hash b k) as [e|] eqn:He; cbn [snd]; [|by split_and!].
  destruct (remove_spec hash b k e Hwf He) as (H1 & (_ & H2 & _) & H3 & H4 & H5).
  split_and!; try done. split_and!; [done|unfold within_cap in *; lia|lia..].
Qed.

Definition memory_laws : @CacheStoreLaws MemoryCacheBackend memory_ops.
Proof.
  refine {| store_ok := memory_ok |}; cbn [store_get store_insert store_remove memory_ops].
  - intros b k e now Hok. destruct (memory_insert b k e now Hok) as (n & b' & Heq & []).
    cbn [store_insert memory_ops] in Heq. rewrite Heq. destruct Hok as (? & ? & ?). split_and!; [done|done|simpl; lia..].
  - intros b k Hok. by apply memory_remove.
  - intros b k now e. rewrite cache_get_stored. case_match; [|done]. case_match; [|done]. by intros [= ->].
  - intros b k e now t Hok _. destruct (memory_insert b k e now Hok) as (n & b' & Heq & []).
    cbn [store_insert memory_ops] in Heq. rewrite Heq. rewrite cache_get_stored. cbn [snd]. by rewrite ins_key.
  - intros b k e now k' e' t Hok Hk. destruct (memory_insert b k e now Hok) as (n & b' & Heq & []).
    cbn [store_insert memory_ops] in Heq. rewrite Heq, !cache_get_stored. cbn [snd].
    destruct (stored hash b' k') eqn:Hs; [|done]. by rewrite (ins_others _ _ Hk Hs).
  - intros b k e now k' e' t Hok Hf. destruct (memory_insert b k e now Hok) as (n & b' & Heq & _).
    cbn [store_insert memory_ops] in Heq. by rewrite Heq in Hf.
  - intros b k t Hok. rewrite cache_get_stored. destruct (memory_remove b k Hok) as (_ & -> & _). done.
  - intros b k k' t Hok Hk. rewrite !cache_get_stored.
    destruct (memory_remove b k Hok) as (_ & _ & Hr). by rewrite Hr.
Defined.
End MemoryStore.

(** ** Single flight *)

Section Flight.
Context {B : Type} `{CacheStoreOps B} `{DnsCodec}.

(** The gate of [key] in the cache [name], if there is one. *)
Definition gate_at (r : Registry B) (name : string) (key : CacheKey) : option InFlightGate :=
  let! i := instances r !! name in inflight i !! key.

Definition leading (r : Registry B) (name : string) (key : CacheKey) : Prop :=
  exists g, gate_at r name key = Some g /\ leader_active g = true.

(** A run of lookups in one cache: each transaction with the time it looks. *)
Fixpoint run_lookups (r : Registry B) (name : string) (ts : list (Transaction * Z))
    : list CacheLookupOutcome * Registry B :=
  match ts with
  | [] => ([], r)
  | (t, now) :: rest =>
      let '(o, r) := registry_lookup r name t now in
      let '(os, r) := run_lookups r name rest in (o :: os, r)
  end.

(** The transactions of a run that were parked on [key], in order. *)
Fixpoint parked_on (key : CacheKey) (ts : list (Transaction * Z)) (os : list CacheLookupOutcome)
    : list Z :=
  match ts, os with
  | (t, _) :: ts, o :: os =>
      match o with
      | WaitAsync k => if decide (k = key) then id t :: parked_on key ts os else parked_on key ts os
      | _ => parked_on key ts os
      end
  | _, _ => []
  end.

Lemma hit_from_registry (r : Registry B) i w f t now : exists o x, hit_from r i w f t now = (o, put_rand r x) /\
  (o = CacheBypass \/ exists wire n s, o = Hit wire n s).
Proof.
  unfold hit_from. destruct (prepare_served_wire _ _ _ _ _ _ _) as [[w'|] x]; eauto 10.
Qed.

(** What a lookup does to the gates: nothing, unless it gets to the gate of its
    own key. *)
Lemma registry_lookup_cases (r : Registry B) name t now :
  (exists o x, registry_lookup r name t now = (o, put_rand r x) /\
     (o = CacheBypass \/ exists w n s, o = Hit w n s)) \/
  (registry_lookup r name t now = (CacheBypass, r)) \/
  exists i k, instances r !! name = Some i /\ build_query_key t = Some k /\
    let '(g, i') := gate_for i k in
    let '(role, g') := gate_register g (id t) (async_coalesce r) in
    registry_lookup r name t now =
      (match role with
       | Leader => CacheMiss k
       | Follower => if async_coalesce r then WaitAsync k else WouldBlock k
       end, put_instance r name (put_gate i' k g')).
Proof.
  unfold registry_lookup. destruct (instances r !! name) as [i|] eqn:Hi; [|by right; left].
  destruct (rebuilding i); [by right; left|].
  destruct (negb (cache_lookup_eligible t)); [by right; left|].
  destruct (build_query_key t) as [k|] eqn:Hk; [|by right; left].
  destruct (or_else _ _) as [e|].
  { left. apply (hit_from_registry r i). }
  right. right. exists i, k. split_and!; [done|done|].
  destruct (gate_for i k) as [g i']. destruct (gate_register g _ _) as [[] g']; [done|].
  cbn [async_coalesce put_instance]. by destruct (async_coalesce r).
Qed.

Lemma gate_at_put (r : Registry B) name i key k g :
  gate_at (put_instance r name (put_gate i k g)) name key =
  if decide (key = k) then Some g else inflight i !! key.
Proof.
  unfold gate_at. cbn. rewrite lookup_insert_eq. cbn.
  destruct (decide (key = k)) as [->|]; [by rewrite lookup_insert_eq|by rewrite lookup_insert_ne].
Qed.

(** The branches of a lookup that finds no answer. *)
Definition no_answer (i : CacheInstance B) (t : Transaction) (now : Z) (k : CacheKey) : Prop :=
  rebuilding i = false /\ cache_lookup_eligible t = true /\ build_query_key t = Some k /\
  store_get (backend i) k now = None /\ try_ancestor_nxdomain_hit i t now = None /\
  truncated_hit i t now = None.

Lemma lookup_leads (r : Registry B) name i t now k :
  instances r !! name = Some i -> no_answer i t now k -> inflight i !! k = None ->
  exists r1, registry_lookup r name t now = (CacheMiss k, r1) /\
    async_coalesce r1 = async_coalesce r /\
    instances r1 !! name = Some (with_inflight i
      (<[k := {| leader_active := true; g_result := None; waiters := [] |}]> (inflight i))).
Proof.
  intros Hi (Hr & He & Hk & Hg & Ha & Ht) Hin. unfold registry_lookup, gate_for.
  rewrite Hi, Hr, He, Hk, Hg, Ha, Ht, Hin. cbn [or_else negb gate_register leader_active gate_new].
  eexists. split_and!; [done|done|]. cbn [instances put_instance]. rewrite lookup_insert_eq.
  unfold put_gate, with_inflight. cbn [config backend rebuilding inflight]. by rewrite insert_insert_eq.
Qed.

Lemma lookup_parks (r : Registry B) name i t now k g :
  instances r !! name = Some i -> no_answer i t now k -> inflight i !! k = Some g ->
  leader_active g = true -> async_coalesce r = true ->
  exists r1, registry_lookup r name t now = (WaitAsync k, r1) /\ async_coalesce r1 = true /\
    instances r1 !! name = Some (with_inflight i
      (<[k := {| leader_active := true; g_result := g_result g; waiters := push (waiters g) (id t) |}]>
         (inflight i))).
Proof.
  intros Hi (Hr & He & Hk & Hg & Ha & Ht) Hin Hl Has. unfold registry_lookup, gate_for.
  rewrite Hi, Hr, He, Hk, Hg, Ha, Ht, Hin. unfold gate_register. rewrite Hl, Has.
  cbn [or_else negb async_coalesce put_instance]. rewrite Has. eexists. split_and!; [done|done|].
  cbn [instances put_instance]. by rewrite lookup_insert_eq.
Qed.

Lemma lookup_hits (r : Registry B) name i t now k e :
  instances r !! name = Some i -> rebuilding i = false -> cache_lookup_eligible t = true ->
  build_query_key t = Some k -> store_get (backend i) k now = Some e ->
  registry_lookup r name t now = hit_from_entry r i e t now.
Proof. intros Hi Hr He Hk Hg. unfold registry_lookup. by rewrite Hi, Hr, He, Hk, Hg. Qed.

(** One lookup while a flight for [key] is on. *)
Lemma lookup_in_flight (r : Registry B) name key g t now :
  gate_at r name key = Some g -> leader_active g = true ->
  let '(o, r') := registry_lookup r name t now in
  o <> CacheMiss key /\ async_coalesce r' = async_coalesce r /\ wake_handler r' = wake_handler r /\
  woken r' = woken r /\
  exists g', gate_at r' name key = Some g' /\ leader_active g' = true /\
    waiters g' = waiters g ++ parked_on key [(t, now)] [o].
Proof.
  intros Hg Hl.
  destruct (registry_lookup_cases r name t now) as [(o & x & -> & Ho)|[->|(i & k & Hi & Hk & Hc)]].
  - split_and!; try done; [by destruct Ho as [->|(?&?&?&->)]|]. exists g. split_and!; [done|done|].
    by destruct Ho as [->|(?&?&?&->)]; simpl; rewrite app_nil_r.
  - split_and!; try done. exists g. split_and!; [done|done|]. simpl. by rewrite app_nil_r.
  - unfold gate_at in Hg. rewrite Hi in Hg. unfold gate_for in Hc.
    destruct (decide (key = k)) as [<-|Hne].
    + rewrite Hg in Hc. unfold gate_register in Hc. rewrite Hl in Hc. rewrite Hc.
      destruct (async_coalesce r) eqn:Ha; (split_and!; [done..|]); eexists;
        (split; [rewrite gate_at_put; by rewrite decide_True|]); cbn; [by rewrite decide_True|].
      by rewrite app_nil_r.
    + destruct (inflight i !! k) as [gk|] eqn:Hgk;
        destruct (gate_register _ (id t) (async_coalesce r)) as [role g'] eqn:Hr; rewrite Hc;
        (split_and!; [by destruct role, (async_coalesce r); simpl; congruence|done..|]);
        exists g; rewrite gate_at_put, decide_False by done;
        (split_and!; [cbn; rewrite ?lookup_insert_ne by done; done|done|]);
        destruct role, (async_coalesce r); cbn; rewrite ?decide_False by done; by rewrite app_nil_r.
Qed.

Lemma parked_on_cons key t ts o os :
  parked_on key (t :: ts) (o :: os) = parked_on key [t] [o] ++ parked_on key ts os.
Proof. destruct t as [t now]. cbn. destruct o; try done. by case_decide. Qed.

Lemma run_in_flight ts (r : Registry B) name key g :
  gate_at r name key = Some g -> leader_active g = true ->
  let '(os, r') := run_lookups r name ts in
  ~ CacheMiss key ∈ os /\ async_coalesce r' = async_coalesce r /\ wake_handler r' = wake_handler r /\
  woken r' = woken r /\
  exists g', gate_at r' name key = Some g' /\ leader_active g' = true /\
    waiters g' = waiters g ++ parked_on key ts os.
Proof.
  revert r g. induction ts as [|[t now] ts IH]; intros r g Hg Hl; cbn [run_lookups].
  - split_and!; try done; [set_solver|]. exists g. split_and!; [done|done|]. simpl. by rewrite app_nil_r.
  - pose proof (lookup_in_flight r name key g t now Hg Hl) as H1.
    destruct (registry_lookup r name t now) as [o r1].
    destruct H1 as (Ho & Ha & Hwh & Hw & g1 & Hg1 & Hl1 & Hw1).
    specialize (IH r1 g1 Hg1 Hl1). destruct (run_lookups r1 name ts) as [os r2].
    destruct IH as (Hos & Ha2 & Hwh2 & Hw2 & g2 & Hg2 & Hl2 & Hws2).
    split_and!; [|congruence..|].
    + rewrite elem_of_cons. intros [?|?]; [by apply Ho|done].
    + exists g2. split_and!; [done|done|]. by rewrite Hws2, Hw1, (parked_on_cons key _ ts), app_assoc.
Qed.

(** The answer [wire] is one a fill stores as the complete answer. *)
Definition fill_stores (i : CacheInstance B) (wire : list Z) (t : Transaction) (now : Z) : Prop :=
  rebuilding i = false /\ is_truncated_udp_wire wire t = false /\
  is_Some (entry_from_wire wire (negative_enabled (config i)) (servfail_ttl_secs (config i)) now).

Lemma gate_for_at (r : Registry B) name i key :
  instances r !! name = Some i ->
  (gate_for i key).1 = default gate_new (gate_at r name key) /\
  config (gate_for i key).2 = config i /\ backend (gate_for i key).2 = backend i.
Proof.
  intros Hi. unfold gate_for, gate_at. rewrite Hi. by destruct (inflight i !! key).
Qed.

Lemma gate_at_removed (r : Registry B) name i key :
  gate_at (put_instance r name (inflight_remove i key)) name key = None.
Proof. unfold gate_at. cbn. rewrite lookup_insert_eq. cbn. by rewrite lookup_delete_eq. Qed.

Lemma wake_waiters_instances (r : Registry B) ids : instances (wake_waiters r ids) = instances r.
Proof. unfold wake_waiters. by destruct (wake_handler r). Qed.

(** The backend after a complete answer is filled in. *)
Definition filled_backend (i : CacheInstance B) (key : CacheKey) (e : CacheEntry) (t : Transaction)
    (now : Z) : B :=
  let '(ok, b) := store_insert (backend i) key e now in
  if ok then match build_truncated_udp_key t with
             | Some tc_key => (store_remove b tc_key).2
             | None => b
             end
  else b.

Lemma fill_complete r name i key wire t now e :
  instances r !! name = Some i -> rebuilding i = false -> is_truncated_udp_wire wire t = false ->
  entry_from_wire wire (negative_enabled (config i)) (servfail_ttl_secs (config i)) now = Some e ->
  exists i', instances (fill_from_forward r name key wire t now) !! name = Some i' /\
    config i' = config i /\ rebuilding i' = rebuilding i /\
    backend i' = filled_backend i key e t now /\ inflight i' !! key = None /\
    (wake_handler r = true -> woken (fill_from_forward r name key wire t now) =
       woken r ++ waiters (default gate_new (gate_at r name key))).
Proof.
  intros Hi Hrb Htc He. unfold fill_from_forward, should_store_truncated. rewrite Hi, Hrb, Htc, !andb_false_r, He.
  cbn [is_someb negb andb default]. unfold filled_backend.
  pose proof (gate_for_at r name i key Hi) as (Hg & Hc & Hb).
  destruct (store_insert (backend i) key e now) as [ok b].
  assert (rebuilding (gate_for i key).2 = rebuilding i) as Hr
    by (unfold gate_for; by destruct (inflight i !! key)).
  destruct (gate_for i key) as [g i']. cbn in Hg, Hc, Hb, Hr. subst g.
  cbn [gate_complete]. rewrite wake_waiters_instances.
  cbn [put_instance instances]. rewrite lookup_insert_eq. eexists. split; [done|].
  split_and!; [done|cbn; congruence|by destruct ok|cbn; by rewrite lookup_delete_eq|].
  intros Hw. unfold wake_waiters. cbn [wake_handler put_instance]. by rewrite Hw.
Qed.

(** A lookup that misses makes its transaction the leader. *)
Lemma lookup_miss_leads (r : Registry B) name t now key r1 :
  registry_lookup r name t now = (CacheMiss key, r1) ->
  exists g, gate_at r1 name key = Some g /\ leader_active g = true /\ waiters g = [] /\
    wake_handler r1 = wake_handler r /\ woken r1 = woken r.
Proof.
  intros Hmiss.
  destruct (registry_lookup_cases r name t now) as [(o & x & E & Ho)|[E|(i & k & Hi & Hk & Hc)]];
    [by rewrite E in Hmiss; destruct Ho as [->|(?&?&?&->)]|by rewrite E in Hmiss|].
  destruct (gate_for i k) as [g i0]. destruct (gate_register g (id t) (async_coalesce r)) as [role g1] eqn:Hr.
  rewrite Hc in Hmiss. destruct role; [|by destruct (async_coalesce r)].
  assert (leader_active g1 = true /\ waiters g1 = []) as [Hl Hws]
    by (unfold gate_register in Hr; destruct (leader_active g); by simplify_eq).
  simplify_eq. exists g1. split_and!; try done. rewrite gate_at_put. by rewrite decide_True.
Qed.

End Flight.

Section Served.
Context {B : Type} `{CacheStoreLaws B} `{DnsCodec}.

Lemma complete_key_ne (t : Transaction) k k' :
  build_query_key t = Some k -> build_truncated_udp_key t = Some k' -> k <> k'.
Proof.
  unfold build_query_key, build_truncated_udp_key, build_key, build_key_from_parts.
  destruct (dnssec_flags (query_wire t)) as [[cd dob]|]; [|done].
  destruct (ecs_option_bytes (query_wire t)) as [ecs|]; [|done].
  destruct (normalize_qname _) as [n|]; [|done]. intros [= <-] [= <-]. unfold key_bytes.
  intros Heq. do 5 apply app_inv_head in Heq. apply app_inv_head in Heq. by simplify_list_eq.
Qed.

Lemma filled_backend_get (i : CacheInstance B) key e t now now' :
  store_ok (backend i) -> build_query_key t = Some key ->
  (store_insert (backend i) key e now).1 = true -> is_fresh e now' = true ->
  store_get (filled_backend i key e t now) key now' = Some e.
Proof.
  intros Hok Hk Hins Hfr. unfold filled_backend.
  pose proof (store_insert_ok _ key e now Hok) as Hok'.
  pose proof (store_get_inserted _ key e now now' Hok Hins) as Hget. rewrite Hfr in Hget.
  destruct (store_insert (backend i) key e now) as [ok b]. cbn in *. subst ok.
  destruct (build_truncated_udp_key t) as [k'|] eqn:Htc; [|done].
  rewrite store_get_remove; [done|done|]. by eapply complete_key_ne.
Qed.

(** C40: a parked transaction gets the leader's answer: after the leader's
    complete answer is stored, a transaction that resumes while the entry is
    fresh is answered from it, with the age and for the query it has then. *)
Theorem waiter_resumes_with_answer (r : Registry B) (name : string) (i : CacheInstance B)
    (key : CacheKey) (wire : list Z) (t t2 : Transaction) (now now2 : Z) (e : CacheEntry) (w : list Z) (x : Z) :
  instances r !! name = Some i -> store_ok (backend i) ->
  build_query_key t = Some key -> rebuilding i = false -> is_truncated_udp_wire wire t = false ->
  entry_from_wire wire (negative_enabled (config i)) (servfail_ttl_secs (config i)) now = Some e ->
  (store_insert (backend i) key e now).1 = true -> is_fresh e now2 = true ->
  let r' := fill_from_forward r name key wire t now in
  prepare_served_wire wire (dns_id t2) (rotate_rrset_on_serve (config i)) now now2 (Some (query_wire t2))
    (serve_rand r') = (Some w, x) ->
  (resume_after_wait r' name key t2 now2).1 = Hit w (cc_name (config i)) (on_hit_skip (config i)).
Proof.
  intros Hi Hok Hk Hrb Htc He Hins Hfr r' Hserve.
  destruct (fill_complete r name i key wire t now e) as (i' & Hi' & Hc & _ & Hb & Hg & _); try done.
  fold r' in Hi'. unfold resume_after_wait, gate_for. rewrite Hi', Hg. cbn [with_inflight backend].
  rewrite Hb, filled_backend_get by done. unfold hit_from_entry, hit_from. cbn [inflight_remove with_inflight config].
  assert (ce_wire e = wire /\ ce_filled_at e = now) as [-> ->].
  { unfold entry_from_wire in He. destruct (from_vec wire); [|done]. case_match; [|done]. by simplify_eq. }
  cbn [put_instance serve_rand]. by rewrite Hc, Hserve.
Qed.

(** An answer that is not stored strands the transactions parked on it: when
    the answer has no usable TTL (or is a truncated one that is not kept) the
    flight ends without waking any of them, and the gate that knew them is
    gone. *)
Theorem unstored_fill_strands_waiters (r : Registry B) (name : string) (i : CacheInstance B)
    (key : CacheKey) (wire : list Z) (t : Transaction) (now : Z) (g : InFlightGate) :
  instances r !! name = Some i -> inflight i !! key = Some g -> waiters g <> [] ->
  is_truncated_udp_wire wire t = false ->
  entry_from_wire wire (negative_enabled (config i)) (servfail_ttl_secs (config i)) now = None ->
  let r' := fill_from_forward r name key wire t now in
  woken r' = woken r /\ gate_at r' name key = None.
Proof.
  intros Hi Hg Hw Htc He r'. unfold r', fill_from_forward, should_store_truncated, abandon_flight, gate_for.
  rewrite Hi, Htc, !andb_false_r, He, Hg. cbn [gate_complete].
  destruct (rebuilding i); (split; [done|apply gate_at_removed]).
Qed.

(** Ending a flight with no answer at all does wake them. *)
Lemma miss_wakes_waiters (r : Registry B) name i key g :
  instances r !! name = Some i -> inflight i !! key = Some g -> wake_handler r = true ->
  woken (complete_inflight_miss r name key) = woken r ++ waiters g.
Proof.
  intros Hi Hg Hw. unfold complete_inflight_miss, gate_for. rewrite Hi, Hg. cbn [gate_complete].
  unfold wake_waiters. cbn [wake_handler put_instance]. by rewrite Hw.
Qed.

Lemma ancestor_walk_Some (i : CacheInstance B) names t now e :
  ancestor_walk i names t now = Some e ->
  exists name k, name ∈ names /\
    build_key_from_parts name (default 0 (qtype t)) (default 1 (qclass t)) (query_wire t) Complete = Some k /\
    store_get (backend i) k now = Some e /\ ce_kind e = NxDomain.
Proof.
  induction names as [|a names IH]; cbn; [done|].
  destruct (build_key_from_parts a _ _ _ _) as [k|] eqn:Hk; [|done].
  destruct (store_get (backend i) k now) as [e'|] eqn:Hg; [|done]. case_bool_decide.
  - intros [= ->]. exists a, k. split_and!; try done. by left.
  - intros (name & k' & Hin & ?)%IH. exists name, k'. split; [by right|done].
Qed.

(** Every hit is justified by a fresh entry: of the complete answer to this
    very question; or of an NXDOMAIN for an ancestor of its name, when the
    instance lets those cover descendants; or of a truncated answer, for a
    UDP client of an instance that keeps them. What is served is that entry's
    wire, aged and rewritten for this client; in particular a TCP client is
    never answered from a truncated stub. *)
Theorem lookup_hit_sound (r r' : Registry B) (cache : string) (t : Transaction) (now : Z)
    (w : list Z) (n : string) (skip : bool) :
  registry_lookup r cache t now = (Hit w n skip, r') ->
  exists i k e, instances r !! cache = Some i /\ cache_lookup_eligible t = true /\
    store_get (backend i) k now = Some e /\ is_fresh e now = true /\
    (prepare_served_wire (ce_wire e) (dns_id t) (rotate_rrset_on_serve (config i)) (ce_filled_at e) now
       (Some (query_wire t)) (serve_rand r)).1 = Some w /\
    (build_query_key t = Some k \/
     (exists a, a ∈ ancestor_qnames (default "." (qname t)) /\ ce_kind e = NxDomain /\
        nxdomain_covers_descendants (config i) = true /\ negative_enabled (config i) = true /\
        build_key_from_parts a (default 0 (qtype t)) (default 1 (qclass t)) (query_wire t) Complete = Some k) \/
     (protocol t = Udp /\ truncated_enabled (config i) = true /\ build_truncated_udp_key t = Some k)).
Proof.
  unfold registry_lookup. destruct (instances r !! cache) as [i|] eqn:Hi; [|done].
  destruct (rebuilding i); [done|]. destruct (cache_lookup_eligible t) eqn:Hel; [|done]. cbn [negb].
  destruct (build_query_key t) as [key|] eqn:Hk; [|done].
  assert (forall e, hit_from_entry r i e t now = (Hit w n skip, r') ->
    (prepare_served_wire (ce_wire e) (dns_id t) (rotate_rrset_on_serve (config i)) (ce_filled_at e) now
       (Some (query_wire t)) (serve_rand r)).1 = Some w) as Hserve.
  { intros e. unfold hit_from_entry, hit_from. destruct (prepare_served_wire _ _ _ _ _ _ _) as [[?|] ?];
      by intros [= <-]. }
  destruct (or_else (store_get (backend i) key now) _) as [e|] eqn:Ho; cycle 1.
  { destruct (gate_for i key) as [g i']. destruct (gate_register g _ _) as [[] ?]; [done|].
    by destruct (async_coalesce _). }
  intros Hh%Hserve. unfold or_else in Ho. destruct (store_get (backend i) key now) as [e0|] eqn:Hget.
  { simplify_eq. exists i, key, e. split_and!; eauto using store_get_fresh. }
  destruct (try_ancestor_nxdomain_hit i t now) as [e0|] eqn:Ha.
  { simplify_eq. unfold try_ancestor_nxdomain_hit in Ha.
    destruct (negative_enabled (config i)) eqn:Hne, (nxdomain_covers_descendants (config i)) eqn:Hnc; try done.
    apply ancestor_walk_Some in Ha as (a & k & Hin & Hka & Hg & Hkind). exists i, k, e.
    split_and!; eauto 10 using store_get_fresh. }
  unfold truncated_hit in Ho. destruct (truncated_enabled (config i) && _) eqn:Htr; [|done].
  apply andb_true_iff in Htr as [Hte Hudp%bool_decide_eq_true].
  destruct (build_truncated_udp_key t) as [k|] eqn:Htk; [|done]. exists i, k, e.
  split_and!; eauto 10 using store_get_fresh.
Qed.

(** The search for an NXDOMAIN above the name gives up at the first ancestor
    that is not cached: an NXDOMAIN for a name further up is not used, though
    it covers the query just as well. *)
Theorem ancestor_search_stops_at_gap (i : CacheInstance B) (t : Transaction) (now : Z)
    (gap above : string) (rest : list string) (kg ka : CacheKey) (e : CacheEntry) :
  ancestor_qnames (default "." (qname t)) = gap :: rest -> above ∈ rest ->
  build_key_from_parts gap (default 0 (qtype t)) (default 1 (qclass t)) (query_wire t) Complete = Some kg ->
  build_key_from_parts above (default 0 (qtype t)) (default 1 (qclass t)) (query_wire t) Complete = Some ka ->
  store_get (backend i) kg now = None ->
  store_get (backend i) ka now = Some e -> ce_kind e = NxDomain ->
  try_ancestor_nxdomain_hit i t now = None.
Proof.
  intros Hn _ Hkg _ Hg _ _. unfold try_ancestor_nxdomain_hit. rewrite Hn. case_match; [done|].
  cbn [ancestor_walk]. by rewrite Hkg, Hg.
Qed.
End Served.

(** ** Witnesses: one cache over the in-memory backend *)

Section Witnesses.
#[local] Existing Instance one_byte_codec.
#[local] Instance sample_store : CacheStoreOps MemoryCacheBackend := memory_ops sample_hash map_to_list.
#[local] Instance sample_laws : CacheStoreLaws MemoryCacheBackend :=
  memory_laws sample_hash map_to_list (fun s => Permutation_refl (map_to_list s)).

Definition sample_config : CacheConfig :=
  {| cc_name := "c"; negative_enabled := true; nxdomain_covers_descendants := true;
     servfail_ttl_secs := 10; truncated_enabled := false; truncated_ttl_secs := 5;
     rotate_rrset_on_serve := false; on_hit_skip := false |}.

Definition sample_instance : CacheInstance MemoryCacheBackend :=
  {| config := sample_config; backend := memory_from_config 1 4; rebuilding := false; inflight := ∅ |}.

Definition sample_registry (i : CacheInstance MemoryCacheBackend) : Registry MemoryCacheBackend :=
  {| instances := {[ "c" := i ]}; async_coalesce := true; wake_handler := true; serve_rand := 1; woken := [] |}.

Definition client_txn (n : Z) : Transaction :=
  (Transaction_new n (SockV4 0 53) Udp {| instant_now := 0; system_now := 0 |})
    <| query_wire := [1] |> <| qname := Some "a.b.example." |> <| qtype := Some 1 |>
    <| qclass := Some 1 |> <| dns_id := n |>.

(** The key of [a.b.example. IN A] with DO and the client's subnet. *)
Definition sample_key : CacheKey :=
  [1; 0; 12; 97; 46; 98; 46; 101; 120; 97; 109; 112; 108; 101; 46; 0; 1; 0; 1; 1; 0;
   7; 0; 1; 24; 0; 10; 0; 0].

Lemma sample_memory_ok : memory_ok sample_hash (memory_from_config 1 4).
Proof. split_and!; [apply from_config_wf|right; done|done..]. Qed.

Lemma sample_no_answer n now m : no_answer (with_inflight sample_instance m) (client_txn n) now sample_key.
Proof.
  split_and!; reflexivity.
Qed.


Lemma sample_serve rand : prepare_served_wire [2] 2 false 3 4 (Some [1]) rand = (Some [2], rand).
Proof. reflexivity. Qed.

Lemma waiter_resumes_with_answer_witness :
  (resume_after_wait (fill_from_forward (sample_registry sample_instance) "c" sample_key [2] (client_txn 1) 3)
     "c" sample_key (client_txn 2) 4).1 = Hit [2] "c" false.
Proof.
  eapply (waiter_resumes_with_answer (sample_registry sample_instance) "c" sample_instance sample_key [2]
    (client_txn 1) (client_txn 2) 3 4);
    [apply lookup_singleton_eq|exact sample_memory_ok|reflexivity|reflexivity|reflexivity|reflexivity| |
     reflexivity|apply sample_serve].
  edestruct (memory_insert sample_hash map_to_list (fun s => Permutation_refl _) (memory_from_config 1 4))
    as (n & b' & Heq & _); [exact sample_memory_ok|].
  exact (f_equal fst Heq).
Defined.

Lemma unstored_fill_strands_waiters_witness :
  let g := {| leader_active := true; g_result := None; waiters := [2; 3] |} in
  let i := with_inflight sample_instance {[ sample_key := g ]} in
  let r' := fill_from_forward (sample_registry i) "c" sample_key [9] (client_txn 1) 3 in
  woken r' = [] /\ gate_at r' "c" sample_key = None.
Proof.
  intros g i. apply (unstored_fill_strands_waiters (sample_registry i) "c" i sample_key [9] (client_txn 1) 3 g);
    [apply lookup_singleton_eq|apply lookup_singleton_eq|done|reflexivity|reflexivity].
Defined.

(** A backend of one shard with one entry. *)
Definition one_entry (k : CacheKey) (e : CacheEntry) : MemoryCacheBackend :=
  {| shard_count := 1; max_entries := 4; live_entries := 1; shards := [{[ k := e ]}] |}.

Lemma one_entry_get k e k' now :
  store_get (one_entry k e) k' now =
  if decide (k' = k) then if is_fresh e now then Some e else None else None.
Proof.
  cbn [store_get sample_store memory_ops]. rewrite cache_get_stored. unfold stored.
  assert (shard_index sample_hash (one_entry k e) k' = 0%nat) as ->
    by (unfold shard_index; cbn; by rewrite Z.mod_1_r).
  change (shard_at (one_entry k e) 0) with ({[ k := e ]} : Shard). case_decide.
  - subst. by rewrite lookup_singleton_eq.
  - by rewrite lookup_singleton_ne.
Qed.

Definition entry_2 (kind : EntryKind) : CacheEntry :=
  {| ce_kind := kind; ce_wire := [2]; ce_filled_at := 0; ce_expires_at := 30 * NANOS |}.

Definition with_entry (k : CacheKey) (kind : EntryKind) : CacheInstance MemoryCacheBackend :=
  with_backend sample_instance (one_entry k (entry_2 kind)).

Lemma with_entry_get k kind : store_get (backend (with_entry k kind)) k 5 = Some (entry_2 kind).
Proof. unfold with_entry. cbn [backend with_backend]. by rewrite one_entry_get, decide_True. Qed.

Lemma sample_hit r : hit_from_entry r (with_entry sample_key Positive) (entry_2 Positive) (client_txn 7) 5 =
  (Hit [7] "c" false, put_rand r (serve_rand r)).
Proof. reflexivity. Qed.

Lemma lookup_hit_sound_witness :
  let r := sample_registry (with_entry sample_key Positive) in
  exists i k e, (registry_lookup r "c" (client_txn 7) 5).1 = Hit [7] "c" false /\
    instances r !! "c" = Some i /\ store_get (backend i) k 5 = Some e /\ is_fresh e 5 = true.
Proof.
  intros r.
  assert (registry_lookup r "c" (client_txn 7) 5 = (Hit [7] "c" false, put_rand r (serve_rand r))) as Hl.
  { rewrite (lookup_hits r "c" (with_entry sample_key Positive) (client_txn 7) 5 sample_key (entry_2 Positive));
      [apply sample_hit|apply lookup_singleton_eq|reflexivity|reflexivity|reflexivity|apply with_entry_get]. }
  destruct (lookup_hit_sound r _ "c" (client_txn 7) 5 [7] "c" false Hl) as (i & k & e & Hi & _ & Hg & Hf & _).
  exists i, k, e. rewrite Hl. by split_and!.
Defined.

(** NXDOMAIN is cached for [example.], nothing for [b.example.]. *)
Definition top_key : CacheKey :=
  [1; 0; 8; 101; 120; 97; 109; 112; 108; 101; 46; 0; 1; 0; 1; 1; 0; 7; 0; 1; 24; 0; 10; 0; 0].

Definition gap_key : CacheKey :=
  [1; 0; 10; 98; 46; 101; 120; 97; 109; 112; 108; 101; 46; 0; 1; 0; 1; 1; 0; 7; 0; 1; 24; 0; 10; 0; 0].

Lemma ancestor_search_stops_at_gap_witness :
  try_ancestor_nxdomain_hit (with_entry top_key NxDomain) (client_txn 1) 5 = None.
Proof.
  apply (ancestor_search_stops_at_gap (with_entry top_key NxDomain) (client_txn 1) 5 "b.example." "example."
    ["example."] gap_key top_key (entry_2 NxDomain));
    [reflexivity|by left|reflexivity|reflexivity| |apply with_entry_get|reflexivity].
  unfold with_entry. cbn [backend with_backend]. by rewrite one_entry_get, decide_False.
Defined.
End Witnesses.
