(* ===== verification/Lookup.v ===== *)
(** * Lookup: the provider chain

    src/crates/conduit-core/src/lookup/stage.rs: [LookupStage::handle] and what it
    calls. The stages it drives (route, forward, wait) are trait objects in the
    program: here they are any functions on the transaction and an environment
    [E], which also supplies the clock. The cache registry is that of
    CacheRegistry.v. Metrics are left out. *)

From stdpp Require Import strings gmap.
From Stdlib Require Import String.
From S2P Require Import Prelude Text Transaction Message CacheStore CacheServe CacheRegistry.

#[local] Open Scope string_scope.
#[local] Open Scope list_scope.
#[local] Open Scope Z_scope.

Definition DEFAULT_LOOKUP_PROFILE : string := "default".

Inductive LookupProvider := ProviderCache (cache_name : string) | ProviderForward.

Record LookupProfile := { lp_name : string; providers : list LookupProvider }.

(** What the stage reads of the snapshot. *)
Record LookupConfig := {
  profiles : gmap string LookupProfile;
  cache_enabled : bool;
  max_attempts : option Z;
  needs_response_wire_meta : bool;
}.

(** A pipeline stage over an environment. *)
Definition Stage (E : Type) : Type := Transaction -> E -> StageOutcome * Transaction * E.

Section LookupStage.
Context {B E : Type} `{CacheStoreOps B} `{DnsCodec}.
Context (read_clock : E -> Z * E).
Context (route forward wait : Stage E).
(** The synchronous wait on another transaction's flight: what it yields, and
    the state it finds. *)
Context (block_on : string -> CacheKey -> E -> Registry B -> option (list Z) * E * Registry B).
Context (cfg : LookupConfig).

(** The environment of the stage; there may be no registry. *)
Definition LookupEnv : Type := E * option (Registry B).

Definition trace_nested (t : Transaction) (e : E) (message : string)
    (pool backend cache : option string) : Transaction * E :=
  match trace_log t with
  | Some _ =>
      let '(now, e) := read_clock e in
      (trace_record_phase t now "lookup" (Some message) pool backend cache, e)
  | None => (t, e)
  end.

(** Store the answer of a leader, or end its flight. *)
Definition settle_flight (t : Transaction) (e : E) (reg : option (Registry B))
    : Transaction * LookupEnv :=
  match reg, lookup_cache_fill t with
  | Some r, Some fill =>
      let t := t <| lookup_cache_fill := None |> in
      match response_wire t with
      | Some wire =>
          let '(now, e) := read_clock e in
          (t, (e, Some (fill_from_forward r (cf_cache_name fill) (cf_key fill) wire t now)))
      | None => (t, (e, Some (complete_inflight_miss r (cf_cache_name fill) (cf_key fill))))
      end
  | Some r, None => (t, (e, Some r))
  | None, _ => (t <| lookup_cache_fill := None |>, (e, None))
  end.

Definition finish_forward_answer (t : Transaction) (env : LookupEnv)
    : StageOutcome * Transaction * LookupEnv :=
  let '(e, reg) := env in
  let '(wait_out, t, e) := wait t e in
  let finish (p : Phase) :=
    let '(t, (e, reg)) := settle_flight t e reg in
    let t := t <| lookup_outcome := Some Answered |> <| answer_source := Some SourceForward |>
               <| cache_instance := None |> in
    let '(t, e) := trace_nested t e "provider forward answered" None None None in
    (Continue p, t, (e, reg)) in
  match wait_out with
  | Continue ResponseRules => finish ResponseRules
  | Continue Send => finish Send
  | DropQuery => (DropQuery, t, (e, reg))
  | _ => finish Send
  end.

Definition run_forward_chain (t : Transaction) (env : LookupEnv)
    : StageOutcome * Transaction * LookupEnv :=
  let '(e, reg) := env in
  let t := t <| cache_lookup_eligible := false |> in
  if default 3 (max_attempts cfg) <=? attempt_count t then
    (Continue Send, set_rcode_name t "SERVFAIL", (e, reg))
  else
    let '(route_out, t, e) := route t e in
    match route_out with
    | Continue Forward =>
        let '(t, e) := trace_nested t e "route selected backend" (selected_pool t)
                         (selected_backend_label t) None in
        let '(forward_out, t, e) := forward t e in
        match forward_out with
        | Suspend WaitResponse =>
            let t := t <| lookup_forward_step := Some Wait |> in
            let '(t, e) := trace_nested t e "provider forward pending" None None None in
            (Suspend Lookup, t, (e, reg))
        | Continue WaitResponse | Continue ResponseRules => finish_forward_answer t (e, reg)
        | Continue Send => (Continue Send, t, (e, reg))
        | DropQuery => (DropQuery, t, (e, reg))
        | _ => (Continue Send, t, (e, reg))
        end
    | DropQuery => (DropQuery, t, (e, reg))
    | _ => (Continue Send, t, (e, reg))
    end.

Definition apply_cache_hit (t : Transaction) (e : E) (wire : list Z) (cache_name : string) (skip : bool)
    : StageOutcome * Transaction * E :=
  let t := record_upstream_response t wire (needs_response_wire_meta cfg) in
  let t := t <| response_wire := Some wire |> <| lookup_outcome := Some Answered |>
             <| answer_source := Some SourceCache |> <| cache_instance := Some cache_name |>
             <| last_forward_ms := 0 |> in
  let '(t, e) := trace_nested t e "provider cache answered" None None (Some cache_name) in
  (Continue (if skip then Send else ResponseRules), t, e).

(** [cache.lookup], with the wait of a synchronous follower inside. *)
Definition cache_lookup (r : Registry B) (cache_name : string) (t : Transaction) (e : E)
    : CacheLookupOutcome * E * Registry B :=
  let '(now, e) := read_clock e in
  match registry_lookup r cache_name t now with
  | (WouldBlock key, r) =>
      let '(waited, e, r) := block_on cache_name key e r in
      let '(now, e) := read_clock e in
      let '(out, r) := lookup_unblocked r cache_name key waited t now in
      (out, e, r)
  | (out, r) => (out, e, r)
  end.

(** [None] is the next provider's turn. *)
Definition try_cache_provider (cache_name : string) (t : Transaction) (env : LookupEnv)
    : option StageOutcome * Transaction * LookupEnv :=
  let '(e, reg) := env in
  match reg with
  | None => (None, t, env)
  | Some r =>
      if negb (cache_enabled cfg) then (None, t, env)
      else
        let '(out, e, r) := cache_lookup r cache_name t e in
        match out with
        | Hit wire cache_name skip =>
            let '(o, t, e) := apply_cache_hit t e wire cache_name skip in (Some o, t, (e, Some r))
        | CacheMiss key =>
            let '(t, e) := trace_nested t e "provider cache miss" None None (Some cache_name) in
            (None, t <| lookup_outcome := Some Miss |>
                     <| lookup_cache_fill := Some {| cf_cache_name := cache_name; cf_key := key |} |>,
             (e, Some r))
        | WaitAsync key =>
            (Some (Suspend Lookup),
             t <| lookup_cache_wait := Some {| cw_cache_name := cache_name; cw_key := key |} |>,
             (e, Some r))
        | WouldBlock _ | CacheBypass =>
            let '(t, e) := trace_nested t e "provider cache bypass" None None (Some cache_name) in
            (None, t, (e, Some r))
        end
  end.

Definition resume_cache_wait (t : Transaction) (w : LookupCacheWait) (env : LookupEnv)
    : StageOutcome * Transaction * LookupEnv :=
  let '(e, reg) := env in
  match reg with
  | None => run_forward_chain t env
  | Some r =>
      let '(now, e) := read_clock e in
      match resume_after_wait r (cw_cache_name w) (cw_key w) t now with
      | (Hit wire cache_name skip, r) =>
          let '(o, t, e) := apply_cache_hit t e wire cache_name skip in (o, t, (e, Some r))
      | (_, r) =>
          run_forward_chain
            (t <| lookup_outcome := Some Miss |>
               <| lookup_cache_fill := Some {| cf_cache_name := cw_cache_name w; cf_key := cw_key w |} |>)
            (e, Some r)
      end
  end.

Fixpoint run_providers (ps : list LookupProvider) (t : Transaction) (env : LookupEnv)
    : StageOutcome * Transaction * LookupEnv :=
  match ps with
  | [] => (Continue ResponseRules, t <| lookup_outcome := Some Miss |>, env)
  | ProviderCache cache_name :: rest =>
      if negb (cache_lookup_eligible t) then
        let '(e, reg) := env in
        let '(t, e) := trace_nested t e "provider cache bypass" None None (Some cache_name) in
        run_providers rest t (e, reg)
      else
        match try_cache_provider cache_name t env with
        | (Some out, t, env) => (out, t, env)
        | (None, t, env) => run_providers rest t env
        end
  | ProviderForward :: _ => run_forward_chain t env
  end.

Definition lookup_stage (t : Transaction) (env : LookupEnv) : StageOutcome * Transaction * LookupEnv :=
  match lookup_cache_wait t with
  | Some w => resume_cache_wait (t <| lookup_cache_wait := None |>) w env
  | None =>
      match lookup_forward_step t with
      | Some Wait => finish_forward_answer (t <| lookup_forward_step := None |>) env
      | None =>
          match profiles cfg !! default DEFAULT_LOOKUP_PROFILE (lookup_profile t) with
          | None => (Continue Send, set_rcode_name t "SERVFAIL", env)
          | Some p => run_providers (providers p) (t <| lookup_profile := Some (lp_name p) |>) env
          end
      end
  end.
End LookupStage.

(** ** What the chain does *)

Section Facts.
Context {B E : Type} `{CacheStoreOps B} `{DnsCodec}.
Context (read_clock : E -> Z * E).
Context (route forward wait : Stage E).
Context (block_on : string -> CacheKey -> E -> Registry B -> option (list Z) * E * Registry B).
Context (cfg : LookupConfig).

#[local] Abbreviation lookup_stage := (lookup_stage read_clock route forward wait block_on cfg).
#[local] Abbreviation run_forward_chain := (run_forward_chain (B := B) read_clock route forward wait cfg).

(** A transaction that is not resuming anything. *)
Definition at_start (t : Transaction) : Prop := lookup_cache_wait t = None /\ lookup_forward_step t = None.

Definition in_profile (t : Transaction) (p : LookupProfile) : Transaction :=
  t <| lookup_profile := Some (lp_name p) |>.

Definition profile_of (t : Transaction) : option LookupProfile :=
  profiles cfg !! default DEFAULT_LOOKUP_PROFILE (lookup_profile t).

Lemma lookup_stage_start t p env : at_start t -> profile_of t = Some p ->
  lookup_stage t env =
  run_providers read_clock route forward wait block_on cfg (providers p) (in_profile t p) env.
Proof. intros [Hw Hs] Hp. unfold Lookup.lookup_stage. unfold profile_of in Hp. by rewrite Hw, Hs, Hp. Qed.

Lemma trace_nested_off (t : Transaction) (e : E) m p b c :
  trace_log t = None -> trace_nested read_clock t e m p b c = (t, e).
Proof. intros Ht. unfold trace_nested. by rewrite Ht. Qed.

(** What [apply_cache_hit] leaves of the transaction. *)
Lemma apply_cache_hit_fields t e w n skip :
  let '(o, t', e') := apply_cache_hit read_clock cfg t e w n skip in
  o = Continue (if skip then Send else ResponseRules) /\
  response_wire t' = Some w /\ answer_source t' = Some SourceCache /\ cache_instance t' = Some n /\
  attempt_count t' = attempt_count t /\ attempts t' = attempts t /\
  cache_lookup_eligible t' = cache_lookup_eligible t /\ lookup_cache_wait t' = lookup_cache_wait t /\
  lookup_forward_step t' = lookup_forward_step t /\ lookup_profile t' = lookup_profile t /\
  started_at t' = started_at t.
Proof.
  unfold apply_cache_hit, record_upstream_response, trace_nested, trace_record_phase.
  destruct (from_vec w) as [m|]; destruct (needs_response_wire_meta cfg); cbn;
    destruct (trace_log t) eqn:Ht; cbn; try (destruct (read_clock e) as [now e']); cbn; rewrite ?Ht; by split_and!.
Qed.

(** A cache hit ends the lookup without going upstream: none of the route,
    forward and wait stages runs, no attempt is counted, the answer is the
    served wire, and the pipeline goes on to the response rules, or straight
    to sending when the cache is configured so. The transaction stays eligible
    for the cache. *)
Theorem cache_hit_is_final (t : Transaction) (p : LookupProfile) (c : string) (rest : list LookupProvider)
    (e e1 : E) (now : Z) (r r' : Registry B) (w : list Z) (n : string) (skip : bool) :
  at_start t -> profile_of t = Some p -> providers p = ProviderCache c :: rest ->
  cache_enabled cfg = true -> cache_lookup_eligible t = true ->
  read_clock e = (now, e1) -> registry_lookup r c (in_profile t p) now = (Hit w n skip, r') ->
  let '(o, t', env') := lookup_stage t (e, Some r) in
  o = Continue (if skip then Send else ResponseRules) /\ env'.2 = Some r' /\
  response_wire t' = Some w /\ answer_source t' = Some SourceCache /\ cache_instance t' = Some n /\
  attempt_count t' = attempt_count t /\ attempts t' = attempts t /\ cache_lookup_eligible t' = true.
Proof.
  intros Hs Hp Hps Hc He Hclk Hhit. rewrite (lookup_stage_start t p _ Hs Hp), Hps.
  cbn [run_providers]. change (cache_lookup_eligible (in_profile t p)) with (cache_lookup_eligible t).
  rewrite He. cbn [negb]. unfold try_cache_provider, cache_lookup. rewrite Hc, Hclk, Hhit. cbn [negb].
  pose proof (apply_cache_hit_fields (in_profile t p) e1 w n skip) as Hf.
  destruct (apply_cache_hit _ _ _ _ _ _ _) as [[o t'] e'].
  destruct Hf as (-> & Hw & Ha & Hi & Hac & Hat & Hel & _). split_and!; try done.
  rewrite Hel. exact He.
Qed.

(** A transaction that may not use the cache goes straight to the forward
    provider. *)
Lemma ineligible_skips_caches ps t env :
  cache_lookup_eligible t = false -> trace_log t = None -> ProviderForward ∈ ps ->
  run_providers read_clock route forward wait block_on cfg ps t env = run_forward_chain t env.
Proof.
  intros He Ht. induction ps as [|[c|] ps IH]; intros Hin; [set_solver|..].
  - cbn [run_providers]. rewrite He. cbn [negb]. destruct env as [e reg].
    rewrite trace_nested_off by done. apply IH. set_solver.
  - done.
Qed.

(** A transaction that has been upstream does not read the cache again: once
    the forward provider has run, a retry that comes back to the lookup stage
    is the forward provider alone, over the same registry. *)
Theorem retry_bypasses_cache (t : Transaction) (p : LookupProfile) (env : E * option (Registry B)) :
  at_start t -> profile_of t = Some p -> ProviderForward ∈ providers p ->
  cache_lookup_eligible t = false -> trace_log t = None ->
  lookup_stage t env = run_forward_chain (in_profile t p) env.
Proof.
  intros Hs Hp Hin He Ht. rewrite (lookup_stage_start t p _ Hs Hp). by apply ineligible_skips_caches.
Qed.

(** The forward provider stops at [max_attempts] (three when not configured):
    at the limit it answers SERVFAIL without routing or sending anything, and
    without touching the registry. *)
Theorem forward_attempts_bounded (t : Transaction) (e : E) (reg : option (Registry B)) :
  default 3 (max_attempts cfg) <= attempt_count t ->
  run_forward_chain t (e, reg) =
    (Continue Send, set_rcode_name (t <| cache_lookup_eligible := false |>) "SERVFAIL", (e, reg)).
Proof.
  intros Hm. unfold Lookup.run_forward_chain. cbn [attempt_count set set_cache_lookup_eligible].
  by rewrite (proj2 (Z.leb_le _ _)).
Qed.

(** A leader that finds no backend leaves its flight open: its client gets
    SERVFAIL, but the registry still has it as the leader for the key, so
    from then on no lookup of that key is ever told to go upstream, and none
    of those parked on it is woken by what the leader did. *)
Theorem failed_leader_holds_key (t : Transaction) (p : LookupProfile) (c : string) (rest : list LookupProvider)
    (e e1 : E) (now : Z) (r r1 : Registry B) (key : CacheKey) :
  at_start t -> profile_of t = Some p -> providers p = ProviderCache c :: ProviderForward :: rest ->
  cache_enabled cfg = true -> cache_lookup_eligible t = true -> trace_log t = None ->
  attempt_count t < default 3 (max_attempts cfg) ->
  read_clock e = (now, e1) -> registry_lookup r c (in_profile t p) now = (CacheMiss key, r1) ->
  (forall t' e', (route t' e').1.1 = Continue Send) ->
  let '(o, t', env') := lookup_stage t (e, Some r) in
  o = Continue Send /\ env'.2 = Some r1 /\
  forall ts, let '(os, r2) := run_lookups r1 c ts in
    ~ CacheMiss key ∈ os /\ woken r2 = woken r1 /\ leading r2 c key.
Proof.
  intros Hs Hp Hps Hc He Ht Hm Hclk Hmiss Hroute. rewrite (lookup_stage_start t p _ Hs Hp), Hps.
  cbn [run_providers]. change (cache_lookup_eligible (in_profile t p)) with (cache_lookup_eligible t).
  rewrite He. cbn [negb]. unfold try_cache_provider, cache_lookup. rewrite Hc, Hclk, Hmiss. cbn [negb].
  rewrite trace_nested_off by done. unfold Lookup.run_forward_chain.
  set (t1 := set cache_lookup_eligible false _). change (attempt_count t1) with (attempt_count t).
  rewrite (proj2 (Z.leb_gt _ _)) by done. specialize (Hroute t1 e1).
  destruct (route t1 e1) as [[o t2] e2]. cbn in Hroute. subst o. split_and!; [done|done|].
  intros ts. destruct (lookup_miss_leads r c (in_profile t p) now key r1 Hmiss) as (g & Hg & Hl & _).
  pose proof (run_in_flight ts r1 c key g Hg Hl) as Hrun. destruct (run_lookups r1 c ts) as [os r2].
  destruct Hrun as (Hno & _ & _ & Hw & g2 & Hg2 & Hl2 & _). split_and!; [done|done|by exists g2].
Qed.
End Facts.

(** ** Witnesses: a clock that counts, a router that finds nothing *)

Section Witnesses.
#[local] Existing Instance one_byte_codec.
#[local] Existing Instance sample_store.

Definition tick (e : Z) : Z * Z := (e, e + 1).
Definition no_backend : Stage Z := fun t e => (Continue Send, set_rcode_name t "SERVFAIL", e).
Definition no_block (c : string) (k : CacheKey) (e : Z) (r : Registry MemoryCacheBackend) :
  option (list Z) * Z * Registry MemoryCacheBackend := (None, e, r).

Definition sample_profile : LookupProfile :=
  {| lp_name := "default"; providers := [ProviderCache "c"; ProviderForward] |}.

Definition sample_lookup : LookupConfig :=
  {| profiles := {[ "default" := sample_profile ]}; cache_enabled := true; max_attempts := None;
     needs_response_wire_meta := false |}.

Lemma sample_profile_of t : lookup_profile t = None -> profile_of sample_lookup t = Some sample_profile.
Proof. intros Ht. unfold profile_of. rewrite Ht. apply lookup_singleton_eq. Qed.

Lemma cache_hit_is_final_witness :
  let r := sample_registry (with_entry sample_key Positive) in
  let '(o, t', env') :=
    lookup_stage tick no_backend no_backend no_backend no_block sample_lookup (client_txn 7) (5, Some r) in
  o = Continue ResponseRules /\ response_wire t' = Some [7] /\ attempt_count t' = 0 /\
  cache_lookup_eligible t' = true.
Proof.
  intros r.
  assert (registry_lookup r "c" (in_profile (client_txn 7) sample_profile) 5 =
    (Hit [7] "c" false, put_rand r (serve_rand r))) as Hl.
  { rewrite (lookup_hits r "c" (with_entry sample_key Positive) (in_profile (client_txn 7) sample_profile) 5
      sample_key (entry_2 Positive));
      [reflexivity|apply lookup_singleton_eq|reflexivity|reflexivity|reflexivity|apply with_entry_get]. }
  pose proof (cache_hit_is_final tick no_backend no_backend no_backend no_block sample_lookup (client_txn 7)
    sample_profile "c" [ProviderForward] 5 6 5 r _ [7] "c" false (conj eq_refl eq_refl)
    (sample_profile_of (client_txn 7) eq_refl) eq_refl eq_refl eq_refl eq_refl Hl) as Hf.
  destruct (lookup_stage _ _ _ _ _ _ _ _) as [[o t'] env']. by destruct Hf as (-> & _ & -> & _ & _ & -> & _ & ->).
Defined.

Lemma retry_bypasses_cache_witness :
  let t := (client_txn 7) <| cache_lookup_eligible := false |> in
  let env := (5, Some (sample_registry sample_instance)) in
  lookup_stage tick no_backend no_backend no_backend no_block sample_lookup t env =
  run_forward_chain tick no_backend no_backend no_backend sample_lookup (in_profile t sample_profile) env.
Proof.
  intros t env. apply (retry_bypasses_cache tick no_backend no_backend no_backend no_block sample_lookup t
    sample_profile env); [done|by apply sample_profile_of|right; by left|done|done].
Defined.

Lemma forward_attempts_bounded_witness :
  let t := (client_txn 7) <| attempt_count := 3 |> in
  (run_forward_chain (B := MemoryCacheBackend) tick no_backend no_backend no_backend sample_lookup t (5, None)).1.1
    = Continue Send.
Proof.
  intros t. rewrite (forward_attempts_bounded tick no_backend no_backend no_backend sample_lookup t 5 None);
    [done|simpl; lia].
Defined.

Lemma failed_leader_holds_key_witness :
  let r := sample_registry sample_instance in
  exists r1, registry_lookup r "c" (in_profile (client_txn 1) sample_profile) 5 = (CacheMiss sample_key, r1) /\
    leading r1 "c" sample_key.
Proof.
  intros r.
  destruct (lookup_leads r "c" sample_instance (in_profile (client_txn 1) sample_profile) 5 sample_key)
    as (r1 & Hmiss & _); [apply lookup_singleton_eq|by split_and!|apply lookup_empty|].
  pose proof (failed_leader_holds_key tick no_backend no_backend no_backend no_block sample_lookup (client_txn 1)
    sample_profile "c" [] 5 6 5 r r1 sample_key (conj eq_refl eq_refl) (sample_profile_of (client_txn 1) eq_refl)
    eq_refl eq_refl eq_refl eq_refl ltac:(simpl; lia) eq_refl Hmiss (fun _ _ => eq_refl)) as Hf.
  destruct (lookup_stage _ _ _ _ _ _ _ _) as [[o t'] env']. destruct Hf as (_ & _ & Hf).
  exists r1. split; [exact Hmiss|]. apply (Hf []).
Defined.
End Witnesses.
