(* ===== verification/Orchestrator.v ===== *)
(** * Orchestrator: the phase machine

    src/crates/conduit-core/src/orchestrator.rs: [run_loop], [run_until_suspend],
    [resume_after_suspend], [resume_inline_wait], [run], with [next_phase],
    [phase_name], [observe_after_request_rules] and [finalize_trace]. Stages are
    functions on the transaction and an environment that supplies the clock;
    the loop has fuel, and the theorems say when it is enough. Metrics, events
    and log lines are left out; a trace handed to the trace store is a result of
    the run. *)

From stdpp Require Import strings gmap.
From Stdlib Require Import String.
From S2P Require Import Prelude Text Transaction Message Send CacheStore CacheServe CacheRegistry Lookup Selectors Script Rules.

#[local] Open Scope string_scope.
#[local] Open Scope list_scope.
#[local] Open Scope Z_scope.

Inductive RunOutcome := Response (wire : list Z) | Dropped.

Inductive OrchestratorRun := Finished (o : RunOutcome) | Suspended (resume_phase : Phase).

Definition phase_name (p : Phase) : string :=
  match p with
  | Receive => "receive" | Parse => "parse" | RequestRules => "request_rules"
  | Lookup => "lookup" | ResponseRules => "response_rules" | Send => "send"
  | Route | Forward | WaitResponse => "lookup"
  end.

Definition next_phase (p : Phase) : Phase :=
  match p with
  | Receive => Parse
  | Parse => RequestRules
  | RequestRules => Lookup
  | Lookup => ResponseRules
  | ResponseRules => Send
  | Send => Send
  | Route | Forward | WaitResponse => Lookup
  end.

(** What the loop reads of the snapshot and of the tracing hub. *)
Record RunConfig := {
  max_txn_duration_ms : option Z;
  generation : Z;
  tracing_hub : bool;
  tracing_master_enabled : bool;
  trace_activation : Transaction -> bool;
}.

(** One turn of the loop: go round again, or return with the trace to store. *)
Inductive Turn (E : Type) :=
  | Again (t : Transaction) (e : E)
  | Return (r : OrchestratorRun) (t : Transaction) (e : E) (trace : option (list TraceEvent)).
Arguments Again {E}.
Arguments Return {E}.

Section Machine.
Context {E : Type}.
Context (read_clock : E -> Z * E).
Context (show_addr : SocketAddr -> string).
Context (stages : Phase -> option (Stage E)).
Context (pin : option MetricsPin).
Context (cfg : RunConfig).

(** The trace part of [observe_after_request_rules]. *)
Definition observe_after_request_rules (t : Transaction) : Transaction :=
  match qname t, trace_log t with
  | Some _, None =>
      if tracing_hub cfg && tracing_master_enabled cfg && trace_activation cfg t
      then t <| trace_log := Some [] |> else t
  | _, _ => t
  end.

Definition finalize_trace (t : Transaction) : Transaction * option (list TraceEvent) :=
  if tracing_hub cfg then
    match trace_log t with
    | Some log => (t <| trace_log := None |>, match log with [] => None | _ :: _ => Some log end)
    | None => (t, None)
    end
  else (t, None).

(** The end of the loop: what is sent, and the trace. *)
Definition finish (t : Transaction) (e : E) : Turn E :=
  let outcome := match response_wire t with Some wire => Response wire | None => Dropped end in
  let '(t, trace) := finalize_trace t in
  Return (Finished outcome) t e trace.

Definition max_duration_ns : Z := default 5000 (max_txn_duration_ms cfg) * 1000000.

(** The deadline check at the head of a turn. *)
Definition check_deadline (t : Transaction) (now : Z) : Transaction :=
  if max_duration_ns <? elapsed now (started_at t)
  then (set_rcode_name t "SERVFAIL") <| current_phase := Send |> else t.

(** [txn.trace_record_phase], which reads the clock when there is a trace. *)
Definition trace_phase (t : Transaction) (e : E) (p : Phase) : Transaction * E :=
  match trace_log t with
  | Some _ =>
      let '(now, e) := read_clock e in
      (trace_record_phase t now (phase_name p) None (selected_pool t)
         (selected_backend_display show_addr t) None, e)
  | None => (t, e)
  end.

Definition turn (t : Transaction) (e : E) : Turn E :=
  let '(now, e) := read_clock e in
  let t := check_deadline t now in
  match stages (current_phase t) with
  | None =>
      if bool_decide (current_phase t = Send) then finish t e
      else Again (t <| current_phase := next_phase (current_phase t) |>) e
  | Some stage =>
      let phase := current_phase t in
      let '(outcome, t, e) := stage t e in
      let '(t, e) := trace_phase t e phase in
      let t := if bool_decide (phase = RequestRules) then observe_after_request_rules t else t in
      match outcome with
      | DropQuery => Return (Finished Dropped) t e None
      | Suspend resume_phase =>
          let '(now, e) := read_clock e in
          Return (Suspended resume_phase) (t <| suspend_phase_started_at := Some now |>) e None
      | Continue next =>
          let t := t <| current_phase := next |> in
          if bool_decide (phase = Send) then finish t e else Again t e
      end
  end.

Definition RunResult : Type := OrchestratorRun * Transaction * E * option (list TraceEvent).

Fixpoint run_turns (fuel : nat) (t : Transaction) (e : E) : option RunResult :=
  match fuel with
  | O => None
  | S fuel =>
      match turn t e with
      | Again t e => run_turns fuel t e
      | Return r t e trace => Some (r, t, e, trace)
      end
  end.

Definition run_loop (fuel : nat) (resumed : bool) (t : Transaction) (e : E) : option RunResult :=
  let t := if resumed then t
           else t <| snapshot_generation := generation cfg |> <| current_phase := Parse |>
                  <| metrics_pin := pin |> in
  run_turns fuel t e.

Definition run_until_suspend (fuel : nat) (t : Transaction) (e : E) : option RunResult :=
  run_loop fuel false t e.

(** [metrics]: no hub, or a hub that is enabled, takes the start of the wait. *)
Definition resume_after_suspend (fuel : nat) (hub : option bool) (t : Transaction) (e : E)
    (resume_phase : Phase) : option RunResult :=
  let takes := match hub with Some enabled => enabled | None => true end in
  let waits := bool_decide (resume_phase = Lookup) || bool_decide (resume_phase = WaitResponse) in
  let t := if waits && takes then t <| suspend_phase_started_at := None |> else t in
  run_loop fuel true (t <| current_phase := resume_phase |>) e.

(** The phase the stage continues to is written, and then overwritten by
    [run_until_suspend], which starts at [Parse]. *)
Definition resume_inline_wait (fuel : nat) (t : Transaction) (e : E) (resume_phase : Phase)
    : option RunResult :=
  let t := t <| current_phase := resume_phase |> in
  match stages resume_phase with
  | Some stage =>
      let '(outcome, t, e) := stage t e in
      match outcome with
      | DropQuery => Some (Finished Dropped, t, e, None)
      | Continue next => run_until_suspend fuel (t <| current_phase := next |>) e
      | Suspend next => Some (Suspended next, t, e, None)
      end
  | None => run_until_suspend fuel (t <| current_phase := next_phase resume_phase |>) e
  end.

(** [n] bounds the suspensions completed inline. *)
Fixpoint run_inline (n fuel : nat) (step : RunResult) : option RunResult :=
  match step with
  | (Finished _, _, _, _) => Some step
  | (Suspended resume_phase, t, e, _) =>
      match n with
      | O => None
      | S n => let! step := resume_inline_wait fuel t e resume_phase in run_inline n fuel step
      end
  end.

Definition run (n fuel : nat) (t : Transaction) (e : E) : option RunResult :=
  let! step := run_until_suspend fuel t e in run_inline n fuel step.
End Machine.

(** ** The deadline bounds every run *)

Section Facts.
Context {E : Type}.
Context (read_clock : E -> Z * E).
Context (show_addr : SocketAddr -> string).
Context (stages : Phase -> option (Stage E)).
Context (pin : option MetricsPin).
Context (cfg : RunConfig).

#[local] Abbreviation turn := (turn read_clock show_addr stages cfg).
#[local] Abbreviation run_turns := (run_turns read_clock show_addr stages cfg).
#[local] Abbreviation run_loop := (run_loop read_clock show_addr stages pin cfg).

Lemma trace_phase_fields t e p :
  let t' := (trace_phase read_clock show_addr t e p).1 in
  started_at t' = started_at t /\ response_wire t' = response_wire t /\ rcode t' = rcode t /\
  protocol t' = protocol t /\ current_phase t' = current_phase t /\ attempt_count t' = attempt_count t /\
  cache_lookup_eligible t' = cache_lookup_eligible t /\ lookup_cache_wait t' = lookup_cache_wait t /\
  lookup_forward_step t' = lookup_forward_step t /\ lookup_profile t' = lookup_profile t /\
  (trace_log t = None -> t' = t).
Proof.
  unfold trace_phase, trace_record_phase. destruct (trace_log t) eqn:Ht; [|by split_and!].
  destruct (read_clock e) as [now e']. by split_and!.
Qed.

Lemma check_deadline_fields t now :
  let t' := check_deadline cfg t now in
  started_at t' = started_at t /\ response_wire t' = response_wire t /\ protocol t' = protocol t /\
  client_udp_payload_size t' = client_udp_payload_size t.
Proof. unfold check_deadline. by case_match. Qed.

Lemma observe_after_rules_fields t :
  let t' := observe_after_request_rules cfg t in
  started_at t' = started_at t /\ response_wire t' = response_wire t /\ protocol t' = protocol t.
Proof. unfold observe_after_request_rules. by repeat case_match. Qed.

(** A turn at the send phase is the last. *)
Lemma send_turn_returns t e :
  current_phase (check_deadline cfg t (read_clock e).1) = Send ->
  exists r t' e' trace, turn t e = Return r t' e' trace.
Proof.
  intros Hs. unfold Orchestrator.turn. destruct (read_clock e) as [now e1]. cbn in Hs. rewrite Hs.
  assert (forall t e, exists r t' e' trace, finish cfg t e = Return (E := E) r t' e' trace) as Hfin.
  { intros t0 e0. unfold finish. destruct (finalize_trace cfg t0). eauto. }
  destruct (stages Send) as [stage|].
  - destruct (stage _ e1) as [[o t2] e2]. destruct (trace_phase _ _ t2 e2 Send) as [t3 e3].
    rewrite (bool_decide_false (Send = RequestRules)), bool_decide_true by done.
    destruct o; [apply Hfin|eauto|]. destruct (read_clock e3). eauto.
  - rewrite bool_decide_true by done. apply Hfin.
Qed.

(** After the deadline a turn is the last. *)
Lemma overdue_turn_returns t e :
  max_duration_ns cfg < elapsed (read_clock e).1 (started_at t) ->
  exists r t' e' trace, turn t e = Return r t' e' trace.
Proof.
  intros Hd. apply send_turn_returns. unfold check_deadline. by rewrite (proj2 (Z.ltb_lt _ _)).
Qed.

Lemma turn_on_time t e :
  (exists r t' e' trace, turn t e = Return r t' e' trace) \/ check_deadline cfg t (read_clock e).1 = t.
Proof.
  destruct (Z.ltb_spec (max_duration_ns cfg) (elapsed (read_clock e).1 (started_at t))).
  - left. by apply overdue_turn_returns.
  - right. unfold check_deadline. by rewrite (proj2 (Z.ltb_ge _ _)).
Qed.

(** A clock and stages under which time passes: [clk] is the time an environment
    stands at; reading the clock takes time, and no stage turns time back or
    rewrites the transaction's start. *)
Record timely (clk : E -> Z) : Prop := {
  timely_clock e : clk e <= (read_clock e).1 < clk (read_clock e).2;
  timely_stage p s t e : stages p = Some s -> clk e <= clk (s t e).2;
  timely_start p s t e : stages p = Some s -> started_at (s t e).1.2 = started_at t;
}.

Lemma turn_progress clk t e : timely clk ->
  match turn t e with
  | Again t' e' => started_at t' = started_at t /\ clk e < clk e'
  | Return _ _ _ _ => True
  end.
Proof.
  intros [Hc Hs Hst]. unfold Orchestrator.turn. pose proof (Hc e) as Hce.
  destruct (read_clock e) as [now e1]. cbn in Hce.
  destruct (check_deadline_fields t now) as (Hd & _). set (t1 := check_deadline cfg t now) in *.
  destruct (stages (current_phase t1)) as [s|] eqn:Hph.
  - pose proof (Hs _ _ t1 e1 Hph) as Hcs. pose proof (Hst _ _ t1 e1 Hph) as Hss.
    destruct (s t1 e1) as [[o t2] e2]. cbn in Hcs, Hss.
    pose proof (trace_phase_fields t2 e2 (current_phase t1)) as (Htr & _).
    assert (clk e2 <= clk (trace_phase read_clock show_addr t2 e2 (current_phase t1)).2) as Hct.
    { unfold trace_phase. destruct (trace_log t2); [|done]. pose proof (Hc e2).
      destruct (read_clock e2). cbn in *. lia. }
    destruct (trace_phase _ _ t2 e2 _) as [t3 e3]. cbn in Htr, Hct.
    destruct (observe_after_rules_fields t3) as (Hob & _).
    destruct o as [next| |p]; [|done|by destruct (read_clock e3)].
    assert (forall b, started_at ((if b : bool then observe_after_request_rules cfg t3 else t3)
      <| current_phase := next |>) = started_at t) as Hfinal
      by (intros []; cbn [started_at set set_current_phase]; congruence).
    destruct (bool_decide (current_phase t1 = Send));
      [unfold finish; by destruct (finalize_trace cfg _)|]. split; [apply Hfinal|lia].
  - case_bool_decide; [unfold finish; by destruct (finalize_trace cfg t1)|]. cbn. split; [done|lia].
Qed.

Lemma run_turns_ends clk fuel t e :
  timely clk -> started_at t + max_duration_ns cfg - clk e + 1 < Z.of_nat fuel ->
  0 <= max_duration_ns cfg -> exists res, run_turns (S fuel) t e = Some res.
Proof.
  intros Ht. revert t e. induction fuel as [|fuel IH]; intros t e Hf Hm; cbn [Orchestrator.run_turns].
  - destruct (overdue_turn_returns t e) as (r & t' & e' & tr & ->); [|eauto].
    destruct Ht as [Hc _ _]. specialize (Hc e). unfold elapsed, sat_sub. lia.
  - pose proof (turn_progress clk t e Ht) as Hp. destruct (turn t e) as [t' e'|r t' e' tr]; [|eauto].
    destruct Hp as [Hs Hc]. apply IH; [rewrite Hs; lia|done].
Qed.

(** C6: every run of the pipeline ends by its deadline: whatever the stages do,
    however rules and retries send the transaction round, if reading the clock
    takes at least a nanosecond the loop returns within as many turns as there
    are nanoseconds to the deadline. *)
Theorem run_loop_terminates (clk : E -> Z) (resumed : bool) (t : Transaction) (e : E) (fuel : nat) :
  timely clk -> 0 <= max_duration_ns cfg ->
  started_at t + max_duration_ns cfg - clk e + 2 < Z.of_nat fuel -> (0 < fuel)%nat ->
  exists res, run_loop fuel resumed t e = Some res.
Proof.
  intros Ht Hm Hf Hpos. unfold Orchestrator.run_loop. destruct fuel as [|fuel]; [lia|].
  apply (run_turns_ends clk); [done| |done]. destruct resumed; cbn; lia.
Qed.

(** ** What a finished run sends *)

(** A stage dropped the query at some point of the run. *)
Definition some_stage_drops : Prop :=
  exists p s t e, stages p = Some s /\ (s t e).1.1 = DropQuery.

(** The send stage of Send.v in an environment. *)
Definition pure_stage (f : Transaction -> StageOutcome * Transaction) : Stage E :=
  fun t e => let '(o, t) := f t in (o, t, e).

Lemma send_stage_continues `{DnsCodec} t :
  exists w, (send_stage t).1 = Continue Send /\ response_wire (send_stage t).2 = Some w /\
    protocol (send_stage t).2 = protocol t.
Proof.
  unfold send_stage, build_error_response. destruct (response_wire t) as [w|] eqn:Hw.
  - case_bool_decide; [|by exists w]. destruct (truncate_udp w _) as [w' []]; by exists w'.
  - destruct (truncate_udp _ _) as [w' []]; by exists w'.
Qed.

(** The turn that finishes goes through the send stage. *)
Lemma turn_finished `{DnsCodec} t e o t' e' tr :
  stages Send = Some (pure_stage send_stage) ->
  turn t e = Return (Finished o) t' e' tr ->
  (o = Dropped /\ tr = None /\ some_stage_drops) \/
  exists t0 w, o = Response w /\ response_wire (send_stage t0).2 = Some w /\ started_at t0 = started_at t.
Proof.
  intros Hsend. unfold Orchestrator.turn. destruct (read_clock e) as [now e1].
  destruct (check_deadline_fields t now) as (Hd & _). set (t1 := check_deadline cfg t now) in *.
  destruct (stages (current_phase t1)) as [s|] eqn:Hph.
  - destruct (s t1 e1) as [[so t2] e2] eqn:Hs.
    pose proof (trace_phase_fields t2 e2 (current_phase t1)) as (_ & Hw & _).
    destruct (trace_phase _ _ t2 e2 _) as [t3 e3]. cbn in Hw.
    destruct so as [next| |p]; [|intros [= <- <- <- <-]|by destruct (read_clock e3)].
    + case_bool_decide as HS; [|done]. rewrite HS in *. rewrite (bool_decide_false (Send = RequestRules)) by done.
      rewrite Hsend in Hph. injection Hph as <-. unfold pure_stage in Hs.
      destruct (send_stage_continues t1) as (w & Hc & Hrw & _).
      destruct (send_stage t1) as [so' t2'] eqn:Hst. cbn in Hc, Hrw. simplify_eq.
      unfold finish. cbn [response_wire set set_current_phase]. rewrite Hw, Hrw.
      destruct (finalize_trace cfg _). intros [= <- <- <- <-]. right. exists t1, w. rewrite Hst. by split_and!.
    + left. split_and!; [done|done|]. exists (current_phase t1), s, t1, e1. by rewrite Hs.
  - case_bool_decide as HS; [|done]. by rewrite HS, Hsend in Hph.
Qed.


(** When the deadline has passed, the turn that notices it answers at once,
    from whatever phase the transaction was in, with what the send stage makes
    of it with rcode SERVFAIL. *)
Theorem deadline_answers_now `{DnsCodec} (t : Transaction) (e : E) :
  stages Send = Some (pure_stage send_stage) -> trace_log t = None ->
  max_duration_ns cfg < elapsed (read_clock e).1 (started_at t) ->
  exists t' e' w, turn t e = Return (Finished (Response w)) t' e' None /\
    response_wire (send_stage ((set_rcode_name t "SERVFAIL") <| current_phase := Send |>)).2 = Some w.
Proof.
  intros Hsend Htr Hd. unfold Orchestrator.turn. destruct (read_clock e) as [now e1]. cbn in Hd.
  unfold check_deadline. rewrite (proj2 (Z.ltb_lt _ _)) by done.
  set (t1 := (set_rcode_name t "SERVFAIL") <| current_phase := Send |>).
  change (current_phase t1) with Send. rewrite Hsend. unfold pure_stage.
  destruct (send_stage_continues t1) as (w & Hc & Hrw & _).
  assert (trace_log (send_stage t1).2 = None) as Htl.
  { unfold send_stage, build_error_response. destruct (response_wire t1); [case_bool_decide; [|done]|];
      by destruct (truncate_udp _ _) as [? []]. }
  destruct (send_stage t1) as [so t2]. cbn in Hc, Hrw, Htl. subst so.
  unfold trace_phase. rewrite Htl. rewrite (bool_decide_false (Send = RequestRules)), bool_decide_true by done.
  unfold finish, finalize_trace. cbn [trace_log response_wire set set_current_phase]. rewrite Hrw, Htl.
  destruct (tracing_hub cfg); eauto 10.
Qed.

(** Running out of time does not replace an answer that is already there: a
    transaction whose deadline passes while it is being retried sends its
    client the earlier answer, the one the rules rejected, not SERVFAIL. *)
Theorem deadline_sends_stored_answer `{DnsCodec} (t : Transaction) (e : E) (old : list Z) :
  stages Send = Some (pure_stage send_stage) -> trace_log t = None -> protocol t = Tcp ->
  response_wire t = Some old -> max_duration_ns cfg < elapsed (read_clock e).1 (started_at t) ->
  exists t' e', turn t e = Return (Finished (Response old)) t' e' None /\ rcode t' = Some 2.
Proof.
  intros Hsend Htr Hp Hw Hd. unfold Orchestrator.turn. destruct (read_clock e) as [now e1]. cbn in Hd.
  unfold check_deadline. rewrite (proj2 (Z.ltb_lt _ _)) by done.
  set (t1 := (set_rcode_name t "SERVFAIL") <| current_phase := Send |>).
  change (current_phase t1) with Send. rewrite Hsend. unfold pure_stage, send_stage.
  change (response_wire t1) with (response_wire t). change (protocol t1) with (protocol t).
  rewrite Hw, bool_decide_false by (by rewrite Hp). unfold trace_phase.
  change (trace_log t1) with (trace_log t). rewrite Htr.
  rewrite (bool_decide_false (Send = RequestRules)), bool_decide_true by done.
  unfold finish, finalize_trace. cbn [trace_log response_wire set set_current_phase].
  change (response_wire t1) with (response_wire t). change (trace_log t1) with (trace_log t).
  rewrite Hw, Htr. by destruct (tracing_hub cfg); eexists _, _.
Qed.

(** Completing a suspended stage inline loses the phase it continues to: the
    run starts again at the parse phase, so the request rules and the lookup
    run a second time. *)
Theorem inline_wait_restarts (fuel : nat) (t t1 : Transaction) (e e1 : E) (p next : Phase) (s : Stage E) :
  stages p = Some s -> s (t <| current_phase := p |>) e = (Continue next, t1, e1) ->
  resume_inline_wait read_clock show_addr stages pin cfg fuel t e p =
  run_turns fuel (t1 <| snapshot_generation := generation cfg |> <| current_phase := Parse |>
                     <| metrics_pin := pin |>) e1.
Proof. intros Hs He. unfold resume_inline_wait. by rewrite Hs, He. Qed.

(** The trace of a query that the rules drop is not kept: the run returns no
    trace for the store, even when tracing was activated for the query. *)
Theorem dropped_query_loses_trace (t t1 : Transaction) (e e1 : E) (s : Stage E) (log : list TraceEvent) :
  current_phase t = RequestRules -> stages RequestRules = Some s ->
  elapsed (read_clock e).1 (started_at t) <= max_duration_ns cfg ->
  s t (read_clock e).2 = (DropQuery, t1, e1) -> trace_log t1 = Some log ->
  exists t' e', turn t e = Return (Finished Dropped) t' e' None /\ is_Some (trace_log t').
Proof.
  intros Hph Hs Hd He Hl. unfold Orchestrator.turn. destruct (read_clock e) as [now e0]. cbn in Hd, He.
  unfold check_deadline. rewrite (proj2 (Z.ltb_ge _ _)) by done. rewrite Hph, Hs, He.
  rewrite bool_decide_true by done. unfold trace_phase. rewrite Hl. destruct (read_clock e1) as [now1 e2].
  unfold trace_record_phase. rewrite Hl. unfold observe_after_request_rules.
  cbn [qname trace_log set set_trace_log]. destruct (qname t1); eexists _, _; by split.
Qed.
End Facts.

(** ** Retrying a cached answer *)

Section Spin.
Context {B E : Type} `{CacheStoreOps B} `{DnsCodec}.
Context (read_clock : E -> Z * E).
Context (show_addr : SocketAddr -> string).
Context (route forward wait : Stage E).
Context (block_on : string -> CacheKey -> E -> Registry B -> option (list Z) * E * Registry B).
Context (lcfg : LookupConfig) (cfg : RunConfig).
Context (siphash : Z -> string -> Z).
Context (run_ast : CompiledScript -> ScriptPhase -> Transaction -> list HostCall * bool).
Context (scripts : list CompiledScript) (lookup_ip : string -> IpAddr -> option string).

(** The clock seen through the lookup environment. *)
Definition env_clock (env : E * option (Registry B)) : Z * (E * option (Registry B)) :=
  let '(now, e) := read_clock env.1 in (now, (e, env.2)).

(** A response rule that retries every answer. *)
Definition retry_rule (name : string) : CompiledRule :=
  {| rule_name := name; rule_hook := HookResponse; rule_selectors := []; rule_actions := [ActRetry] |}.

(** The lookup stage and the response rules of a configuration with that rule. *)
Definition spin_stages (name : string) (p : Phase) : option (Stage (E * option (Registry B))) :=
  match p with
  | Lookup => Some (lookup_stage read_clock route forward wait block_on lcfg)
  | ResponseRules =>
      Some (pure_stage (response_rules_stage siphash run_ast scripts lookup_ip [retry_rule name]))
  | _ => None
  end.

(** What stays the same of a transaction whose cached answer is retried. *)
Record same_query (t t' : Transaction) : Prop := {
  sq_dns_id : dns_id t' = dns_id t;
  sq_query_wire : query_wire t' = query_wire t;
  sq_qname : qname t' = qname t;
  sq_qtype : qtype t' = qtype t;
  sq_qclass : qclass t' = qclass t;
  sq_started : started_at t' = started_at t;
  sq_attempts : attempt_count t' = attempt_count t;
  sq_soft_drop : soft_drop t' = soft_drop t;
  sq_eligible : cache_lookup_eligible t' = cache_lookup_eligible t;
  sq_wait : lookup_cache_wait t' = lookup_cache_wait t;
  sq_step : lookup_forward_step t' = lookup_forward_step t;
  sq_trace : trace_log t' = trace_log t;
}.

Lemma same_query_trans t1 t2 t3 : same_query t1 t2 -> same_query t2 t3 -> same_query t1 t3.
Proof. intros [] []. split; congruence. Qed.

Lemma apply_cache_hit_same t e w n skip : trace_log t = None ->
  let '(o, t', e') := apply_cache_hit read_clock lcfg t e w n skip in
  same_query t t' /\ lookup_profile t' = lookup_profile t /\ e' = e.
Proof.
  intros Ht. unfold apply_cache_hit. rewrite trace_nested_off.
  - unfold record_upstream_response. destruct (from_vec w); destruct (needs_response_wire_meta lcfg);
      by split_and!.
  - unfold record_upstream_response. destruct (from_vec w); by destruct (needs_response_wire_meta lcfg).
Qed.

Lemma retry_rule_retries name t : soft_drop t = false ->
  response_rules_stage siphash run_ast scripts lookup_ip [retry_rule name] t = (Continue Lookup, t).
Proof.
  intros Hs. unfold response_rules_stage, eval, retry_rule, execute_ordered. cbn [rule_hook rule_actions].
  rewrite decide_True by done. cbn. unfold final_outcome. by rewrite Hs.
Qed.

Context (p : LookupProfile) (c name : string) (rest : list LookupProvider).
Context (i : CacheInstance B) (key : CacheKey) (entry : CacheEntry) (t0 : Transaction).
Context (Hprofile : profiles lcfg !! lp_name p = Some p) (Hproviders : providers p = ProviderCache c :: rest).
Context (Hcache : cache_enabled lcfg = true) (Hrb : rebuilding i = false) (Hskip : on_hit_skip (config i) = false).
Context (Hclock : forall e, elapsed (read_clock e).1 (started_at t0) <= max_duration_ns cfg).
Context (Hkey : build_query_key t0 = Some key).
Context (Hget : forall e, store_get (backend i) key (read_clock e).1 = Some entry).
Context (Hserve : forall e x, is_Some (prepare_served_wire (ce_wire entry) (dns_id t0)
  (rotate_rrset_on_serve (config i)) (ce_filled_at entry) (read_clock e).1 (Some (query_wire t0)) x).1).

(** The states the run goes round in. *)
Definition spinning (t : Transaction) (env : E * option (Registry B)) : Prop :=
  same_query t0 t /\ lookup_profile t = Some (lp_name p) /\
  (current_phase t = Lookup \/ current_phase t = ResponseRules) /\
  exists r, env.2 = Some r /\ instances r !! c = Some i.

Lemma spin_lookup t (e : E) r :
  at_start t0 -> cache_lookup_eligible t0 = true -> trace_log t0 = None ->
  same_query t0 t -> lookup_profile t = Some (lp_name p) -> instances r !! c = Some i ->
  exists t' e' r', lookup_stage read_clock route forward wait block_on lcfg t (e, Some r) =
      (Continue ResponseRules, t', (e', Some r')) /\
    same_query t0 t' /\ lookup_profile t' = Some (lp_name p) /\ instances r' !! c = Some i.
Proof.
  intros [Hw Hst] Hel Htr Hsq Hlp Hi. destruct Hsq as [? ? ? ? ? ? ? ? He0 Hw0 Hs0 Htr0] eqn:Hsq'.
  rewrite (lookup_stage_start _ _ _ _ _ _ t p) by (first [split; congruence | unfold profile_of; by rewrite Hlp]).
  rewrite Hproviders. cbn [run_providers].
  set (t1 := in_profile t p). assert (same_query t0 t1) as Hsq1 by (destruct Hsq; by split).
  change (cache_lookup_eligible t1) with (cache_lookup_eligible t). rewrite He0, Hel. cbn [negb].
  unfold try_cache_provider, cache_lookup. rewrite Hcache. cbn [negb].
  pose proof (Hget e) as Hg. destruct (Hserve e (serve_rand r)) as [w Hsv].
  destruct (read_clock e) as [now e1]. cbn in Hg, Hsv.
  rewrite (lookup_hits r c i t1 now key entry); try done.
  2: { change (cache_lookup_eligible t1) with (cache_lookup_eligible t). congruence. }
  2: { rewrite <- Hkey. destruct Hsq1. unfold build_query_key, build_key. congruence. }
  unfold hit_from_entry, hit_from. destruct Hsq1 as [Hd Hq _ _ _ _ _ _ _ _ _ Ht1].
  rewrite Hd, Hq. destruct (prepare_served_wire _ _ _ _ _ _ _) as [o x]. cbn in Hsv. subst o.
  rewrite Hskip.
  pose proof (apply_cache_hit_same t1 e1 w (cc_name (config i)) false) as Ha.
  pose proof (apply_cache_hit_fields read_clock lcfg t1 e1 w (cc_name (config i)) false) as Hf.
  destruct (apply_cache_hit _ _ _ _ _ _ _) as [[o t'] e']. destruct Hf as [-> _].
  destruct Ha as (Hsame & Hprof & ->); [by rewrite Ht1|].
  exists t', e1, (put_rand r x). split_and!; try done.
  eapply same_query_trans; [|exact Hsame]. destruct Hsq; by split.
Qed.

(** A response rule that retries a cached answer sends the query round for
    as long as it may run: neither the attempt limit nor anything else but
    the deadline ends it. While the deadline has not passed and the entry is
    fresh, no number of turns finishes the run. *)
Theorem retry_of_cached_answer_spins (fuel : nat) (t : Transaction) (env : E * option (Registry B)) :
  at_start t0 -> cache_lookup_eligible t0 = true -> trace_log t0 = None -> soft_drop t0 = false ->
  spinning t env ->
  run_turns env_clock show_addr (spin_stages name) cfg fuel t env = None.
Proof.
  intros Hst Hel Htr Hsd. revert t env. induction fuel as [|fuel IH]; intros t [e reg]; [done|].
  intros (Hsq & Hlp & Hph & r & Hreg & Hi). cbn in Hreg. subst reg. cbn [run_turns].
  unfold turn, env_clock at 1. cbn [fst snd]. pose proof (Hclock e) as Hc.
  destruct (read_clock e) as [now e1] eqn:Hrc. cbn in Hc. unfold check_deadline.
  rewrite (sq_started _ _ Hsq), (proj2 (Z.ltb_ge _ _)) by done.
  destruct Hph as [Hph|Hph]; rewrite Hph; cbn [spin_stages].
  - destruct (spin_lookup t e1 r Hst Hel Htr Hsq Hlp Hi) as (t' & e' & r' & -> & Hsq' & Hlp' & Hi').
    unfold trace_phase. rewrite (sq_trace _ _ Hsq'), Htr.
    rewrite (bool_decide_false (Lookup = RequestRules)), (bool_decide_false (Lookup = Send)) by done.
    apply IH. split_and!; [destruct Hsq'; by split|done|by right|by exists r'].
  - unfold pure_stage. rewrite retry_rule_retries by (by rewrite (sq_soft_drop _ _ Hsq)).
    unfold trace_phase. rewrite (sq_trace _ _ Hsq), Htr.
    rewrite (bool_decide_false (ResponseRules = RequestRules)), (bool_decide_false (ResponseRules = Send)) by done.
    apply IH. split_and!; [destruct Hsq; by split|done|by left|by exists r].
Qed.

End Spin.

(** ** Retries after going upstream are bounded *)

Section Bounded.
Context {B E : Type} `{CacheStoreOps B} `{DnsCodec}.
Context (read_clock : E -> Z * E).
Context (show_addr : SocketAddr -> string).
Context (route forward wait : Stage E).
Context (block_on : string -> CacheKey -> E -> Registry B -> option (list Z) * E * Registry B).
Context (lcfg : LookupConfig) (cfg : RunConfig).

(** What the lookup stage relies on between its visits. *)
Record keeps (t t' : Transaction) : Prop := {
  keeps_wait : lookup_cache_wait t' = lookup_cache_wait t;
  keeps_step : lookup_forward_step t' = lookup_forward_step t;
  keeps_profile : lookup_profile t' = lookup_profile t;
  keeps_eligible : cache_lookup_eligible t' = cache_lookup_eligible t;
  keeps_trace : trace_log t' = trace_log t;
}.

Lemma keeps_refl t : keeps t t.
Proof. by split. Qed.

Lemma keeps_trans t1 t2 t3 : keeps t1 t2 -> keeps t2 t3 -> keeps t1 t3.
Proof. intros [] []. split; congruence. Qed.

(** A stage that leaves the retry state and the attempts alone. *)
Definition quiet {F : Type} (s : Stage F) : Prop :=
  forall t e, keeps t (s t e).1.2 /\ attempt_count (s t e).1.2 = attempt_count t.

(** A router that counts the attempt it makes. *)
Definition counts_attempts (s : Stage E) : Prop :=
  forall t e, keeps t (s t e).1.2 /\
    ((s t e).1.1 = Continue Forward -> attempt_count (s t e).1.2 = attempt_count t + 1).

Context (Hroute : counts_attempts route) (Hforward : quiet forward) (Hwait : quiet wait).

Lemma settle_flight_keeps t e (reg : option (Registry B)) :
  keeps t (settle_flight read_clock t e reg).1 /\
  attempt_count (settle_flight read_clock t e reg).1 = attempt_count t.
Proof.
  unfold settle_flight. destruct reg as [r|]; [|by repeat split].
  destruct (lookup_cache_fill t) as [f|]; [|by repeat split]. cbn [response_wire set set_lookup_cache_fill].
  destruct (response_wire t); [destruct (read_clock e)|]; by repeat split.
Qed.

Lemma finish_forward_keeps t (env : E * option (Registry B)) : trace_log t = None ->
  let '(o, t', env') := finish_forward_answer read_clock wait t env in
  keeps t t' /\ attempt_count t' = attempt_count t /\
  (o = Continue ResponseRules \/ o = Continue Send \/ o = DropQuery).
Proof.
  intros Htr. unfold finish_forward_answer. destruct env as [e reg]. pose proof (Hwait t e) as [Hk Ha].
  destruct (wait t e) as [[wo t1] e1]. cbn in Hk, Ha.
  assert (forall q, q = ResponseRules \/ q = Send -> let '(o, t', env') :=
    (let '(t2, (e2, reg2)) := settle_flight read_clock t1 e1 reg in
     let t3 := t2 <| lookup_outcome := Some Answered |> <| answer_source := Some SourceForward |>
                  <| cache_instance := None |> in
     let '(t4, e4) := trace_nested read_clock t3 e2 "provider forward answered" None None None in
     (Continue q, t4, (e4, reg2))) in
    keeps t t' /\ attempt_count t' = attempt_count t /\
    (o = Continue ResponseRules \/ o = Continue Send \/ o = DropQuery)) as Hfin.
  { intros q Hq. pose proof (settle_flight_keeps t1 e1 reg) as [Hk2 Ha2].
    destruct (settle_flight read_clock t1 e1 reg) as [t2 [e2 reg2]]. cbn in Hk2, Ha2. cbv beta iota zeta.
    rewrite trace_nested_off; [|cbn; rewrite (keeps_trace _ _ Hk2), (keeps_trace _ _ Hk); done].
    split_and!; [eapply keeps_trans; [exact Hk|]; destruct Hk2; by split|cbn; congruence|].
    destruct Hq as [-> | ->]; auto. }
  destruct wo as [[]| |]; try (apply Hfin; auto); by split_and!; auto.
Qed.

(** One visit to the lookup stage by a transaction that may not use the cache. *)
Lemma lookup_visit t (env : E * option (Registry B)) prof :
  at_start t -> cache_lookup_eligible t = false -> trace_log t = None ->
  profiles lcfg !! default DEFAULT_LOOKUP_PROFILE (lookup_profile t) = Some prof ->
  lp_name prof = default DEFAULT_LOOKUP_PROFILE (lookup_profile t) -> ProviderForward ∈ providers prof ->
  match lookup_stage read_clock route forward wait block_on lcfg t env with
  | (Continue ResponseRules, t', _) =>
      attempt_count t < default 3 (max_attempts lcfg) /\ attempt_count t' = attempt_count t + 1 /\
      at_start t' /\ cache_lookup_eligible t' = false /\ trace_log t' = None /\
      default DEFAULT_LOOKUP_PROFILE (lookup_profile t') = default DEFAULT_LOOKUP_PROFILE (lookup_profile t)
  | (Continue Send, _, _) | (DropQuery, _, _) | (Suspend _, _, _) => True
  | _ => False
  end.
Proof.
  intros [Hw Hs] He Htr Hp Hn Hin. rewrite (lookup_stage_start _ _ _ _ _ _ t prof); [|by split|exact Hp].
  rewrite ineligible_skips_caches by done. unfold run_forward_chain. destruct env as [e reg].
  set (t1 := set cache_lookup_eligible false (in_profile t prof)).
  change (attempt_count t1) with (attempt_count t). destruct (Z.leb_spec (default 3 (max_attempts lcfg)) (attempt_count t)); [done|].
  pose proof (Hroute t1 e) as [Hk1 Ha1]. destruct (route t1 e) as [[o1 t2] e2]. cbn in Hk1, Ha1.
  destruct o1 as [[]| |]; try done. specialize (Ha1 eq_refl).
  rewrite trace_nested_off by (rewrite (keeps_trace _ _ Hk1); done).
  pose proof (Hforward t2 e2) as [Hk2 Ha2]. destruct (forward t2 e2) as [[o2 t3] e3]. cbn in Hk2, Ha2.
  assert (keeps t1 t3) as Hk3 by eauto using keeps_trans.
  assert (match finish_forward_answer read_clock wait t3 (e3, reg) with
    | (Continue ResponseRules, t', _) =>
      attempt_count t < default 3 (max_attempts lcfg) /\ attempt_count t' = attempt_count t + 1 /\
      at_start t' /\ cache_lookup_eligible t' = false /\ trace_log t' = None /\
      default DEFAULT_LOOKUP_PROFILE (lookup_profile t') = default DEFAULT_LOOKUP_PROFILE (lookup_profile t)
    | (Continue Send, _, _) | (DropQuery, _, _) | (Suspend _, _, _) => True
    | _ => False end) as Hfin.
  { pose proof (finish_forward_keeps t3 (e3, reg)) as Hf.
    destruct (finish_forward_answer _ _ _ _) as [[o t4] env4].
    destruct Hf as (Hk4 & Ha4 & Ho); [rewrite (keeps_trace _ _ Hk3); done|].
    assert (keeps t1 t4) as [] by eauto using keeps_trans.
    destruct Ho as [->|[->| ->]]; [|done..]. unfold at_start. cbn in *.
    change (attempt_count t1) with (attempt_count t) in *.
    split_and!; try congruence; try lia. rewrite keeps_profile0. cbn. done. }
  destruct o2 as [[]| |q]; try done. destruct q; try done. cbn.
  destruct (trace_nested _ _ _ _ _ _ _). done.
Qed.

(** The phases after the request rules. *)
Context (stages : Phase -> option (Stage (E * option (Registry B)))).
Context (resp : Stage (E * option (Registry B))).
Context (Hlookup : stages Lookup = Some (lookup_stage read_clock route forward wait block_on lcfg)).
Context (Hresp : stages ResponseRules = Some resp) (Hquiet : quiet resp).
Context (Hnext : forall t env,
  (resp t env).1.1 = Continue Lookup \/ (resp t env).1.1 = Continue Send \/ (resp t env).1.1 = DropQuery).

#[local] Abbreviation machine := (run_turns (env_clock read_clock) show_addr stages cfg).
#[local] Abbreviation one_turn := (turn (env_clock read_clock) show_addr stages cfg).

Lemma send_ends fuel t env : current_phase t = Send -> exists res, machine (S fuel) t env = Some res.
Proof.
  intros Hs. cbn [run_turns].
  destruct (send_turn_returns (env_clock read_clock) show_addr stages cfg t env)
    as (r & t' & e' & tr & ->); [|eauto]. unfold check_deadline. by case_match.
Qed.

(** The state in which a transaction comes back to the lookup stage. *)
Definition may_retry (prof : LookupProfile) (t : Transaction) : Prop :=
  at_start t /\ cache_lookup_eligible t = false /\ trace_log t = None /\
  profiles lcfg !! default DEFAULT_LOOKUP_PROFILE (lookup_profile t) = Some prof /\
  lp_name prof = default DEFAULT_LOOKUP_PROFILE (lookup_profile t) /\ ProviderForward ∈ providers prof.

Lemma response_turn t env prof :
  current_phase t = ResponseRules -> may_retry prof t ->
  match one_turn t env with
  | Again t' _ => current_phase t' = Send \/
      (current_phase t' = Lookup /\ may_retry prof t' /\ attempt_count t' = attempt_count t)
  | Return _ _ _ _ => True
  end.
Proof.
  intros Hph (Hs & He & Htr & Hp & Hn & Hin). destruct (turn_on_time (env_clock read_clock) show_addr stages cfg t env) as [(?&?&?&?&->)|Hot]; [done|].
  unfold turn. destruct (env_clock read_clock env) as [now env1]. cbn in Hot. rewrite Hot, Hph, Hresp. destruct (Hquiet t env1) as [[Kw Ks Kp Ke Kt] Ka]. pose proof (Hnext t env1) as Ho.
  destruct (resp t env1) as [[o t2] env2]. cbn in Kw, Ks, Kp, Ke, Kt, Ka, Ho.
  unfold trace_phase. rewrite Kt, Htr.
  rewrite (bool_decide_false (ResponseRules = RequestRules)), (bool_decide_false (ResponseRules = Send)) by done.
  destruct Ho as [->|[->| ->]]; [right|by left|done].
  split_and!; [done| |done]. unfold may_retry, at_start in *. cbn.
  rewrite Kw, Ks, Ke, Kt, Kp. destruct Hs. by split_and!.
Qed.

Lemma lookup_turn t env prof :
  current_phase t = Lookup -> may_retry prof t ->
  match one_turn t env with
  | Again t' _ => current_phase t' = Send \/
      (current_phase t' = ResponseRules /\ may_retry prof t' /\
       attempt_count t < default 3 (max_attempts lcfg) /\ attempt_count t' = attempt_count t + 1)
  | Return _ _ _ _ => True
  end.
Proof.
  intros Hph (Hs & He & Htr & Hp & Hn & Hin). destruct (turn_on_time (env_clock read_clock) show_addr stages cfg t env) as [(?&?&?&?&->)|Hot]; [done|].
  unfold turn. destruct (env_clock read_clock env) as [now env1]. cbn in Hot. rewrite Hot, Hph, Hlookup. pose proof (lookup_visit t env1 prof Hs He Htr Hp Hn Hin) as Hv.
  destruct (lookup_stage _ _ _ _ _ _ t env1) as [[o t2] env2].
  destruct o as [[]| |q]; try done.
  - destruct Hv as (Hlt & Ha & Hs2 & He2 & Ht2 & Hp2). unfold trace_phase. rewrite Ht2.
    rewrite (bool_decide_false (Lookup = RequestRules)), (bool_decide_false (Lookup = Send)) by done.
    right. split_and!; try done. unfold may_retry, at_start in *. cbn. rewrite Hp2. destruct Hs2. by split_and!.
  - destruct (trace_phase (env_clock read_clock) show_addr t2 env2 Lookup) as [t3 e3].
    rewrite (bool_decide_false (Lookup = RequestRules)), (bool_decide_false (Lookup = Send)) by done. by left.
  - by destruct (trace_phase (env_clock read_clock) show_addr t2 env2 Lookup).
  - destruct (trace_phase (env_clock read_clock) show_addr t2 env2 Lookup) as [t3 e3]. by destruct (env_clock read_clock e3).
Qed.

(** Retries end: a transaction that has been upstream, or that may not use
    the cache, is answered, dropped or suspended after at most two turns for
    each attempt it has left and two more, whatever the rules ask for,
    whatever the clock says. *)
Theorem upstream_retries_bounded (prof : LookupProfile) (n : nat) (t : Transaction)
    (env : E * option (Registry B)) :
  current_phase t = Lookup -> may_retry prof t ->
  default 3 (max_attempts lcfg) - attempt_count t <= Z.of_nat n ->
  exists res, machine (2 * n + 2) t env = Some res.
Proof.
  revert t env. induction n as [|n IH]; intros t env Hph Hm Hn.
  - change (2 * 0 + 2)%nat with 2%nat. cbn [run_turns].
    pose proof (lookup_turn t env prof Hph Hm) as H1. destruct (one_turn t env) as [t1 e1|]; [|eauto].
    destruct H1 as [H1|(_ & _ & ? & _)]; [|lia]. by apply (send_ends 0).
  - replace (2 * S n + 2)%nat with (S (S (2 * n + 2)))%nat by lia. cbn [run_turns].
    pose proof (lookup_turn t env prof Hph Hm) as H1. destruct (one_turn t env) as [t1 e1|]; [|eauto].
    destruct H1 as [H1|(H1 & Hm1 & _ & Ha)]; [by apply (send_ends (2 * n + 2))|].
    pose proof (response_turn t1 e1 prof H1 Hm1) as H2. destruct (one_turn t1 e1) as [t2 e2|]; [|eauto].
    destruct H2 as [H2|(H2 & Hm2 & Ha2)].
    + replace (2 * n + 2)%nat with (S (2 * n + 1))%nat by lia. by apply send_ends.
    + apply IH; [done|done|lia].
Qed.
End Bounded.

(** ** Witnesses *)

Section Witnesses.
#[local] Existing Instance one_byte_codec.
#[local] Existing Instance sample_store.

(** Time is up as soon as the clock has moved. *)
Definition run_config : RunConfig :=
  {| max_txn_duration_ms := Some 0; generation := 1; tracing_hub := true; tracing_master_enabled := true;
     trace_activation := fun _ => true |}.

Definition no_show (a : SocketAddr) : string := EmptyString.

(** A pipeline that only parses and sends. *)
Definition short_stages (p : Phase) : option (Stage Z) :=
  match p with
  | Parse => Some (pure_stage parse_stage)
  | Send => Some (pure_stage send_stage)
  | _ => None
  end.

Lemma short_timely : timely tick short_stages (fun e => e).
Proof.
  split; [intros e; cbn; lia|..]; intros [] s t e [= <-]; unfold pure_stage.
  - by destruct (parse_stage t).
  - by destruct (send_stage t).
  - unfold parse_stage, drop_with. destruct (pre_parsed t); [by destruct (qname t)|].
    by destruct (structural_parse _).
  - unfold send_stage, build_error_response. destruct (response_wire t); [case_bool_decide; [|done]|];
      by destruct (truncate_udp _ _) as [? []].
Qed.

Lemma run_loop_terminates_witness :
  exists res, run_loop tick no_show short_stages None run_config 4 false (client_txn 1) 0 = Some res.
Proof.
  apply (run_loop_terminates tick no_show short_stages None run_config (fun e => e) false (client_txn 1) 0 4
    short_timely); [vm_compute; done|vm_compute; done|lia].
Defined.


Lemma deadline_answers_now_witness :
  exists t' e' w, turn tick no_show short_stages run_config (client_txn 1) 7 =
      Return (Finished (Response w)) t' e' None /\
    response_wire (send_stage ((set_rcode_name (client_txn 1) "SERVFAIL") <| current_phase := Send |>)).2 = Some w.
Proof. by apply (deadline_answers_now tick no_show short_stages run_config (client_txn 1) 7). Defined.

Definition answered_txn : Transaction :=
  (Transaction_new 1 (SockV4 0 53) Tcp {| instant_now := 0; system_now := 0 |})
    <| query_wire := [1] |> <| response_wire := Some [2] |>.

Lemma deadline_sends_stored_answer_witness :
  exists t' e', turn tick no_show short_stages run_config answered_txn 7 =
      Return (Finished (Response [2])) t' e' None /\ rcode t' = Some 2.
Proof. by apply (deadline_sends_stored_answer tick no_show short_stages run_config answered_txn 7 [2]). Defined.

Lemma inline_wait_restarts_witness :
  resume_inline_wait tick no_show short_stages None run_config 4 answered_txn 7 Send =
  run_turns tick no_show short_stages run_config 4
    (answered_txn <| current_phase := Send |> <| snapshot_generation := 1 |> <| current_phase := Parse |>
       <| metrics_pin := None |>) 7.
Proof.
  by apply (inline_wait_restarts tick no_show short_stages None run_config 4 answered_txn
    (answered_txn <| current_phase := Send |>) 7 7 Send Send (pure_stage send_stage)).
Defined.

(** Request rules that drop everything. *)
Definition dropping (p : Phase) : option (Stage Z) :=
  match p with RequestRules => Some (fun t e => (DropQuery, t, e)) | _ => None end.

Lemma dropped_query_loses_trace_witness :
  exists t' e', turn tick no_show dropping run_config
      ((client_txn 1) <| current_phase := RequestRules |> <| trace_log := Some [] |>) 0 =
      Return (Finished Dropped) t' e' None /\ is_Some (trace_log t').
Proof.
  by apply (dropped_query_loses_trace tick no_show dropping run_config
    ((client_txn 1) <| current_phase := RequestRules |> <| trace_log := Some [] |>)
    ((client_txn 1) <| current_phase := RequestRules |> <| trace_log := Some [] |>) 0 1
    (fun t e => (DropQuery, t, e)) []).
Defined.

(** A clock that stands still. *)
Definition stopped (e : Z) : Z * Z := (5, e).
Definition spin_txn : Transaction :=
  (client_txn 7) <| current_phase := Lookup |> <| lookup_profile := Some "default" |> <| started_at := 5 |>.

Lemma spin_serve (e x : Z) : is_Some (prepare_served_wire (ce_wire (entry_2 Positive)) (dns_id spin_txn)
  (rotate_rrset_on_serve (config (with_entry sample_key Positive))) (ce_filled_at (entry_2 Positive))
  (stopped e).1 (Some (query_wire spin_txn)) x).1.
Proof. by eexists. Qed.

Lemma retry_of_cached_answer_spins_witness :
  run_turns (env_clock stopped) no_show
    (spin_stages (B := MemoryCacheBackend) stopped no_backend no_backend no_backend no_block sample_lookup
       (fun _ _ => 0) (fun _ _ _ => ([], true)) [] (fun _ _ => None) "retry") run_config 1000
    spin_txn (0, Some (sample_registry (with_entry sample_key Positive))) = None.
Proof.
  apply (retry_of_cached_answer_spins stopped no_show no_backend no_backend no_backend no_block sample_lookup
    run_config (fun _ _ => 0) (fun _ _ _ => ([], true)) [] (fun _ _ => None) sample_profile "c" "retry"
    [ProviderForward] (with_entry sample_key Positive) sample_key (entry_2 Positive) spin_txn
    (lookup_singleton_eq _ _) eq_refl eq_refl eq_refl eq_refl (fun _ => ltac:(vm_compute; discriminate)) eq_refl
    (fun _ => with_entry_get _ _) spin_serve 1000); try reflexivity; [done|].
  split_and!; [by split|reflexivity|by left|]. eexists. split; [reflexivity|apply lookup_singleton_eq].
Defined.

(** A router that always finds a backend, an upstream that never answers, rules
    that always retry. *)
Definition one_backend : Stage Z := fun t e =>
  (Continue Forward, t <| attempt_count := attempt_count t + 1 |>, e).
Definition no_answer_yet : Stage Z := fun t e => (Continue WaitResponse, t, e).
Definition gives_up : Stage Z := fun t e => (Continue ResponseRules, t, e).
Definition always_retry : Stage (Z * option (Registry MemoryCacheBackend)) := fun t e => (Continue Lookup, t, e).
Definition retry_stages (p : Phase) : option (Stage (Z * option (Registry MemoryCacheBackend))) :=
  match p with
  | Lookup => Some (lookup_stage stopped one_backend no_answer_yet gives_up no_block sample_lookup)
  | ResponseRules => Some always_retry
  | _ => None
  end.

Lemma upstream_retries_bounded_witness :
  exists res, run_turns (env_clock stopped) no_show retry_stages run_config 8
    (spin_txn <| cache_lookup_eligible := false |>) (0, None) = Some res.
Proof.
  apply (upstream_retries_bounded stopped no_show one_backend no_answer_yet gives_up no_block sample_lookup
    run_config) with (prof := sample_profile) (n := 3%nat) (resp := always_retry); try done;
    try (intros t e; split; [by split|done]).
  - intros t env. by left.
  - split_and!; try done. right. by left.
Defined.
End Witnesses.
