(* ===== verification/Acl.v ===== *)
(** * Acl: client access control

    src/crates/conduit-core/src/acl.rs (compilation, the two evaluation tiers and
    the control-plane check), [validate_acls] of conduit-config/src/validate.rs,
    the name of a listener (conduit-config/src/listeners.rs) and the gate of
    conduit-dataplane/src/acl_gate.rs, without its metrics and its denial log. A
    panic is [None]. The CIDR store is a parameter, [lookup_ip view ip], and so is the
    Unicode [to_lowercase] that a listener without a name is named with. *)

From stdpp Require Import strings gmap.
From Stdlib Require Import String.
From S2P Require Import Prelude Text.

#[local] Open Scope string_scope.
#[local] Open Scope list_scope.
#[local] Open Scope Z_scope.

(** ** Configuration *)

Record AclRuleConfig := { rc_match : string; rc_action : string; rc_tag : option string }.
Record AclsConfig := { ac_default_action : string; ac_rules : list AclRuleConfig }.
Record Listener := {
  ln_name : option string;
  ln_address : string;
  ln_protocol : string;
  ln_acls : option AclsConfig;
}.
Record DataSource := { ds_name : string; ds_type : string }.
(** The parts of the configuration the ACLs depend on. *)
Record AclConfig := {
  cf_acls : option AclsConfig;
  cf_listeners : option (list Listener);
  cf_data_sources : list DataSource;
}.

Inductive AclDefaultAction := DefaultAllow | DefaultDeny.
Inductive AclAction := ActDrop | ActRefuse | ActTag (name : string) | ActAccept.
Record CompiledAclRule := { view : string; action : AclAction }.
Record CompiledAclPolicy := { default_action : AclDefaultAction; rules : list CompiledAclRule }.
Inductive AclDecision := Admit | AclDrop | Refuse | Tag (name : string).

#[global] Instance AclDecision_eq_dec : EqDecision AclDecision.
Proof. solve_decision. Defined.

Definition admit_all : CompiledAclPolicy := {| default_action := DefaultAllow; rules := [] |}.

(** [expect] and [panic!] are [None]. *)
Definition compile_action (r : AclRuleConfig) : option AclAction :=
  if String.eqb (rc_action r) "drop" then Some ActDrop
  else if String.eqb (rc_action r) "refuse" then Some ActRefuse
  else if String.eqb (rc_action r) "accept" then Some ActAccept
  else if String.eqb (rc_action r) "tag" then ActTag <$> rc_tag r
  else None.

Fixpoint compile_rules (rs : list AclRuleConfig) : option (list CompiledAclRule) :=
  match rs with
  | [] => Some []
  | r :: rs =>
      let! a := compile_action r in
      let! rest := compile_rules rs in
      Some ({| view := rc_match r; action := a |} :: rest)
  end.

Definition acl_compile (cfg : AclsConfig) : option CompiledAclPolicy :=
  let d := if String.eqb (ac_default_action cfg) "deny" then DefaultDeny else DefaultAllow in
  let! rs := compile_rules (ac_rules cfg) in
  Some {| default_action := d; rules := rs |}.

Definition effective_acl (global listener : option AclsConfig) : option AclsConfig :=
  or_else listener global.

Definition compile_effective (global listener : option AclsConfig) : option CompiledAclPolicy :=
  match effective_acl global listener with
  | Some cfg => acl_compile cfg
  | None => Some admit_all
  end.

(** ** Validation

    A message is the constructor of its format with the values it shows. *)
Inductive AclError :=
  | BadDefaultAction (where_ other : string)
  | EmptyMatch (where_ : string) (i : nat)
  | UnknownMatch (where_ : string) (i : nat) (name : string)
  | TagNotAllowed (where_ : string) (i : nat)
  | TagMissing (where_ : string) (i : nat)
  | BadAction (where_ : string) (i : nat) (other : string).

Definition string_in (s : string) (l : list string) : bool := existsb (String.eqb s) l.

Definition validate_rule (where_ : string) (cidr_names : list string) (i : nat) (r : AclRuleConfig)
    : list AclError :=
  (if String.eqb (rc_match r) EmptyString then [EmptyMatch where_ i]
   else if negb (string_in (rc_match r) cidr_names) then [UnknownMatch where_ i (rc_match r)]
   else []) ++
  (if String.eqb (rc_action r) "drop" || String.eqb (rc_action r) "refuse" || String.eqb (rc_action r) "accept"
   then if is_someb (rc_tag r) then [TagNotAllowed where_ i] else []
   else if String.eqb (rc_action r) "tag" then
     match rc_tag r with
     | None => [TagMissing where_ i]
     | Some t => if String.eqb t EmptyString then [TagMissing where_ i] else []
     end
   else [BadAction where_ i (rc_action r)]).

Fixpoint validate_rules (where_ : string) (cidr_names : list string) (i : nat) (rs : list AclRuleConfig)
    : list AclError :=
  match rs with
  | [] => []
  | r :: rs => validate_rule where_ cidr_names i r ++ validate_rules where_ cidr_names (S i) rs
  end.

Definition validate_acl_block (where_ : string) (acls : AclsConfig) (cidr_names : list string)
    : list AclError :=
  (if String.eqb (ac_default_action acls) "allow" || String.eqb (ac_default_action acls) "deny"
      || String.eqb (ac_default_action acls) EmptyString then []
   else [BadDefaultAction where_ (ac_default_action acls)]) ++
  validate_rules where_ cidr_names 0 (ac_rules acls).

Definition nonempty (n : option string) : option string :=
  let! s := n in if String.eqb s EmptyString then None else Some s.

Definition listener_where (i : nat) (ln : Listener) : string :=
  let idx := dec (Z.of_nat i) in
  match nonempty (ln_name ln) with
  | Some n => "listeners.listeners[" +:+ idx +:+ "] (name '" +:+ n +:+ "') acls"
  | None => "listeners.listeners[" +:+ idx +:+ "].acls"
  end.

Definition cidr_names (cfg : AclConfig) : list string :=
  ds_name <$> List.filter (fun ds => String.eqb (ds_type ds) "cidr") (cf_data_sources cfg).

Fixpoint validate_listener_acls (names : list string) (i : nat) (lns : list Listener) : list AclError :=
  match lns with
  | [] => []
  | ln :: lns =>
      match ln_acls ln with
      | Some acls => validate_acl_block (listener_where i ln) acls names
      | None => []
      end ++ validate_listener_acls names (S i) lns
  end.

Definition validate_acls (cfg : AclConfig) : list AclError :=
  match cf_acls cfg with Some acls => validate_acl_block "acls" acls (cidr_names cfg) | None => [] end ++
  validate_listener_acls (cidr_names cfg) 0 (default [] (cf_listeners cfg)).

(** ** Evaluation *)

Section Eval.
Context (lookup_ip : string -> IpAddr -> option string).
Context (to_lowercase : string -> string).

Fixpoint preadmission_rules (rs : list CompiledAclRule) (addr : IpAddr) : AclDecision :=
  match rs with
  | [] => Admit
  | r :: rs =>
      if is_someb (lookup_ip (view r) addr) then
        match action r with ActDrop => AclDrop | _ => Admit end
      else preadmission_rules rs addr
  end.
Definition evaluate_preadmission (p : CompiledAclPolicy) (addr : IpAddr) : AclDecision :=
  preadmission_rules (rules p) addr.

Definition decision_of (a : AclAction) : AclDecision :=
  match a with ActDrop => AclDrop | ActRefuse => Refuse | ActTag n => Tag n | ActAccept => Admit end.

Fixpoint full_rules (rs : list CompiledAclRule) (d : AclDefaultAction) (addr : IpAddr) : AclDecision :=
  match rs with
  | [] => match d with DefaultAllow => Admit | DefaultDeny => AclDrop end
  | r :: rs =>
      if is_someb (lookup_ip (view r) addr) then decision_of (action r) else full_rules rs d addr
  end.
Definition evaluate_full (p : CompiledAclPolicy) (addr : IpAddr) : AclDecision :=
  full_rules (rules p) (default_action p) addr.

(** ** The control-plane check *)

Record AclCheckResult := {
  cr_listener : string;
  cr_decision : string;
  cr_tag : option string;
  cr_matched : string;
  cr_action : string;
}.

Inductive AclCheckError := UnknownListener (name : string) | NoListeners.

Fixpoint match_rules (rs : list CompiledAclRule) (d : AclDefaultAction) (addr : IpAddr)
    : string * string :=
  match rs with
  | [] => ("default", match d with DefaultAllow => "allow" | DefaultDeny => "deny" end)
  | r :: rs =>
      if is_someb (lookup_ip (view r) addr) then
        (view r, match action r with
                 | ActDrop => "drop" | ActRefuse => "refuse" | ActTag _ => "tag" | ActAccept => "accept"
                 end)
      else match_rules rs d addr
  end.
Definition match_detail (p : CompiledAclPolicy) (addr : IpAddr) : string * string :=
  match_rules (rules p) (default_action p) addr.

Definition decision_text (d : AclDecision) : string * option string :=
  match d with
  | Admit => ("admit", None) | AclDrop => ("drop", None) | Refuse => ("refuse", None)
  | Tag n => ("tag", Some n)
  end.

Definition check_one_listener (global listener : option AclsConfig) (name : string) (addr : IpAddr)
    : option AclCheckResult :=
  let! policy := compile_effective global listener in
  let '(matched, act) := match_detail policy addr in
  let '(d, tag) := decision_text (evaluate_full policy addr) in
  Some {| cr_listener := name; cr_decision := d; cr_tag := tag; cr_matched := matched; cr_action := act |}.

(** [resolve_listener_ingress(..).name]. *)
Definition listener_name (ln : Listener) : string :=
  default (to_lowercase (ln_protocol ln) +:+ ":" +:+ ln_address ln) (nonempty (ln_name ln)).

(** The loop over the listeners: the results, and whether the filter matched. *)
Fixpoint check_listeners (global : option AclsConfig) (lns : list Listener) (addr : IpAddr)
    (filter : option string) : option (list AclCheckResult * bool) :=
  match lns with
  | [] => Some ([], false)
  | ln :: lns =>
      let name := listener_name ln in
      if match filter with Some f => negb (String.eqb name f) | None => false end
      then check_listeners global lns addr filter
      else
        let! one := check_one_listener global (ln_acls ln) name addr in
        let! rest := check_listeners global lns addr filter in
        Some (one :: rest.1, is_someb filter || rest.2)
  end.

Definition check_client_acl (cfg : AclConfig) (addr : IpAddr) (filter : option string)
    : option (result (list AclCheckResult) AclCheckError) :=
  match cf_listeners cfg with
  | None | Some [] => Some (Err NoListeners)
  | Some lns =>
      let! r := check_listeners (cf_acls cfg) lns addr filter in
      match filter with
      | Some f => Some (if r.2 then Ok r.1 else Err (UnknownListener f))
      | None => Some (Ok r.1)
      end
  end.

(** ** The ingress gate *)

Inductive AclGateOutcome := GateAdmit | AdmitTagged (tag : string) | GateDrop | GateRefuse.

Record AclGate := {
  gate_address : string;
  gate_protocol : string;
  gate_generation : option Z;
  gate_compiled : option CompiledAclPolicy;
}.

Definition gate_new (ln : Listener) : AclGate :=
  {| gate_address := ln_address ln; gate_protocol := ln_protocol ln; gate_generation := None;
     gate_compiled := None |}.

Definition listener_acls_from_snap (cfg : AclConfig) (address protocol : string) : option AclsConfig :=
  let! lns := cf_listeners cfg in
  let! ln := List.find (fun ln => String.eqb (ln_address ln) address && String.eqb (ln_protocol ln) protocol) lns in
  ln_acls ln.

Definition refresh (g : AclGate) (cfg : AclConfig) (generation : Z) : option AclGate :=
  if bool_decide (gate_generation g = Some generation) then Some g
  else
    let global := cf_acls cfg in
    let listener := listener_acls_from_snap cfg (gate_address g) (gate_protocol g) in
    let! compiled :=
      match effective_acl global listener with
      | Some _ => Some <$> compile_effective global listener
      | None => Some None
      end in
    Some {| gate_address := gate_address g; gate_protocol := gate_protocol g;
            gate_generation := Some generation; gate_compiled := compiled |}.

Definition gate_preadmission (g : AclGate) (ip : IpAddr) : AclGateOutcome :=
  match gate_compiled g with
  | None => GateAdmit
  | Some p => match evaluate_preadmission p ip with AclDrop => GateDrop | _ => GateAdmit end
  end.

Definition gate_full (g : AclGate) (ip : IpAddr) : AclGateOutcome :=
  match gate_compiled g with
  | None => GateAdmit
  | Some p =>
      match evaluate_full p ip with
      | Admit => GateAdmit | Tag t => AdmitTagged t | AclDrop => GateDrop | Refuse => GateRefuse
      end
  end.

Definition decide_preadmission (g : AclGate) (cfg : AclConfig) (generation : Z) (ip : IpAddr)
    : option (AclGateOutcome * AclGate) :=
  let! g := refresh g cfg generation in Some (gate_preadmission g ip, g).
Definition decide_full (g : AclGate) (cfg : AclConfig) (generation : Z) (ip : IpAddr)
    : option (AclGateOutcome * AclGate) :=
  let! g := refresh g cfg generation in Some (gate_full g ip, g).

Definition gate_decide (g : AclGate) (cfg : AclConfig) (generation : Z) (ip : IpAddr)
    : option (AclGateOutcome * AclGate) :=
  let! r := decide_preadmission g cfg generation ip in
  match r.1 with
  | GateAdmit => decide_full r.2 cfg generation ip
  | _ => Some r
  end.
End Eval.

(** ** Samples *)

Definition sample_rule (m a : string) (t : option string) : AclRuleConfig :=
  {| rc_match := m; rc_action := a; rc_tag := t |}.
Definition sample_acls (d : string) (rs : list AclRuleConfig) : AclsConfig :=
  {| ac_default_action := d; ac_rules := rs |}.
Definition sample_listener (n addr proto : string) (a : option AclsConfig) : Listener :=
  {| ln_name := Some n; ln_address := addr; ln_protocol := proto; ln_acls := a |}.
Definition sample_open : Listener := sample_listener "open" "10.0.0.1:53" "udp" None.
Definition sample_closed : Listener :=
  sample_listener "closed" "10.0.0.2:53" "udp" (Some (sample_acls "deny" [])).
Definition sample_config (lns : list Listener) : AclConfig :=
  {| cf_acls := Some (sample_acls "allow" [sample_rule "bad" "drop" None; sample_rule "lab" "tag" (Some "lab")]);
     cf_listeners := Some lns;
     cf_data_sources := [{| ds_name := "bad"; ds_type := "cidr" |}; {| ds_name := "lab"; ds_type := "cidr" |}] |}.
Definition sample_store (v : string) (ip : IpAddr) : option string :=
  if String.eqb v "lab" then Some v else None.

(** ** The tiers *)

Section Facts.
Context (lookup_ip : string -> IpAddr -> option string).
Context (to_lowercase : string -> string).

Definition rule_hits (ip : IpAddr) (r : CompiledAclRule) : bool := is_someb (lookup_ip (view r) ip).

(** The decision of a policy as a reference: the first rule that covers the client,
    or the default action. *)
Definition first_match (p : CompiledAclPolicy) (ip : IpAddr) : AclDecision :=
  match List.find (rule_hits ip) (rules p) with
  | Some r => decision_of (action r)
  | None => match default_action p with DefaultAllow => Admit | DefaultDeny => AclDrop end
  end.

Lemma full_first_match (p : CompiledAclPolicy) (ip : IpAddr) :
  evaluate_full lookup_ip p ip = first_match p ip.
Proof.
  unfold evaluate_full, first_match. induction (rules p) as [|r rs IH]; simpl; [done|].
  unfold rule_hits at 1. by destruct (is_someb _).
Qed.

Lemma preadmission_drop (p : CompiledAclPolicy) (ip : IpAddr) :
  evaluate_preadmission lookup_ip p ip = AclDrop -> first_match p ip = AclDrop.
Proof.
  unfold evaluate_preadmission, first_match. induction (rules p) as [|r rs IH]; simpl; [done|].
  unfold rule_hits at 1. destruct (is_someb _); [by destruct (action r)|done].
Qed.

Definition outcome_of (d : AclDecision) : AclGateOutcome :=
  match d with Admit => GateAdmit | AclDrop => GateDrop | Refuse => GateRefuse | Tag t => AdmitTagged t end.

Lemma refresh_twice (g g' : AclGate) (cfg : AclConfig) (gen : Z) :
  refresh g cfg gen = Some g' -> refresh g' cfg gen = Some g'.
Proof.
  unfold refresh at 1. case_bool_decide as E; intros Hr.
  - simplify_eq. unfold refresh. by rewrite bool_decide_true.
  - destruct (match effective_acl _ _ with Some _ => _ | None => _ end); simplify_eq/=.
    unfold refresh. by rewrite bool_decide_true.
Qed.

Lemma gate_full_first_match (g : AclGate) (ip : IpAddr) :
  gate_full lookup_ip g ip = outcome_of (from_option (fun p => first_match p ip) Admit (gate_compiled g)).
Proof.
  unfold gate_full. destruct (gate_compiled g) as [p|]; simpl; [|done].
  rewrite full_first_match. by destruct (first_match p ip).
Qed.

Lemma gate_preadmission_cases (g : AclGate) (ip : IpAddr) :
  gate_preadmission lookup_ip g ip = GateAdmit \/
  (gate_preadmission lookup_ip g ip = GateDrop /\ gate_full lookup_ip g ip = GateDrop).
Proof.
  rewrite gate_full_first_match. unfold gate_preadmission.
  destruct (gate_compiled g) as [p|]; [simpl|by left].
  destruct (evaluate_preadmission lookup_ip p ip) eqn:E; [by left| |by left|by left].
  right. by rewrite preadmission_drop.
Qed.

End Facts.

(** ** Validated configurations *)

Definition compiles (a : option AclsConfig) : Prop :=
  match a with Some cfg => is_Some (acl_compile cfg) | None => True end.

Lemma rule_compiles (w : string) (names : list string) (i : nat) (r : AclRuleConfig) :
  validate_rule w names i r = [] -> is_Some (compile_action r).
Proof.
  unfold validate_rule, compile_action. intros [_ H]%app_eq_nil.
  destruct (String.eqb (rc_action r) "drop"); [by eexists|].
  destruct (String.eqb (rc_action r) "refuse"); [by eexists|].
  destruct (String.eqb (rc_action r) "accept"); [by eexists|].
  destruct (String.eqb (rc_action r) "tag"); [|done].
  destruct (rc_tag r); [by eexists|done].
Qed.

Lemma rules_compile (w : string) (names : list string) (rs : list AclRuleConfig) (i : nat) :
  validate_rules w names i rs = [] -> is_Some (compile_rules rs).
Proof.
  revert i. induction rs as [|r rs IH]; intros i; simpl; [by eexists|].
  intros [Hr Hrs]%app_eq_nil.
  destruct (rule_compiles _ _ _ _ Hr) as [a ->], (IH _ Hrs) as [l ->]. by eexists.
Qed.

Lemma block_compiles (w : string) (names : list string) (a : AclsConfig) :
  validate_acl_block w a names = [] -> is_Some (acl_compile a).
Proof.
  intros [_ H]%app_eq_nil. destruct (rules_compile _ _ _ _ H) as [l E].
  unfold acl_compile. rewrite E. by eexists.
Qed.

Lemma listeners_compile (names : list string) (lns : list Listener) (i : nat) :
  validate_listener_acls names i lns = [] -> Forall (fun ln => compiles (ln_acls ln)) lns.
Proof.
  revert i. induction lns as [|ln lns IH]; intros i; simpl; [done|].
  intros [Hl Hls]%app_eq_nil. constructor; [|by eapply IH].
  destruct (ln_acls ln) as [a|]; [by eapply block_compiles|done].
Qed.

Lemma validated_compiles (cfg : AclConfig) :
  validate_acls cfg = [] ->
  compiles (cf_acls cfg) /\ Forall (fun ln => compiles (ln_acls ln)) (default [] (cf_listeners cfg)).
Proof.
  intros [Hg Hl]%app_eq_nil. split; [|by eapply listeners_compile].
  destruct (cf_acls cfg); [by eapply block_compiles|done].
Qed.

Lemma effective_compiles (global listener : option AclsConfig) :
  compiles global -> compiles listener -> is_Some (compile_effective global listener).
Proof.
  unfold compile_effective, effective_acl. destruct listener, global; simpl; try done; by eexists.
Qed.

Lemma snap_acls_compile (cfg : AclConfig) (addr proto : string) :
  Forall (fun ln => compiles (ln_acls ln)) (default [] (cf_listeners cfg)) ->
  compiles (listener_acls_from_snap cfg addr proto).
Proof.
  unfold listener_acls_from_snap. destruct (cf_listeners cfg) as [lns|]; simpl; [|done].
  intros Hl. destruct (List.find _ lns) as [ln|] eqn:E; simpl; [|done].
  apply find_some in E as [Hin _]. rewrite Forall_forall in Hl. apply Hl. by apply list_elem_of_In.
Qed.

Section Validated.
Context (lookup_ip : string -> IpAddr -> option string).
Context (to_lowercase : string -> string).

Lemma check_one_total (global listener : option AclsConfig) (n : string) (ip : IpAddr) :
  compiles global -> compiles listener -> is_Some (check_one_listener lookup_ip global listener n ip).
Proof.
  intros Hg Hl. destruct (effective_compiles _ _ Hg Hl) as [p E].
  unfold check_one_listener. rewrite E. simpl.
  destruct (match_detail lookup_ip p ip), (decision_text _). by eexists.
Qed.

Lemma check_listeners_total (global : option AclsConfig) (ip : IpAddr) (f : option string) (lns : list Listener) :
  compiles global -> Forall (fun ln => compiles (ln_acls ln)) lns ->
  is_Some (check_listeners lookup_ip to_lowercase global lns ip f).
Proof.
  intros Hg. induction 1 as [|ln lns Hl _ IH]; simpl; [by eexists|].
  destruct (match f with Some _ => _ | None => _ end); [done|].
  destruct (check_one_total global (ln_acls ln) (listener_name to_lowercase ln) ip Hg Hl) as [c ->].
  destruct IH as [r ->]. by eexists.
Qed.

(** A configuration that passes validation never panics in the ACL code: every
    gate, whatever it held and whichever listener it stands for, decides every client
    at every generation, and the control-plane check answers every request. *)
Theorem validated_acls_never_panic (cfg : AclConfig) (g : AclGate) (gen : Z) (ip : IpAddr)
    (f : option string) :
  validate_acls cfg = [] ->
  is_Some (gate_decide lookup_ip g cfg gen ip) /\
  is_Some (check_client_acl lookup_ip to_lowercase cfg ip f).
Proof.
  intros [Hg Hl]%validated_compiles. split.
  - assert (is_Some (refresh g cfg gen)) as [g' E].
    { unfold refresh. case_bool_decide; [by eexists|].
      destruct (effective_compiles (cf_acls cfg) (listener_acls_from_snap cfg (gate_address g) (gate_protocol g)))
        as [p ->]; [done|by apply snap_acls_compile|].
      destruct (effective_acl _ _); by eexists. }
    unfold gate_decide, decide_preadmission, decide_full. rewrite E. simpl.
    destruct (gate_preadmission lookup_ip g' ip); try by eexists.
    rewrite (refresh_twice _ _ _ _ E). by eexists.
  - unfold check_client_acl. destruct (cf_listeners cfg) as [[|ln lns]|]; try by eexists.
    destruct (check_listeners_total (cf_acls cfg) ip f (ln :: lns) Hg Hl) as [r ->].
    simpl. destruct f; by eexists.
Qed.

(** ** The check and the gate *)

(** The decision word and the tag of a gate outcome. *)
Definition outcome_text (o : AclGateOutcome) : string * option string :=
  match o with
  | GateAdmit => ("admit", None) | GateDrop => ("drop", None) | GateRefuse => ("refuse", None)
  | AdmitTagged t => ("tag", Some t)
  end.

Definition bind (ln : Listener) : string * string := (ln_address ln, ln_protocol ln).

Lemma find_by_bind (lns : list Listener) (ln : Listener) :
  NoDup (bind <$> lns) -> ln ∈ lns ->
  List.find (fun l => String.eqb (ln_address l) (ln_address ln) && String.eqb (ln_protocol l) (ln_protocol ln)) lns
  = Some ln.
Proof.
  induction lns as [|l lns IH]; simpl; [by intros _ ?%elem_of_nil|].
  intros [Hn Hd]%NoDup_cons [-> | Hin]%elem_of_cons; [by rewrite !String.eqb_refl|].
  destruct (String.eqb_spec (ln_address l) (ln_address ln)) as [Ea|]; simpl; [|by apply IH].
  destruct (String.eqb_spec (ln_protocol l) (ln_protocol ln)) as [Ep|]; simpl; [|by apply IH].
  destruct Hn. apply list_elem_of_fmap. exists ln. split; [|done]. unfold bind. by rewrite Ea, Ep.
Qed.

Lemma fresh_gate_decides (cfg : AclConfig) (lns : list Listener) (ln : Listener) (gen : Z) (ip : IpAddr)
    (p : CompiledAclPolicy) :
  cf_listeners cfg = Some lns -> NoDup (bind <$> lns) -> ln ∈ lns ->
  compile_effective (cf_acls cfg) (ln_acls ln) = Some p ->
  exists g, gate_decide lookup_ip (gate_new ln) cfg gen ip = Some (outcome_of (first_match lookup_ip p ip), g).
Proof.
  intros Hc Hd Hin Hp.
  assert (listener_acls_from_snap cfg (ln_address ln) (ln_protocol ln) = ln_acls ln) as Hs.
  { unfold listener_acls_from_snap. rewrite Hc. simpl. by rewrite find_by_bind. }
  unfold gate_decide, decide_preadmission, decide_full.
  destruct (refresh (gate_new ln) cfg gen) as [g|] eqn:E.
  - simpl. rewrite (refresh_twice _ _ _ _ E). exists g.
    assert (outcome_of (from_option (fun p => first_match lookup_ip p ip) Admit (gate_compiled g))
            = outcome_of (first_match lookup_ip p ip)) as <-.
    { revert E. unfold refresh. simpl. rewrite Hs. unfold compile_effective in *.
      destruct (effective_acl _ _); intros E.
      - rewrite Hp in E. by simplify_eq/=.
      - by simplify_eq/=. }
    rewrite <- gate_full_first_match. simpl.
    by destruct (gate_preadmission_cases lookup_ip g ip) as [-> | [-> ->]].
  - revert E. unfold refresh. simpl. rewrite Hs, Hp. by destruct (effective_acl _ _).
Qed.

Lemma check_one_decision (global listener : option AclsConfig) (n : string) (ip : IpAddr)
    (p : CompiledAclPolicy) :
  compile_effective global listener = Some p ->
  exists c, check_one_listener lookup_ip global listener n ip = Some c /\ cr_listener c = n /\
    (cr_decision c, cr_tag c) = outcome_text (outcome_of (first_match lookup_ip p ip)).
Proof.
  intros Hp. unfold check_one_listener. rewrite Hp. simpl.
  destruct (match_detail lookup_ip p ip) as [m a]. rewrite full_first_match.
  destruct (first_match lookup_ip p ip); by eexists.
Qed.

(** What the check reports of a listener is what a new gate of that listener does. *)
Definition agrees (cfg : AclConfig) (gen : Z) (ip : IpAddr) (ln : Listener) (c : AclCheckResult) : Prop :=
  cr_listener c = listener_name to_lowercase ln /\
  exists o g, gate_decide lookup_ip (gate_new ln) cfg gen ip = Some (o, g) /\
    (cr_decision c, cr_tag c) = outcome_text o.

Lemma check_listeners_agree (cfg : AclConfig) (all lns : list Listener) (gen : Z) (ip : IpAddr) :
  cf_listeners cfg = Some all -> NoDup (bind <$> all) -> lns ⊆ all -> compiles (cf_acls cfg) ->
  Forall (fun ln => compiles (ln_acls ln)) lns ->
  exists cs, check_listeners lookup_ip to_lowercase (cf_acls cfg) lns ip None = Some (cs, false) /\
    Forall2 (agrees cfg gen ip) lns cs.
Proof.
  intros Hc Hd Hsub Hg. induction 1 as [|ln lns Hl _ IH]; simpl; [by exists []|].
  destruct IH as (cs & -> & Hcs); [set_solver|].
  destruct (effective_compiles _ _ Hg Hl) as [p Hp].
  destruct (check_one_decision _ _ (listener_name to_lowercase ln) ip p Hp) as (c & -> & Hn & Ht).
  destruct (fresh_gate_decides cfg all ln gen ip p Hc Hd) as [g Hgate]; [set_solver|done|].
  exists (c :: cs). split; [done|]. constructor; [|done]. split; [done|]. by exists (outcome_of (first_match lookup_ip p ip)), g.
Qed.

(** On a validated configuration whose listeners bind distinct (address, protocol)
    pairs, the control-plane check reports for every listener, in order, exactly the
    decision and the tag the ingress gate of that listener gives the client. *)
Theorem check_agrees_with_gate (cfg : AclConfig) (ln : Listener) (lns : list Listener) (gen : Z)
    (ip : IpAddr) :
  validate_acls cfg = [] -> cf_listeners cfg = Some (ln :: lns) -> NoDup (bind <$> ln :: lns) ->
  exists cs, check_client_acl lookup_ip to_lowercase cfg ip None = Some (Ok cs) /\
    Forall2 (agrees cfg gen ip) (ln :: lns) cs.
Proof.
  intros [Hg Hl]%validated_compiles Hc Hd. rewrite Hc in Hl.
  destruct (check_listeners_agree cfg (ln :: lns) (ln :: lns) gen ip Hc Hd) as (cs & E & Hcs); [done..|].
  exists cs. split; [|done]. unfold check_client_acl. by rewrite Hc, E.
Qed.

(** The listeners of two entries that share one bind, the second of which denies. *)
Definition shared_bind (addr proto : string) : AclConfig :=
  {| cf_acls := None;
     cf_listeners := Some [sample_listener "a" addr proto None;
                           sample_listener "b" addr proto (Some (sample_acls "deny" []))];
     cf_data_sources := [] |}.

(** When two listeners share an address and protocol the gate of the second uses
    the ACLs of the first: validation accepts the configuration, the check reports
    that listener [b] drops every client, and the gate of [b] admits every client. *)
Theorem shared_bind_gate_ignores_acls (addr proto : string) (gen : Z) (ip : IpAddr) :
  let cfg := shared_bind addr proto in
  let b := sample_listener "b" addr proto (Some (sample_acls "deny" [])) in
  validate_acls cfg = [] /\
  (exists c, check_client_acl lookup_ip to_lowercase cfg ip (Some "b") = Some (Ok [c]) /\ cr_decision c = "drop") /\
  exists g, gate_decide lookup_ip (gate_new b) cfg gen ip = Some (GateAdmit, g).
Proof.
  split_and!; [done|by eexists|].
  unfold gate_decide, decide_preadmission, decide_full, refresh. simpl.
  unfold listener_acls_from_snap. simpl. rewrite !String.eqb_refl. simpl.
  rewrite bool_decide_true by done. by eexists.
Qed.
End Validated.

(** ** Witnesses *)

Lemma validated_acls_never_panic_witness :
  is_Some (gate_decide sample_store (gate_new sample_closed) (sample_config [sample_open; sample_closed]) 4 (IpV4 1)) /\
  is_Some (check_client_acl sample_store to_ascii_lowercase (sample_config [sample_open; sample_closed]) (IpV4 1) None).
Proof. apply validated_acls_never_panic. reflexivity. Defined.

Lemma check_agrees_with_gate_witness :
  exists cs, check_client_acl sample_store to_ascii_lowercase (sample_config [sample_open; sample_closed]) (IpV4 1) None
             = Some (Ok cs) /\
    Forall2 (agrees sample_store to_ascii_lowercase (sample_config [sample_open; sample_closed]) 4 (IpV4 1))
            [sample_open; sample_closed] cs.
Proof.
  apply check_agrees_with_gate; [reflexivity|reflexivity|].
  apply (bool_decide_unpack _). vm_compute. exact I.
Defined.
