(* ===== verification/ForwardTable.v ===== *)
(** * ForwardTable: outstanding upstream queries

    The tables of conduit-dataplane/src/forward: the demultiplexing table
    ([TxnTable], txn_table.rs), the per-pool limits ([PoolInflight],
    pool_inflight.rs) and the pending maps of the I/O shards with their replies and
    timeouts ([IoBackend], io_backend.rs, without its sockets). The operations of the
    table and of the limits hold their locks from the first read to the last write,
    so each is one function on the state. [complete] releases the pending map before
    it locks the table, and [poll_timeouts] collects the expired keys first; what
    other threads do in between is not modelled. A resume sent on the channel is an
    element of the list returned. *)

From stdpp Require Import strings gmap.
From S2P Require Import Prelude.

#[local] Open Scope Z_scope.

(** ** The demultiplexing table *)

Record ForwardKey := { fk_backend : SocketAddr; fk_dns_id : Z }.

#[global] Instance ForwardKey_eq_dec : EqDecision ForwardKey.
Proof. solve_decision. Defined.

#[global] Instance ForwardKey_countable : Countable ForwardKey.
Proof.
  apply (inj_countable' (fun k => (fk_backend k, fk_dns_id k))
           (fun p => {| fk_backend := p.1; fk_dns_id := p.2 |})). by intros [].
Defined.

Definition rewrite_dns_id (wire : list Z) (id : Z) : list Z :=
  match wire with
  | _ :: _ :: rest => Z.shiftr id 8 :: Z.land id 255 :: rest
  | _ => wire
  end.

Record TxnTable := MkTable {
  capacity : Z;
  per_backend_limit : Z;
  entries : gmap ForwardKey Z;
  per_backend : gmap SocketAddr Z;
  next_dns_id : Z;
}.

#[global] Instance set_entries : Setter entries.
Proof. setter MkTable (capacity, per_backend_limit, entries, per_backend, next_dns_id). Defined.
#[global] Instance set_per_backend : Setter per_backend.
Proof. setter MkTable (capacity, per_backend_limit, entries, per_backend, next_dns_id). Defined.
#[global] Instance set_next_dns_id : Setter next_dns_id.
Proof. setter MkTable (capacity, per_backend_limit, entries, per_backend, next_dns_id). Defined.

Definition table_new (cap limit : Z) : TxnTable :=
  {| capacity := cap; per_backend_limit := limit; entries := ∅; per_backend := ∅; next_dns_id := 0 |}.

(** [counts.entry(backend).or_insert(0)]: the count, and the map that now holds it. *)
Definition or_insert_zero {K} `{Countable K} (k : K) (m : gmap K Z) : Z * gmap K Z :=
  match m !! k with Some c => (c, m) | None => (0, <[k := 0]> m) end.

Definition register (t : TxnTable) (key : ForwardKey) (txn_id : Z) : bool * TxnTable :=
  if capacity t <=? Z.of_nat (size (entries t)) then (false, t)
  else if is_someb (entries t !! key) then (false, t)
  else
    let '(count, counts) := or_insert_zero (fk_backend key) (per_backend t) in
    if per_backend_limit t <=? count then (false, t <| per_backend := counts |>)
    else (true, t <| per_backend := <[fk_backend key := wrap 32 (count + 1)]> counts |>
                  <| entries := <[key := txn_id]> (entries t) |>).

(** The scan from [start]; [n] ids are left to try. *)
Fixpoint free_key (es : gmap ForwardKey Z) (backend : SocketAddr) (start offset : Z) (n : nat)
    : option ForwardKey :=
  match n with
  | O => None
  | S n =>
      let key := {| fk_backend := backend; fk_dns_id := wrap 16 (start + offset) |} in
      if is_someb (es !! key) then free_key es backend start (offset + 1) n else Some key
  end.

Definition register_unique (t : TxnTable) (backend : SocketAddr) (txn_id : Z) : option ForwardKey * TxnTable :=
  if capacity t <=? Z.of_nat (size (entries t)) then (None, t)
  else
    let '(count, counts) := or_insert_zero backend (per_backend t) in
    let t := t <| per_backend := counts |> in
    if per_backend_limit t <=? count then (None, t)
    else
      let start := next_dns_id t in
      let t := t <| next_dns_id := wrap 16 (start + 1) |> in
      match free_key (entries t) backend start 0 (Z.to_nat (u16_max + 1)) with
      | None => (None, t)
      | Some key =>
          (Some key, t <| per_backend := <[backend := wrap 32 (count + 1)]> counts |>
                       <| entries := <[key := txn_id]> (entries t) |>)
      end.

Definition table_remove (t : TxnTable) (key : ForwardKey) : TxnTable :=
  match entries t !! key with
  | None => t
  | Some _ =>
      let t := t <| entries := delete key (entries t) |> in
      match per_backend t !! fk_backend key with
      | Some c => t <| per_backend := <[fk_backend key := sat_sub c 1]> (per_backend t) |>
      | None => t
      end
  end.

Definition table_lookup (t : TxnTable) (key : ForwardKey) : option Z := entries t !! key.

(** ** Per-pool limits *)

Record PoolInflight := MkInflight { limits : gmap string Z; active : gmap string Z }.

Definition inflight_from_config (pools : list (string * option Z)) : PoolInflight :=
  {| limits := foldl (fun m p => match p.2 with Some n => <[p.1 := n]> m | None => m end) ∅ pools;
     active := ∅ |}.

Definition try_acquire (p : PoolInflight) (pool : string) : bool * PoolInflight :=
  match limits p !! pool with
  | None => (true, p)
  | Some limit =>
      let '(count, act) := or_insert_zero pool (active p) in
      if limit <=? count then (false, {| limits := limits p; active := act |})
      else (true, {| limits := limits p; active := <[pool := wrap 32 (count + 1)]> act |})
  end.

Definition inflight_release (p : PoolInflight) (pool : string) : PoolInflight :=
  match limits p !! pool with
  | None => p
  | Some _ =>
      match active p !! pool with
      | Some c => {| limits := limits p; active := <[pool := sat_sub c 1]> (active p) |}
      | None => p
      end
  end.

(** ** Pending forwards of the I/O shards *)

Record PendingForward := { pf_slot_id : Z; pf_deadline : Z }.
Inductive WaitCompletion := Response (wire : list Z) | Timeout.
Record IoResume := { ir_slot_id : Z; ir_completion : WaitCompletion }.

(** The table all shards share and the pending map of each shard. *)
Record IoBackend := MkIo { io_table : TxnTable; io_timeout : Z; shards : list (gmap ForwardKey PendingForward) }.

#[global] Instance set_io_table : Setter io_table.
Proof. setter MkIo (io_table, io_timeout, shards). Defined.
#[global] Instance set_shards : Setter shards.
Proof. setter MkIo (io_table, io_timeout, shards). Defined.

Definition io_shard_index (b : IoBackend) (slot_id : Z) : nat := Z.to_nat (slot_id mod zlen (shards b)).

Definition track_pending (now : Z) (b : IoBackend) (key : ForwardKey) (slot_id : Z) : IoBackend :=
  b <| shards := alter <[key := {| pf_slot_id := slot_id; pf_deadline := now + io_timeout b |}]>
                       (io_shard_index b slot_id) (shards b) |>.

(** The first shard that holds the key loses it. *)
Fixpoint cancel_in (ss : list (gmap ForwardKey PendingForward)) (key : ForwardKey)
    : list (gmap ForwardKey PendingForward) :=
  match ss with
  | [] => []
  | s :: ss => if is_someb (s !! key) then delete key s :: ss else s :: cancel_in ss key
  end.
Definition cancel_pending (b : IoBackend) (key : ForwardKey) : IoBackend :=
  b <| shards := cancel_in (shards b) key |>.

(** [IoShard::complete] on shard [i]. *)
Definition complete (b : IoBackend) (i : nat) (key : ForwardKey) (c : WaitCompletion)
    : list IoResume * IoBackend :=
  match shards b !! i ≫= lookup key with
  | None => ([], b)
  | Some p =>
      ([{| ir_slot_id := pf_slot_id p; ir_completion := c |}],
       b <| shards := alter (delete key) i (shards b) |> <| io_table := table_remove (io_table b) key |>)
  end.

Fixpoint complete_all (b : IoBackend) (i : nat) (keys : list ForwardKey) : list IoResume * IoBackend :=
  match keys with
  | [] => ([], b)
  | k :: keys =>
      let '(r, b) := complete b i k Timeout in
      let '(rs, b) := complete_all b i keys in
      (r ++ rs, b)
  end.

(** [iter] is the order in which the pending map is walked. *)
Definition poll_timeouts (iter : gmap ForwardKey PendingForward -> list (ForwardKey * PendingForward))
    (now : Z) (b : IoBackend) (i : nat) : list IoResume * IoBackend :=
  match shards b !! i with
  | None => ([], b)
  | Some s =>
      complete_all b i ((List.filter (fun e => pf_deadline e.2 <=? now) (iter s)).*1)
  end.

Definition handle_reply (b : IoBackend) (i : nat) (from : SocketAddr) (wire : list Z)
    : list IoResume * IoBackend :=
  match wire with
  | hi :: lo :: _ =>
      if zlen wire <? 12 then ([], b)
      else
        let key := {| fk_backend := from; fk_dns_id := Z.lor (Z.shiftl hi 8) lo |} in
        if is_someb (shards b !! i ≫= lookup key) then complete b i key (Response wire) else ([], b)
  | _ => ([], b)
  end.

(** ** The invariant of the table *)

Definition outstanding (m : gmap ForwardKey Z) (b : SocketAddr) : Z :=
  Z.of_nat (size (filter (fun e : ForwardKey * Z => fk_backend e.1 = b) m)).

Record table_wf (t : TxnTable) : Prop := {
  wf_limit : 0 <= per_backend_limit t <= u32_max;
  wf_capacity : 0 <= capacity t;
  wf_size : Z.of_nat (size (entries t)) <= capacity t;
  wf_counts b : default 0 (per_backend t !! b) = outstanding (entries t) b;
  wf_bound b : outstanding (entries t) b <= per_backend_limit t;
  wf_ids k : is_Some (entries t !! k) -> fits 16 (fk_dns_id k);
  wf_next : fits 16 (next_dns_id t);
}.

Inductive TableOp :=
  | OpRegister (key : ForwardKey) (txn_id : Z)
  | OpRegisterUnique (backend : SocketAddr) (txn_id : Z)
  | OpRemove (key : ForwardKey).

(** The keys of the callers are u16 ids. *)
Definition op_fits (o : TableOp) : Prop :=
  match o with OpRegister k _ => fits 16 (fk_dns_id k) | _ => True end.

Definition table_exec (t : TxnTable) (o : TableOp) : TxnTable :=
  match o with
  | OpRegister k id => (register t k id).2
  | OpRegisterUnique b id => (register_unique t b id).2
  | OpRemove k => table_remove t k
  end.

Lemma outstanding_insert (m : gmap ForwardKey Z) (k : ForwardKey) (v : Z) (b : SocketAddr) :
  m !! k = None ->
  outstanding (<[k := v]> m) b = outstanding m b + (if decide (fk_backend k = b) then 1 else 0).
Proof.
  intros Hk. unfold outstanding. destruct (decide (fk_backend k = b)) as [E|E].
  - rewrite map_filter_insert_True by done. rewrite map_size_insert_None; [lia|].
    rewrite map_lookup_filter_None. by left.
  - rewrite map_filter_insert_not by (intros ?; done). lia.
Qed.

Lemma outstanding_delete (m : gmap ForwardKey Z) (k : ForwardKey) (b : SocketAddr) :
  is_Some (m !! k) ->
  outstanding (delete k m) b = outstanding m b - (if decide (fk_backend k = b) then 1 else 0).
Proof.
  intros [v Hv]. rewrite <- (insert_delete_id m k v Hv) at 2.
  rewrite outstanding_insert by apply lookup_delete_eq. lia.
Qed.

Lemma outstanding_pos (m : gmap ForwardKey Z) (k : ForwardKey) :
  is_Some (m !! k) -> 1 <= outstanding m (fk_backend k).
Proof.
  intros H. pose proof (outstanding_delete m k (fk_backend k) H) as E.
  rewrite decide_True in E by done. unfold outstanding in *. lia.
Qed.

Lemma or_insert_zero_spec {K} `{Countable K} (k : K) (m : gmap K Z) :
  (or_insert_zero k m).1 = default 0 (m !! k) /\
  forall k', default 0 ((or_insert_zero k m).2 !! k') = default 0 (m !! k').
Proof.
  unfold or_insert_zero. destruct (m !! k) as [c|] eqn:E; [done|]. split; [done|].
  intros k'. simpl. destruct (decide (k = k')) as [<- |Hn].
  - by rewrite lookup_insert_eq, E.
  - by rewrite lookup_insert_ne.
Qed.

(** Adding a fresh key to the entries and one to its backend's count. *)
Lemma wf_add (t : TxnTable) (counts : gmap SocketAddr Z) (k : ForwardKey) (id next : Z) :
  table_wf t -> entries t !! k = None -> fits 16 (fk_dns_id k) -> fits 16 next ->
  Z.of_nat (size (entries t)) < capacity t -> outstanding (entries t) (fk_backend k) < per_backend_limit t ->
  (forall b, default 0 (counts !! b) = default 0 (per_backend t !! b)) ->
  table_wf (MkTable (capacity t) (per_backend_limit t) (<[k := id]> (entries t))
              (<[fk_backend k := wrap 32 (outstanding (entries t) (fk_backend k) + 1)]> counts) next).
Proof.
  intros [Hl Hc Hs Hcnt Hb Hi Hn] Hk Hf Hf' Hsz Hlt Hd.
  split; simpl; try done.
  - rewrite map_size_insert_None by done. lia.
  - intros b. rewrite outstanding_insert by done. case_decide as E.
    + subst b. rewrite lookup_insert_eq. simpl. apply wrap_small.
      unfold fits, u32_max in *. pose proof (Hb (fk_backend k)). unfold outstanding in *. lia.
    + rewrite lookup_insert_ne, Hd, Hcnt by done. lia.
  - intros b. rewrite outstanding_insert by done. pose proof (Hb b). case_decide; subst; lia.
  - intros k'. destruct (decide (k = k')) as [<- |Hne]; [done|]. rewrite lookup_insert_ne by done. apply Hi.
Qed.

(** Counts that changed only where they were absent. *)
Lemma wf_counts_same (t : TxnTable) (counts : gmap SocketAddr Z) (next : Z) :
  table_wf t -> (forall b, default 0 (counts !! b) = default 0 (per_backend t !! b)) -> fits 16 next ->
  table_wf (MkTable (capacity t) (per_backend_limit t) (entries t) counts next).
Proof. intros [] Hd Hn. split; simpl; try done. intros b. by rewrite Hd. Qed.

Lemma free_key_Some (es : gmap ForwardKey Z) (b : SocketAddr) (start : Z) (n : nat) (k : ForwardKey) :
  forall offset, free_key es b start offset n = Some k ->
  es !! k = None /\ fk_backend k = b /\ fits 16 (fk_dns_id k).
Proof.
  induction n as [|n IH]; intros offset; simpl; [done|].
  destruct (es !! {| fk_backend := b; fk_dns_id := wrap 16 (start + offset) |}) eqn:E; simpl; [apply IH|].
  intros [= <-]. split_and!; [done|done|]. by apply wrap_fits.
Qed.

Lemma free_key_None (es : gmap ForwardKey Z) (b : SocketAddr) (start : Z) (n : nat) :
  forall offset, free_key es b start offset n = None ->
  forall i, offset <= i < offset + Z.of_nat n ->
  is_Some (es !! {| fk_backend := b; fk_dns_id := wrap 16 (start + i) |}).
Proof.
  induction n as [|n IH]; intros offset; simpl; [lia|].
  destruct (es !! {| fk_backend := b; fk_dns_id := wrap 16 (start + offset) |}) eqn:E; simpl; [|done].
  intros H i Hi.
  destruct (decide (i = offset)) as [-> |]; [by eexists|]. apply (IH (offset + 1)); [done|lia].
Qed.

(** Every id is [start + i] for some [i] below 65536. *)
Lemma wrap_covers (start id : Z) :
  fits 16 id -> exists i, 0 <= i < 0 + Z.of_nat (Z.to_nat (u16_max + 1)) /\ wrap 16 (start + i) = id.
Proof.
  intros Hid. exists (wrap 16 (id - start)).
  pose proof (wrap_fits 16 (id - start) ltac:(lia)) as Hf.
  unfold fits, u16_max, wrap in *. rewrite Z2Nat.id by lia. split; [lia|].
  rewrite Zplus_mod_idemp_r. replace (start + (id - start)) with id by lia. by apply Z.mod_small.
Qed.

Lemma register_unique_cases (t : TxnTable) (b : SocketAddr) (id : Z) :
  table_wf t ->
  let '(r, t') := register_unique t b id in
  table_wf t' /\
  match r with
  | Some k =>
      fk_backend k = b /\ fits 16 (fk_dns_id k) /\ entries t !! k = None /\
      entries t' = <[k := id]> (entries t)
  | None =>
      entries t' = entries t /\
      (Z.of_nat (size (entries t)) = capacity t \/ outstanding (entries t) b = per_backend_limit t \/
       forall i, fits 16 i -> is_Some (entries t !! {| fk_backend := b; fk_dns_id := i |}))
  end.
Proof.
  intros Hwf. unfold register_unique. destruct Hwf as [Hl Hc Hs Hcnt Hb Hi Hn] eqn:Ewf. clear Ewf.
  destruct (Z.leb_spec (capacity t) (Z.of_nat (size (entries t)))); [split; [done|]; split; [done|]; lia|].
  destruct (or_insert_zero_spec b (per_backend t)) as [H1 H2].
  destruct (or_insert_zero b (per_backend t)) as [c counts]. simpl in H1, H2.
  rewrite Hcnt in H1. subst c. cbn.
  destruct (Z.leb_spec (per_backend_limit t) (outstanding (entries t) b)) as [Hge|Hlt].
  { split; [by apply (wf_counts_same t counts (next_dns_id t))|]. split; [done|]. pose proof (Hb b). lia. }
  destruct (free_key (entries t) b (next_dns_id t) 0 _) as [k|] eqn:E.
  - apply free_key_Some in E as (Hk & Hkb & Hf). subst b. split; [|done].
    apply (wf_add t counts k id (wrap 16 (next_dns_id t + 1))); try done. by apply wrap_fits.
  - split; [apply (wf_counts_same t counts (wrap 16 (next_dns_id t + 1))); try done; by apply wrap_fits|]. split; [done|]. right. right.
    intros i Hfi. destruct (wrap_covers (next_dns_id t) i Hfi) as (j & Hj & <-).
    by apply (free_key_None _ _ _ _ 0 E).
Qed.

Lemma register_cases (t : TxnTable) (k : ForwardKey) (id : Z) :
  table_wf t -> fits 16 (fk_dns_id k) ->
  let '(ok, t') := register t k id in
  table_wf t' /\
  if ok then entries t !! k = None /\ entries t' = <[k := id]> (entries t) else entries t' = entries t.
Proof.
  intros Hwf Hf. unfold register. destruct Hwf as [Hl Hc Hs Hcnt Hb Hi Hn] eqn:Ewf. clear Ewf.
  destruct (Z.leb_spec (capacity t) (Z.of_nat (size (entries t)))); [done|].
  destruct (entries t !! k) eqn:Hk; simpl; [done|].
  destruct (or_insert_zero_spec (fk_backend k) (per_backend t)) as [H1 H2].
  destruct (or_insert_zero (fk_backend k) (per_backend t)) as [c counts]. simpl in H1, H2.
  rewrite Hcnt in H1. subst c. cbn.
  destruct (Z.leb_spec (per_backend_limit t) (outstanding (entries t) (fk_backend k))).
  - split; [by apply (wf_counts_same t counts (next_dns_id t))|done].
  - split; [by apply (wf_add t counts k id (next_dns_id t))|done].
Qed.

Lemma remove_cases (t : TxnTable) (k : ForwardKey) :
  table_wf t -> table_wf (table_remove t k) /\ entries (table_remove t k) = delete k (entries t).
Proof.
  intros Hwf. unfold table_remove. destruct Hwf as [Hl Hc Hs Hcnt Hb Hi Hn] eqn:Ewf. clear Ewf.
  destruct (entries t !! k) eqn:Hk; [|by rewrite delete_id].
  assert (is_Some (entries t !! k)) as Hsome by by eexists.
  pose proof (outstanding_pos _ _ Hsome) as Hpos. pose proof (Hcnt (fk_backend k)) as Hck.
  cbn. destruct (per_backend t !! fk_backend k) as [c|] eqn:Ec; simpl in Hck; [|lia]. subst c.
  split; [|done]. split; simpl; try done.
  - rewrite map_size_delete_Some by done. lia.
  - intros b. rewrite outstanding_delete by done. case_decide as E.
    + subst b. rewrite lookup_insert_eq. simpl. unfold sat_sub. lia.
    + rewrite lookup_insert_ne, Hcnt by done. lia.
  - intros b. rewrite outstanding_delete by done. pose proof (Hb b). case_decide; lia.
  - intros k'. rewrite lookup_delete_is_Some. intros [_ ?]. by apply Hi.
Qed.

Lemma exec_wf (t : TxnTable) (o : TableOp) : op_fits o -> table_wf t -> table_wf (table_exec t o).
Proof.
  destruct o as [k id|b id|k]; simpl; intros Hf Hwf.
  - pose proof (register_cases t k id Hwf Hf) as H. by destruct (register t k id) as [? ?]; destruct H.
  - pose proof (register_unique_cases t b id Hwf) as H. by destruct (register_unique t b id) as [? ?]; destruct H.
  - by apply remove_cases.
Qed.

Lemma table_new_wf (cap limit : Z) : 0 <= cap -> 0 <= limit <= u32_max -> table_wf (table_new cap limit).
Proof.
  intros Hc Hl. split; simpl; try done.
  - intros b. unfold outstanding. rewrite map_filter_empty, map_size_empty. lia.
  - intros k [? H]. by rewrite lookup_empty in H.
Qed.

Lemma table_keeps (t : TxnTable) (o : TableOp) :
  capacity (table_exec t o) = capacity t /\ per_backend_limit (table_exec t o) = per_backend_limit t.
Proof.
  destruct o; simpl; unfold register, register_unique, table_remove, or_insert_zero;
    repeat case_match; simplify_eq; done.
Qed.

(** After any sequence of registrations and removals the table holds at most its
    capacity of forwards and at most the configured number for each backend, and
    the count it keeps for a backend is the number of forwards outstanding to it. *)
Theorem table_counts_exact (cap limit : Z) (ops : list TableOp) :
  0 <= cap -> 0 <= limit <= u32_max -> Forall op_fits ops ->
  let t := foldl table_exec (table_new cap limit) ops in
  Z.of_nat (size (entries t)) <= cap /\
  forall b, default 0 (per_backend t !! b) = outstanding (entries t) b /\ outstanding (entries t) b <= limit.
Proof.
  intros Hc Hl Hops t.
  assert (table_wf t /\ capacity t = cap /\ per_backend_limit t = limit) as (Hwf & Hcap & Hlim).
  { subst t. revert Hops. pattern ops. apply rev_ind; clear ops.
    - intros _. split; [by apply table_new_wf|done].
    - intros o ops IH [Ho Hf]%Forall_app. inversion_clear Hf as [|? ? Hf' _].
      destruct (IH Ho) as (Hwf & Hcap & Hlim). rewrite foldl_snoc.
      split; [by apply exec_wf|]. destruct (table_keeps (foldl table_exec (table_new cap limit) ops) o); lia. }
  destruct Hwf. split; [by rewrite <- Hcap|]. intros b. by rewrite <- Hlim.
Qed.

(** A forward gets an upstream id that no outstanding forward to the same backend
    has: the registration never displaces another one, the new key leads to the new
    transaction, and every other key leads where it led. A registration is refused only
    when the table is full, the backend has its limit of forwards, or all 65,536 ids
    are taken; and then no key changes. *)
Theorem forward_key_unique (t : TxnTable) (b : SocketAddr) (id : Z) :
  table_wf t ->
  match register_unique t b id with
  | (Some k, t') =>
      fk_backend k = b /\ table_lookup t k = None /\ table_lookup t' k = Some id /\
      (forall k', k' <> k -> table_lookup t' k' = table_lookup t k')
  | (None, t') =>
      (forall k, table_lookup t' k = table_lookup t k) /\
      (Z.of_nat (size (entries t)) = capacity t \/ outstanding (entries t) b = per_backend_limit t \/
       forall i, fits 16 i -> is_Some (table_lookup t {| fk_backend := b; fk_dns_id := i |}))
  end.
Proof.
  intros Hwf. pose proof (register_unique_cases t b id Hwf) as H. unfold table_lookup.
  destruct (register_unique t b id) as [[k|] t'], H as [_ H].
  - destruct H as (Hb & _ & Hk & ->). split_and!; [done..|by rewrite lookup_insert_eq|].
    intros k' Hne. by rewrite lookup_insert_ne.
  - destruct H as [-> H]. by split.
Qed.

(** ** Replies and timeouts *)

Record io_wf (b : IoBackend) : Prop := {
  io_table_wf : table_wf (io_table b);
  io_shards : shards b <> [];
  io_owner i s k p : shards b !! i = Some s -> s !! k = Some p ->
    entries (io_table b) !! k = Some (pf_slot_id p) /\ i = io_shard_index b (pf_slot_id p);
}.

Definition io_new (t : TxnTable) (timeout : Z) (n : nat) : IoBackend :=
  {| io_table := t; io_timeout := timeout; shards := replicate n ∅ |}.

Inductive IoEvent :=
  | EvSubmit (backend : SocketAddr) (slot_id : Z) (now : Z)
  | EvReply (i : nat) (from : SocketAddr) (wire : list Z)
  | EvPoll (i : nat) (now : Z)
  | EvCancel (key : ForwardKey).

Section Io.
Context (iter : gmap ForwardKey PendingForward -> list (ForwardKey * PendingForward)).
Context (iter_perm : forall s, iter s ≡ₚ map_to_list s).

Definition io_exec (b : IoBackend) (e : IoEvent) : list IoResume * IoBackend :=
  match e with
  | EvSubmit backend slot_id now =>
      match register_unique (io_table b) backend slot_id with
      | (Some k, t) => ([], track_pending now (b <| io_table := t |>) k slot_id)
      | (None, t) => ([], b <| io_table := t |>)
      end
  | EvReply i from wire => handle_reply b i from wire
  | EvPoll i now => poll_timeouts iter now b i
  | EvCancel key => ([], cancel_pending (b <| io_table := table_remove (io_table b) key |>) key)
  end.

Lemma io_index_length (b b' : IoBackend) (slot : Z) :
  length (shards b') = length (shards b) -> io_shard_index b' slot = io_shard_index b slot.
Proof. unfold io_shard_index, zlen. by intros ->. Qed.

Lemma alter_not_nil {A} (f : A -> A) i (l : list A) : l <> [] -> alter f i l <> [].
Proof. intros H E. apply H, length_zero_iff_nil. by rewrite <- (length_alter f l i), E. Qed.

Lemma alter_lookup_inv {A} (f : A -> A) i j (l : list A) x :
  alter f i l !! j = Some x -> (i = j /\ exists y, l !! j = Some y /\ x = f y) \/ (i <> j /\ l !! j = Some x).
Proof.
  destruct (decide (i = j)) as [<- |Hn].
  - rewrite list_lookup_alter_eq, fmap_Some. intros (y & ? & ->). left. eauto.
  - rewrite list_lookup_alter_ne by done. by right.
Qed.

(** A key is pending on one shard only. *)
Lemma io_unique (b : IoBackend) i j s s' k p p' :
  io_wf b -> shards b !! i = Some s -> shards b !! j = Some s' -> s !! k = Some p -> s' !! k = Some p' -> i = j.
Proof.
  intros [_ _ Ho] Hi Hj Hp Hp'.
  destruct (Ho _ _ _ _ Hi Hp) as [E ->], (Ho _ _ _ _ Hj Hp') as [E' ->]. congruence.
Qed.

Lemma complete_wf (b : IoBackend) i s k p c :
  io_wf b -> shards b !! i = Some s -> s !! k = Some p ->
  exists b', complete b i k c = ([{| ir_slot_id := pf_slot_id p; ir_completion := c |}], b') /\
    io_wf b' /\ shards b' = alter (delete k) i (shards b) /\
    entries (io_table b') = delete k (entries (io_table b)).
Proof.
  intros Hwf Hs Hp. unfold complete. rewrite Hs. simpl. rewrite Hp.
  eexists. split; [done|]. destruct (remove_cases (io_table b) k (io_table_wf b Hwf)) as [Ht He].
  split; [|done]. split; simpl; [done|by apply alter_not_nil, io_shards|].
  intros j s' k' p' Hj Hk'. rewrite He, (io_index_length b) by apply length_alter.
  apply alter_lookup_inv in Hj as [[<- (s0 & Hs0 & ->)]|[Hn Hj]].
  - apply lookup_delete_Some in Hk' as [Hne Hk']. rewrite lookup_delete_ne by done.
    by apply (io_owner b Hwf i s0).
  - rewrite lookup_delete_ne; [by apply (io_owner b Hwf j s')|].
    intros <-. destruct Hn. by eapply io_unique.
Qed.

Lemma complete_all_spec (ks : list ForwardKey) : forall b i s,
  io_wf b -> shards b !! i = Some s -> NoDup ks -> Forall (fun k => is_Some (s !! k)) ks ->
  exists rs b', complete_all b i ks = (rs, b') /\ io_wf b' /\
    Forall2 (fun k r => exists p, s !! k = Some p /\ r = {| ir_slot_id := pf_slot_id p; ir_completion := Timeout |}) ks rs /\
    (exists s', shards b' !! i = Some s' /\ forall k, s' !! k = if decide (k ∈ ks) then None else s !! k) /\
    (forall j, j <> i -> shards b' !! j = shards b !! j) /\
    (forall k, entries (io_table b') !! k = if decide (k ∈ ks) then None else entries (io_table b) !! k).
Proof.
  induction ks as [|k ks IH]; intros b i s Hwf Hs Hnd Hall.
  { exists [], b. split; [done|]. split; [done|]. split; [by constructor|].
    split; [exists s; split; [done|]|split; [done|]];
      intros k; rewrite decide_False by apply not_elem_of_nil; done. }
  apply NoDup_cons in Hnd as [Hk Hnd]. apply Forall_cons in Hall as [[p Hp] Hall].
  destruct (complete_wf b i s k p Timeout Hwf Hs Hp) as (b1 & E1 & Hwf1 & Hs1 & He1).
  destruct (IH b1 i (delete k s) Hwf1) as (rs & b2 & E2 & Hwf2 & Hrs & (s2 & Hs2 & Hl2) & Ho2 & He2).
  { by rewrite Hs1, list_lookup_alter_eq, Hs. }
  { done. }
  { apply Forall_forall. intros k' Hk'. rewrite Forall_forall in Hall.
    rewrite lookup_delete_ne by (by intros ->). by apply Hall. }
  exists ({| ir_slot_id := pf_slot_id p; ir_completion := Timeout |} :: rs), b2.
  split; [simpl; by rewrite E1, E2|]. split; [done|]. split; [|split; [|split]].
  - constructor; [by exists p|]. eapply Forall2_impl; [exact Hrs|]. intros k' r (p' & Hp' & ->).
    apply lookup_delete_Some in Hp' as [_ Hp']. by exists p'.
  - exists s2. split; [done|]. intros k'. rewrite Hl2.
    destruct (decide (k' = k)) as [-> |Hne].
    + rewrite lookup_delete_eq, (decide_True (P := k ∈ k :: ks)) by set_solver. by case_decide.
    + rewrite lookup_delete_ne by done. repeat case_decide; set_solver.
  - intros j Hj. rewrite Ho2, Hs1 by done. by rewrite list_lookup_alter_ne.
  - intros k'. rewrite He2, He1. destruct (decide (k' = k)) as [-> |Hne].
    + rewrite lookup_delete_eq, (decide_True (P := k ∈ k :: ks)) by set_solver. by case_decide.
    + rewrite lookup_delete_ne by done. repeat case_decide; set_solver.
Qed.

Lemma iter_lookup (s : gmap ForwardKey PendingForward) k p : (k, p) ∈ iter s <-> s !! k = Some p.
Proof using iter_perm. rewrite iter_perm. apply elem_of_map_to_list. Qed.

(** The keys of the expired entries, as [poll_timeouts] collects them. *)
Definition expired (now : Z) (s : gmap ForwardKey PendingForward) : list ForwardKey :=
  (List.filter (fun e => pf_deadline e.2 <=? now) (iter s)).*1.

Lemma expired_spec (now : Z) (s : gmap ForwardKey PendingForward) (k : ForwardKey) :
  k ∈ expired now s <-> exists p, s !! k = Some p /\ pf_deadline p <= now.
Proof using iter_perm.
  unfold expired. rewrite list_elem_of_fmap. setoid_rewrite list_elem_of_In. setoid_rewrite filter_In.
  setoid_rewrite <- list_elem_of_In. split.
  - intros ([k' p] & -> & Hin & Hd). exists p. split; [by apply iter_lookup|simpl in Hd; lia].
  - intros (p & Hp & Hd). exists (k, p). split_and!; [done|by apply iter_lookup|simpl; lia].
Qed.

Lemma expired_NoDup (now : Z) (s : gmap ForwardKey PendingForward) : NoDup (expired now s).
Proof using iter_perm.
  assert (NoDup (iter s).*1) as Hnd by (rewrite iter_perm; apply NoDup_fst_map_to_list).
  unfold expired. revert Hnd. induction (iter s) as [|e l IH]; simpl; [done|].
  intros [Hn Hnd]%NoDup_cons. destruct (_ <=? _); [|by apply IH].
  simpl. apply NoDup_cons. split; [|by apply IH]. intros Hin. apply Hn.
  apply list_elem_of_fmap in Hin as (e' & -> & He'). apply list_elem_of_fmap. exists e'. split; [done|].
  apply list_elem_of_In. apply list_elem_of_In in He'. by apply filter_In in He' as [? _].
Qed.

Lemma poll_cases (now : Z) (b : IoBackend) (i : nat) (s : gmap ForwardKey PendingForward) :
  io_wf b -> shards b !! i = Some s ->
  exists rs b', poll_timeouts iter now b i = (rs, b') /\ io_wf b' /\
    Forall2 (fun k r => exists p, s !! k = Some p /\ r = {| ir_slot_id := pf_slot_id p; ir_completion := Timeout |})
      (expired now s) rs /\
    (exists s', shards b' !! i = Some s' /\ forall k, s' !! k = if decide (k ∈ expired now s) then None else s !! k) /\
    (forall j, j <> i -> shards b' !! j = shards b !! j) /\
    (forall k, entries (io_table b') !! k = if decide (k ∈ expired now s) then None else entries (io_table b) !! k).
Proof using iter_perm.
  intros Hwf Hs. unfold poll_timeouts. rewrite Hs. apply (complete_all_spec (expired now s) b i s Hwf Hs).
  - apply expired_NoDup.
  - apply Forall_forall. intros k (p & Hp & _)%expired_spec. by eexists.
Qed.

(** Polling a shard for timeouts resumes the slot of every forward whose deadline
    has passed, each exactly once and with a timeout, and resumes nothing else. The
    expired forwards leave the pending map and the demultiplexing table; all others
    stay where they were. *)
Theorem poll_timeouts_exact (now : Z) (b : IoBackend) (i : nat) (s : gmap ForwardKey PendingForward) :
  io_wf b -> shards b !! i = Some s ->
  exists rs b' s', poll_timeouts iter now b i = (rs, b') /\ shards b' !! i = Some s' /\ io_wf b' /\
    (exists ks, NoDup ks /\ (forall k, k ∈ ks <-> exists p, s !! k = Some p /\ pf_deadline p <= now) /\
       Forall2 (fun k r => exists p, s !! k = Some p /\
                  r = {| ir_slot_id := pf_slot_id p; ir_completion := Timeout |}) ks rs) /\
    (forall k p, s' !! k = Some p <-> s !! k = Some p /\ now < pf_deadline p) /\
    (forall k p, s !! k = Some p -> pf_deadline p <= now -> table_lookup (io_table b') k = None) /\
    (forall k, (forall p, s !! k = Some p -> now < pf_deadline p) ->
       table_lookup (io_table b') k = table_lookup (io_table b) k).
Proof using iter_perm.
  intros Hwf Hs. destruct (poll_cases now b i s Hwf Hs) as (rs & b' & E & Hwf' & Hrs & (s' & Hs' & Hl) & _ & He).
  exists rs, b', s'. split_and!; [done..| | | |].
  - exists (expired now s). split_and!; [apply expired_NoDup|apply expired_spec|done].
  - intros k p. rewrite Hl. case_decide as Hk; [|split; [|tauto]].
    + split; [done|]. intros [Hp Hd]. apply expired_spec in Hk as (p' & Hp' & ?). simplify_eq. lia.
    + intros Hp. split; [done|]. apply Z.nle_gt. intros Hd. apply Hk, expired_spec. eauto.
  - intros k p Hp Hd. unfold table_lookup. rewrite He, decide_True; [done|]. apply expired_spec. eauto.
  - intros k Hk. unfold table_lookup. rewrite He, decide_False; [done|].
    intros (p & Hp & Hd)%expired_spec. specialize (Hk p Hp). lia.
Qed.

Lemma reply_cases (b : IoBackend) (i : nat) (from : SocketAddr) (wire : list Z) :
  io_wf b ->
  handle_reply b i from wire = ([], b) \/
  exists hi lo rest s p b', wire = hi :: lo :: rest /\ 12 <= zlen wire /\ shards b !! i = Some s /\
    let k := {| fk_backend := from; fk_dns_id := Z.lor (Z.shiftl hi 8) lo |} in
    s !! k = Some p /\
    handle_reply b i from wire = ([{| ir_slot_id := pf_slot_id p; ir_completion := Response wire |}], b') /\
    io_wf b' /\ entries (io_table b') = delete k (entries (io_table b)).
Proof.
  intros Hwf. unfold handle_reply. destruct wire as [|hi [|lo rest]]; [by left..|].
  destruct (Z.ltb_spec (zlen (hi :: lo :: rest)) 12); [by left|].
  set (k := {| fk_backend := from; fk_dns_id := Z.lor (Z.shiftl hi 8) lo |}).
  destruct (shards b !! i) as [s|] eqn:Hs; simpl; [|by left].
  destruct (s !! k) as [p|] eqn:Hp; simpl; [|by left].
  destruct (complete_wf b i s k p (Response (hi :: lo :: rest)) Hwf Hs Hp) as (b' & E & Hwf' & _ & He).
  right. exists hi, lo, rest, s, p, b'. done.
Qed.

(** C8: A reply from an upstream resumes at most one slot, and it is the one whose
    forward was registered with that upstream address and that id. The key is free
    afterwards, so a second copy of the reply resumes nothing; a reply that matches no
    pending forward changes nothing. *)
Theorem reply_resumes_owner (b : IoBackend) (i : nat) (from : SocketAddr) (wire : list Z) :
  io_wf b ->
  let '(rs, b') := handle_reply b i from wire in
  io_wf b' /\ handle_reply b' i from wire = ([], b') /\
  ((rs = [] /\ b' = b) \/
   exists hi lo rest slot, wire = hi :: lo :: rest /\
     rs = [{| ir_slot_id := slot; ir_completion := Response wire |}] /\
     let k := {| fk_backend := from; fk_dns_id := Z.lor (Z.shiftl hi 8) lo |} in
     table_lookup (io_table b) k = Some slot /\ table_lookup (io_table b') k = None /\
     forall k', k' <> k -> table_lookup (io_table b') k' = table_lookup (io_table b) k').
Proof.
  intros Hwf. destruct (reply_cases b i from wire Hwf) as [E|(hi & lo & rest & s & p & b' & -> & Hlen & Hs & Hp & E & Hwf' & He)].
  { rewrite E. split; [done|]. split; [done|]. by left. }
  rewrite E. split; [done|]. split.
  - destruct (reply_cases b' i from (hi :: lo :: rest) Hwf') as [|(hi' & lo' & rest' & s' & p' & b2 & [= <- <- <-] & _ & Hs' & Hp' & _)];
      [done|].
    apply (io_owner b' Hwf' i s' _ p' Hs') in Hp' as [Hp' _]. by rewrite He, lookup_delete_eq in Hp'.
  - right. exists hi, lo, rest, (pf_slot_id p). unfold table_lookup. rewrite He.
    split_and!; [done..| | |].
    + by apply (io_owner b Hwf i s).
    + apply lookup_delete_eq.
    + intros k' Hne. by rewrite lookup_delete_ne.
Qed.

Lemma io_new_wf (t : TxnTable) (timeout : Z) (n : nat) : table_wf t -> (0 < n)%nat -> io_wf (io_new t timeout n).
Proof.
  intros Ht Hn. split; simpl; [done|by destruct n; [lia|]|]. intros i s k p Hi Hp.
  apply lookup_replicate in Hi as [-> _]. by rewrite lookup_empty in Hp.
Qed.

Lemma cancel_in_length (ss : list (gmap ForwardKey PendingForward)) k : length (cancel_in ss k) = length ss.
Proof. induction ss as [|s ss IH]; simpl; [done|]. destruct (is_someb _); simpl; by rewrite ?IH. Qed.

Lemma cancel_in_lookup (ss : list (gmap ForwardKey PendingForward)) k i s :
  cancel_in ss k !! i = Some s ->
  (exists s0, ss !! i = Some s0 /\ s = delete k s0) \/
  (ss !! i = Some s /\
   (s !! k = None \/ exists j s', j <> i /\ ss !! j = Some s' /\ is_Some (s' !! k))).
Proof.
  revert i. induction ss as [|s0 ss IH]; intros i; simpl; [done|].
  destruct (s0 !! k) as [p|] eqn:E; simpl; destruct i as [|i]; simpl.
  - intros [= <-]. left. eauto.
  - intros H. right. split; [done|]. right. exists 0%nat, s0. split_and!; [done..|]. by eexists.
  - intros [= <-]. right. auto.
  - intros [(s1 & H & ->)|[H [Hn|(j & s' & Hj & Hs' & Hk)]]]%IH; [by left; eauto| |].
    + right. auto.
    + right. split; [done|]. right. exists (S j), s'. split_and!; [lia|done..].
Qed.

Lemma submit_wf (b : IoBackend) (backend : SocketAddr) (slot now : Z) :
  io_wf b -> io_wf (io_exec b (EvSubmit backend slot now)).2.
Proof.
  intros [Ht Hne Ho]. unfold io_exec. pose proof (register_unique_cases (io_table b) backend slot Ht) as H.
  destruct (register_unique (io_table b) backend slot) as [[k|] t'], H as [Ht' H]; simpl.
  - destruct H as (_ & _ & Hk & He). split; simpl; [done|by apply alter_not_nil|].
    intros j s k' p Hj Hp. rewrite He, (io_index_length b) by apply length_alter.
    assert (forall s0, shards b !! j = Some s0 -> s0 !! k' = Some p ->
      <[k := slot]> (entries (io_table b)) !! k' = Some (pf_slot_id p) /\ j = io_shard_index b (pf_slot_id p)) as Hold.
    { intros s0 Hs0 Hp0. destruct (Ho _ _ _ _ Hs0 Hp0) as [E Ei]. split; [|done].
      rewrite lookup_insert_ne; [done|]. intros <-. congruence. }
    apply alter_lookup_inv in Hj as [[<- (s0 & Hs0 & ->)]|[Hn Hj]]; [|by apply (Hold s)].
    destruct (decide (k = k')) as [<- |Hkk].
    + rewrite lookup_insert_eq in Hp. injection Hp as <-. simpl. split; [apply lookup_insert_eq|done].
    + rewrite lookup_insert_ne in Hp by done. by apply (Hold s0).
  - destruct H as [He _]. split; simpl; [done..|]. intros j s k' p Hj Hp. rewrite He. by apply (Ho j s k' p).
Qed.

Lemma cancel_wf (b : IoBackend) (k : ForwardKey) : io_wf b -> io_wf (io_exec b (EvCancel k)).2.
Proof.
  intros Hwf. destruct (remove_cases (io_table b) k (io_table_wf b Hwf)) as [Ht He].
  split; simpl; [done| |].
  - intros E. apply (io_shards b Hwf), length_zero_iff_nil. by rewrite <- (cancel_in_length _ k), E.
  - intros j s k' p Hj Hp. rewrite He, (io_index_length b) by apply cancel_in_length.
    assert (k <> k' /\ exists s0, shards b !! j = Some s0 /\ s0 !! k' = Some p) as (Hne & s0 & Hs0 & Hp0).
    { apply cancel_in_lookup in Hj as [(s0 & Hs0 & ->)|[Hs Hk]].
      - apply lookup_delete_Some in Hp as [? ?]. eauto.
      - split; [|by eauto]. intros <-. destruct Hk as [|(j' & s' & Hjj & Hs' & [p' Hp'])]; [congruence|].
        apply Hjj. by eapply io_unique. }
    rewrite lookup_delete_ne by done. by apply (io_owner b Hwf j s0).
Qed.

Lemma io_exec_wf (b : IoBackend) (e : IoEvent) : io_wf b -> io_wf (io_exec b e).2.
Proof using iter_perm.
  destruct e as [backend slot now|i from wire|i now|k]; intros Hwf.
  - by apply submit_wf.
  - simpl. by destruct (reply_cases b i from wire Hwf) as [-> |(? & ? & ? & ? & ? & ? & ? & ? & ? & ? & -> & ? & ?)].
  - simpl. destruct (shards b !! i) as [s|] eqn:Hs.
    + by destruct (poll_cases now b i s Hwf Hs) as (rs & b' & -> & ? & _).
    + unfold poll_timeouts. by rewrite Hs.
  - by apply cancel_wf.
Qed.

(** Whatever the order of submissions, replies, timeouts and cancellations, and
    whichever I/O shard sees each of them, every pending forward is the one its
    demultiplexing entry names, and it is pending on the shard that owns its slot. *)
Theorem pending_forwards_owned (n : nat) (t : TxnTable) (timeout : Z) (es : list IoEvent) :
  table_wf t -> (0 < n)%nat ->
  let b := foldl (fun b e => (io_exec b e).2) (io_new t timeout n) es in
  forall i s k p, shards b !! i = Some s -> s !! k = Some p ->
    table_lookup (io_table b) k = Some (pf_slot_id p) /\ i = io_shard_index b (pf_slot_id p).
Proof using iter_perm.
  intros Ht Hn b. apply io_owner. subst b.
  assert (io_wf (io_new t timeout n)) as Hwf.
  { by apply io_new_wf. }
  revert Hwf. generalize (io_new t timeout n). induction es as [|e es IH]; intros b Hwf; simpl; [done|].
  by apply IH, io_exec_wf.
Qed.
End Io.

(** ** Per-pool limits *)

Inductive PoolEvent := EvAcquire (pool : string) | EvRelease (pool : string).

(** The events, with the forwards in flight of each pool kept beside: a release
    is allowed where a forward of the pool is in flight. *)
Fixpoint pool_run (p : PoolInflight) (held : gmap string Z) (es : list PoolEvent)
    : option (PoolInflight * gmap string Z) :=
  match es with
  | [] => Some (p, held)
  | EvAcquire pool :: es =>
      let '(ok, p) := try_acquire p pool in
      pool_run p (if ok then <[pool := default 0 (held !! pool) + 1]> held else held) es
  | EvRelease pool :: es =>
      if default 0 (held !! pool) <=? 0 then None
      else pool_run (inflight_release p pool) (<[pool := default 0 (held !! pool) - 1]> held) es
  end.

Record pool_wf (p : PoolInflight) (held : gmap string Z) : Prop := {
  pw_limits pool l : limits p !! pool = Some l -> 0 <= l <= u32_max;
  pw_active pool l : limits p !! pool = Some l ->
    default 0 (active p !! pool) = default 0 (held !! pool) /\ 0 <= default 0 (held !! pool) <= l;
}.

Lemma acquire_wf (p : PoolInflight) (held : gmap string Z) (pool : string) :
  pool_wf p held ->
  let '(ok, p') := try_acquire p pool in
  pool_wf p' (if ok then <[pool := default 0 (held !! pool) + 1]> held else held) /\ limits p' = limits p.
Proof.
  intros [Hl Ha]. unfold try_acquire. destruct (limits p !! pool) as [l|] eqn:El.
  - destruct (or_insert_zero_spec pool (active p)) as [H1 H2].
    destruct (or_insert_zero pool (active p)) as [c act]. simpl in H1, H2.
    destruct (Ha _ _ El) as [E Hb]. rewrite E in H1. subst c.
    destruct (Z.leb_spec l (default 0 (held !! pool))); (split; [|done]); split; simpl; try done.
    + intros q l' Hq. rewrite H2. by apply Ha.
    + intros q l' Hq. destruct (decide (pool = q)) as [<- |Hne].
      * rewrite !lookup_insert_eq. simpl. specialize (Hl _ _ El). simplify_eq.
        rewrite wrap_small; [lia|]. unfold fits, u32_max in *. lia.
      * rewrite !lookup_insert_ne, H2 by done. by apply Ha.
  - split; [|done]. split; [done|]. intros q l' Hq.
    rewrite lookup_insert_ne by congruence. by apply Ha.
Qed.

Lemma pool_release_wf (p : PoolInflight) (held : gmap string Z) (pool : string) :
  pool_wf p held -> 0 < default 0 (held !! pool) ->
  pool_wf (inflight_release p pool) (<[pool := default 0 (held !! pool) - 1]> held) /\
  limits (inflight_release p pool) = limits p.
Proof.
  intros [Hl Ha] Hpos. unfold inflight_release. destruct (limits p !! pool) as [l|] eqn:El.
  - destruct (Ha _ _ El) as [E Hb]. destruct (active p !! pool) as [c|] eqn:Ec; simpl in E; [|lia].
    split; [|done]. split; simpl; [done|]. intros q l' Hq. destruct (decide (pool = q)) as [<- |Hne].
    + rewrite !lookup_insert_eq. simpl. simplify_eq. unfold sat_sub. lia.
    + rewrite !lookup_insert_ne by done. by apply Ha.
  - split; [|done]. split; [done|]. intros q l' Hq. rewrite lookup_insert_ne by congruence. by apply Ha.
Qed.

(** As long as a slot of a pool is released only for a forward that acquired one,
    the count kept for every limited pool is its number of forwards in flight, and
    never exceeds [max_inflight]. *)
Theorem pool_limit_respected (limits0 : gmap string Z) (es : list PoolEvent) (p : PoolInflight)
    (held : gmap string Z) :
  (forall pool l, limits0 !! pool = Some l -> 0 <= l <= u32_max) ->
  pool_run {| limits := limits0; active := ∅ |} ∅ es = Some (p, held) ->
  forall pool l, limits0 !! pool = Some l ->
    default 0 (active p !! pool) = default 0 (held !! pool) /\ default 0 (held !! pool) <= l.
Proof.
  intros Hl Hrun pool l Hp.
  assert (forall es p0 h0, pool_wf p0 h0 -> pool_run p0 h0 es = Some (p, held) ->
    pool_wf p held /\ limits p = limits p0) as Hgen.
  { clear. induction es as [|[q|q] es IH]; intros p0 h0 Hwf; simpl; [by intros [= <- <-]| |].
    - pose proof (acquire_wf p0 h0 q Hwf) as H. destruct (try_acquire p0 q) as [ok p1], H as [Hwf1 E].
      intros Hr. apply IH in Hr as [? ->]; [done|done].
    - destruct (Z.leb_spec (default 0 (h0 !! q)) 0) as [|Hpos]; [done|].
      destruct (pool_release_wf p0 h0 q Hwf Hpos) as [Hwf1 E]. intros Hr. apply IH in Hr as [? ->]; [done|done]. }
  apply Hgen in Hrun as [Hwf E].
  - simpl in E. rewrite <- E in Hp. destruct (pw_active _ _ Hwf _ _ Hp). lia.
  - split; simpl; [done|]. intros q l' Hq. rewrite !lookup_empty. simpl. specialize (Hl _ _ Hq). lia.
Qed.

(** ** Witnesses *)

Definition sample_upstream : SocketAddr := SockV4 167772161 53.
Definition sample_pending : ForwardKey := {| fk_backend := sample_upstream; fk_dns_id := 0 |}.
(** One forward of slot 3 outstanding since time 10, on the second of two shards. *)
Definition one_pending : IoBackend :=
  (io_exec map_to_list (io_new (table_new 4 2) 100 2) (EvSubmit sample_upstream 3 10)).2.

Lemma one_pending_wf : io_wf one_pending.
Proof. apply submit_wf, io_new_wf; [apply table_new_wf; unfold u32_max; lia|lia]. Qed.

Lemma first_key :
  register_unique (table_new 4 2) sample_upstream 3
  = (Some sample_pending,
     MkTable 4 2 {[ sample_pending := 3 ]} (<[sample_upstream := 1]> {[ sample_upstream := 0 ]}) 1).
Proof.
  unfold register_unique, or_insert_zero. cbn [table_new entries per_backend capacity].
  rewrite map_size_empty, lookup_empty. cbn -[Z.to_nat u16_max insert].
  replace (Z.to_nat (u16_max + 1)) with (S (Z.to_nat u16_max)) by (unfold u16_max; lia).
  cbn -[Z.to_nat u16_max insert lookup]. rewrite lookup_empty. reflexivity.
Qed.

Lemma one_pending_shard :
  shards one_pending !! 1%nat = Some {[ sample_pending := {| pf_slot_id := 3; pf_deadline := 110 |} ]}.
Proof.
  unfold one_pending, io_exec. cbn [io_new io_table]. rewrite first_key. reflexivity.
Qed.

Lemma table_counts_exact_witness :
  let t := foldl table_exec (table_new 4 2) [OpRegisterUnique sample_upstream 3; OpRegister sample_pending 7] in
  Z.of_nat (size (entries t)) <= 4 /\
  forall b, default 0 (per_backend t !! b) = outstanding (entries t) b /\ outstanding (entries t) b <= 2.
Proof.
  apply table_counts_exact; [lia|unfold u32_max; lia|].
  repeat constructor; simpl; lia.
Defined.

Lemma forward_key_unique_witness :
  match register_unique (table_new 4 2) sample_upstream 3 with
  | (Some k, t') =>
      fk_backend k = sample_upstream /\ table_lookup (table_new 4 2) k = None /\ table_lookup t' k = Some 3 /\
      (forall k', k' <> k -> table_lookup t' k' = table_lookup (table_new 4 2) k')
  | (None, _) => False
  end.
Proof.
  pose proof (forward_key_unique (table_new 4 2) sample_upstream 3
                (table_new_wf 4 2 ltac:(lia) ltac:(unfold u32_max; lia))) as H.
  rewrite first_key in *. exact H.
Defined.

Lemma poll_timeouts_exact_witness :
  exists rs b' s', poll_timeouts map_to_list 110 one_pending 1 = (rs, b') /\ shards b' !! 1%nat = Some s' /\ io_wf b' /\
    s' !! sample_pending = None.
Proof.
  destruct (poll_timeouts_exact map_to_list (fun s => reflexivity _) 110 one_pending 1
              {[ sample_pending := {| pf_slot_id := 3; pf_deadline := 110 |} ]} one_pending_wf one_pending_shard)
    as (rs & b' & s' & E & Hs' & Hwf & _ & Hl & _).
  exists rs, b', s'. split_and!; [exact E|exact Hs'|exact Hwf|].
  destruct (s' !! sample_pending) as [p|] eqn:Ep; [|reflexivity].
  apply Hl in Ep as [Ep Hd]. rewrite lookup_singleton_eq in Ep. injection Ep as <-. simpl in Hd. lia.
Defined.

Lemma reply_resumes_owner_witness :
  (handle_reply one_pending 1 sample_upstream (replicate 12 0)).1
  = [{| ir_slot_id := 3; ir_completion := Response (replicate 12 0) |}] /\
  let b' := (handle_reply one_pending 1 sample_upstream (replicate 12 0)).2 in
  io_wf b' /\ handle_reply b' 1 sample_upstream (replicate 12 0) = ([], b').
Proof.
  split; [vm_compute; reflexivity|].
  pose proof (reply_resumes_owner one_pending 1 sample_upstream (replicate 12 0) one_pending_wf) as H.
  destruct (handle_reply one_pending 1 sample_upstream (replicate 12 0)) as [rs b'].
  destruct H as (Hwf & Hr & _). split; [exact Hwf|exact Hr].
Defined.

Lemma pending_forwards_owned_witness :
  table_lookup (io_table one_pending) sample_pending = Some 3 /\ 1%nat = io_shard_index one_pending 3.
Proof.
  apply (pending_forwards_owned map_to_list (fun s => reflexivity _) 2 (table_new 4 2) 100
           [EvSubmit sample_upstream 3 10] (table_new_wf 4 2 ltac:(lia) ltac:(unfold u32_max; lia)) ltac:(lia)
           1%nat {[ sample_pending := {| pf_slot_id := 3; pf_deadline := 110 |} ]} sample_pending
           {| pf_slot_id := 3; pf_deadline := 110 |} one_pending_shard).
  apply lookup_singleton_eq.
Defined.

Lemma pool_limit_respected_witness :
  exists p held, pool_run {| limits := {[ "a"%string := 1 ]}; active := ∅ |} ∅
                   [EvAcquire "a"; EvAcquire "a"; EvRelease "a"; EvAcquire "a"] = Some (p, held) /\
    default 0 (active p !! "a"%string) = default 0 (held !! "a"%string) /\ default 0 (held !! "a"%string) <= 1.
Proof.
  eexists. eexists. split; [vm_compute; reflexivity|].
  apply (pool_limit_respected {[ "a"%string := 1 ]} [EvAcquire "a"; EvAcquire "a"; EvRelease "a"; EvAcquire "a"]).
  - intros pool l [_ <-]%lookup_singleton_Some. unfold u32_max. lia.
  - vm_compute. reflexivity.
  - vm_compute. reflexivity.
Defined.
