(* ===== verification/Forward.v ===== *)
(** * Forward: sending a query upstream

    The Forward and WaitResponse stages of conduit-dataplane/src/forward:
    transport.rs, egress.rs (source addresses), tcp.rs, wait_stage.rs and
    [apply_wait_completion] of io_backend.rs, with the source lists of
    conduit-core/src/snapshot.rs. Sockets and clocks are the network parameter
    [Network]; metrics and log lines are left out. The stages run in a state monad
    over the transaction and the dataplane's shared state, [World]. *)

From stdpp Require Import strings gmap.
From Stdlib Require Import String.
From S2P Require Import Prelude Text DnsWire Transaction Message Health ForwardTable.

#[local] Open Scope string_scope.
#[local] Open Scope list_scope.
#[local] Open Scope Z_scope.

(** ** Source addresses *)

(** A socket of a worker: bound to a source address, or the default of its family. *)
Inductive Socket := BoundV4 (addr : Z) | DefaultV4 | BoundV6 (addr : Z) | DefaultV6.

Record WorkerForwardEgress := MkEgress {
  sockets_v4 : gset Z;
  sockets_v6 : gset Z;
  forward_sources_v4 : list Z;
  forward_sources_v6 : list Z;
  rr_index_v4 : Z;
  rr_index_v6 : Z;
}.

#[global] Instance set_rr_index_v4 : Setter rr_index_v4.
Proof. setter MkEgress (sockets_v4, sockets_v6, forward_sources_v4, forward_sources_v6, rr_index_v4, rr_index_v6). Defined.
#[global] Instance set_rr_index_v6 : Setter rr_index_v6.
Proof. setter MkEgress (sockets_v4, sockets_v6, forward_sources_v4, forward_sources_v6, rr_index_v4, rr_index_v6). Defined.

(** The list a round robin walks: the pool's sources, else the forward's. *)
Definition rr_list (pool_sources forward_sources : list Z) : list Z :=
  match pool_sources with [] => forward_sources | _ => pool_sources end.

(** [list[idx % list.len()]]; the unspecified address is 0. *)
Definition rr_pick (l : list Z) (idx : Z) : Z := nth (Z.to_nat (idx mod zlen l)) l 0.

Definition round_robin_v4 (e : WorkerForwardEgress) (pool_sources : list Z) : Z * WorkerForwardEgress :=
  match rr_list pool_sources (forward_sources_v4 e) with
  | [] => (0, e)
  | l => (rr_pick l (rr_index_v4 e), e <| rr_index_v4 := wrap 64 (rr_index_v4 e + 1) |>)
  end.

Definition round_robin_v6 (e : WorkerForwardEgress) (pool_sources : list Z) : Z * WorkerForwardEgress :=
  match rr_list pool_sources (forward_sources_v6 e) with
  | [] => (0, e)
  | l => (rr_pick l (rr_index_v6 e), e <| rr_index_v6 := wrap 64 (rr_index_v6 e + 1) |>)
  end.

Definition allowed_override (override : option Z) (allowed : gset Z) : option Z :=
  let! a := override in if bool_decide (a ∈ allowed) then Some a else None.

Definition select_source_v4 (e : WorkerForwardEgress) (pool_sources : list Z) (override : option Z)
    (allowed : gset Z) : Z * WorkerForwardEgress :=
  match allowed_override override allowed with
  | Some a => (a, e)
  | None => round_robin_v4 e pool_sources
  end.

Definition select_source_v6 (e : WorkerForwardEgress) (pool_sources : list Z) (override : option Z)
    (allowed : gset Z) : Z * WorkerForwardEgress :=
  match allowed_override override allowed with
  | Some a => (a, e)
  | None => round_robin_v6 e pool_sources
  end.

Record EgressSourceSelection := {
  pool_sources_v4 : list Z;
  pool_sources_v6 : list Z;
  sel_backend : SocketAddr;
  override_v4 : option Z;
  allowed_v4 : gset Z;
  override_v6 : option Z;
  allowed_v6 : gset Z;
}.

Definition udp_socket_for (e : WorkerForwardEgress) (sel : EgressSourceSelection)
    : Socket * WorkerForwardEgress :=
  if is_ipv4 (sel_backend sel) then
    let '(a, e) := select_source_v4 e (pool_sources_v4 sel) (override_v4 sel) (allowed_v4 sel) in
    (if bool_decide (a ∈ sockets_v4 e) then BoundV4 a else DefaultV4, e)
  else
    let '(a, e) := select_source_v6 e (pool_sources_v6 sel) (override_v6 sel) (allowed_v6 sel) in
    (if bool_decide (a ∈ sockets_v6 e) then BoundV6 a else DefaultV6, e).

(** ** What the stages read of the snapshot *)

Record PoolForward := { pf_sources_v4 : option (list Z); pf_sources_v6 : option (list Z) }.

Record ForwardSnapshot := {
  sn_sources_v4 : list Z;
  sn_sources_v6 : list Z;
  pool_forward : gmap string PoolForward;
  sn_health : CompiledHealth;
  sn_needs_response_wire_meta : bool;
}.

(** The pool's own list of a family, where the pool has one. *)
Definition pool_list (field : PoolForward -> option (list Z)) (s : ForwardSnapshot) (pool : option string)
    : option (list Z) :=
  let! name := pool in let! pf := pool_forward s !! name in field pf.

Definition sources_v4_for_pool (s : ForwardSnapshot) (pool : option string) : list Z :=
  match pool_list pf_sources_v4 s pool with
  | Some (a :: l) => a :: l
  | _ => sn_sources_v4 s
  end.

Definition sources_v6_for_pool (s : ForwardSnapshot) (pool : option string) : list Z :=
  match pool_list pf_sources_v6 s pool with
  | Some (a :: l) => a :: l
  | _ => sn_sources_v6 s
  end.

Definition allowed_sources_v4_for_pool (s : ForwardSnapshot) (pool : option string) : gset Z :=
  list_to_set (sn_sources_v4 s ++ default [] (pool_list pf_sources_v4 s pool)).

Definition allowed_sources_v6_for_pool (s : ForwardSnapshot) (pool : option string) : gset Z :=
  list_to_set (sn_sources_v6 s ++ default [] (pool_list pf_sources_v6 s pool)).

(** ** Completion of a wait *)

Definition apply_wait_completion (now : Z) (t : Transaction) (c : WaitCompletion) : Transaction :=
  match c with
  | Response wire =>
      let t := complete_forward_rtt_from_mark t now in
      t <| response_wire := Some (rewrite_dns_id wire (dns_id t)) |>
  | Timeout => set_rcode_name (complete_forward_rtt_from_mark t now) "SERVFAIL"
  end.

(** ** The network *)

(** Sockets and clocks, which act on a state [N] of their own. *)
Class Network (N : Type) := {
  net_instant : N -> Z * N;
  net_unix_ms : N -> Z * N;
  send_to : Socket -> list Z -> SocketAddr -> N -> bool * N;
  recv_from : Socket -> N -> option (list Z * SocketAddr) * N;
  tcp_connect : SocketAddr -> option Z -> option Z -> N -> bool * N;
  tcp_write : list Z -> N -> bool * N;
  (** [read_exact] of so many bytes *)
  tcp_read : Z -> N -> option (list Z) * N;
}.

Inductive ForwardMode := Sync | Submit.
Inductive UpstreamTransport := UdpOnly | TcpOnly | PreferUdpWithTcpFallback.

#[global] Instance UpstreamTransport_eq_dec : EqDecision UpstreamTransport.
Proof. solve_decision. Defined.

Record ForwardTransport := {
  upstream_transport : UpstreamTransport;
  client_tcp_uses_upstream_tcp : bool;
  mode : ForwardMode;
  has_io_backend : bool;
}.

(** The state the stages share: the worker's egress, the demultiplexing table and
    the I/O shards ([w_io] holds both), the egress of each shard, the pool limits
    and the health registry. *)
Record World {N : Type} := MkWorld {
  w_egress : WorkerForwardEgress;
  w_io : IoBackend;
  w_io_egress : list WorkerForwardEgress;
  w_inflight : option PoolInflight;
  w_health : option HealthRegistry;
  w_net : N;
}.
Arguments World : clear implicits.

Section Stages.
Context {N : Type} `{Network N} `{DnsCodec}.
Context (tr : ForwardTransport) (snap : ForwardSnapshot).

(** *** The state monad of the stages *)

Definition M (A : Type) : Type := Transaction -> World N -> A * Transaction * World N.

#[global] Instance M_ret : MRet M := fun A a t w => (a, t, w).
#[global] Instance M_bind : MBind M := fun A B k m t w =>
  let '(a, t, w) := m t w in k a t w.

Definition txn : M Transaction := fun t w => (t, t, w).
Definition world : M (World N) := fun t w => (w, t, w).
Definition update (f : Transaction -> Transaction) : M unit := fun t w => (tt, f t, w).
(** A transaction method that also returns a value. *)
Definition on_txn {A} (f : Transaction -> A * Transaction) : M A :=
  fun t w => let '(a, t) := f t in (a, t, w).
Definition net {A} (f : N -> A * N) : M A := fun t w =>
  let '(a, n) := f (w_net w) in
  (a, t, MkWorld N (w_egress w) (w_io w) (w_io_egress w) (w_inflight w) (w_health w) n).
Definition on_io {A} (f : IoBackend -> A * IoBackend) : M A := fun t w =>
  let '(a, io) := f (w_io w) in
  (a, t, MkWorld N (w_egress w) io (w_io_egress w) (w_inflight w) (w_health w) (w_net w)).
Definition on_table {A} (f : TxnTable -> A * TxnTable) : M A :=
  on_io (fun io => let '(a, tb) := f (io_table io) in (a, io <| io_table := tb |>)).
Definition on_egress {A} (f : WorkerForwardEgress -> A * WorkerForwardEgress) : M A := fun t w =>
  let '(a, e) := f (w_egress w) in
  (a, t, MkWorld N e (w_io w) (w_io_egress w) (w_inflight w) (w_health w) (w_net w)).
Definition put_inflight (p : PoolInflight) : M unit := fun t w =>
  (tt, t, MkWorld N (w_egress w) (w_io w) (w_io_egress w) (Some p) (w_health w) (w_net w)).
Definition put_health (r : HealthRegistry) : M unit := fun t w =>
  (tt, t, MkWorld N (w_egress w) (w_io w) (w_io_egress w) (w_inflight w) (Some r) (w_net w)).

(** *** Helpers of the transport *)

Definition report_passive (pool : string) (backend : SocketAddr) (is_failure : bool) : M unit :=
  w ← world;
  match w_health w with
  | None => mret tt
  | Some registry =>
      now_ms ← net net_unix_ms;
      put_health (record_passive_forward_outcome now_ms (sn_health snap) pool backend is_failure registry).2
  end.

Definition report_passive_outcome (backend : SocketAddr) (is_failure : bool) : M unit :=
  t ← txn; report_passive (default "default" (selected_pool t)) backend is_failure.

Definition passive_failure_reason (reason : string) : bool :=
  String.eqb reason "send_error" || String.eqb reason "timeout" || String.eqb reason "tcp_error".

Definition release_pool_inflight : M unit :=
  t ← txn; w ← world;
  match w_inflight w, selected_pool t with
  | Some p, Some pool => put_inflight (inflight_release p pool)
  | _, _ => mret tt
  end.

Definition record_forward (started : Z) : M unit :=
  now ← net net_instant;
  update (fun t => (complete_forward_rtt t now started) <| forward_metrics_recorded := true |>).

Definition use_tcp_for_attempt (t : Transaction) (force_tcp : bool) : bool :=
  if force_tcp then true
  else if client_tcp_uses_upstream_tcp tr && bool_decide (protocol t = Tcp) then true
  else match upstream_transport tr with TcpOnly => true | _ => false end.

Definition drop_key (key : ForwardKey) : M unit := on_table (fun tb => (tt, table_remove tb key)).

Definition finish_response (key : ForwardKey) (wire : list Z) (started : Z) (parse_wire_meta : bool)
    : M StageOutcome :=
  record_forward started;;
  report_passive_outcome (fk_backend key) false;;
  drop_key key;;
  update (fun t =>
    let wire := rewrite_dns_id wire (dns_id t) in
    (record_upstream_response t wire parse_wire_meta) <| response_wire := Some wire |>);;
  mret (Continue ResponseRules).

Definition servfail (key : option ForwardKey) (reason : string) (started : Z) : M StageOutcome :=
  record_forward started;;
  match key with
  | Some k =>
      (if passive_failure_reason reason then report_passive_outcome (fk_backend k) true else mret tt);;
      drop_key k;;
      (if has_io_backend tr then on_io (fun io => (tt, cancel_pending io k)) else mret tt)
  | None => mret tt
  end;;
  update (fun t => set_rcode_name t "SERVFAIL");;
  mret (Continue Send).

Definition register_forward_key (backend : SocketAddr) : M (result ForwardKey StageOutcome) :=
  t ← txn;
  key ← on_table (fun tb => register_unique tb backend (id t));
  match key with
  | Some k => mret (Ok k)
  | None => started ← net net_instant; o ← servfail None "table_full" started; mret (Err o)
  end.

(** The selection of one attempt, and the wire sent. *)
Definition prepare (backend : SocketAddr) (key : ForwardKey) : M (EgressSourceSelection * list Z) :=
  t ← txn;
  v4 ← on_txn take_effective_source_override_v4;
  v6 ← on_txn take_effective_source_override_v6;
  let pool := selected_pool t in
  mret ({| pool_sources_v4 := sources_v4_for_pool snap pool; pool_sources_v6 := sources_v6_for_pool snap pool;
           sel_backend := backend; override_v4 := v4; allowed_v4 := allowed_sources_v4_for_pool snap pool;
           override_v6 := v6; allowed_v6 := allowed_sources_v6_for_pool snap pool |},
        rewrite_dns_id (query_wire t) (fk_dns_id key)).

(** [IoBackend::udp_socket_for]: on the egress of the shard that owns the slot. *)
Definition io_udp_socket_for (slot_id : Z) (sel : EgressSourceSelection) : M (option Socket) := fun t w =>
  let i := io_shard_index (w_io w) slot_id in
  match w_io_egress w !! i with
  | None => (None, t, w)
  | Some e =>
      let '(s, e) := udp_socket_for e sel in
      (Some s, t, MkWorld N (w_egress w) (w_io w) (<[i := e]> (w_io_egress w)) (w_inflight w) (w_health w) (w_net w))
  end.

(** [try_acquire] where the pool limits are in force. *)
Definition acquire_pool : M bool :=
  t ← txn; w ← world;
  match w_inflight w with
  | None => mret true
  | Some p =>
      let '(ok, p) := try_acquire p (default "default" (selected_pool t)) in
      put_inflight p;; mret ok
  end.

(** *** Submit *)

Definition send_submitted (backend : SocketAddr) (key : ForwardKey) (sel : EgressSourceSelection)
    (wire : list Z) (started : Z) : M StageOutcome :=
  if has_io_backend tr then
    t ← txn;
    let slot_id := wrap 32 (id t) in
    now ← net net_instant;
    on_io (fun io => (tt, track_pending now io key slot_id));;
    socket ← io_udp_socket_for slot_id sel;
    match socket with
    | None => release_pool_inflight;; servfail (Some key) "no_io_egress" started
    | Some s =>
        sent ← net (send_to s wire backend);
        if sent : bool then mret (Suspend WaitResponse)
        else release_pool_inflight;; servfail (Some key) "send_error" started
    end
  else release_pool_inflight;; servfail (Some key) "no_io_backend" started.

(** The attempt once it has its key. *)
Definition submit_attempt (started : Z) (t : Transaction) (backend : SocketAddr) (key : ForwardKey)
    : M StageOutcome :=
  ok ← acquire_pool;
  if negb ok then drop_key key;; servfail None "pool_inflight_exceeded" started
  else if use_tcp_for_attempt t false then
    drop_key key;; release_pool_inflight;; servfail None "tcp_unsupported" started
  else
    sw ← prepare backend key;
    send_submitted backend key sw.1 sw.2 started.

Definition handle_submit (started : Z) : M StageOutcome :=
  update (fun t => mark_forward_started t started);;
  t ← txn;
  match selected_backend t with
  | None => servfail None "no_backend" started
  | Some backend =>
      r ← register_forward_key backend;
      match r with
      | Err o => mret o
      | Ok key => submit_attempt started t backend key
      end
  end.

(** *** Sync *)

Definition forward_tcp (backend : SocketAddr) (wire : list Z) (v4 v6 : option Z) : M (option (list Z)) :=
  ok ← net (tcp_connect backend (if is_ipv4 backend then v4 else None) (if is_ipv4 backend then None else v6));
  if negb ok then mret None
  else if u16_max <? zlen wire then mret None
  else
    ok ← net (tcp_write [Z.shiftr (zlen wire) 8; Z.land (zlen wire) 255]);
    if negb ok then mret None
    else
      ok ← net (tcp_write wire);
      if negb ok then mret None
      else
        len ← net (tcp_read 2);
        match len with
        | Some [hi; lo] => net (tcp_read (Z.lor (Z.shiftl hi 8) lo))
        | _ => mret None
        end.

(** The bind addresses of a TCP attempt; the round robin moves on for each. *)
Definition tcp_binds (sel : EgressSourceSelection) : M (option Z * option Z) :=
  if is_ipv4 (sel_backend sel) then
    a ← on_egress (fun e => select_source_v4 e (pool_sources_v4 sel) (override_v4 sel) (allowed_v4 sel));
    mret (Some a, None)
  else
    a ← on_egress (fun e => select_source_v6 e (pool_sources_v6 sel) (override_v6 sel) (allowed_v6 sel));
    mret (None, Some a).

(** The receive buffer has 4096 bytes. *)
Definition udp_exchange (s : Socket) (wire : list Z) (backend : SocketAddr)
    : M (result (option (list Z)) unit) :=
  sent ← net (send_to s wire backend);
  if sent : bool then
    r ← net (recv_from s);
    mret (Ok ((fun d => take 4096 d.1) <$> r))
  else mret (Err tt).

Definition wants_tcp_retry (backend : SocketAddr) (wire : list Z) : bool :=
  bool_decide (upstream_transport tr = PreferUdpWithTcpFallback) && is_ipv4 backend &&
  match from_vec wire with Some msg => m_truncated msg | None => false end.

Definition finish_udp (backend : SocketAddr) (key : ForwardKey) (upstream_wire wire : list Z)
    (binds : option Z * option Z) (started : Z) : M StageOutcome :=
  let meta := sn_needs_response_wire_meta snap in
  if wants_tcp_retry backend wire then
    r ← forward_tcp backend upstream_wire binds.1 binds.2;
    match r with
    | Some tcp_wire => finish_response key tcp_wire started meta
    | None => finish_response key wire started meta
    end
  else finish_response key wire started meta.

Definition recv_timed_out (backend : SocketAddr) (key : ForwardKey) (started : Z) : M StageOutcome :=
  record_forward started;;
  report_passive_outcome backend true;;
  drop_key key;;
  update (fun t => set_rcode_name t "SERVFAIL");;
  mret (Continue ResponseRules).

(** The attempt once it has its key. *)
Definition sync_attempt (started : Z) (t : Transaction) (backend : SocketAddr) (key : ForwardKey)
    : M StageOutcome :=
  sw ← prepare backend key;
  binds ← tcp_binds sw.1;
  if use_tcp_for_attempt t false then
    r ← forward_tcp backend sw.2 binds.1 binds.2;
    match r with
    | Some wire => finish_response key wire started (sn_needs_response_wire_meta snap)
    | None => servfail (Some key) "tcp_error" started
    end
  else
    s ← on_egress (fun e => udp_socket_for e sw.1);
    r ← udp_exchange s sw.2 backend;
    match r with
    | Err _ => servfail (Some key) "send_error" started
    | Ok (Some wire) => finish_udp backend key sw.2 wire binds started
    | Ok None => recv_timed_out backend key started
    end.

Definition handle_sync (started : Z) : M StageOutcome :=
  update (fun t => mark_forward_started t started);;
  t ← txn;
  match selected_backend t with
  | None =>
      record_forward started;;
      update (fun t => set_rcode_name t "SERVFAIL");;
      mret (Continue Send)
  | Some backend =>
      r ← register_forward_key backend;
      match r with
      | Err o => mret o
      | Ok key => sync_attempt started t backend key
      end
  end.

Definition forward_stage : M StageOutcome :=
  started ← net net_instant;
  match mode tr with Sync => handle_sync started | Submit => handle_submit started end.

(** *** WaitResponse *)

(** [metrics_enabled]: a metrics hub is configured and on. *)
Definition record_forward_outcome (metrics_enabled : bool) : M unit :=
  t ← txn;
  if negb metrics_enabled then mret tt
  else if forward_metrics_recorded t then mret tt
  else
    update (fun t => t <| forward_metrics_recorded := true |>);;
    match selected_backend t with
    | None => mret tt
    | Some backend =>
        report_passive (default "unknown" (selected_pool t)) backend (negb (is_someb (response_wire t)))
    end.

Definition wait_stage (metrics_enabled parse_wire_meta : bool) : M StageOutcome :=
  record_forward_outcome metrics_enabled;;
  update (fun t =>
    match response_wire t with
    | Some wire => record_upstream_response t wire parse_wire_meta
    | None => t
    end);;
  mret (Continue ResponseRules).
End Stages.

(** ** What the stages do to the demultiplexing table *)

Section Facts.
Context {N : Type} `{Network N} `{DnsCodec}.
Context (tr : ForwardTransport) (snap : ForwardSnapshot).

(** [acts f g m]: [m] changes the I/O state by [f] and the pool limits by [g]. *)
Definition acts {A} (f : IoBackend -> IoBackend) (g : option PoolInflight -> option PoolInflight)
    (m : M (N := N) A) : Prop :=
  forall t w, w_io (m t w).2 = f (w_io w) /\ w_inflight (m t w).2 = g (w_inflight w).

(** [same m]: [m] leaves both alone. *)
Abbreviation same := (acts (fun io => io) (fun p => p)).

Lemma acts_bind {A B} f g f' g' (m : M A) (k : A -> M B) :
  acts f g m -> (forall a, acts f' g' (k a)) -> acts (fun io => f' (f io)) (fun p => g' (g p)) (m ≫= k).
Proof.
  intros Hm Hk t w. unfold mbind, M_bind. destruct (Hm t w) as [Hio Hin].
  destruct (m t w) as [[a t'] w']. simpl in *. rewrite <- Hio, <- Hin. apply Hk.
Qed.

Lemma same_bind {A B} f g (m : M A) (k : A -> M B) :
  same m -> (forall a, acts f g (k a)) -> acts f g (m ≫= k).
Proof. intros Hm Hk. apply (acts_bind _ _ f g m k Hm Hk). Qed.

Lemma acts_then_same {A B} f g (m : M A) (k : A -> M B) :
  acts f g m -> (forall a, same (k a)) -> acts f g (m ≫= k).
Proof. intros Hm Hk. apply (acts_bind f g _ _ m k Hm Hk). Qed.

Lemma same_ret {A} (a : A) : same (mret a). Proof. by intros t w. Qed.
Lemma same_txn : same txn. Proof. by intros t w. Qed.
Lemma same_world : same world. Proof. by intros t w. Qed.
Lemma same_update h : same (update h). Proof. by intros t w. Qed.
Lemma same_on_txn {A} (h : Transaction -> A * Transaction) : same (on_txn h).
Proof. intros t w. unfold on_txn. by destruct (h t). Qed.
Lemma same_net {A} (h : N -> A * N) : same (net h).
Proof. intros t w. unfold net. by destruct (h (w_net w)). Qed.
Lemma same_on_egress {A} (h : WorkerForwardEgress -> A * WorkerForwardEgress) : same (on_egress h).
Proof. intros t w. unfold on_egress. by destruct (h (w_egress w)). Qed.
Lemma same_put_health r : same (put_health r). Proof. by intros t w. Qed.
Lemma same_io_udp slot sel : same (io_udp_socket_for slot sel).
Proof. intros t w. unfold io_udp_socket_for. destruct (_ !! _); [|done]. by destruct (udp_socket_for _ _). Qed.

Create HintDb same.
#[local] Hint Resolve same_ret same_txn same_world same_update same_on_txn same_net same_on_egress
  same_put_health same_io_udp : same.

(** A stage made of such steps and of choices between them. *)
Ltac same_auto :=
  repeat first
    [ progress eauto with same
    | progress intros
    | apply same_bind
    | match goal with |- acts _ _ (match ?x with _ => _ end) => destruct x end
    | match goal with |- acts _ _ (if ?x then _ else _) => destruct x end ].

Lemma same_report_passive pool b f : same (report_passive snap pool b f).
Proof. unfold report_passive. same_auto. Qed.
Lemma same_report b f : same (report_passive_outcome snap b f).
Proof. unfold report_passive_outcome. apply same_bind; [same_auto|]. intros. apply same_report_passive. Qed.
Lemma same_record started : same (record_forward started).
Proof. unfold record_forward. same_auto. Qed.
Lemma same_prepare b k : same (prepare snap b k).
Proof. unfold prepare. same_auto. Qed.
Lemma same_forward_tcp b w v4 v6 : same (forward_tcp b w v4 v6).
Proof. unfold forward_tcp. same_auto. Qed.
Lemma same_tcp_binds sel : same (tcp_binds sel).
Proof. unfold tcp_binds. same_auto. Qed.
Lemma same_udp_exchange s w b : same (udp_exchange s w b).
Proof. unfold udp_exchange. same_auto. Qed.
#[local] Hint Resolve same_report_passive same_report same_record same_prepare same_forward_tcp
  same_tcp_binds same_udp_exchange : same.

Definition without (k : ForwardKey) (io : IoBackend) : IoBackend :=
  io <| io_table := table_remove (io_table io) k |>.

Lemma acts_drop_key k : acts (without k) (fun p => p) (drop_key k).
Proof. by intros t w. Qed.

(** The I/O state after [servfail] of a key. *)
Definition cancelled (k : ForwardKey) (io : IoBackend) : IoBackend :=
  if has_io_backend tr then cancel_pending (without k io) k else without k io.

Lemma acts_servfail k reason started : acts (cancelled k) (fun p => p) (servfail tr snap (Some k) reason started).
Proof.
  unfold servfail, cancelled. apply same_bind; [same_auto|intros _].
  apply acts_then_same; [|intros; same_auto]. apply same_bind; [destruct (passive_failure_reason _); same_auto|intros _].
  destruct (has_io_backend tr).
  - apply (acts_bind (without k) (fun p => p) (fun io => cancel_pending io k) (fun p => p) (drop_key k)); [apply acts_drop_key|].
    by intros _ t w.
  - apply (acts_then_same (without k)); [apply acts_drop_key|intros; same_auto].
Qed.

Lemma same_servfail_none reason started : same (servfail tr snap None reason started).
Proof. unfold servfail. same_auto. Qed.
#[local] Hint Resolve same_servfail_none : same.

Lemma acts_finish k wire started meta : acts (without k) (fun p => p) (finish_response snap k wire started meta).
Proof.
  unfold finish_response. apply same_bind; [same_auto|intros _]. apply same_bind; [same_auto|intros _].
  apply acts_then_same; [apply acts_drop_key|intros; same_auto].
Qed.

Lemma acts_timed_out b k started : acts (without k) (fun p => p) (recv_timed_out snap b k started).
Proof.
  unfold recv_timed_out. apply same_bind; [same_auto|intros _]. apply same_bind; [same_auto|intros _].
  apply acts_then_same; [apply acts_drop_key|intros; same_auto].
Qed.

Lemma acts_finish_udp b k uw w binds started :
  acts (without k) (fun p => p) (finish_udp tr snap b k uw w binds started).
Proof.
  unfold finish_udp. destruct (wants_tcp_retry tr b w); [|apply acts_finish].
  apply same_bind; [same_auto|]. intros [tw|]; apply acts_finish.
Qed.

(** [removes k m]: [m] takes exactly [k] out of the table. *)
Definition removes {A} (k : ForwardKey) (m : M (N := N) A) : Prop :=
  forall t w, io_table (w_io (m t w).2) = table_remove (io_table (w_io w)) k.

Lemma removes_without {A} k g (m : M A) : acts (without k) g m -> removes k m.
Proof. intros Hm t w. by rewrite (proj1 (Hm t w)). Qed.

Lemma removes_cancelled {A} k g (m : M A) : acts (cancelled k) g m -> removes k m.
Proof. intros Hm t w. rewrite (proj1 (Hm t w)). unfold cancelled. by destruct (has_io_backend tr). Qed.

Lemma same_removes {A B} k (m : M A) (h : A -> M B) : same m -> (forall a, removes k (h a)) -> removes k (m ≫= h).
Proof.
  intros Hm Hh t w. unfold mbind, M_bind. destruct (Hm t w) as [Hio _].
  destruct (m t w) as [[a t'] w']. simpl in *. by rewrite Hh, Hio.
Qed.

Lemma sync_attempt_removes started t b k : removes k (sync_attempt tr snap started t b k).
Proof.
  unfold sync_attempt. do 2 (apply same_removes; [same_auto|intros ?]).
  destruct (use_tcp_for_attempt tr t false).
  - apply same_removes; [same_auto|]. intros [w|].
    + eapply removes_without, acts_finish.
    + eapply removes_cancelled, acts_servfail.
  - do 2 (apply same_removes; [same_auto|intros ?]).
    match goal with r : result _ _ |- _ => destruct r as [[w|]|] end.
    + eapply removes_without, acts_finish_udp.
    + eapply removes_without, acts_timed_out.
    + eapply removes_cancelled, acts_servfail.
Qed.

Lemma register_key_cases b t w :
  let u := register_unique (io_table (w_io w)) b (id t) in
  let '(r, t', w') := register_forward_key tr snap b t w in
  w_io w' = (w_io w) <| io_table := u.2 |> /\ w_inflight w' = w_inflight w /\
  match r with
  | Ok k => t' = t /\ u.1 = Some k
  | Err o => o = Continue Send /\ rcode t' = Some 2 /\ u.1 = None
  end.
Proof.
  unfold register_forward_key, mbind, M_bind, txn, on_table, on_io.
  destruct (register_unique (io_table (w_io w)) b (id t)) as [[k|] tb]; cbn; [done|].
  unfold net at 1. cbn. destruct (net_instant (w_net w)) as [started n].
  unfold servfail, record_forward, net, update, mbind, M_bind, mret, M_ret. cbn.
  destruct (net_instant n) as [now n']. done.
Qed.

Lemma handle_sync_some started t w b :
  selected_backend t = Some b ->
  handle_sync tr snap started t w =
  (let '(r, t1, w1) := register_forward_key tr snap b (mark_forward_started t started) w in
   match r with
   | Err o => (o, t1, w1)
   | Ok k => sync_attempt tr snap started (mark_forward_started t started) b k t1 w1
   end).
Proof.
  intros Hb. unfold handle_sync, mbind, M_bind, update, txn at 1. cbn. rewrite Hb.
  destruct (register_forward_key tr snap b (mark_forward_started t started) w) as [[[k|o] t1] w1]; reflexivity.
Qed.

(** A synchronous forward leaves the demultiplexing table as it found it, on every
    path: no backend, a full table, a send or TCP error, a timeout, a truncated answer
    retried over TCP, or an answer. No upstream id is leaked. *)
Theorem sync_forward_leaks_no_id (started : Z) (t : Transaction) (w : World N) :
  table_wf (io_table (w_io w)) ->
  let w' := (handle_sync tr snap started t w).2 in
  table_wf (io_table (w_io w')) /\ forall k, table_lookup (io_table (w_io w')) k = table_lookup (io_table (w_io w)) k.
Proof.
  intros Hwf. destruct (selected_backend t) as [b|] eqn:Eb.
  - rewrite (handle_sync_some _ _ _ _ Eb).
    pose proof (register_key_cases b (mark_forward_started t started) w) as Hr.
    pose proof (register_unique_cases (io_table (w_io w)) b (id t) Hwf) as Hu. cbn in Hr.
    destruct (register_forward_key tr snap b _ w) as [[[k|o] t1] w1], Hr as (Hio & _ & Hr); cbn zeta;
      destruct (register_unique (io_table (w_io w)) b (id t)) as [r tb], Hu as [Hwf1 Hu]; cbn in Hr, Hio.
    + destruct Hr as [_ ->], Hu as (_ & _ & Hk & He).
      rewrite (sync_attempt_removes started (mark_forward_started t started) b k t1 w1), Hio. simpl.
      destruct (remove_cases tb k Hwf1) as [Hwf2 He2]. split; [done|].
      intros k'. unfold table_lookup. by rewrite He2, He, delete_insert_id.
    + destruct Hr as (_ & _ & ->), Hu as [He _]. simpl. rewrite Hio. split; [done|].
      intros k'. unfold table_lookup. simpl. by rewrite He.
  - unfold handle_sync, mbind, M_bind, update, txn at 1. cbn. rewrite Eb.
    unfold record_forward, net, mbind, M_bind, update, mret, M_ret.
    destruct (net_instant (w_net w)). done.
Qed.

(** ** Answers *)

Lemma record_upstream_wire t w meta : response_wire (record_upstream_response t w meta) = response_wire t.
Proof. unfold record_upstream_response. destruct (from_vec w); destruct meta; done. Qed.

Lemma record_forward_txn started t w :
  exists now w', record_forward started t w = (tt, (complete_forward_rtt t now started) <| forward_metrics_recorded := true |>, w').
Proof.
  unfold record_forward, net, update, mbind, M_bind. destruct (net_instant (w_net w)) as [now n]. eauto.
Qed.

Lemma report_passive_txn b f t w : exists w', report_passive_outcome snap b f t w = (tt, t, w').
Proof.
  unfold report_passive_outcome, report_passive, mbind, M_bind, txn, world. destruct (w_health w); [|by eexists].
  unfold net. cbn. destruct (net_unix_ms (w_net w)). by eexists.
Qed.

Lemma finish_response_answer k wire started meta t w :
  let '(o, t', _) := finish_response snap k wire started meta t w in
  o = Continue ResponseRules /\ response_wire t' = Some (rewrite_dns_id wire (dns_id t)).
Proof.
  unfold finish_response, mbind, M_bind.
  destruct (record_forward_txn started t w) as (now & w1 & ->).
  destruct (report_passive_txn (fk_backend k) false
              ((complete_forward_rtt t now started) <| forward_metrics_recorded := true |>) w1) as [w2 ->].
  done.
Qed.

Lemma prepare_txn b k t (w : World N) :
  exists sel t', prepare snap b k t w = ((sel, rewrite_dns_id (query_wire t) (fk_dns_id k)), t', w) /\
    dns_id t' = dns_id t /\ id t' = id t /\ selected_pool t' = selected_pool t.
Proof.
  unfold prepare, mbind, M_bind, txn, on_txn, take_effective_source_override_v4, take_effective_source_override_v6.
  repeat (case_match; simplify_eq/=); eexists _, _; split_and!; reflexivity.
Qed.

Lemma tcp_binds_txn sel t (w : World N) : exists bs w', tcp_binds sel t w = (bs, t, w') /\ w_net w' = w_net w.
Proof.
  unfold tcp_binds, mbind, M_bind, on_egress. destruct (is_ipv4 _);
    [destruct (select_source_v4 _ _ _ _)|destruct (select_source_v6 _ _ _ _)]; by eexists _, _.
Qed.

(** The synchronous runtime takes the first datagram its socket receives for the
    answer, wherever it comes from and whatever id it carries, and rewrites its id to
    the client's. Neither the sender nor the upstream id is compared with the
    forward's: a late answer to an earlier query of the worker is sent as the
    answer to this one. *)
Theorem sync_takes_any_datagram (started : Z) (t : Transaction) (w : World N) (b from : SocketAddr)
    (k : ForwardKey) (wire : list Z) :
  selected_backend t = Some b -> upstream_transport tr = UdpOnly -> client_tcp_uses_upstream_tcp tr = false ->
  (register_unique (io_table (w_io w)) b (id t)).1 = Some k ->
  (forall s q a n, (send_to s q a n).1 = true) -> (forall s n, (recv_from s n).1 = Some (wire, from)) ->
  let '(o, t', _) := handle_sync tr snap started t w in
  o = Continue ResponseRules /\ response_wire t' = Some (rewrite_dns_id (take 4096 wire) (dns_id t)).
Proof.
  intros Hb Hu Hc Hk Hsend Hrecv. rewrite (handle_sync_some _ _ _ _ Hb).
  pose proof (register_key_cases b (mark_forward_started t started) w) as Hr.
  destruct (register_forward_key tr snap b _ w) as [[[k'|o] t1] w1], Hr as (_ & _ & Hr).
  - destruct Hr as (-> & _). unfold sync_attempt, mbind, M_bind.
    destruct (prepare_txn b k' (mark_forward_started t started) w1) as (sel & t2 & -> & Hid & _). cbn.
    destruct (tcp_binds_txn sel t2 w1) as (bs & w2 & -> & _).
    unfold use_tcp_for_attempt. rewrite Hc, Hu. cbn.
    unfold on_egress. destruct (udp_socket_for (w_egress w2) sel) as [s e].
    unfold udp_exchange, net, mbind, M_bind. cbn.
    destruct (send_to s _ b (w_net w2)) as [ok n] eqn:Es. pose proof (Hsend s (rewrite_dns_id (query_wire (mark_forward_started t started)) (fk_dns_id k')) b (w_net w2)) as Hok.
    cbn in Hok, Es. rewrite Es in Hok. cbn in Hok. subst ok. cbn.
    destruct (recv_from s n) as [d n'] eqn:Er. pose proof (Hrecv s n) as Hd. rewrite Er in Hd. cbn in Hd. subst d. cbn.
    unfold finish_udp, wants_tcp_retry. rewrite Hu. cbn.
    pose proof (finish_response_answer k' (take 4096 wire) started (sn_needs_response_wire_meta snap) t2
      (MkWorld N e (w_io w2) (w_io_egress w2) (w_inflight w2) (w_health w2) n')) as Hf.
    rewrite Hid in Hf. exact Hf.
  - destruct Hr as (_ & _ & Hn). cbn in Hn. congruence.
Qed.

(** ** Submitting a forward *)

(** Neither the lists nor the table know the key. *)
Definition absent (k : ForwardKey) (ss : list (gmap ForwardKey PendingForward)) : Prop :=
  Forall (fun s => s !! k = None) ss.

Lemma cancel_absent k ss : absent k ss -> cancel_in ss k = ss.
Proof. induction 1 as [|s ss Hs _ IH]; simpl; [done|]. rewrite Hs. simpl. by rewrite IH. Qed.

Lemma cancel_tracked k v ss : absent k ss -> forall i, cancel_in (alter <[k := v]> i ss) k = ss.
Proof.
  induction 1 as [|s ss Hs Hss IH]; intros [|i]; simpl; [done..| |].
  - rewrite lookup_insert_eq. simpl. by rewrite delete_insert_id.
  - rewrite Hs. simpl. f_equal. apply IH.
Qed.

Lemma fresh_absent io k : io_wf io -> entries (io_table io) !! k = None -> absent k (shards io).
Proof.
  intros Hwf Hk. apply Forall_lookup. intros i s Hs. destruct (s !! k) as [p|] eqn:E; [|done].
  apply (io_owner io Hwf i s k p Hs) in E as [E _]. congruence.
Qed.

(** The I/O state a submission of [k] may leave: pending, or as it was without [k]. *)
Definition attempt_post (k : ForwardKey) (pool : string) (slot : Z) (w : World N)
    (r : StageOutcome * Transaction * World N) : Prop :=
  let '(o, t', w') := r in
  match o with
  | Suspend ph => ph = WaitResponse /\ w_inflight w' = w_inflight w /\
      exists now, w_io w' = track_pending now (w_io w) k slot
  | Continue ph => ph = Send /\ rcode t' = Some 2 /\
      w_inflight w' = (fun p => inflight_release p pool) <$> w_inflight w /\
      (w_io w' = cancelled k (w_io w) \/
       exists now, has_io_backend tr = true /\ w_io w' = cancelled k (track_pending now (w_io w) k slot))
  | _ => False
  end.

Lemma servfail_outcome key reason started t (w : World N) :
  exists t' w', servfail tr snap key reason started t w = (Continue Send, t', w') /\ rcode t' = Some 2.
Proof.
  unfold servfail, mbind, M_bind. destruct (record_forward_txn started t w) as (now & w1 & ->).
  destruct key as [k|]; cbn.
  - destruct (passive_failure_reason reason).
    + destruct (report_passive_txn (fk_backend k) true
        ((complete_forward_rtt t now started) <| forward_metrics_recorded := true |>) w1) as [w2 ->].
      destruct (has_io_backend tr); by eexists _, _.
    + destruct (has_io_backend tr); by eexists _, _.
  - by eexists _, _.
Qed.

(** The state after [release_pool_inflight]. *)
Definition released (pool : string) (w : World N) : World N :=
  MkWorld N (w_egress w) (w_io w) (w_io_egress w) ((fun p => inflight_release p pool) <$> w_inflight w)
    (w_health w) (w_net w).

Lemma release_run t w pool :
  selected_pool t = Some pool -> release_pool_inflight t w = (tt, t, released pool w).
Proof.
  intros Hp. unfold release_pool_inflight, mbind, M_bind, txn, world. rewrite Hp.
  destruct w as [e io ioe [p|] h n]; reflexivity.
Qed.

Lemma release_then_servfail k pool reason started t (w : World N) :
  selected_pool t = Some pool ->
  exists t' w', (release_pool_inflight;; servfail tr snap (Some k) reason started) t w = (Continue Send, t', w') /\
    rcode t' = Some 2 /\ w_io w' = cancelled k (w_io w) /\
    w_inflight w' = (fun p => inflight_release p pool) <$> w_inflight w.
Proof.
  intros Hp. unfold mbind, M_bind. rewrite (release_run t w pool Hp).
  destruct (servfail_outcome (Some k) reason started t (released pool w)) as (t' & w' & E & Hrc).
  destruct (acts_servfail k reason started t (released pool w)) as [Hio Hin].
  rewrite E in *. exists t', w'. done.
Qed.

Lemma send_submitted_post b k sel wire started t (w : World N) pool :
  selected_pool t = Some pool -> fits 32 (id t) ->
  attempt_post k pool (id t) w (send_submitted tr snap b k sel wire started t w).
Proof.
  intros Hp Hid. unfold send_submitted. destruct (has_io_backend tr) eqn:Eio.
  - unfold mbind at 1, M_bind at 1, txn at 1. cbn. rewrite (wrap_small 32 (id t) Hid).
    unfold mbind at 1, M_bind at 1, net at 1. destruct (net_instant (w_net w)) as [now n].
    unfold mbind at 1, M_bind at 1, on_io at 1. cbn.
    set (w1 := MkWorld N (w_egress w) (track_pending now (w_io w) k (id t)) _ _ _ n).
    unfold mbind at 1, M_bind at 1. destruct (same_io_udp (id t) sel t w1) as [Hio Hin].
    assert (exists s w2, io_udp_socket_for (id t) sel t w1 = (s, t, w2)) as (s & w2 & E).
    { unfold io_udp_socket_for. destruct (_ !! _); [|by eexists _, _]. destruct (udp_socket_for _ _). by eexists _, _. }
    rewrite E in *. cbn in Hio, Hin. destruct s as [s|].
    + unfold mbind at 1, M_bind at 1, net at 1.
      destruct (send_to s wire b (w_net w2)) as [[] n2]; [by split_and!; eauto|].
      match goal with |- attempt_post _ _ _ _ (_ t ?w3) =>
        destruct (release_then_servfail k pool "send_error" started t w3 Hp) as (t' & w' & -> & Hrc & Hio' & Hin') end.
      cbn in Hio', Hin'. rewrite Hio, Hin in *. split_and!; eauto.
    + destruct (release_then_servfail k pool "no_io_egress" started t w2 Hp) as (t' & w' & -> & Hrc & Hio' & Hin').
      rewrite Hio, Hin in *. split_and!; eauto.
  - destruct (release_then_servfail k pool "no_io_backend" started t w Hp) as (t' & w' & -> & Hrc & Hio' & Hin').
    split_and!; auto.
Qed.

(** The forwards counted for a pool. *)
Definition in_flight (p : option PoolInflight) (pool : string) : Z :=
  default 0 (let! p := p in active p !! pool).

(** The limits are u32 values and the counts are within them. *)
Definition inflight_ok (p : option PoolInflight) : Prop :=
  forall q pool l, p = Some q -> limits q !! pool = Some l -> 0 <= default 0 (active q !! pool) <= l /\ l <= u32_max.

Definition limited (p : option PoolInflight) (pool : string) : bool :=
  is_someb (let! p := p in limits p !! pool).

Lemma acquire_in_flight p pool :
  inflight_ok (Some p) ->
  let '(ok, p') := try_acquire p pool in
  limits p' = limits p /\
  (forall q, in_flight (Some p') q =
     in_flight (Some p) q + (if ok && limited (Some p) pool && bool_decide (q = pool) then 1 else 0)) /\
  (ok = true -> limited (Some p) pool = true -> active p' !! pool = Some (in_flight (Some p) pool + 1) /\ 0 <= in_flight (Some p) pool).
Proof.
  intros Hok. unfold try_acquire, limited, in_flight. simpl. destruct (limits p !! pool) as [l|] eqn:El; simpl.
  - destruct (Hok p pool l eq_refl El) as [Hc Hl]. destruct (or_insert_zero_spec pool (active p)) as [H1 H2].
    destruct (or_insert_zero pool (active p)) as [c act]. simpl in H1, H2. subst c.
    destruct (Z.leb_spec l (default 0 (active p !! pool))); simpl.
    + split_and!; [done| |done]. intros q. rewrite H2. lia.
    + rewrite wrap_small by (unfold fits, u32_max in *; lia). split_and!; [done| |].
      * intros q. case_bool_decide as Hq; [subst q; by rewrite lookup_insert_eq|].
        rewrite lookup_insert_ne, H2 by congruence. lia.
      * intros _ _. rewrite lookup_insert_eq. split; [done|lia].
  - split_and!; [done| |done]. intros q. lia.
Qed.

Lemma release_in_flight p p' pool :
  limits p' = limits p -> limited (Some p) pool = true -> active p' !! pool = Some (in_flight (Some p) pool + 1) ->
  0 <= in_flight (Some p) pool ->
  (forall q, in_flight (Some p') q = in_flight (Some p) q + (if bool_decide (q = pool) then 1 else 0)) ->
  forall q, in_flight (Some (inflight_release p' pool)) q = in_flight (Some p) q.
Proof.
  intros Hl Hlim Ha Hpos Hq q. specialize (Hq q). unfold limited in Hlim. simpl in Hlim.
  unfold inflight_release. rewrite Hl, Ha. destruct (limits p !! pool); [|done]. unfold in_flight at 1. simpl.
  case_bool_decide as E.
  - subst q. rewrite lookup_insert_eq. simpl. unfold sat_sub. lia.
  - rewrite lookup_insert_ne by congruence. unfold in_flight in Hq at 1. simpl in Hq. lia.
Qed.

(** Acquiring for a pool and then releasing it changes no count. *)
Lemma acquire_release p pool :
  inflight_ok (Some p) -> (try_acquire p pool).1 = true ->
  forall q, in_flight (Some (inflight_release (try_acquire p pool).2 pool)) q = in_flight (Some p) q.
Proof.
  intros Hok Hacq q. pose proof (acquire_in_flight p pool Hok) as Ha.
  destruct (try_acquire p pool) as [ok p'] eqn:E. simpl in Hacq. subst ok. destruct Ha as (Hl & Hq & Ha). simpl.
  destruct (limited (Some p) pool) eqn:Elim.
  - destruct (Ha eq_refl eq_refl). by apply release_in_flight.
  - specialize (Hq q). unfold inflight_release. rewrite Hl. unfold limited in Elim. simpl in Elim.
    destruct (limits p !! pool); [done|]. rewrite Hq. simpl. lia.
Qed.

Lemma acquire_pool_run t (w : World N) pool :
  selected_pool t = Some pool -> inflight_ok (w_inflight w) ->
  exists ok w', acquire_pool t w = (ok, t, w') /\ w_io w' = w_io w /\
    (forall q, in_flight (w_inflight w') q =
       in_flight (w_inflight w) q + (if ok && limited (w_inflight w) pool && bool_decide (q = pool) then 1 else 0)) /\
    (ok = true -> forall q, in_flight ((fun p => inflight_release p pool) <$> w_inflight w') q = in_flight (w_inflight w) q).
Proof.
  intros Hp Hok. unfold acquire_pool, mbind, M_bind, txn, world. destruct (w_inflight w) as [p|] eqn:Ew.
  - rewrite Hp. simpl. pose proof (acquire_in_flight p pool Hok) as Ha.
    pose proof (acquire_release p pool Hok) as Hr.
    destruct (try_acquire p pool) as [ok p'], Ha as (_ & Hq & _). eexists ok, _. split; [done|]. simpl.
    split_and!; [done|done|]. intros ->. by apply Hr.
  - exists true, w. rewrite Ew. split_and!; [done..| |done]. intros q. unfold limited. simpl. lia.
Qed.

Lemma handle_submit_some started t (w : World N) b :
  selected_backend t = Some b ->
  handle_submit tr snap started t w =
  (let '(r, t1, w1) := register_forward_key tr snap b (mark_forward_started t started) w in
   match r with
   | Err o => (o, t1, w1)
   | Ok k => submit_attempt tr snap started (mark_forward_started t started) b k t1 w1
   end).
Proof.
  intros Hb. unfold handle_submit, mbind, M_bind, update, txn at 1. cbn. rewrite Hb.
  destruct (register_forward_key tr snap b (mark_forward_started t started) w) as [[[k|o] t1] w1]; reflexivity.
Qed.

(** The attempt: pending and counted, or nothing left but a removed key. *)
Definition submit_post (k : ForwardKey) (pool : string) (slot : Z) (w : World N)
    (r : StageOutcome * Transaction * World N) : Prop :=
  let '(o, t', w') := r in
  match o with
  | Suspend ph => ph = WaitResponse /\ (exists now, w_io w' = track_pending now (w_io w) k slot) /\
      forall q, in_flight (w_inflight w') q =
        in_flight (w_inflight w) q + (if limited (w_inflight w) pool && bool_decide (q = pool) then 1 else 0)
  | Continue ph => ph = Send /\ rcode t' = Some 2 /\
      (forall q, in_flight (w_inflight w') q = in_flight (w_inflight w) q) /\
      io_table (w_io w') = table_remove (io_table (w_io w)) k /\
      (absent k (shards (w_io w)) -> shards (w_io w') = shards (w_io w))
  | _ => False
  end.

Lemma drop_then_servfail k reason started t (w : World N) :
  exists t' w', (drop_key k;; servfail tr snap None reason started) t w = (Continue Send, t', w') /\
    rcode t' = Some 2 /\ w_io w' = without k (w_io w) /\ w_inflight w' = w_inflight w.
Proof.
  pose proof (acts_then_same (without k) (fun p => p) (drop_key k) (fun _ => servfail tr snap None reason started)
    (acts_drop_key k) (fun _ => same_servfail_none reason started) t w) as [Hio Hin].
  unfold mbind, M_bind in *. destruct (drop_key k t w) as [[u t1] w1] eqn:Ed.
  destruct (servfail_outcome None reason started t1 w1) as (t' & w' & E & Hrc). rewrite E in *. by exists t', w'.
Qed.

Lemma cancelled_table k io : io_table (cancelled k io) = table_remove (io_table io) k.
Proof. unfold cancelled. by destruct (has_io_backend tr). Qed.

Lemma submit_attempt_post started t0 b k t (w : World N) pool :
  selected_pool t = Some pool -> fits 32 (id t) -> inflight_ok (w_inflight w) ->
  submit_post k pool (id t) w (submit_attempt tr snap started t0 b k t w).
Proof.
  intros Hp Hid Hok. unfold submit_attempt, mbind at 1, M_bind at 1.
  destruct (acquire_pool_run t w pool Hp Hok) as (ok & w1 & -> & Hio1 & Hq & Hrel).
  destruct ok; cbn [negb].
  - specialize (Hrel eq_refl). destruct (use_tcp_for_attempt tr t0 false).
    + unfold mbind at 1, M_bind at 1. cbn.
      unfold mbind at 1, M_bind at 1. rewrite (release_run t _ pool Hp).
      match goal with |- submit_post _ _ _ _ (servfail _ _ _ ?r _ t ?w2) =>
        destruct (servfail_outcome None r started t w2) as (t' & w' & E & Hrc);
        destruct (same_servfail_none r started t w2) as [Hio Hin] end.
      rewrite E in *. cbn in Hio, Hin. cbn. rewrite Hio, Hin, Hio1. split_and!; done.
    + unfold mbind at 1, M_bind at 1. destruct (prepare_txn b k t w1) as (sel & t2 & -> & _ & Hid2 & Hp2). cbn [fst snd].
      rewrite <- Hid2 in *. rewrite <- Hp2 in Hp.
      pose proof (send_submitted_post b k sel (rewrite_dns_id (query_wire t) (fk_dns_id k)) started t2 w1 pool Hp Hid) as Hs.
      destruct (send_submitted tr snap b k sel _ started t2 w1) as [[o t'] w']. unfold attempt_post in Hs. cbn.
      rewrite Hio1 in Hs. destruct o as [ph| |ph]; [|done|].
      * destruct Hs as (-> & Hrc & Hin & Hs). rewrite Hin. split_and!; [done..| |].
        -- destruct Hs as [-> |(now & _ & ->)]; by rewrite cancelled_table.
        -- intros Habs. destruct Hs as [-> |(now & Eio & ->)]; unfold cancelled; rewrite ?Eio;
             [destruct (has_io_backend tr)|]; cbn; [by apply cancel_absent|done|by apply cancel_tracked].
      * destruct Hs as (-> & Hin & Hs). rewrite Hin. by split_and!.
  - destruct (drop_then_servfail k "pool_inflight_exceeded" started t w1) as (t' & w' & -> & Hrc & Hio & Hin).
    cbn. rewrite Hio, Hin, Hio1. split_and!; [done..| |done|done]. intros q. rewrite Hq. simpl. lia.
Qed.


(** ** Retries in the asynchronous runtime *)

Lemma completed_wire now t : response_wire (complete_forward_rtt_from_mark t now) = response_wire t /\
  forward_metrics_recorded (complete_forward_rtt_from_mark t now) = forward_metrics_recorded t.
Proof. unfold complete_forward_rtt_from_mark. by destruct (forward_started_at t). Qed.

(** When a retry times out, the transaction still holds the answer of the attempt
    before: the WaitResponse stage reads its response code over the timeout's
    SERVFAIL, so the response rules and the client see the old answer. The
    timeout is not reported to passive health either, since only the first
    attempt of a transaction is. *)
Theorem retry_timeout_keeps_old_answer (now : Z) (t : Transaction) (w : World N) (old : list Z) (msg : Message)
    (metrics_enabled meta : bool) :
  response_wire t = Some old -> from_vec old = Some msg -> forward_metrics_recorded t = true ->
  let '(o, t', w') := wait_stage snap metrics_enabled meta (apply_wait_completion now t Timeout) w in
  o = Continue ResponseRules /\ response_wire t' = Some old /\ rcode t' = Some (rcode_low msg) /\
  w_health w' = w_health w.
Proof.
  intros Hr Hm Hf. destruct (completed_wire now t) as [Hw Hrec].
  unfold wait_stage, record_forward_outcome, mbind, M_bind, txn, update. cbn.
  change (forward_metrics_recorded (set_rcode_name (complete_forward_rtt_from_mark t now) "SERVFAIL"))
    with (forward_metrics_recorded (complete_forward_rtt_from_mark t now)).
  rewrite Hrec, Hf. destruct metrics_enabled; cbn;
    change (response_wire (set_rcode_name (complete_forward_rtt_from_mark t now) "SERVFAIL"))
      with (response_wire (complete_forward_rtt_from_mark t now));
    rewrite Hw, Hr; cbn; rewrite record_upstream_wire;
    change (response_wire (set_rcode_name (complete_forward_rtt_from_mark t now) "SERVFAIL"))
      with (response_wire (complete_forward_rtt_from_mark t now)); rewrite Hw;
    unfold record_upstream_response; rewrite Hm; destruct meta; done.
Qed.

(** ** Source addresses *)

(** The selections of one synchronous attempt over UDP, and of [n] in a row. *)
Definition sync_socket (sel : EgressSourceSelection) : M (N := N) Socket :=
  tcp_binds sel;; on_egress (fun e => udp_socket_for e sel).

Fixpoint sync_sockets (sel : EgressSourceSelection) (n : nat) : M (N := N) (list Socket) :=
  match n with
  | O => mret []
  | S n => s ← sync_socket sel; rest ← sync_sockets sel n; mret (s :: rest)
  end.

(** The round robin is at an even position and its second source is bound. *)
Definition at_first (b : Z) (e : WorkerForwardEgress) : Prop :=
  b ∈ sockets_v4 e /\ rr_index_v4 e mod 2 = 0 /\ fits 64 (rr_index_v4 e).

Lemma wrap_even i : i mod 2 = 0 -> fits 64 i -> wrap 64 (i + 1) = i + 1 /\ wrap 64 (i + 1 + 1) mod 2 = 0.
Proof.
  intros He Hf. unfold fits, wrap in *. split.
  - apply Z.mod_small. enough (i <> 2 ^ 64 - 1) by lia. intros ->. by vm_compute in He.
  - rewrite Z.mod_mod_divide by (by exists (2 ^ 63)).
    replace (i + 1 + 1) with (i + 1 * 2) by lia. by rewrite Z.mod_add.
Qed.

Lemma sync_socket_run sel a b t (w : World N) :
  is_ipv4 (sel_backend sel) = true -> pool_sources_v4 sel = [a; b] -> override_v4 sel = None ->
  at_first b (w_egress w) ->
  exists w', sync_socket sel t w = (BoundV4 b, t, w') /\ at_first b (w_egress w').
Proof.
  intros Hv4 Hs Ho (Hb & Hrr & Hf). destruct (wrap_even _ Hrr Hf) as [E1 E2].
  unfold sync_socket, tcp_binds, mbind, M_bind, on_egress, udp_socket_for. rewrite Hv4, Hs, Ho.
  cbn -[rr_pick wrap]. rewrite E1.
  assert (rr_pick [a; b] (rr_index_v4 (w_egress w) + 1) = b) as ->.
  { unfold rr_pick. change (zlen [a; b]) with 2. rewrite <- Zplus_mod_idemp_l, Hrr. done. }
  rewrite bool_decide_true by done. eexists. split; [reflexivity|].
  split; [exact Hb|]. split; [exact E2|by apply wrap_fits].
Qed.

(** A synchronous attempt selects a source address twice, once for a TCP bind it
    may not need and once for its UDP socket, and each selection moves the round
    robin on. With two sources the UDP attempts of a worker therefore all leave
    from the second one. *)
Theorem sync_round_robin_stuck (sel : EgressSourceSelection) (a b : Z) (n : nat) (t : Transaction) (w : World N) :
  is_ipv4 (sel_backend sel) = true -> pool_sources_v4 sel = [a; b] -> override_v4 sel = None ->
  at_first b (w_egress w) -> (sync_sockets sel n t w).1.1 = replicate n (BoundV4 b).
Proof.
  intros Hv4 Hs Ho. revert w. induction n as [|n IH]; intros w Hw; [done|].
  destruct (sync_socket_run sel a b t w Hv4 Hs Ho Hw) as (w1 & E & Hw1). specialize (IH w1 Hw1).
  cbn [sync_sockets]. unfold mbind, M_bind. rewrite E.
  destruct (sync_sockets sel n t w1) as [[l t'] w']. cbn in *. by rewrite IH.
Qed.

(** The source of an attempt is an allowed override, or one of the round robin's list. *)
Lemma select_source_sound e pool override allowed a e' :
  select_source_v4 e pool override allowed = (a, e') ->
  (override = Some a /\ a ∈ allowed) \/ a ∈ rr_list pool (forward_sources_v4 e) \/
  (a = 0 /\ rr_list pool (forward_sources_v4 e) = []).
Proof.
  unfold select_source_v4, allowed_override. destruct override as [o|]; simpl; [case_bool_decide as Ha|].
  1: intros [= <- <-]; by left.
  all: unfold round_robin_v4; destruct (rr_list pool (forward_sources_v4 e)) as [|x l] eqn:E;
    intros [= <- <-]; [by right; right|right; left]; unfold rr_pick; apply list_elem_of_In, nth_In;
    pose proof (Z.mod_pos_bound (rr_index_v4 e) (zlen (x :: l))); unfold zlen in *; simpl length in *; lia.
Qed.
End Facts.

(** ** Witnesses *)

Definition stray : SocketAddr := SockV4 3232235777 5353.
Definition stray_wire : list Z := [7; 7; 129; 128; 0; 1].

(** A network whose sends succeed and whose sockets hold one stray datagram, and a
    codec that reads every wire as the empty NOERROR message. *)
#[local] Instance calm : Network unit := {
  net_instant n := (0, n);
  net_unix_ms n := (0, n);
  send_to s q a n := (true, n);
  recv_from s n := (Some (stray_wire, stray), n);
  tcp_connect a v4 v6 n := (false, n);
  tcp_write l n := (false, n);
  tcp_read k n := (None, n);
}.

#[local] Instance plain_codec : DnsCodec := {
  from_vec w := Some Message_new;
  emit m := Ok [];
  name_wire s := None;
}.

Definition udp_transport : ForwardTransport := {|
  upstream_transport := UdpOnly; client_tcp_uses_upstream_tcp := false; mode := Submit; has_io_backend := true |}.
Definition bare_snapshot : ForwardSnapshot := {|
  sn_sources_v4 := []; sn_sources_v6 := []; pool_forward := ∅; sn_health := ∅; sn_needs_response_wire_meta := false |}.
Definition two_sources : WorkerForwardEgress := MkEgress {[ 1; 2 ]} ∅ [1; 2] [] 0 0.

Definition calm_world : World unit :=
  MkWorld unit two_sources (io_new (table_new 4 2) 100 2) [two_sources; two_sources]
    (Some {| limits := {[ "p" := 1 ]}; active := ∅ |}) None tt.

Definition query : Transaction :=
  (Transaction_new 3 (SockV4 1 1) Udp {| instant_now := 0; system_now := 0 |})
    <| query_wire := [9; 9; 1; 0] |> <| dns_id := 2313 |> <| selected_pool := Some "p" |>
    <| selected_backend := Some sample_upstream |>.

Lemma calm_wf : io_wf (w_io calm_world).
Proof. apply io_new_wf; [apply table_new_wf; unfold u32_max; lia|lia]. Qed.

Lemma sync_forward_leaks_no_id_witness :
  let w' := (handle_sync udp_transport bare_snapshot 0 query calm_world).2 in
  table_wf (io_table (w_io w')) /\
  forall k, table_lookup (io_table (w_io w')) k = table_lookup (table_new 4 2) k.
Proof.
  apply (sync_forward_leaks_no_id udp_transport bare_snapshot 0 query calm_world).
  apply (io_table_wf _ calm_wf).
Defined.

Lemma sync_takes_any_datagram_witness :
  let '(o, t', _) := handle_sync udp_transport bare_snapshot 0 query calm_world in
  o = Continue ResponseRules /\ response_wire t' = Some [9; 9; 129; 128; 0; 1].
Proof.
  apply (sync_takes_any_datagram udp_transport bare_snapshot 0 query calm_world sample_upstream stray
           sample_pending stray_wire); [reflexivity|reflexivity|reflexivity| |reflexivity|reflexivity].
  change (io_table (w_io calm_world)) with (table_new 4 2). change (id query) with 3. rewrite first_key. reflexivity.
Defined.


Lemma retry_timeout_keeps_old_answer_witness :
  let t := query <| response_wire := Some stray_wire |> <| forward_metrics_recorded := true |> in
  let '(o, t', w') := wait_stage bare_snapshot true false (apply_wait_completion 5 t Timeout) calm_world in
  o = Continue ResponseRules /\ response_wire t' = Some stray_wire /\ rcode t' = Some 0 /\ w_health w' = None.
Proof.
  apply (retry_timeout_keeps_old_answer bare_snapshot 5
           (query <| response_wire := Some stray_wire |> <| forward_metrics_recorded := true |>) calm_world
           stray_wire Message_new true false); reflexivity.
Defined.

Lemma sync_round_robin_stuck_witness :
  (sync_sockets (N := unit)
     {| pool_sources_v4 := [1; 2]; pool_sources_v6 := []; sel_backend := sample_upstream; override_v4 := None;
        allowed_v4 := ∅; override_v6 := None; allowed_v6 := ∅ |} 3 query calm_world).1.1
  = [BoundV4 2; BoundV4 2; BoundV4 2].
Proof.
  apply (sync_round_robin_stuck (N := unit)
     {| pool_sources_v4 := [1; 2]; pool_sources_v6 := []; sel_backend := sample_upstream; override_v4 := None;
        allowed_v4 := ∅; override_v6 := None; allowed_v6 := ∅ |} 1 2 3 query calm_world); try reflexivity.
  split; [cbn; set_solver|]. split; [reflexivity|]. unfold fits. cbn. lia.
Defined.
