(* ===== verification/PolicyQueue.v ===== *)
(** * PolicyQueue: the work queue and the reply routes of the asynchronous runtime

    conduit-dataplane/src/runtime/split_io/queue.rs: the sharded queue between the
    ingress and I/O threads and the policy workers, and the sharded map of reply
    targets. One step is one critical section of a shard; condition variables are left out,
    since a worker looks again by itself after 100 ms. *)

From stdpp Require Import gmap.
From S2P Require Import Prelude ForwardTable.

#[local] Open Scope Z_scope.

Definition MAX_QUEUE_SHARDS : Z := 64.

Definition next_power_of_two (n : Z) : Z := 2 ^ Z.log2_up n.

Definition derive_shard_count (policy_workers : Z) : Z :=
  let workers := Z.max policy_workers 1 in
  let n := Z.max workers 4 in
  Z.min (Z.max (next_power_of_two n) 1) MAX_QUEUE_SHARDS.

Inductive PolicyWork :=
  | New (slot : Z)
  | Resume (r : IoResume)
  | LookupResume (slot : Z).

Definition work_slot (w : PolicyWork) : Z :=
  match w with New s | LookupResume s => s | Resume r => ir_slot_id r end.

(** The shards, each a [VecDeque] from its front. *)
Abbreviation PolicyQueue := (list (list PolicyWork)).

Definition queue_with_shards (shard_count : Z) : PolicyQueue :=
  replicate (Z.to_nat (Z.max shard_count 1)) [].

(** [slot_id % shards.len()], for the queue and the routes. *)
Definition shard_for_slot {A} (shards : list A) (slot : Z) : nat := Z.to_nat (slot mod zlen shards).

Definition queue_push (q : PolicyQueue) (w : PolicyWork) : PolicyQueue :=
  alter (fun s => push s w) (shard_for_slot q (work_slot w)) q.

Definition try_pop_shard (q : PolicyQueue) (idx : nat) : option PolicyWork * PolicyQueue :=
  match q !! idx with
  | Some (w :: s) => (Some w, <[idx := s]> q)
  | _ => (None, q)
  end.

(** The scan of [pop] over [n] shards from [home] on, when nobody else intervenes. *)
Fixpoint pop_scan (q : PolicyQueue) (home offset n : nat) : option PolicyWork * PolicyQueue :=
  match n with
  | O => (None, q)
  | S n =>
      match try_pop_shard q ((home + offset) mod length q) with
      | (Some w, q) => (Some w, q)
      | (None, q) => pop_scan q home (S offset) n
      end
  end.

Definition queue_pop (q : PolicyQueue) (home_shard : nat) : option PolicyWork * PolicyQueue :=
  pop_scan q (home_shard mod length q) 0 (length q).

(** ** Reply routes *)

(** A socket or channel is known by its number. *)
Inductive ReplyTarget := ReplyUdp (socket : Z) (peer : SocketAddr) | ReplyTcp (channel : Z).

Abbreviation ReplyRoutes := (list (gmap Z ReplyTarget)).

Definition routes_with_shards (shard_count : Z) : ReplyRoutes :=
  replicate (Z.to_nat (Z.max shard_count 1)) ∅.

Definition route_insert (r : ReplyRoutes) (slot : Z) (target : ReplyTarget) : ReplyRoutes :=
  alter <[slot := target]> (shard_for_slot r slot) r.

Definition route_take (r : ReplyRoutes) (slot : Z) : option ReplyTarget * ReplyRoutes :=
  (r !! shard_for_slot r slot ≫= lookup slot, alter (delete slot) (shard_for_slot r slot) r).

(** ** Facts *)

(** The number of shards is a power of two between 4 and 64, and at least the number
    of policy workers as far as that allows. *)
Lemma derive_shard_count_spec (workers : Z) :
  exists k, 2 <= k <= 6 /\ derive_shard_count workers = 2 ^ k /\ (workers <= 64 -> workers <= derive_shard_count workers).
Proof.
  unfold derive_shard_count, next_power_of_two, MAX_QUEUE_SHARDS.
  set (n := Z.max (Z.max workers 1) 4).
  assert (4 <= n) as Hn by lia.
  pose proof (Z.log2_up_spec n ltac:(lia)) as [_ Hs].
  assert (2 <= Z.log2_up n) as Hl by (change 2 with (Z.log2_up 4); apply Z.log2_up_le_mono; lia).
  assert (4 <= 2 ^ Z.log2_up n) by (change 4 with (2 ^ 2); apply Z.pow_le_mono_r; lia).
  destruct (Z.le_gt_cases (Z.log2_up n) 6) as [Hle|Hgt].
  - exists (Z.log2_up n). assert (2 ^ Z.log2_up n <= 2 ^ 6) by (apply Z.pow_le_mono_r; lia).
    change (2 ^ 6) with 64 in *. lia.
  - exists 6. assert (2 ^ 6 <= 2 ^ Z.log2_up n) by (apply Z.pow_le_mono_r; lia).
    change (2 ^ 6) with 64 in *. lia.
Qed.

(** *** Interleavings of the threads *)

Inductive QueueEvent := EvPush (w : PolicyWork) | EvPop (idx : nat).

(** The work pushed and the work popped, in order, and the queue. *)
Record QueueRun := { qr_pushed : list PolicyWork; qr_popped : list PolicyWork; qr_queue : PolicyQueue }.

Definition queue_step (r : QueueRun) (e : QueueEvent) : QueueRun :=
  match e with
  | EvPush w => {| qr_pushed := push (qr_pushed r) w; qr_popped := qr_popped r; qr_queue := queue_push (qr_queue r) w |}
  | EvPop idx =>
      let '(w, q) := try_pop_shard (qr_queue r) idx in
      {| qr_pushed := qr_pushed r; qr_popped := qr_popped r ++ option_list w; qr_queue := q |}
  end.

Definition queue_run (n : Z) (es : list QueueEvent) : QueueRun :=
  foldl queue_step {| qr_pushed := []; qr_popped := []; qr_queue := queue_with_shards n |} es.

(** The items of one slot, in order. *)
Definition of_slot (s : Z) (l : list PolicyWork) : list PolicyWork := filter (fun w => work_slot w = s) l.

Record queue_wf (r : QueueRun) : Prop := {
  qw_shards : qr_queue r <> [];
  qw_home i l w : qr_queue r !! i = Some l -> w ∈ l -> i = shard_for_slot (qr_queue r) (work_slot w);
  qw_order s : of_slot s (qr_popped r) ++ of_slot s (default [] (qr_queue r !! shard_for_slot (qr_queue r) s))
               = of_slot s (qr_pushed r);
}.

Lemma shard_for_slot_length {A B} (l : list A) (l' : list B) s : length l = length l' -> shard_for_slot l s = shard_for_slot l' s.
Proof. unfold shard_for_slot, zlen. by intros ->. Qed.

Lemma shard_for_slot_lt {A} (l : list A) s : l <> [] -> (shard_for_slot l s < length l)%nat.
Proof.
  intros Hl. unfold shard_for_slot. destruct l as [|a l]; [done|].
  pose proof (Z.mod_pos_bound s (zlen (a :: l))). unfold zlen in *. simpl length in *. lia.
Qed.

Lemma of_slot_app s l l' : of_slot s (l ++ l') = of_slot s l ++ of_slot s l'.
Proof. apply filter_app. Qed.

Lemma push_wf r w : queue_wf r -> queue_wf (queue_step r (EvPush w)).
Proof.
  intros [Hne Hhome Hord]. set (q := qr_queue r) in *.
  assert (length (queue_push q w) = length q) as Hlen by apply length_alter.
  assert (queue_push q w <> []) as Hne' by (intros E; apply Hne, length_zero_iff_nil; by rewrite <- Hlen, E).
  split; simpl; fold q; [done| |].
  - intros i l w' Hi Hw'. rewrite (shard_for_slot_length _ q) by done.
    unfold queue_push in Hi. apply alter_lookup_inv in Hi as [[<- (l0 & Hl0 & ->)]|[_ Hi]]; [|by eapply Hhome].
    apply elem_of_app in Hw' as [Hw'|[-> | []%elem_of_nil]%elem_of_cons]; [by eapply Hhome|done].
  - intros s. rewrite (shard_for_slot_length _ q) by done. unfold push at 1. rewrite of_slot_app, <- Hord.
    unfold queue_push. destruct (decide (shard_for_slot q (work_slot w) = shard_for_slot q s)) as [E|E].
    + rewrite <- E, list_lookup_alter_eq. destruct (lookup_lt_is_Some_2 q (shard_for_slot q (work_slot w))
        (shard_for_slot_lt q _ Hne)) as [l ->]. simpl. unfold push. by rewrite of_slot_app, app_assoc.
    + rewrite list_lookup_alter_ne by done. unfold of_slot at 5. rewrite filter_cons_False by congruence.
      by rewrite filter_nil, app_nil_r.
Qed.

Lemma pop_wf r idx : queue_wf r -> queue_wf (queue_step r (EvPop idx)).
Proof.
  intros Hwf. pose proof Hwf as [Hne Hhome Hord]. simpl. unfold try_pop_shard.
  destruct (qr_queue r !! idx) as [[|w l]|] eqn:E; simpl; rewrite ?app_nil_r; [by destruct r|..|by destruct r].
  set (q := qr_queue r) in *.
  assert (length (<[idx := l]> q) = length q) as Hlen by apply length_insert.
  assert (idx = shard_for_slot q (work_slot w)) as Hidx by (eapply Hhome; [done|by left]).
  assert (<[idx := l]> q <> []) as Hne' by (intros En; apply Hne, length_zero_iff_nil; by rewrite <- Hlen, En).
  split; simpl; fold q; [done| |].
  - intros i l' w' Hi Hw'. rewrite (shard_for_slot_length _ q) by done.
    apply list_lookup_insert_Some in Hi as [(<- & <- & _)|[_ Hi]]; [|by eapply Hhome].
    eapply Hhome; [done|by right].
  - intros s. rewrite (shard_for_slot_length _ q), of_slot_app, <- Hord by done. fold q.
    destruct (decide (idx = shard_for_slot q s)) as [Es|Es].
    + rewrite <- Es, list_lookup_insert_eq by (by eapply lookup_lt_Some). rewrite E. simpl.
      rewrite <- app_assoc. by rewrite <- of_slot_app.
    + rewrite list_lookup_insert_ne by done. unfold of_slot at 2.
      rewrite filter_cons_False by congruence. by rewrite filter_nil, app_nil_r.
Qed.

Lemma queue_run_wf n es : queue_wf (queue_run n es).
Proof.
  unfold queue_run.
  assert (queue_wf {| qr_pushed := []; qr_popped := []; qr_queue := queue_with_shards n |}) as Hwf.
  { unfold queue_with_shards. assert (0 < Z.to_nat (Z.max n 1))%nat as Hk by lia. revert Hk.
    generalize (Z.to_nat (Z.max n 1)). intros k Hk. split; cbn [qr_queue qr_popped qr_pushed].
    - by destruct k; [lia|].
    - intros i l w Hi Hw. apply lookup_replicate in Hi as [-> _]. by apply elem_of_nil in Hw.
    - intros s. destruct (replicate k [] !! _) as [l|] eqn:El; [|done].
      by apply lookup_replicate in El as [-> _]. }
  revert Hwf. generalize {| qr_pushed := []; qr_popped := []; qr_queue := queue_with_shards n |}.
  induction es as [|[w|i] es IH]; intros r Hwf; simpl; [done| |]; apply IH; [by apply push_wf|by apply pop_wf].
Qed.

(** C13: The policy queue loses no work, repeats none, and keeps the order of each slot.
    However pushes and pops of any number of threads interleave, and whatever
    shards the workers pop from: for every slot, the work popped followed by the
    work still queued is the work pushed, in the same order. *)
Theorem queue_slot_order (n : Z) (es : list QueueEvent) (slot : Z) :
  let r := queue_run n es in
  of_slot slot (qr_popped r) ++ of_slot slot (default [] (qr_queue r !! shard_for_slot (qr_queue r) slot))
  = of_slot slot (qr_pushed r).
Proof. apply qw_order, queue_run_wf. Qed.

Lemma try_pop_None q i : try_pop_shard q i = (None, q) \/ exists w q', try_pop_shard q i = (Some w, q').
Proof. unfold try_pop_shard. destruct (q !! i) as [[|w l]|]; eauto. Qed.

Lemma pop_scan_None q home n : forall offset,
  (pop_scan q home offset n).1 = None ->
  forall o, (offset <= o < offset + n)%nat ->
  q !! ((home + o) mod length q)%nat = Some [] \/ q !! ((home + o) mod length q)%nat = None.
Proof.
  induction n as [|n IH]; intros offset; simpl; [lia|]. unfold try_pop_shard.
  destruct (q !! ((home + offset) mod length q)%nat) as [[|w l]|] eqn:E; simpl; [|done|];
    intros Hn o Ho; (destruct (decide (o = offset)) as [-> |]; [by auto|apply (IH (S offset)); [done|lia]]).
Qed.

(** A worker that finds nothing to do has looked at every shard: when nobody else
    intervenes, [pop] of any worker returns work exactly when some shard has some. *)
Theorem pop_finds_work (q : PolicyQueue) (home : nat) :
  q <> [] -> ((queue_pop q home).1 = None <-> Forall (fun s => s = []) q).
Proof.
  intros Hne. assert (0 < length q)%nat as Hlen by (destruct q; simpl; [done|lia]). unfold queue_pop. split.
  - intros Hn. apply Forall_lookup. intros i s Hi. pose proof (lookup_lt_Some _ _ _ Hi) as Hlt.
    pose proof (Nat.mod_upper_bound home (length q) ltac:(lia)) as Hh.
    destruct (decide (home mod length q <= i)%nat) as [Hle|Hgt].
    + destruct (pop_scan_None q (home mod length q) (length q) 0 Hn (i - home mod length q)) as [E|E]; [lia|..];
        replace (home mod length q + (i - home mod length q))%nat with i in E by lia;
        rewrite Nat.mod_small in E by lia; congruence.
    + destruct (pop_scan_None q (home mod length q) (length q) 0 Hn (i + length q - home mod length q)) as [E|E]; [lia|..];
        replace (home mod length q + (i + length q - home mod length q))%nat with (i + 1 * length q)%nat in E by lia;
        rewrite Nat.Div0.mod_add, Nat.mod_small in E by lia; congruence.
  - intros Hall. enough (forall n h o, (pop_scan q h o n).1 = None) as H by apply H.
    induction n as [|n IH]; intros h o; simpl; [done|].
    unfold try_pop_shard. destruct (q !! _) as [[|w l]|] eqn:E; [apply IH| |apply IH].
    rewrite Forall_lookup in Hall. by specialize (Hall _ _ E).
Qed.

(** *** Reply routes as one map *)

Definition route_of (r : ReplyRoutes) (slot : Z) : option ReplyTarget := r !! shard_for_slot r slot ≫= lookup slot.

Lemma route_of_insert (r : ReplyRoutes) slot slot' t :
  r <> [] -> route_of (route_insert r slot t) slot' = if decide (slot = slot') then Some t else route_of r slot'.
Proof.
  intros Hne. unfold route_of, route_insert. rewrite (shard_for_slot_length _ r) by apply length_alter.
  destruct (lookup_lt_is_Some_2 r (shard_for_slot r slot) (shard_for_slot_lt r slot Hne)) as [m Hm].
  case_decide as E.
  - subst slot'. rewrite list_lookup_alter_eq, Hm. simpl. by rewrite lookup_insert_eq.
  - destruct (decide (shard_for_slot r slot = shard_for_slot r slot')) as [Es|Es].
    + rewrite <- Es, list_lookup_alter_eq, Hm. simpl. by rewrite lookup_insert_ne.
    + by rewrite list_lookup_alter_ne.
Qed.

Lemma route_of_take (r : ReplyRoutes) slot slot' :
  r <> [] -> (route_take r slot).1 = route_of r slot /\
  route_of (route_take r slot).2 slot' = if decide (slot = slot') then None else route_of r slot'.
Proof.
  intros Hne. split; [done|]. unfold route_of, route_take. simpl.
  rewrite (shard_for_slot_length _ r) by apply length_alter.
  destruct (lookup_lt_is_Some_2 r (shard_for_slot r slot) (shard_for_slot_lt r slot Hne)) as [m Hm].
  case_decide as E.
  - subst slot'. rewrite list_lookup_alter_eq, Hm. simpl. by rewrite lookup_delete_eq.
  - destruct (decide (shard_for_slot r slot = shard_for_slot r slot')) as [Es|Es].
    + rewrite <- Es, list_lookup_alter_eq, Hm. simpl. by rewrite lookup_delete_ne.
    + by rewrite list_lookup_alter_ne.
Qed.

Lemma route_take_not_nil (r : ReplyRoutes) slot : r <> [] -> (route_take r slot).2 <> [].
Proof. apply alter_not_nil. Qed.

Lemma route_insert_not_nil (r : ReplyRoutes) slot t : r <> [] -> route_insert r slot t <> [].
Proof. apply alter_not_nil. Qed.

(** ** Witness *)

Lemma pop_finds_work_witness :
  (queue_pop (queue_push (queue_with_shards 4) (New 6)) 1).1 = Some (New 6) /\
  ((queue_pop (queue_with_shards 4) 1).1 = None <-> Forall (fun s => s = []) (queue_with_shards 4)).
Proof. split; [reflexivity|]. apply pop_finds_work. discriminate. Defined.
