(* ===== verification/Dataplane.v ===== *)
(** * Dataplane: policy workers, the synchronous slot and draining

    conduit-dataplane/src: the policy worker of runtime/split_io/policy.rs,
    [deliver_reply] of queue.rs, the synchronous [run_in_slot] of query_slot.rs and
    [drain_slots] of drain.rs. The orchestrator is a function on the transaction and an
    environment that holds everything else it changes. A step of a worker is the
    work on one item; it holds the lock of the slot from the start of the run to
    the change of state, so that no other step on the slot falls between them. *)

From stdpp Require Import strings gmap.
From Stdlib Require Import String.
From S2P Require Import Prelude DnsWire Transaction TxnStore Orchestrator ForwardTable Forward PolicyQueue.

#[local] Open Scope string_scope.
#[local] Open Scope list_scope.
#[local] Open Scope Z_scope.

(** [with_slot_exclusive]: the closure returns its result and the slot it leaves. *)
Definition with_slot_exclusive {R} (s : TxnStore) (i : nat) (f : TxnSlot -> result R SlotError * TxnSlot)
    : result R SlotError * TxnStore :=
  match slot_mut s i with
  | None => (Err (InvalidId i), s)
  | Some sl => let '(r, sl') := f sl in (r, put_slot s i sl')
  end.

(** ** The policy worker *)

(** The slot pool, the reply routes, the environment of the orchestrator, and the
    replies handed to sockets and channels so far. *)
Record Plane {E : Type} := MkPlane {
  pl_store : TxnStore;
  pl_routes : ReplyRoutes;
  pl_env : E;
  pl_sent : list (ReplyTarget * list Z);
}.
Arguments Plane : clear implicits.

Section Worker.
Context {E : Type}.
Context (run_until_suspend : Transaction -> E -> OrchestratorRun * Transaction * E).
Context (resume_after_suspend : Transaction -> E -> Phase -> OrchestratorRun * Transaction * E).
(** [PoolInflight::release] on the limits the environment holds. *)
Context (release_pool : string -> E -> E).

Definition deliver_reply (p : Plane E) (slot_id : Z) (wire : list Z) : Plane E :=
  let '(target, routes) := route_take (pl_routes p) slot_id in
  MkPlane E (pl_store p) routes (pl_env p)
    (pl_sent p ++ match target with Some tg => [(tg, wire)] | None => [] end).

Definition release_slot (now : Clock) (p : Plane E) (i : nat) : Plane E :=
  let pool :=
    let! sl := slot_mut (pl_store p) i in
    match slot_state sl with
    | Policy | IoWait => selected_pool (slot_txn sl)
    | _ => None
    end in
  MkPlane E (release_active now (pl_store p) i).2 (pl_routes p)
    (match pool with Some name => release_pool name (pl_env p) | None => pl_env p end) (pl_sent p).

(** The run under the slot's lock: what the orchestrator returned, if the slot is in
    [Policy]. *)
Definition policy_run (p : Plane E) (i : nat) (resume_phase : option Phase)
    : result OrchestratorRun SlotError * Plane E :=
  match slot_mut (pl_store p) i with
  | None => (Err (InvalidId i), p)
  | Some sl =>
      if decide (slot_state sl = Policy) then
        let '(step, t, e) :=
          match resume_phase with
          | Some phase => resume_after_suspend (slot_txn sl) (pl_env p) phase
          | None => run_until_suspend (slot_txn sl) (pl_env p)
          end in
        let sl := sl <| slot_txn := t |> in
        let sl := match step with Suspended _ => sl <| slot_state := IoWait |> | Finished _ => sl end in
        (Ok step, MkPlane E (put_slot (pl_store p) i sl) (pl_routes p) e (pl_sent p))
      else (Err (StateMismatch Policy (slot_state sl)), p)
  end.

Definition run_policy_loop (now : Clock) (p : Plane E) (i : nat) (resume_phase : option Phase) : Plane E :=
  match policy_run p i resume_phase with
  | (Err _, p) => release_slot now p i
  | (Ok (Finished Dropped), p) => release_slot now p i
  | (Ok (Finished (Orchestrator.Response wire)), p) => release_slot now (deliver_reply p (Z.of_nat i) wire) i
  | (Ok (Suspended _), p) => p
  end.

Definition with_store (p : Plane E) (s : TxnStore) : Plane E := MkPlane E s (pl_routes p) (pl_env p) (pl_sent p).

Definition process_new (now : Clock) (p : Plane E) (i : nat) : Plane E :=
  match transition (pl_store p) i Ingress Policy with
  | (Err _, s) => with_store p (release_active now s i).2
  | (Ok _, s) => run_policy_loop now (with_store p s) i None
  end.

Definition process_resume (now : Clock) (p : Plane E) (r : IoResume) : Plane E :=
  let i := Z.to_nat (ir_slot_id r) in
  match with_slot_exclusive (pl_store p) i (fun sl =>
          if decide (slot_state sl = IoWait) then
            (Ok true, sl <| slot_state := Policy |>
                         <| slot_txn := apply_wait_completion (instant_now now) (slot_txn sl) (ir_completion r) |>)
          else (Ok false, sl)) with
  | (Ok true, s) => run_policy_loop now (with_store p s) i (Some Lookup)
  | (Ok false, s) => with_store p s
  | (Err _, s) => with_store p s
  end.

Definition process_lookup_resume (now : Clock) (p : Plane E) (i : nat) : Plane E :=
  match transition (pl_store p) i IoWait Policy with
  | (Err _, s) => with_store p s
  | (Ok _, s) => run_policy_loop now (with_store p s) i (Some Lookup)
  end.

(** One turn of [run_policy_worker]. *)
Definition policy_work (now : Clock) (p : Plane E) (w : PolicyWork) : Plane E :=
  match w with
  | New slot => process_new now p (Z.to_nat slot)
  | Resume r => process_resume now p r
  | LookupResume slot => process_lookup_resume now p (Z.to_nat slot)
  end.
End Worker.

(** ** The synchronous runtime: one query in one slot *)

Section Sync.
Context {E : Type}.
Context (run : Transaction -> E -> RunOutcome * Transaction * E).

(** [Ok None]: no reply; [None] is a panic of [acquire]. *)
Definition run_in_slot (now : Clock) (s : TxnStore) (e : E) (setup : TxnSlot -> TxnSlot)
    : option (result (option (list Z)) AcquireError * TxnStore * E) :=
  let! r := acquire now s in
  match r with
  | (Err x, s) => Some (Err x, s, e)
  | (Ok i, s) =>
      match transition s i Ingress Policy with
      | (Err _, s) => Some (Ok None, (release_active now s i).2, e)
      | (Ok _, s) =>
          let '(outcome, s) := with_slot s i Policy (fun sl =>
            let sl := setup sl in
            let '(o, t, e) := run (slot_txn sl) e in
            (Ok (o, e), sl <| slot_txn := t |>)) in
          let wire := match outcome with Ok (Orchestrator.Response w, _) => Some w | _ => None end in
          let e := match outcome with Ok (_, e) => e | Err _ => e end in
          Some (Ok wire, (release_active now s i).2, e)
      end
  end.
End Sync.

(** ** Draining *)

Record DrainFilter := { df_protocol : option ClientProtocol }.

Definition drain_matches (f : DrainFilter) (sl : TxnSlot) : bool :=
  match df_protocol f with Some p => bool_decide (protocol (slot_txn sl) = p) | None => true end.

Inductive DrainOutcome := Drained | TimedOut (remaining : Z) | Aborted (remaining : Z).

Definition DRAIN_POLL_INTERVAL : Z := 10000000.

Section Drain.
(** The pool, the cancel flag and the clock are read from a state; [sleep] passes the
    time, in which the other threads change it. The reads of one turn see one state. *)
Context {N : Type}.
Context (pool_of : N -> TxnStore) (cancelled : N -> bool) (clock : N -> Z) (sleep : Z -> N -> N).

Fixpoint drain_loop (fuel : nat) (f : DrainFilter) (deadline : Z) (n : N) : option (DrainOutcome * N) :=
  match fuel with
  | O => None
  | S fuel =>
      let remaining := active_slots_matching (drain_matches f) (pool_of n) in
      if remaining =? 0 then Some (Drained, n)
      else if cancelled n then Some (Aborted remaining, n)
      else if deadline <=? clock n then Some (TimedOut remaining, n)
      else drain_loop fuel f deadline (sleep (Z.min DRAIN_POLL_INTERVAL (deadline - clock n)) n)
  end.

Definition drain_slots (fuel : nat) (timeout : Z) (filter : option DrainFilter) (n : N)
    : option (DrainOutcome * N) :=
  let f := default {| df_protocol := None |} filter in
  drain_loop fuel f (clock n + timeout) n.
End Drain.

(** ** The work of a policy worker: facts *)

Section WorkerFacts.
Context {E : Type}.
Context (run_until_suspend : Transaction -> E -> OrchestratorRun * Transaction * E).
Context (resume_after_suspend : Transaction -> E -> Phase -> OrchestratorRun * Transaction * E).
Context (release_pool : string -> E -> E).

#[local] Abbreviation policy_work := (policy_work run_until_suspend resume_after_suspend release_pool).
#[local] Abbreviation run_policy_loop := (run_policy_loop run_until_suspend resume_after_suspend release_pool).
#[local] Abbreviation release_slot := (release_slot release_pool).

(** What an item of work lets the orchestrator run: the transaction and the phase it
    resumes in. [None] when the slot is not in the state the item expects. *)
Definition ready (now : Clock) (p : Plane E) (w : PolicyWork) : option (Transaction * option Phase) :=
  let! sl := slot_mut (pl_store p) (Z.to_nat (work_slot w)) in
  match w with
  | New _ => if decide (slot_state sl = Ingress) then Some (slot_txn sl, None) else None
  | Resume r => if decide (slot_state sl = IoWait)
                then Some (apply_wait_completion (instant_now now) (slot_txn sl) (ir_completion r), Some Lookup)
                else None
  | LookupResume _ => if decide (slot_state sl = IoWait) then Some (slot_txn sl, Some Lookup) else None
  end.

Definition orchestrate (t : Transaction) (ph : option Phase) (e : E) : OrchestratorRun * Transaction * E :=
  match ph with Some ph => resume_after_suspend t e ph | None => run_until_suspend t e end.

Definition pool_freed (t : Transaction) (e : E) : E :=
  match selected_pool t with Some pool => release_pool pool e | None => e end.

(** What one run leaves of the plane. *)
Definition run_post (p : Plane E) (slot : Z) (r : OrchestratorRun * Transaction * E) (p' : Plane E) : Prop :=
  let '(step, t, e) := r in
  let i := Z.to_nat slot in
  store_wf (pl_store p') [] /\ pl_routes p' <> [] /\
  match step with
  | Suspended _ =>
      used (pl_store p') = used (pl_store p) /\ pl_env p' = e /\ pl_sent p' = pl_sent p /\ pl_routes p' = pl_routes p /\
      exists sl, slots (pl_store p') !! i = Some sl /\ slot_state sl = IoWait /\ slot_txn sl = t
  | Finished o =>
      used (pl_store p') = used (pl_store p) ∖ {[i]} /\ pl_env p' = pool_freed t e /\
      match o with
      | Orchestrator.Response wire =>
          pl_sent p' = pl_sent p ++ match route_of (pl_routes p) slot with Some tg => [(tg, wire)] | None => [] end /\
          forall j, route_of (pl_routes p') j = if decide (slot = j) then None else route_of (pl_routes p) j
      | Dropped => pl_sent p' = pl_sent p /\ pl_routes p' = pl_routes p
      end
  end.

Lemma release_slot_busy now (p : Plane E) i sl :
  store_wf (pl_store p) [] -> slots (pl_store p) !! i = Some sl -> slot_state sl = Policy ->
  let p' := release_slot now p i in
  store_wf (pl_store p') [] /\ used (pl_store p') = used (pl_store p) ∖ {[i]} /\
  pl_routes p' = pl_routes p /\ pl_sent p' = pl_sent p /\ pl_env p' = pool_freed (slot_txn sl) (pl_env p).
Proof.
  intros Hwf Hi Hs. unfold Dataplane.release_slot, slot_mut, pool_freed. simpl. rewrite Hi, Hs.
  pose proof (release_active_spec now _ i Hwf) as Hr. rewrite Hi in Hr.
  destruct Hr as (s' & -> & Hwf' & Hu). by destruct (selected_pool (slot_txn sl)).
Qed.

Lemma run_policy_loop_post now (p : Plane E) slot ph sl :
  0 <= slot -> store_wf (pl_store p) [] -> pl_routes p <> [] ->
  slots (pl_store p) !! Z.to_nat slot = Some sl -> slot_state sl = Policy ->
  run_post p slot (orchestrate (slot_txn sl) ph (pl_env p)) (run_policy_loop now p (Z.to_nat slot) ph).
Proof.
  intros Hz Hwf Hr Hi Hs. set (i := Z.to_nat slot) in *.
  unfold Dataplane.run_policy_loop, policy_run, slot_mut. rewrite Hi, decide_True by done. fold (orchestrate (slot_txn sl) ph (pl_env p)).
  destruct (orchestrate (slot_txn sl) ph (pl_env p)) as [[step t] e]. unfold run_post. fold i.
  set (sl' := match step with Suspended _ => sl <| slot_txn := t |> <| slot_state := IoWait |>
              | Finished _ => sl <| slot_txn := t |> end).
  assert (slot_state sl' <> Free) as Hf by (subst sl'; destruct step; simpl; congruence).
  destruct (with_slot_busy _ i sl sl' Hwf Hi ltac:(congruence) Hf) as (Hwf' & Hu & _).
  assert (slots (put_slot (pl_store p) i sl') !! i = Some sl') as Hi'
    by (apply list_lookup_insert_eq; by eapply lookup_lt_Some).
  destruct step as [[wire|]|ph']; cbn iota.
  - destruct (route_of_take (pl_routes p) slot slot Hr) as [Ht _]. rewrite (Z2Nat.id slot Hz : Z.of_nat i = slot).
    unfold deliver_reply. cbn [pl_store pl_routes pl_env pl_sent]. destruct (route_take (pl_routes p) slot) as [tg rs] eqn:Er. simpl in Ht.
    pose proof (route_take_not_nil (pl_routes p) slot Hr) as Hn. rewrite Er in Hn. cbn [pl_store pl_routes pl_env pl_sent].
    destruct (release_slot_busy now (MkPlane E (put_slot (pl_store p) i sl') rs e
      (pl_sent p ++ match tg with Some tg => [(tg, wire)] | None => [] end)) i sl' Hwf' Hi' Hs) as (H1 & H2 & H3 & H4 & H5).
    rewrite H2, H3, H4, H5. cbn [pl_store pl_routes pl_env pl_sent]. rewrite Hu, <- Ht. split_and!; [done..|].
    intros j. pose proof (route_of_take (pl_routes p) slot j Hr) as [_ Hj]. by rewrite Er in Hj.
  - destruct (release_slot_busy now (MkPlane E (put_slot (pl_store p) i sl') (pl_routes p) e (pl_sent p)) i sl' Hwf' Hi' Hs)
      as (H1 & H2 & H3 & H4 & H5). rewrite H2, H3, H4, H5. cbn [pl_store pl_routes pl_env pl_sent]. rewrite Hu. by split_and!.
  - split_and!; [done..|]. by exists sl'.
Qed.

(** A transition of the slot the run starts from, which keeps the pool in order. *)
Lemma run_from_slot now (p : Plane E) slot ph sl sl' :
  0 <= slot -> store_wf (pl_store p) [] -> pl_routes p <> [] -> slots (pl_store p) !! Z.to_nat slot = Some sl ->
  slot_state sl <> Free -> slot_state sl' = Policy ->
  run_post p slot (orchestrate (slot_txn sl') ph (pl_env p))
    (run_policy_loop now (with_store p (put_slot (pl_store p) (Z.to_nat slot) sl')) (Z.to_nat slot) ph).
Proof.
  intros Hz Hwf Hr Hi Hf Hs.
  destruct (with_slot_busy _ _ sl sl' Hwf Hi Hf ltac:(congruence)) as (Hwf' & Hu & _).
  pose proof (run_policy_loop_post now (with_store p (put_slot (pl_store p) (Z.to_nat slot) sl')) slot ph sl'
    Hz Hwf' Hr ltac:(apply list_lookup_insert_eq; by eapply lookup_lt_Some) Hs) as Hp. unfold run_post in *. cbn [pl_env with_store] in *.
  destruct (orchestrate _ _ _) as [[[o|ph'] t] e]; cbn [pl_store pl_routes pl_sent with_store] in Hp; by rewrite Hu in Hp.
Qed.

Lemma work_run_post now (p : Plane E) w t ph :
  0 <= work_slot w -> store_wf (pl_store p) [] -> pl_routes p <> [] -> ready now p w = Some (t, ph) ->
  run_post p (work_slot w) (orchestrate t ph (pl_env p)) (policy_work now p w).
Proof.
  intros Hz Hwf Hr Hrdy. unfold ready in Hrdy. destruct (slot_mut _ _) as [sl|] eqn:Ei; [|done].
  destruct w as [slot|r|slot]; simpl in *; case_decide as Hs; simplify_eq;
    unfold process_new, process_resume, process_lookup_resume, transition, with_slot, with_slot_exclusive;
    rewrite Ei; [rewrite decide_True by done|rewrite decide_True by done|rewrite decide_True by done].
  - refine (run_from_slot now p slot None sl (sl <| slot_state := Policy |>) Hz Hwf Hr Ei _ eq_refl). congruence.
  - refine (run_from_slot now p (ir_slot_id r) (Some Lookup) sl (sl <| slot_state := Policy |>
      <| slot_txn := apply_wait_completion (instant_now now) (slot_txn sl) (ir_completion r) |>) Hz Hwf Hr Ei _ eq_refl).
    congruence.
  - refine (run_from_slot now p slot (Some Lookup) sl (sl <| slot_state := Policy |>) Hz Hwf Hr Ei _ eq_refl). congruence.
Qed.

(** C11: A policy worker that takes an item for a slot in the state the item expects
    runs the orchestrator on the slot's transaction - a resumed one with the
    upstream result applied - and then does one of three things. A suspended run leaves
    the slot taken, parked in [IoWait] with the transaction of the run, and sends
    nothing. A response is sent to the reply route of the slot, if it has one, which is
    then gone; the slot is free again. A dropped query sends nothing and frees the slot,
    but its reply route stays. The pool of slots stays in order throughout. *)
Theorem policy_work_outcome (now : Clock) (p : Plane E) (w : PolicyWork) (t : Transaction) (ph : option Phase) :
  0 <= work_slot w -> store_wf (pl_store p) [] -> pl_routes p <> [] -> ready now p w = Some (t, ph) ->
  run_post p (work_slot w) (orchestrate t ph (pl_env p)) (policy_work now p w).
Proof. apply work_run_post. Qed.

Lemma with_store_same (p : Plane E) : with_store p (pl_store p) = p.
Proof. by destruct p. Qed.

Lemma put_slot_same s i sl : slots s !! i = Some sl -> put_slot s i sl = s.
Proof. intros Hi. unfold put_slot. rewrite list_insert_id by done. by destruct s. Qed.

(** A resume for a slot that no longer waits changes nothing. *)
Lemma stale_resume_ignored now (p : Plane E) w :
  (forall slot, w <> New slot) -> ready now p w = None -> policy_work now p w = p.
Proof.
  unfold ready. intros Hn Hrdy. destruct w as [slot|r|slot]; [by destruct (Hn slot)|..]; simpl in *;
    unfold process_resume, process_lookup_resume, transition, with_slot, with_slot_exclusive;
    (destruct (slot_mut _ _) as [sl|] eqn:Ei; [case_decide; [done|]|]); try apply with_store_same.
  rewrite put_slot_same by done. apply with_store_same.
Qed.

(** *** Replies and routes over any sequence of work *)

Definition policy_works (p : Plane E) (ws : list (Clock * PolicyWork)) : Plane E :=
  foldl (fun p w => policy_work w.1 p w.2) p ws.

(** One step sends nothing and leaves the routes, or sends one reply along a route it takes. *)
Definition sends (p p' : Plane E) : Prop :=
  (pl_sent p' = pl_sent p /\ pl_routes p' = pl_routes p) \/
  exists slot wire, pl_routes p' <> [] /\
    pl_sent p' = pl_sent p ++ match route_of (pl_routes p) slot with Some tg => [(tg, wire)] | None => [] end /\
    forall j, route_of (pl_routes p') j = if decide (slot = j) then None else route_of (pl_routes p) j.

Lemma run_sends now (p : Plane E) i ph : pl_routes p <> [] -> sends p (run_policy_loop now p i ph).
Proof.
  intros Hr. unfold Dataplane.run_policy_loop, policy_run. destruct (slot_mut _ _) as [sl|]; [|by left].
  case_decide; [|by left]. destruct (match ph with Some _ => _ | None => _ end) as [[step t] e].
  destruct step as [[wire|]|ph']; [right|by left|by left].
  exists (Z.of_nat i), wire. unfold deliver_reply. cbn [pl_routes pl_sent].
  pose proof (route_take_not_nil (pl_routes p) (Z.of_nat i) Hr) as Hn.
  pose proof (fun j => route_of_take (pl_routes p) (Z.of_nat i) j Hr) as Ht.
  destruct (route_take _ _) as [tg rs]. simpl in *. split_and!; [done| |intros j; apply Ht].
  by rewrite <- (proj1 (Ht 0)).
Qed.

Lemma work_sends now (p : Plane E) w : pl_routes p <> [] -> sends p (policy_work now p w).
Proof.
  intros Hr. destruct w as [slot|r|slot]; simpl; unfold process_new, process_resume, process_lookup_resume.
  - destruct (transition _ _ _ _) as [[u|x] s]; [by apply (run_sends now (with_store p s))|by left].
  - destruct (with_slot_exclusive _ _ _) as [[[]|x] s]; [by apply (run_sends now (with_store p s))|by left|by left].
  - destruct (transition _ _ _ _) as [[u|x] s]; [by apply (run_sends now (with_store p s))|by left].
Qed.

(** C12: Whatever work the policy workers do, in whatever order and however often: every
    reply they send goes along a reply route of a slot, and no route is used for two
    replies. So a client gets at most one answer to a query. *)
Theorem one_reply_per_route (p : Plane E) (ws : list (Clock * PolicyWork)) :
  pl_routes p <> [] ->
  exists slots new, NoDup slots /\ pl_sent (policy_works p ws) = pl_sent p ++ new /\
    Forall2 (fun slot reply => route_of (pl_routes p) slot = Some reply.1) slots new.
Proof.
  revert p. induction ws as [|[now w] ws IH]; intros p Hr; simpl.
  - exists [], []. split_and!; [constructor|by rewrite app_nil_r|constructor].
  - destruct (work_sends now p w Hr) as [[Hs Hro]|(slot & wire & Hr' & Hs & Hro)].
    + destruct (IH (policy_work now p w) ltac:(congruence)) as (ss & new & Hnd & Hn & Hf).
      exists ss, new. by rewrite Hs, Hro in *.
    + destruct (IH (policy_work now p w) Hr') as (ss & new & Hnd & Hn & Hf). rewrite Hn, Hs, <- app_assoc.
      assert (slot ∉ ss) as Hni.
      { intros Hin. apply list_elem_of_lookup_1 in Hin as [k Hk].
        destruct (Forall2_lookup_l _ _ _ _ _ Hf Hk) as (rp & _ & Hrp). by rewrite Hro, decide_True in Hrp. }
      assert (Forall2 (fun slot reply => route_of (pl_routes p) slot = Some reply.1) ss new) as Hf'.
      { eapply Forall2_impl; [exact Hf|]. intros s rp. cbn. rewrite Hro. by case_decide. }
      destruct (route_of (pl_routes p) slot) as [tg|] eqn:Et.
      * exists (slot :: ss), ((tg, wire) :: new). split_and!; [by constructor|done|by constructor].
      * by exists ss, new.
Qed.
End WorkerFacts.

(** ** The limit of a pool *)

(** Finishing a transaction gives back a place of its pool, whether or not the
    transaction took one. A new query whose run ends with the counts as they were - answered
    from a cache, or refused because the pool is at its limit - still lowers the count
    of its pool by one, and with it the number of forwards the limit knows of. *)
Theorem finished_run_frees_a_place (run : Transaction -> PoolInflight -> OrchestratorRun * Transaction * PoolInflight)
    (resume : Transaction -> PoolInflight -> Phase -> OrchestratorRun * Transaction * PoolInflight)
    (now : Clock) (p : Plane PoolInflight) (slot : Z) (t t' : Transaction) (o : RunOutcome) (pool : string) (limit c : Z) :
  0 <= slot -> store_wf (pl_store p) [] -> pl_routes p <> [] -> ready now p (New slot) = Some (t, None) ->
  run t (pl_env p) = (Finished o, t', pl_env p) -> selected_pool t' = Some pool ->
  limits (pl_env p) !! pool = Some limit -> active (pl_env p) !! pool = Some c ->
  active (pl_env (policy_work run resume (fun name e => inflight_release e name) now p (New slot))) !! pool
  = Some (sat_sub c 1).
Proof.
  intros Hz Hwf Hr Hrdy Hrun Hp Hl Hc.
  pose proof (work_run_post run resume (fun name e => inflight_release e name) now p (New slot) t None Hz Hwf Hr Hrdy) as H.
  unfold orchestrate in H. rewrite Hrun in H. destruct H as (_ & _ & _ & -> & _).
  unfold pool_freed, inflight_release. rewrite Hp, Hl, Hc. apply lookup_insert_eq.
Qed.

(** ** One query in one slot *)

Section SyncFacts.
Context {E : Type}.
Context (run : Transaction -> E -> RunOutcome * Transaction * E).

(** What a run in a slot of the pool does, with [sl] the slot as [acquire] left it, in [Policy]. *)
Definition slot_run (s : TxnStore) (e : E) (setup : TxnSlot -> TxnSlot)
    (r : result (option (list Z)) AcquireError * TxnStore * E) (sl : TxnSlot) : Prop :=
  let '(o, _, e') := run (slot_txn (setup sl)) e in
  exists s', r = (Ok (match o with Orchestrator.Response w => Some w | Dropped => None end), s', e') /\
    store_wf s' [] /\ used s' = used s.

Lemma run_in_slot_post now s e setup :
  store_wf s [] -> (forall sl, slot_state (setup sl) = slot_state sl) ->
  exists r, run_in_slot run now s e setup = Some r /\
    ((exists sl, slot_state sl = Policy /\ slot_run s e setup r sl) \/
     (r = (Err Exhausted, s <| exhaustion_total := wrap 64 (exhaustion_total s + 1) |>, e) /\
      Z.of_nat (size (used s)) = TxnStore.capacity s)).
Proof.
  intros Hwf Hset. unfold run_in_slot.
  destruct (acquire_spec now s Hwf) as [(i & s1 & sl & -> & Hwf1 & Hni & Hu & Hi & _)|[-> Hfull]].
  - unfold transition, with_slot at 1, slot_mut. rewrite Hi, decide_True by done.
    set (sl1 := (slot_hand_out i sl) <| slot_state := Policy |>).
    destruct (with_slot_busy s1 i _ sl1 Hwf1 Hi ltac:(done) ltac:(done)) as (Hwf2 & Hu2 & _).
    assert (slots (put_slot s1 i sl1) !! i = Some sl1) as Hi2
      by (apply list_lookup_insert_eq; by eapply lookup_lt_Some).
    unfold with_slot, slot_mut. rewrite Hi2, decide_True by done. unfold slot_run.
    destruct (run (slot_txn (setup sl1)) e) as [[o t] e'] eqn:Er.
    set (sl2 := (setup sl1) <| slot_txn := t |>).
    assert (slot_state sl2 <> Free) as Hb by (subst sl2; cbn; by rewrite Hset).
    destruct (with_slot_busy _ i sl1 sl2 Hwf2 Hi2 ltac:(done) Hb) as (Hwf3 & Hu3 & _).
    pose proof (release_active_spec now _ i Hwf3) as Hrel.
    assert (slots (put_slot (put_slot s1 i sl1) i sl2) !! i = Some sl2) as Hi3
      by (apply list_lookup_insert_eq; by eapply lookup_lt_Some).
    rewrite Hi3 in Hrel. destruct Hrel as (s' & Hrel & Hwf' & Hu'). rewrite Hrel.
    eexists. split; [reflexivity|]. left. exists sl1. split; [done|]. rewrite Er. exists s'.
    split; [by destruct o|]. split; [done|]. rewrite Hu', Hu3, Hu2, Hu. set_solver.
  - eexists. split; [reflexivity|]. by right.
Qed.

(** A query of the synchronous runtime gets a slot, runs in it, and gives it back:
    unless all the slots are taken, the caller receives exactly the response of
    the orchestrator on the transaction that was set up, or nothing for a dropped
    query, and afterwards the same slots are taken as before. *)
Theorem run_in_slot_returns_slot (now : Clock) (s : TxnStore) (e : E) (setup : TxnSlot -> TxnSlot) :
  store_wf s [] -> (forall sl, slot_state (setup sl) = slot_state sl) ->
  exists r, run_in_slot run now s e setup = Some r /\
    ((exists sl, slot_state sl = Policy /\ slot_run s e setup r sl) \/
     (r = (Err Exhausted, s <| exhaustion_total := wrap 64 (exhaustion_total s + 1) |>, e) /\
      Z.of_nat (size (used s)) = TxnStore.capacity s)).
Proof. apply run_in_slot_post. Qed.
End SyncFacts.

(** ** Draining *)

Lemma active_matching_zero pred s :
  store_wf s [] ->
  (active_slots_matching pred s = 0 <-> forall i sl, slots s !! i = Some sl -> slot_state sl <> Free -> pred sl = false).
Proof.
  intros Hwf. unfold active_slots_matching.
  set (l := filter (fun sl => slot_state sl <> Free /\ pred sl = true) (slots s)).
  assert (fits 32 (zlen l)) as Hfit.
  { pose proof (length_filter (fun sl => slot_state sl <> Free /\ pred sl = true) (slots s)).
    pose proof (TxnStore.wf_capacity _ _ Hwf). pose proof (wf_slots _ _ Hwf). unfold fits, zlen, u32_max in *. subst l. lia. }
  rewrite wrap_small by done. unfold zlen. split.
  - intros Hl i sl Hi Hf. destruct l as [|x l'] eqn:El; [|simpl in Hl; lia].
    destruct (pred sl) eqn:Ep; [|done]. exfalso. apply (not_elem_of_nil sl). rewrite <- El. unfold l.
    apply list_elem_of_filter. split; [done|]. by eapply list_elem_of_lookup_2.
  - intros Hall. destruct l as [|x l'] eqn:El; [done|]. exfalso.
    assert (x ∈ l) as Hx by (rewrite El; left). unfold l in Hx.
    apply list_elem_of_filter in Hx as [[Hf Hp] [i Hi]%list_elem_of_lookup_1]. rewrite (Hall i x Hi Hf) in Hp. done.
Qed.

Lemma active_matching_nonneg pred s : 0 <= active_slots_matching pred s.
Proof. apply wrap_fits. done. Qed.

Section DrainFacts.
Context {N : Type}.
Context (pool_of : N -> TxnStore) (cancelled : N -> bool) (clock : N -> Z) (sleep : Z -> N -> N).
(** [thread::sleep] sleeps for at least the time it is given. *)
Context (sleep_enough : forall d n, 0 <= d -> clock n + d <= clock (sleep d n)).
Context (pool_wf : forall n, store_wf (pool_of n) []).

(** No slot in use matches the filter. *)
Definition none_left (f : DrainFilter) (s : TxnStore) : Prop :=
  forall i sl, slots s !! i = Some sl -> slot_state sl <> Free -> drain_matches f sl = false.

(** What the outcome says of the state in which the drain ends. *)
Definition drain_post (f : DrainFilter) (deadline : Z) (o : DrainOutcome) (n : N) : Prop :=
  let remaining := active_slots_matching (drain_matches f) (pool_of n) in
  match o with
  | Drained => none_left f (pool_of n)
  | TimedOut r => r = remaining /\ ~ none_left f (pool_of n) /\ cancelled n = false /\ deadline <= clock n
  | Aborted r => r = remaining /\ ~ none_left f (pool_of n) /\ cancelled n = true
  end.

Lemma drain_loop_ends f deadline fuel : forall n,
  deadline - clock n <= DRAIN_POLL_INTERVAL * Z.of_nat fuel ->
  exists o n', drain_loop pool_of cancelled clock sleep (S fuel) f deadline n = Some (o, n') /\ drain_post f deadline o n'.
Proof.
  induction fuel as [|fuel IH]; intros n Ht; cbn [drain_loop];
    pose proof (active_matching_zero (drain_matches f) (pool_of n) (pool_wf n)) as Hz;
    (destruct (Z.eqb_spec (active_slots_matching (drain_matches f) (pool_of n)) 0) as [E|E];
      [exists Drained, n; split; [done|exact (proj1 Hz E)]|]);
    assert (~ none_left f (pool_of n)) as Hnl by (intros Hc; by apply E, Hz);
    (destruct (cancelled n) eqn:Ec; [by exists (Aborted (active_slots_matching (drain_matches f) (pool_of n))), n|]);
    (destruct (Z.leb_spec deadline (clock n)) as [Hd|Hd];
      [by exists (TimedOut (active_slots_matching (drain_matches f) (pool_of n))), n|]);
    unfold DRAIN_POLL_INTERVAL in *; [lia|].
  apply IH. pose proof (sleep_enough (Z.min 10000000 (deadline - clock n)) n). lia.
Qed.

(** Draining ends, whatever the other threads do meanwhile: one look at the pool
    per poll interval of the timeout and two more are enough. It reports success only in
    a state where no slot in use matches the filter, a timeout only once the
    deadline has passed, an abort only when cancelled, and with these two the number of
    matching slots still in use, which is positive. *)
Theorem drain_ends (timeout : Z) (filter : option DrainFilter) (n : N) (fuel : nat) :
  0 <= timeout -> timeout / DRAIN_POLL_INTERVAL + 2 <= Z.of_nat fuel ->
  exists o n', drain_slots pool_of cancelled clock sleep fuel timeout filter n = Some (o, n') /\
    drain_post (default {| df_protocol := None |} filter) (clock n + timeout) o n' /\
    (forall r, o = TimedOut r \/ o = Aborted r -> 0 < r).
Proof.
  intros Ht Hf. unfold drain_slots. destruct fuel as [|fuel]; [pose proof (Z.div_pos timeout DRAIN_POLL_INTERVAL Ht ltac:(done)); lia|].
  destruct (drain_loop_ends (default {| df_protocol := None |} filter) (clock n + timeout) fuel n) as (o & n' & E & Hp).
  { unfold DRAIN_POLL_INTERVAL in *. pose proof (Z.div_mod timeout 10000000 ltac:(done)).
    pose proof (Z.mod_pos_bound timeout 10000000 ltac:(done)). lia. }
  exists o, n'. split_and!; [done..|]. intros r Hr.
  assert (r = active_slots_matching (drain_matches (default {| df_protocol := None |} filter)) (pool_of n') /\
    ~ none_left (default {| df_protocol := None |} filter) (pool_of n')) as [-> Hn].
  { destruct Hr; subst o; destruct Hp as (? & ? & ?); done. }
  pose proof (active_matching_zero (drain_matches (default {| df_protocol := None |} filter)) _ (pool_wf n')) as Hz.
  pose proof (active_matching_nonneg (drain_matches (default {| df_protocol := None |} filter)) (pool_of n')) as Hw.
  apply Z.le_neq. split; [done|]. intros E0. exact (Hn (proj1 Hz (eq_sym E0))).
Qed.
End DrainFacts.

(** ** Witnesses *)

Definition tick : Clock := {| instant_now := 0; system_now := 0 |}.

(** A pool of one slot, which is in state [st]. *)
Definition one_slot (st : SlotState) : TxnStore :=
  MkStore [(new_free tick) <| slot_state := st |> <| slot_txn := (placeholder_txn tick) <| selected_pool := Some "p" |> |>]
    [] 1 1 0.

Lemma one_slot_wf st : st <> Free -> store_wf (one_slot st) [].
Proof.
  intros Hst. split; cbn; [unfold u32_max; lia|lia|unfold zlen; cbn; lia|constructor| |].
  - intros i. split; [by intros ?%elem_of_nil|]. intros (sl & [-> <-]%list_lookup_singleton_Some & Hf). by destruct Hst.
  - intros i sl [-> <-]%list_lookup_singleton_Some Hf. by destruct Hst.
Qed.

Definition sample_plane {E} (e : E) : Plane E :=
  MkPlane E (one_slot Ingress) (route_insert (routes_with_shards 4) 0 (ReplyUdp 1 sample_upstream)) e [].

Lemma sample_routes : route_insert (routes_with_shards 4) 0 (ReplyUdp 1 sample_upstream) <> [].
Proof. by apply route_insert_not_nil. Qed.

(** An orchestrator that answers at once. *)
Definition answer {E} (t : Transaction) (e : E) : OrchestratorRun * Transaction * E :=
  (Finished (Orchestrator.Response [1; 2]), t, e).

Lemma policy_work_outcome_witness :
  run_post (fun _ e => e) (sample_plane tt) 0
    (answer ((placeholder_txn tick) <| selected_pool := Some "p" |>) tt)
    (policy_work answer (fun t e _ => answer t e) (fun _ e => e) tick (sample_plane tt) (New 0)).
Proof.
  apply (policy_work_outcome answer (fun t e _ => answer t e) (fun _ e => e) tick (sample_plane tt) (New 0)
    ((placeholder_txn tick) <| selected_pool := Some "p" |>) None); [done|by apply one_slot_wf|apply sample_routes|reflexivity].
Defined.

Lemma one_reply_per_route_witness :
  exists slots new, NoDup slots /\
    pl_sent (policy_works answer (fun t e _ => answer t e) (fun _ e => e) (sample_plane tt) [(tick, New 0); (tick, New 0)])
    = [] ++ new /\
    Forall2 (fun slot reply => route_of (pl_routes (sample_plane tt)) slot = Some reply.1) slots new.
Proof.
  apply (one_reply_per_route answer (fun t e _ => answer t e) (fun _ e => e) (sample_plane tt)
    [(tick, New 0); (tick, New 0)]). apply sample_routes.
Defined.

Lemma finished_run_frees_a_place_witness :
  active (pl_env (policy_work answer (fun t e _ => answer t e) (fun name e => inflight_release e name) tick
    (sample_plane (MkInflight {[ "p" := 1 ]} {[ "p" := 1 ]})) (New 0))) !! "p" = Some 0.
Proof.
  apply (finished_run_frees_a_place answer (fun t e _ => answer t e) tick
    (sample_plane (MkInflight {[ "p" := 1 ]} {[ "p" := 1 ]})) 0
    ((placeholder_txn tick) <| selected_pool := Some "p" |>) ((placeholder_txn tick) <| selected_pool := Some "p" |>)
    (Orchestrator.Response [1; 2]) "p" 1 1);
    [done|by apply one_slot_wf|apply sample_routes|reflexivity|reflexivity|reflexivity|apply lookup_singleton_eq|apply lookup_singleton_eq].
Defined.

Lemma run_in_slot_returns_slot_witness :
  let run (t : Transaction) (e : unit) := (Orchestrator.Response (query_wire t), t, e) in
  let setup sl := sl <| slot_txn := (placeholder_txn tick) <| query_wire := [7] |> |> in
  let s := MkStore [] [] 1 1 0 in
  exists r, run_in_slot run tick s tt setup = Some r /\
    ((exists sl, slot_state sl = Policy /\ slot_run run s tt setup r sl) \/
     (r = (Err Exhausted, s <| exhaustion_total := wrap 64 (exhaustion_total s + 1) |>, tt) /\
      Z.of_nat (size (used s)) = TxnStore.capacity s)).
Proof.
  apply (run_in_slot_returns_slot (fun (t : Transaction) (e : unit) => (Orchestrator.Response (query_wire t), t, e))
    tick (MkStore [] [] 1 1 0) tt (fun sl => sl <| slot_txn := (placeholder_txn tick) <| query_wire := [7] |> |>));
    [|reflexivity].
  apply (store_wf_new 1 1); [reflexivity|unfold u32_max; lia].
Defined.

Lemma drain_ends_witness :
  exists o n', drain_slots (fun _ : Z => one_slot IoWait) (fun _ => false) (fun n => n) (fun d n => n + d) 4
      20000000 None 5 = Some (o, n') /\
    drain_post (fun _ : Z => one_slot IoWait) (fun _ => false) (fun n => n) {| df_protocol := None |} (5 + 20000000) o n' /\
    (forall r, o = TimedOut r \/ o = Aborted r -> 0 < r).
Proof.
  apply (drain_ends (fun _ : Z => one_slot IoWait) (fun _ => false) (fun n => n) (fun d n => n + d)
    (fun d n _ => Z.le_refl (n + d)) (fun _ => one_slot_wf IoWait ltac:(done)) 20000000 None 5 4); [lia|].
  unfold DRAIN_POLL_INTERVAL. vm_compute. discriminate.
Defined.
