(* ===== verification/Ingress.v ===== *)
(** * Ingress: what the listeners do with a datagram or a connection

    conduit-dataplane/src: the loops of runtime/split_io/ingress.rs (asynchronous) and of
    listener/udp.rs and listener/tcp.rs (synchronous), one definition per turn of a
    loop: the two tiers of the ACL gate, the structural parse, the slot, the
    reply route and the queue, or the run in the slot. A socket or channel is a number; the
    bytes of a connection are what arrives before it ends or times out. A snapshot is its ACL
    configuration and its generation. *)

From stdpp Require Import strings gmap.
From Stdlib Require Import String.
From S2P Require Import Prelude DnsWire Transaction TxnStore Message Send CacheServe Orchestrator Acl PolicyQueue Dataplane.

#[local] Open Scope string_scope.
#[local] Open Scope list_scope.
#[local] Open Scope Z_scope.

Definition RCODE_REFUSED : Z := 5.

Definition listener_metric_label (ln : Listener) : string := default (ln_address ln) (nonempty (ln_name ln)).

(** ** Frames of a TCP stream *)

(** [read_exact]: the bytes and what is left of the stream. *)
Definition read_exact (n : Z) (stream : list Z) : option (list Z * list Z) :=
  if zlen stream <? n then None else Some (take (Z.to_nat n) stream, drop (Z.to_nat n) stream).

Definition tcp_read (stream : list Z) : option (list Z) :=
  let! r := read_exact 2 stream in
  let len := match r.1 with [a; b] => Z.lor (Z.shiftl a 8) b | _ => 0 end in
  if (len =? 0) || (65535 <? len) then None
  else let! r := read_exact len r.2 in Some r.1.

Definition tcp_frame (wire : list Z) : list Z := be16 (wrap 16 (zlen wire)) ++ wire.

(** ** Admission *)

Inductive Verdict :=
  | Discard
  | RefuseWith (parsed : ParsedQuery)
  | AdmitWith (parsed : ParsedQuery) (tag : option string).

Section Ingress.
Context `{DnsCodec}.
Context (lookup_ip : string -> IpAddr -> option string).

(** The structural parse and the full tier of the gate; [None] is a panic of the gate. *)
Definition admission (g : AclGate) (cfg : AclConfig) (generation : Z) (ip : IpAddr) (bytes : list Z)
    : option (Verdict * AclGate) :=
  match structural_parse bytes with
  | Err _ => Some (Discard, g)
  | Ok parsed =>
      let! r := decide_full lookup_ip g cfg generation ip in
      Some (match r.1 with
            | GateAdmit => AdmitWith parsed None
            | AdmitTagged tag => AdmitWith parsed (Some tag)
            | GateDrop => Discard
            | GateRefuse => RefuseWith parsed
            end, r.2)
  end.

(** All three for a datagram: the early tier comes before the parse. *)
Definition udp_verdict (g : AclGate) (cfg : AclConfig) (generation : Z) (ip : IpAddr) (bytes : list Z)
    : option (Verdict * AclGate) :=
  let! r := decide_preadmission lookup_ip g cfg generation ip in
  match r.1 with
  | GateDrop => Some (Discard, r.2)
  | _ => admission r.2 cfg generation ip bytes
  end.

(** The transaction of an admitted query. *)
Definition query_txn (now : Clock) (id : Z) (peer : SocketAddr) (proto : ClientProtocol) (label : string) (index : Z)
    (bytes : list Z) (parsed : ParsedQuery) (acl_tag : option string) : Transaction :=
  let t := (Transaction_new id peer proto now) <| global_query_index := index |>
             <| listener_label := Some label |> <| query_wire := bytes |> in
  let t := apply_parsed_query t parsed in
  match acl_tag with Some tag => t <| tags := set_bool (tags t) tag true |> | None => t end.

(** ** The asynchronous runtime *)

(** [None] is a panic of [acquire]. *)
Definition acquire_ingress_slot (now : Clock) (s : TxnStore) (peer : SocketAddr) (proto : ClientProtocol)
    (label : string) (index : Z) (bytes : list Z) (parsed : ParsedQuery) (acl_tag : option string)
    : option (result nat AcquireError * TxnStore) :=
  let! r := acquire now s in
  match r with
  | (Err x, s) => Some (Err x, s)
  | (Ok i, s) =>
      match with_slot s i Ingress (fun sl =>
              let sl := sl <| slot_txn := query_txn now (Z.of_nat i) peer proto label index bytes parsed acl_tag |>
                           <| slot_pre_parsed := true |> in
              (Ok tt, match set_from_slice (slot_query sl) bytes with
                      | Ok b => sl <| slot_query := b |>
                      | Err _ => sl <| slot_response_overflow := Some bytes |>
                      end)) with
      | (Ok _, s) => Some (Ok i, s)
      | (Err _, s) => Some (Err Exhausted, (release_active now s i).2)
      end
  end.

Definition send_reply {E} (p : Plane E) (target : ReplyTarget) (wire : list Z) : Plane E :=
  MkPlane E (pl_store p) (pl_routes p) (pl_env p) (pl_sent p ++ [(target, wire)]).

(** The slot, the route and the queue: the slot taken, if there was one. *)
Definition enqueue {E} (now : Clock) (p : Plane E) (q : PolicyQueue) (target : ReplyTarget) (peer : SocketAddr)
    (proto : ClientProtocol) (label : string) (index : Z) (bytes : list Z) (parsed : ParsedQuery) (tag : option string)
    : option (option nat * Plane E * PolicyQueue) :=
  let! r := acquire_ingress_slot now (pl_store p) peer proto label index bytes parsed tag in
  match r with
  | (Err _, s) => Some (None, with_store p s, q)
  | (Ok i, s) =>
      Some (Some i, MkPlane E s (route_insert (pl_routes p) (Z.of_nat i) target) (pl_env p) (pl_sent p),
            queue_push q (New (Z.of_nat i)))
  end.

(** One datagram of [run_udp_ingress]: the gate, the query counter, the plane and the
    queue afterwards. The socket's buffer takes 4096 bytes. *)
Definition split_udp {E} (now : Clock) (cfg : AclConfig) (generation : Z) (label : string) (socket : Z)
    (g : AclGate) (counter : Z) (p : Plane E) (q : PolicyQueue) (datagram : list Z) (peer : SocketAddr)
    : option (AclGate * Z * Plane E * PolicyQueue) :=
  let bytes := take 4096 datagram in
  let index := wrap 64 (counter + 1) in
  let! v := udp_verdict g cfg generation (sock_ip peer) bytes in
  match v.1 with
  | Discard => Some (v.2, index, p, q)
  | RefuseWith parsed =>
      let wire := (build_error_response (pq_dns_id parsed) RCODE_REFUSED bytes (pq_client_udp_payload_size parsed)).1.1 in
      Some (v.2, index, send_reply p (ReplyUdp socket peer) wire, q)
  | AdmitWith parsed tag =>
      let! r := enqueue now p q (ReplyUdp socket peer) peer Udp label index bytes parsed tag in
      Some (v.2, index, r.1.2, r.2)
  end.

(** What a turn of the TCP loop does with the connection. *)
Inductive TcpTurn := Closed | Wrote (bytes : list Z) | Waiting (slot : nat).

(** One connection of [run_tcp_ingress], up to the wait for the reply on [channel]. *)
Definition split_tcp {E} (now : Clock) (cfg : AclConfig) (generation : Z) (label : string) (channel : Z)
    (g : AclGate) (counter : Z) (p : Plane E) (q : PolicyQueue) (stream : list Z) (peer : SocketAddr)
    : option (TcpTurn * AclGate * Z * Plane E * PolicyQueue) :=
  let! pre := decide_preadmission lookup_ip g cfg generation (sock_ip peer) in
  match pre.1 with
  | GateDrop => Some (Closed, pre.2, counter, p, q)
  | _ =>
      match tcp_read stream with
      | None => Some (Closed, pre.2, counter, p, q)
      | Some buf =>
          let index := wrap 64 (counter + 1) in
          let! v := admission pre.2 cfg generation (sock_ip peer) buf in
          match v.1 with
          | Discard => Some (Closed, v.2, index, p, q)
          | RefuseWith parsed =>
              let wire := (build_error_response (pq_dns_id parsed) RCODE_REFUSED buf None).1.1 in
              Some (Wrote (tcp_frame wire), v.2, index, p, q)
          | AdmitWith parsed tag =>
              let! r := enqueue now p q (ReplyTcp channel) peer Tcp label index buf parsed tag in
              Some (match r.1.1 with Some i => Waiting i | None => Closed end, v.2, index, r.1.2, r.2)
          end
      end
  end.

(** The end of the turn: the reply from the channel, if it came within 30 s. *)
Definition tcp_finish (reply : option (list Z)) : TcpTurn :=
  match reply with Some wire => Wrote (tcp_frame wire) | None => Closed end.

(** ** The synchronous runtime *)

Section Sync.
Context {E : Type}.
Context (run : Transaction -> E -> RunOutcome * Transaction * E).

(** What a worker keeps between turns and what it shares. *)
Record SyncState := MkSync {
  sy_gate : AclGate;
  sy_counter : Z;
  sy_next_id : Z;
  sy_store : TxnStore;
  sy_env : E;
}.

(** One datagram of the UDP [run_worker]: the datagram sent back, if any. *)
Definition udp_worker (now : Clock) (cfg : AclConfig) (generation : Z) (label : string) (s : SyncState)
    (datagram : list Z) (peer : SocketAddr) : option (option (list Z) * SyncState) :=
  let bytes := take 4096 datagram in
  let index := wrap 64 (sy_counter s + 1) in
  let next := wrap 64 (sy_next_id s + 1) in
  let! v := udp_verdict (sy_gate s) cfg generation (sock_ip peer) bytes in
  match v.1 with
  | Discard => Some (None, MkSync v.2 index next (sy_store s) (sy_env s))
  | RefuseWith parsed =>
      let wire := (build_error_response (pq_dns_id parsed) RCODE_REFUSED bytes (pq_client_udp_payload_size parsed)).1.1 in
      Some (Some wire, MkSync v.2 index next (sy_store s) (sy_env s))
  | AdmitWith parsed tag =>
      let! r := run_in_slot run now (sy_store s) (sy_env s) (fun sl =>
        let sl := sl <| slot_txn := query_txn now (sy_next_id s) peer Udp label index bytes parsed tag |>
                     <| slot_pre_parsed := true |> in
        match set_from_slice (slot_query sl) bytes with Ok b => sl <| slot_query := b |> | Err _ => sl end) in
      let '(wire, store, e) := r in
      Some (match wire with Ok w => w | Err _ => None end, MkSync v.2 index next store e)
  end.

(** One connection of the TCP [run_worker]: the bytes written to it. *)
Definition tcp_worker (now : Clock) (cfg : AclConfig) (generation : Z) (label : string) (s : SyncState)
    (stream : list Z) (peer : SocketAddr) : option (option (list Z) * SyncState) :=
  let next := wrap 64 (sy_next_id s + 1) in
  let! pre := decide_preadmission lookup_ip (sy_gate s) cfg generation (sock_ip peer) in
  match pre.1 with
  | GateDrop => Some (None, MkSync pre.2 (sy_counter s) next (sy_store s) (sy_env s))
  | _ =>
      match tcp_read stream with
      | None => Some (None, MkSync pre.2 (sy_counter s) (sy_next_id s) (sy_store s) (sy_env s))
      | Some buf =>
          let index := wrap 64 (sy_counter s + 1) in
          let! v := admission pre.2 cfg generation (sock_ip peer) buf in
          match v.1 with
          | Discard => Some (None, MkSync v.2 index next (sy_store s) (sy_env s))
          | RefuseWith parsed =>
              let wire := (build_error_response (pq_dns_id parsed) RCODE_REFUSED buf None).1.1 in
              Some (Some (tcp_frame wire), MkSync v.2 index next (sy_store s) (sy_env s))
          | AdmitWith parsed tag =>
              let! r := run_in_slot run now (sy_store s) (sy_env s) (fun sl =>
                let sl := sl <| slot_txn := query_txn now (sy_next_id s) peer Tcp label index buf parsed tag |>
                             <| slot_pre_parsed := true |> in
                match set_from_slice (slot_query sl) buf with
                | Ok b => sl <| slot_query := b |>
                | Err _ => sl <| slot_response_overflow := Some buf |>
                end) in
              let '(wire, store, e) := r in
              Some (match wire with Ok (Some w) => Some (tcp_frame w) | _ => None end, MkSync v.2 index next store e)
          end
      end
  end.
End Sync.
End Ingress.

(** ** Facts *)

Section Facts.
Context `{DnsCodec}.
Context (lookup_ip : string -> IpAddr -> option string).

(** The verdict of a policy decision on a parsed query. *)
Definition verdict_of (parsed : result ParsedQuery ParseRejectReason) (d : AclDecision) : Verdict :=
  match parsed with
  | Err _ => Discard
  | Ok q => match d with
            | Admit => AdmitWith q None
            | Tag tag => AdmitWith q (Some tag)
            | AclDrop => Discard
            | Refuse => RefuseWith q
            end
  end.

(** The decision of the ACL in force at a gate: that of the first rule that covers the client. *)
Definition gate_policy (g : AclGate) (ip : IpAddr) : AclDecision :=
  from_option (fun p => first_match lookup_ip p ip) Admit (gate_compiled g).

Lemma verdict_policy (g g' : AclGate) cfg gen ip bytes : refresh g cfg gen = Some g' ->
  udp_verdict lookup_ip g cfg gen ip bytes = Some (verdict_of (structural_parse bytes) (gate_policy g' ip), g').
Proof.
  intros Hg. unfold udp_verdict, decide_preadmission, admission, decide_full. rewrite Hg. simpl.
  rewrite (refresh_twice _ _ _ _ Hg).
  pose proof (gate_full_first_match lookup_ip g' ip) as Hf. fold (gate_policy g' ip) in Hf. simpl.
  destruct (gate_preadmission_cases lookup_ip g' ip) as [-> | [-> Hd]];
    destruct (structural_parse bytes) as [q|x]; cbn; rewrite ?Hf in *; destruct (gate_policy g' ip); done.
Qed.

(** For a datagram, the early tier, the parse and the full tier together decide what
    the policy decides: a query that does not parse is discarded, and every other one is
    admitted, tagged, refused or dropped as the first rule that covers the client
    says. Dropping early changes no outcome. *)
Theorem udp_verdict_policy (g g' : AclGate) (cfg : AclConfig) (gen : Z) (ip : IpAddr) (bytes : list Z) :
  refresh g cfg gen = Some g' ->
  udp_verdict lookup_ip g cfg gen ip bytes = Some (verdict_of (structural_parse bytes) (gate_policy g' ip), g').
Proof. apply verdict_policy. Qed.

(** *** The slot of an admitted query *)

Lemma exhaustion_wf s n : store_wf s [] -> store_wf (s <| exhaustion_total := n |>) [].
Proof. intros []. by split. Qed.

Lemma acquire_ingress_post now s peer proto label index bytes parsed tag : store_wf s [] ->
  (exists i s' sl, acquire_ingress_slot now s peer proto label index bytes parsed tag = Some (Ok i, s') /\
     store_wf s' [] /\ (i ∉ used s) /\ used s' = {[i]} ∪ used s /\ slots s' !! i = Some sl /\ slot_state sl = Ingress /\
     slot_pre_parsed sl = true /\ slot_txn sl = query_txn now (Z.of_nat i) peer proto label index bytes parsed tag)
  \/ (acquire_ingress_slot now s peer proto label index bytes parsed tag =
        Some (Err Exhausted, s <| exhaustion_total := wrap 64 (exhaustion_total s + 1) |>) /\
      Z.of_nat (size (used s)) = capacity s).
Proof.
  intros Hwf. unfold acquire_ingress_slot.
  destruct (acquire_spec now s Hwf) as [(i & s1 & sl & -> & Hwf1 & Hni & Hu & Hi & _)|[-> Hfull]]; [left|by right].
  unfold with_slot, slot_mut. rewrite Hi, decide_True by done. cbn iota beta zeta.
  set (sl1 := match set_from_slice _ _ with Ok _ => _ | Err _ => _ end).
  assert (slot_state sl1 = Ingress /\ slot_pre_parsed sl1 = true /\
    slot_txn sl1 = query_txn now (Z.of_nat i) peer proto label index bytes parsed tag) as (Hs & Hpp & Ht)
    by (subst sl1; by destruct (set_from_slice _ _)).
  destruct (with_slot_busy s1 i _ sl1 Hwf1 Hi ltac:(done) ltac:(congruence)) as (Hwf2 & Hu2 & _).
  exists i, (put_slot s1 i sl1), sl1. split_and!; try done; [congruence|].
  apply list_lookup_insert_eq. by eapply lookup_lt_Some.
Qed.

(** What one datagram does to the plane and the queue of the asynchronous runtime. *)
Definition udp_post {E} (now : Clock) (label : string) (socket index : Z) (peer : SocketAddr) (bytes : list Z)
    (v : Verdict) (p : Plane E) (q : PolicyQueue) (p' : Plane E) (q' : PolicyQueue) : Prop :=
  match v with
  | Discard => p' = p /\ q' = q
  | RefuseWith parsed =>
      p' = send_reply p (ReplyUdp socket peer)
             (build_error_response (pq_dns_id parsed) RCODE_REFUSED bytes (pq_client_udp_payload_size parsed)).1.1 /\ q' = q
  | AdmitWith parsed tag =>
      (Z.of_nat (size (used (pl_store p))) = capacity (pl_store p) /\ q' = q /\
       p' = with_store p ((pl_store p) <| exhaustion_total := wrap 64 (exhaustion_total (pl_store p) + 1) |>)) \/
      exists i sl, (i ∉ used (pl_store p)) /\ store_wf (pl_store p') [] /\ used (pl_store p') = {[i]} ∪ used (pl_store p) /\
        slots (pl_store p') !! i = Some sl /\ slot_state sl = Ingress /\
        slot_txn sl = query_txn now (Z.of_nat i) peer Udp label index bytes parsed tag /\
        pl_routes p' = route_insert (pl_routes p) (Z.of_nat i) (ReplyUdp socket peer) /\
        pl_env p' = pl_env p /\ pl_sent p' = pl_sent p /\ q' = queue_push q (New (Z.of_nat i))
  end.

Lemma split_udp_post {E} now cfg gen label socket g g' counter (p : Plane E) q datagram peer :
  store_wf (pl_store p) [] -> refresh g cfg gen = Some g' ->
  let bytes := take 4096 datagram in
  let index := wrap 64 (counter + 1) in
  exists p' q', split_udp lookup_ip now cfg gen label socket g counter p q datagram peer = Some (g', index, p', q') /\
    udp_post now label socket index peer bytes
      (verdict_of (structural_parse bytes) (gate_policy g' (sock_ip peer))) p q p' q'.
Proof.
  intros Hwf Hg bytes index. unfold split_udp. rewrite (verdict_policy _ _ _ _ _ _ Hg). fold bytes index. cbn [fst snd].
  destruct (verdict_of _ _) as [|parsed|parsed tag]; [by eexists _, _|by eexists _, _|]. unfold enqueue.
  destruct (acquire_ingress_post now (pl_store p) peer Udp label index bytes parsed tag Hwf)
    as [(i & s' & sl & -> & Hwf' & Hni & Hu & Hi & Hs & Hpp & Ht)|[-> Hfull]]; cbn [fst snd].
  - eexists _, _. split; [done|]. right. exists i, sl. by split_and!.
  - eexists _, _. split; [done|]. by left.
Qed.

(** What one datagram does to the asynchronous runtime, on every path. A discarded one
    changes nothing; a refused one sends REFUSED at once and takes no slot; an
    admitted one is dropped only when every slot is in use, and otherwise takes a slot
    that was free, with the transaction of the query in it, has its reply route
    in place, and is queued as new work. *)
Theorem split_udp_outcome {E} (now : Clock) (cfg : AclConfig) (gen : Z) (label : string) (socket : Z) (g g' : AclGate)
    (counter : Z) (p : Plane E) (q : PolicyQueue) (datagram : list Z) (peer : SocketAddr) :
  store_wf (pl_store p) [] -> refresh g cfg gen = Some g' ->
  let bytes := take 4096 datagram in
  let index := wrap 64 (counter + 1) in
  exists p' q', split_udp lookup_ip now cfg gen label socket g counter p q datagram peer = Some (g', index, p', q') /\
    udp_post now label socket index peer bytes
      (verdict_of (structural_parse bytes) (gate_policy g' (sock_ip peer))) p q p' q'.
Proof. apply split_udp_post. Qed.

(** C10: From the datagram to the reply: a query the policy admits, when a slot is free, is
    queued, and the worker that takes it sends what the orchestrator answers to the
    peer it came from, through the socket it came in on, and nothing else. Afterwards
    exactly the slots that were in use before the query are in use. *)
Theorem admitted_query_answered {E} (run : Transaction -> E -> OrchestratorRun * Transaction * E)
    (resume : Transaction -> E -> Phase -> OrchestratorRun * Transaction * E) (release_pool : string -> E -> E)
    (now later : Clock) (cfg : AclConfig) (gen : Z) (label : string) (socket : Z) (g g' : AclGate) (counter : Z)
    (p : Plane E) (q : PolicyQueue) (datagram : list Z) (peer : SocketAddr) (parsed : ParsedQuery) (tag : option string)
    (wire : list Z) :
  store_wf (pl_store p) [] -> pl_routes p <> [] -> Z.of_nat (size (used (pl_store p))) < capacity (pl_store p) ->
  refresh g cfg gen = Some g' ->
  verdict_of (structural_parse (take 4096 datagram)) (gate_policy g' (sock_ip peer)) = AdmitWith parsed tag ->
  (forall i, exists t' e', run (query_txn now i peer Udp label (wrap 64 (counter + 1)) (take 4096 datagram) parsed tag) (pl_env p)
                = (Finished (Orchestrator.Response wire), t', e')) ->
  exists i p', split_udp lookup_ip now cfg gen label socket g counter p q datagram peer
      = Some (g', wrap 64 (counter + 1), p', queue_push q (New i)) /\
    let p'' := policy_work run resume release_pool later p' (New i) in
    store_wf (pl_store p'') [] /\ used (pl_store p'') = used (pl_store p) /\
    pl_sent p'' = pl_sent p ++ [(ReplyUdp socket peer, wire)] /\ route_of (pl_routes p'') i = None.
Proof.
  intros Hwf Hr Hroom Hg Hv Hrun.
  destruct (split_udp_post now cfg gen label socket g g' counter p q datagram peer Hwf Hg) as (p' & q' & E1 & Hp).
  rewrite Hv in Hp. destruct Hp as [[Hfull _]|(i & sl & Hni & Hwf' & Hu & Hi & Hs & Ht & Hro & Hen & Hse & ->)]; [lia|].
  exists (Z.of_nat i), p'. split; [done|]. cbv zeta.
  pose proof (work_run_post run resume release_pool later p' (New (Z.of_nat i)) (slot_txn sl) None) as H1. cbn [work_slot] in H1.
  rewrite Hro in H1. specialize (H1 ltac:(lia) Hwf' (route_insert_not_nil _ _ _ Hr)). unfold ready in H1. cbn [work_slot] in H1.
  rewrite Nat2Z.id in H1. unfold slot_mut in H1. rewrite Hi, decide_True in H1 by done. specialize (H1 eq_refl).
  destruct (Hrun (Z.of_nat i)) as (t' & e' & Hrn). unfold orchestrate in H1. rewrite Ht, Hen, Hrn in H1.
  destruct H1 as (Hwf2 & _ & Hu2 & _ & Hse2 & Hro2). rewrite Nat2Z.id in Hu2. split_and!.
  - done.
  - rewrite Hu2, Hu. clear -Hni. set_solver.
  - rewrite Hse2, Hse, Hro, route_of_insert, decide_True by done. done.
  - by rewrite Hro2, decide_True.
Qed.

(** *** The synchronous runtime *)

(** One datagram of the synchronous runtime: nothing comes back for a discarded one,
    REFUSED for a refused one, and for an admitted one, unless every slot is in use,
    exactly what the orchestrator answers on the transaction of the query, or nothing if it
    drops it. The same slots are in use afterwards, and the ids move on by one. *)
Theorem udp_worker_answers {E} (run : Transaction -> E -> RunOutcome * Transaction * E) (now : Clock) (cfg : AclConfig)
    (gen : Z) (label : string) (s : SyncState) (g' : AclGate) (datagram : list Z) (peer : SocketAddr) :
  store_wf (sy_store s) [] -> refresh (sy_gate s) cfg gen = Some g' ->
  let bytes := take 4096 datagram in
  let index := wrap 64 (sy_counter s + 1) in
  exists reply s', udp_worker lookup_ip run now cfg gen label s datagram peer = Some (reply, s') /\
    store_wf (sy_store s') [] /\ used (sy_store s') = used (sy_store s) /\
    sy_counter s' = index /\ sy_next_id s' = wrap 64 (sy_next_id s + 1) /\ sy_gate s' = g' /\
    match verdict_of (structural_parse bytes) (gate_policy g' (sock_ip peer)) with
    | Discard => reply = None /\ sy_env s' = sy_env s
    | RefuseWith parsed =>
        reply = Some (build_error_response (pq_dns_id parsed) RCODE_REFUSED bytes (pq_client_udp_payload_size parsed)).1.1 /\
        sy_env s' = sy_env s
    | AdmitWith parsed tag =>
        (Z.of_nat (size (used (sy_store s))) = capacity (sy_store s) /\ reply = None /\ sy_env s' = sy_env s) \/
        let '(o, _, e) := run (query_txn now (sy_next_id s) peer Udp label index bytes parsed tag) (sy_env s) in
        reply = match o with Orchestrator.Response wire => Some wire | Dropped => None end /\ sy_env s' = e
    end.
Proof.
  intros Hwf Hg bytes index. unfold udp_worker. rewrite (verdict_policy _ _ _ _ _ _ Hg). fold bytes index. cbn [fst snd].
  destruct (verdict_of _ _) as [|parsed|parsed tag]; [eexists _, _; by split_and!..|].
  match goal with |- context [run_in_slot run now (sy_store s) (sy_env s) ?f] => set (setup := f) end.
  assert (forall sl, slot_state (setup sl) = slot_state sl /\
    slot_txn (setup sl) = query_txn now (sy_next_id s) peer Udp label index bytes parsed tag) as Hset
    by (intros sl; subst setup; cbn beta zeta; by case_match).
  destruct (run_in_slot_post run now (sy_store s) (sy_env s) setup Hwf (fun sl => proj1 (Hset sl)))
    as (r & -> & [(sl & _ & Hsl)|[-> Hfull]]).
  - unfold slot_run in Hsl. rewrite (proj2 (Hset sl)) in Hsl. destruct (run _ _) as [[o t] e].
    destruct Hsl as (s' & -> & Hwf' & Hu'). eexists _, _. split; [done|]. split_and!; try done. right. by destruct o.
  - eexists _, _. split; [done|]. split_and!; try done; [by apply exhaustion_wf|]. by left.
Qed.

(** The early tier of a connection drops it only if the policy does. *)
Lemma preadmission_policy (g g' : AclGate) cfg gen ip : refresh g cfg gen = Some g' ->
  (decide_preadmission lookup_ip g cfg gen ip = Some (GateDrop, g') /\ gate_policy g' ip = AclDrop) \/
  decide_preadmission lookup_ip g cfg gen ip = Some (GateAdmit, g').
Proof.
  intros Hg. unfold decide_preadmission. rewrite Hg. cbn.
  destruct (gate_preadmission_cases lookup_ip g' ip) as [-> | [-> Hd]]; [by right|left]. split; [done|].
  rewrite gate_full_first_match in Hd. unfold gate_policy. by destruct (from_option _ _ _).
Qed.

Lemma admission_policy (g g' : AclGate) cfg gen ip bytes : refresh g cfg gen = Some g' ->
  admission lookup_ip g' cfg gen ip bytes = Some (verdict_of (structural_parse bytes) (gate_policy g' ip), g').
Proof.
  intros Hg. unfold admission, decide_full. rewrite (refresh_twice _ _ _ _ Hg). cbn.
  rewrite gate_full_first_match. fold (gate_policy g' ip).
  destruct (structural_parse bytes); [|done]. by destruct (gate_policy g' ip).
Qed.

Lemma verdict_dropped parsed : verdict_of parsed AclDrop = Discard.
Proof. by destruct parsed. Qed.

(** One connection of the synchronous runtime, with a message on it: it is closed without an
    answer when the message does not parse or the policy drops the client, it gets
    REFUSED when the policy refuses the client, and otherwise, unless every slot is in use,
    the orchestrator's answer on the transaction of the message; each as one framed
    message. The same slots are in use afterwards. *)
Theorem tcp_worker_answers {E} (run : Transaction -> E -> RunOutcome * Transaction * E) (now : Clock) (cfg : AclConfig)
    (gen : Z) (label : string) (s : SyncState) (g' : AclGate) (stream buf : list Z) (peer : SocketAddr) :
  store_wf (sy_store s) [] -> refresh (sy_gate s) cfg gen = Some g' -> tcp_read stream = Some buf ->
  exists reply s', tcp_worker lookup_ip run now cfg gen label s stream peer = Some (reply, s') /\
    store_wf (sy_store s') [] /\ used (sy_store s') = used (sy_store s) /\
    match verdict_of (structural_parse buf) (gate_policy g' (sock_ip peer)) with
    | Discard => reply = None /\ sy_env s' = sy_env s
    | RefuseWith parsed =>
        reply = Some (tcp_frame (build_error_response (pq_dns_id parsed) RCODE_REFUSED buf None).1.1) /\ sy_env s' = sy_env s
    | AdmitWith parsed tag =>
        (Z.of_nat (size (used (sy_store s))) = capacity (sy_store s) /\ reply = None /\ sy_env s' = sy_env s) \/
        let '(o, _, e) :=
          run (query_txn now (sy_next_id s) peer Tcp label (wrap 64 (sy_counter s + 1)) buf parsed tag) (sy_env s) in
        reply = match o with Orchestrator.Response wire => Some (tcp_frame wire) | Dropped => None end /\ sy_env s' = e
    end.
Proof.
  intros Hwf Hg Hbuf. unfold tcp_worker.
  destruct (preadmission_policy _ _ cfg gen (sock_ip peer) Hg) as [[-> ->]| ->]; cbn [fst snd].
  { rewrite verdict_dropped. eexists _, _. by split_and!. }
  rewrite Hbuf, (admission_policy _ _ _ _ _ _ Hg). cbn [fst snd].
  destruct (verdict_of _ _) as [|parsed|parsed tag]; [eexists _, _; by split_and!..|].
  match goal with |- context [run_in_slot run now (sy_store s) (sy_env s) ?f] => set (setup := f) end.
  assert (forall sl, slot_state (setup sl) = slot_state sl /\
    slot_txn (setup sl) = query_txn now (sy_next_id s) peer Tcp label (wrap 64 (sy_counter s + 1)) buf parsed tag) as Hset
    by (intros sl; subst setup; cbn beta zeta; by case_match).
  destruct (run_in_slot_post run now (sy_store s) (sy_env s) setup Hwf (fun sl => proj1 (Hset sl)))
    as (r & -> & [(sl & _ & Hsl)|[-> Hfull]]).
  - unfold slot_run in Hsl. rewrite (proj2 (Hset sl)) in Hsl. destruct (run _ _) as [[o t] e].
    destruct Hsl as (s' & -> & Hwf' & Hu'). eexists _, _. split; [done|]. split_and!; try done. right. by destruct o.
  - eexists _, _. split; [done|]. split_and!; try done; [by apply exhaustion_wf|]. by left.
Qed.

(** A connection of the asynchronous runtime whose message the policy admits waits,
    when a slot is free, on the channel that is the reply route of its slot, and its
    message is queued as new work. *)
Theorem split_tcp_waits {E} (now : Clock) (cfg : AclConfig) (gen : Z) (label : string) (channel : Z) (g g' : AclGate)
    (counter : Z) (p : Plane E) (q : PolicyQueue) (stream buf : list Z) (peer : SocketAddr) (parsed : ParsedQuery)
    (tag : option string) :
  store_wf (pl_store p) [] -> Z.of_nat (size (used (pl_store p))) < capacity (pl_store p) -> pl_routes p <> [] ->
  refresh g cfg gen = Some g' -> tcp_read stream = Some buf ->
  verdict_of (structural_parse buf) (gate_policy g' (sock_ip peer)) = AdmitWith parsed tag ->
  exists i p' sl, split_tcp lookup_ip now cfg gen label channel g counter p q stream peer
      = Some (Waiting i, g', wrap 64 (counter + 1), p', queue_push q (New (Z.of_nat i))) /\
    (i ∉ used (pl_store p)) /\ store_wf (pl_store p') [] /\ used (pl_store p') = {[i]} ∪ used (pl_store p) /\
    slots (pl_store p') !! i = Some sl /\ slot_state sl = Ingress /\
    slot_txn sl = query_txn now (Z.of_nat i) peer Tcp label (wrap 64 (counter + 1)) buf parsed tag /\
    route_of (pl_routes p') (Z.of_nat i) = Some (ReplyTcp channel).
Proof.
  intros Hwf Hroom Hr Hg Hbuf Hv. unfold split_tcp.
  destruct (preadmission_policy _ _ cfg gen (sock_ip peer) Hg) as [[-> Hd]| ->]; cbn [fst snd].
  { by rewrite Hd, verdict_dropped in Hv. }
  rewrite Hbuf, (admission_policy _ _ _ _ _ _ Hg), Hv. cbn [fst snd]. unfold enqueue.
  destruct (acquire_ingress_post now (pl_store p) peer Tcp label (wrap 64 (counter + 1)) buf parsed tag Hwf)
    as [(i & s' & sl & -> & Hwf' & Hni & Hu & Hi & Hs & Hpp & Ht)|[-> Hfull]]; [|lia]. cbn [fst snd].
  eexists i, _, sl. split; [done|]. split_and!; try done. cbn. by rewrite route_of_insert, decide_True.
Qed.
End Facts.

(** ** TCP frames *)

Lemma read_exact_app l l' : read_exact (zlen l) (l ++ l') = Some (l, l').
Proof.
  unfold read_exact, zlen. rewrite length_app, Nat2Z.id, take_app_length, drop_app_length.
  destruct (Z.ltb_spec (Z.of_nat (length l + length l')) (Z.of_nat (length l))); [lia|done].
Qed.

Lemma be16_length n : fits 16 n -> Z.lor (Z.shiftl (Z.shiftr n 8) 8) (Z.land n 255) = n.
Proof.
  intros Hn. apply Z.bits_inj'. intros k Hk. rewrite Z.lor_spec, Z.land_spec. change 255 with (Z.ones 8).
  rewrite (Z.testbit_ones_nonneg 8 k) by lia. destruct (Z.ltb_spec k 8).
  - rewrite Z.shiftl_spec_low by lia. simpl. by rewrite andb_true_r.
  - rewrite Z.shiftl_spec_high, Z.shiftr_spec by lia. replace (k - 8 + 8) with k by lia. by rewrite andb_false_r, orb_false_r.
Qed.

(** What is written to a TCP connection as one message is read from it as that
    message, whatever follows on the stream, for every message of 1 to 65535 bytes. *)
Theorem tcp_frame_roundtrip (wire rest : list Z) :
  0 < zlen wire <= u16_max -> tcp_read (tcp_frame wire ++ rest) = Some wire.
Proof.
  unfold u16_max. intros Hlen. unfold tcp_frame, tcp_read. rewrite <- app_assoc, wrap_small by (unfold fits; lia).
  rewrite (read_exact_app (be16 (zlen wire)) (wire ++ rest) : read_exact 2 _ = _). unfold be16. cbn [fst snd].
  rewrite be16_length by (unfold fits; lia).
  destruct (Z.eqb_spec (zlen wire) 0); [lia|]. destruct (Z.ltb_spec 65535 (zlen wire)); [lia|].
  simpl. by rewrite read_exact_app.
Qed.

(** ** Witnesses *)

#[local] Existing Instance sample_codec.

Definition open_gate : AclGate := gate_new sample_open.
Definition open_gate' : AclGate := default open_gate (refresh open_gate (sample_config [sample_open]) 3).
Definition client : SocketAddr := SockV4 9 5353.
Definition fresh_pool : TxnStore := MkStore [] [] 1 1 0.
Definition fresh_plane : Plane unit := MkPlane unit fresh_pool (routes_with_shards 4) tt [].

Definition parsed_sample : ParsedQuery := {|
  pq_dns_id := 7; pq_opcode := 0; pq_qname := "a.example."; pq_qtype := 1; pq_qclass := 1;
  pq_client_udp_payload_size := Some 1232; pq_edns_option_codes := [8; 10] |}.

Lemma fresh_pool_wf : store_wf fresh_pool [].
Proof. apply (store_wf_new 1 1); [reflexivity|unfold u32_max; lia]. Qed.

Lemma sample_parses : structural_parse [1] = Ok parsed_sample.
Proof. vm_compute. reflexivity. Qed.

Lemma udp_verdict_policy_witness :
  udp_verdict sample_store open_gate (sample_config [sample_open]) 3 (sock_ip client) [1]
  = Some (AdmitWith parsed_sample (Some "lab"), open_gate').
Proof.
  rewrite (udp_verdict_policy sample_store open_gate open_gate' (sample_config [sample_open]) 3 (sock_ip client) [1]);
    [|reflexivity]. rewrite sample_parses. reflexivity.
Defined.

Lemma split_udp_outcome_witness :
  exists p' q', split_udp sample_store tick (sample_config [sample_open]) 3 "open" 0 open_gate 41 fresh_plane
      (queue_with_shards 4) [1] client = Some (open_gate', wrap 64 (41 + 1), p', q') /\
    udp_post tick "open" 0 (wrap 64 (41 + 1)) client [1]
      (verdict_of (structural_parse [1]) (gate_policy sample_store open_gate' (sock_ip client)))
      fresh_plane (queue_with_shards 4) p' q'.
Proof.
  apply (split_udp_outcome sample_store tick (sample_config [sample_open]) 3 "open" 0 open_gate open_gate' 41
    fresh_plane (queue_with_shards 4) [1] client); [apply fresh_pool_wf|reflexivity].
Defined.

Lemma admitted_query_answered_witness :
  exists i p', split_udp sample_store tick (sample_config [sample_open]) 3 "open" 0 open_gate 41 fresh_plane
      (queue_with_shards 4) [1] client = Some (open_gate', wrap 64 (41 + 1), p', queue_push (queue_with_shards 4) (New i)) /\
    let p'' := policy_work answer (fun t e _ => answer t e) (fun _ e => e) tick p' (New i) in
    store_wf (pl_store p'') [] /\ used (pl_store p'') = used fresh_pool /\
    pl_sent p'' = [(ReplyUdp 0 client, [1; 2])] /\ route_of (pl_routes p'') i = None.
Proof.
  apply (admitted_query_answered sample_store answer (fun t e _ => answer t e) (fun _ e => e) tick tick
    (sample_config [sample_open]) 3 "open" 0 open_gate open_gate' 41 fresh_plane (queue_with_shards 4) [1] client
    parsed_sample (Some "lab") [1; 2]); [apply fresh_pool_wf|discriminate|done|reflexivity| |].
  - change (take 4096 [1]) with [1]. rewrite sample_parses. reflexivity.
  - intros i. by eexists _, _.
Defined.

Lemma udp_worker_answers_witness :
  let run (t : Transaction) (e : unit) := (Orchestrator.Response (query_wire t), t, e) in
  let s := MkSync open_gate 41 8 fresh_pool tt in
  exists reply s', udp_worker sample_store run tick (sample_config [sample_open]) 3 "open" s [1] client = Some (reply, s') /\
    used (sy_store s') = used fresh_pool /\ reply = Some [1].
Proof.
  destruct (udp_worker_answers sample_store (fun (t : Transaction) (e : unit) => (Orchestrator.Response (query_wire t), t, e))
    tick (sample_config [sample_open]) 3 "open" (MkSync open_gate 41 8 fresh_pool tt) open_gate' [1] client
    fresh_pool_wf eq_refl) as (reply & s' & E & _ & Hu & _ & _ & _ & H).
  exists reply, s'. split; [exact E|]. split; [exact Hu|].
  change (take 4096 [1]) with [1] in H. rewrite sample_parses in H. cbn in H.
  destruct H as [[Hf _]|[-> _]]; [done|reflexivity].
Defined.

Lemma tcp_frame_roundtrip_witness : tcp_read (tcp_frame [1; 2; 3] ++ [9]) = Some [1; 2; 3].
Proof. apply (tcp_frame_roundtrip [1; 2; 3] [9]). unfold u16_max, zlen. cbn. lia. Defined.

Lemma tcp_worker_answers_witness :
  let run (t : Transaction) (e : unit) := (Orchestrator.Response (query_wire t), t, e) in
  let s := MkSync open_gate 41 8 fresh_pool tt in
  exists reply s', tcp_worker sample_store run tick (sample_config [sample_open]) 3 "open" s [0; 1; 1] client = Some (reply, s') /\
    used (sy_store s') = used fresh_pool /\ reply = Some [0; 1; 1].
Proof.
  destruct (tcp_worker_answers sample_store (fun (t : Transaction) (e : unit) => (Orchestrator.Response (query_wire t), t, e))
    tick (sample_config [sample_open]) 3 "open" (MkSync open_gate 41 8 fresh_pool tt) open_gate' [0; 1; 1] [1] client
    fresh_pool_wf eq_refl eq_refl) as (reply & s' & E & _ & Hu & H).
  exists reply, s'. split; [exact E|]. split; [exact Hu|]. rewrite sample_parses in H. cbn in H.
  destruct H as [[Hf _]|[-> _]]; [done|reflexivity].
Defined.

Lemma split_tcp_waits_witness :
  exists i p' sl, split_tcp sample_store tick (sample_config [sample_open]) 3 "open" 6 open_gate 41 fresh_plane
      (queue_with_shards 4) [0; 1; 1] client
      = Some (Waiting i, open_gate', wrap 64 (41 + 1), p', queue_push (queue_with_shards 4) (New (Z.of_nat i))) /\
    (i ∉ used fresh_pool) /\ store_wf (pl_store p') [] /\ used (pl_store p') = {[i]} ∪ used fresh_pool /\
    slots (pl_store p') !! i = Some sl /\ slot_state sl = Ingress /\
    slot_txn sl = query_txn tick (Z.of_nat i) client Tcp "open" (wrap 64 (41 + 1)) [1] parsed_sample (Some "lab") /\
    route_of (pl_routes p') (Z.of_nat i) = Some (ReplyTcp 6).
Proof.
  apply (split_tcp_waits sample_store tick (sample_config [sample_open]) 3 "open" 6 open_gate open_gate' 41 fresh_plane
    (queue_with_shards 4) [0; 1; 1] [1] client parsed_sample (Some "lab"));
    [apply fresh_pool_wf|done|discriminate|reflexivity|reflexivity|]. rewrite sample_parses. reflexivity.
Defined.
