(* ===== verification/Config.v ===== *)
(** * Config: the configuration messages and the merge of an overlay onto a file

    The messages of src/proto/conduit/v1/config.proto, as the Rust types generated from
    them, and src/crates/conduit-config/src/merge.rs and overlay.rs. Sections of the
    configuration that are only copied and compared here are the types of the class
    [Sections]; equality of two of them is decided, which leaves out the
    floating-point NaN. A [HashMap] is a [gmap]: the loops over one touch each key once, so
    their order does not matter. *)

From stdpp Require Import strings gmap.
From Stdlib Require Import String.
From S2P Require Import Prelude.

#[local] Open Scope string_scope.
#[local] Open Scope list_scope.
#[local] Open Scope Z_scope.

Class Sections := {
  ListenersConfig : Type; ForwardConfig : Type; ControlConfig : Type; RulesConfig : Type;
  LoggingConfig : Type; TracingConfig : Type; DataplaneConfig : Type; ShutdownConfig : Type;
  LookupConfig : Type; AclsConfig : Type; HealthCheck : Type; EventSinkFilters : Type; ConnectRetry : Type;
  listeners_eq :: EqDecision ListenersConfig; forward_eq :: EqDecision ForwardConfig;
  control_eq :: EqDecision ControlConfig; logging_eq :: EqDecision LoggingConfig;
  dataplane_eq :: EqDecision DataplaneConfig; shutdown_eq :: EqDecision ShutdownConfig;
  lookup_eq :: EqDecision LookupConfig; acls_eq :: EqDecision AclsConfig;
  health_eq :: EqDecision HealthCheck; filters_eq :: EqDecision EventSinkFilters;
  retry_eq :: EqDecision ConnectRetry;
}.

(** [Option<String>] with [filter(|n| !n.is_empty())]. *)
Definition nonempty (o : option string) : option string :=
  let! s := o in if String.eqb s EmptyString then None else Some s.

Definition is_empty (s : string) : bool := String.eqb s EmptyString.

Arguments nonempty : simpl never.
Arguments is_empty : simpl never.

(** ** Messages *)

Record OrchestratorConfig := { max_attempts : Z; max_txn_duration_ms : Z; txn_table_capacity : Z }.
Record RhaiConfig := { max_operations : Z; max_call_depth : Z; hook_timeout_ms : Z }.

Record DataSource := {
  ds_name : string; ds_type : string; ds_path : string; ds_key_column : string; ds_value_column : string;
  ds_max_file_bytes : option Z; ds_max_entries : option Z; ds_max_key_bytes : option Z; ds_max_value_bytes : option Z;
}.
Record DataSourceLimits := {
  dl_max_file_bytes : Z; dl_max_entries : Z; dl_max_key_bytes : Z; dl_max_value_bytes : Z; dl_max_tables : Z;
  dl_max_total_bytes : Z;
}.

Record Backend := MkBackendCfg {
  be_address : string; be_weight : option Z; be_name : option string; be_probe_qname : option string;
  be_probe_qtype : option string; be_probe_source : option string; be_transport : option string; be_remove : option bool;
}.

Record CacheNegativeConfig := { cn_enabled : option bool; cn_covers_descendants : option bool; cn_servfail_ttl : option Z }.
Record CacheOnHitConfig := { oh_response_rules : string }.
Record CacheTruncatedUdpConfig := { tu_enabled : option bool; tu_ttl_secs : option Z }.
Record CacheMemoryConfig := { cm_shard_count : option Z; cm_eviction : option string }.
Record CacheLmdbConfig := MkLmdb {
  lm_path : string; lm_map_size_bytes : Z; lm_when_full : option string; lm_sample_size : option Z;
  lm_shard_count : option Z; lm_sync : option string; lm_sync_interval : option string;
}.
(** [ca_key]: whether the reserved section [key] is there, and [augment] in it. *)
Record CacheInstance := MkCache {
  ca_name : string; ca_type : string; ca_negative_cache : option CacheNegativeConfig; ca_on_hit : option CacheOnHitConfig;
  ca_rotate : option bool; ca_memory : option CacheMemoryConfig; ca_key : option bool; ca_max_entries : option Z;
  ca_truncated_udp : option CacheTruncatedUdpConfig; ca_lmdb : option CacheLmdbConfig;
}.

Record MetricsCategories := { mc_include : list string; mc_exclude : list string; mc_include_set : bool; mc_exclude_set : bool }.
Record MetricsDimensionList := { md_dimensions : list string; md_rcode : string; md_dimensions_set : bool }.
Record MetricsGranularity := { mg_default : string; mg_overrides : gmap string MetricsDimensionList }.
Record MetricsCollectEmit := { ce_collect : option bool; ce_emit : option bool }.
Record MetricsEventExport := { ee_collect : option bool; ee_emit : option bool }.
Record UserMetricExportConfig := {
  um_name : string; um_export : string; um_collect : option bool; um_emit : option bool; um_help : string }.
Record PrometheusMetricsConfig := { pm_listen_address : string; pm_path : string }.
Record OtelMetricsConfig := {
  ot_endpoint : string; ot_push_interval_ms : Z; ot_resource_attributes : gmap string string;
  ot_allow_invalid_certs : option bool; ot_headers : gmap string string }.
Record MetricsConfig := MkMetrics {
  me_enabled : option bool; me_profile : string; me_prometheus : option PrometheusMetricsConfig;
  me_otel : option OtelMetricsConfig; me_user_metrics : list UserMetricExportConfig; me_base : string;
  me_categories : option MetricsCategories; me_granularity : option MetricsGranularity;
  me_collection : gmap string MetricsCollectEmit; me_event_export : option MetricsEventExport;
}.

#[global] Instance OrchestratorConfig_eq : EqDecision OrchestratorConfig. Proof. solve_decision. Defined.
#[global] Instance RhaiConfig_eq : EqDecision RhaiConfig. Proof. solve_decision. Defined.
#[global] Instance DataSource_eq : EqDecision DataSource. Proof. solve_decision. Defined.
#[global] Instance DataSourceLimits_eq : EqDecision DataSourceLimits. Proof. solve_decision. Defined.
#[global] Instance Backend_eq : EqDecision Backend. Proof. solve_decision. Defined.
#[global] Instance CacheNegative_eq : EqDecision CacheNegativeConfig. Proof. solve_decision. Defined.
#[global] Instance CacheOnHit_eq : EqDecision CacheOnHitConfig. Proof. solve_decision. Defined.
#[global] Instance CacheTruncated_eq : EqDecision CacheTruncatedUdpConfig. Proof. solve_decision. Defined.
#[global] Instance CacheMemory_eq : EqDecision CacheMemoryConfig. Proof. solve_decision. Defined.
#[global] Instance CacheLmdb_eq : EqDecision CacheLmdbConfig. Proof. solve_decision. Defined.
#[global] Instance CacheInstance_eq : EqDecision CacheInstance. Proof. solve_decision. Defined.
#[global] Instance MetricsCategories_eq : EqDecision MetricsCategories. Proof. solve_decision. Defined.
#[global] Instance MetricsDimensionList_eq : EqDecision MetricsDimensionList. Proof. solve_decision. Defined.
#[global] Instance MetricsGranularity_eq : EqDecision MetricsGranularity. Proof. solve_decision. Defined.
#[global] Instance MetricsCollectEmit_eq : EqDecision MetricsCollectEmit. Proof. solve_decision. Defined.
#[global] Instance MetricsEventExport_eq : EqDecision MetricsEventExport. Proof. solve_decision. Defined.
#[global] Instance UserMetric_eq : EqDecision UserMetricExportConfig. Proof. solve_decision. Defined.
#[global] Instance Prometheus_eq : EqDecision PrometheusMetricsConfig. Proof. solve_decision. Defined.
#[global] Instance Otel_eq : EqDecision OtelMetricsConfig. Proof. solve_decision. Defined.
#[global] Instance MetricsConfig_eq : EqDecision MetricsConfig. Proof. solve_decision. Defined.

Ltac backend_setter := setter MkBackendCfg
  (be_address, be_weight, be_name, be_probe_qname, be_probe_qtype, be_probe_source, be_transport, be_remove).
#[export] Instance set_be_address : Setter be_address := ltac:(backend_setter).
#[export] Instance set_be_weight : Setter be_weight := ltac:(backend_setter).
#[export] Instance set_be_name : Setter be_name := ltac:(backend_setter).
#[export] Instance set_be_probe_qname : Setter be_probe_qname := ltac:(backend_setter).
#[export] Instance set_be_probe_qtype : Setter be_probe_qtype := ltac:(backend_setter).
#[export] Instance set_be_probe_source : Setter be_probe_source := ltac:(backend_setter).
#[export] Instance set_be_transport : Setter be_transport := ltac:(backend_setter).
#[export] Instance set_be_remove : Setter be_remove := ltac:(backend_setter).

Definition Backend_default : Backend := MkBackendCfg EmptyString None None None None None None None.
Definition MetricsConfig_default : MetricsConfig := MkMetrics None EmptyString None None [] EmptyString None None ∅ None.

Section Data.
Context `{Sections}.

Record Pool := MkPoolCfg {
  po_name : string; po_backends : list Backend; po_sources_v4 : list string; po_sources_v6 : list string;
  po_max_inflight : option Z; po_health : option HealthCheck; po_remove : option bool;
}.
Record EventSink := MkSink {
  es_type : string; es_export_id : string; es_destinations : list string; es_emit : list string;
  es_filters : option EventSinkFilters; es_extra_fields : list string; es_extra_tags : list string;
  es_name : option string; es_connect_retry : option ConnectRetry;
}.
Record EventsConfig := MkEvents { ev_queue_depth : Z; ev_drop_policy : string; ev_sinks : list EventSink }.

Record Config := MkConfig {
  schema_version : Z; listeners : option ListenersConfig; forward : option ForwardConfig;
  orchestrator : option OrchestratorConfig; events : option EventsConfig; rhai : option RhaiConfig; pools : list Pool;
  control : option ControlConfig; rules : option RulesConfig; logging : option LoggingConfig;
  data_sources : list DataSource; metrics : option MetricsConfig; tracing : option TracingConfig;
  dataplane : option DataplaneConfig; shutdown : option ShutdownConfig; data_source_limits : option DataSourceLimits;
  caches : list CacheInstance; lookup : option LookupConfig; acls : option AclsConfig;
}.

Ltac pool_setter := setter MkPoolCfg
  (po_name, po_backends, po_sources_v4, po_sources_v6, po_max_inflight, po_health, po_remove).
#[global] Instance set_po_backends : Setter po_backends := ltac:(pool_setter).
#[global] Instance set_po_remove : Setter po_remove := ltac:(pool_setter).

Ltac config_setter := setter MkConfig
  (schema_version, listeners, forward, orchestrator, events, rhai, pools, control, rules, logging, data_sources, metrics,
   tracing, dataplane, shutdown, data_source_limits, caches, lookup, acls).
#[global] Instance set_orchestrator : Setter orchestrator := ltac:(config_setter).
#[global] Instance set_events : Setter events := ltac:(config_setter).
#[global] Instance set_rhai : Setter rhai := ltac:(config_setter).
#[global] Instance set_pools : Setter pools := ltac:(config_setter).
#[global] Instance set_data_sources : Setter data_sources := ltac:(config_setter).
#[global] Instance set_data_source_limits : Setter data_source_limits := ltac:(config_setter).
#[global] Instance set_caches : Setter caches := ltac:(config_setter).
#[global] Instance set_schema_version : Setter schema_version := ltac:(config_setter).
#[global] Instance set_metrics : Setter metrics := ltac:(config_setter).

#[global] Instance Pool_eq : EqDecision Pool. Proof. solve_decision. Defined.
#[global] Instance EventSink_eq : EqDecision EventSink. Proof. solve_decision. Defined.
#[global] Instance EventsConfig_eq : EqDecision EventsConfig. Proof. solve_decision. Defined.

Definition Pool_default : Pool := MkPoolCfg EmptyString [] [] [] None None None.
Definition Config_default : Config :=
  MkConfig 0 None None None None None [] None None None [] None None None None None [] None None.

(** ** The merge *)

Record EffectiveConfig := { ef_file : Config; ef_overlay : option Config }.

Inductive MergeMode := ApplyToBaseline | AccumulateOverlay.

(** [ConfigError::Invalid], by its message. *)
Inductive ConfigError :=
  | PoolRemoveNoName
  | PoolRemoveUnknown (name : string)
  | BackendRemoveNoId (pool : string)
  | BackendRemoveUnknownName (pool name : string)
  | BackendRemoveUnknownAddress (pool address : string)
  | BackendUnknownName (pool name : string)
  | BackendNoId (pool : string)
  | CannotClearDataSources
  | CannotClearCaches.

(** [iter_mut().find(p)] followed by an update of what it found. *)
Fixpoint update_first {A} (p : A -> bool) (f : A -> A) (l : list A) : option (list A) :=
  match l with
  | [] => None
  | a :: l => if p a then Some (f a :: l) else (cons a) <$> update_first p f l
  end.

(** [retain]. *)
Definition retain {A} (p : A -> bool) (l : list A) : list A := List.filter p l.

Definition has_name (n : string) (b : Backend) : bool := bool_decide (be_name b = Some n).
Definition has_address (a : string) (b : Backend) : bool := String.eqb (be_address b) a.

Definition apply_backend_overlay (base overlay : Backend) : Backend :=
  let b := if is_empty (be_address overlay) then base else base <| be_address := be_address overlay |> in
  let b := if is_someb (be_name overlay) then b <| be_name := be_name overlay |> else b in
  if is_someb (be_weight overlay) then b <| be_weight := be_weight overlay |> else b.

Definition remove_backend (pool_name : string) (base : list Backend) (ob : Backend) : result (list Backend) ConfigError :=
  match nonempty (be_name ob) with
  | Some name =>
      let kept := retain (fun b => negb (has_name name b)) base in
      if zlen kept =? zlen base then Err (BackendRemoveUnknownName pool_name name) else Ok kept
  | None =>
      if negb (is_empty (be_address ob)) then
        let kept := retain (fun b => negb (has_address (be_address ob) b)) base in
        if zlen kept =? zlen base then Err (BackendRemoveUnknownAddress pool_name (be_address ob)) else Ok kept
      else Err (BackendRemoveNoId pool_name)
  end.

Definition accumulate_backend_remove (pool_name : string) (base : list Backend) (ob : Backend)
    : result (list Backend) ConfigError :=
  match nonempty (be_name ob) with
  | Some name =>
      Ok (push (retain (fun b => negb (has_name name b)) base)
               (Backend_default <| be_name := Some name |> <| be_remove := Some true |>))
  | None =>
      if negb (is_empty (be_address ob)) then
        Ok (push (retain (fun b => negb (has_address (be_address ob) b)) base)
                 (Backend_default <| be_address := be_address ob |> <| be_remove := Some true |>))
      else Err (BackendRemoveNoId pool_name)
  end.

(** The update of a matched backend. *)
Definition overlaid (ob b : Backend) : Backend := (apply_backend_overlay b ob) <| be_remove := None |>.

(** One round of the loop of [merge_backends]. *)
Definition merge_backend (pool_name : string) (mode : MergeMode) (base : list Backend) (ob : Backend)
    : result (list Backend) ConfigError :=
  if default false (be_remove ob) then
    match mode with
    | ApplyToBaseline => remove_backend pool_name base ob
    | AccumulateOverlay => accumulate_backend_remove pool_name base ob
    end
  else
    match nonempty (be_name ob) with
    | Some name =>
        match update_first (has_name name) (overlaid ob) base with
        | Some base => Ok base
        | None => if negb (is_empty (be_address ob)) then Ok (push base (ob <| be_remove := None |>))
                  else Err (BackendUnknownName pool_name name)
        end
    | None =>
        if negb (is_empty (be_address ob)) then
          match update_first (has_address (be_address ob)) (overlaid ob) base with
          | Some base => Ok base
          | None => Ok (push base (ob <| be_remove := None |>))
          end
        else Err (BackendNoId pool_name)
    end.

Fixpoint merge_backends (pool_name : string) (mode : MergeMode) (base overlay : list Backend)
    : result (list Backend) ConfigError :=
  match overlay with
  | [] => Ok base
  | ob :: overlay => let? base := merge_backend pool_name mode base ob in merge_backends pool_name mode base overlay
  end.

Definition has_pool_name (n : string) (p : Pool) : bool := String.eqb (po_name p) n.

(** [find] of the pool of that name, then the merge into it. *)
Fixpoint merge_into_pool (mode : MergeMode) (base : list Pool) (op : Pool) : option (result (list Pool) ConfigError) :=
  match base with
  | [] => None
  | p :: base =>
      if has_pool_name (po_name op) p then
        Some (let? bs := merge_backends (po_name p) mode (po_backends p) (po_backends op) in
              Ok (p <| po_remove := None |> <| po_backends := bs |> :: base))
      else let! r := merge_into_pool mode base op in Some (let? base := r in Ok (p :: base))
  end.

Definition unmarked (p : Pool) : Pool :=
  p <| po_remove := None |> <| po_backends := (fun b => b <| be_remove := None |>) <$> po_backends p |>.

(** One round of the loop of [merge_pools]. *)
Definition merge_pool (mode : MergeMode) (base : list Pool) (op : Pool) : result (list Pool) ConfigError :=
  if default false (po_remove op) then
    if is_empty (po_name op) then Err PoolRemoveNoName
    else
      let kept := retain (fun p => negb (has_pool_name (po_name op) p)) base in
      match mode with
      | ApplyToBaseline => if zlen kept =? zlen base then Err (PoolRemoveUnknown (po_name op)) else Ok kept
      | AccumulateOverlay => Ok (push kept (MkPoolCfg (po_name op) [] [] [] None None (Some true)))
      end
  else
    match merge_into_pool mode base op with
    | Some r => r
    | None =>
        Ok (push base (match mode with
                       | ApplyToBaseline => unmarked op
                       | AccumulateOverlay => op <| po_remove := None |>
                       end))
    end.

Fixpoint merge_pools (mode : MergeMode) (base overlay : list Pool) : result (list Pool) ConfigError :=
  match overlay with
  | [] => Ok base
  | op :: overlay => let? base := merge_pool mode base op in merge_pools mode base overlay
  end.

(** *** Metrics *)

Definition merge_collect_emit (base overlay : MetricsCollectEmit) : MetricsCollectEmit :=
  {| ce_collect := or_else (ce_collect overlay) (ce_collect base); ce_emit := or_else (ce_emit overlay) (ce_emit base) |}.

(** [if !overlay.is_empty() { base = overlay }]. *)
Definition or_base (overlay base : string) : string := if is_empty overlay then base else overlay.

Definition merge_prometheus (base : option PrometheusMetricsConfig) (overlay : PrometheusMetricsConfig)
    : PrometheusMetricsConfig :=
  let m := default {| pm_listen_address := EmptyString; pm_path := EmptyString |} base in
  {| pm_listen_address := or_base (pm_listen_address overlay) (pm_listen_address m);
     pm_path := or_base (pm_path overlay) (pm_path m) |}.

Definition merge_otel (base : option OtelMetricsConfig) (overlay : OtelMetricsConfig) : OtelMetricsConfig :=
  let m := default {| ot_endpoint := EmptyString; ot_push_interval_ms := 0; ot_resource_attributes := ∅;
                      ot_allow_invalid_certs := None; ot_headers := ∅ |} base in
  {| ot_endpoint := or_base (ot_endpoint overlay) (ot_endpoint m);
     ot_push_interval_ms := if ot_push_interval_ms overlay =? 0 then ot_push_interval_ms m else ot_push_interval_ms overlay;
     ot_resource_attributes := ot_resource_attributes overlay ∪ ot_resource_attributes m;
     ot_allow_invalid_certs := or_else (ot_allow_invalid_certs overlay) (ot_allow_invalid_certs m);
     ot_headers := ot_headers overlay ∪ ot_headers m |}.

Definition merge_user_metric (overlay base : UserMetricExportConfig) : UserMetricExportConfig :=
  {| um_name := um_name base; um_export := or_base (um_export overlay) (um_export base);
     um_collect := or_else (um_collect overlay) (um_collect base); um_emit := or_else (um_emit overlay) (um_emit base);
     um_help := or_base (um_help overlay) (um_help base) |}.

Definition merge_user_metrics (base overlay : list UserMetricExportConfig) : list UserMetricExportConfig :=
  foldl (fun base o =>
    match update_first (fun u => String.eqb (um_name u) (um_name o)) (merge_user_metric o) base with
    | Some base => base
    | None => push base o
    end) base overlay.

Definition merge_granularity (base : option MetricsGranularity) (overlay : MetricsGranularity) : MetricsGranularity :=
  let g := default {| mg_default := EmptyString; mg_overrides := ∅ |} base in
  {| mg_default := or_base (mg_default overlay) (mg_default g); mg_overrides := mg_overrides overlay ∪ mg_overrides g |}.

Definition merge_categories (base : option MetricsCategories) (overlay : MetricsCategories) : MetricsCategories :=
  let c := default {| mc_include := []; mc_exclude := []; mc_include_set := false; mc_exclude_set := false |} base in
  {| mc_include := if mc_include_set overlay then mc_include overlay else mc_include c;
     mc_exclude := if mc_exclude_set overlay then mc_exclude overlay else mc_exclude c;
     mc_include_set := mc_include_set overlay || mc_include_set c;
     mc_exclude_set := mc_exclude_set overlay || mc_exclude_set c |}.

Definition merge_event_export (base : option MetricsEventExport) (overlay : MetricsEventExport) : MetricsEventExport :=
  let e := default {| ee_collect := None; ee_emit := None |} base in
  {| ee_collect := or_else (ee_collect overlay) (ee_collect e); ee_emit := or_else (ee_emit overlay) (ee_emit e) |}.

(** A sub-message: merged when the overlay has it, the base's otherwise. *)
Definition merge_section {A} (f : option A -> A -> A) (base overlay : option A) : option A :=
  match overlay with Some o => Some (f base o) | None => base end.

Definition merge_metrics (base : option MetricsConfig) (overlay : MetricsConfig) : MetricsConfig :=
  let m := default MetricsConfig_default base in
  {| me_enabled := or_else (me_enabled overlay) (me_enabled m);
     me_profile := or_base (me_profile overlay) (me_profile m);
     me_base := or_base (me_base overlay) (me_base m);
     me_collection := union_with (fun o b => Some (merge_collect_emit b o)) (me_collection overlay) (me_collection m);
     me_granularity := merge_section merge_granularity (me_granularity m) (me_granularity overlay);
     me_categories := merge_section merge_categories (me_categories m) (me_categories overlay);
     me_event_export := merge_section merge_event_export (me_event_export m) (me_event_export overlay);
     me_prometheus := merge_section merge_prometheus (me_prometheus m) (me_prometheus overlay);
     me_otel := merge_section merge_otel (me_otel m) (me_otel overlay);
     me_user_metrics := merge_user_metrics (me_user_metrics m) (me_user_metrics overlay) |}.

(** *** The whole configuration *)

(** A list that replaces the base's unless it is empty. *)
Definition or_list {A} (overlay base : list A) : list A := match overlay with [] => base | _ => overlay end.

Definition merge_configs (base overlay : Config) (mode : MergeMode) : result Config ConfigError :=
  let? ps := merge_pools mode (pools base) (pools overlay) in
  Ok {| schema_version := schema_version overlay;
        listeners := or_else (listeners overlay) (listeners base);
        forward := or_else (forward overlay) (forward base);
        orchestrator := or_else (orchestrator overlay) (orchestrator base);
        events := or_else (events overlay) (events base);
        rhai := or_else (rhai overlay) (rhai base);
        pools := ps;
        control := or_else (control overlay) (control base);
        rules := rules base;
        logging := or_else (logging overlay) (logging base);
        data_sources := or_list (data_sources overlay) (data_sources base);
        metrics := merge_section merge_metrics (metrics base) (metrics overlay);
        tracing := tracing base;
        dataplane := or_else (dataplane overlay) (dataplane base);
        shutdown := or_else (shutdown overlay) (shutdown base);
        data_source_limits := or_else (data_source_limits overlay) (data_source_limits base);
        caches := or_list (caches overlay) (caches base);
        lookup := or_else (lookup overlay) (lookup base);
        acls := or_else (acls overlay) (acls base) |}.

Definition merge_overlay_patches (base patch : Config) : result Config ConfigError :=
  merge_configs base patch AccumulateOverlay.

Definition merge_file_and_overlay (file overlay : Config) : result Config ConfigError :=
  merge_configs file overlay ApplyToBaseline.

(** [None] is the panic of the [expect]. *)
Definition effective (e : EffectiveConfig) : option Config :=
  match ef_overlay e with
  | Some overlay => result_ok (merge_file_and_overlay (ef_file e) overlay)
  | None => Some (ef_file e)
  end.

Definition clear_overlay (e : EffectiveConfig) : EffectiveConfig := {| ef_file := ef_file e; ef_overlay := None |}.

Definition is_none {A} (o : option A) : bool := negb (is_someb o).
Definition is_nil {A} (l : list A) : bool := match l with [] => true | _ => false end.

Definition is_overlay_patch_empty (cfg : Config) : bool :=
  is_none (listeners cfg) && is_none (forward cfg) && is_none (orchestrator cfg) && is_none (events cfg)
  && is_none (rhai cfg) && is_none (control cfg) && is_none (logging cfg) && is_none (dataplane cfg)
  && is_none (shutdown cfg) && is_nil (pools cfg) && is_nil (data_sources cfg) && is_none (data_source_limits cfg)
  && is_none (lookup cfg) && is_nil (caches cfg) && is_none (acls cfg) && is_none (metrics cfg).

(** The errors of [validate_overlay_patch], by the section they name. *)
Inductive OverlayError := OverlayHasRules | OverlayHasTracing.

Definition validate_overlay_patch (patch : Config) : list OverlayError :=
  (if is_someb (rules patch) then [OverlayHasRules] else []) ++
  (if is_someb (tracing patch) then [OverlayHasTracing] else []).
End Data.
