(* ===== verification/Synthesize.v ===== *)
(** * Synthesize: an overlay that turns the file configuration into a desired one

    src/crates/conduit-config/src/synthesize.rs, and the round trip its header states: merging
    the synthesized overlay onto the file gives the desired configuration back, for
    the configurations that changes by primitives lead to. *)

From stdpp Require Import strings gmap.
From Stdlib Require Import String.
From S2P Require Import Prelude Config.

#[local] Open Scope string_scope.
#[local] Open Scope list_scope.
#[local] Open Scope Z_scope.

Definition find_backend (haystack : list Backend) (needle : Backend) : option Backend :=
  match (let! name := nonempty (be_name needle) in List.find (has_name name) haystack) with
  | Some b => Some b
  | None =>
      if negb (is_empty (be_address needle)) then List.find (has_address (be_address needle)) haystack else None
  end.

Definition remove_marker_for (b : Backend) : Backend :=
  match nonempty (be_name b) with
  | Some name => Backend_default <| be_name := Some name |> <| be_remove := Some true |>
  | None => Backend_default <| be_address := be_address b |> <| be_remove := Some true |>
  end.

(** One field of [backend_delta]: the delta with the desired value, and that it changed. *)
Definition delta_field {A} `{EqDecision A} (p : Backend -> A) `{!Setter p} (file_b desired_b : Backend)
    (d : Backend * bool) : Backend * bool :=
  if decide (p desired_b = p file_b) then d else (set p (p desired_b) d.1, true).

Definition backend_delta (file_b desired_b : Backend) : option Backend :=
  let delta :=
    match nonempty (be_name desired_b) with
    | Some name => Backend_default <| be_name := Some name |>
    | None =>
        if negb (is_empty (be_address desired_b)) then Backend_default <| be_address := be_address desired_b |>
        else match nonempty (be_name file_b) with
             | Some name => Backend_default <| be_name := Some name |>
             | None => Backend_default <| be_address := be_address file_b |>
             end
    end in
  let d := if is_empty (be_address desired_b) then (delta, false)
           else delta_field be_address file_b desired_b (delta, false) in
  let d := delta_field be_name file_b desired_b d in
  let d := delta_field be_weight file_b desired_b d in
  let d := delta_field be_probe_qname file_b desired_b d in
  let d := delta_field be_probe_qtype file_b desired_b d in
  let d := delta_field be_probe_source file_b desired_b d in
  let d := delta_field be_transport file_b desired_b d in
  if d.2 then Some d.1 else None.

(** The part of [synthesize_backends] for one backend of the file. *)
Definition synthesize_backend (desired : list Backend) (file_b : Backend) : list Backend :=
  match find_backend desired file_b with
  | None => [remove_marker_for file_b]
  | Some desired_b => match backend_delta file_b desired_b with Some delta => [delta] | None => [] end
  end.

Definition added_backend (file : list Backend) (desired_b : Backend) : list Backend :=
  if is_someb (find_backend file desired_b) then [] else [desired_b <| be_remove := None |>].

Definition synthesize_backends (file desired : list Backend) : list Backend :=
  flat_map (synthesize_backend desired) file ++ flat_map (added_backend file) desired.

Section Synthesize.
Context `{Sections}.

(** The part of [synthesize_pools] for one pool of the file. *)
Definition synthesize_pool (desired : list Pool) (file_pool : Pool) : list Pool :=
  match List.find (has_pool_name (po_name file_pool)) desired with
  | None => [MkPoolCfg (po_name file_pool) [] [] [] None None (Some true)]
  | Some desired_pool =>
      match synthesize_backends (po_backends file_pool) (po_backends desired_pool) with
      | [] => []
      | bs => [MkPoolCfg (po_name file_pool) bs [] [] None None None]
      end
  end.

Definition added_pool (file : list Pool) (desired_pool : Pool) : list Pool :=
  if existsb (has_pool_name (po_name desired_pool)) file then [] else [unmarked desired_pool].

Definition synthesize_pools (file desired : list Pool) : list Pool :=
  flat_map (synthesize_pool desired) file ++ flat_map (added_pool file) desired.

Definition synthesize_user_metrics (file desired : list UserMetricExportConfig) : list UserMetricExportConfig :=
  flat_map (fun d =>
    match List.find (fun f => String.eqb (um_name f) (um_name d)) file with
    | Some f => if decide (f = d) then [] else [d]
    | None => [d]
    end) desired.

(** [if desired.x != file.x { delta.x = desired.x }], on a field with the default [d]. *)
Definition differing {A} `{EqDecision A} (d file desired : A) : A := if decide (desired = file) then d else desired.

Definition metrics_delta (file desired : MetricsConfig) : MetricsConfig := {|
  me_enabled := differing None (me_enabled file) (me_enabled desired);
  me_profile := differing EmptyString (me_profile file) (me_profile desired);
  me_base := differing EmptyString (me_base file) (me_base desired);
  me_prometheus := differing None (me_prometheus file) (me_prometheus desired);
  me_otel := differing None (me_otel file) (me_otel desired);
  me_event_export := differing None (me_event_export file) (me_event_export desired);
  me_categories := differing None (me_categories file) (me_categories desired);
  me_granularity := differing None (me_granularity file) (me_granularity desired);
  me_collection := filter (fun kv => me_collection file !! kv.1 <> Some kv.2) (me_collection desired);
  me_user_metrics := synthesize_user_metrics (me_user_metrics file) (me_user_metrics desired);
|}.

Definition synthesize_metrics (file desired : option MetricsConfig) : option MetricsConfig :=
  match file, desired with
  | _, None => None
  | None, Some desired => Some desired
  | Some file, Some desired => if decide (file = desired) then None else Some (metrics_delta file desired)
  end.

Definition synthesize_list {A} `{EqDecision A} (err : ConfigError) (file desired : list A) : result (list A) ConfigError :=
  if decide (file = desired) then Ok []
  else if is_nil desired && negb (is_nil file) then Err err
  else Ok desired.

Definition synthesize_data_sources : list DataSource -> list DataSource -> result (list DataSource) ConfigError :=
  synthesize_list CannotClearDataSources.
Definition synthesize_caches : list CacheInstance -> list CacheInstance -> result (list CacheInstance) ConfigError :=
  synthesize_list CannotClearCaches.

Definition synthesize_overlay (file desired : Config) : result Config ConfigError :=
  let? ds := synthesize_data_sources (data_sources file) (data_sources desired) in
  let? cs := synthesize_caches (caches file) (caches desired) in
  Ok {| schema_version := schema_version desired;
        listeners := differing None (listeners file) (listeners desired);
        forward := differing None (forward file) (forward desired);
        orchestrator := differing None (orchestrator file) (orchestrator desired);
        events := differing None (events file) (events desired);
        rhai := differing None (rhai file) (rhai desired);
        pools := synthesize_pools (pools file) (pools desired);
        control := differing None (control file) (control desired);
        rules := None;
        logging := differing None (logging file) (logging desired);
        data_sources := ds;
        metrics := synthesize_metrics (metrics file) (metrics desired);
        tracing := None;
        dataplane := differing None (dataplane file) (dataplane desired);
        shutdown := differing None (shutdown file) (shutdown desired);
        data_source_limits := differing None (data_source_limits file) (data_source_limits desired);
        caches := cs;
        lookup := differing None (lookup file) (lookup desired);
        acls := differing None (acls file) (acls desired) |}.
End Synthesize.

(** ** The round trip: backends *)

Abbreviation addresses := (fmap (M := list) be_address).
Abbreviation names := (omap (M := list) (fun b => nonempty (be_name b))).

(** Every backend can be told apart by its address, and by its name if it has one. *)
Record told_apart (l : list Backend) : Prop := {
  ta_addresses : NoDup (addresses l);
  ta_nonempty : Forall (fun b => be_address b <> EmptyString) l;
  ta_names : NoDup (names l);
  ta_unmarked : Forall (fun b => be_remove b = None) l;
}.

Lemma is_empty_false s : s <> EmptyString -> is_empty s = false.
Proof. unfold is_empty. by destruct (String.eqb_spec s EmptyString). Qed.

Lemma nonempty_Some o n : nonempty o = Some n <-> o = Some n /\ n <> EmptyString.
Proof. unfold nonempty. destruct o as [s|]; [|naive_solver]. destruct (String.eqb_spec s EmptyString); naive_solver. Qed.

Lemma told_apart_app l l' : told_apart (l ++ l') <->
  told_apart l /\ told_apart l' /\
  (forall b b', b ∈ l -> b' ∈ l' -> be_address b <> be_address b' /\
     forall n, nonempty (be_name b) = Some n -> nonempty (be_name b') <> Some n).
Proof.
  split.
  - intros [Ha Hn Hm Hu]. rewrite fmap_app in Ha. rewrite omap_app in Hm.
    apply NoDup_app in Ha as (Ha1 & Ha2 & Ha3). apply NoDup_app in Hm as (Hm1 & Hm2 & Hm3).
    rewrite Forall_app in Hn, Hu. destruct Hn, Hu. split_and!; [by constructor|by constructor|].
    intros b b' Hb Hb'. split.
    + intros E. apply (Ha2 (be_address b)); [by apply list_elem_of_fmap_2|]. rewrite E. by apply list_elem_of_fmap_2.
    + intros n En En'. apply (Hm2 n); apply list_elem_of_omap; eauto.
  - intros ([Ha1 Hn1 Hm1 Hu1] & [Ha2 Hn2 Hm2 Hu2] & Hd). split.
    + rewrite fmap_app. apply NoDup_app. split_and!; [done| |done].
      intros a (b & -> & Hb)%list_elem_of_fmap (b' & E & Hb')%list_elem_of_fmap. by destruct (Hd b b' Hb Hb').
    + by apply Forall_app.
    + rewrite omap_app. apply NoDup_app. split_and!; [done| |done].
      intros n (b & Hb & En)%list_elem_of_omap (b' & Hb' & En')%list_elem_of_omap.
      destruct (Hd b b' Hb Hb') as [_ Hd']. by apply (Hd' n En).
    + by apply Forall_app.
Qed.

Lemma told_apart_cons b l : told_apart (b :: l) <->
  be_address b <> EmptyString /\ be_remove b = None /\ told_apart l /\
  (forall b', b' ∈ l -> be_address b <> be_address b' /\
     forall n, nonempty (be_name b) = Some n -> nonempty (be_name b') <> Some n).
Proof.
  rewrite (told_apart_app [b] l). split.
  - intros ([_ Hn _ Hu] & Hl & Hd). rewrite Forall_singleton in Hn, Hu. split_and!; [done..|].
    intros b' Hb'. apply Hd; [by left|done].
  - intros (Hn & Hu & Hl & Hd). split_and!; [|done|].
    + split; [apply NoDup_singleton|by constructor| |by constructor].
      cbn. destruct (nonempty (be_name b)); [apply NoDup_singleton|constructor].
    + intros c b' ->%list_elem_of_singleton. apply Hd.
Qed.

(** An update of a backend that the primitives make: its weight. *)
Definition reweighted (b b' : Backend) : Prop :=
  b' = b <| be_weight := be_weight b' |> /\ (be_weight b' = be_weight b \/ is_Some (be_weight b')).

(** [kept] is [file] with some backends left out and others given a weight. *)
Inductive derived : list Backend -> list Backend -> Prop :=
  | derived_nil : derived [] []
  | derived_drop b file kept : derived file kept -> derived (b :: file) kept
  | derived_keep b b' file kept : reweighted b b' -> derived file kept -> derived (b :: file) (b' :: kept).

Lemma reweighted_same b b' : reweighted b b' ->
  be_address b' = be_address b /\ be_name b' = be_name b /\ be_remove b' = be_remove b.
Proof. intros [-> _]. done. Qed.

Lemma derived_elem file kept b' : derived file kept -> b' ∈ kept -> exists b, b ∈ file /\ reweighted b b'.
Proof.
  induction 1 as [|b file kept _ IH|b c file kept Hb _ IH]; intros Hin; [by apply elem_of_nil in Hin|..].
  - destruct (IH Hin) as (b0 & ? & ?). exists b0. split; [by right|done].
  - apply elem_of_cons in Hin as [-> |Hin]; [exists b; split; [left|done]|].
    destruct (IH Hin) as (b0 & ? & ?). exists b0. split; [by right|done].
Qed.

(** Replacing a part of a list by one derived from it keeps its backends apart. *)
Lemma told_apart_derived file kept : derived file kept -> told_apart file -> told_apart kept.
Proof.
  induction 1 as [|b file kept _ IH|b c file kept Hb Hd IH]; [done|..].
  - intros (_ & _ & Hf & _)%told_apart_cons. by apply IH.
  - intros (Hn & Hu & Hf & Hdis)%told_apart_cons. destruct (reweighted_same _ _ Hb) as (Ea & En & Er).
    apply told_apart_cons. rewrite Ea, En, Er. split_and!; [done|done|by apply IH|].
    intros b' Hb'. destruct (derived_elem _ _ _ Hd Hb') as (b0 & H0 & Hr). destruct (reweighted_same _ _ Hr) as (Ea' & En' & _).
    rewrite Ea', En'. by apply Hdis.
Qed.

(** The test by which the merge looks for a backend: by its name if it has one, else by its address. *)
Definition same_id (b : Backend) : Backend -> bool :=
  match nonempty (be_name b) with Some n => has_name n | None => has_address (be_address b) end.

(** Two backends that nothing confuses. *)
Definition apart (b b' : Backend) : Prop :=
  be_address b <> be_address b' /\ forall n, nonempty (be_name b) = Some n -> nonempty (be_name b') <> Some n.

Lemma has_name_apart b b' n : apart b b' -> nonempty (be_name b) = Some n -> has_name n b' = false.
Proof.
  intros [_ Hd] Hn. unfold has_name. apply bool_decide_false. intros E. apply (Hd n Hn).
  apply nonempty_Some in Hn as [_ Hn]. by apply nonempty_Some.
Qed.

Lemma has_address_apart b b' : apart b b' -> has_address (be_address b) b' = false.
Proof. intros [Ha _]. unfold has_address. destruct (String.eqb_spec (be_address b') (be_address b)); [congruence|done]. Qed.

Lemma same_id_apart b b' : apart b b' -> same_id b b' = false.
Proof.
  intros Hd. unfold same_id. destruct (nonempty (be_name b)) as [n|] eqn:En; [by apply (has_name_apart b)|by apply has_address_apart].
Qed.

Lemma same_id_same b b' : be_name b' = be_name b -> be_address b' = be_address b -> same_id b b' = true.
Proof.
  intros En Ea. unfold same_id. destruct (nonempty (be_name b)) as [n|] eqn:E.
  - apply nonempty_Some in E as [E _]. unfold has_name. apply bool_decide_true. congruence.
  - unfold has_address. rewrite Ea. apply String.eqb_refl.
Qed.

Lemma apart_in l b r : told_apart (l ++ b :: r) -> Forall (apart b) l /\ Forall (apart b) r.
Proof.
  intros (Hl & Hr & Hd)%told_apart_app. apply told_apart_cons in Hr as (_ & _ & _ & Hr). split; apply Forall_forall.
  - intros c Hc. destruct (Hd c b Hc) as [Ha Hn]; [by left|]. split; [done|]. intros n E E'. by apply (Hn n).
  - exact Hr.
Qed.

Lemma retain_all {A} (p : A -> bool) l : Forall (fun a => p a = true) l -> retain p l = l.
Proof. induction 1 as [|a l Ha _ IH]; [done|]. simpl. rewrite Ha. by f_equal. Qed.

Lemma retain_one b l r : told_apart (l ++ b :: r) -> retain (fun c => negb (same_id b c)) (l ++ b :: r) = l ++ r.
Proof.
  intros [Hl Hr]%apart_in. unfold retain. rewrite List.filter_app. simpl. rewrite same_id_same by done. simpl.
  f_equal; apply retain_all; (eapply Forall_impl; [eassumption|]); intros c Hc; by rewrite same_id_apart.
Qed.

Lemma update_first_one {A} (p : A -> bool) f l a r :
  Forall (fun c => p c = false) l -> p a = true -> update_first p f (l ++ a :: r) = Some (l ++ f a :: r).
Proof. intros Hl Ha. induction Hl as [|c l Hc _ IH]; simpl; [by rewrite Ha|]. by rewrite Hc, IH. Qed.

Lemma update_first_none {A} (p : A -> bool) f l : Forall (fun c => p c = false) l -> update_first p f l = None.
Proof. induction 1 as [|c l Hc _ IH]; [done|]. simpl. by rewrite Hc, IH. Qed.

Lemma find_none_all {A} (p : A -> bool) l : Forall (fun c => p c = false) l -> List.find p l = None.
Proof. induction 1 as [|c l Hc _ IH]; [done|]. simpl. by rewrite Hc. Qed.

Lemma find_one {A} (p : A -> bool) l a r :
  Forall (fun c => p c = false) l -> p a = true -> List.find p (l ++ a :: r) = Some a.
Proof. intros Hl Ha. induction Hl as [|c l Hc _ IH]; simpl; [by rewrite Ha|]. by rewrite Hc. Qed.

(** Looking for a backend finds the one of its name and address, and nothing among others. *)
Lemma find_backend_same l b b' : told_apart l -> b' ∈ l -> be_name b' = be_name b -> be_address b' = be_address b ->
  find_backend l b = Some b'.
Proof.
  intros Hl (l1 & l2 & ->)%list_elem_of_split En Ea. pose proof Hl as [H1 _]%apart_in.
  assert (be_address b <> EmptyString) as Hne
    by (apply told_apart_app in Hl as (_ & (Hn & _)%told_apart_cons & _); congruence).
  unfold find_backend. destruct (nonempty (be_name b)) as [n|] eqn:E.
  - rewrite (find_one (has_name n)); [done| |].
    + eapply Forall_impl; [exact H1|]. intros c Hc. apply (has_name_apart b'); [done|congruence].
    + apply nonempty_Some in E as [E _]. unfold has_name. apply bool_decide_true. congruence.
  - rewrite is_empty_false by done. simpl. apply find_one.
    + eapply Forall_impl; [exact H1|]. intros c Hc. rewrite <- Ea. by apply has_address_apart.
    + unfold has_address. rewrite Ea. apply String.eqb_refl.
Qed.

Lemma find_backend_none l b : Forall (apart b) l -> find_backend l b = None.
Proof.
  intros Hl. unfold find_backend.
  assert ((let! n := nonempty (be_name b) in List.find (has_name n) l) = None) as ->.
  { destruct (nonempty (be_name b)) as [n|] eqn:E; [|done]. apply find_none_all.
    eapply Forall_impl; [exact Hl|]. intros c Hc. by apply (has_name_apart b). }
  destruct (is_empty _); [done|]. simpl. apply find_none_all. eapply Forall_impl; [exact Hl|]. apply has_address_apart.
Qed.

(** *** What one entry of the overlay does to the list it is merged onto *)

Lemma merge_remove_marker pool b l r : told_apart (l ++ b :: r) ->
  merge_backend pool ApplyToBaseline (l ++ b :: r) (remove_marker_for b) = Ok (l ++ r).
Proof.
  intros Ht. pose proof (retain_one b l r Ht) as Hret. unfold same_id in Hret.
  assert ((zlen (l ++ r) =? zlen (l ++ b :: r)) = false) as Hlen
    by (apply Z.eqb_neq; rewrite !zlen_app, zlen_cons; lia).
  assert (be_address b <> EmptyString) as Hne by (apply told_apart_app in Ht as (_ & (Hn & _)%told_apart_cons & _); done).
  unfold merge_backend, remove_marker_for, remove_backend.
  destruct (nonempty (be_name b)) as [n|] eqn:E; cbn.
  - apply nonempty_Some in E as [_ E]. rewrite (proj2 (nonempty_Some (Some n) n)) by done. by rewrite Hret, Hlen.
  - rewrite is_empty_false by done. cbn. by rewrite Hret, Hlen.
Qed.

Lemma reweighted_delta b b' : reweighted b b' -> be_address b <> EmptyString ->
  backend_delta b b' =
  if decide (be_weight b' = be_weight b) then None
  else Some (match nonempty (be_name b) with
             | Some n => Backend_default <| be_name := Some n |>
             | None => Backend_default <| be_address := be_address b |>
             end <| be_weight := be_weight b' |>).
Proof.
  intros [E _] Hne. revert E. generalize (be_weight b') as w. intros w ->. unfold backend_delta, delta_field. cbn.
  rewrite is_empty_false by done. cbn. destruct (nonempty (be_name b)); repeat case_decide; done.
Qed.

Lemma merge_delta pool b b' l r delta : told_apart (l ++ b :: r) -> reweighted b b' -> backend_delta b b' = Some delta ->
  merge_backend pool ApplyToBaseline (l ++ b :: r) delta = Ok (l ++ b' :: r).
Proof.
  intros Ht Hrw Hd. pose proof Ht as [Hl _]%apart_in.
  assert (be_address b <> EmptyString /\ be_remove b = None) as [Hne Hrem]
    by (apply told_apart_app in Ht as (_ & (Hn & Hu & _)%told_apart_cons & _); done).
  rewrite (reweighted_delta _ _ Hrw Hne) in Hd. case_decide as Hw; [done|]. injection Hd as <-.
  destruct Hrw as [E [Hs|[w Hs]]]; [done|]. rewrite Hs in *. clear Hw. unfold merge_backend.
  assert (forall ob, update_first (same_id b) (overlaid ob) (l ++ b :: r) = Some (l ++ overlaid ob b :: r)) as Hup.
  { intros ob. apply update_first_one; [|by apply same_id_same].
    eapply Forall_impl; [exact Hl|]. intros c. apply same_id_apart. }
  unfold same_id in Hup. destruct (nonempty (be_name b)) as [n|] eqn:En; cbn.
  - apply nonempty_Some in En as [En Hn]. rewrite (proj2 (nonempty_Some (Some n) n)) by done. rewrite Hup.
    do 3 f_equal. rewrite E. unfold overlaid, apply_backend_overlay. cbn. destruct b. cbn in *. by subst.
  - change (nonempty None) with (@None string). rewrite is_empty_false by done. cbn. rewrite Hup.
    do 3 f_equal. rewrite E. unfold overlaid, apply_backend_overlay. cbn. rewrite is_empty_false by done.
    destruct b. cbn in *. by subst.
Qed.

Lemma merge_backends_app pool mode base o1 o2 :
  merge_backends pool mode base (o1 ++ o2) =
  let? base := merge_backends pool mode base o1 in merge_backends pool mode base o2.
Proof.
  revert base. induction o1 as [|ob o1 IH]; intros base; [done|]. simpl.
  destruct (merge_backend pool mode base ob); [apply IH|done].
Qed.

(** The desired list against which the overlay of [file] is made. *)
Record desired_of (file kept new : list Backend) : Prop := {
  do_kept : derived file kept;
  do_new : told_apart (file ++ new);
}.

Lemma desired_told_apart file kept new : desired_of file kept new -> told_apart (kept ++ new).
Proof.
  intros [Hk Hn]. apply told_apart_app in Hn as (Hf & Hn & Hd). apply told_apart_app.
  split_and!; [by apply (told_apart_derived file)|done|]. intros b b' Hb Hb'.
  destruct (derived_elem _ _ _ Hk Hb) as (b0 & Hb0 & Hr). destruct (reweighted_same _ _ Hr) as (Ea & En & _).
  rewrite Ea, En. by apply Hd.
Qed.

Lemma derived_app f1 f2 k1 k2 : derived f1 k1 -> derived f2 k2 -> derived (f1 ++ f2) (k1 ++ k2).
Proof. induction 1; simpl; intros; [done|by constructor; auto|by constructor; auto]. Qed.

Lemma derived_refl l : derived l l.
Proof. induction l as [|b l IH]; [constructor|]. apply derived_keep; [by split; [destruct b|left]|done]. Qed.

(** A backend of the file is found in the desired list exactly when it was kept. *)
Lemma synthesize_dropped file kept new f1 b f2 k1 k2 :
  desired_of file kept new -> file = f1 ++ b :: f2 -> kept = k1 ++ k2 -> derived f1 k1 -> derived f2 k2 ->
  synthesize_backend (kept ++ new) b = [remove_marker_for b].
Proof.
  intros Hd -> -> H1 H2. unfold synthesize_backend. rewrite find_backend_none; [done|].
  destruct Hd as [_ Ht]. apply told_apart_app in Ht as (Hf & _ & Hn). pose proof Hf as [Ha1 Ha2]%apart_in.
  assert (forall f k, Forall (apart b) f -> derived f k -> Forall (apart b) k) as Hk.
  { intros f k Hfa Hdk. apply Forall_forall. intros c Hc. destruct (derived_elem _ _ _ Hdk Hc) as (c0 & Hc0 & Hr).
    destruct (reweighted_same _ _ Hr) as (Ea & En & _). rewrite Forall_forall in Hfa. specialize (Hfa c0 Hc0).
    unfold apart. by rewrite Ea, En. }
  rewrite !Forall_app. split_and!; [by apply (Hk f1)|by apply (Hk f2)|]. apply Forall_forall. intros c Hc. apply Hn; [set_solver|done].
Qed.

Lemma synthesize_kept file kept new b b' :
  desired_of file kept new -> b' ∈ kept -> reweighted b b' ->
  synthesize_backend (kept ++ new) b = match backend_delta b b' with Some delta => [delta] | None => [] end.
Proof.
  intros Hd Hin Hr. unfold synthesize_backend. destruct (reweighted_same _ _ Hr) as (Ea & En & _).
  rewrite (find_backend_same _ b b'); [done|by eapply desired_told_apart|set_solver|done|done].
Qed.

(** The overlay of the file's backends turns them into the kept ones, front to back. *)
Lemma merge_file_part pool file kept new : desired_of file kept new -> forall f2 f1 k1 k2,
  file = f1 ++ f2 -> kept = k1 ++ k2 -> derived f1 k1 -> derived f2 k2 ->
  merge_backends pool ApplyToBaseline (k1 ++ f2) (flat_map (synthesize_backend (kept ++ new)) f2) = Ok (k1 ++ k2).
Proof.
  intros Hd. set (D := kept ++ new). induction f2 as [|b f2 IH]; intros f1 k1 k2 Hf Hk H1 H2; simpl.
  - by inversion H2.
  - assert (told_apart (k1 ++ b :: f2)) as Ht.
    { pose proof (derived_app _ _ _ _ H1 (derived_refl (b :: f2))) as Hdd.
      destruct Hd as [_ Hn]. apply told_apart_app in Hn as (Hn & _). rewrite Hf in Hn. by eapply told_apart_derived. }
    rewrite merge_backends_app. inversion H2 as [|? ? ? H2'|? b' ? k2' Hb H2']; subst b0.
    + subst. rewrite (synthesize_dropped _ _ _ f1 b f2 k1 k2 Hd eq_refl eq_refl H1 H2' : synthesize_backend D b = _). simpl.
      rewrite merge_remove_marker by done. apply (IH (f1 ++ [b]) k1 k2); [by rewrite <- app_assoc|done| |done].
      rewrite <- (app_nil_r k1). apply derived_app; [done|by repeat constructor].
    + subst. assert (b' ∈ k1 ++ b' :: k2') as Hin by set_solver.
      rewrite (synthesize_kept _ _ _ b b' Hd Hin Hb : synthesize_backend D b = _).
      assert (merge_backends pool ApplyToBaseline (k1 ++ b :: f2)
        match backend_delta b b' with Some delta => [delta] | None => [] end = Ok (k1 ++ b' :: f2)) as ->.
      { destruct (backend_delta b b') as [delta|] eqn:Ed; simpl; [by rewrite (merge_delta pool b b')|].
        assert (be_address b <> EmptyString) as Hne by (apply told_apart_app in Ht as (_ & (Hn & _)%told_apart_cons & _); done).
        rewrite (reweighted_delta _ _ Hb Hne) in Ed. case_decide as Hw; [|done]. destruct Hb as [E _]. rewrite Hw in E.
        rewrite E. by destruct b. }
      pose proof (IH (f1 ++ [b]) (k1 ++ [b']) k2') as Hih. rewrite <- !app_assoc in Hih. apply Hih; [done|done| |done].
      apply derived_app; [done|]. by apply derived_keep; [|constructor].
Qed.

Lemma merge_new pool b base : told_apart (base ++ [b]) -> merge_backend pool ApplyToBaseline base b = Ok (base ++ [b]).
Proof.
  intros Ht. pose proof Ht as [Ha _]%apart_in.
  apply told_apart_app in Ht as (_ & (Hn & Hu & _)%told_apart_cons & _).
  assert (b <| be_remove := None |> = b) as Eb by (destruct b; cbn in *; by subst).
  assert (forall f, update_first (same_id b) f base = None) as Hup.
  { intros f. apply update_first_none. eapply Forall_impl; [exact Ha|]. intros c. apply same_id_apart. }
  unfold merge_backend, same_id, push in *. rewrite Hu. simpl.
  destruct (nonempty (be_name b)); rewrite is_empty_false by done; cbn; by rewrite Hup, Eb.
Qed.

Lemma merge_added pool new : forall base, told_apart (base ++ new) ->
  merge_backends pool ApplyToBaseline base new = Ok (base ++ new).
Proof.
  induction new as [|b new IH]; intros base Ht; simpl; [by rewrite app_nil_r|].
  change (b :: new) with ([b] ++ new) in *. rewrite app_assoc in *.
  rewrite merge_new by by apply told_apart_app in Ht as [Ht _]. by apply IH.
Qed.

Lemma added_part file kept new : desired_of file kept new -> flat_map (added_backend file) (kept ++ new) = new.
Proof.
  intros [Hk Hn]. rewrite flat_map_app. apply told_apart_app in Hn as (Hf & Hn & Hd).
  assert (flat_map (added_backend file) kept = []) as ->.
  { assert (forall l, (forall b, b ∈ l -> b ∈ kept) -> flat_map (added_backend file) l = []) as H; [|by apply H].
    induction l as [|b' l IH]; intros Hl; [done|]. simpl. rewrite IH by set_solver.
    destruct (derived_elem _ _ b' Hk) as (b & Hb & Hr); [apply Hl; set_solver|].
    destruct (reweighted_same _ _ Hr) as (Ea & En & _). unfold added_backend. by rewrite (find_backend_same file b' b). }
  assert (forall l, (forall b, b ∈ l -> b ∈ new) -> flat_map (added_backend file) l = l) as H; [|by apply H].
  induction l as [|b l IH]; intros Hl; [done|]. simpl. rewrite IH by set_solver. unfold added_backend.
  assert (b ∈ new) as Hb by (apply Hl; set_solver). rewrite find_backend_none.
  - simpl. f_equal. pose proof (ta_unmarked _ Hn) as Hu. rewrite Forall_forall in Hu. specialize (Hu b Hb). destruct b. cbn in *. by subst.
  - apply Forall_forall. intros c Hc. destruct (Hd c b Hc Hb) as [H1 H2]. split; [done|]. intros n E E'. by apply (H2 n).
Qed.

(** Merging the synthesized backends gives the desired list. *)
Lemma backends_round_trip pool file kept new : desired_of file kept new ->
  merge_backends pool ApplyToBaseline file (synthesize_backends file (kept ++ new)) = Ok (kept ++ new).
Proof.
  intros Hd. unfold synthesize_backends. rewrite merge_backends_app, (added_part _ _ _ Hd).
  pose proof (merge_file_part pool file kept new Hd file [] [] kept eq_refl eq_refl derived_nil (do_kept _ _ _ Hd)) as Hm.
  cbn [app] in Hm. rewrite Hm.
  by apply merge_added, (desired_told_apart file).
Qed.

(** ** The round trip: pools *)

Section Pools.
Context `{Sections}.

Abbreviation pool_names := (fmap (M := list) po_name).

(** Pools are told apart by their names, which are not empty, and carry no remove marker. *)
Record pools_apart (l : list Pool) : Prop := {
  pa_names : NoDup (pool_names l);
  pa_nonempty : Forall (fun p => po_name p <> EmptyString) l;
  pa_unmarked : Forall (fun p => po_remove p = None) l;
}.

(** A pool with backends left out, reweighted or added. *)
Definition repooled (p p' : Pool) : Prop :=
  exists kept new, desired_of (po_backends p) kept new /\ p' = p <| po_backends := kept ++ new |>.

Inductive pools_derived : list Pool -> list Pool -> Prop :=
  | pools_nil : pools_derived [] []
  | pools_drop p file kept : pools_derived file kept -> pools_derived (p :: file) kept
  | pools_keep p p' file kept : repooled p p' -> pools_derived file kept -> pools_derived (p :: file) (p' :: kept).

Record pools_desired (file kept new : list Pool) : Prop := {
  pd_kept : pools_derived file kept;
  pd_new : pools_apart (file ++ new);
  pd_unmarked : Forall (fun p => Forall (fun b => be_remove b = None) (po_backends p)) new;
}.

Lemma has_pool_name_spec n p : has_pool_name n p = bool_decide (po_name p = n).
Proof. unfold has_pool_name. destruct (String.eqb_spec (po_name p) n); [by rewrite bool_decide_true|by rewrite bool_decide_false]. Qed.

Lemma repooled_name p p' : repooled p p' -> po_name p' = po_name p /\ po_remove p' = po_remove p.
Proof. by intros (k & n & _ & ->). Qed.

Lemma pools_derived_names file kept n : pools_derived file kept -> n ∈ pool_names kept -> n ∈ pool_names file.
Proof.
  induction 1 as [|p file kept _ IH|p p' file kept Hp _ IH]; cbn; intros Hn; [done|set_solver|].
  destruct (repooled_name _ _ Hp) as [E _]. rewrite E in Hn. set_solver.
Qed.

Lemma pools_derived_apart file kept : pools_derived file kept -> pools_apart file -> pools_apart kept.
Proof.
  induction 1 as [|p file kept _ IH|p p' file kept Hp Hd IH]; [done|..];
    intros [Hn Hne Hu]; cbn in Hn; apply NoDup_cons in Hn as [Hni Hn]; apply Forall_cons in Hne as [He Hne];
    apply Forall_cons in Hu as [Hm Hu]; destruct (IH (Build_pools_apart _ Hn Hne Hu)) as [Kn Kne Ku]; [done|].
  destruct (repooled_name _ _ Hp) as [E Er]. split; cbn; [|by constructor; [congruence|]|by constructor; [congruence|]].
  apply NoDup_cons. split; [|done]. rewrite E. intros Hin. by apply Hni, (pools_derived_names file kept).
Qed.

Lemma pools_derived_app f1 f2 k1 k2 : pools_derived f1 k1 -> pools_derived f2 k2 -> pools_derived (f1 ++ f2) (k1 ++ k2).
Proof. induction 1; simpl; intros; [done|by constructor; auto|by constructor; auto]. Qed.

Lemma repooled_refl p : told_apart (po_backends p) -> repooled p p.
Proof.
  intros Ht. exists (po_backends p), []. rewrite app_nil_r. split; [split; [apply derived_refl|by rewrite app_nil_r]|by destruct p].
Qed.

(** *** Looking for a pool *)

Lemma names_absent n l : n ∉ pool_names l -> Forall (fun p => has_pool_name n p = false) l.
Proof.
  intros Hn. apply Forall_forall. intros p Hp. rewrite has_pool_name_spec. apply bool_decide_false.
  intros E. apply Hn. rewrite <- E. by apply list_elem_of_fmap_2.
Qed.

Lemma pool_split_absent l p r : pools_apart (l ++ p :: r) -> (po_name p ∉ pool_names l) /\ (po_name p ∉ pool_names r).
Proof.
  intros [Hn _ _]. rewrite fmap_app, fmap_cons in Hn. apply NoDup_app in Hn as (_ & Hd & Hr).
  apply NoDup_cons in Hr as [Hr _]. split; [|done]. intros Hin. apply (Hd _ Hin). by left.
Qed.

Lemma find_pool l p r : pools_apart (l ++ p :: r) -> List.find (has_pool_name (po_name p)) (l ++ p :: r) = Some p.
Proof.
  intros [Hl _]%pool_split_absent. apply find_one; [by apply names_absent|].
  unfold has_pool_name. apply String.eqb_refl.
Qed.

Lemma merge_pool_marker l p r : pools_apart (l ++ p :: r) ->
  merge_pool ApplyToBaseline (l ++ p :: r) (MkPoolCfg (po_name p) [] [] [] None None (Some true)) = Ok (l ++ r).
Proof.
  intros Ha. pose proof (pool_split_absent _ _ _ Ha) as [Hl Hr]. destruct Ha as [_ Hne _].
  apply Forall_app in Hne as [_ [Hne _]%Forall_cons]. unfold merge_pool. cbn. rewrite is_empty_false by done.
  unfold retain. rewrite List.filter_app. simpl. rewrite (String.eqb_refl _ : has_pool_name _ p = true). simpl.
  assert (forall l, po_name p ∉ pool_names l -> List.filter (fun q => negb (has_pool_name (po_name p) q)) l = l) as Hf.
  { intros l' Hl'. apply (retain_all (fun q => negb (has_pool_name (po_name p) q))).
    eapply Forall_impl; [by apply names_absent|]. intros q Hq. cbn in Hq. by rewrite Hq. }
  rewrite !Hf by done. destruct (Z.eqb_spec (zlen (l ++ r)) (zlen (l ++ p :: r))) as [E|]; [|done].
  rewrite !zlen_app, zlen_cons in E. lia.
Qed.

Lemma merge_into_pool_one l p r op bs : pools_apart (l ++ p :: r) -> po_name op = po_name p ->
  merge_backends (po_name p) ApplyToBaseline (po_backends p) (po_backends op) = Ok bs ->
  merge_into_pool ApplyToBaseline (l ++ p :: r) op = Some (Ok (l ++ (p <| po_backends := bs |>) :: r)).
Proof.
  intros Ha En Hm. pose proof (pool_split_absent _ _ _ Ha) as [Hl _]. destruct Ha as [_ _ Hu].
  apply Forall_app in Hu as [_ [Hu _]%Forall_cons].
  apply names_absent in Hl. induction Hl as [|q l Hq _ IH]; simpl; rewrite En.
  - rewrite (String.eqb_refl _ : has_pool_name _ p = true), Hm. destruct p. cbn in *. by subst.
  - by rewrite Hq, IH.
Qed.

(** What the overlay entry of one pool of the file does. *)
Lemma merge_repooled l p p' r D : pools_apart (l ++ p :: r) -> repooled p p' ->
  List.find (has_pool_name (po_name p)) D = Some p' ->
  merge_pools ApplyToBaseline (l ++ p :: r) (synthesize_pool D p) = Ok (l ++ p' :: r).
Proof.
  intros Ha (kept & new & Hd & ->) Hf. unfold synthesize_pool. rewrite Hf.
  pose proof (backends_round_trip (po_name p) _ _ _ Hd) as Hrt. cbn [po_backends] in *.
  change (po_backends (p <| po_backends := kept ++ new |>)) with (kept ++ new).
  destruct (synthesize_backends (po_backends p) (kept ++ new)) as [|ob obs].
  - cbn in *. injection Hrt as <-. by destruct p.
  - cbn [merge_pools]. unfold merge_pool. cbn [po_remove default].
    rewrite (merge_into_pool_one l p r _ (kept ++ new)) by done. done.
Qed.

Lemma merge_pools_app mode base o1 o2 :
  merge_pools mode base (o1 ++ o2) = let? base := merge_pools mode base o1 in merge_pools mode base o2.
Proof.
  revert base. induction o1 as [|op o1 IH]; intros base; [done|]. simpl. destruct (merge_pool mode base op); [apply IH|done].
Qed.

Lemma pools_apart_app l l' : pools_apart (l ++ l') <->
  pools_apart l /\ pools_apart l' /\ forall n, n ∈ pool_names l -> n ∉ pool_names l'.
Proof.
  split.
  - intros [Hn He Hu]. rewrite fmap_app in Hn. apply NoDup_app in Hn as (? & ? & ?). apply Forall_app in He as [? ?].
    apply Forall_app in Hu as [? ?]. split_and!; [by constructor|by constructor|done].
  - intros ([] & [] & Hd). split; [|by apply Forall_app|by apply Forall_app]. rewrite fmap_app. by apply NoDup_app.
Qed.

Lemma pools_desired_apart file kept new : pools_desired file kept new -> pools_apart (kept ++ new).
Proof.
  intros [Hk Hn _]. apply pools_apart_app in Hn as (Hf & Hn & Hd). apply pools_apart_app.
  split_and!; [by apply (pools_derived_apart file)|done|]. intros n Hin. apply Hd. by apply (pools_derived_names file kept).
Qed.

Lemma merge_pools_file file kept new : pools_desired file kept new -> Forall (fun p => told_apart (po_backends p)) file ->
  forall f2 f1 k1 k2, file = f1 ++ f2 -> kept = k1 ++ k2 -> pools_derived f1 k1 -> pools_derived f2 k2 ->
  merge_pools ApplyToBaseline (k1 ++ f2) (flat_map (synthesize_pool (kept ++ new)) f2) = Ok (k1 ++ k2).
Proof.
  intros Hd Hbs. set (D := kept ++ new). pose proof (pools_desired_apart _ _ _ Hd) as HD. fold D in HD.
  induction f2 as [|p f2 IH]; intros f1 k1 k2 Hf Hk H1 H2; simpl; [by inversion H2|].
  destruct Hd as [Hk0 Hn _]. apply pools_apart_app in Hn as (Hfa & _ & Hfd).
  assert (pools_apart (k1 ++ p :: f2)) as Ht.
  { rewrite Hf in Hfa, Hbs. apply Forall_app in Hbs as [_ Hbs].
    refine (pools_derived_apart _ _ (pools_derived_app _ _ _ _ H1 _) Hfa).
    clear -Hbs. induction Hbs; constructor; [by apply repooled_refl|done]. }
  rewrite merge_pools_app. inversion H2 as [|? ? ? H2'|? p' ? k2' Hp H2']; subst p0.
  - assert (List.find (has_pool_name (po_name p)) D = None) as Hfind.
    { apply find_none_all, names_absent. unfold D. rewrite fmap_app, elem_of_app. intros [Hin|Hin].
      - rewrite Hf in Hfa. destruct (pool_split_absent _ _ _ Hfa) as [Ha1 Ha2]. rewrite Hk, fmap_app in Hin.
        apply elem_of_app in Hin as [Hin|Hin]; [by apply Ha1, (pools_derived_names f1 k1)|].
        by apply Ha2, (pools_derived_names f2 k2).
      - apply (Hfd (po_name p)); [|done]. rewrite Hf, fmap_app. set_solver. }
    unfold synthesize_pool at 1. rewrite Hfind. cbn [merge_pools]. rewrite merge_pool_marker by done.
    apply (IH (f1 ++ [p]) k1 k2); [by rewrite <- app_assoc|done| |done].
    rewrite <- (app_nil_r k1). apply pools_derived_app; [done|by repeat constructor].
  - subst k2. destruct (repooled_name _ _ Hp) as [En _].
    assert (D = k1 ++ p' :: (k2' ++ new)) as ED by (unfold D; by rewrite Hk, <- app_assoc).
    rewrite (merge_repooled k1 p p' f2 D Ht Hp) by (rewrite <- En, ED; apply find_pool; by rewrite <- ED).
    pose proof (IH (f1 ++ [p]) (k1 ++ [p']) k2') as Hih. rewrite <- !app_assoc in Hih. apply Hih; [done|done| |done].
    apply pools_derived_app; [done|]. by apply pools_keep; [|constructor].
Qed.

Lemma unmarked_same p : po_remove p = None -> Forall (fun b => be_remove b = None) (po_backends p) -> unmarked p = p.
Proof.
  intros Hp Hb. unfold unmarked. assert ((fun b => b <| be_remove := None |>) <$> po_backends p = po_backends p) as ->.
  { induction Hb as [|b l Hb _ IH]; [done|]. cbn. rewrite IH. f_equal. destruct b. cbn in *. by subst. }
  destruct p. cbn in *. by subst.
Qed.

Lemma merge_pool_new base p : pools_apart (base ++ [p]) -> unmarked p = p ->
  merge_pool ApplyToBaseline base p = Ok (base ++ [p]).
Proof.
  intros Ha Hu. destruct (pool_split_absent _ _ _ Ha) as [Hl _]. destruct Ha as [_ _ Hm].
  apply Forall_app in Hm as [_ [Hm _]%Forall_cons]. unfold merge_pool. rewrite Hm. cbn [default].
  assert (merge_into_pool ApplyToBaseline base p = None) as ->; [|by rewrite Hu].
  apply names_absent in Hl. induction Hl as [|q l Hq _ IH]; [done|]. simpl. by rewrite Hq, IH.
Qed.

Lemma merge_pools_added new : Forall (fun p => unmarked p = p) new -> forall base, pools_apart (base ++ new) ->
  merge_pools ApplyToBaseline base new = Ok (base ++ new).
Proof.
  induction 1 as [|p new Hp _ IH]; intros base Ha; simpl; [by rewrite app_nil_r|].
  change (p :: new) with ([p] ++ new) in *. rewrite app_assoc in *.
  rewrite merge_pool_new; [by apply IH| |done]. by apply pools_apart_app in Ha as [Ha _].
Qed.

Lemma added_pools file kept new : pools_desired file kept new -> flat_map (added_pool file) (kept ++ new) = new.
Proof.
  intros [Hk Hn Hu]. apply pools_apart_app in Hn as (_ & Hn & Hd). rewrite flat_map_app.
  assert (forall p, existsb (has_pool_name (po_name p)) file = bool_decide (po_name p ∈ pool_names file)) as Hex.
  { intros p. apply Bool.eq_iff_eq_true. rewrite existsb_exists, bool_decide_eq_true, list_elem_of_fmap.
    split; intros (q & H1 & H2); exists q.
    - rewrite has_pool_name_spec, bool_decide_eq_true in H2. split; [done|by apply list_elem_of_In].
    - rewrite has_pool_name_spec, bool_decide_eq_true. split; [by apply list_elem_of_In|done]. }
  assert (forall l, (forall n, n ∈ pool_names l -> n ∈ pool_names file) -> flat_map (added_pool file) l = []) as H1.
  { induction l as [|p l IH]; intros Hl; [done|]. simpl. rewrite IH by set_solver. unfold added_pool.
    rewrite Hex, bool_decide_true by set_solver. done. }
  rewrite H1 by (intros n; by apply pools_derived_names). simpl. destruct Hn as [_ _ Hr].
  assert (Forall (fun p => po_name p ∉ pool_names file) new) as Hf.
  { apply Forall_forall. intros p Hp Hin. apply (Hd _ Hin). by apply list_elem_of_fmap_2. }
  clear Hd Hk. induction new as [|p new IH]; [done|]. apply Forall_cons in Hu as [Hu1 Hu], Hr as [Hr1 Hr], Hf as [Hf1 Hf].
  simpl. rewrite IH by done. unfold added_pool. rewrite Hex, bool_decide_false by done. simpl. by rewrite unmarked_same.
Qed.

(** Merging the synthesized pools gives the desired ones. *)
Lemma pools_round_trip file kept new :
  pools_desired file kept new -> Forall (fun p => told_apart (po_backends p)) file ->
  merge_pools ApplyToBaseline file (synthesize_pools file (kept ++ new)) = Ok (kept ++ new).
Proof.
  intros Hd Hb. unfold synthesize_pools. rewrite merge_pools_app, (added_pools _ _ _ Hd).
  pose proof (merge_pools_file _ _ _ Hd Hb file [] [] kept eq_refl eq_refl pools_nil (pd_kept _ _ _ Hd)) as Hm.
  cbn [app] in Hm. rewrite Hm. apply merge_pools_added; [|by apply (pools_desired_apart file)].
  destruct Hd as [_ Hn Hu]. apply pools_apart_app in Hn as (_ & [_ _ Hr] & _).
  eapply Forall_impl; [apply Forall_and; split; [exact Hu|exact Hr]|]. intros p [H1 H2]. by apply unmarked_same.
Qed.
End Pools.

(** ** The round trip: metrics

    A metrics section can only be added to: fields are set, never cleared. *)

Definition ext_str (m d : string) : Prop := d = m \/ d <> EmptyString.
Definition ext_opt {A} (m d : option A) : Prop := d = m \/ is_Some d.
Definition ext_map {A} (m d : gmap string A) : Prop := forall k, is_Some (m !! k) -> is_Some (d !! k).
Definition ext_section {A} (R : A -> A -> Prop) (dflt : A) (m d : option A) : Prop :=
  d = m \/ exists d0, d = Some d0 /\ R (default dflt m) d0.

Definition ext_prometheus (m d : PrometheusMetricsConfig) : Prop :=
  ext_str (pm_listen_address m) (pm_listen_address d) /\ ext_str (pm_path m) (pm_path d).
Definition ext_otel (m d : OtelMetricsConfig) : Prop :=
  ext_str (ot_endpoint m) (ot_endpoint d) /\
  (ot_push_interval_ms d = ot_push_interval_ms m \/ ot_push_interval_ms d <> 0) /\
  ext_map (ot_resource_attributes m) (ot_resource_attributes d) /\
  ext_opt (ot_allow_invalid_certs m) (ot_allow_invalid_certs d) /\ ext_map (ot_headers m) (ot_headers d).
Definition ext_granularity (m d : MetricsGranularity) : Prop :=
  ext_str (mg_default m) (mg_default d) /\ ext_map (mg_overrides m) (mg_overrides d).
Definition ext_categories (m d : MetricsCategories) : Prop :=
  (mc_include_set d = true \/ mc_include d = mc_include m /\ mc_include_set m = false) /\
  (mc_exclude_set d = true \/ mc_exclude d = mc_exclude m /\ mc_exclude_set m = false).
Definition ext_event_export (m d : MetricsEventExport) : Prop :=
  ext_opt (ee_collect m) (ee_collect d) /\ ext_opt (ee_emit m) (ee_emit d).
Definition ext_collect_emit (m d : MetricsCollectEmit) : Prop :=
  ext_opt (ce_collect m) (ce_collect d) /\ ext_opt (ce_emit m) (ce_emit d).
Definition ext_user_metric (m d : UserMetricExportConfig) : Prop :=
  um_name d = um_name m /\ ext_str (um_export m) (um_export d) /\ ext_opt (um_collect m) (um_collect d) /\
  ext_opt (um_emit m) (um_emit d) /\ ext_str (um_help m) (um_help d).

Abbreviation metric_names := (fmap (M := list) um_name).
Abbreviation no_prometheus := {| pm_listen_address := EmptyString; pm_path := EmptyString |}.
Abbreviation no_otel := {| ot_endpoint := EmptyString; ot_push_interval_ms := 0; ot_resource_attributes := ∅;
                           ot_allow_invalid_certs := None; ot_headers := ∅ |}.
Abbreviation no_granularity := {| mg_default := EmptyString; mg_overrides := ∅ |}.
Abbreviation no_categories := {| mc_include := []; mc_exclude := []; mc_include_set := false; mc_exclude_set := false |}.
Abbreviation no_event_export := {| ee_collect := None; ee_emit := None |}.

Record ext_metrics (m d : MetricsConfig) : Prop := {
  xm_enabled : ext_opt (me_enabled m) (me_enabled d);
  xm_profile : ext_str (me_profile m) (me_profile d);
  xm_base : ext_str (me_base m) (me_base d);
  xm_prometheus : ext_section ext_prometheus no_prometheus (me_prometheus m) (me_prometheus d);
  xm_otel : ext_section ext_otel no_otel (me_otel m) (me_otel d);
  xm_granularity : ext_section ext_granularity no_granularity (me_granularity m) (me_granularity d);
  xm_categories : ext_section ext_categories no_categories (me_categories m) (me_categories d);
  xm_event_export : ext_section ext_event_export no_event_export (me_event_export m) (me_event_export d);
  xm_collection k : match me_collection m !! k, me_collection d !! k with
                    | Some c, Some c' => c' = c \/ ext_collect_emit c c'
                    | Some _, None => False
                    | None, _ => True
                    end;
  xm_user_metrics : exists upd new, me_user_metrics d = upd ++ new /\ Forall2 ext_user_metric (me_user_metrics m) upd;
  xm_user_names : NoDup (metric_names (me_user_metrics d));
}.

(** *** Merging what is desired onto what it extends gives it back *)

Lemma or_base_ext m d : ext_str m d -> or_base d m = d.
Proof. unfold or_base, is_empty. intros Hx. destruct (String.eqb_spec d EmptyString) as [-> |]; [|done]. by destruct Hx. Qed.

Lemma or_else_ext {A} (m d : option A) : ext_opt m d -> or_else d m = d.
Proof. by destruct d; intros [E|[? E]]. Qed.

Lemma union_ext {A} (m d : gmap string A) : ext_map m d -> d ∪ m = d.
Proof.
  intros Hx. apply map_eq. intros k. rewrite lookup_union. specialize (Hx k).
  destruct (m !! k), (d !! k); cbn; try done. by destruct Hx.
Qed.

Lemma differing_str m d : ext_str m d -> or_base (differing EmptyString m d) m = d.
Proof. intros Hx. unfold differing. case_decide as E; [by rewrite E|by apply or_base_ext]. Qed.

Lemma differing_opt {A} `{EqDecision A} (m d : option A) : ext_opt m d -> or_else (differing None m d) m = d.
Proof. intros Hx. unfold differing. case_decide as E; [by rewrite E|by apply or_else_ext]. Qed.

Lemma merge_section_ext {A} (R : A -> A -> Prop) dflt (f : option A -> A -> A) (m d : option A) :
  (forall d0, R (default dflt m) d0 -> f m d0 = d0) -> ext_section R dflt m d -> d <> m -> merge_section f m d = d.
Proof. intros Hf [E|(d0 & -> & Hr)] Hne; [done|]. simpl. by rewrite Hf. Qed.

Lemma differing_section {A} `{EqDecision A} (R : A -> A -> Prop) dflt (f : option A -> A -> A) (m d : option A) :
  (forall d0, R (default dflt m) d0 -> f m d0 = d0) -> ext_section R dflt m d ->
  merge_section f m (differing None m d) = d.
Proof. intros Hf Hx. unfold differing. case_decide as E; [by rewrite E|by apply (merge_section_ext R dflt)]. Qed.

Lemma prometheus_ext m d : ext_prometheus (default no_prometheus m) d -> merge_prometheus m d = d.
Proof. intros [H1 H2]. unfold merge_prometheus. rewrite !or_base_ext by done. by destruct d. Qed.

Lemma otel_ext m d : ext_otel (default no_otel m) d -> merge_otel m d = d.
Proof.
  intros (H1 & H2 & H3 & H4 & H5). unfold merge_otel. rewrite or_base_ext, !union_ext, or_else_ext by done.
  destruct (Z.eqb_spec (ot_push_interval_ms d) 0) as [E|]; [|by destruct d].
  destruct H2 as [<-|]; [|done]. by destruct d.
Qed.

Lemma granularity_ext m d : ext_granularity (default no_granularity m) d -> merge_granularity m d = d.
Proof. intros [H1 H2]. unfold merge_granularity. rewrite or_base_ext, union_ext by done. by destruct d. Qed.

Lemma categories_ext m d : ext_categories (default no_categories m) d -> merge_categories m d = d.
Proof.
  unfold merge_categories, ext_categories. generalize (default no_categories m). intros [i' x' si' sx'].
  destruct d as [i x si sx]. cbn. intros [H1 H2]. destruct si, sx, si', sx'; cbn; naive_solver.
Qed.

Lemma event_export_ext m d : ext_event_export (default no_event_export m) d -> merge_event_export m d = d.
Proof. intros [H1 H2]. unfold merge_event_export. rewrite !or_else_ext by done. by destruct d. Qed.

Lemma collect_emit_ext m d : ext_collect_emit m d -> merge_collect_emit m d = d.
Proof. intros [H1 H2]. unfold merge_collect_emit. rewrite !or_else_ext by done. by destruct d. Qed.

Lemma user_metric_ext m d : ext_user_metric m d -> merge_user_metric d m = d.
Proof.
  intros (H1 & H2 & H3 & H4 & H5). unfold merge_user_metric. rewrite !or_base_ext, !or_else_ext by done.
  destruct d. cbn in *. by subst.
Qed.

(** *** User metrics *)

Lemma update_metric_none n f l : n ∉ metric_names l -> update_first (fun u => String.eqb (um_name u) n) f l = None.
Proof.
  intros Hn. apply update_first_none, Forall_forall. intros u Hu. apply String.eqb_neq. intros E. apply Hn. rewrite <- E.
  by apply list_elem_of_fmap_2.
Qed.

Lemma find_metric_none n l : n ∉ metric_names l -> List.find (fun u => String.eqb (um_name u) n) l = None.
Proof.
  intros Hn. apply find_none_all, Forall_forall. intros u Hu. apply String.eqb_neq. intros E. apply Hn. rewrite <- E.
  by apply list_elem_of_fmap_2.
Qed.

Lemma find_metric_one l u r : NoDup (metric_names (l ++ u :: r)) ->
  List.find (fun v => String.eqb (um_name v) (um_name u)) (l ++ u :: r) = Some u.
Proof.
  rewrite fmap_app. intros (_ & Hd & _)%NoDup_app. apply find_one; [|apply String.eqb_refl].
  apply Forall_forall. intros v Hv. apply String.eqb_neq. intros E. apply (Hd (um_name v)); [by apply list_elem_of_fmap_2|].
  rewrite E, fmap_cons. by left.
Qed.

Lemma merge_metrics_fresh new : forall base, NoDup (metric_names (base ++ new)) -> merge_user_metrics base new = base ++ new.
Proof.
  unfold merge_user_metrics. induction new as [|u new IH]; intros base Hn; cbn [foldl]; [by rewrite app_nil_r|].
  change (u :: new) with ([u] ++ new) in *. rewrite app_assoc in *. rewrite update_metric_none; [by apply IH|].
  rewrite !fmap_app in Hn. apply NoDup_app in Hn as (Hn & _ & _). apply NoDup_app in Hn as (_ & Hd & _).
  intros Hin. apply (Hd _ Hin). by left.
Qed.

Lemma metric_names_ext f u : Forall2 ext_user_metric f u -> metric_names u = metric_names f.
Proof. induction 1 as [|a b f u Hab _ IH]; [done|]. cbn. rewrite IH. by destruct Hab as [-> _]. Qed.

(** The changed entries of the file, front to back: [u1] is done, [f2] is not. *)
Lemma merge_changed f2 u2 : Forall2 ext_user_metric f2 u2 -> forall u1 f1,
  metric_names u1 = metric_names f1 -> NoDup (metric_names (f1 ++ f2)) ->
  merge_user_metrics (u1 ++ f2)
    (flat_map (fun d => match List.find (fun f => String.eqb (um_name f) (um_name d)) (f1 ++ f2) with
                        | Some f => if decide (f = d) then [] else [d]
                        | None => [d]
                        end) u2) = u1 ++ u2.
Proof.
  induction 1 as [|f u f2 u2 Hfu Hf2 IH]; intros u1 f1 En Hn; [done|]. cbn [flat_map].
  assert (um_name u = um_name f) as Eu by by destruct Hfu. rewrite Eu, (find_metric_one f1 f f2) by done.
  specialize (IH (u1 ++ [u]) (f1 ++ [f])). rewrite <- !app_assoc in IH. cbn [app] in IH. rewrite !fmap_app in IH.
  cbn in IH. rewrite Eu, En in IH. specialize (IH eq_refl). rewrite fmap_app in Hn. specialize (IH Hn).
  case_decide as E; [by subst u|]. cbn [app]. unfold merge_user_metrics in *. cbn [foldl].
  rewrite (update_first_one _ _ u1 f f2); [| |by rewrite Eu; apply String.eqb_refl].
  - rewrite (user_metric_ext f u Hfu). exact IH.
  - apply NoDup_app in Hn as (_ & Hd & _). apply Forall_forall. intros v Hv. rewrite Eu. apply String.eqb_neq. intros Ev.
    apply (Hd (um_name v)); [rewrite <- En; by apply list_elem_of_fmap_2|]. rewrite Ev. by left.
Qed.

Lemma user_metrics_round_trip file upd new :
  Forall2 ext_user_metric file upd -> NoDup (metric_names (upd ++ new)) ->
  merge_user_metrics file (synthesize_user_metrics file (upd ++ new)) = upd ++ new.
Proof.
  intros Hx Hn. unfold synthesize_user_metrics. rewrite flat_map_app. pose proof (metric_names_ext _ _ Hx) as En.
  rewrite fmap_app in Hn. apply NoDup_app in Hn as (Hn1 & Hd & Hn2). rewrite En in *.
  unfold merge_user_metrics. rewrite foldl_app.
  pose proof (merge_changed file upd Hx [] [] eq_refl Hn1) as Hm. unfold merge_user_metrics in Hm. cbn [app] in Hm. rewrite Hm.
  match goal with |- foldl _ upd (flat_map ?g new) = _ => assert (flat_map g new = new) as Hg end.
  { clear Hn2. induction new as [|d new IH]; [done|]. cbn [flat_map]. rewrite IH by (intros x Hx'; specialize (Hd x Hx'); set_solver).
    rewrite find_metric_none; [done|]. intros Hin. apply (Hd _ Hin). by left. }
  rewrite Hg. apply merge_metrics_fresh. rewrite fmap_app, En. by apply NoDup_app.
Qed.

(** *** The whole section *)

Lemma collection_round_trip (m d : gmap string MetricsCollectEmit) :
  (forall k, match m !! k, d !! k with
             | Some c, Some c' => c' = c \/ ext_collect_emit c c' | Some _, None => False | None, _ => True end) ->
  union_with (fun o b => Some (merge_collect_emit b o)) (filter (fun kv => m !! kv.1 <> Some kv.2) d) m = d.
Proof.
  intros Hx. apply map_eq. intros k. rewrite lookup_union_with. specialize (Hx k).
  destruct (d !! k) as [c'|] eqn:Ed.
  - destruct (decide (m !! k = Some c')) as [E|E].
    + rewrite map_lookup_filter_None_2 by (right; intros x Hx1 Hx2; cbn in Hx2; congruence). by rewrite E.
    + rewrite (map_lookup_filter_Some_2 _ _ _ c') by done. destruct (m !! k) as [c|]; [|done]. cbn.
      destruct Hx as [-> |Hx]; [done|]. by rewrite collect_emit_ext.
  - rewrite map_lookup_filter_None_2 by by left. by destruct (m !! k).
Qed.

Lemma metrics_delta_round_trip m d : ext_metrics m d -> merge_metrics (Some m) (metrics_delta m d) = d.
Proof.
  intros [X1 X2 X3 X4 X5 X6 X7 X8 X9 (upd & new & Eu & X10) X11]. unfold merge_metrics, metrics_delta. cbn.
  rewrite !differing_str, differing_opt, collection_round_trip by done.
  rewrite (differing_section ext_prometheus no_prometheus) by (done || apply prometheus_ext).
  rewrite (differing_section ext_otel no_otel) by (done || apply otel_ext).
  rewrite (differing_section ext_granularity no_granularity) by (done || apply granularity_ext).
  rewrite (differing_section ext_categories no_categories) by (done || apply categories_ext).
  rewrite (differing_section ext_event_export no_event_export) by (done || apply event_export_ext).
  rewrite Eu in *. rewrite user_metrics_round_trip by done. rewrite <- Eu. by destruct d.
Qed.

Lemma metrics_alone d : ext_metrics MetricsConfig_default d -> merge_metrics None d = d.
Proof.
  intros [X1 X2 X3 X4 X5 X6 X7 X8 _ _ X11]. unfold merge_metrics. cbn in *.
  rewrite !or_base_ext, or_else_ext by done.
  assert (forall A (R : A -> A -> Prop) dflt f (x : option A), (forall d0, R (default dflt None) d0 -> f None d0 = d0) ->
    ext_section R dflt None x -> merge_section f None x = x) as Hs.
  { intros A R dflt f x Hf [-> |(d0 & -> & Hr)]; [done|]. cbn. by rewrite Hf. }
  rewrite (Hs _ ext_prometheus no_prometheus) by (done || apply (prometheus_ext None)).
  rewrite (Hs _ ext_otel no_otel) by (done || apply (otel_ext None)).
  rewrite (Hs _ ext_granularity no_granularity) by (done || apply (granularity_ext None)).
  rewrite (Hs _ ext_categories no_categories) by (done || apply (categories_ext None)).
  rewrite (Hs _ ext_event_export no_event_export) by (done || apply (event_export_ext None)).
  rewrite (merge_metrics_fresh _ []) by done. cbn.
  assert (union_with (fun o b => Some (merge_collect_emit b o)) (me_collection d) ∅ = me_collection d) as ->; [|by destruct d].
  apply map_eq. intros k. rewrite lookup_union_with, lookup_empty. by destruct (me_collection d !! k).
Qed.

(** *** Merging a patch only adds *)

Lemma ext_str_or m x o : ext_str m x -> ext_str m (or_base o x).
Proof. unfold ext_str, or_base, is_empty. intros Hx. destruct (String.eqb_spec o EmptyString); [done|by right]. Qed.

Lemma ext_opt_or {A} (m x o : option A) : ext_opt m x -> ext_opt m (or_else o x).
Proof. intros Hx. destruct o; [by right|done]. Qed.

Lemma ext_map_union {A} (m x o : gmap string A) : ext_map m x -> ext_map m (o ∪ x).
Proof. intros Hx k Hk. rewrite lookup_union. destruct (o !! k), (Hx k Hk) as [? ->]; cbn; eauto. Qed.

Lemma ext_section_merge {A} (R : A -> A -> Prop) dflt (f : option A -> A -> A) (m x o : option A) :
  (forall a, R a a) -> (forall a b c, R a (default dflt b) -> R a (f b c)) ->
  ext_section R dflt m x -> ext_section R dflt m (merge_section f x o).
Proof.
  intros Hrefl Hf Hx. destruct o as [c|]; [|done]. right. eexists. split; [done|]. apply Hf.
  destruct Hx as [-> |(d0 & -> & Hr)]; [done|]. done.
Qed.

Lemma ext_prometheus_merge a b c : ext_prometheus a (default no_prometheus b) -> ext_prometheus a (merge_prometheus b c).
Proof. intros [H1 H2]. split; by apply ext_str_or. Qed.

Lemma ext_otel_merge a b c : ext_otel a (default no_otel b) -> ext_otel a (merge_otel b c).
Proof.
  intros (H1 & H2 & H3 & H4 & H5). split_and!;
    [by apply ext_str_or| |by apply ext_map_union|by apply ext_opt_or|by apply ext_map_union].
  unfold merge_otel. cbn. destruct (Z.eqb_spec (ot_push_interval_ms c) 0); [done|by right].
Qed.

Lemma ext_granularity_merge a b c : ext_granularity a (default no_granularity b) -> ext_granularity a (merge_granularity b c).
Proof. intros [H1 H2]. split; [by apply ext_str_or|by apply ext_map_union]. Qed.

Lemma ext_categories_merge a b c : ext_categories a (default no_categories b) -> ext_categories a (merge_categories b c).
Proof.
  unfold ext_categories, merge_categories. cbn. destruct (mc_include_set c), (mc_exclude_set c); cbn; tauto.
Qed.

Lemma ext_event_export_merge a b c : ext_event_export a (default no_event_export b) -> ext_event_export a (merge_event_export b c).
Proof. intros [H1 H2]. split; by apply ext_opt_or. Qed.

Lemma ext_user_metric_merge a b c : ext_user_metric a b -> ext_user_metric a (merge_user_metric c b).
Proof.
  intros (H1 & H2 & H3 & H4 & H5). split_and!; [done|by apply ext_str_or|by apply ext_opt_or|by apply ext_opt_or|by apply ext_str_or].
Qed.

Lemma ext_opt_refl {A} (m : option A) : ext_opt m m. Proof. by left. Qed.
Lemma ext_str_refl m : ext_str m m. Proof. by left. Qed.
Lemma ext_map_refl {A} (m : gmap string A) : ext_map m m. Proof. by intros k. Qed.
#[local] Hint Resolve ext_opt_refl ext_str_refl ext_map_refl : core.

Lemma ext_prometheus_refl m : ext_prometheus m m. Proof. by split. Qed.
Lemma ext_otel_refl m : ext_otel m m. Proof. split_and!; auto. Qed.
Lemma ext_granularity_refl m : ext_granularity m m. Proof. by split. Qed.
Lemma ext_categories_refl m : ext_categories m m.
Proof. unfold ext_categories. destruct (mc_include_set m), (mc_exclude_set m); auto. Qed.
Lemma ext_event_export_refl m : ext_event_export m m. Proof. by split. Qed.
Lemma ext_user_metric_refl m : ext_user_metric m m. Proof. by split_and!. Qed.

Lemma ext_metrics_refl m : NoDup (metric_names (me_user_metrics m)) -> ext_metrics m m.
Proof.
  intros Hn. split; auto; try by left.
  - intros k. destruct (me_collection m !! k); [by left|done].
  - exists (me_user_metrics m), []. rewrite app_nil_r. split; [done|]. apply Forall2_same_length_lookup_2; [done|].
    intros i x y Hx Hy. simplify_eq. apply ext_user_metric_refl.
Qed.

(** One entry of a patch of user metrics, merged into an extension of the file's. *)
Lemma user_metrics_step (f : list UserMetricExportConfig) (l : list UserMetricExportConfig) o :
  (exists upd new, l = upd ++ new /\ Forall2 ext_user_metric f upd) -> NoDup (metric_names l) ->
  let l' := match update_first (fun u => String.eqb (um_name u) (um_name o)) (merge_user_metric o) l with
            | Some l => l | None => push l o end in
  (exists upd new, l' = upd ++ new /\ Forall2 ext_user_metric f upd) /\ NoDup (metric_names l').
Proof.
  intros (upd & new & -> & Hf) Hn. cbv zeta.
  destruct (update_first _ _ (upd ++ new)) as [l'|] eqn:Eu.
  - assert (metric_names l' = metric_names (upd ++ new)) as En.
    { clear -Eu. revert l' Eu. induction (upd ++ new) as [|u l IH]; [done|]. cbn. intros l'. destruct (String.eqb _ _).
      - by intros [= <-].
      - destruct (update_first _ _ l) as [l0|]; [|done]. intros [= <-]. cbn. by rewrite (IH l0). }
    rewrite En. split; [|done]. clear Hn En. revert l' Eu. induction Hf as [|a b f upd Hab Hf IH]; intros l' Eu.
    + by exists [], l'.
    + cbn in Eu. destruct (String.eqb _ _).
      * injection Eu as <-. exists (merge_user_metric o b :: upd), new. split; [done|]. constructor; [by apply ext_user_metric_merge|done].
      * destruct (update_first _ _ (upd ++ new)) as [l0|]; [|done]. injection Eu as <-.
        destruct (IH l0 eq_refl) as (u' & n' & -> & Hu'). exists (b :: u'), n'. split; [done|by constructor].
  - unfold push. split; [exists upd, (new ++ [o]); by rewrite app_assoc|]. rewrite fmap_app. apply NoDup_app.
    split_and!; [done| |apply NoDup_singleton]. intros n Hin ->%list_elem_of_singleton.
    clear -Eu Hin. induction (upd ++ new) as [|u l IH]; [by apply elem_of_nil in Hin|]. cbn in *.
    destruct (String.eqb_spec (um_name u) (um_name o)); [done|]. destruct (update_first _ _ l); [done|].
    apply elem_of_cons in Hin as [E|Hin]; [congruence|auto].
Qed.

Lemma user_metrics_merge f l os :
  (exists upd new, l = upd ++ new /\ Forall2 ext_user_metric f upd) -> NoDup (metric_names l) ->
  (exists upd new, merge_user_metrics l os = upd ++ new /\ Forall2 ext_user_metric f upd) /\
  NoDup (metric_names (merge_user_metrics l os)).
Proof.
  unfold merge_user_metrics. revert l. induction os as [|o os IH]; intros l Hl Hn; [done|]. cbn [foldl].
  destruct (user_metrics_step f l o Hl Hn). by apply IH.
Qed.

Lemma ext_metrics_merge m x o : ext_metrics m x -> ext_metrics m (merge_metrics (Some x) o).
Proof.
  intros [X1 X2 X3 X4 X5 X6 X7 X8 X9 X10 X11]. destruct (user_metrics_merge _ _ (me_user_metrics o) X10 X11) as [U1 U2].
  split; unfold merge_metrics; cbn; [by apply ext_opt_or|by apply ext_str_or|by apply ext_str_or|..]; try done.
  - apply (ext_section_merge ext_prometheus); [apply ext_prometheus_refl|apply ext_prometheus_merge|done].
  - apply (ext_section_merge ext_otel); [apply ext_otel_refl|apply ext_otel_merge|done].
  - apply (ext_section_merge ext_granularity); [apply ext_granularity_refl|apply ext_granularity_merge|done].
  - apply (ext_section_merge ext_categories); [apply ext_categories_refl|apply ext_categories_merge|done].
  - apply (ext_section_merge ext_event_export); [apply ext_event_export_refl|apply ext_event_export_merge|done].
  - intros k. rewrite lookup_union_with. specialize (X9 k).
    destruct (me_collection m !! k) as [c|]; [|by destruct (me_collection o !! k), (me_collection x !! k)].
    destruct (me_collection x !! k) as [c'|]; [|done]. destruct (me_collection o !! k) as [co|]; cbn; [right|done].
    assert (ext_collect_emit c c') as [H1 H2] by (destruct X9 as [-> |]; [by split|done]).
    split; by apply ext_opt_or.
Qed.

(** ** The round trip of a configuration *)

Section RoundTrip.
Context `{Sections}.

(** A file configuration whose pools and backends can be told apart. *)
Record file_ok (file : Config) : Prop := {
  fo_pools : pools_apart (pools file);
  fo_backends : Forall (fun p => told_apart (po_backends p)) (pools file);
  fo_metrics : NoDup (metric_names (me_user_metrics (default MetricsConfig_default (metrics file))));
}.

(** [desired] changes the file the way the primitives do: sections are set, never cleared;
    backends and pools are left out, reweighted or added with identities the file does
    not know; metrics are added to. *)
Record changed_by_primitives (file desired : Config) : Prop := {
  cp_schema : schema_version desired = schema_version file;
  cp_listeners : ext_opt (listeners file) (listeners desired);
  cp_forward : ext_opt (forward file) (forward desired);
  cp_orchestrator : ext_opt (orchestrator file) (orchestrator desired);
  cp_events : ext_opt (events file) (events desired);
  cp_rhai : ext_opt (rhai file) (rhai desired);
  cp_pools : exists kept new, pools desired = kept ++ new /\ pools_desired (pools file) kept new;
  cp_control : ext_opt (control file) (control desired);
  cp_rules : rules desired = rules file;
  cp_logging : ext_opt (logging file) (logging desired);
  cp_data_sources : data_sources desired = [] -> data_sources file = [];
  cp_metrics : match metrics desired with
               | Some d => ext_metrics (default MetricsConfig_default (metrics file)) d
               | None => metrics file = None
               end;
  cp_tracing : tracing desired = tracing file;
  cp_dataplane : ext_opt (dataplane file) (dataplane desired);
  cp_shutdown : ext_opt (shutdown file) (shutdown desired);
  cp_limits : ext_opt (data_source_limits file) (data_source_limits desired);
  cp_caches : caches desired = [] -> caches file = [];
  cp_lookup : ext_opt (lookup file) (lookup desired);
  cp_acls : ext_opt (acls file) (acls desired);
}.

Lemma list_round_trip {A} `{EqDecision A} err (file desired : list A) : (desired = [] -> file = []) ->
  exists o, synthesize_list err file desired = Ok o /\ or_list o file = desired.
Proof.
  intros Hd. unfold synthesize_list. case_decide as E; [exists []; by subst|].
  destruct desired as [|a l]; [by destruct file; [|specialize (Hd eq_refl)]|]. cbn. by eexists.
Qed.

Lemma metrics_round_trip (file desired : option MetricsConfig) :
  match desired with
  | Some d => ext_metrics (default MetricsConfig_default file) d | None => file = None end ->
  merge_section merge_metrics file (synthesize_metrics file desired) = desired.
Proof.
  intros Hx. destruct desired as [d|]; [|subst; done]. destruct file as [m|]; cbn in *.
  - case_decide as E; [by subst|]. cbn. by rewrite metrics_delta_round_trip.
  - by rewrite metrics_alone.
Qed.

Lemma synthesize_then_merge (file desired : Config) :
  file_ok file -> changed_by_primitives file desired ->
  exists overlay, synthesize_overlay file desired = Ok overlay /\ merge_file_and_overlay file overlay = Ok desired.
Proof.
  intros [_ Fb _] Hc. destruct Hc as [C1 C2 C3 C4 C5 C6 (kept & new & Ep & Hp) C8 C9 C10 C11 C12 C13 C14 C15 C16 C17 C18 C19].
  destruct (list_round_trip CannotClearDataSources _ _ C11) as (ds & Eds & Hds).
  destruct (list_round_trip CannotClearCaches _ _ C17) as (cs & Ecs & Hcs).
  unfold synthesize_overlay, synthesize_data_sources, synthesize_caches. rewrite Eds, Ecs.
  eexists. split; [reflexivity|]. unfold merge_file_and_overlay, merge_configs. cbn.
  rewrite Ep, (pools_round_trip _ _ _ Hp Fb), <- Ep. rewrite !differing_opt by done.
  rewrite metrics_round_trip, Hds, Hcs, <- C9, <- C13 by done. by destruct desired.
Qed.


(** An overlay that says nothing leaves the file as it is. *)
Lemma empty_patch_same file overlay desired :
  is_overlay_patch_empty overlay = true -> schema_version overlay = schema_version file ->
  merge_file_and_overlay file overlay = Ok desired -> desired = file.
Proof.
  unfold is_overlay_patch_empty, is_none, is_nil, merge_file_and_overlay, merge_configs. intros He Hs.
  rewrite !andb_true_iff in He. destruct_and! He. destruct overlay. cbn in *.
  repeat match goal with
  | E : negb (is_someb ?x) = true |- _ => destruct x; [done|clear E]
  | E : match ?l with [] => true | _ :: _ => false end = true |- _ => destruct l; [clear E|done]
  end.
  cbn. intros [= <-]. subst. by destruct file.
Qed.
End RoundTrip.

(** ** Witness *)

Lemma file_unchanged `{Sections} (file : Config) : file_ok file -> changed_by_primitives file file.
Proof.
  intros [Hp Hb Hm]. split; try done; try by left.
  - exists (pools file), []. rewrite app_nil_r. split; [done|]. split; [|by rewrite app_nil_r|constructor].
    clear -Hb. induction Hb; constructor; [by apply repooled_refl|done].
  - destruct (metrics file) as [m|]; cbn in *; [by apply ext_metrics_refl|done].
Qed.

(** Configurations whose other sections hold nothing. *)
#[local] Instance bare_sections : Sections := {|
  ListenersConfig := unit; ForwardConfig := unit; ControlConfig := unit; RulesConfig := unit; LoggingConfig := unit;
  TracingConfig := unit; DataplaneConfig := unit; ShutdownConfig := unit; LookupConfig := unit; AclsConfig := unit;
  HealthCheck := unit; EventSinkFilters := unit; ConnectRetry := unit |}.

Definition named (n a : string) : Backend := Backend_default <| be_name := Some n |> <| be_address := a |>.
Definition sample_pool : Pool :=
  MkPoolCfg "main" [named "a" "192.0.2.1:53"; named "b" "192.0.2.2:53"] [] [] None None None.
Definition sample_file : Config := Config_default <| schema_version := 1 |> <| pools := [sample_pool] |>.
Lemma sample_file_ok : file_ok sample_file.
Proof.
  split; cbn; [split; cbn|..]; try (by repeat constructor; set_solver).
Qed.

Definition lighter_file : Config :=
  sample_file <| pools := [sample_pool <| po_backends := [(named "b" "192.0.2.2:53") <| be_weight := Some 7 |>] ++ [named "c" "192.0.2.3:53"] |>] |>.

