(* ===== verification/Configurator.v ===== *)
(** * Configurator: typed changes of the configuration, and their installation

    src/crates/conduit-core/src/configurator.rs: the primitives, the overlay modes,
    [prepare_effective] and [apply_proposal], with the installation of snapshot.rs. The
    tokio channel that serialises proposals is left out: a proposal is one step. Validation,
    the reading of the file, the compilation of a snapshot, the cache and health
    registries and the metrics exporters are parameters; log lines are left out. *)

From stdpp Require Import strings gmap.
From Stdlib Require Import String.
From S2P Require Import Prelude Config Synthesize.

#[local] Open Scope string_scope.
#[local] Open Scope list_scope.
#[local] Open Scope Z_scope.

Inductive ProposalSource := Grpc | File | Sighup.
Inductive OverlayApplyMode := ModeMerge | ModeReplace | ModeClear.

#[global] Instance ProposalSource_eq : EqDecision ProposalSource. Proof. solve_decision. Defined.

(** The messages of the error paths, by what they say. *)
Inductive ApplyError :=
  | UnknownPool (pool : string)
  | NoSuchBackend (pool backend : string)
  | BackendExists (pool : string)
  | AddressRequired
  | NothingToSet (primitive : string)
  | NameRequired (what : string)
  | Unknown (what name : string)
  | NoEventsSection
  | NotLmdb (name type : string)
  | MergeFailed (e : ConfigError)
  | Forbidden (e : OverlayError)
  | OverlayRequired (mode : string)
  | Message (m : string).

Section Primitives.
Context `{Sections}.

Inductive ConfigPrimitive :=
  | SetBackendWeight (pool backend : string) (weight : Z)
  | RemoveBackend (pool backend : string)
  | AddBackend (pool : string) (backend : Backend)
  | SetOrchestratorLimits (attempts duration : option Z)
  | UpsertDataSource (source : DataSource)
  | RemoveDataSource (name : string)
  | SetDataSourceLimits (limits : DataSourceLimits)
  | SetEventSinkFilters (name : string) (filters : EventSinkFilters)
  | SetEventSinkEmit (name : string) (emit fields tags : list string) (fields_set tags_set : bool)
  | SetRhaiLimits (operations depth timeout : option Z)
  | PatchMetrics (m : MetricsConfig)
  | SetCacheMaxEntries (name : string) (entries : Z)
  | SetCacheLmdbHot (name : string) (when_full : option string) (sample_size : option Z) (sync sync_interval : option string)
      (map_size_bytes : option Z)
  | SetCachePolicyHot (name : string) (negative : option CacheNegativeConfig) (on_hit : option CacheOnHitConfig)
      (truncated : option CacheTruncatedUdpConfig) (rotate : option bool).

(** [iter().position(p)]. *)
Fixpoint position {A} (p : A -> bool) (l : list A) : option nat :=
  match l with [] => None | a :: l => if p a then Some O else S <$> position p l end.

Definition find_backend_index (p : Pool) (backend_id : string) : option nat :=
  or_else (position (has_name backend_id) (po_backends p)) (position (has_address backend_id) (po_backends p)).

Definition backend_identity_exists (p : Pool) (b : Backend) : bool :=
  match nonempty (be_name b) with Some name => existsb (has_name name) (po_backends p) | None => false end
  || negb (is_empty (be_address b)) && existsb (has_address (be_address b)) (po_backends p).

(** [find_pool_mut], and what is then done with the pool it finds. *)
Definition on_pool (cfg : Config) (pool : string) (f : Pool -> result Pool ApplyError) : result Config ApplyError :=
  match List.find (has_pool_name pool) (pools cfg) with
  | None => Err (UnknownPool pool)
  | Some p =>
      let? p' := f p in
      Ok (cfg <| pools := default (pools cfg) (update_first (has_pool_name pool) (fun _ => p') (pools cfg)) |>)
  end.

Definition event_sink_name (s : EventSink) : string :=
  match nonempty (es_name s) with Some n => n | None => es_export_id s end.

(** [find_event_sink_mut]. *)
Definition on_event_sink (cfg : Config) (name : string) (f : EventSink -> EventSink) : result Config ApplyError :=
  if is_empty name then Err (NameRequired "event sink")
  else
    match events cfg with
    | None => Err NoEventsSection
    | Some ev =>
        match update_first (fun s => String.eqb (event_sink_name s) name) f (ev_sinks ev) with
        | None => Err (Unknown "event sink" name)
        | Some sinks => Ok (cfg <| events := Some (MkEvents (ev_queue_depth ev) (ev_drop_policy ev) sinks) |>)
        end
    end.

(** [find_cache_mut]. *)
Definition on_cache (cfg : Config) (name : string) (f : CacheInstance -> result CacheInstance ApplyError)
    : result Config ApplyError :=
  if is_empty name then Err (NameRequired "cache")
  else
    match List.find (fun c => String.eqb (ca_name c) name) (caches cfg) with
    | None => Err (Unknown "cache" name)
    | Some c =>
        let? c' := f c in
        Ok (cfg <| caches := default (caches cfg)
                               (update_first (fun c => String.eqb (ca_name c) name) (fun _ => c') (caches cfg)) |>)
    end.

Definition set_weight (weight : Z) (b : Backend) : Backend := b <| be_weight := Some weight |>.

Definition lmdb_hot (when_full : option string) (sample_size : option Z) (sync sync_interval : option string)
    (map_size_bytes : option Z) (l : CacheLmdbConfig) : CacheLmdbConfig :=
  MkLmdb (lm_path l) (default (lm_map_size_bytes l) map_size_bytes) (or_else when_full (lm_when_full l))
    (or_else sample_size (lm_sample_size l)) (lm_shard_count l) (or_else sync (lm_sync l))
    (or_else sync_interval (lm_sync_interval l)).

Definition mutate_desired (desired : Config) (prim : ConfigPrimitive) : result Config ApplyError :=
  match prim with
  | SetBackendWeight pool backend weight =>
      on_pool desired pool (fun p =>
        match find_backend_index p backend with
        | None => Err (NoSuchBackend pool backend)
        | Some i => Ok (p <| po_backends := alter (set_weight weight) i (po_backends p) |>)
        end)
  | RemoveBackend pool backend =>
      on_pool desired pool (fun p =>
        match find_backend_index p backend with
        | None => Err (NoSuchBackend pool backend)
        | Some i => Ok (p <| po_backends := delete i (po_backends p) |>)
        end)
  | AddBackend pool b =>
      on_pool desired pool (fun p =>
        if backend_identity_exists p b then Err (BackendExists pool)
        else if is_empty (be_address b) then Err AddressRequired
        else Ok (p <| po_backends := push (po_backends p) (b <| be_remove := None |>) |>))
  | SetOrchestratorLimits attempts duration =>
      if is_none attempts && is_none duration then Err (NothingToSet "SetOrchestratorLimits")
      else
        let orch := default {| max_attempts := 0; max_txn_duration_ms := 0; txn_table_capacity := 0 |} (orchestrator desired) in
        Ok (desired <| orchestrator := Some {| max_attempts := default (max_attempts orch) attempts;
                                               max_txn_duration_ms := default (max_txn_duration_ms orch) duration;
                                               txn_table_capacity := txn_table_capacity orch |} |>)
  | UpsertDataSource source =>
      if is_empty (ds_name source) then Err (NameRequired "data source")
      else Ok (desired <| data_sources :=
                 match update_first (fun s => String.eqb (ds_name s) (ds_name source)) (fun _ => source) (data_sources desired) with
                 | Some l => l
                 | None => push (data_sources desired) source
                 end |>)
  | RemoveDataSource name =>
      if is_empty name then Err (NameRequired "data source")
      else
        let kept := retain (fun s => negb (String.eqb (ds_name s) name)) (data_sources desired) in
        if zlen kept =? zlen (data_sources desired) then Err (Unknown "data source" name)
        else Ok (desired <| data_sources := kept |>)
  | SetDataSourceLimits limits => Ok (desired <| data_source_limits := Some limits |>)
  | SetEventSinkFilters name filters =>
      on_event_sink desired name (fun s => MkSink (es_type s) (es_export_id s) (es_destinations s) (es_emit s)
        (Some filters) (es_extra_fields s) (es_extra_tags s) (es_name s) (es_connect_retry s))
  | SetEventSinkEmit name emit fields tags fields_set tags_set =>
      on_event_sink desired name (fun s => MkSink (es_type s) (es_export_id s) (es_destinations s) emit (es_filters s)
        (if fields_set then fields else es_extra_fields s) (if tags_set then tags else es_extra_tags s)
        (es_name s) (es_connect_retry s))
  | SetRhaiLimits operations depth timeout =>
      if is_none operations && is_none depth && is_none timeout then Err (NothingToSet "SetRhaiLimits")
      else
        let r := default {| max_operations := 0; max_call_depth := 0; hook_timeout_ms := 0 |} (rhai desired) in
        Ok (desired <| rhai := Some {| max_operations := default (max_operations r) operations;
                                       max_call_depth := default (max_call_depth r) depth;
                                       hook_timeout_ms := default (hook_timeout_ms r) timeout |} |>)
  | PatchMetrics m =>
      match merge_file_and_overlay desired
              (Config_default <| schema_version := schema_version desired |> <| metrics := Some m |>) with
      | Ok d => Ok d
      | Err e => Err (MergeFailed e)
      end
  | SetCacheMaxEntries name entries =>
      on_cache desired name (fun c => Ok (MkCache (ca_name c) (ca_type c) (ca_negative_cache c) (ca_on_hit c) (ca_rotate c)
        (ca_memory c) (ca_key c) (Some entries) (ca_truncated_udp c) (ca_lmdb c)))
  | SetCacheLmdbHot name when_full sample_size sync sync_interval map_size =>
      if is_none when_full && is_none sample_size && is_none sync && is_none sync_interval && is_none map_size
      then Err (NothingToSet "SetCacheLmdbHot")
      else on_cache desired name (fun c =>
        if negb (String.eqb (ca_type c) "lmdb") then Err (NotLmdb name (ca_type c))
        else Ok (MkCache (ca_name c) (ca_type c) (ca_negative_cache c) (ca_on_hit c) (ca_rotate c) (ca_memory c) (ca_key c)
          (ca_max_entries c) (ca_truncated_udp c)
          (Some (lmdb_hot when_full sample_size sync sync_interval map_size
                   (default (MkLmdb EmptyString 0 None None None None None) (ca_lmdb c))))))
  | SetCachePolicyHot name negative on_hit truncated rotate =>
      if is_none negative && is_none on_hit && is_none truncated && is_none rotate
      then Err (NothingToSet "SetCachePolicyHot")
      else on_cache desired name (fun c => Ok (MkCache (ca_name c) (ca_type c) (or_else negative (ca_negative_cache c))
        (or_else on_hit (ca_on_hit c)) (or_else rotate (ca_rotate c)) (ca_memory c) (ca_key c) (ca_max_entries c)
        (or_else truncated (ca_truncated_udp c)) (ca_lmdb c)))
  end.

(** ** Proposals *)

Record PolicyProposal := {
  pr_source : ProposalSource; pr_overlay : option Config; pr_overlay_mode : OverlayApplyMode;
  pr_file_reload : option Config; pr_primitive : option ConfigPrimitive;
}.

Definition reject_forbidden_overlay_fields (patch : Config) : result unit (list ApplyError) :=
  match validate_overlay_patch patch with [] => Ok tt | es => Err (Forbidden <$> es) end.

Definition merge_failed {A} (r : result A ConfigError) : result A (list ApplyError) :=
  match r with Ok a => Ok a | Err e => Err [MergeFailed e] end.

(** [Replace], and the end of a primitive. *)
Definition replace_overlay (eff : EffectiveConfig) (overlay : Config) : result EffectiveConfig (list ApplyError) :=
  let? _u := reject_forbidden_overlay_fields overlay in
  if is_overlay_patch_empty overlay then Ok (clear_overlay eff)
  else
    let? _m := merge_failed (merge_file_and_overlay (ef_file eff) overlay) in
    Ok {| ef_file := ef_file eff; ef_overlay := Some overlay |}.

(** [None] is the panic of [effective]. *)
Definition apply_primitive_proposal (eff : EffectiveConfig) (prim : ConfigPrimitive)
    : option (result EffectiveConfig (list ApplyError)) :=
  let! desired := effective eff in
  Some (match mutate_desired desired prim with
        | Err e => Err [e]
        | Ok desired =>
            let? overlay := merge_failed (synthesize_overlay (ef_file eff) desired) in
            replace_overlay eff overlay
        end).

Definition apply_overlay_mode (eff : EffectiveConfig) (p : PolicyProposal) : result EffectiveConfig (list ApplyError) :=
  match pr_overlay_mode p with
  | ModeClear => Ok (clear_overlay eff)
  | ModeReplace =>
      match pr_overlay p with
      | None => Err [OverlayRequired "replace"]
      | Some patch => replace_overlay eff patch
      end
  | ModeMerge =>
      match pr_overlay p with
      | None => Err [OverlayRequired "merge"]
      | Some patch =>
          let? _u := reject_forbidden_overlay_fields patch in
          if is_overlay_patch_empty patch then Ok eff
          else
            let? overlay := match ef_overlay eff with
                            | Some existing => merge_failed (merge_overlay_patches existing patch)
                            | None => Ok patch
                            end in
            let? _m := merge_failed (merge_file_and_overlay (ef_file eff) overlay) in
            Ok {| ef_file := ef_file eff; ef_overlay := Some overlay |}
      end
  end.
End Primitives.

(** ** Applying a proposal *)

Section Apply.
Context `{Sections}.
Context (validate : Config -> list string).
(** A compiled snapshot, the cache and health registries, and the exporters with
    the metrics hub. *)
Context {Snap Cache Health Export Pending : Type}.
Context (try_from_config : Config -> result Snap string).
Context (cache_reconcile : Snap -> Snap -> Cache -> result unit string * Cache).
Context (health_reconcile : Snap -> Snap -> Health -> Health).
Context (export_prepare : Config -> Export -> result Pending string * Export).
Context (hub_apply : Config -> Export -> Export).
Context (export_commit : Pending -> Export -> Export).

(** [prepare_effective]: the merged configuration or the errors, and the effective
    configuration left behind. [disk] is what reading and parsing the file gives.
    [None] is a panic. *)
Definition prepare_effective (eff : EffectiveConfig) (disk : result Config string) (p : PolicyProposal)
    : option (result Config (list ApplyError) * EffectiveConfig) :=
  let working : result EffectiveConfig (list ApplyError) :=
    match pr_file_reload p with
    | Some file => Ok {| ef_file := file; ef_overlay := None |}
    | None =>
        if bool_decide (pr_source p = File \/ pr_source p = Sighup) && is_none (pr_overlay p) && is_none (pr_primitive p) then
          match disk with
          | Ok file => Ok {| ef_file := file; ef_overlay := None |}
          | Err m => Err [Message m]
          end
        else Ok eff
    end in
  match working with
  | Err es => Some (Err es, eff)
  | Ok working =>
      let! working :=
        match pr_primitive p with
        | Some prim => apply_primitive_proposal working prim
        | None => Some (if bool_decide (pr_source p = Grpc) then apply_overlay_mode working p else Ok working)
        end in
      match working with
      | Err es => Some (Err es, eff)
      | Ok working =>
          let! merged := effective working in
          match validate merged with
          | [] => Some (Ok merged, working)
          | es => Some (Err (Message <$> es), eff)
          end
      end
  end.

Record SnapshotStore := MkSnapStore {
  ss_snap : Snap; ss_snap_generation : Z; ss_generation : Z; ss_cache : Cache; ss_health : Health;
}.

(** [try_swap] of a snapshot with its generation. *)
Definition try_swap (s : SnapshotStore) (new : Snap) (generation : Z) : result unit (list ApplyError) * SnapshotStore :=
  match cache_reconcile (ss_snap s) new (ss_cache s) with
  | (Err m, c) => (Err [Message m], MkSnapStore (ss_snap s) (ss_snap_generation s) (ss_generation s) c (ss_health s))
  | (Ok _, c) =>
      (Ok tt, MkSnapStore new generation (wrap 64 (ss_generation s + 1)) c (health_reconcile (ss_snap s) new (ss_health s)))
  end.

Definition install_validated_with_base (s : SnapshotStore) (cfg : Config)
    : result unit (list ApplyError) * SnapshotStore :=
  match validate cfg with
  | [] =>
      match try_from_config cfg with
      | Err m => (Err [Message m], s)
      | Ok snap => try_swap s snap (wrap 64 (ss_generation s + 1))
      end
  | es => (Err (Message <$> es), s)
  end.

Record ApplyResult := { ar_errors : list ApplyError; ar_generation : Z; ar_ok : bool }.

Record Configurator := MkConfigurator { co_eff : EffectiveConfig; co_store : SnapshotStore; co_export : Export }.

Definition apply_proposal (c : Configurator) (disk : result Config string) (p : PolicyProposal)
    : option (ApplyResult * Configurator) :=
  let! prepared := prepare_effective (co_eff c) disk p in
  match prepared with
  | (Err es, eff) =>
      Some ({| ar_ok := false; ar_errors := es; ar_generation := ss_generation (co_store c) |},
            MkConfigurator eff (co_store c) (co_export c))
  | (Ok merged, eff) =>
      match export_prepare merged (co_export c) with
      | (Err m, x) =>
          Some ({| ar_ok := false; ar_errors := [Message m]; ar_generation := ss_generation (co_store c) |},
                MkConfigurator eff (co_store c) x)
      | (Ok pending, x) =>
          match install_validated_with_base (co_store c) merged with
          | (Err es, s) =>
              Some ({| ar_ok := false; ar_errors := es; ar_generation := ss_generation s |}, MkConfigurator eff s x)
          | (Ok _, s) =>
              Some ({| ar_ok := true; ar_errors := []; ar_generation := ss_snap_generation s |},
                    MkConfigurator eff s (export_commit pending (hub_apply merged x)))
          end
      end
  end.
End Apply.

(** ** Primitives keep to what an overlay can say *)

Lemma app_split {A} (l r l1 : list A) x l2 : l ++ r = l1 ++ x :: l2 ->
  (exists k, l = l1 ++ x :: k /\ l2 = k ++ r) \/ (exists k, l1 = l ++ k /\ r = k ++ x :: l2).
Proof.
  revert l1. induction l as [|a l IH]; intros l1 E; [right; by exists l1|]. destruct l1 as [|b l1]; cbn in E.
  - injection E as -> <-. left. by exists l.
  - injection E as -> E. destruct (IH _ E) as [(k & -> & ->)|(k & -> & ->)]; [left|right]; by exists k.
Qed.

Lemma reweighted_set b b' w : reweighted b b' -> reweighted b (set_weight w b').
Proof. intros [E _]. split; [|right; by eexists]. rewrite E. by destruct b. Qed.

Lemma derived_set w f k1 x k2 : derived f (k1 ++ x :: k2) -> derived f (k1 ++ set_weight w x :: k2).
Proof.
  remember (k1 ++ x :: k2) as k eqn:E. intros Hd. induction Hd as [|b f k Hd IH|b b' f k Hb Hd IH] in k1, E |- *.
  - by destruct k1.
  - by apply derived_drop, IH.
  - destruct k1 as [|c k1]; injection E as -> ->; apply derived_keep; [by apply reweighted_set|done|done|by apply IH].
Qed.

Lemma derived_remove f k1 x k2 : derived f (k1 ++ x :: k2) -> derived f (k1 ++ k2).
Proof.
  remember (k1 ++ x :: k2) as k eqn:E. intros Hd. induction Hd as [|b f k Hd IH|b b' f k Hb Hd IH] in k1, E |- *.
  - by destruct k1.
  - by apply derived_drop, IH.
  - destruct k1 as [|c k1]; injection E as -> ->; [by apply derived_drop|apply derived_keep; [done|by apply IH]].
Qed.

Lemma derived_middle_set w l x r : derived (l ++ x :: r) (l ++ set_weight w x :: r).
Proof. apply derived_app; [apply derived_refl|]. apply derived_keep; [|apply derived_refl]. apply reweighted_set. by split; [destruct x|left]. Qed.

Lemma derived_middle_remove (l : list Backend) x r : derived (l ++ x :: r) (l ++ r).
Proof. apply derived_app; [apply derived_refl|]. apply derived_drop, derived_refl. Qed.

(** Weighting or removing a backend of the desired list. *)
Lemma desired_set w file kept new l1 x l2 : desired_of file kept new -> kept ++ new = l1 ++ x :: l2 ->
  exists kept' new', l1 ++ set_weight w x :: l2 = kept' ++ new' /\ desired_of file kept' new'.
Proof.
  intros [Hk Hn] [(k & -> & ->)|(k & -> & ->)]%app_split.
  - exists (l1 ++ set_weight w x :: k), new. split; [by rewrite <- app_assoc|]. split; [by apply derived_set|done].
  - exists kept, (k ++ set_weight w x :: l2). split; [by rewrite <- app_assoc|]. split; [done|].
    rewrite app_assoc in *. eapply told_apart_derived; [apply derived_middle_set|exact Hn].
Qed.

Lemma desired_remove file kept new l1 x l2 : desired_of file kept new -> kept ++ new = l1 ++ x :: l2 ->
  exists kept' new', l1 ++ l2 = kept' ++ new' /\ desired_of file kept' new'.
Proof.
  intros [Hk Hn] [(k & -> & ->)|(k & -> & ->)]%app_split.
  - exists (l1 ++ k), new. split; [by rewrite <- app_assoc|]. split; [by apply (derived_remove _ _ x)|done].
  - exists kept, (k ++ l2). split; [by rewrite <- app_assoc|]. split; [done|].
    rewrite app_assoc in *. eapply told_apart_derived; [apply derived_middle_remove|exact Hn].
Qed.

Lemma desired_add file kept new b : desired_of file kept new -> be_address b <> EmptyString -> be_remove b = None ->
  Forall (apart b) (file ++ new) -> desired_of file kept (new ++ [b]).
Proof.
  intros [Hk Hn] Hne Hr Ha. split; [done|]. rewrite app_assoc. apply told_apart_app. split_and!; [done| |].
  - split; [apply NoDup_singleton|by constructor| |by constructor]. cbn.
    destruct (nonempty (be_name b)); [apply NoDup_singleton|constructor].
  - intros c b' Hc ->%list_elem_of_singleton. rewrite Forall_forall in Ha. destruct (Ha c Hc) as [H1 H2].
    split; [done|]. intros n E E'. by apply (H2 n).
Qed.

Lemma position_split {A} (p : A -> bool) l i : position p l = Some i ->
  exists l1 x l2, l = l1 ++ x :: l2 /\ i = length l1.
Proof.
  revert i. induction l as [|a l IH]; intros i; cbn; [done|]. destruct (p a); [intros [= <-]; by exists [], a, l|].
  destruct (position p l) as [j|]; [|done]. intros [= <-]. destruct (IH j eq_refl) as (l1 & x & l2 & -> & ->).
  by exists (a :: l1), x, l2.
Qed.

Section PrimitiveFacts.
Context `{Sections}.

Lemma find_backend_index_split p id i : find_backend_index p id = Some i ->
  exists l1 x l2, po_backends p = l1 ++ x :: l2 /\ i = length l1.
Proof.
  unfold find_backend_index. destruct (position (has_name id) _) as [j|] eqn:E; cbn.
  - intros [= ->]. by apply position_split in E.
  - apply position_split.
Qed.

(** What a change of one pool has to respect. *)
Record pool_change (file : list Pool) (p p' : Pool) : Prop := {
  pc_repooled q : q ∈ file -> po_name q = po_name p -> repooled q p -> repooled q p';
  pc_name : po_name p' = po_name p;
  pc_remove : po_remove p' = po_remove p;
  pc_unmarked : Forall (fun b => be_remove b = None) (po_backends p) -> Forall (fun b => be_remove b = None) (po_backends p');
}.

Lemma pools_derived_change file k1 p p' k2 : (forall q, q ∈ file -> po_name q = po_name p -> repooled q p -> repooled q p') ->
  pools_derived file (k1 ++ p :: k2) -> pools_derived file (k1 ++ p' :: k2).
Proof.
  intros Hc. remember (k1 ++ p :: k2) as k eqn:E. intros Hd.
  induction Hd as [|q file k Hd IH|q p0 file k Hp Hd IH] in k1, E, Hc |- *.
  - by destruct k1.
  - apply pools_drop, IH; [|done]. intros q' Hq'. apply Hc. by right.
  - destruct k1 as [|c k1]; injection E as -> ->.
    + apply pools_keep; [|done]. apply Hc; [by left| |done]. by destruct (repooled_name _ _ Hp).
    + apply pools_keep; [done|]. apply IH; [|done]. intros q' Hq'. apply Hc. by right.
Qed.

Lemma pools_apart_change l p p' r : po_name p' = po_name p -> po_remove p' = po_remove p ->
  pools_apart (l ++ p :: r) -> pools_apart (l ++ p' :: r).
Proof.
  intros En Er [H1 H2 H3]. split.
  - rewrite fmap_app, fmap_cons in *. by rewrite En.
  - apply Forall_app in H2 as [? [? ?]%Forall_cons]. apply Forall_app. split; [done|]. by constructor; [rewrite En|].
  - apply Forall_app in H3 as [? [? ?]%Forall_cons]. apply Forall_app. split; [done|]. by constructor; [rewrite Er|].
Qed.

Lemma update_pool l p p' r n : pools_apart (l ++ p :: r) -> po_name p = n ->
  update_first (has_pool_name n) (fun _ => p') (l ++ p :: r) = Some (l ++ p' :: r).
Proof.
  intros Ha <-. destruct (pool_split_absent _ _ _ Ha) as [Hl _].
  rewrite (update_first_one _ _ l p r); [done|by apply names_absent|]. unfold has_pool_name. apply String.eqb_refl.
Qed.

Lemma on_pool_changed file desired pool f desired' :
  changed_by_primitives file desired -> on_pool desired pool f = Ok desired' ->
  (forall p p', po_name p = pool -> f p = Ok p' -> pool_change (pools file) p p') -> changed_by_primitives file desired'.
Proof.
  intros Hc Ho Hf. unfold on_pool in Ho. destruct (List.find _ _) as [p|] eqn:Ef; [|done].
  destruct (f p) as [p'|] eqn:Ep; [|done]. injection Ho as <-.
  apply find_some in Ef as [(l & r & El)%in_split En]. rewrite has_pool_name_spec, bool_decide_eq_true in En.
  destruct (Hf p p' En Ep) as [F1 F2 F3 F4].
  destruct (cp_pools _ _ Hc) as (kept & new & Epl & Hd). pose proof (pools_desired_apart _ _ _ Hd) as Ha.
  rewrite <- Epl, El in Ha. rewrite El, (update_pool l p p' r) by done. cbn [default].
  assert (exists kept' new', l ++ p' :: r = kept' ++ new' /\ pools_desired (pools file) kept' new') as Hps.
  { rewrite El in Epl. destruct Hd as [Hk Hn Hu]. destruct (app_split _ _ _ _ _ (eq_sym Epl)) as [(k & -> & ->)|(k & -> & ->)].
    - exists (l ++ p' :: k), new. split; [by rewrite <- app_assoc|]. split; [by apply (pools_derived_change _ l p p' k)|done|done].
    - exists kept, (k ++ p' :: r). split; [by rewrite <- app_assoc|]. split; [done| |].
      + rewrite app_assoc in *. by apply (pools_apart_change _ p).
      + apply Forall_app in Hu as [? [? ?]%Forall_cons]. apply Forall_app. split; [done|]. constructor; [by apply F4|done]. }
  destruct Hc. split; done.
Qed.

(** An added backend is new to the pool of that name in the file, too. *)
Definition fresh_to_file (file : Config) (prim : ConfigPrimitive) : Prop :=
  match prim with
  | AddBackend pool b => forall q, q ∈ pools file -> po_name q = pool -> Forall (apart b) (po_backends q)
  | _ => True
  end.

Lemma weight_pool_change file p backend w i : find_backend_index p backend = Some i ->
  pool_change file p (p <| po_backends := alter (set_weight w) i (po_backends p) |>).
Proof.
  intros (l1 & x & l2 & E & ->)%find_backend_index_split. rewrite E, <- (Nat.add_0_r (length l1)), alter_app_r.
  change (alter (set_weight w) 0%nat (x :: l2)) with (set_weight w x :: l2). split; try done.
  - intros q _ _ (kept & new & Hd & ->). cbn in E. destruct (desired_set w _ _ _ _ _ _ Hd E) as (k' & n' & E' & Hd').
    exists k', n'. split; [done|]. rewrite <- E'. by destruct q.
  - rewrite E. cbn. rewrite !Forall_app, !Forall_cons. tauto.
Qed.

Lemma remove_pool_change file p backend i : find_backend_index p backend = Some i ->
  pool_change file p (p <| po_backends := delete i (po_backends p) |>).
Proof.
  intros (l1 & x & l2 & E & ->)%find_backend_index_split. rewrite E, delete_middle. split; try done.
  - intros q _ _ (kept & new & Hd & ->). cbn in E. destruct (desired_remove _ _ _ _ _ _ Hd E) as (k' & n' & E' & Hd').
    exists k', n'. split; [done|]. rewrite <- E'. by destruct q.
  - rewrite E. cbn. rewrite !Forall_app, !Forall_cons. tauto.
Qed.

Lemma not_identity_apart p b : backend_identity_exists p b = false -> be_address b <> EmptyString ->
  Forall (apart b) (po_backends p).
Proof.
  unfold backend_identity_exists. intros [Hn Ha]%orb_false_iff Hne. rewrite is_empty_false in Ha by done. cbn in Ha.
  assert (forall f, existsb f (po_backends p) = false -> forall c, c ∈ po_backends p -> f c = false) as Hex.
  { intros f Hf c Hc. apply not_true_is_false. intros Hc'. apply not_true_iff_false in Hf. apply Hf.
    apply existsb_exists. exists c. split; [by apply list_elem_of_In|done]. }
  apply Forall_forall. intros c Hc. split.
  - specialize (Hex _ Ha c Hc). unfold has_address in Hex. apply String.eqb_neq in Hex. congruence.
  - intros n En En'. rewrite En in Hn. specialize (Hex _ Hn c Hc). unfold has_name in Hex.
    apply bool_decide_eq_false in Hex. by apply nonempty_Some in En' as [? _].
Qed.

Lemma add_pool_change file p b : backend_identity_exists p b = false -> be_address b <> EmptyString ->
  (forall q, q ∈ file -> po_name q = po_name p -> Forall (apart b) (po_backends q)) ->
  pool_change file p (p <| po_backends := push (po_backends p) (b <| be_remove := None |>) |>).
Proof.
  intros Hx Hne Hf. apply not_identity_apart in Hx; [|done]. split; try done.
  - intros q Hq En (kept & new & Hd & ->). cbn in *. exists kept, (new ++ [b <| be_remove := None |>]). split.
    + apply desired_add; [done..|]. change (apart (b <| be_remove := None |>)) with (apart b).
      apply Forall_app in Hx as [_ Hx]. apply Forall_app. split; [by apply Hf|done].
    + unfold push. rewrite app_assoc. by destruct q.
  - intros Hu. cbn. unfold push. apply Forall_app. split; [done|by constructor].
Qed.

Lemma update_first_not_nil {A} (p : A -> bool) f l l' : update_first p f l = Some l' -> l' <> [].
Proof. destruct l as [|a l]; [done|]. cbn. destruct (p a); [by intros [= <-]|]. by destruct (update_first p f l); intros [= <-]. Qed.

Lemma on_cache_changed file desired name f desired' :
  changed_by_primitives file desired -> on_cache desired name f = Ok desired' -> changed_by_primitives file desired'.
Proof.
  intros Hc Ho. unfold on_cache in Ho. destruct (is_empty name); [done|]. destruct (List.find _ _) as [c|]; [|done].
  destruct (f c) as [c'|]; [|done]. injection Ho as <-. destruct Hc. split; try done. cbn.
  destruct (update_first _ _ _) as [l|] eqn:E; cbn; [|done]. intros ->. by apply update_first_not_nil in E.
Qed.

Lemma on_event_sink_changed file desired name f desired' :
  changed_by_primitives file desired -> on_event_sink desired name f = Ok desired' -> changed_by_primitives file desired'.
Proof.
  intros Hc Ho. unfold on_event_sink in Ho. destruct (is_empty name); [done|]. destruct (events desired) as [ev|]; [|done].
  destruct (update_first _ _ _); [|done]. injection Ho as <-. destruct Hc. split; try done. by right.
Qed.

Lemma patch_metrics_changed file desired m desired' :
  changed_by_primitives file desired -> mutate_desired desired (PatchMetrics m) = Ok desired' ->
  changed_by_primitives file desired'.
Proof.
  intros Hc Ho. cbn in Ho. injection Ho as <-. destruct Hc. split; try done. cbn.
  destruct (metrics desired) as [x|]; cbn in *; [by apply ext_metrics_merge|].
  rewrite cp_metrics. cbn. change (merge_metrics None m) with (merge_metrics (Some MetricsConfig_default) m).
  apply ext_metrics_merge, ext_metrics_refl. constructor.
Qed.

(** Every primitive leads from a configuration an overlay can say to another one. *)
Lemma mutate_changed file desired prim desired' :
  changed_by_primitives file desired -> mutate_desired desired prim = Ok desired' -> fresh_to_file file prim ->
  (data_sources desired' = [] -> data_sources file = []) -> changed_by_primitives file desired'.
Proof.
  intros Hc Hm Hf Hds. destruct prim; cbn in Hm, Hf.
  - eapply on_pool_changed; [done..|]. intros p p' _ Hp. cbn in Hp. destruct (find_backend_index p backend) eqn:E; [|done].
    injection Hp as <-. by eapply weight_pool_change.
  - eapply on_pool_changed; [done..|]. intros p p' _ Hp. cbn in Hp. destruct (find_backend_index p backend) eqn:E; [|done].
    injection Hp as <-. by eapply remove_pool_change.
  - eapply on_pool_changed; [done..|]. intros p p' En Hp. cbn in Hp. destruct (backend_identity_exists p backend) eqn:E; [done|].
    unfold is_empty in Hp. destruct (String.eqb_spec (be_address backend) EmptyString); [done|]. injection Hp as <-.
    apply add_pool_change; [done|done|]. intros q Hq Eq. apply Hf; [done|congruence].
  - destruct (_ && _); [done|]. injection Hm as <-. destruct Hc. split; try done. by right.
  - destruct (is_empty _); [done|]. injection Hm as <-. destruct Hc. split; done.
  - destruct (is_empty _); [done|]. destruct (_ =? _); [done|]. injection Hm as <-. destruct Hc. split; done.
  - injection Hm as <-. destruct Hc. split; try done. by right.
  - by eapply on_event_sink_changed.
  - by eapply on_event_sink_changed.
  - destruct (_ && _); [done|]. injection Hm as <-. destruct Hc. split; try done. by right.
  - exact (patch_metrics_changed _ _ _ _ Hc Hm).
  - by eapply on_cache_changed.
  - destruct (_ && _); [done|]. by eapply on_cache_changed.
  - destruct (_ && _); [done|]. by eapply on_cache_changed.
Qed.

Lemma primitive_step eff prim desired desired' :
  file_ok (ef_file eff) -> effective eff = Some desired -> changed_by_primitives (ef_file eff) desired ->
  mutate_desired desired prim = Ok desired' -> fresh_to_file (ef_file eff) prim ->
  (data_sources desired' = [] -> data_sources (ef_file eff) = []) ->
  exists eff', apply_primitive_proposal eff prim = Some (Ok eff') /\ ef_file eff' = ef_file eff /\
    effective eff' = Some desired' /\ changed_by_primitives (ef_file eff') desired'.
Proof.
  intros Hok He Hc Hm Hf Hds. pose proof (mutate_changed _ _ _ _ Hc Hm Hf Hds) as Hc'.
  destruct (synthesize_then_merge _ _ Hok Hc') as (overlay & Es & Em).
  unfold apply_primitive_proposal. rewrite He, Hm, Es. cbn [merge_failed]. unfold replace_overlay.
  assert (reject_forbidden_overlay_fields overlay = Ok tt) as ->.
  { unfold synthesize_overlay in Es. destruct (synthesize_data_sources _ _); [|done].
    destruct (synthesize_caches _ _); [|done]. by injection Es as <-. }
  destruct (is_overlay_patch_empty overlay) eqn:Ee.
  - exists (clear_overlay eff). assert (desired' = ef_file eff) as ->.
    { apply (empty_patch_same _ overlay); [done| |done]. unfold synthesize_overlay in Es.
      destruct (synthesize_data_sources _ _); [|done]. destruct (synthesize_caches _ _); [|done].
      injection Es as <-. apply (cp_schema _ _ Hc'). }
    by split_and!.
  - rewrite Em. cbn [merge_failed]. eexists. split; [done|]. cbn. unfold effective. cbn. by rewrite Em.
Qed.

(** C14: A primitive takes effect exactly. On a file whose pools and backends can be told
    apart, and after any earlier primitives: when a primitive can be carried out, the
    configuration in force afterwards is the one before it with the primitive's change and
    no other, the file is the same, and the next primitive can rely on the same. The
    exceptions are named: adding a backend whose identity the file's pool has, and removing
    the last data source. *)
Theorem primitive_takes_effect (eff : EffectiveConfig) (prim : ConfigPrimitive) (desired desired' : Config) :
  file_ok (ef_file eff) -> effective eff = Some desired -> changed_by_primitives (ef_file eff) desired ->
  mutate_desired desired prim = Ok desired' -> fresh_to_file (ef_file eff) prim ->
  (data_sources desired' = [] -> data_sources (ef_file eff) = []) ->
  exists eff', apply_primitive_proposal eff prim = Some (Ok eff') /\ ef_file eff' = ef_file eff /\
    effective eff' = Some desired' /\ changed_by_primitives (ef_file eff') desired'.
Proof. apply primitive_step. Qed.
End PrimitiveFacts.

(** ** What a proposal leaves behind *)

Section ApplyFacts.
Context `{Sections}.
Context (validate : Config -> list string).
Context {Snap Cache Health Export Pending : Type}.
Context (try_from_config : Config -> result Snap string).
Context (cache_reconcile : Snap -> Snap -> Cache -> result unit string * Cache).
Context (health_reconcile : Snap -> Snap -> Health -> Health).
Context (export_prepare : Config -> Export -> result Pending string * Export).
Context (hub_apply : Config -> Export -> Export).
Context (export_commit : Pending -> Export -> Export).

#[local] Abbreviation apply_proposal :=
  (apply_proposal validate try_from_config cache_reconcile health_reconcile export_prepare hub_apply export_commit).
#[local] Abbreviation install :=
  (install_validated_with_base validate try_from_config cache_reconcile health_reconcile).

Lemma prepare_cases eff disk p r eff' : prepare_effective validate eff disk p = Some (r, eff') ->
  match r with
  | Ok merged => effective eff' = Some merged /\ validate merged = []
  | Err _ => eff' = eff
  end.
Proof.
  unfold prepare_effective. destruct (match pr_file_reload p with Some _ => _ | None => _ end) as [working|es]; [|by intros [= <- <-]].
  destruct (match pr_primitive p with Some _ => _ | None => _ end) as [[w|es]|]; [|by intros [= <- <-]|done].
  destruct (effective w) as [merged|] eqn:Em; [|done]. destruct (validate merged) eqn:Ev; intros [= <- <-]; done.
Qed.

Lemma install_cases s cfg : validate cfg = [] ->
  match install s cfg with
  | (Ok _, s') => try_from_config cfg = Ok (ss_snap s') /\ ss_generation s' = wrap 64 (ss_generation s + 1) /\
                  ss_snap_generation s' = ss_generation s' /\ ss_health s' = health_reconcile (ss_snap s) (ss_snap s') (ss_health s)
  | (Err _, s') => ss_snap s' = ss_snap s /\ ss_generation s' = ss_generation s /\ ss_health s' = ss_health s
  end.
Proof.
  intros Hv. unfold install_validated_with_base, try_swap. rewrite Hv. destruct (try_from_config cfg) as [snap|m]; [|done].
  by destruct (cache_reconcile _ _ _) as [[u|m] c].
Qed.


(** A proposal that passes validation but whose snapshot cannot be compiled is
    rejected, and the snapshot in force stays, but the configuration it asked for is kept
    as the effective one: the next change is made on top of the rejected one. *)
Theorem failed_install_keeps_rejected_config (c : Configurator) (disk : result Config string) (p : PolicyProposal)
    (merged : Config) (eff : EffectiveConfig) (pending : Pending) (x : Export) (m : string) :
  prepare_effective validate (co_eff c) disk p = Some (Ok merged, eff) ->
  export_prepare merged (co_export c) = (Ok pending, x) -> try_from_config merged = Err m ->
  exists r c', apply_proposal c disk p = Some (r, c') /\ ar_ok r = false /\ co_store c' = co_store c /\
    effective (co_eff c') = Some merged.
Proof.
  intros Ep Ex Et. unfold Configurator.apply_proposal. rewrite Ep, Ex. apply prepare_cases in Ep as [He Hv].
  unfold install_validated_with_base. rewrite Hv, Et. by eexists _, _.
Qed.
End ApplyFacts.

(** ** Witnesses *)

#[local] Existing Instance bare_sections.

Definition sample_eff : EffectiveConfig := {| ef_file := sample_file; ef_overlay := None |}.

Definition weighted_file : Config :=
  sample_file <| pools := [sample_pool <| po_backends := [named "a" "192.0.2.1:53"; set_weight 7 (named "b" "192.0.2.2:53")] |>] |>.

Lemma primitive_takes_effect_witness :
  exists eff', apply_primitive_proposal sample_eff (SetBackendWeight "main" "b" 7) = Some (Ok eff') /\
    ef_file eff' = sample_file /\ effective eff' = Some weighted_file /\ changed_by_primitives (ef_file eff') weighted_file.
Proof.
  apply (primitive_takes_effect sample_eff (SetBackendWeight "main" "b" 7) sample_file weighted_file);
    [apply sample_file_ok|reflexivity|apply file_unchanged, sample_file_ok|reflexivity|exact I|done].
Defined.

(** Exporters that accept everything, and a compiler that rejects a weight of 13. *)
Definition picky (c : Config) : result Config string :=
  if existsb (fun p => existsb (fun b => bool_decide (be_weight b = Some 13)) (po_backends p)) (pools c)
  then Err "unlucky" else Ok c.
Definition sample_configurator : Configurator :=
  MkConfigurator sample_eff (MkSnapStore (Cache := unit) (Health := unit) sample_file 0 0 tt tt) tt.
Definition weight_proposal (w : Z) : PolicyProposal := {|
  pr_source := Grpc; pr_overlay := None; pr_overlay_mode := ModeReplace; pr_file_reload := None;
  pr_primitive := Some (SetBackendWeight "main" "b" w) |}.
Abbreviation sample_apply :=
  (apply_proposal (fun _ => []) picky (fun _ _ (_ : unit) => (Ok tt, tt)) (fun _ _ (_ : unit) => tt)
     (fun _ (_ : unit) => (Ok tt, tt)) (fun _ _ => tt) (fun (_ : unit) _ => tt)).


Lemma failed_install_keeps_rejected_config_witness :
  exists r c', sample_apply sample_configurator (Err "unread") (weight_proposal 13) = Some (r, c') /\ ar_ok r = false /\
    co_store c' = co_store sample_configurator /\
    effective (co_eff c') = Some (sample_file <| pools := [sample_pool <| po_backends :=
      [named "a" "192.0.2.1:53"; set_weight 13 (named "b" "192.0.2.2:53")] |>] |>).
Proof.
  eapply (failed_install_keeps_rejected_config (fun _ => []) picky (fun _ _ (_ : unit) => (Ok tt, tt)) (fun _ _ (_ : unit) => tt)
    (fun _ (_ : unit) => (Ok tt, tt)) (fun _ _ => tt) (fun (_ : unit) _ => tt) sample_configurator (Err "unread")
    (weight_proposal 13)); reflexivity.
Defined.

(** Two primitives in turn. *)
Definition two_primitives (eff : EffectiveConfig) (p1 p2 : ConfigPrimitive) : option (result EffectiveConfig (list ApplyError)) :=
  let! r := apply_primitive_proposal eff p1 in
  match r with Ok eff => apply_primitive_proposal eff p2 | Err es => Some (Err es) end.

(** Removing a backend of the file and adding it again with other probe settings loses the
    settings: the change is accepted, and the backend in force probes as the file says. *)
Theorem readded_backend_keeps_file_probe :
  (let! r := two_primitives sample_eff (RemoveBackend "main" "a")
     (AddBackend "main" ((named "a" "192.0.2.1:53") <| be_probe_qname := Some "probe.example." |>)) in
   let! eff := result_ok r in
   let! cfg := effective eff in
   Some ((fun p => (fun b => (be_name b, be_probe_qname b)) <$> po_backends p) <$> pools cfg))
  = Some [[(Some "a", None); (Some "b", None)]].
Proof. vm_compute. reflexivity. Qed.

(** Replacing a backend of the file by one of another name at the same address fails. *)
Theorem renamed_backend_rejected :
  two_primitives sample_eff (RemoveBackend "main" "a") (AddBackend "main" (named "c" "192.0.2.1:53"))
  = Some (Err [MergeFailed (BackendUnknownName "main" "c")]).
Proof. vm_compute. reflexivity. Qed.
