(* ===== verification/DataSources.v ===== *)
(** * Data sources: CSV tables and CIDR tables

    The tables that rules, ACLs and scripts look things up in: conduit-script/src/cidr.rs and
    conduit-script/src/data_sources.rs, with the path resolution of
    conduit-proto/src/paths.rs. The prefix trie (crate prefix_trie) is the class
    [PrefixTrie], whose laws are those of an exact map and of a longest-prefix match on
    it; the parsers of prefixes (crate ipnet) and of addresses are parameters. What a path
    holds is the parameter [disk]. White space is that of ASCII. An [expect] that
    fails is [None]. *)

From stdpp Require Import base gmap list strings.
From Stdlib Require Import ZArith Lia Ascii.
From S2P Require Import Prelude Text Config.

#[local] Open Scope string_scope.
#[local] Open Scope list_scope.
#[local] Open Scope Z_scope.

(** ** Text and bytes *)

(** The first [n] bytes: [Read::take]. *)
Fixpoint take_bytes (n : Z) (s : string) : string :=
  match s with
  | "" => ""
  | String c s' => if n <=? 0 then "" else String c (take_bytes (n - 1) s')
  end.

Fixpoint str_len (s : string) : Z :=
  match s with "" => 0 | String _ s' => str_len s' + 1 end.

(** What may follow the first byte of a character in UTF-8; [None] if none starts so. *)
Definition utf8_tail (b : Z) : option (list (Z * Z)) :=
  let cont := (128, 191) in
  let within lo hi := (lo <=? b) && (b <=? hi) in
  if b <? 128 then Some []
  else if within 194 223 then Some [cont]
  else if b =? 224 then Some [(160, 191); cont]
  else if b =? 237 then Some [(128, 159); cont]
  else if within 225 239 then Some [cont; cont]
  else if b =? 240 then Some [(144, 191); cont; cont]
  else if within 241 243 then Some [cont; cont; cont]
  else if b =? 244 then Some [(128, 143); cont; cont]
  else None.

(** [String::from_utf8] accepts the bytes, [pending] being the ranges of the next ones. *)
Fixpoint utf8_from (pending : list (Z * Z)) (s : string) : bool :=
  match s, pending with
  | "", [] => true
  | "", _ => false
  | String c s', [] => match utf8_tail (byte_of c) with Some p => utf8_from p s' | None => false end
  | String c s', (lo, hi) :: p => (lo <=? byte_of c) && (byte_of c <=? hi) && utf8_from p s'
  end.
Definition from_utf8 (s : string) : bool := utf8_from [] s.

Definition newline : ascii := ascii_of_N 10.
Definition carriage_return : string := String (ascii_of_N 13) "".

(** [strip_suffix("\r")]. *)
Fixpoint strip_cr (s : string) : string :=
  match s with
  | "" => ""
  | String c s' => if String.eqb s carriage_return then "" else String c (strip_cr s')
  end.

(** [str::lines]: a final line that is empty is no line. *)
Fixpoint drop_last_empty (l : list string) : list string :=
  match l with
  | [] => []
  | [""] => []
  | s :: l' => s :: drop_last_empty l'
  end.
Definition lines (s : string) : list string := strip_cr <$> drop_last_empty (split_on newline s).

(** [str::split_whitespace]: the words, [w] being the one that is being read. *)
Fixpoint words_from (w : string) (s : string) : list string :=
  match s with
  | "" => if String.eqb w "" then [] else [w]
  | String c s' =>
      if is_whitespace c then (if String.eqb w "" then words_from "" s' else w :: words_from "" s')
      else words_from (w ++ String c "")%string s'
  end.
Definition split_whitespace (s : string) : list string := words_from "" s.

(** A line that both formats pass over. *)
Definition skipped (line : string) : bool := String.eqb line "" || starts_with line "#".

(** ** Prefixes *)

(** [IpNet]: an address and a prefix length. *)
Inductive IpNet :=
  | NetV4 (addr len : Z)
  | NetV6 (addr len : Z).

(** Two addresses of [w] bits agree on their first [len] bits. *)
Definition agree (w len a b : Z) : Prop := Z.shiftr a (w - len) = Z.shiftr b (w - len).
#[global] Instance agree_dec w len a b : Decision (agree w len a b) := decide_rel (=) _ _.

(** [PrefixMap] over the prefixes of addresses of [w] bits; the operations as documented:
    [trie_get] is [get], the exact lookup, and [trie_get_lpm] is [get_lpm]. *)
Class PrefixTrie := {
  Trie : Type;
  trie_new : Trie;
  trie_insert : Z -> Z * Z -> string -> Trie -> Trie;
  trie_get : Z -> Trie -> Z * Z -> option string;
  trie_get_lpm : Z -> Trie -> Z * Z -> option (Z * Z * string);
}.

(** The same prefix: host bits do not count. *)
Definition same_net (w : Z) (n m : Z * Z) : Prop := n.2 = m.2 /\ agree w n.2 n.1 m.1.
#[global] Instance same_net_dec w n m : Decision (same_net w n m) := and_dec _ _.

(** A prefix covers another: it is at most as long, and they agree on its bits. *)
Definition covers (w : Z) (n m : Z * Z) : Prop := n.2 <= m.2 /\ agree w n.2 n.1 m.1.
#[global] Instance covers_dec w n m : Decision (covers w n m) := and_dec _ _.

Class PrefixTrieLaws `{PrefixTrie} : Prop := {
  trie_get_new w n : trie_get w trie_new n = None;
  trie_get_insert w n m v t :
    trie_get w (trie_insert w n v t) m = if decide (same_net w n m) then Some v else trie_get w t m;
  trie_lpm_some w t m n v : trie_get_lpm w t m = Some (n, v) ->
    covers w n m /\ trie_get w t n = Some v /\
    forall n', covers w n' m -> is_Some (trie_get w t n') -> n'.2 <= n.2;
  trie_lpm_none w t m n : trie_get_lpm w t m = None -> covers w n m -> trie_get w t n = None;
}.

(** ** Errors *)

(** The messages of [ScriptError::DataSource]; [Z] is a line number. *)
Inductive DsCause :=
  | DsRead (message : string)
  | DsFileTooBig
  | DsNotUtf8
  | DsTooManyFields (line : Z)
  | DsNotEnoughColumns (line : Z)
  | DsKeyTooLong (line : Z)
  | DsValueTooLong (line : Z)
  | DsBadPrefix (line : Z)
  | DsTooManyEntries
  | DsTooManyTables
  | DsBadType
  | DsNoName
  | DsNoPath
  | DsTotalTooBig.
Record ScriptError := DataSourceError { se_name : string; se_cause : DsCause }.

(** ** Limits *)

Definition DEFAULT_MAX_FILE_BYTES : Z := 16 * 1024 * 1024.
Definition DEFAULT_MAX_ENTRIES : Z := 1000000.
Definition DEFAULT_MAX_KEY_BYTES : Z := 1024.
Definition DEFAULT_MAX_VALUE_BYTES : Z := 4096.
Definition DEFAULT_MAX_TABLES : Z := 64.
Definition DEFAULT_MAX_TOTAL_BYTES : Z := 64 * 1024 * 1024.

Record Limits := {
  max_file_bytes : Z; max_entries : Z; max_key_bytes : Z; max_value_bytes : Z; max_tables : Z; max_total_bytes : Z;
}.
Definition limits_default : Limits := {|
  max_file_bytes := DEFAULT_MAX_FILE_BYTES; max_entries := DEFAULT_MAX_ENTRIES; max_key_bytes := DEFAULT_MAX_KEY_BYTES;
  max_value_bytes := DEFAULT_MAX_VALUE_BYTES; max_tables := DEFAULT_MAX_TABLES;
  max_total_bytes := DEFAULT_MAX_TOTAL_BYTES |}.

Definition nz (v dflt : Z) : Z := if v =? 0 then dflt else v.

Definition limits_from_config (cfg : option DataSourceLimits) : Limits :=
  let d := limits_default in
  match cfg with
  | None => d
  | Some c => {|
      max_file_bytes := nz (dl_max_file_bytes c) (max_file_bytes d);
      max_entries := nz (dl_max_entries c) (max_entries d);
      max_key_bytes := nz (dl_max_key_bytes c) (max_key_bytes d);
      max_value_bytes := nz (dl_max_value_bytes c) (max_value_bytes d);
      max_tables := nz (dl_max_tables c) (max_tables d);
      max_total_bytes := nz (dl_max_total_bytes c) (max_total_bytes d) |}
  end.

Record EffectiveTableLimits := { tl_file_bytes : Z; tl_entries : Z; tl_key_bytes : Z; tl_value_bytes : Z }.

(** [o.filter(|v| *v != 0).unwrap_or(d)]. *)
Definition overridden (o : option Z) (d : Z) : Z := from_option (fun v => nz v d) d o.

Definition effective_for (l : Limits) (ds : DataSource) : EffectiveTableLimits := {|
  tl_file_bytes := overridden (ds_max_file_bytes ds) (max_file_bytes l);
  tl_entries := overridden (ds_max_entries ds) (max_entries l);
  tl_key_bytes := overridden (ds_max_key_bytes ds) (max_key_bytes l);
  tl_value_bytes := overridden (ds_max_value_bytes ds) (max_value_bytes l) |}.

(** The first half of both loaders: the bytes of the file, at most one more than the
    limit, which must be text. *)
Definition read_capped (file : result string string) (max_file : Z) : result string DsCause :=
  match file with
  | Err m => Err (DsRead m)
  | Ok bytes =>
      let buf := take_bytes (sat_add 64 max_file 1) bytes in
      if max_file <? str_len buf then Err DsFileTooBig
      else if from_utf8 buf then Ok buf else Err DsNotUtf8
  end.

(** ** CIDR tables *)

Section Cidr.
Context `{PrefixTrie} (parse_net : string -> option IpNet) (parse_ip : string -> option IpAddr).

Record CidrTable := MkCidr { ct_v4 : Trie; ct_v6 : Trie }.
Definition cidr_default : CidrTable := MkCidr trie_new trie_new.

Definition cidr_lookup (t : CidrTable) (addr : IpAddr) : option string :=
  match addr with
  | IpV4 a => snd <$> trie_get_lpm 32 (ct_v4 t) (a, 32)
  | IpV6 a => snd <$> trie_get_lpm 128 (ct_v6 t) (a, 128)
  end.

Definition cidr_insert (t : CidrTable) (net : IpNet) (value : string) : CidrTable :=
  match net with
  | NetV4 a l => MkCidr (trie_insert 32 (a, l) value (ct_v4 t)) (ct_v6 t)
  | NetV6 a l => MkCidr (ct_v4 t) (trie_insert 128 (a, l) value (ct_v6 t))
  end.

Definition parse_prefix (token : string) : option IpNet :=
  match parse_net token with
  | Some net => Some net
  | None =>
      let! addr := parse_ip token in
      Some (match addr with IpV4 a => NetV4 a 32 | IpV6 a => NetV6 a 128 end)
  end.

(** The loop of [load_cidr_table] over the lines that are left. *)
Fixpoint cidr_lines (max_entries max_value : Z) (line_no : Z) (ls : list string) (entry_count : Z) (table : CidrTable)
    : option (result CidrTable DsCause) :=
  match ls with
  | [] => Some (Ok table)
  | line :: ls =>
      let line := trim line in
      if skipped line then cidr_lines max_entries max_value (line_no + 1) ls entry_count table
      else
        match split_whitespace line with
        | [] => None
        | prefix_tok :: fields =>
            let value := default "1" (head fields) in
            if negb (bool_decide (tail fields = [])) then Some (Err (DsTooManyFields (line_no + 1)))
            else if max_value <? str_len value then Some (Err (DsValueTooLong (line_no + 1)))
            else match parse_prefix prefix_tok with
                 | None => Some (Err (DsBadPrefix (line_no + 1)))
                 | Some net =>
                     if max_entries <? entry_count + 1 then Some (Err DsTooManyEntries)
                     else cidr_lines max_entries max_value (line_no + 1) ls (entry_count + 1) (cidr_insert table net value)
                 end
        end
  end.

Definition load_cidr_table (file : result string string) (name : string) (max_file max_entries max_value : Z)
    : option (result (CidrTable * Z) ScriptError) :=
  match read_capped file max_file with
  | Err e => Some (Err (DataSourceError name e))
  | Ok content =>
      let! r := cidr_lines max_entries max_value 0 (lines content) 0 cidr_default in
      Some (match r with Ok t => Ok (t, str_len content) | Err e => Err (DataSourceError name e) end)
  end.
End Cidr.

(** ** CSV tables *)

Definition column_spec (name : string) (default_index : Z) : string :=
  if String.eqb name "" then
    if default_index =? 0 then "key" else if default_index =? 1 then "value" else dec default_index
  else name.

Definition looks_like_header (cols : list string) (key_col value_col : string) : bool :=
  existsb (fun c => String.eqb c key_col || String.eqb c value_col) cols ||
  match head cols with
  | Some k => eq_ignore_ascii_case k "qname" || eq_ignore_ascii_case k "key"
  | None => false
  end.

Definition parse_csv_line (line : string) : list string := trim <$> split_on "," line.

(** [iter().position(|h| h == c)]. *)
Fixpoint position_of (c : string) (l : list string) : option nat :=
  match l with
  | [] => None
  | h :: l => if String.eqb h c then Some 0%nat else S <$> position_of c l
  end.

Section Csv.
Context (limits : EffectiveTableLimits) (key_col value_col : string).

(** The columns of the key and of the value under a header. *)
Definition csv_columns (header : option (list string)) : nat * nat :=
  match header with
  | Some hdr => (default 0%nat (position_of key_col hdr), default 1%nat (position_of value_col hdr))
  | None => (0%nat, 1%nat)
  end.

(** The loop of [load_csv] over the lines that are left. *)
Fixpoint csv_lines (line_no : Z) (ls : list string) (header : option (list string)) (entry_count : Z)
    (table : gmap string string) : result (gmap string string) DsCause :=
  match ls with
  | [] => Ok table
  | line :: ls =>
      let line := trim line in
      if skipped line then csv_lines (line_no + 1) ls header entry_count table
      else
        let cols := parse_csv_line line in
        if bool_decide (cols = []) then csv_lines (line_no + 1) ls header entry_count table
        else if negb (is_someb header) && looks_like_header cols key_col value_col
        then csv_lines (line_no + 1) ls (Some cols) entry_count table
        else
          let '(key_idx, val_idx) := csv_columns header in
          match cols !! key_idx, cols !! val_idx with
          | Some key, Some value =>
              if tl_key_bytes limits <? str_len key then Err (DsKeyTooLong (line_no + 1))
              else if tl_value_bytes limits <? str_len value then Err (DsValueTooLong (line_no + 1))
              else if tl_entries limits <? entry_count + 1 then Err DsTooManyEntries
              else csv_lines (line_no + 1) ls header (entry_count + 1) (<[key := value]> table)
          | _, _ => Err (DsNotEnoughColumns (line_no + 1))
          end
  end.
End Csv.

Definition load_csv (file : result string string) (ds : DataSource) (limits : EffectiveTableLimits)
    : result (gmap string string * Z) ScriptError :=
  match read_capped file (tl_file_bytes limits) with
  | Err e => Err (DataSourceError (ds_name ds) e)
  | Ok content =>
      match csv_lines limits (column_spec (ds_key_column ds) 0) (column_spec (ds_value_column ds) 1)
              0 (lines content) None 0 ∅ with
      | Ok t => Ok (t, str_len content)
      | Err e => Err (DataSourceError (ds_name ds) e)
      end
  end.

(** ** The store *)

(** [base.join(p)] of a relative path. *)
Definition path_join (base p : string) : string :=
  if String.eqb base "" then p else if ends_with base "/" then (base ++ p)%string else (base ++ "/" ++ p)%string.

Definition resolve_config_path (base_dir : option string) (path : string) : string :=
  if starts_with path "/" then path
  else match base_dir with Some base => path_join base path | None => path end.

Section Store.
Context `{PrefixTrie} (parse_net : string -> option IpNet) (parse_ip : string -> option IpAddr).

Record DataSourceStore := MkStore { st_tables : gmap string (gmap string string); st_cidr : gmap string CidrTable }.
Definition store_default : DataSourceStore := MkStore ∅ ∅.

Definition store_lookup (s : DataSourceStore) (table key : string) : string :=
  default "" (st_tables s !! table ≫= fun t => t !! key).
Definition store_lookup_ip (s : DataSourceStore) (name : string) (addr : IpAddr) : option string :=
  let! t := st_cidr s !! name in cidr_lookup t addr.
Definition has_table (s : DataSourceStore) (table : string) : bool := is_someb (st_tables s !! table).
Definition has_cidr_table (s : DataSourceStore) (name : string) : bool := is_someb (st_cidr s !! name).

(** The table of one entry in the store, and the bytes that were read. *)
Definition load_one (disk : string -> result string string) (base_dir : option string) (limits : Limits)
    (ds : DataSource) (store : DataSourceStore) : option (result (DataSourceStore * Z) ScriptError) :=
  let file := disk (resolve_config_path base_dir (ds_path ds)) in
  let effective := effective_for limits ds in
  if String.eqb (ds_type ds) "cidr" then
    let! r := load_cidr_table parse_net parse_ip file (ds_name ds) (tl_file_bytes effective) (tl_entries effective)
                (tl_value_bytes effective) in
    Some (let? tb := r in Ok (MkStore (st_tables store) (<[ds_name ds := tb.1]> (st_cidr store)), tb.2))
  else
    Some (let? tb := load_csv file ds effective in
          Ok (MkStore (<[ds_name ds := tb.1]> (st_tables store)) (st_cidr store), tb.2)).

(** The loop of [load_data_sources]. *)
Fixpoint load_sources (disk : string -> result string string) (base_dir : option string) (limits : Limits)
    (sources : list DataSource) (total_bytes : Z) (store : DataSourceStore) : option (result DataSourceStore ScriptError) :=
  match sources with
  | [] => Some (Ok store)
  | ds :: sources =>
      if negb (String.eqb (ds_type ds) "csv") && negb (String.eqb (ds_type ds) "cidr")
      then Some (Err (DataSourceError (ds_name ds) DsBadType))
      else if String.eqb (ds_name ds) "" then Some (Err (DataSourceError "" DsNoName))
      else if String.eqb (ds_path ds) "" then Some (Err (DataSourceError (ds_name ds) DsNoPath))
      else
        let! r := load_one disk base_dir limits ds store in
        match r with
        | Err e => Some (Err e)
        | Ok (store, bytes_read) =>
            let total_bytes := sat_add 64 total_bytes bytes_read in
            if max_total_bytes limits <? total_bytes then Some (Err (DataSourceError (ds_name ds) DsTotalTooBig))
            else load_sources disk base_dir limits sources total_bytes store
        end
  end.

Definition load_data_sources (disk : string -> result string string) (base_dir : option string) (limits : Limits)
    (sources : list DataSource) : option (result DataSourceStore ScriptError) :=
  if max_tables limits <? zlen sources then Some (Err (DataSourceError "" DsTooManyTables))
  else load_sources disk base_dir limits sources 0 store_default.
End Store.

(** ** References: a linear scan over the lines *)

(** The lines that count. *)
Definition rows_of (ls : list string) : list string := List.filter (fun l => negb (skipped l)) (trim <$> ls).
Definition rows (content : string) : list string := rows_of (lines content).

(** Of the prefixes that contain [a], the longest, and of several equally long the last. *)
Definition longest_step (w a : Z) (best : option (Z * Z * string)) (e : Z * Z * string) : option (Z * Z * string) :=
  if decide (covers w e.1 (a, w)) then
    match best with
    | Some b => if b.1.2 <=? e.1.2 then Some e else best
    | None => Some e
    end
  else best.
Definition longest_match (w a : Z) (es : list (Z * Z * string)) : option (Z * Z * string) :=
  foldl (longest_step w a) None es.

Definition v4_entry (e : IpNet * string) : option (Z * Z * string) :=
  match e.1 with NetV4 a l => Some (a, l, e.2) | _ => None end.
Definition v6_entry (e : IpNet * string) : option (Z * Z * string) :=
  match e.1 with NetV6 a l => Some (a, l, e.2) | _ => None end.

Definition scan (es : list (IpNet * string)) (ip : IpAddr) : option string :=
  match ip with
  | IpV4 a => snd <$> longest_match 32 a (omap v4_entry es)
  | IpV6 a => snd <$> longest_match 128 a (omap v6_entry es)
  end.

(** What a line of a CIDR file says. *)
Definition cidr_entry (parse_net : string -> option IpNet) (parse_ip : string -> option IpAddr) (line : string)
    : option (IpNet * string) :=
  match split_whitespace line with
  | [p] => (fun n => (n, "1")) <$> parse_prefix parse_net parse_ip p
  | [p; v] => (fun n => (n, v)) <$> parse_prefix parse_net parse_ip p
  | _ => None
  end.

(** The cells of a record in the columns of the key and of the value. *)
Definition cells (columns : nat * nat) (record : list string) : option (string * string) :=
  match record !! columns.1, record !! columns.2 with Some k, Some v => Some (k, v) | _, _ => None end.

(** The records before the first that looks like a header, and it with those after it. *)
Fixpoint split_header (key_col value_col : string) (records : list (list string))
    : list (list string) * option (list string * list (list string)) :=
  match records with
  | [] => ([], None)
  | r :: rs =>
      if looks_like_header r key_col value_col then ([], Some (r, rs))
      else let p := split_header key_col value_col rs in (r :: p.1, p.2)
  end.

(** What the records of a CSV file say: the first two columns before a header, the
    columns it names after it. *)
Definition csv_pairs (key_col value_col : string) (records : list (list string)) : option (list (string * string)) :=
  let p := split_header key_col value_col records in
  let! before := mapM (cells (0, 1)%nat) p.1 in
  match p.2 with
  | None => Some before
  | Some (header, rest) =>
      let! after := mapM (cells (csv_columns key_col value_col (Some header))) rest in Some (before ++ after)
  end.

(** The last value of a key. *)
Definition last_value (pairs : list (string * string)) (key : string) : option string :=
  snd <$> last (List.filter (fun p => String.eqb p.1 key) pairs).

(** ** Lemmas on text *)

Lemma str_len_nonneg s : 0 <= str_len s.
Proof. induction s; cbn; lia. Qed.

Lemma trim_start_first p s c s' : trim_start_by p s = String c s' -> p c = false.
Proof. induction s as [|d s IH]; cbn; [done|]. destruct (p d) eqn:Ep; [done|]. by intros [= <- _]. Qed.

Lemma trim_end_first p c s d s' : trim_end_by p (String c s) = String d s' -> d = c.
Proof. cbn. destruct (trim_end_by p s); [destruct (p c)|]; congruence. Qed.

Lemma trim_first s c s' : trim s = String c s' -> is_whitespace c = false.
Proof.
  unfold trim. destruct (trim_start_by is_whitespace s) as [|d r] eqn:E; [done|].
  intros H%trim_end_first. subst d. by apply trim_start_first in E.
Qed.

Lemma words_from_nonempty w s : w <> "" -> words_from w s <> [].
Proof.
  revert w. induction s as [|c s IH]; intros w Hw; cbn; destruct (String.eqb_spec w ""); try done.
  destruct (is_whitespace c); [done|]. apply IH. by destruct w.
Qed.

Lemma split_trimmed_nonempty s : skipped (trim s) = false -> split_whitespace (trim s) <> [].
Proof.
  unfold skipped. intros [Hne _]%orb_false_iff. destruct (trim s) as [|c r] eqn:E; [done|].
  unfold split_whitespace. cbn. rewrite (trim_first _ _ _ E). by apply words_from_nonempty.
Qed.

(** ** The loop over the lines of a CIDR file *)

Section CidrFacts.
Context `{PrefixTrie} (parse_net : string -> option IpNet) (parse_ip : string -> option IpAddr).
#[local] Abbreviation entry := (cidr_entry parse_net parse_ip).
#[local] Abbreviation load := (cidr_lines parse_net parse_ip).

Definition insert_all (t : CidrTable) (es : list (IpNet * string)) : CidrTable :=
  foldl (fun t e => cidr_insert t e.1 e.2) t es.

Lemma cidr_lines_total me mv k ls c t : is_Some (load me mv k ls c t).
Proof.
  revert k c t. induction ls as [|l ls IH]; intros k c t; cbn; [by eexists|].
  destruct (skipped (trim l)) eqn:Es; [apply IH|].
  pose proof (split_trimmed_nonempty l Es). destruct (split_whitespace (trim l)) as [|p fs]; [done|].
  case_all; try apply IH; by eexists.
Qed.

(** A row is accepted exactly when it says something and its value is short. *)
Lemma cidr_row me mv k l ls c t :
  skipped (trim l) = false ->
  load me mv k (l :: ls) c t =
  match entry (trim l) with
  | Some (n, v) =>
      if mv <? str_len v then Some (Err (DsValueTooLong (k + 1)))
      else if me <? c + 1 then Some (Err DsTooManyEntries) else load me mv (k + 1) ls (c + 1) (cidr_insert t n v)
  | None => load me mv k (l :: ls) c t
  end.
Proof.
  intros Es. destruct (entry (trim l)) as [[n v]|] eqn:Ee; [|done]. unfold cidr_entry in Ee. cbn. rewrite Es.
  destruct (split_whitespace (trim l)) as [|p [|v' [|]]]; try done; cbn;
    destruct (parse_prefix parse_net parse_ip p) as [n'|]; cbn in Ee; try done; injection Ee as <- <-; done.
Qed.

Lemma cidr_row_bad me mv k l ls c t t' :
  skipped (trim l) = false -> entry (trim l) = None -> load me mv k (l :: ls) c t <> Some (Ok t').
Proof.
  intros Es Ee. unfold cidr_entry in Ee. cbn. rewrite Es.
  destruct (split_whitespace (trim l)) as [|p [|v' [|]]]; try done; cbn;
    destruct (parse_prefix parse_net parse_ip p) as [n'|]; cbn in Ee; try done; by destruct (_ <? _).
Qed.

Lemma cidr_lines_exact me mv k ls c t t' : c <= me ->
  load me mv k ls c t = Some (Ok t') <->
  exists es, mapM entry (rows_of ls) = Some es /\ Forall (fun e => str_len e.2 <= mv) es /\
    c + zlen es <= me /\ t' = insert_all t es.
Proof.
  revert k c t. induction ls as [|l ls IH]; intros k c t Hc.
  { cbn. split; [intros [= <-]; exists []; split_and!; [done|apply Forall_nil_2|unfold zlen; cbn; lia|done]|].
    intros (es & [= <-] & _ & _ & ->). done. }
  destruct (skipped (trim l)) eqn:Es.
  { unfold rows_of. cbn. rewrite Es. by apply IH. }
  assert (rows_of (l :: ls) = trim l :: rows_of ls) as -> by (unfold rows_of; cbn; by rewrite Es). cbn [mapM].
  destruct (entry (trim l)) as [[n v]|] eqn:Ee; cbn [mbind option_bind];
    [|split; [by intros ?%cidr_row_bad|by intros (? & ? & _)]].
  rewrite cidr_row, Ee by done. split.
  - destruct (Z.ltb_spec mv (str_len v)); [done|]. destruct (Z.ltb_spec me (c + 1)); [done|].
    intros (es & -> & Hv & Hn & ->)%IH; [|lia]. exists ((n, v) :: es). rewrite zlen_cons.
    split_and!; [done|by constructor|lia|done].
  - intros (es' & Em & Hv & Hn & ->). destruct (mapM entry (rows_of ls)) as [es|] eqn:Er; [|done].
    injection Em as <-. apply Forall_cons in Hv as [Hv1 Hv]. rewrite zlen_cons in Hn. pose proof (zlen_nonneg es).
    cbn in Hv1. rewrite (proj2 (Z.ltb_ge _ _)), (proj2 (Z.ltb_ge _ _)) by lia. apply IH; [lia|].
    exists es. split_and!; [done|done|lia|done].
Qed.
End CidrFacts.

(** ** The trie and the scan *)

#[global] Instance same_net_equiv w : Equivalence (same_net w).
Proof.
  split; [by intros n|intros n m [Hl Ha]|intros n m k [Hl Ha] [Hl' Ha']]; split; try congruence;
    unfold agree in *; congruence.
Qed.

Lemma covers_same_len w n n' m : covers w n m -> covers w n' m -> n.2 = n'.2 -> same_net w n n'.
Proof. intros [_ H1] [_ H2] E. split; [done|]. unfold agree in *. rewrite E in *. congruence. Qed.

Lemma same_net_covers w n n' m : same_net w n n' -> covers w n m -> covers w n' m.
Proof. intros [E H1] [Hl H2]. split; [lia|]. unfold agree in *. rewrite <- E. congruence. Qed.

Section Lpm.
Context `{PrefixTrieLaws} (w : Z).

Definition trie_of (es : list (Z * Z * string)) : Trie :=
  foldl (fun t e => trie_insert w e.1 e.2 t) trie_new es.

Lemma trie_of_nil n : trie_get w (trie_of []) n = None.
Proof. apply trie_get_new. Qed.

Lemma trie_of_snoc es e : trie_of (es ++ [e]) = trie_insert w e.1 e.2 (trie_of es).
Proof. unfold trie_of. by rewrite foldl_app. Qed.

Lemma trie_of_respects es n n' : same_net w n n' -> trie_get w (trie_of es) n = trie_get w (trie_of es) n'.
Proof.
  intros Hs. induction es as [|e es IH] using rev_ind; [by rewrite !trie_of_nil|].
  rewrite !trie_of_snoc, !trie_get_insert, IH.
  destruct (decide (same_net w e.1 n)) as [Hn|Hn], (decide (same_net w e.1 n')) as [Hn'|Hn']; try done; exfalso.
  - apply Hn'. by rewrite Hn.
  - apply Hn. by rewrite Hn', Hs.
Qed.

Lemma trie_of_stored es n : is_Some (trie_get w (trie_of es) n) -> exists e, e ∈ es /\ same_net w e.1 n.
Proof.
  induction es as [|e es IH] using rev_ind; [rewrite trie_of_nil; by intros [? ?]|].
  rewrite trie_of_snoc, trie_get_insert. destruct (decide (same_net w e.1 n)) as [Hs|_].
  - intros _. exists e. split; [|done]. set_solver.
  - intros (e' & Hin & Hs)%IH. exists e'. split; [|done]. set_solver.
Qed.

(** The last entry of a prefix is the one stored. *)
Lemma trie_of_last es e es' : Forall (fun e' => ~ same_net w e'.1 e.1) es' ->
  trie_get w (trie_of (es ++ e :: es')) e.1 = Some e.2.
Proof.
  induction es' as [|e' es' IH] using rev_ind; intros Hf.
  - rewrite trie_of_snoc, trie_get_insert. by rewrite decide_True.
  - rewrite app_comm_cons, app_assoc, trie_of_snoc, trie_get_insert. apply Forall_app in Hf as [Hf He]. apply Forall_cons in He as [He _].
    rewrite decide_False by exact He. by apply IH.
Qed.

(** What the scan finds: the last of the longest prefixes that contain the address. *)
Lemma longest_match_spec a es :
  match longest_match w a es with
  | Some e => exists l1 l2, es = l1 ++ e :: l2 /\ covers w e.1 (a, w) /\
      Forall (fun e' => covers w e'.1 (a, w) -> e'.1.2 <= e.1.2) es /\
      Forall (fun e' => covers w e'.1 (a, w) -> e'.1.2 < e.1.2) l2
  | None => Forall (fun e => ~ covers w e.1 (a, w)) es
  end.
Proof.
  induction es as [|e es IH] using rev_ind; [constructor|].
  unfold longest_match in *. rewrite foldl_app. cbn. unfold longest_step at 1.
  destruct (decide (covers w e.1 (a, w))) as [He|He].
  - destruct (foldl _ _ es) as [b|].
    + destruct IH as (l1 & l2 & -> & Hb & Hall & Hlt). destruct (Z.leb_spec b.1.2 e.1.2).
      * exists (l1 ++ b :: l2), []. split_and!; [done|done| |constructor].
        apply Forall_app. split; [|by apply Forall_singleton]. eapply Forall_impl; [exact Hall|]. cbn. intros e' Hle Hc'. specialize (Hle Hc'). lia.
      * exists l1, (l2 ++ [e]). rewrite <- app_assoc. split_and!; [done|done| |].
        -- rewrite app_assoc. apply Forall_app. split; [done|]. apply Forall_singleton. lia.
        -- apply Forall_app. split; [done|]. by apply Forall_singleton.
    + exists es, []. split_and!; [done|done| |constructor]. apply Forall_app.
      split; [|by apply Forall_singleton]. eapply Forall_impl; [exact IH|]. by intros.
  - destruct (foldl _ _ es) as [b|].
    + destruct IH as (l1 & l2 & -> & Hb & Hall & Hlt). exists l1, (l2 ++ [e]). rewrite <- app_assoc.
      split_and!; [done|done| |]; [rewrite app_assoc|]; apply Forall_app;
        (split; [done|]); by apply Forall_singleton.
    + apply Forall_app. split; [done|]. by apply Forall_singleton.
Qed.

(** Entries that are shorter where they contain the address are of other prefixes. *)
Lemma shorter_other a (e : Z * Z * string) (es : list (Z * Z * string)) : covers w e.1 (a, w) ->
  Forall (fun e' => covers w e'.1 (a, w) -> e'.1.2 < e.1.2) es -> Forall (fun e' => ~ same_net w e'.1 e.1) es.
Proof.
  intros Hc Hlt. eapply Forall_impl; [exact Hlt|]. cbn. intros e' Hlt' Hsame.
  assert (covers w e'.1 (a, w)) as Hc' by (eapply same_net_covers; [symmetry; exact Hsame|done]).
  destruct Hsame as [E _]. specialize (Hlt' Hc'). lia.
Qed.

(** A longest-prefix match in the trie of some entries is the scan of them. *)
Lemma lpm_is_scan es a : snd <$> trie_get_lpm w (trie_of es) (a, w) = snd <$> longest_match w a es.
Proof.
  pose proof (longest_match_spec a es) as Hs.
  destruct (longest_match w a es) as [e|], (trie_get_lpm w (trie_of es) (a, w)) as [[n v]|] eqn:El; [| | |done].
  - destruct Hs as (l1 & l2 & -> & Hc & Hall & Hlt). apply trie_lpm_some in El as (Hcn & Hn & Hmax).
    assert (trie_get w (trie_of (l1 ++ e :: l2)) e.1 = Some e.2) as He.
    { by eapply trie_of_last, shorter_other. }
    assert (same_net w n e.1) as Hsame.
    { apply (covers_same_len _ _ _ (a, w)); [done|done|]. apply Z.le_antisymm.
      - destruct (trie_of_stored _ n ltac:(by eexists)) as (e' & Hin & Hs').
        rewrite Forall_forall in Hall. destruct (Hs') as [<- _].
        apply Hall; [done|]. eapply same_net_covers; [symmetry; exact Hs'|done].
      - apply Hmax; [done|by eexists]. }
    cbn. rewrite (trie_of_respects _ _ _ Hsame) in Hn. congruence.
  - exfalso. destruct Hs as (l1 & l2 & -> & Hc & Hall & Hlt).
    pose proof (trie_lpm_none _ _ _ e.1 El Hc) as Hn.
    rewrite trie_of_last in Hn; [done|]. by eapply shorter_other.
  - exfalso. apply trie_lpm_some in El as (Hcn & Hn & _).
    destruct (trie_of_stored _ n ltac:(by eexists)) as (e' & Hin & Hs').
    rewrite Forall_forall in Hs. apply (Hs e' Hin). eapply same_net_covers; [symmetry; exact Hs'|done].
Qed.
End Lpm.

(** ** Reading with a cap *)

Lemma take_bytes_all n s : str_len s <= n -> take_bytes n s = s.
Proof.
  revert n. induction s as [|c s IH]; intros n Hn; [done|]. cbn in *. pose proof (str_len_nonneg s).
  rewrite (proj2 (Z.leb_gt n 0)) by lia. f_equal. apply IH. lia.
Qed.

Lemma take_bytes_len n s : 0 <= n <= str_len s -> str_len (take_bytes n s) = n.
Proof.
  revert n. induction s as [|c s IH]; intros n Hn; cbn in *; [lia|]. destruct (Z.leb_spec n 0); cbn; [lia|].
  rewrite IH; lia.
Qed.

(** Below the largest cap, a file is read whole or not at all. *)
Lemma read_capped_exact bytes max_file : 0 <= max_file < u64_max ->
  read_capped (Ok bytes) max_file =
  if max_file <? str_len bytes then Err DsFileTooBig
  else if from_utf8 bytes then Ok bytes else Err DsNotUtf8.
Proof.
  unfold u64_max. intros Hm. cbn. assert (sat_add 64 max_file 1 = max_file + 1) as -> by (unfold sat_add; lia).
  destruct (Z.ltb_spec max_file (str_len bytes)).
  - rewrite take_bytes_len by lia. by rewrite (proj2 (Z.ltb_lt _ _)) by lia.
  - rewrite take_bytes_all by lia. by rewrite (proj2 (Z.ltb_ge _ _)) by lia.
Qed.

(** ** CIDR files *)

Section CidrTheorems.
Context `{PrefixTrieLaws} (parse_net : string -> option IpNet) (parse_ip : string -> option IpAddr).

(** [bytes] is a CIDR file that says [es] and keeps to the limits. *)
Record cidr_file (max_file max_entries max_value : Z) (bytes : string) (es : list (IpNet * string)) : Prop := {
  cf_size : str_len bytes <= max_file;
  cf_utf8 : from_utf8 bytes = true;
  cf_entries : mapM (cidr_entry parse_net parse_ip) (rows bytes) = Some es;
  cf_values : Forall (fun e => str_len e.2 <= max_value) es;
  cf_count : zlen es <= max_entries;
}.

Lemma insert_all_tries es : forall e4 e6,
  insert_all (MkCidr (trie_of 32 e4) (trie_of 128 e6)) es =
  MkCidr (trie_of 32 (e4 ++ omap v4_entry es)) (trie_of 128 (e6 ++ omap v6_entry es)).
Proof.
  unfold insert_all. induction es as [|[[a l|a l] v] es IH]; intros e4 e6; cbn; [by rewrite !app_nil_r| |].
  - assert (trie_insert 32 (a, l) v (trie_of 32 e4) = trie_of 32 (e4 ++ [(a, l, v)])) as -> by (by rewrite trie_of_snoc).
    rewrite IH, <- app_assoc. done.
  - assert (trie_insert 128 (a, l) v (trie_of 128 e6) = trie_of 128 (e6 ++ [(a, l, v)])) as -> by (by rewrite trie_of_snoc).
    rewrite IH, <- app_assoc. done.
Qed.

Lemma cidr_lookup_scan es ip : cidr_lookup (insert_all cidr_default es) ip = scan es ip.
Proof.
  change cidr_default with (MkCidr (trie_of 32 []) (trie_of 128 [])). rewrite insert_all_tries.
  destruct ip; apply lpm_is_scan.
Qed.

Lemma load_cidr_cases (bytes name : string) (max_file max_entries max_value : Z) :
  0 <= max_file < u64_max -> 0 <= max_entries ->
  match load_cidr_table parse_net parse_ip (Ok bytes) name max_file max_entries max_value with
  | Some (Ok (t, n)) =>
      n = str_len bytes /\
      exists es, cidr_file max_file max_entries max_value bytes es /\ forall ip, cidr_lookup t ip = scan es ip
  | Some (Err e) => se_name e = name /\ ~ exists es, cidr_file max_file max_entries max_value bytes es
  | None => False
  end.
Proof.
  intros Hf He. unfold load_cidr_table. rewrite read_capped_exact by done.
  destruct (Z.ltb_spec max_file (str_len bytes)) as [Hlt|Hle]; [split; [done|]; intros (es & []); lia|].
  destruct (from_utf8 bytes) eqn:Eu; [|split; [done|]; intros (es & []); congruence].
  destruct (cidr_lines_total parse_net parse_ip max_entries max_value 0 (lines bytes) 0 cidr_default) as [r Er].
  rewrite Er. destruct r as [t|e].
  - split; [done|]. apply cidr_lines_exact in Er as (es & Hm & Hv & Hn & ->); [|done].
    exists es. split; [by split|]. apply cidr_lookup_scan.
  - split; [done|]. intros (es & [_ _ Hm Hv Hn]).
    assert (cidr_lines parse_net parse_ip max_entries max_value 0 (lines bytes) 0 cidr_default =
            Some (Ok (insert_all cidr_default es))) as E'; [|congruence].
    apply cidr_lines_exact; [done|]. by exists es.
Qed.
(** C28: A CIDR file is loaded exactly when it is text within the limits whose every line
    is a prefix with at most a value, and it never panics; and a lookup in the
    table is then the linear scan of the lines: the value of the longest prefix that
    covers the address, of equal prefixes the last, and of the other family none. *)
Theorem cidr_table_is_scan (bytes name : string) (max_file max_entries max_value : Z) :
  0 <= max_file < u64_max -> 0 <= max_entries ->
  match load_cidr_table parse_net parse_ip (Ok bytes) name max_file max_entries max_value with
  | Some (Ok (t, n)) =>
      n = str_len bytes /\
      exists es, cidr_file max_file max_entries max_value bytes es /\ forall ip, cidr_lookup t ip = scan es ip
  | Some (Err e) => se_name e = name /\ ~ exists es, cidr_file max_file max_entries max_value bytes es
  | None => False
  end.
Proof. apply load_cidr_cases. Qed.
End CidrTheorems.

(** ** CSV files *)

Lemma split_on_nonempty c s : split_on c s <> [].
Proof. destruct s as [|d s]; cbn; [done|]. destruct (Ascii.eqb d c); [done|]. by destruct (split_on c s). Qed.

Lemma parse_csv_line_nonempty l : parse_csv_line l <> [].
Proof. unfold parse_csv_line. by intros ?%fmap_nil_inv%split_on_nonempty. Qed.

Definition insert_pairs (t : gmap string string) (ps : list (string * string)) : gmap string string :=
  foldl (fun t p => <[p.1 := p.2]> t) t ps.

Lemma insert_pairs_lookup ps key : insert_pairs ∅ ps !! key = last_value ps key.
Proof.
  unfold insert_pairs, last_value. induction ps as [|[k v] ps IH] using rev_ind; [done|].
  rewrite foldl_app, List.filter_app. cbn. destruct (String.eqb_spec k key) as [->|Hk].
  - by rewrite lookup_insert_eq, last_snoc.
  - by rewrite lookup_insert_ne, app_nil_r.
Qed.

Section CsvFacts.
Context (limits : EffectiveTableLimits) (key_col value_col : string).
#[local] Abbreviation read := (csv_lines limits key_col value_col).

(** What the records that are left say, once a header may have been seen. *)
Definition pairs_under (header : option (list string)) (records : list (list string)) : option (list (string * string)) :=
  match header with
  | None => csv_pairs key_col value_col records
  | Some h => mapM (cells (csv_columns key_col value_col (Some h))) records
  end.

Definition short_pair (p : string * string) : Prop :=
  str_len p.1 <= tl_key_bytes limits /\ str_len p.2 <= tl_value_bytes limits.

Definition is_header (header : option (list string)) (r : list string) : bool :=
  negb (is_someb header) && looks_like_header r key_col value_col.

Lemma pairs_under_header header r rs : is_header header r = true -> pairs_under header (r :: rs) = pairs_under (Some r) rs.
Proof.
  destruct header; cbn; [done|]. intros E. unfold csv_pairs. cbn. rewrite E. cbn.
  by destruct (mapM _ rs).
Qed.

Lemma pairs_under_row header r rs : is_header header r = false ->
  pairs_under header (r :: rs) =
  let! p := cells (csv_columns key_col value_col header) r in
  let! ps := pairs_under header rs in Some (p :: ps).
Proof.
  destruct header as [h|]; [done|]. cbn. intros E. unfold csv_pairs. cbn. rewrite E. cbn.
  destruct (split_header _ _ rs) as [bef [[h aft]|]]; cbn; destruct (cells (0, 1)%nat r); cbn; try done;
    destruct (mapM (cells (0, 1)%nat) bef); cbn; try done. by destruct (mapM _ aft).
Qed.

(** The loop at a line that is a record. *)
Lemma csv_row k l ls header c t : skipped (trim l) = false -> is_header header (parse_csv_line (trim l)) = false ->
  read k (l :: ls) header c t =
  match cells (csv_columns key_col value_col header) (parse_csv_line (trim l)) with
  | None => Err (DsNotEnoughColumns (k + 1))
  | Some (key, value) =>
      if tl_key_bytes limits <? str_len key then Err (DsKeyTooLong (k + 1))
      else if tl_value_bytes limits <? str_len value then Err (DsValueTooLong (k + 1))
      else if tl_entries limits <? c + 1 then Err DsTooManyEntries
      else read (k + 1) ls header (c + 1) (<[key := value]> t)
  end.
Proof.
  intros Es Eh. cbn [csv_lines]. rewrite Es, bool_decide_false by apply parse_csv_line_nonempty.
  unfold is_header in Eh. rewrite Eh. unfold cells.
  destruct (csv_columns _ _ header) as [ki vi]. cbn.
  by destruct (parse_csv_line (trim l) !! ki), (parse_csv_line (trim l) !! vi).
Qed.

Lemma csv_lines_exact k ls header c t t' : c <= tl_entries limits ->
  read k ls header c t = Ok t' <->
  exists ps, pairs_under header (parse_csv_line <$> rows_of ls) = Some ps /\ Forall short_pair ps /\
    c + zlen ps <= tl_entries limits /\ t' = insert_pairs t ps.
Proof.
  revert k header c t. induction ls as [|l ls IH]; intros k header c t Hc.
  { assert (pairs_under header (parse_csv_line <$> rows_of []) = Some []) as -> by (by destruct header). cbn. split.
    - intros [= <-]. exists []. split_and!; [done|apply Forall_nil_2|unfold zlen; cbn; lia|done].
    - intros (ps & [= <-] & _ & _ & ->). done. }
  destruct (skipped (trim l)) eqn:Es.
  { unfold rows_of. cbn. rewrite Es. by apply IH. }
  assert (parse_csv_line <$> rows_of (l :: ls) = parse_csv_line (trim l) :: (parse_csv_line <$> rows_of ls)) as ->
    by (unfold rows_of; cbn; by rewrite Es).
  destruct (is_header header (parse_csv_line (trim l))) eqn:Eh.
  { rewrite pairs_under_header by done. rewrite <- (IH (k + 1) (Some (parse_csv_line (trim l))) c t) by done.
    cbn [csv_lines]. rewrite Es, bool_decide_false by apply parse_csv_line_nonempty.
    unfold is_header in Eh. by rewrite Eh. }
  rewrite pairs_under_row, csv_row by done.
  destruct (cells _ _) as [[key value]|]; cbn; [|split; [done|by intros (? & ? & _)]]. split.
  - destruct (Z.ltb_spec (tl_key_bytes limits) (str_len key)); [done|].
    destruct (Z.ltb_spec (tl_value_bytes limits) (str_len value)); [done|].
    destruct (Z.ltb_spec (tl_entries limits) (c + 1)); [done|].
    intros (ps & Hp & Hs & Hn & ->)%IH; [|lia]. rewrite Hp. exists ((key, value) :: ps). rewrite zlen_cons.
    split_and!; [done|by constructor|lia|done].
  - intros (ps' & Hp & Hs & Hn & ->). destruct (pairs_under header (parse_csv_line <$> rows_of ls)) as [ps|] eqn:Er; [|done].
    injection Hp as <-. apply Forall_cons in Hs as [[Hk Hv] Hs]. rewrite zlen_cons in Hn. pose proof (zlen_nonneg ps).
    cbn in Hk, Hv. rewrite !(proj2 (Z.ltb_ge _ _)) by lia. apply IH; [lia|].
    exists ps. split_and!; [done|done|lia|done].
Qed.
End CsvFacts.

(** [bytes] is a CSV file that says [ps] and keeps to the limits. *)
Record csv_file (ds : DataSource) (limits : EffectiveTableLimits) (bytes : string) (ps : list (string * string)) : Prop := {
  sf_size : str_len bytes <= tl_file_bytes limits;
  sf_utf8 : from_utf8 bytes = true;
  sf_pairs : csv_pairs (column_spec (ds_key_column ds) 0) (column_spec (ds_value_column ds) 1)
               (parse_csv_line <$> rows bytes) = Some ps;
  sf_short : Forall (short_pair limits) ps;
  sf_count : zlen ps <= tl_entries limits;
}.

Lemma load_csv_cases bytes ds limits :
  0 <= tl_file_bytes limits < u64_max -> 0 <= tl_entries limits ->
  match load_csv (Ok bytes) ds limits with
  | Ok (t, n) => n = str_len bytes /\ exists ps, csv_file ds limits bytes ps /\ t = insert_pairs ∅ ps
  | Err e => se_name e = ds_name ds /\ ~ exists ps, csv_file ds limits bytes ps
  end.
Proof.
  intros Hf He. unfold load_csv. rewrite read_capped_exact by done.
  destruct (Z.ltb_spec (tl_file_bytes limits) (str_len bytes)) as [Hlt|Hle]; [split; [done|]; intros (es & []); lia|].
  destruct (from_utf8 bytes) eqn:Eu; [|split; [done|]; intros (es & []); congruence].
  destruct (csv_lines _ _ _ _ _ _ _ _) as [t|e] eqn:Er.
  - split; [done|]. apply csv_lines_exact in Er as (ps & Hm & Hv & Hn & ->); [|done].
    exists ps. split; [by split|done].
  - split; [done|]. intros (ps & [_ _ Hm Hv Hn]).
    assert (Ok (insert_pairs ∅ ps) = Err e) as [=]. rewrite <- Er. symmetry. apply csv_lines_exact; [done|]. by exists ps.
Qed.

(** A CSV file is loaded exactly when it is text within the limits whose every record has
    the columns it needs, with short cells and few enough records; and the table then
    has for each key the value of the last record with that key. *)
Theorem csv_table_exact (bytes : string) (ds : DataSource) (limits : EffectiveTableLimits) :
  0 <= tl_file_bytes limits < u64_max -> 0 <= tl_entries limits ->
  match load_csv (Ok bytes) ds limits with
  | Ok (t, n) =>
      n = str_len bytes /\ exists ps, csv_file ds limits bytes ps /\ forall key, t !! key = last_value ps key
  | Err e => se_name e = ds_name ds /\ ~ exists ps, csv_file ds limits bytes ps
  end.
Proof.
  intros Hf He. pose proof (load_csv_cases bytes ds limits Hf He) as Hc.
  destruct (load_csv (Ok bytes) ds limits) as [[t n]|e]; [|done].
  destruct Hc as (Hn & ps & Hp & ->). split; [done|]. exists ps. split; [done|]. apply insert_pairs_lookup.
Qed.

(** ** The store *)

Section StoreFacts.
Context `{PrefixTrieLaws} (parse_net : string -> option IpNet) (parse_ip : string -> option IpAddr).
Context (disk : string -> result string string) (base_dir : option string) (limits : Limits).
#[local] Abbreviation file_of ds := (disk (resolve_config_path base_dir (ds_path ds))).
#[local] Abbreviation eff ds := (effective_for limits ds).

Definition file_bytes (ds : DataSource) : Z := match file_of ds with Ok b => str_len b | Err _ => 0 end.

(** The limits of an entry are machine integers, below the one no file can exceed. *)
Definition limits_fit (ds : DataSource) : Prop := 0 <= tl_file_bytes (eff ds) < u64_max /\ 0 <= tl_entries (eff ds).

(** A table is what the file of an entry says. *)
Definition csv_of (ds : DataSource) (t : gmap string string) : Prop :=
  ds_type ds = "csv" /\ exists bytes ps, file_of ds = Ok bytes /\ csv_file ds (eff ds) bytes ps /\ forall key, t !! key = last_value ps key.
Definition cidr_of (ds : DataSource) (t : CidrTable) : Prop :=
  ds_type ds = "cidr" /\ exists bytes es, file_of ds = Ok bytes /\
    cidr_file parse_net parse_ip (tl_file_bytes (eff ds)) (tl_entries (eff ds)) (tl_value_bytes (eff ds)) bytes es /\
    forall ip, cidr_lookup t ip = scan es ip.

Lemma load_one_spec ds store store' n : limits_fit ds ->
  load_one parse_net parse_ip disk base_dir limits ds store = Some (Ok (store', n)) ->
  n = file_bytes ds /\
  ((exists t, (ds_type ds = "csv" -> csv_of ds t) /\ ds_type ds <> "cidr" /\
     store' = MkStore (<[ds_name ds := t]> (st_tables store)) (st_cidr store)) \/
   (exists t, cidr_of ds t /\ store' = MkStore (st_tables store) (<[ds_name ds := t]> (st_cidr store)))).
Proof.
  intros [Hf He]. unfold load_one, file_bytes. destruct (String.eqb_spec (ds_type ds) "cidr") as [Et|Et].
  - destruct (file_of ds) as [bytes|m] eqn:Ed; [|done].
    pose proof (load_cidr_cases parse_net parse_ip bytes (ds_name ds) _ _ (tl_value_bytes (eff ds)) Hf He) as Hc.
    destruct (load_cidr_table _ _ _ _ _ _ _) as [[[t n']|e]|]; try done.
    destruct Hc as (-> & es & Hes & Hl). intros [= <- <-]. split; [done|]. right. exists t. split; [|done].
    split; [done|]. by exists bytes, es.
  - destruct (file_of ds) as [bytes|m] eqn:Ed; [|done]. pose proof (load_csv_cases bytes ds (eff ds) Hf He) as Hc.
    destruct (load_csv _ _ _) as [[t n']|e]; [|done]. destruct Hc as (-> & ps & Hp & ->). intros [= <- <-].
    split; [done|]. left. exists (insert_pairs ∅ ps). split_and!; [|done|done]. intros E. split; [done|].
    exists bytes, ps. split_and!; [done|done|]. apply insert_pairs_lookup.
Qed.

(** Where the tables of a store come from: the entries, or the tables there were. *)
Definition store_from (store : DataSourceStore) (sources : list DataSource) (store' : DataSourceStore) : Prop :=
  (forall name t, st_tables store' !! name = Some t ->
     st_tables store !! name = Some t \/ exists ds, ds ∈ sources /\ ds_name ds = name /\ csv_of ds t) /\
  (forall name t, st_cidr store' !! name = Some t ->
     st_cidr store !! name = Some t \/ exists ds, ds ∈ sources /\ ds_name ds = name /\ cidr_of ds t) /\
  (forall name, is_Some (st_tables store !! name) -> is_Some (st_tables store' !! name)) /\
  (forall name, is_Some (st_cidr store !! name) -> is_Some (st_cidr store' !! name)) /\
  Forall (fun ds => ds_name ds <> "" /\ if String.eqb (ds_type ds) "cidr" then is_Some (st_cidr store' !! ds_name ds)
                    else ds_type ds = "csv" /\ is_Some (st_tables store' !! ds_name ds)) sources.

Lemma store_from_refl store : store_from store [] store.
Proof. split_and!; try done; by left. Qed.

Lemma store_from_csv store ds t sources store' : csv_of ds t -> ds_name ds <> "" ->
  store_from (MkStore (<[ds_name ds := t]> (st_tables store)) (st_cidr store)) sources store' ->
  store_from store (ds :: sources) store'.
Proof.
  intros Ht Hne (Htab & Hcid & Hkt & Hkc & Hall). cbn in *. split_and!.
  - intros name t' [Hn|(d & Hin & Hd)]%Htab; [|right; exists d; set_solver].
    apply lookup_insert_Some in Hn as [[<- <-]|[_ Hn]]; [right; exists ds; set_solver|by left].
  - intros name t' [Hn|(d & Hin & Hd)]%Hcid; [by left|right; exists d; set_solver].
  - intros name Hn. apply Hkt. by apply lookup_insert_is_Some'; right.
  - done.
  - constructor; [|done]. split; [done|]. destruct Ht as [Ht _]. rewrite Ht. cbn. split; [done|].
    apply Hkt. by rewrite lookup_insert_eq.
Qed.

Lemma store_from_cidr store ds t sources store' : cidr_of ds t -> ds_name ds <> "" ->
  store_from (MkStore (st_tables store) (<[ds_name ds := t]> (st_cidr store))) sources store' ->
  store_from store (ds :: sources) store'.
Proof.
  intros Ht Hne (Htab & Hcid & Hkt & Hkc & Hall). cbn in *. split_and!.
  - intros name t' [Hn|(d & Hin & Hd)]%Htab; [by left|right; exists d; set_solver].
  - intros name t' [Hn|(d & Hin & Hd)]%Hcid; [|right; exists d; set_solver].
    apply lookup_insert_Some in Hn as [[<- <-]|[_ Hn]]; [right; exists ds; set_solver|by left].
  - done.
  - intros name Hn. apply Hkc. by apply lookup_insert_is_Some'; right.
  - constructor; [|done]. split; [done|]. destruct Ht as [Ht _]. rewrite Ht. cbn. apply Hkc. by rewrite lookup_insert_eq.
Qed.

Definition total_of (sources : list DataSource) : Z := foldr Z.add 0 (file_bytes <$> sources).

Lemma file_bytes_nonneg ds : 0 <= file_bytes ds.
Proof. unfold file_bytes. destruct (file_of ds); [apply str_len_nonneg|done]. Qed.

Lemma load_sources_spec sources : Forall limits_fit sources -> max_total_bytes limits < u64_max ->
  forall total store store', 0 <= total <= max_total_bytes limits ->
  load_sources parse_net parse_ip disk base_dir limits sources total store = Some (Ok store') ->
  total + total_of sources <= max_total_bytes limits /\ store_from store sources store'.
Proof.
  intros Hfit Hmax. induction Hfit as [|ds sources Hds Hfit IH]; intros total store store' Ht.
  { cbn. intros [= <-]. split; [unfold total_of; cbn; lia|apply store_from_refl]. }
  cbn [load_sources].
  destruct (negb (String.eqb (ds_type ds) "csv") && negb (String.eqb (ds_type ds) "cidr")) eqn:Ety; [done|].
  destruct (String.eqb_spec (ds_name ds) "") as [|Hne]; [done|]. destruct (String.eqb (ds_path ds) ""); [done|].
  destruct (load_one _ _ _ _ _ _ _) as [[[store1 n]|e]|] eqn:El; cbn; try done.
  apply load_one_spec in El as (-> & Hcase); [|done]. pose proof (file_bytes_nonneg ds).
  destruct (Z.ltb_spec (max_total_bytes limits) (sat_add 64 total (file_bytes ds))) as [|Hle]; [done|].
  assert (sat_add 64 total (file_bytes ds) = total + file_bytes ds) as Esat.
  { unfold sat_add, u64_max in *. lia. }
  rewrite Esat in Hle. intros [Hsum Hst]%IH; [|lia]. rewrite Esat in Hsum. split; [unfold total_of in *; cbn; lia|].
  destruct Hcase as [(t & Hcsv & Hnc & ->)|(t & Hcidr & ->)]; [|by eapply store_from_cidr].
  eapply store_from_csv; [|done|done]. apply Hcsv.
  destruct (String.eqb_spec (ds_type ds) "csv"); [done|]. by destruct (String.eqb_spec (ds_type ds) "cidr").
Qed.

Lemma load_one_total ds store : is_Some (load_one parse_net parse_ip disk base_dir limits ds store).
Proof.
  unfold load_one. destruct (String.eqb _ _); [|by eexists]. unfold load_cidr_table.
  destruct (read_capped _ _) as [content|]; cbn; [|by eexists].
  match goal with |- context [cidr_lines ?n ?p ?a ?b ?c ?d ?e ?f] => destruct (cidr_lines_total n p a b c d e f) as [r ->] end.
  by eexists.
Qed.

Lemma load_sources_total sources : forall total store,
  load_sources parse_net parse_ip disk base_dir limits sources total store <> None.
Proof.
  induction sources as [|ds sources IH]; intros total store; cbn [load_sources]; [done|].
  destruct (_ && _); [done|]. destruct (String.eqb _ _); [done|]. destruct (String.eqb _ _); [done|].
  destruct (load_one_total ds store) as [[[s n]|e] ->]; cbn; [|done]. destruct (_ <? _); [done|apply IH].
Qed.

(** Loading the data sources never panics. When it succeeds there are no more tables than
    the limit, their files have no more bytes together than the limit, every entry has
    its table, and every table is that of an entry: what its file says, within the
    limits of that entry. *)
Theorem loaded_store_sound (sources : list DataSource) :
  Forall limits_fit sources -> 0 <= max_total_bytes limits < u64_max ->
  match load_data_sources parse_net parse_ip disk base_dir limits sources with
  | Some (Ok store) =>
      zlen sources <= max_tables limits /\ total_of sources <= max_total_bytes limits /\
      store_from store_default sources store
  | Some (Err _) => True
  | None => False
  end.
Proof.
  intros Hfit Hmax. unfold load_data_sources. destruct (Z.ltb_spec (max_tables limits) (zlen sources)); [done|].
  destruct (load_sources _ _ _ _ _ _ _ _) as [[store|e]|] eqn:El; [|done|].
  - apply load_sources_spec in El as [Hs Hst]; [|done|lia|lia]. by split_and!.
  - by eapply load_sources_total.
Qed.
End StoreFacts.

(** ** Witnesses *)

(** A trie that is a list of entries, the newest first. *)
Definition list_get (w : Z) (t : list (Z * Z * string)) (n : Z * Z) : option string :=
  snd <$> List.find (fun e => bool_decide (same_net w e.1 n)) t.
Fixpoint list_lpm (w : Z) (t : list (Z * Z * string)) (m : Z * Z) : option (Z * Z * string) :=
  match t with
  | [] => None
  | e :: t =>
      if decide (covers w e.1 m) then
        match list_lpm w t m with
        | Some b => if b.1.2 <=? e.1.2 then Some e else Some b
        | None => Some e
        end
      else list_lpm w t m
  end.
#[local] Instance list_trie : PrefixTrie := {|
  Trie := list (Z * Z * string); trie_new := []; trie_insert w n v t := (n, v) :: t; trie_get := list_get; trie_get_lpm := list_lpm |}.

Lemma list_get_cons w e t m : list_get w (e :: t) m = if decide (same_net w e.1 m) then Some e.2 else list_get w t m.
Proof. unfold list_get. cbn. by destruct (decide (same_net w e.1 m)); case_bool_decide. Qed.

Lemma list_lpm_none w t m n : list_lpm w t m = None -> covers w n m -> list_get w t n = None.
Proof.
  intros Eb Hn. induction t as [|y t IH]; [done|]. cbn in Eb. rewrite list_get_cons.
  destruct (decide (covers w y.1 m)) as [|Hy]; [by destruct (list_lpm w t m); [destruct (_ <=? _)|]|].
  rewrite decide_False; [by apply IH|]. intros Hs. apply Hy. eapply same_net_covers; [symmetry; exact Hs|done].
Qed.

Lemma list_lpm_some w t m e : list_lpm w t m = Some e ->
  covers w e.1 m /\ list_get w t e.1 = Some e.2 /\
  forall n', covers w n' m -> is_Some (list_get w t n') -> n'.2 <= e.1.2.
Proof.
  revert e. induction t as [|x t IH]; intros e; cbn [list_lpm]; [done|].
  destruct (decide (covers w x.1 m)) as [Hx|Hx].
  - destruct (list_lpm w t m) as [b|] eqn:Eb.
    + destruct (IH b eq_refl) as (Hc & Hg & Hmax). destruct (Z.leb_spec b.1.2 x.1.2); intros [= <-]; split; try done; split.
      * rewrite list_get_cons. by rewrite decide_True.
      * intros n' Hn'. rewrite list_get_cons. destruct (decide _) as [[E _]|_]; [lia|]. intros Hs. specialize (Hmax _ Hn' Hs). lia.
      * rewrite list_get_cons, decide_False; [done|]. intros [E _]. lia.
      * intros n' Hn'. rewrite list_get_cons. destruct (decide _) as [[E _]|_]; [lia|]. by apply Hmax.
    + intros [= <-]. split; [done|]. rewrite list_get_cons, decide_True by done. split; [done|].
      intros n' Hn'. rewrite list_get_cons. destruct (decide _) as [[E _]|_]; [lia|]. rewrite (list_lpm_none _ _ _ _ Eb Hn').
      by intros [? ?].
  - intros Eb. destruct (IH e Eb) as (Hc & Hg & Hmax). split; [done|]. split.
    + rewrite list_get_cons, decide_False; [done|]. intros Hs. apply Hx. eapply same_net_covers; [symmetry; exact Hs|done].
    + intros n' Hn'. rewrite list_get_cons. destruct (decide _) as [Hs|_]; [|by apply Hmax].
      exfalso. apply Hx. eapply same_net_covers; [symmetry; exact Hs|done].
Qed.

#[local] Instance list_trie_laws : PrefixTrieLaws.
Proof.
  split; [done|intros; apply list_get_cons| |intros; by eapply list_lpm_none].
  intros w t m n v H. exact (list_lpm_some w t m (n, v) H).
Qed.

Definition sample_net (s : string) : option IpNet :=
  if String.eqb s "10.0.0.0/8" then Some (NetV4 167772160 8)
  else if String.eqb s "10.1.0.0/16" then Some (NetV4 167837696 16) else None.
Definition no_ip (s : string) : option IpAddr := None.

Definition loads {A} (r : option (result A ScriptError)) : bool := match r with Some (Ok _) => true | _ => false end.
Definition nl : string := String newline "".
Definition sample_cidr : string := ("# offices" ++ nl ++ "10.1.0.0/16 lab" ++ nl ++ "10.0.0.0/8 corp" ++ nl)%string.

(** 10.1.2.3 is in the laboratory, although the wider prefix comes later. *)
Lemma cidr_table_is_scan_witness :
  match load_cidr_table sample_net no_ip (Ok sample_cidr) "offices" 100 10 10 with
  | Some (Ok (t, n)) => n = 42 /\ cidr_lookup t (IpV4 167838211) = Some "lab" /\ cidr_lookup t (IpV4 167772161) = Some "corp" /\
      cidr_lookup t (IpV6 167838211) = None
  | _ => False
  end.
Proof.
  pose proof (cidr_table_is_scan sample_net no_ip sample_cidr "offices" 100 10 10 ltac:(unfold u64_max; lia) ltac:(lia)) as Hc.
  assert (loads (load_cidr_table sample_net no_ip (Ok sample_cidr) "offices" 100 10 10) = true) as Hok by (vm_compute; reflexivity).
  destruct (load_cidr_table _ _ _ _ _ _ _) as [[[t n]|e]|]; [|done|done].
  destruct Hc as (-> & es & [_ _ Hes _ _] & Hl). rewrite !Hl. vm_compute in Hes. injection Hes as <-.
  split_and!; vm_compute; reflexivity.
Defined.

Definition csv_source : DataSource := {|
  ds_name := "owners"; ds_type := "csv"; ds_path := "owners.csv"; ds_key_column := ""; ds_value_column := "owner";
  ds_max_file_bytes := None; ds_max_entries := None; ds_max_key_bytes := None; ds_max_value_bytes := None |}.
Definition cidr_source : DataSource := {|
  ds_name := "offices"; ds_type := "cidr"; ds_path := "/etc/offices"; ds_key_column := ""; ds_value_column := "";
  ds_max_file_bytes := None; ds_max_entries := None; ds_max_key_bytes := None; ds_max_value_bytes := None |}.
Definition sample_csv : string := ("owner, key" ++ nl ++ "ann, a.example" ++ nl ++ "bob, a.example" ++ nl)%string.

Lemma csv_table_exact_witness :
  match load_csv (Ok sample_csv) csv_source (effective_for limits_default csv_source) with
  | Ok (t, _) => t !! "a.example" = Some "bob"
  | Err _ => False
  end.
Proof.
  pose proof (csv_table_exact sample_csv csv_source (effective_for limits_default csv_source)
    ltac:(vm_compute; split; congruence) ltac:(vm_compute; congruence)) as Hc.
  assert (loads (Some (load_csv (Ok sample_csv) csv_source (effective_for limits_default csv_source))) = true) as Hok
    by (vm_compute; reflexivity).
  destruct (load_csv _ _ _) as [[t n]|e]; [|done].
  destruct Hc as (_ & ps & [_ _ Hps _ _] & Hl). rewrite Hl. vm_compute in Hps. injection Hps as <-.
  vm_compute. reflexivity.
Defined.

Definition sample_disk (path : string) : result string string :=
  if String.eqb path "/etc/offices" then Ok sample_cidr
  else if String.eqb path "/etc/conduit/owners.csv" then Ok sample_csv else Err "not found".

Lemma loaded_store_sound_witness :
  match load_data_sources sample_net no_ip sample_disk (Some "/etc/conduit") limits_default [csv_source; cidr_source] with
  | Some (Ok store) => has_table store "owners" = true /\ has_cidr_table store "offices" = true
  | _ => False
  end.
Proof.
  pose proof (loaded_store_sound sample_net no_ip sample_disk (Some "/etc/conduit") limits_default [csv_source; cidr_source]
    ltac:(repeat constructor; vm_compute; congruence) ltac:(vm_compute; split; congruence)) as Hs.
  assert (loads (load_data_sources sample_net no_ip sample_disk (Some "/etc/conduit") limits_default
    [csv_source; cidr_source]) = true) as Hok by (vm_compute; reflexivity).
  destruct (load_data_sources _ _ _ _ _ _) as [[store|e]|]; [|done|done].
  destruct Hs as (_ & _ & _ & _ & _ & _ & Hall). apply Forall_cons in Hall as [[_ H1] Hall].
  apply Forall_cons in Hall as [[_ H2] _]. unfold has_table, has_cidr_table. cbn in H1, H2.
  destruct H1 as [_ [? ->]], H2 as [? ->]. done.
Defined.

(** In a file without a header, a record whose value is the name of the value column is
    taken for a header wherever it stands: its key is lost. *)
Theorem headerless_row_lost :
  (fun r => r.1 !! "b") <$> result_ok (load_csv (Ok ("a,1" ++ nl ++ "b,value" ++ nl ++ "c,2" ++ nl)%string)
     {| ds_name := "t"; ds_type := "csv"; ds_path := "t.csv"; ds_key_column := ""; ds_value_column := "";
        ds_max_file_bytes := None; ds_max_entries := None; ds_max_key_bytes := None; ds_max_value_bytes := None |}
     (effective_for limits_default csv_source)) = Some None.
Proof. vm_compute. reflexivity. Qed.
