(* ===== verification/Messages.v ===== *)
(** * Messages: the sections of the configuration

    The messages of src/proto/conduit/v1/config.proto that [Config] leaves open,
    because merging only copies them, as records; together they are an instance of
    [Sections], and a [Config] over it is a whole configuration. Then the
    helpers that resolve defaults: conduit-config/src/dataplane.rs, shutdown.rs,
    listeners.rs, defaults.rs and duration.rs. A message of the program is the
    fixed part of its text with the values it shows. *)

From stdpp Require Import base gmap list strings.
From Stdlib Require Import ZArith Lia Ascii SpecFloat.
From S2P Require Import Prelude Text Floats Selectors Rules Acl Config.

#[local] Open Scope string_scope.
#[local] Open Scope list_scope.
#[local] Open Scope Z_scope.

(** A message: its text and the values in it. *)
Definition Msg : Type := string * list string.

(** ** Sections *)

Record HealthCheck := {
  hc_enabled : bool; hc_interval_ms : option Z; hc_timeout_ms : option Z; hc_rise : option Z; hc_fall : option Z;
  hc_probe_qname : option string; hc_probe_qtype : option string; hc_acceptable_rcodes : list string;
  hc_initial_state : option string; hc_latency_weighting : option bool; hc_min_eligible : option Z;
  hc_passive_fast_trip : option bool; hc_passive_fall : option Z;
}.

Record ForwardConfig := {
  fc_outstanding_per_backend : Z; fc_timeout_ms : Z; fc_sources_v4 : list string; fc_source_selection : string;
  fc_sources_v6 : list string; fc_upstream_transport : string; fc_client_tcp_uses_upstream_tcp : bool;
}.

Record ListenerConfig := {
  li_address : string; li_protocol : string; li_threads : option Z; li_reuse_port : option bool; li_name : option string;
  li_rcvbuf : option Z; li_acls : option Acl.AclsConfig;
}.
Record ListenersConfig := {
  ls_threads : Z; ls_reuse_port : bool; ls_rcvbuf : Z; ls_sndbuf : Z; ls_listeners : list ListenerConfig;
}.

Record RuleConfig := {
  ru_name : string; ru_hook : string; ru_selectors : list Selector; ru_actions : list Action;
}.
Record RulesConfig := { rs_match_mode : string; rs_rules : list RuleConfig }.

Record AclDeniedSample := { as_mode : string; as_rate : option f64; as_nth : option Z }.
Record QueryAccessLogging := { qa_acl_denied : string; qa_acl_denied_sample : option AclDeniedSample }.
Record LoggingConfig := { lo_level : string; lo_output : string; lo_query_access : option QueryAccessLogging }.

Record DataplaneConfig := { dp_runtime : string; dp_policy_workers : Z; dp_io_workers : Z; dp_slot_chunk_size : option Z }.
Record ShutdownConfig := { sd_drain : option bool; sd_drain_timeout_ms : option Z }.

Record ControlTlsConfig := { tls_cert_path : string; tls_key_path : string; tls_client_ca_path : string }.
Record ControlConfig := {
  cl_listen_address : string; cl_reflection_enabled : bool; cl_api_keys : list string; cl_tls : option ControlTlsConfig;
}.

Record LookupProvider := { pv_type : string; pv_cache : option string }.
Record LookupProfile := { pf_providers : list LookupProvider }.
Record LookupConfig := { lc_profiles : gmap string LookupProfile }.

Record TracingActivation := {
  ta_tag : option string; ta_selectors : list Selector; ta_sample_percent : option f64; ta_sample_key : option string;
  ta_sample_key_from : option string;
}.
Record TracingConfig := { tr_enabled : bool; tr_activation : option TracingActivation; tr_log_json : option bool }.

Record EventSinkFilters := {
  fi_tag_required : option string; fi_selectors : list Selector; fi_sample_percent : option f64; fi_pool : option string;
  fi_backend : option string; fi_sample_key : option string; fi_sample_key_from : option string;
}.
Record ConnectRetry := {
  cr_initial_ms : Z; cr_max_ms : Z; cr_multiplier : f64; cr_max_elapsed_ms : Z; cr_jitter : bool;
}.

#[global] Instance f64_eq : EqDecision f64. Proof. unfold f64. solve_decision. Defined.
#[global] Instance Selector_eq : EqDecision Selector. Proof. solve_decision. Defined.
#[global] Instance Action_eq : EqDecision Action. Proof. solve_decision. Defined.
#[global] Instance AclRuleConfig_eq : EqDecision AclRuleConfig. Proof. solve_decision. Defined.
#[global] Instance AclsConfig_eq : EqDecision Acl.AclsConfig. Proof. solve_decision. Defined.
#[global] Instance HealthCheck_eq : EqDecision HealthCheck. Proof. solve_decision. Defined.
#[global] Instance ForwardConfig_eq : EqDecision ForwardConfig. Proof. solve_decision. Defined.
#[global] Instance ListenerConfig_eq : EqDecision ListenerConfig. Proof. solve_decision. Defined.
#[global] Instance ListenersConfig_eq : EqDecision ListenersConfig. Proof. solve_decision. Defined.
#[global] Instance AclDeniedSample_eq : EqDecision AclDeniedSample. Proof. solve_decision. Defined.
#[global] Instance QueryAccess_eq : EqDecision QueryAccessLogging. Proof. solve_decision. Defined.
#[global] Instance LoggingConfig_eq : EqDecision LoggingConfig. Proof. solve_decision. Defined.
#[global] Instance DataplaneConfig_eq : EqDecision DataplaneConfig. Proof. solve_decision. Defined.
#[global] Instance ShutdownConfig_eq : EqDecision ShutdownConfig. Proof. solve_decision. Defined.
#[global] Instance ControlTls_eq : EqDecision ControlTlsConfig. Proof. solve_decision. Defined.
#[global] Instance ControlConfig_eq : EqDecision ControlConfig. Proof. solve_decision. Defined.
#[global] Instance LookupProvider_eq : EqDecision LookupProvider. Proof. solve_decision. Defined.
#[global] Instance LookupProfile_eq : EqDecision LookupProfile. Proof. solve_decision. Defined.
#[global] Instance LookupConfig_eq : EqDecision LookupConfig. Proof. solve_decision. Defined.
#[global] Instance Filters_eq : EqDecision EventSinkFilters. Proof. solve_decision. Defined.
#[global] Instance ConnectRetry_eq : EqDecision ConnectRetry. Proof. solve_decision. Defined.

#[global] Instance messages : Sections := {|
  Config.ListenersConfig := ListenersConfig; Config.ForwardConfig := ForwardConfig; Config.ControlConfig := ControlConfig;
  Config.RulesConfig := RulesConfig; Config.LoggingConfig := LoggingConfig; Config.TracingConfig := TracingConfig;
  Config.DataplaneConfig := DataplaneConfig; Config.ShutdownConfig := ShutdownConfig; Config.LookupConfig := LookupConfig;
  Config.AclsConfig := Acl.AclsConfig; Config.HealthCheck := HealthCheck; Config.EventSinkFilters := EventSinkFilters;
  Config.ConnectRetry := ConnectRetry |}.

(** ** Defaults *)

Definition DEFAULT_LISTENER_THREADS : Z := 1.
Definition DEFAULT_DATAPLANE_RUNTIME : string := "sync".
Definition DEFAULT_POLICY_WORKERS : Z := 1.
Definition DEFAULT_IO_WORKERS : Z := 1.
Definition DEFAULT_DRAIN_ENABLED : bool := true.
Definition DEFAULT_DRAIN_TIMEOUT_MS : Z := 5000.

(** [o.filter(|r| !r.is_empty()).unwrap_or(d)] of a field of a section. *)
Definition effective_dataplane_runtime (cfg : Config) : string :=
  match dataplane cfg with
  | Some d => if is_empty (dp_runtime d) then DEFAULT_DATAPLANE_RUNTIME else dp_runtime d
  | None => DEFAULT_DATAPLANE_RUNTIME
  end.
Definition effective_policy_workers (cfg : Config) : Z :=
  match dataplane cfg with
  | Some d => if 0 <? dp_policy_workers d then dp_policy_workers d else DEFAULT_POLICY_WORKERS
  | None => DEFAULT_POLICY_WORKERS
  end.
Definition effective_io_workers (cfg : Config) : Z :=
  match dataplane cfg with
  | Some d => if 0 <? dp_io_workers d then dp_io_workers d else DEFAULT_IO_WORKERS
  | None => DEFAULT_IO_WORKERS
  end.
Definition effective_drain (cfg : Config) : bool :=
  default DEFAULT_DRAIN_ENABLED (shutdown cfg ≫= sd_drain).
Definition effective_drain_timeout_ms (cfg : Config) : Z :=
  default DEFAULT_DRAIN_TIMEOUT_MS (shutdown cfg ≫= sd_drain_timeout_ms).

Definition parse_dataplane_runtime (runtime : string) : result unit Msg :=
  if contains ["sync"; "split_io"; "tokio"] runtime then Ok tt else Err ("dataplane.runtime must be sync, split_io, or tokio", [runtime]).

Definition validate_dataplane (cfg : Config) : list Msg :=
  match dataplane cfg with
  | None => []
  | Some dp =>
      let runtime := if is_empty (dp_runtime dp) then DEFAULT_DATAPLANE_RUNTIME else dp_runtime dp in
      match parse_dataplane_runtime runtime with Err e => [e] | Ok _ => [] end ++
      (if String.eqb runtime "split_io" || String.eqb runtime "tokio" then
         (if dp_policy_workers dp =? 0 then [("dataplane.policy_workers must be >= 1", [])] else []) ++
         (if dp_io_workers dp =? 0 then [("dataplane.io_workers must be >= 1", [])] else [])
       else []) ++
      match dp_slot_chunk_size dp with
      | Some chunk => if chunk =? 0 then [("dataplane.slot_chunk_size must be >= 1 when set", [])] else []
      | None => []
      end
  end.

Definition validate_shutdown (cfg : Config) : list Msg := [].

(** ** Listeners *)

Record ResolvedListenerIngress := { ri_threads : Z; ri_reuse_port : bool; ri_rcvbuf : Z; ri_name : string }.

Section Listeners.
Context (to_lowercase : string -> string).

Definition default_listener_name (l : ListenerConfig) : string :=
  (to_lowercase (li_protocol l) ++ ":" ++ li_address l)%string.

Definition resolve_listener_ingress (block : ListenersConfig) (l : ListenerConfig) : ResolvedListenerIngress := {|
  ri_threads := Z.max (default (ls_threads block) (li_threads l)) 1;
  ri_reuse_port := default (ls_reuse_port block) (li_reuse_port l);
  ri_rcvbuf := default (ls_rcvbuf block) (li_rcvbuf l);
  ri_name := default (default_listener_name l) (Config.nonempty (li_name l)) |}.

(** The errors of one listener; [fresh] says that its name was not seen before. *)
Definition validate_listener (cfg : ListenersConfig) (ln : ListenerConfig) (fresh : bool) : list Msg :=
  (if is_empty (li_address ln) then [("listener address must not be empty", [])] else []) ++
  match li_threads ln with
  | Some threads => if threads =? 0 then [("listener threads must be >= 1", [li_address ln])] else []
  | None => []
  end ++
  match Config.nonempty (li_name ln) with
  | Some n => if fresh then [] else [("duplicate listener name", [n])]
  | None => []
  end ++
  let resolved := resolve_listener_ingress cfg ln in
  if eq_ignore_ascii_case (li_protocol ln) "udp" && (1 <? ri_threads resolved) && negb (ri_reuse_port resolved)
  then [("listener (UDP): threads but reuse_port is false", [ri_name resolved; dec (ri_threads resolved)])] else [].
End Listeners.

(** A loop with a [HashSet] of the keys seen so far: [f a fresh] is what the body adds, where
    [fresh] is the result of [insert] when [a] has a key. *)
Fixpoint with_seen {A B} (key : A -> option string) (f : A -> bool -> list B) (seen : list string) (l : list A) : list B :=
  match l with
  | [] => []
  | a :: l =>
      match key a with
      | Some k => f a (negb (contains seen k)) ++ with_seen key f (k :: seen) l
      | None => f a true ++ with_seen key f seen l
      end
  end.

Definition validate_listeners (to_lowercase : string -> string) (cfg : ListenersConfig) : list Msg :=
  (if ls_threads cfg =? 0 then [("listeners.threads must be >= 1", [])] else []) ++
  with_seen (fun ln => Config.nonempty (li_name ln)) (validate_listener to_lowercase cfg) [] (ls_listeners cfg).

(** ** Durations, in milliseconds *)

(** The leading digits of a string, and the rest. *)
Fixpoint split_digits (s : string) : string * string :=
  match s with
  | "" => ("", "")
  | String c s' => if is_digit c then let p := split_digits s' in (String c p.1, p.2) else ("", s)
  end.

Definition split_number_unit (s : string) : result (string * string) Msg :=
  let p := split_digits s in
  if is_empty p.2 then Err ("duration must include an ms or s unit", [s])
  else if is_empty p.1 then Err ("invalid duration number", [s])
  else Ok p.

Definition parse_duration (raw : string) : result Z Msg :=
  let s := trim raw in
  if is_empty s then Err ("duration must not be empty", [])
  else
    let? nu := split_number_unit s in
    match parse_uint u64_max nu.1 with
    | None => Err ("invalid duration number", [s])
    | Some value =>
        let u := to_ascii_lowercase nu.2 in
        if String.eqb u "ms" then Ok value
        else if String.eqb u "s" then Ok (value * 1000)
        else Err ("duration unit must be ms or s", [u])
    end.
