(* ===== verification/Compile.v ===== *)
(** * Compile: from a configuration to what the runtime reads

    The compilers of a snapshot ([RuntimeSnapshot::try_from_config_with_base]):
    conduit-config/src/forward.rs, health.rs and lookup.rs with their validators, and the
    rules of conduit-core/src/rules/mod.rs. The parsers of addresses, the
    file system's answer about a path, the scripts and the iteration order of a
    [HashMap] are parameters. A panic is [None]. *)

From stdpp Require Import base gmap list strings.
From Stdlib Require Import ZArith Lia Ascii.
From S2P Require Import Prelude Text Floats DnsWire Selectors Rules Health Lookup Forward Config Messages.

#[local] Open Scope string_scope.
#[local] Open Scope list_scope.
#[local] Open Scope Z_scope.

(** [map(f).collect::<Result<Vec<_>, _>>()], and a loop that pushes what [f] gives. *)
Fixpoint try_map {A B E} (f : A -> result B E) (l : list A) : result (list B) E :=
  match l with
  | [] => Ok []
  | a :: l => let? b := f a in let? bs := try_map f l in Ok (b :: bs)
  end.

Definition map_err {A E E'} (f : E -> E') (r : result A E) : result A E' :=
  match r with Ok a => Ok a | Err e => Err (f e) end.

(** An error in a context: [format!("{ctx}: {e}")]. *)
Definition within (ctx : list string) (e : Msg) : Msg := (e.1, ctx ++ e.2).

(** ** Forward *)

Definition MAX_SOURCES : Z := 32.
Definition DEFAULT_SOURCE_SELECTION : string := "round_robin".
Definition DEFAULT_FORWARD_OUTSTANDING_PER_BACKEND : Z := 100.
Definition DEFAULT_FORWARD_TIMEOUT_MS : Z := 2000.

Definition default_forward_config : ForwardConfig := {|
  fc_outstanding_per_backend := DEFAULT_FORWARD_OUTSTANDING_PER_BACKEND; fc_timeout_ms := DEFAULT_FORWARD_TIMEOUT_MS;
  fc_sources_v4 := []; fc_source_selection := DEFAULT_SOURCE_SELECTION; fc_sources_v6 := [];
  fc_upstream_transport := ""; fc_client_tcp_uses_upstream_tcp := false |}.

Definition parse_upstream_transport (raw : string) : result UpstreamTransport Msg :=
  let t := trim raw in
  if String.eqb t "" || String.eqb t "udp_only" then Ok UdpOnly
  else if String.eqb t "tcp_only" then Ok TcpOnly
  else if String.eqb t "prefer_udp_with_tcp_fallback" then Ok PreferUdpWithTcpFallback
  else Err ("forward.upstream_transport must be udp_only, tcp_only, or prefer_udp_with_tcp_fallback", [t]).

(** [parse_sources_v4] and [parse_sources_v6] with the parser of the family. *)
Definition parse_source (family : string) (parse : string -> option Z) (s : string) : result Z Msg :=
  if String.eqb (trim s) "" then Err ("source must not be empty", [family])
  else match parse s with Some a => Ok a | None => Err ("source is not a valid address", [family; s]) end.
Definition parse_sources (family : string) (parse : string -> option Z) (raw : list string) : result (list Z) Msg :=
  if MAX_SOURCES <? zlen raw then Err ("too many sources", [family; dec (zlen raw)])
  else try_map (parse_source family parse) raw.

Record CompiledForward := {
  cw_sources_v4 : list Z; cw_sources_v6 : list Z; cw_source_selection : string; cw_upstream_transport : UpstreamTransport;
  cw_client_tcp_uses_upstream_tcp : bool; cw_timeout_ms : Z; cw_outstanding_per_backend : Z;
}.

Section Forward.
Context (parse_sock : string -> option SocketAddr) (parse_v4 parse_v6 : string -> option Z).

Definition validate_upstream_backend_addresses (cfg : Config) : list Msg :=
  flat_map (fun p => flat_map (fun b =>
    if is_someb (parse_sock (be_address b)) then []
    else [("pool backend: invalid socket address", [po_name p; be_address b])]) (po_backends p)) (pools cfg).

(** The lists of one pool, if it has any. *)
Definition compile_pool_forward (p : Pool) : result (option PoolForward) Msg :=
  let? v4 := if bool_decide (po_sources_v4 p = []) then Ok None
             else result_map Some (parse_sources "v4" parse_v4 (po_sources_v4 p)) in
  let? v6 := if bool_decide (po_sources_v6 p = []) then Ok None
             else result_map Some (parse_sources "v6" parse_v6 (po_sources_v6 p)) in
  Ok (if is_someb v4 || is_someb v6 then Some {| pf_sources_v4 := v4; pf_sources_v6 := v6 |} else None).

Fixpoint compile_pool_forwards (ps : list Pool) (m : gmap string PoolForward) : result (gmap string PoolForward) Msg :=
  match ps with
  | [] => Ok m
  | p :: ps =>
      let? pf := compile_pool_forward p in
      compile_pool_forwards ps (match pf with Some f => <[po_name p := f]> m | None => m end)
  end.

Definition compile_forward_from_config (cfg : Config) : result (CompiledForward * gmap string PoolForward) (list Msg) :=
  match validate_upstream_backend_addresses cfg with
  | [] =>
      let f := default default_forward_config (forward cfg) in
      map_err (fun e => [e])
        (let? v4 := parse_sources "v4" parse_v4 (fc_sources_v4 f) in
         let? v6 := parse_sources "v6" parse_v6 (fc_sources_v6 f) in
         let selection := if is_empty (fc_source_selection f) then DEFAULT_SOURCE_SELECTION else fc_source_selection f in
         if negb (String.eqb selection "round_robin") then Err ("forward.source_selection must be round_robin", [selection])
         else
           let? transport := parse_upstream_transport (fc_upstream_transport f) in
           let? pool_forward := compile_pool_forwards (pools cfg) ∅ in
           Ok ({| cw_sources_v4 := v4; cw_sources_v6 := v6; cw_source_selection := selection;
                  cw_upstream_transport := transport; cw_client_tcp_uses_upstream_tcp := fc_client_tcp_uses_upstream_tcp f;
                  cw_timeout_ms := fc_timeout_ms f; cw_outstanding_per_backend := fc_outstanding_per_backend f |},
               pool_forward))
  | es => Err es
  end.
End Forward.

(** ** Health *)

Definition DEFAULT_HEALTH_INTERVAL_MS : Z := 1000.
Definition HEALTH_INTERVAL_FLOOR_MS : Z := 100.
Definition DEFAULT_HEALTH_RISE : Z := 3.
Definition DEFAULT_HEALTH_FALL : Z := 2.
Definition DEFAULT_HEALTH_PASSIVE_FALL : Z := 2.
Definition DEFAULT_LATENCY_EWMA_ALPHA : f64 := f64_div (f64_of_Z 2) (f64_of_Z 10).
Definition DEFAULT_LATENCY_FLOOR : f64 := f64_div (f64_of_Z 1) (f64_of_Z 4).
Definition DEFAULT_PROBE_QNAME : string := ".".
Definition DEFAULT_PROBE_QTYPE : string := "NS".

Definition parse_initial_state (raw : string) : result InitialHealthState Msg :=
  let t := trim raw in
  if String.eqb t "" || String.eqb t "optimistic" then Ok Optimistic
  else if String.eqb t "require_1_good" then Ok Require1Good
  else if String.eqb t "require_full_rise" then Ok RequireFullRise
  else Err ("health.initial_state must be optimistic, require_1_good, or require_full_rise", [t]).

Definition parse_wire (E : WireEnum) (raw : string) : result Z Msg :=
  map_err (fun _ => ("unknown name", [raw])) (parse_name_or_err E raw).
Definition parse_qtype : string -> result Z Msg := parse_wire RecordType.
Definition parse_rcode : string -> result Z Msg := parse_wire Rcode.

(** [nonempty] of health.rs: not blank. *)
Definition nonblank (o : option string) : option string :=
  let! s := o in if String.eqb (trim s) "" then None else Some s.

Definition backend_label (b : Config.Backend) : string := default (be_address b) (Config.nonempty (be_name b)).

Section Health.
Context (parse_sock : string -> option SocketAddr) (parse_ip : string -> option IpAddr).

Definition compile_backend_health (p : Pool) (pool_qname : string) (pool_qtype : Z) (b : Config.Backend)
    : result CompiledBackendHealth Msg :=
  match parse_sock (be_address b) with
  | None => Err ("pool backend: invalid socket address", [po_name p; be_address b])
  | Some address =>
      let? qtype := match nonblank (be_probe_qtype b) with
                    | Some raw => map_err (within [po_name p; be_address b]) (parse_qtype raw)
                    | None => Ok pool_qtype
                    end in
      let? source := match nonblank (be_probe_source b) with
                     | Some raw =>
                         match parse_ip raw with
                         | Some ip => Ok (Some ip)
                         | None => Err ("probe_source is not a valid IP address", [po_name p; be_address b; raw])
                         end
                     | None => Ok None
                     end in
      Ok {| cb_address := address; cb_name := Config.nonempty (be_name b); cb_label := backend_label b;
            cb_probe_qname := default pool_qname (nonblank (be_probe_qname b)); cb_probe_qtype := qtype;
            cb_probe_source := source |}
  end.

Definition compile_pool_health (p : Pool) (hc : HealthCheck) : result CompiledPoolHealth Msg :=
  let interval_ms := default DEFAULT_HEALTH_INTERVAL_MS (hc_interval_ms hc) in
  let pool_qname := default DEFAULT_PROBE_QNAME (nonblank (hc_probe_qname hc)) in
  let? pool_qtype := map_err (within [po_name p])
                       (parse_qtype (default DEFAULT_PROBE_QTYPE (nonblank (hc_probe_qtype hc)))) in
  let? acceptable :=
    match hc_acceptable_rcodes hc with
    | [] => Ok None
    | names => result_map Some (try_map (fun n => map_err (within [po_name p]) (parse_rcode n)) names)
    end in
  let? initial := map_err (within [po_name p]) (parse_initial_state (default "" (hc_initial_state hc))) in
  let? backends := try_map (compile_backend_health p pool_qname pool_qtype) (po_backends p) in
  Ok {| cp_interval_ms := interval_ms; cp_timeout_ms := default interval_ms (hc_timeout_ms hc);
        cp_rise := default DEFAULT_HEALTH_RISE (hc_rise hc); cp_fall := default DEFAULT_HEALTH_FALL (hc_fall hc);
        cp_acceptable_rcodes := acceptable; cp_initial_state := initial;
        cp_latency_weighting := default false (hc_latency_weighting hc);
        cp_latency_ewma_alpha := DEFAULT_LATENCY_EWMA_ALPHA; cp_latency_floor := DEFAULT_LATENCY_FLOOR;
        cp_min_eligible := default 0 (hc_min_eligible hc);
        cp_passive_fast_trip := default true (hc_passive_fast_trip hc);
        cp_passive_fall := default DEFAULT_HEALTH_PASSIVE_FALL (hc_passive_fall hc); cp_backends := backends |}.

Fixpoint compile_health_pools (ps : list Pool) (m : CompiledHealth) : result CompiledHealth Msg :=
  match ps with
  | [] => Ok m
  | p :: ps =>
      match po_health p with
      | Some hc =>
          if hc_enabled hc then
            let? c := compile_pool_health p hc in compile_health_pools ps (<[po_name p := c]> m)
          else compile_health_pools ps m
      | None => compile_health_pools ps m
      end
  end.
Definition compile_health_from_config (cfg : Config) : result CompiledHealth Msg := compile_health_pools (pools cfg) ∅.

(** [if let Err(e) = r { errors.push(e) }]. *)
Definition error_of {A} (r : result A Msg) : list Msg := match r with Ok _ => [] | Err e => [e] end.
Definition opt_check {A} (o : option A) (f : A -> list Msg) : list Msg := match o with Some a => f a | None => [] end.
Definition must (b : bool) (e : Msg) : list Msg := if b then [] else [e].
Definition is_zero (o : option Z) : bool := bool_decide (o = Some 0).

Definition validate_backend_health (p : Pool) (b : Config.Backend) : list Msg :=
  opt_check (nonblank (be_probe_qtype b)) (fun raw => error_of (map_err (within [po_name p; be_address b]) (parse_qtype raw))) ++
  opt_check (nonblank (be_probe_source b)) (fun raw =>
    must (is_someb (parse_ip raw)) ("probe_source is not a valid IP address", [po_name p; be_address b; raw])) ++
  opt_check (nonblank (be_transport b)) (fun raw =>
    error_of (map_err (within [po_name p; be_address b]) (parse_upstream_transport raw))).

Definition validate_pool_health (p : Pool) : list Msg :=
  opt_check (po_health p) (fun hc =>
    opt_check (hc_interval_ms hc) (fun interval =>
      must (HEALTH_INTERVAL_FLOOR_MS <=? interval) ("health.interval_ms is below the floor", [po_name p; dec interval])) ++
    must (negb (is_zero (hc_timeout_ms hc))) ("health.timeout_ms must be >= 1 when set", [po_name p]) ++
    must (negb (is_zero (hc_rise hc))) ("health.rise must be >= 1", [po_name p]) ++
    must (negb (is_zero (hc_fall hc))) ("health.fall must be >= 1", [po_name p]) ++
    must (negb (is_zero (hc_passive_fall hc))) ("health.passive_fall must be >= 1 when set", [po_name p]) ++
    opt_check (nonblank (hc_probe_qtype hc)) (fun raw => error_of (map_err (within [po_name p]) (parse_qtype raw))) ++
    flat_map (fun n => error_of (map_err (within [po_name p]) (parse_rcode n))) (hc_acceptable_rcodes hc) ++
    opt_check (hc_initial_state hc) (fun raw => error_of (map_err (within [po_name p]) (parse_initial_state raw))) ++
    flat_map (validate_backend_health p) (po_backends p)).

Definition validate_health (cfg : Config) : list Msg := flat_map validate_pool_health (pools cfg).
End Health.

(** ** Lookup profiles and caches *)

Definition DEFAULT_LOOKUP_PROFILE : string := "default".
Definition DEFAULT_SERVFAIL_TTL_SECS : Z := 10.
Definition DEFAULT_TRUNCATED_UDP_TTL_SECS : Z := 60.
Definition DEFAULT_EVICTION_MODE : string := "passive".
Definition DEFAULT_MEMORY_SHARD_COUNT : Z := 16.
Definition DEFAULT_LMDB_SAMPLE_SIZE : Z := 16.
Definition DEFAULT_LMDB_WHEN_FULL : string := "evict_one".
Definition DEFAULT_LMDB_SYNC : string := "full".
Definition LMDB_SYNC_INTERVAL_MIN : Z := 250.
Definition LMDB_SYNC_INTERVAL_MAX : Z := 60 * 1000.
Definition LMDB_SYNC_INTERVAL_DEFAULT : Z := 1000.
Definition MAX_LMDB_SHARD_COUNT : Z := 64.

Inductive CacheBackendType := BackendMemory | BackendLmdb | BackendEbpfMap.
Inductive OnHitResponseRules := HitSkip | HitRun.
Inductive EvictionMode := EvictPassive | EvictActive.
Inductive LmdbWhenFull := FullRefuse | FullEvictOne | FullSample.
Inductive LmdbSync := SyncFull | SyncNoMeta | SyncPeriodic | SyncNone.

#[global] Instance LmdbWhenFull_eq : EqDecision LmdbWhenFull. Proof. solve_decision. Defined.
#[global] Instance LmdbSync_eq : EqDecision LmdbSync. Proof. solve_decision. Defined.

(** The [parse] of an enum: the first name that is the trimmed text. *)
Fixpoint parse_enum {A} (what : string) (names : list (string * A)) (t : string) : result A Msg :=
  match names with
  | [] => Err (what, [t])
  | (n, a) :: names => if String.eqb t n then Ok a else parse_enum what names t
  end.

Definition parse_backend_type (raw : string) : result CacheBackendType Msg :=
  parse_enum "cache type must be memory or lmdb" [("memory", BackendMemory); ("lmdb", BackendLmdb); ("ebpf_map", BackendEbpfMap)]
    (trim raw).
Definition parse_on_hit (raw : string) : result OnHitResponseRules Msg :=
  parse_enum "on_hit.response_rules must be skip or run" [("skip", HitSkip); ("", HitRun); ("run", HitRun)] (trim raw).
Definition parse_eviction (raw : string) : result EvictionMode Msg :=
  parse_enum "memory.eviction must be passive or active" [("", EvictPassive); ("passive", EvictPassive); ("active", EvictActive)]
    (trim raw).
Definition parse_when_full (raw : string) : result LmdbWhenFull Msg :=
  parse_enum "lmdb.when_full must be refuse, evict_one, or sample"
    [("", FullEvictOne); ("evict_one", FullEvictOne); ("refuse", FullRefuse); ("sample", FullSample)] (trim raw).
Definition parse_sync (raw : string) : result LmdbSync Msg :=
  parse_enum "lmdb.sync must be full, no_meta, periodic, or none"
    [("", SyncFull); ("full", SyncFull); ("no_meta", SyncNoMeta); ("periodic", SyncPeriodic); ("none", SyncNone)] (trim raw).

Record CompiledNegativeCache := { ng_enabled : bool; ng_covers_descendants : bool; ng_servfail_ttl_secs : Z }.
Record CompiledMemoryCache := { mm_shard_count : Z; mm_eviction : EvictionMode }.
Record CompiledLmdbCache := {
  lb_path : string; lb_map_size_bytes : Z; lb_when_full : LmdbWhenFull; lb_sample_size : Z; lb_sync : LmdbSync;
  lb_sync_interval : option Z; lb_shard_count : option Z; lb_lookup_thread_count : Z;
}.
Record CompiledTruncatedUdp := { tr_udp_enabled : bool; tr_ttl_secs : Z }.
Record CompiledCacheInstance := {
  ci_name : string; ci_backend_type : CacheBackendType; ci_negative_cache : CompiledNegativeCache;
  ci_on_hit_response_rules : OnHitResponseRules; ci_truncated_udp : CompiledTruncatedUdp; ci_rotate_rrset_on_serve : bool;
  ci_memory : CompiledMemoryCache; ci_lmdb : option CompiledLmdbCache; ci_max_entries : Z;
}.
Record CompiledLookup := {
  cl_enabled : bool; cl_profiles : gmap string Lookup.LookupProfile; cl_cache_instances : gmap string CompiledCacheInstance;
  cl_cache_provider_configured : bool;
}.

Definition compile_truncated_udp (cfg : option CacheTruncatedUdpConfig) : result CompiledTruncatedUdp Msg :=
  match cfg with
  | None => Ok {| tr_udp_enabled := false; tr_ttl_secs := DEFAULT_TRUNCATED_UDP_TTL_SECS |}
  | Some t =>
      let enabled := default false (tu_enabled t) in
      let? ttl := if enabled then
                    match tu_ttl_secs t with
                    | None => Err ("truncated_udp.ttl_secs must be set and > 0", [])
                    | Some ttl => if ttl =? 0 then Err ("truncated_udp.ttl_secs must be set and > 0", []) else Ok ttl
                    end
                  else Ok (default DEFAULT_TRUNCATED_UDP_TTL_SECS (tu_ttl_secs t)) in
      Ok {| tr_udp_enabled := enabled; tr_ttl_secs := ttl |}
  end.

Definition compile_negative_cache (cfg : option CacheNegativeConfig) : result CompiledNegativeCache Msg :=
  match cfg with
  | None => Ok {| ng_enabled := true; ng_covers_descendants := true; ng_servfail_ttl_secs := DEFAULT_SERVFAIL_TTL_SECS |}
  | Some n => Ok {| ng_enabled := default true (cn_enabled n); ng_covers_descendants := default true (cn_covers_descendants n);
                    ng_servfail_ttl_secs := default DEFAULT_SERVFAIL_TTL_SECS (cn_servfail_ttl n) |}
  end.

Definition compile_on_hit (cfg : option CacheOnHitConfig) : result OnHitResponseRules Msg :=
  match cfg with None => Ok HitRun | Some o => parse_on_hit (oh_response_rules o) end.

Definition compile_memory (cfg : option CacheMemoryConfig) : result CompiledMemoryCache Msg :=
  match cfg with
  | None => Ok {| mm_shard_count := DEFAULT_MEMORY_SHARD_COUNT; mm_eviction := EvictPassive |}
  | Some m =>
      let shard_count := default DEFAULT_MEMORY_SHARD_COUNT (cm_shard_count m) in
      if shard_count =? 0 then Err ("memory.shard_count must be >= 1", [])
      else
        let? eviction := parse_eviction (default DEFAULT_EVICTION_MODE (cm_eviction m)) in
        Ok {| mm_shard_count := shard_count; mm_eviction := eviction |}
  end.

Section Lookup.
Context (preflight : string -> result unit Msg) (to_lowercase : string -> string).
Context (iter : gmap string LookupProfile -> list (string * LookupProfile)).

Definition compile_lmdb (cfg : option CacheLmdbConfig) (lookup_thread_count : Z) : result CompiledLmdbCache Msg :=
  match cfg with
  | None => Err ("type lmdb requires an lmdb block with path and map_size", [])
  | Some l =>
      if is_empty (lm_path l) then Err ("lmdb.path must not be empty", [])
      else if lm_map_size_bytes l =? 0 then Err ("lmdb.map_size must be set and > 0", [])
      else
        let? when_full := parse_when_full (default DEFAULT_LMDB_WHEN_FULL (lm_when_full l)) in
        let sample_size := default DEFAULT_LMDB_SAMPLE_SIZE (lm_sample_size l) in
        if bool_decide (when_full = FullSample) && (sample_size <? 1)
        then Err ("lmdb.sample_size must be >= 1 when when_full is sample", [])
        else
          let? sync := parse_sync (default DEFAULT_LMDB_SYNC (lm_sync l)) in
          let? interval :=
            match lm_sync_interval l with
            | Some raw =>
                let? i := parse_duration raw in
                if negb (bool_decide (sync = SyncPeriodic)) then Err ("lmdb.sync_interval must only be set when periodic", [])
                else if (LMDB_SYNC_INTERVAL_MIN <=? i) && (i <=? LMDB_SYNC_INTERVAL_MAX) then Ok (Some i)
                else Err ("lmdb.sync_interval must be between 250ms and 60s", [])
            | None => Ok (if bool_decide (sync = SyncPeriodic) then Some LMDB_SYNC_INTERVAL_DEFAULT else None)
            end in
          let? shard_count :=
            match lm_shard_count l with
            | None => Ok None
            | Some n => if n =? 0 then Err ("lmdb.shard_count must be >= 1", []) else Ok (Some (Z.min n MAX_LMDB_SHARD_COUNT))
            end in
          let? _u := preflight (lm_path l) in
          Ok {| lb_path := lm_path l; lb_map_size_bytes := lm_map_size_bytes l; lb_when_full := when_full;
                lb_sample_size := sample_size; lb_sync := sync; lb_sync_interval := interval; lb_shard_count := shard_count;
                lb_lookup_thread_count := Z.max lookup_thread_count 1 |}
  end.

(** [lookup_concurrency_for_lmdb_default]; the sum is a [u32]. *)
Definition lookup_concurrency (cfg : Config) : Z :=
  let runtime := effective_dataplane_runtime cfg in
  if String.eqb runtime "split_io" || String.eqb runtime "tokio" then Z.max (effective_policy_workers cfg) 1
  else match listeners cfg with
       | None => Z.max DEFAULT_LISTENER_THREADS 1
       | Some block =>
           if bool_decide (ls_listeners block = []) then Z.max (ls_threads block) 1
           else Z.max (wrap 32 (foldr Z.add 0 ((fun ln => ri_threads (resolve_listener_ingress to_lowercase block ln)) <$> ls_listeners block))) 1
       end.

(** One round of [compile_cache_instances]. *)
Definition compile_cache_instance (i : Config.CacheInstance) (seen : bool) (threads : Z) : result CompiledCacheInstance Msg :=
  if is_empty (ca_name i) then Err ("name must not be empty", [])
  else if seen then Err ("duplicate cache name", [ca_name i])
  else
    let? ty := parse_backend_type (ca_type i) in
    let? _u := match ty with
               | BackendEbpfMap => Err ("type 'ebpf_map' is reserved and not implemented", [])
               | BackendMemory => if is_someb (ca_lmdb i) then Err ("lmdb block is not allowed when type is memory", []) else Ok tt
               | BackendLmdb => if is_someb (ca_memory i) then Err ("memory block is not allowed when type is lmdb", []) else Ok tt
               end in
    let? negative := compile_negative_cache (ca_negative_cache i) in
    let? on_hit := compile_on_hit (ca_on_hit i) in
    let? truncated := compile_truncated_udp (ca_truncated_udp i) in
    let? ml := match ty with
               | BackendLmdb =>
                   let? l := compile_lmdb (ca_lmdb i) threads in
                   Ok ({| mm_shard_count := DEFAULT_MEMORY_SHARD_COUNT; mm_eviction := EvictPassive |}, Some l)
               | _ => let? m := compile_memory (ca_memory i) in Ok (m, None)
               end in
    Ok {| ci_name := ca_name i; ci_backend_type := ty; ci_negative_cache := negative; ci_on_hit_response_rules := on_hit;
          ci_truncated_udp := truncated; ci_rotate_rrset_on_serve := default false (ca_rotate i); ci_memory := ml.1;
          ci_lmdb := ml.2; ci_max_entries := default 0 (ca_max_entries i) |}.

Fixpoint compile_cache_instances (l : list Config.CacheInstance) (threads : Z) (m : gmap string CompiledCacheInstance)
    : result (gmap string CompiledCacheInstance) Msg :=
  match l with
  | [] => Ok m
  | i :: l =>
      let? c := compile_cache_instance i (is_someb (m !! ca_name i)) threads in
      compile_cache_instances l threads (<[ca_name i := c]> m)
  end.

Definition compile_provider (instances : gmap string CompiledCacheInstance) (p : LookupProvider)
    : result Lookup.LookupProvider Msg :=
  let t := trim (pv_type p) in
  if String.eqb t "forward" then Ok ProviderForward
  else if String.eqb t "cache" then
    match Config.nonempty (pv_cache p) with
    | None => Err ("cache provider requires cache instance name", [])
    | Some n => if is_someb (instances !! n) then Ok (ProviderCache n) else Err ("unknown cache instance", [n])
    end
  else if String.eqb t "" then Err ("provider type must not be empty", [])
  else Err ("provider type must be cache or forward", [t]).

Definition compile_profile (instances : gmap string CompiledCacheInstance) (name : string) (p : LookupProfile)
    : result Lookup.LookupProfile Msg :=
  if bool_decide (pf_providers p = []) then Err ("providers must contain at least one provider", [name])
  else
    let? ps := try_map (fun v => map_err (within [name]) (compile_provider instances v)) (pf_providers p) in
    Ok {| lp_name := name; Lookup.providers := ps |}.

Definition is_cache (p : Lookup.LookupProvider) : bool := match p with ProviderCache _ => true | ProviderForward => false end.

Fixpoint compile_profiles (instances : gmap string CompiledCacheInstance) (l : list (string * LookupProfile))
    (acc : gmap string Lookup.LookupProfile * bool) : result (gmap string Lookup.LookupProfile * bool) Msg :=
  match l with
  | [] => Ok acc
  | (name, p) :: l =>
      if is_empty name then Err ("lookup profile name must not be empty", [])
      else
        let? c := compile_profile instances name p in
        compile_profiles instances l (<[name := c]> acc.1, acc.2 || existsb is_cache (Lookup.providers c))
  end.

Definition compile_lookup_from_config (cfg : Config) : result CompiledLookup Msg :=
  let? instances := compile_cache_instances (caches cfg) (lookup_concurrency cfg) ∅ in
  match Config.lookup cfg with
  | None =>
      Ok {| cl_enabled := true; cl_cache_instances := instances; cl_cache_provider_configured := false;
            cl_profiles := {[ DEFAULT_LOOKUP_PROFILE := {| lp_name := DEFAULT_LOOKUP_PROFILE; Lookup.providers := [ProviderForward] |} ]} |}
  | Some l =>
      let entries := iter (lc_profiles l) in
      if bool_decide (entries = []) then Err ("lookup.profiles must contain at least one profile", [])
      else if existsb (fun e => existsb (fun p => String.eqb (trim (pv_type p)) "cache") (pf_providers e.2)) entries
              && bool_decide (caches cfg = [])
      then Err ("lookup profile references cache provider but caches list is empty", [])
      else
        let? r := compile_profiles instances entries (∅, false) in
        if r.2 && bool_decide (caches cfg = [])
        then Err ("lookup profile references cache provider but caches list is empty", [])
        else Ok {| cl_enabled := true; cl_profiles := r.1; cl_cache_instances := instances; cl_cache_provider_configured := r.2 |}
  end.

Definition validate_lookup (cfg : Config) : list Msg := error_of (compile_lookup_from_config cfg).
End Lookup.
