(* ===== verification/Snapshot.v ===== *)
(** * Snapshot: what a configuration is compiled to

    [RuntimeSnapshot::try_from_config_with_base] (conduit-core/src/snapshot.rs): the data
    sources and the scripts (conduit-script/src/compile.rs), the forward, health and
    lookup sections ([Compile]), and the rules (conduit-core/src/rules/mod.rs). Reading,
    scanning and compiling one script is the parameter [compile_source], and the checks of the
    metrics that scripts use are the parameter [check_metrics]; what they keep is not looked
    at here. Events, metrics and tracing, whose compilation cannot fail, are left
    out. A panic is [None]. *)

From stdpp Require Import base gmap list strings.
From Stdlib Require Import ZArith Lia Ascii.
From S2P Require Import Prelude Text Floats DnsWire Selectors Script Rules Health Lookup Forward Config DataSources Messages Compile.

#[local] Open Scope string_scope.
#[local] Open Scope list_scope.
#[local] Open Scope Z_scope.

(** ** Scripts *)

Definition DEFAULT_MAX_OPERATIONS : Z := 10000.
Definition DEFAULT_MAX_CALL_DEPTH : Z := 32.
Definition DEFAULT_HOOK_TIMEOUT_MS : Z := 50.

Record ScriptLimits := { sl_max_operations : Z; sl_max_call_depth : Z; sl_hook_timeout_ms : Z }.
Definition script_limits (rhai : option RhaiConfig) : ScriptLimits :=
  match rhai with
  | None => {| sl_max_operations := DEFAULT_MAX_OPERATIONS; sl_max_call_depth := DEFAULT_MAX_CALL_DEPTH;
               sl_hook_timeout_ms := DEFAULT_HOOK_TIMEOUT_MS |}
  | Some r => {| sl_max_operations := nz (max_operations r) DEFAULT_MAX_OPERATIONS;
                 sl_max_call_depth := nz (max_call_depth r) DEFAULT_MAX_CALL_DEPTH;
                 sl_hook_timeout_ms := nz (hook_timeout_ms r) DEFAULT_HOOK_TIMEOUT_MS |}
  end.

Record ScriptRef := { sr_rule_name : string; sr_hook : ScriptPhase; sr_path : string; sr_script_id : nat }.

Definition hook_phase (r : RuleConfig) : ScriptPhase :=
  if String.eqb (ru_hook r) "response" then ResponsePhase else RequestPhase.

Section Snapshot.
Context `{PrefixTrie} (parse_net : string -> option IpNet) (parse_ip : string -> option IpAddr).
Context (parse_sock : string -> option SocketAddr) (parse_v4 parse_v6 : string -> option Z) (parse_f64 : string -> option f64).
Context (to_lowercase : string -> string) (preflight : string -> result unit Msg).
Context (iter : gmap string LookupProfile -> list (string * LookupProfile)).
Context (disk : string -> result string string) (base_dir : option string).
Context (compile_source : string -> ScriptPhase -> DataSourceStore -> result unit Msg).

Record CompiledScripting := MkScripting {
  sc_scripts : list CompiledScript; sc_index : gmap (string * string) nat; sc_data_sources : DataSourceStore;
  sc_limits : ScriptLimits; sc_rules_scripts : list ScriptRef;
}.
Context (check_metrics : Config -> CompiledScripting -> result unit Msg).

Definition script_ids_for_rule (s : CompiledScripting) (rule_name : string) (hook : ScriptPhase) : list nat :=
  sr_script_id <$> List.filter (fun r => String.eqb (sr_rule_name r) rule_name && bool_decide (sr_hook r = hook))
                     (sc_rules_scripts s).

(** The id of a script of a rule, which is compiled the first time. *)
Definition script_id_of (rule : RuleConfig) (value : string) (s : CompiledScripting) : result (nat * CompiledScripting) Msg :=
  let path := resolve_config_path base_dir value in
  match sc_index s !! (ru_name rule, path) with
  | Some id => Ok (id, s)
  | None =>
      let? _u := compile_source path (hook_phase rule) (sc_data_sources s) in
      let id := length (sc_scripts s) in
      Ok (id, MkScripting (push (sc_scripts s) {| cs_path := path; cs_rule_name := ru_name rule; cs_hook := hook_phase rule |})
                (<[(ru_name rule, path) := id]> (sc_index s)) (sc_data_sources s) (sc_limits s) (sc_rules_scripts s))
  end.

Fixpoint compile_rule_scripts (rule : RuleConfig) (actions : list Action) (s : CompiledScripting) : result CompiledScripting Msg :=
  match actions with
  | [] => Ok s
  | a :: actions =>
      if negb (String.eqb (act_type a) "rhai") then compile_rule_scripts rule actions s
      else if String.eqb (act_value a) "" then Err ("rhai action requires script path in value", [ru_name rule])
      else
        let? r := script_id_of rule (act_value a) s in
        let ref := {| sr_rule_name := ru_name rule; sr_hook := hook_phase rule; sr_path := act_value a; sr_script_id := r.1 |} in
        compile_rule_scripts rule actions
          (MkScripting (sc_scripts r.2) (sc_index r.2) (sc_data_sources r.2) (sc_limits r.2) (push (sc_rules_scripts r.2) ref))
  end.

Fixpoint compile_all_scripts (rules : list RuleConfig) (s : CompiledScripting) : result CompiledScripting Msg :=
  match rules with
  | [] => Ok s
  | r :: rules => let? s := compile_rule_scripts r (ru_actions r) s in compile_all_scripts rules s
  end.

(** [compile_from_config] of conduit-script. *)
Definition compile_scripts (cfg : Config) : option (result CompiledScripting Msg) :=
  let! loaded := load_data_sources parse_net parse_ip disk base_dir (limits_from_config (data_source_limits cfg)) (data_sources cfg) in
  Some (match loaded with
        | Err e => Err ("data source", [se_name e])
        | Ok store =>
            let s := MkScripting [] ∅ store (script_limits (rhai cfg)) [] in
            match Config.rules cfg with
            | None => Ok s
            | Some rules =>
                let? s := compile_all_scripts (rs_rules rules) s in
                let? _u := check_metrics cfg s in Ok s
            end
        end).

(** ** Rules *)

Definition compile_rule_selectors (rule_name : string) (sels : list Selector) : result (list CompiledSelector) SelectorError :=
  try_map (fun s => selector_compile parse_f64 s {| cc_rule_name := Some rule_name; cc_sink_name := None |}) sels.

Definition rule_compile (scripting : CompiledScripting) (r : RuleConfig) : option CompiledRule :=
  let hook := if String.eqb (ru_hook r) "response" then HookResponse else HookRequest in
  let! actions := compile_actions parse_v4 parse_v6 (script_ids_for_rule scripting (ru_name r) (hook_phase r)) 0 (ru_actions r) in
  let! selectors := result_ok (compile_rule_selectors (ru_name r) (ru_selectors r)) in
  Some {| rule_name := ru_name r; rule_hook := hook; rule_selectors := selectors; rule_actions := actions |}.

Definition rules_compile (cfg : option RulesConfig) (scripting : CompiledScripting) : option (list CompiledRule) :=
  match cfg with None => Some [] | Some c => mapM (rule_compile scripting) (rs_rules c) end.

(** ** The snapshot *)

Record RuntimeSnapshot := {
  rt_rules : list CompiledRule; rt_scripting : CompiledScripting; rt_forward : CompiledForward;
  rt_pool_forward : gmap string PoolForward; rt_health : CompiledHealth; rt_lookup : CompiledLookup; rt_config : Config;
}.

Definition try_from_config_with_base (cfg : Config) : option (result RuntimeSnapshot (list Msg)) :=
  let! scripts := compile_scripts cfg in
  match (let? scripting := map_err (fun e => [e]) scripts in
         let? fw := compile_forward_from_config parse_sock parse_v4 parse_v6 cfg in
         let? health := map_err (fun e => [e]) (compile_health_from_config parse_sock parse_ip cfg) in
         let? lookup := map_err (fun e => [e]) (compile_lookup_from_config preflight to_lowercase iter cfg) in
         Ok (scripting, fw, health, lookup)) with
  | Err es => Some (Err es)
  | Ok (scripting, fw, health, lookup) =>
      let! rules := rules_compile (Config.rules cfg) scripting in
      Some (Ok {| rt_rules := rules; rt_scripting := scripting; rt_forward := fw.1; rt_pool_forward := fw.2;
                  rt_health := health; rt_lookup := lookup; rt_config := cfg |})
  end.
End Snapshot.

(** ** Which script an action runs *)

Definition is_rhai (a : Action) : bool := String.eqb (act_type a) "rhai".

Section ScriptFacts.
Context `{PrefixTrie} (base_dir : option string) (compile_source : string -> ScriptPhase -> DataSourceStore -> result unit Msg).
#[local] Abbreviation scripts_of_rule := (compile_rule_scripts base_dir compile_source).
#[local] Abbreviation all_scripts := (compile_all_scripts base_dir compile_source).

(** The index names a script by its rule and its path. *)
Definition index_wf (s : CompiledScripting) : Prop :=
  forall name path id, sc_index s !! (name, path) = Some id ->
  exists sc, sc_scripts s !! id = Some sc /\ cs_path sc = path /\ cs_rule_name sc = name.

(** Script [id] is the one an action of a rule asks for. *)
Definition runs (s : CompiledScripting) (rule : string) (a : Action) (id : nat) : Prop :=
  exists sc, sc_scripts s !! id = Some sc /\ cs_path sc = resolve_config_path base_dir (act_value a) /\ cs_rule_name sc = rule.

Lemma runs_mono s s' rule a id : (exists k, sc_scripts s' = sc_scripts s ++ k) -> runs s rule a id -> runs s' rule a id.
Proof. intros [k Hk] (sc & Hs & Hr). exists sc. split; [|done]. rewrite Hk. by apply lookup_app_l_Some. Qed.

Lemma script_id_spec rule a s id s' : index_wf s -> script_id_of base_dir compile_source rule (act_value a) s = Ok (id, s') ->
  index_wf s' /\ runs s' (ru_name rule) a id /\ (exists k, sc_scripts s' = sc_scripts s ++ k) /\
  sc_rules_scripts s' = sc_rules_scripts s.
Proof.
  intros Hwf. unfold script_id_of. destruct (sc_index s !! _) as [i|] eqn:Ei.
  - intros [= <- <-]. split_and!; [done|by apply Hwf|by exists []; rewrite app_nil_r|done].
  - destruct (compile_source _ _ _); [|done]. cbn. intros [= <- <-]. cbn.
    assert (forall sc, push (sc_scripts s) sc !! length (sc_scripts s) = Some sc) as Hlast.
    { intros sc. unfold push. by rewrite lookup_app_r, Nat.sub_diag by lia. }
    split_and!; [|eexists; split; [apply Hlast|done]|by eexists|done].
    intros nm pt j. cbn. intros [[[= <- <-] <-]|[_ Hj]]%lookup_insert_Some; [eexists; split; [apply Hlast|done]|].
    destruct (Hwf _ _ _ Hj) as (sc & Hs & Hr). exists sc. split; [|done]. unfold push. by apply lookup_app_l_Some.
Qed.

(** A reference that an action of a rule leaves behind. *)
Definition refers (s : CompiledScripting) (rule : RuleConfig) (a : Action) (r : ScriptRef) : Prop :=
  sr_rule_name r = ru_name rule /\ sr_hook r = hook_phase rule /\ runs s (ru_name rule) a (sr_script_id r).

Lemma rule_scripts_spec rule acts : forall s s', index_wf s -> scripts_of_rule rule acts s = Ok s' ->
  index_wf s' /\ (exists k, sc_scripts s' = sc_scripts s ++ k) /\
  exists refs, sc_rules_scripts s' = sc_rules_scripts s ++ refs /\ Forall2 (refers s' rule) (List.filter is_rhai acts) refs.
Proof.
  induction acts as [|a acts IH]; intros s s' Hwf; cbn.
  { intros [= <-]. split_and!; [done|by exists []; rewrite app_nil_r|]. exists []. rewrite app_nil_r. by split. }
  unfold is_rhai at 1. destruct (String.eqb (act_type a) "rhai"); cbn; [|by apply IH].
  destruct (String.eqb (act_value a) ""); [done|].
  destruct (script_id_of _ _ _ _ _) as [[id s1]|] eqn:Eid; [|done]. cbn.
  destruct (script_id_spec _ _ _ _ _ Hwf Eid) as (Hwf1 & Hrun & [k1 Hk1] & Hrefs). intros H'.
  destruct (IH _ _ (Hwf1 : index_wf (MkScripting _ _ _ _ _)) H') as (Hwf' & [k Hk] & refs & Er & Hall). cbn in *.
  split_and!; [done|exists (k1 ++ k); by rewrite Hk, Hk1, app_assoc|].
  eexists (_ :: refs). split; [rewrite Er; unfold push; rewrite Hrefs, <- app_assoc; reflexivity|].
  constructor; [|done]. split_and!; [done|done|]. cbn. eapply runs_mono; [|exact Hrun]. by exists k.
Qed.

Lemma all_scripts_spec rules : forall s s', index_wf s -> all_scripts rules s = Ok s' ->
  (exists k, sc_scripts s' = sc_scripts s ++ k) /\
  exists refs, sc_rules_scripts s' = sc_rules_scripts s ++ concat refs /\
    Forall2 (fun r rs => Forall2 (refers s' r) (List.filter is_rhai (ru_actions r)) rs) rules refs.
Proof.
  induction rules as [|r rules IH]; intros s s' Hwf; cbn.
  { intros [= <-]. split; [by exists []; rewrite app_nil_r|]. exists []. cbn. rewrite app_nil_r. by split. }
  destruct (scripts_of_rule r (ru_actions r) s) as [s1|] eqn:E1; [|done]. cbn. intros E'.
  destruct (rule_scripts_spec _ _ _ _ Hwf E1) as (Hwf1 & [k1 Hk1] & rs & Er & Hrs).
  destruct (IH _ _ Hwf1 E') as ([k Hk] & refs & Ers & Hrefs).
  split; [exists (k1 ++ k); by rewrite Hk, Hk1, app_assoc|]. exists (rs :: refs). cbn.
  split; [by rewrite Ers, Er, <- app_assoc|]. constructor; [|done]. eapply Forall2_impl; [exact Hrs|].
  intros a ref (Hn & Hh & Hrun). split_and!; [done|done|]. eapply runs_mono; [|exact Hrun]. by exists k.
Qed.

(** The references of a rule are its own, if names differ. *)
Definition of_rule (r : RuleConfig) (x : ScriptRef) : bool :=
  String.eqb (sr_rule_name x) (ru_name r) && bool_decide (sr_hook x = hook_phase r).

Lemma filter_all {A} (p : A -> bool) l : Forall (fun a => p a = true) l -> List.filter p l = l.
Proof. induction 1 as [|a l Ha _ IH]; cbn; [done|]. by rewrite Ha, IH. Qed.
Lemma filter_none {A} (p : A -> bool) l : Forall (fun a => p a = false) l -> List.filter p l = [].
Proof. induction 1 as [|a l Ha _ IH]; cbn; [done|]. by rewrite Ha. Qed.

Definition owned (r : RuleConfig) (rs : list ScriptRef) : Prop :=
  Forall (fun x => sr_rule_name x = ru_name r /\ sr_hook x = hook_phase r) rs.

Lemma owned_filter r rs : owned r rs -> List.filter (of_rule r) rs = rs.
Proof.
  intros Ho. apply filter_all. eapply Forall_impl; [exact Ho|]. cbn. intros x [En Eh]. unfold of_rule.
  by rewrite En, Eh, String.eqb_refl, bool_decide_true.
Qed.

Lemma owned_other r r' rs : owned r' rs -> ru_name r' <> ru_name r -> List.filter (of_rule r) rs = [].
Proof.
  intros Ho Hne. apply filter_none. eapply Forall_impl; [exact Ho|]. cbn. intros x [En _]. unfold of_rule.
  rewrite En. by destruct (String.eqb_spec (ru_name r') (ru_name r)).
Qed.

Lemma refs_of_others rules refs r : Forall2 owned rules refs -> ru_name r ∉ ru_name <$> rules ->
  List.filter (of_rule r) (concat refs) = [].
Proof.
  induction 1 as [|r' rs rules refs Hr' _ IH]; cbn; [done|]. intros [Hne Hin]%not_elem_of_cons.
  by rewrite List.filter_app, (owned_other r r') by done; apply IH.
Qed.

Lemma refs_of_rule rules refs i r rs : Forall2 owned rules refs -> NoDup (ru_name <$> rules) ->
  rules !! i = Some r -> refs !! i = Some rs -> List.filter (of_rule r) (concat refs) = rs.
Proof.
  intros Ho. revert i. induction Ho as [|r' rs' rules refs Hr' Ho IH]; intros i Hnd; [done|].
  cbn in Hnd. apply NoDup_cons in Hnd as [Hni Hnd]. cbn. rewrite List.filter_app. destruct i as [|i]; cbn.
  - intros [= ->] [= ->]. by rewrite owned_filter, (refs_of_others rules refs), app_nil_r.
  - intros Hi Hrs. rewrite (owned_other r r'); [by apply (IH i)|done|]. intros E. apply Hni. rewrite E.
    apply list_elem_of_fmap. exists r. split; [done|]. by eapply list_elem_of_lookup_2.
Qed.

Lemma scripts_of_rule_own rules s s' r : index_wf s -> sc_rules_scripts s = [] -> all_scripts rules s = Ok s' ->
  NoDup (ru_name <$> rules) -> r ∈ rules ->
  Forall2 (runs s' (ru_name r)) (List.filter is_rhai (ru_actions r)) (script_ids_for_rule s' (ru_name r) (hook_phase r)).
Proof.
  intros Hwf He Ha Hnd (i & Hi)%list_elem_of_lookup. destruct (all_scripts_spec _ _ _ Hwf Ha) as (_ & refs & Er & Hall).
  destruct (Forall2_lookup_l _ _ _ _ _ Hall Hi) as (rs & Hrs & Hr). rewrite He in Er. cbn in Er.
  assert (Forall2 owned rules refs) as Ho.
  { eapply Forall2_impl; [exact Hall|]. cbn. intros q qs Hq. apply Forall_forall. intros x (j & Hj)%list_elem_of_lookup.
    destruct (Forall2_lookup_r _ _ _ _ _ Hq Hj) as (a & _ & Hn & Hh & _). done. }
  unfold script_ids_for_rule. rewrite Er.
  assert (List.filter (of_rule r) (concat refs) = rs) as E by (by eapply refs_of_rule).
  unfold of_rule in E. rewrite E. apply Forall2_fmap_r. eapply Forall2_impl; [exact Hr|]. by intros a x (_ & _ & ?).
Qed.
End ScriptFacts.

(** An action and what it is compiled to. *)
Definition action_runs {T : PrefixTrie} (base_dir : option string) (s : CompiledScripting) (rule : string) (a : Action) (c : CompiledAction) : Prop :=
  match c with Rhai id => is_rhai a = true /\ runs base_dir s rule a id | _ => is_rhai a = false end.

Lemma action_compile_plain p4 p6 a c : action_compile p4 p6 a = Some c -> match c with Rhai _ => False | _ => True end.
Proof.
  unfold action_compile. intros H. destruct c; try done.
  repeat (destruct (String.eqb (act_type a) _); [try done; destruct (parse_name _ _) || destruct (split_once _ _) as [[]|] || destruct (p4 _) || destruct (p6 _); cbn in H; done|]).
  done.
Qed.

(** The actions of a rule, from the [k]-th script id on. *)
Lemma compile_actions_run `{PrefixTrie} base_dir s rule p4 p6 ids acts : forall k cs,
  compile_actions p4 p6 ids k acts = Some cs ->
  Forall2 (runs base_dir s rule) (List.filter is_rhai acts) (drop k ids) ->
  Forall2 (action_runs base_dir s rule) acts cs.
Proof.
  induction acts as [|a acts IH]; intros k cs; cbn; [intros [= <-] _; constructor|].
  destruct (is_rhai a) eqn:Ea; unfold is_rhai in Ea; rewrite Ea.
  - destruct (ids !! k) as [id|] eqn:Ek; [|done]. cbn. destruct (compile_actions _ _ _ _ _) as [rest|] eqn:Er; [|done].
    intros [= <-] Hd. rewrite (drop_S ids id k Ek) in Hd. apply Forall2_cons in Hd as [Hid Hd].
    constructor; [by split|by eapply IH].
  - destruct (action_compile p4 p6 a) as [c|] eqn:Ec; [|done]. cbn.
    destruct (compile_actions _ _ _ _ _) as [rest|] eqn:Er; [|done]. intros [= <-] Hd. constructor; [|by eapply IH].
    apply action_compile_plain in Ec. by destruct c.
Qed.

Lemma compile_actions_total p4 p6 ids acts : forall k,
  Forall (fun a => is_rhai a = false -> is_Some (action_compile p4 p6 a)) acts ->
  (length (List.filter is_rhai acts) <= length (drop k ids))%nat ->
  is_Some (compile_actions p4 p6 ids k acts).
Proof.
  induction acts as [|a acts IH]; intros k Hall Hlen; cbn; [by eexists|]. apply Forall_cons in Hall as [Ha Hall].
  destruct (is_rhai a) eqn:Ea; unfold is_rhai in Ea; rewrite Ea.
  - cbn in Hlen. unfold is_rhai at 1 in Hlen. rewrite Ea in Hlen. cbn in Hlen. rewrite length_drop in Hlen.
    destruct (lookup_lt_is_Some_2 ids k) as [id Hid]; [lia|]. rewrite Hid. cbn.
    destruct (IH (S k) Hall) as [rest ->]; [rewrite length_drop; lia|by eexists].
  - destruct (Ha eq_refl) as [c ->]. cbn in Hlen. unfold is_rhai at 1 in Hlen. rewrite Ea in Hlen. cbn.
    destruct (IH k Hall Hlen) as [rest ->]. by eexists.
Qed.

Section SnapshotFacts.
Context `{PrefixTrie} (parse_net : string -> option IpNet) (parse_ip : string -> option IpAddr).
Context (parse_v4 parse_v6 : string -> option Z) (parse_f64 : string -> option f64).
Context (disk : string -> result string string) (base_dir : option string).
Context (compile_source : string -> ScriptPhase -> DataSourceStore -> result unit Msg).
Context (check_metrics : Config -> CompiledScripting -> result unit Msg).
#[local] Abbreviation scripts cfg := (compile_scripts parse_net parse_ip disk base_dir compile_source check_metrics cfg).

Lemma compiled_scripts_own cfg s rs r : scripts cfg = Some (Ok s) -> Config.rules cfg = Some rs ->
  NoDup (ru_name <$> rs_rules rs) -> r ∈ rs_rules rs ->
  Forall2 (runs base_dir s (ru_name r)) (List.filter is_rhai (ru_actions r)) (script_ids_for_rule s (ru_name r) (hook_phase r)).
Proof.
  unfold compile_scripts. destruct (load_data_sources _ _ _ _ _ _) as [[store|e]|]; cbn; try done.
  intros E Er Hnd Hr. rewrite Er in E. destruct (compile_all_scripts _ _ _ _) as [s1|] eqn:Es; [|done]. cbn in E.
  destruct (check_metrics cfg s1); [|done]. cbn in E. injection E as <-.
  refine (scripts_of_rule_own _ _ _ _ _ _ _ _ Es Hnd Hr); [by intros ? ? ?|done].
Qed.

Lemma rule_actions_own (cfg : Config) (s : CompiledScripting) (rs : RulesConfig) (r : RuleConfig) (c : CompiledRule) :
  scripts cfg = Some (Ok s) -> Config.rules cfg = Some rs -> NoDup (ru_name <$> rs_rules rs) -> r ∈ rs_rules rs ->
  rule_compile parse_v4 parse_v6 parse_f64 s r = Some c ->
  Forall2 (action_runs base_dir s (ru_name r)) (ru_actions r) (rule_actions c).
Proof.
  intros Hs Hr Hnd Hin Hc. pose proof (compiled_scripts_own cfg s rs r Hs Hr Hnd Hin) as Hown. unfold rule_compile in Hc.
  destruct (compile_actions _ _ _ _ _) as [acts|] eqn:Ea; [|done]. cbn in Hc.
  destruct (result_ok _) as [sels|]; [|done]. injection Hc as <-. cbn. by eapply compile_actions_run.
Qed.
(** C19: Every [rhai] action of a compiled rule runs the script its own path names,
    compiled for that rule, and no other action runs a script: the
    ids that the scripts are numbered with, shared by the actions of a rule that name the same file,
    are handed out in the order of the actions. *)
Theorem rhai_actions_run_their_scripts (cfg : Config) (s : CompiledScripting) (rs : RulesConfig) (r : RuleConfig) (c : CompiledRule) :
  scripts cfg = Some (Ok s) -> Config.rules cfg = Some rs -> NoDup (ru_name <$> rs_rules rs) -> r ∈ rs_rules rs ->
  rule_compile parse_v4 parse_v6 parse_f64 s r = Some c ->
  Forall2 (action_runs base_dir s (ru_name r)) (ru_actions r) (rule_actions c).
Proof. apply rule_actions_own. Qed.
End SnapshotFacts.

(** ** Witness *)

#[local] Instance no_prefixes : PrefixTrie := {|
  Trie := unit; trie_new := tt; trie_insert _ _ _ t := t; trie_get _ _ _ := None; trie_get_lpm _ _ _ := None |}.
Definition accept_source (path : string) (p : ScriptPhase) (s : DataSourceStore) : result unit Msg := Ok tt.
Definition accept_metrics (cfg : Config) (s : CompiledScripting) : result unit Msg := Ok tt.

(** A rule that runs one script twice and another in between. *)
Definition script_rule : RuleConfig := {|
  ru_name := "r"; ru_hook := "response"; ru_selectors := [];
  ru_actions := [{| act_type := "rhai"; act_value := "a.rhai" |}; {| act_type := "rhai"; act_value := "/lib/b.rhai" |};
                 {| act_type := "rhai"; act_value := "a.rhai" |}] |}.
Definition script_rules : RulesConfig := {| rs_match_mode := "first_match"; rs_rules := [script_rule] |}.
Definition script_config : Config :=
  MkConfig 1 None None None None None [] None (Some script_rules) None [] None None None None None [] None None.
Abbreviation script_result :=
  (compile_scripts sample_net no_ip sample_disk (Some "/etc") accept_source accept_metrics script_config).

Lemma rhai_actions_run_their_scripts_witness :
  match script_result with
  | Some (Ok s) =>
      match rule_compile (fun _ => None) (fun _ => None) (fun _ => None) s script_rule with
      | Some c => Forall2 (action_runs (Some "/etc") s "r") (ru_actions script_rule) (rule_actions c) /\ rule_actions c = [Rhai 0; Rhai 1; Rhai 0]
      | None => False
      end
  | _ => False
  end.
Proof.
  assert (match script_result with Some (Ok s) =>
            (fun c => rule_actions c) <$> rule_compile (fun _ => None) (fun _ => None) (fun _ => None) s script_rule
          | _ => None end = Some [Rhai 0; Rhai 1; Rhai 0]) as Hc by (vm_compute; reflexivity).
  destruct script_result as [[s|e]|] eqn:Es; [|discriminate Hc|discriminate Hc].
  destruct (rule_compile _ _ _ s script_rule) as [c|] eqn:Ec; [|discriminate Hc].
  split; [|injection Hc as ->; reflexivity].
  change "r" with (ru_name script_rule). eapply rhai_actions_run_their_scripts; [exact Es|reflexivity|apply NoDup_singleton|apply list_elem_of_singleton; reflexivity|exact Ec].
Defined.
