(* ===== verification/Validate.v ===== *)
(** * Validate: the check before a configuration is installed

    [validate] of conduit-config/src/validate.rs with what it calls: logging.rs, the
    sink checks of conduit-events/src/compile.rs and connect_retry.rs, and the selector
    checks of conduit-events/src/selectors.rs. The checks of the metrics plan and of tracing
    (conduit-metrics) are the parameter [metrics_errors]. The theorems relate it to
    [Snapshot]: what passes is compiled, and the compiled parts have what routing,
    health and the caches rely on. *)

From stdpp Require Import base gmap list strings.
From Stdlib Require Import ZArith Lia Ascii SpecFloat.
From S2P Require Import Prelude Text Floats DnsWire Selectors Script Rules Health Routing Lookup Forward Acl Config Synthesize Configurator DataSources Messages Compile Snapshot.

#[local] Open Scope string_scope.
#[local] Open Scope list_scope.
#[local] Open Scope Z_scope.

Inductive ValidationError :=
  | Invalid (m : Msg)
  | InvalidSelector (ctx : list string) (e : SelectorError)
  | InvalidAcl (e : AclError).

Definition fail (what : string) (args : list string) : list ValidationError := [Invalid (what, args)].
Definition check (b : bool) (what : string) (args : list string) : list ValidationError := if b then [] else fail what args.
Definition on_some {A} (o : option A) (f : A -> list ValidationError) : list ValidationError :=
  match o with Some a => f a | None => [] end.
Definition of_result {A} (ctx : list string) (r : result A Msg) : list ValidationError :=
  match r with Ok _ => [] | Err e => [Invalid (e.1, ctx ++ e.2)] end.
Definition of_selector {A} (ctx : list string) (r : result A SelectorError) : list ValidationError :=
  match r with Ok _ => [] | Err e => [InvalidSelector ctx e] end.
Definition is_ok {A E} (r : result A E) : bool := match r with Ok _ => true | Err _ => false end.
Definition is_str (s t : string) : bool := String.eqb s t.
(** [is_some_and(|p| p.is_empty())]. *)
Definition set_but_empty (o : option string) : bool := match o with Some s => is_empty s | None => false end.

(** ** Selectors *)

Definition validate_wire_selector_value (ty value : string) : result unit SelectorError :=
  if contains ["qtype"; "rcode"; "qclass"; "opcode"; "edns_option"] ty then result_map (fun _ => tt) (wire_value ty value)
  else if is_str ty "answer_source" then result_map (fun _ => tt) (parse_answer_source value)
  else Ok tt.

Definition validate_sample_key_from (key_from : string) (allow_rule_name allow_sink_name : bool) : result unit SelectorError :=
  if is_str key_from "qname" then Ok tt
  else if is_str key_from "rule_name" && allow_rule_name then Ok tt
  else if is_str key_from "sink_name" && allow_sink_name then Ok tt
  else Err (BadKeyFrom key_from).

(** The pair of fields [key] and [key_from]. *)
Definition validate_key_pair (key key_from : option string) (allow_rule_name allow_sink_name : bool) : result unit SelectorError :=
  match nonempty_key key, nonempty_key key_from with
  | Some _, Some _ => Err SampleKeysExclusive
  | Some _, None => Ok tt
  | None, Some from => validate_sample_key_from from allow_rule_name allow_sink_name
  | None, None => Ok tt
  end.

Definition validate_top_level_sample_key_fields (key key_from : option string) (allow_sink_name : bool) : result unit SelectorError :=
  validate_key_pair key key_from false allow_sink_name.

Definition validate_selector_sample_key_fields (sel : Selector) (allow_rule_name allow_sink_name : bool) : result unit SelectorError :=
  if negb (is_str (sel_type sel) "sample_percent") then
    if is_someb (nonempty_key (sel_key sel)) || is_someb (nonempty_key (sel_key_from sel))
    then Err (BadKeyFrom (sel_type sel)) else Ok tt
  else validate_key_pair (sel_key sel) (sel_key_from sel) allow_rule_name allow_sink_name.

(** ** Event sinks *)

Record SinkIdentity := { id_name : string; id_export_id : string }.
Definition resolve_sink_identity (s : EventSink) : result SinkIdentity Msg :=
  let export_id := trim (es_export_id s) in
  match Config.nonempty (es_name s), negb (is_empty export_id) with
  | Some n, true => Ok {| id_name := n; id_export_id := export_id |}
  | Some n, false => Ok {| id_name := n; id_export_id := n |}
  | None, true => Ok {| id_name := export_id; id_export_id := export_id |}
  | None, false => Err ("requires name or export_id", [])
  end.

(** The loop keeps the names and the export ids seen so far. *)
Fixpoint sink_identity_errors (names export_ids : list string) (sinks : list EventSink) : list ValidationError :=
  match sinks with
  | [] => []
  | s :: sinks =>
      match resolve_sink_identity s with
      | Err _ => fail "events.sinks requires name or export_id" [] ++ sink_identity_errors names export_ids sinks
      | Ok i =>
          check (negb (contains names (id_name i))) "events.sinks name duplicates" [id_name i] ++
          check (negb (contains export_ids (id_export_id i))) "events.sinks export_id duplicates" [id_export_id i] ++
          sink_identity_errors (id_name i :: names) (id_export_id i :: export_ids) sinks
      end
  end.
Definition validate_sink_identity_uniqueness (sinks : list EventSink) : list ValidationError := sink_identity_errors [] [] sinks.

Definition EXTRA_FIELD_NAMES : list string :=
  ["pool"; "backend"; "attempt_count"; "txn_id"; "qname"; "rcode"; "answer_source"; "cache_instance"; "tags"; "client"; "sink_name"].
(** A field is its name. *)
Definition parse_extra_field (n : string) : option string := if contains EXTRA_FIELD_NAMES n then Some n else None.
Definition parse_extra_fields (ns : list string) : result (list string) Msg :=
  try_map (fun n => match parse_extra_field n with Some f => Ok f | None => Err ("unknown events extra_fields entry", [n]) end) ns.

Inductive TagExportMode := TagAll | TagKeys (keys : list string).
Definition parse_extra_tags (tags : list string) (has_tags_field : bool) : result TagExportMode Msg :=
  if bool_decide (tags = []) then Ok (if has_tags_field then TagAll else TagKeys [])
  else if negb has_tags_field then Err ("events extra_tags requires 'tags' in extra_fields", [])
  else if contains tags "*" then
    if 1 <? zlen tags then Err ("events extra_tags cannot mix '*' with other keys", []) else Ok TagAll
  else if existsb is_empty tags then Err ("events extra_tags entries must not be empty", []) else Ok (TagKeys tags).

Definition connect_retry_default : ConnectRetry := {|
  cr_initial_ms := 1000; cr_max_ms := 30000; cr_multiplier := f64_of_Z 2; cr_max_elapsed_ms := 0; cr_jitter := true |}.
Definition f64_is_zero (x : f64) : bool := match SFcompare x (f64_of_Z 0) with Some Eq => true | _ => false end.
Definition connect_retry_resolve (o : option ConnectRetry) : ConnectRetry :=
  match o with
  | None => connect_retry_default
  | Some r => {|
      cr_initial_ms := nz (cr_initial_ms r) (cr_initial_ms connect_retry_default);
      cr_max_ms := nz (cr_max_ms r) (cr_max_ms connect_retry_default);
      cr_multiplier := if f64_is_zero (cr_multiplier r) then cr_multiplier connect_retry_default else cr_multiplier r;
      cr_max_elapsed_ms := cr_max_elapsed_ms r; cr_jitter := cr_jitter r |}
  end.
Definition connect_retry_validate (c : ConnectRetry) : result unit Msg :=
  if (cr_initial_ms c =? 0) || (cr_max_ms c =? 0) then Err ("connect_retry initial_ms and max_ms must be > 0", [])
  else if f64_lt (cr_multiplier c) (f64_of_Z 1) then Err ("connect_retry multiplier must be >= 1.0", [])
  else Ok tt.
Definition parse_connect_retry (s : EventSink) : result ConnectRetry Msg :=
  let cfg := connect_retry_resolve (es_connect_retry s) in
  let? _u := connect_retry_validate cfg in Ok cfg.

(** [(0.0..=100.0).contains(&p)]. *)
Definition in_percent (p : f64) : bool := f64_le (f64_of_Z 0) p && f64_le p (f64_of_Z 100).
Definition parse_sink_sample_percent (percent : option f64) : result f64 Msg :=
  match percent with
  | None => Ok (f64_of_Z 100)
  | Some p => if in_percent p then Ok p else Err ("events filters.sample_percent must be in [0, 100]", [])
  end.

(** ** Logging *)

Definition validate_level (level : string) : result unit Msg :=
  if contains ["error"; "warn"; "info"; "debug"; "trace"] level then Ok tt
  else Err ("logging.level must be error|warn|info|debug|trace", [level]).

Definition validate_query_access (qa : QueryAccessLogging) : result unit Msg :=
  if negb (is_empty (qa_acl_denied qa)) && negb (contains ["off"; "error"; "warn"; "info"; "debug"; "trace"] (qa_acl_denied qa))
  then Err ("logging.query_access.acl_denied must be off|error|warn|info|debug|trace", [qa_acl_denied qa])
  else match qa_acl_denied_sample qa with
       | None => Ok tt
       | Some sample =>
           if is_str (as_mode sample) "per_source" then
             if in_percent (default (f64_of_Z 100) (as_rate sample)) then Ok tt
             else Err ("logging.query_access.acl_denied_sample.rate must be 0-100", [])
           else if is_str (as_mode sample) "every_nth" then
             if default 0 (as_nth sample) =? 0 then Err ("acl_denied_sample.nth must be >= 1 when mode is every_nth", []) else Ok tt
           else Err ("acl_denied_sample.mode must be per_source or every_nth", [as_mode sample])
       end.

Definition validate_logging (cfg : option LoggingConfig) : result unit Msg :=
  match cfg with
  | None => Ok tt
  | Some l =>
      let? _a := if is_empty (lo_level l) then Ok tt else validate_level (lo_level l) in
      if negb (is_empty (lo_output l)) && negb (contains ["stderr"; "stdout"] (lo_output l))
      then Err ("logging.output must be stderr or stdout", [lo_output l])
      else match lo_query_access l with Some qa => validate_query_access qa | None => Ok tt end
  end.

(** ** The whole configuration *)

Definition effective_backend_weight (b : Config.Backend) : Z := default DEFAULT_BACKEND_WEIGHT (be_weight b).

(** What the ACLs depend on. *)
Definition acl_listener (l : ListenerConfig) : Acl.Listener :=
  {| ln_name := li_name l; ln_address := li_address l; ln_protocol := li_protocol l; ln_acls := li_acls l |}.
Definition acl_view (cfg : Config) : AclConfig := {|
  cf_acls := acls cfg; cf_listeners := (fun l => acl_listener <$> ls_listeners l) <$> listeners cfg;
  cf_data_sources := (fun d => {| Acl.ds_name := ds_name d; Acl.ds_type := ds_type d |}) <$> data_sources cfg |}.

Definition ACTION_TYPES : list string :=
  ["set_pool"; "set_tag"; "retry"; "retry_now"; "set_retry_pool"; "drop"; "drop_now"; "clear_drop"; "clear_retry";
   "clear_retry_pool"; "clear_pool"; "clear_tag"; "set_rcode"; "rhai"; "set_source_v4"; "set_source_v6";
   "set_retry_source_v4"; "set_retry_source_v6"; "clear_retry_source_v4"; "clear_retry_source_v6"].

Section Validate.
Context (parse_sock : string -> option SocketAddr) (parse_v4 parse_v6 : string -> option Z) (parse_ip : string -> option IpAddr).
Context (parse_f64 : string -> option f64) (to_lowercase : string -> string) (preflight : string -> result unit Msg).
Context (iter : gmap string LookupProfile -> list (string * LookupProfile)).
Context (metrics_errors : Config -> list ValidationError).

Definition sources_or_none (r : result (list Z) Msg) : list Z := match r with Ok v => v | Err _ => [] end.
Definition configured_source_v4_addrs (cfg : Config) : list Z :=
  match forward cfg with Some f => sources_or_none (parse_sources "v4" parse_v4 (fc_sources_v4 f)) | None => [] end ++
  flat_map (fun p => sources_or_none (parse_sources "v4" parse_v4 (po_sources_v4 p))) (pools cfg).
Definition configured_source_v6_addrs (cfg : Config) : list Z :=
  match forward cfg with Some f => sources_or_none (parse_sources "v6" parse_v6 (fc_sources_v6 f)) | None => [] end ++
  flat_map (fun p => sources_or_none (parse_sources "v6" parse_v6 (po_sources_v6 p))) (pools cfg).

Definition validate_forward (f : ForwardConfig) : list ValidationError :=
  check (is_empty (fc_source_selection f) || is_str (fc_source_selection f) "round_robin")
    "forward.source_selection must be round_robin" [fc_source_selection f] ++
  of_result ["forward"] (parse_sources "v4" parse_v4 (fc_sources_v4 f)) ++
  of_result ["forward"] (parse_sources "v6" parse_v6 (fc_sources_v6 f)) ++
  of_result [] (parse_upstream_transport (fc_upstream_transport f)).

Definition validate_backend (p : Pool) (b : Config.Backend) (fresh : bool) : list ValidationError :=
  check (negb (is_empty (be_address b))) "pool backend address must not be empty" [po_name p] ++
  on_some (Config.nonempty (be_name b)) (fun n => check fresh "pool duplicate backend name" [po_name p; n]) ++
  check (negb (effective_backend_weight b =? 0)) "pool backend weight must be >= 1" [po_name p; be_address b].

Definition validate_pool (p : Pool) (fresh : bool) : list ValidationError :=
  (if is_empty (po_name p) then fail "pool name must not be empty" [] else check fresh "duplicate pool name" [po_name p]) ++
  check (negb (bool_decide (po_backends p = []))) "pool has no backends" [po_name p] ++
  with_seen (fun b => Config.nonempty (be_name b)) (validate_backend p) [] (po_backends p) ++
  of_result [po_name p] (parse_sources "v4" parse_v4 (po_sources_v4 p)) ++
  of_result [po_name p] (parse_sources "v6" parse_v6 (po_sources_v6 p)) ++
  on_some (po_max_inflight p) (fun n => check (negb (n =? 0)) "pool max_inflight must be >= 1 when set" [po_name p]).

(** [Some] of a name that goes into the set of names seen. *)
Definition name_key (s : string) : option string := if is_empty s then None else Some s.

Definition validate_filter_selector (sel : Selector) : list ValidationError :=
  of_selector ["filters"] (validate_non_rule_selector_type (sel_type sel)) ++
  of_selector ["filters"] (validate_wire_selector_value (sel_type sel) (sel_value sel)) ++
  check (negb (is_str (sel_type sel) "sample_percent") || is_ok (parse_sample_percent parse_f64 (sel_value sel)))
    "filters.selectors sample_percent must be in [0, 100]" [] ++
  of_selector ["filters"] (validate_selector_sample_key_fields sel false true).

Definition validate_filters (f : EventSinkFilters) : list ValidationError :=
  flat_map validate_filter_selector (fi_selectors f) ++
  on_some (fi_sample_percent f) (fun p => of_result ["filters"] (parse_sink_sample_percent (Some p))) ++
  of_selector ["filters"] (validate_top_level_sample_key_fields (fi_sample_key f) (fi_sample_key_from f) true) ++
  check (negb (set_but_empty (fi_pool f))) "filters.pool must not be empty" [] ++
  check (negb (set_but_empty (fi_backend f))) "filters.backend must not be empty" [].

Definition validate_sink (s : EventSink) : list ValidationError :=
  check (is_str (es_type s) "dnstap") "events.sinks type is not supported" [es_type s] ++
  of_result ["sink"] (resolve_sink_identity s) ++
  check (negb (bool_decide (es_destinations s = []))) "events.sinks destinations must not be empty" [] ++
  flat_map (fun d => check (starts_with d "unix:" || starts_with d "tcp:") "destination must start with unix: or tcp:" [d])
    (es_destinations s) ++
  flat_map (fun e => check (contains ["query"; "response"; "retry"] e) "emit must be query, response, or retry" [e]) (es_emit s) ++
  of_result ["sink"] (parse_extra_fields (es_extra_fields s)) ++
  of_result ["sink"] (parse_extra_tags (es_extra_tags s) (contains (es_extra_fields s) "tags")) ++
  check (negb (set_but_empty (es_name s))) "events.sinks name must not be empty" [] ++
  of_result ["sink"] (parse_connect_retry s) ++
  on_some (es_filters s) validate_filters.

Definition validate_events (e : EventsConfig) : list ValidationError :=
  check (negb (ev_queue_depth e =? 0)) "events.queue_depth must be >= 1 when events section is present" [] ++
  check (contains ["drop_oldest"; "drop_newest"] (ev_drop_policy e)) "events.drop_policy must be drop_oldest or drop_newest"
    [ev_drop_policy e] ++
  flat_map validate_sink (ev_sinks e) ++
  validate_sink_identity_uniqueness (ev_sinks e).

Definition validate_rule_selector (cidr_names : list string) (rule : RuleConfig) (sel : Selector) : list ValidationError :=
  of_selector [ru_name rule] (validate_selector_type (sel_type sel)) ++
  of_selector [ru_name rule] (validate_wire_selector_value (sel_type sel) (sel_value sel)) ++
  check (negb (is_str (sel_type sel) "sample_percent") || is_ok (parse_sample_percent parse_f64 (sel_value sel)))
    "selector sample_percent must be a float in [0, 100]" [ru_name rule] ++
  of_selector [ru_name rule] (validate_selector_sample_key_fields sel true false) ++
  check (negb (contains ["every_nth_worker"; "every_nth_global"] (sel_type sel)) || is_ok (parse_every_nth (sel_value sel)))
    "selector requires integer value >= 1" [ru_name rule; sel_type sel] ++
  check (negb (is_str (sel_type sel) "client_cidr") || contains cidr_names (sel_value sel))
    "selector client_cidr is not a type:cidr data_sources name" [ru_name rule; sel_value sel].

(** An address that an action names: it must be one of the configured ones. *)
Definition validate_action_source (family : string) (parse : string -> option Z) (allowed : list Z) (rule : RuleConfig) (act : Action)
    : list ValidationError :=
  match parse (act_value act) with
  | Some a =>
      if bool_decide (allowed = []) then fail "action requires configured sources" [ru_name rule; act_type act; family]
      else check (bool_decide (a ∈ allowed)) "action source is not in configured sources" [ru_name rule; act_type act; act_value act]
  | None => fail "action source is not a valid address" [ru_name rule; act_type act; act_value act]
  end.

Definition validate_action (allowed_v4 allowed_v6 : list Z) (rule : RuleConfig) (act : Action) : list ValidationError :=
  let ty := act_type act in
  let v := act_value act in
  check (contains ACTION_TYPES ty) "rule has unknown action type" [ru_name rule; ty] ++
  check (negb (is_str ty "rhai" && is_empty v)) "rhai action requires script path in value" [ru_name rule] ++
  check (negb (is_str ty "set_rcode") || is_ok (validate_wire_selector_value "rcode" v)) "set_rcode value is not known" [ru_name rule; v] ++
  check (negb (contains ["retry"; "retry_now"; "clear_retry"; "set_rcode"] ty) || is_str (ru_hook rule) "response")
    "action is only valid on response hook" [ru_name rule; ty] ++
  check (negb (is_str ty "set_retry_pool" && is_empty v)) "set_retry_pool requires a pool name in value" [ru_name rule] ++
  check (negb (is_str ty "clear_tag" && is_empty v)) "clear_tag requires a non-empty tag key in value" [ru_name rule] ++
  check (negb (contains ["set_source_v4"; "set_source_v6"] ty) || is_str (ru_hook rule) "request")
    "action is only valid on request hook" [ru_name rule; ty] ++
  if contains ["set_source_v4"; "set_source_v6"; "set_retry_source_v4"; "set_retry_source_v6"] ty && is_empty v
  then fail "action requires an address in value" [ru_name rule; ty]
  else
    (if contains ["set_source_v4"; "set_retry_source_v4"] ty then validate_action_source "v4" parse_v4 allowed_v4 rule act else []) ++
    (if contains ["set_source_v6"; "set_retry_source_v6"] ty then validate_action_source "v6" parse_v6 allowed_v6 rule act else []).

Definition validate_rule (cfg : Config) (rule : RuleConfig) (fresh : bool) : list ValidationError :=
  (if is_empty (ru_name rule) then fail "rule name must not be empty" [] else check fresh "duplicate rule name" [ru_name rule]) ++
  check (contains ["request"; "response"] (ru_hook rule)) "rule has invalid hook" [ru_name rule; ru_hook rule] ++
  flat_map (validate_rule_selector (cidr_names (acl_view cfg)) rule) (ru_selectors rule) ++
  flat_map (validate_action (configured_source_v4_addrs cfg) (configured_source_v6_addrs cfg) rule) (ru_actions rule).

Definition validate_rules (cfg : Config) (rules : RulesConfig) : list ValidationError :=
  check (is_str (rs_match_mode rules) "first_match") "unsupported rules.match_mode, only first_match" [rs_match_mode rules] ++
  with_seen (fun r => name_key (ru_name r)) (validate_rule cfg) [] (rs_rules rules).

Definition validate_data_source (ds : Config.DataSource) (fresh : bool) : list ValidationError :=
  check (negb (is_empty (ds_name ds))) "data_sources entry name must not be empty" [] ++
  check fresh "duplicate data_sources name" [ds_name ds] ++
  check (contains ["csv"; "cidr"] (ds_type ds)) "data_sources has unsupported type" [ds_name ds; ds_type ds] ++
  check (negb (is_empty (ds_path ds))) "data_sources path must not be empty" [ds_name ds].

Definition validate (cfg : Config) : list ValidationError :=
  check (schema_version cfg =? 1) "unsupported schema_version" [dec (schema_version cfg)] ++
  on_some (listeners cfg) (fun l => Invalid <$> validate_listeners to_lowercase l) ++
  (Invalid <$> validate_dataplane cfg) ++
  (Invalid <$> validate_shutdown cfg) ++
  on_some (orchestrator cfg) (fun o => check (negb (Config.max_attempts o =? 0)) "orchestrator.max_attempts must be >= 1" []) ++
  on_some (forward cfg) validate_forward ++
  (Invalid <$> validate_upstream_backend_addresses parse_sock cfg) ++
  (Invalid <$> validate_health parse_ip cfg) ++
  (Invalid <$> validate_lookup preflight to_lowercase iter cfg) ++
  with_seen (fun p => name_key (po_name p)) validate_pool [] (pools cfg) ++
  of_result [] (validate_logging (logging cfg)) ++
  on_some (events cfg) validate_events ++
  on_some (Config.rules cfg) (validate_rules cfg) ++
  with_seen (fun ds => Some (ds_name ds)) validate_data_source [] (data_sources cfg) ++
  on_some (data_source_limits cfg) (fun l =>
    check (negb ((0 <? dl_max_tables l) && (dl_max_tables l <? zlen (data_sources cfg))))
      "data_sources entries exceed data_source_limits.max_tables" []) ++
  on_some (rhai cfg) (fun r =>
    check (negb (max_operations r =? 0)) "rhai.max_operations must be >= 1 when set" [] ++
    check (negb (max_call_depth r =? 0)) "rhai.max_call_depth must be >= 1 when set" []) ++
  on_some (control cfg) (fun c =>
    if is_empty (cl_listen_address c) then fail "control.listen_address must not be empty" []
    else check (is_someb (parse_sock (cl_listen_address c))) "control.listen_address is not a valid socket address" [cl_listen_address c]) ++
  metrics_errors cfg ++
  (InvalidAcl <$> validate_acls (acl_view cfg)).
End Validate.

(** ** No errors *)

Lemma app_nil_iff {A} (l k : list A) : l ++ k = [] <-> l = [] /\ k = [].
Proof. split; [apply app_eq_nil|by intros [-> ->]]. Qed.

Lemma check_nil b what args : check b what args = [] <-> b = true.
Proof. by destruct b. Qed.
Lemma on_some_nil {A} (o : option A) f : on_some o f = [] <-> forall a, o = Some a -> f a = [].
Proof. destruct o; cbn; split; [by intros H ? [= <-]|by intros H; apply H|done|done]. Qed.
Lemma of_result_nil {A} ctx (r : result A Msg) : of_result ctx r = [] <-> exists a, r = Ok a.
Proof. destruct r; cbn; split; [by eexists|done|done|by intros [? ?]]. Qed.
Lemma of_selector_nil {A} ctx (r : result A SelectorError) : of_selector ctx r = [] <-> exists a, r = Ok a.
Proof. destruct r; cbn; split; [by eexists|done|done|by intros [? ?]]. Qed.
Lemma error_of_nil {A} (r : result A Msg) : error_of r = [] <-> exists a, r = Ok a.
Proof. destruct r; cbn; split; [by eexists|done|done|by intros [? ?]]. Qed.
Lemma opt_check_nil {A} (o : option A) f : opt_check o f = [] <-> forall a, o = Some a -> f a = [].
Proof. destruct o; cbn; split; [by intros H ? [= <-]|by intros H; apply H|done|done]. Qed.
Lemma must_nil b e : must b e = [] <-> b = true.
Proof. by destruct b. Qed.
Lemma flat_map_nil {A B} (f : A -> list B) l : flat_map f l = [] <-> Forall (fun a => f a = []) l.
Proof.
  induction l as [|a l IH]; cbn; [by split; [constructor|]|]. rewrite app_nil_iff, IH, Forall_cons. done.
Qed.
Lemma fmap_nil_iff {A B} (f : A -> B) l : f <$> l = [] <-> l = [].
Proof. split; [apply fmap_nil_inv|by intros ->]. Qed.
Lemma map_err_ok {A E E'} (f : E -> E') (r : result A E) a : map_err f r = Ok a <-> r = Ok a.
Proof. destruct r; cbn; split; congruence. Qed.
Lemma map_err_some {A E E'} (f : E -> E') (r : result A E) : (exists a, map_err f r = Ok a) <-> exists a, r = Ok a.
Proof. split; intros [a H]; exists a; by apply map_err_ok in H || apply map_err_ok. Qed.

(** A loop over what has not been seen: no errors means that every round had none, and that
    the keys are different, if the body complains about one that is not fresh. *)
Lemma with_seen_each {A B} (key : A -> option string) (f : A -> bool -> list B) l : forall seen,
  with_seen key f seen l = [] -> Forall (fun a => exists fresh, f a fresh = []) l.
Proof.
  induction l as [|a l IH]; intros seen; [by constructor|]. cbn. intros H. constructor.
  - destruct (key a); apply app_nil_iff in H as [H _]; by eexists.
  - destruct (key a); apply app_nil_iff in H as [_ H]; by eapply IH.
Qed.

Lemma contains_spec l s : contains l s = true <-> s ∈ l.
Proof.
  unfold contains. rewrite existsb_exists. setoid_rewrite String.eqb_eq. split; [by intros (x & Hx & ->); apply list_elem_of_In|].
  intros Hs. exists s. by rewrite <- list_elem_of_In.
Qed.

Lemma with_seen_distinct {A B} (key : A -> option string) (f : A -> bool -> list B) l :
  (forall a k, key a = Some k -> f a false <> []) -> forall seen,
  with_seen key f seen l = [] -> NoDup (omap key l) /\ Forall (fun k => k ∉ seen) (omap key l).
Proof.
  intros Hf. induction l as [|a l IH]; intros seen; [split; constructor|]. cbn. destruct (key a) as [k|] eqn:Ek; cbn.
  - intros [Ha [Hn Hs]%IH]%app_nil_iff. destruct (contains seen k) eqn:Ec; [by destruct (Hf a k Ek)|].
    assert (k ∉ seen) by (rewrite <- contains_spec; congruence). split.
    + constructor; [|done]. intros Hin. rewrite Forall_forall in Hs. apply (Hs k Hin). by left.
    + constructor; [done|]. eapply Forall_impl; [exact Hs|]. cbn. set_solver.
  - intros [_ H]%app_nil_iff. by apply IH.
Qed.

Lemma try_map_ok {A B E} (f : A -> result B E) l : Forall (fun a => exists b, f a = Ok b) l -> exists bs, try_map f l = Ok bs.
Proof.
  induction 1 as [|a l [b Hb] _ [bs Hbs]]; [by eexists|]. exists (b :: bs). cbn. by rewrite Hb, Hbs.
Qed.

Lemma try_map_length {A B E} (f : A -> result B E) l bs : try_map f l = Ok bs -> Forall2 (fun a b => f a = Ok b) l bs.
Proof.
  revert bs. induction l as [|a l IH]; intros bs; cbn; [intros [= <-]; constructor|].
  destruct (f a) as [b|] eqn:Ea; cbn; [|done]. destruct (try_map f l) as [bs'|] eqn:El; cbn; [|done].
  intros [= <-]. constructor; [done|by apply IH].
Qed.

Section ValidatedFacts.
Context (parse_sock : string -> option SocketAddr) (parse_v4 parse_v6 : string -> option Z) (parse_ip : string -> option IpAddr).
Context (parse_f64 : string -> option f64) (to_lowercase : string -> string) (preflight : string -> result unit Msg).
Context (iter : gmap string LookupProfile -> list (string * LookupProfile)).

(** The parts of [validate] that compilation depends on. *)
Record validated (cfg : Config) : Prop := {
  va_forward : forall f, forward cfg = Some f -> validate_forward parse_v4 parse_v6 f = [];
  va_addresses : validate_upstream_backend_addresses parse_sock cfg = [];
  va_health : validate_health parse_ip cfg = [];
  va_lookup : validate_lookup preflight to_lowercase iter cfg = [];
  va_pools : with_seen (fun p => name_key (po_name p)) (validate_pool parse_v4 parse_v6) [] (pools cfg) = [];
  va_rules : forall rs, Config.rules cfg = Some rs -> validate_rules parse_v4 parse_v6 parse_f64 cfg rs = [];
}.

Lemma valid_parts metrics_errors cfg :
  validate parse_sock parse_v4 parse_v6 parse_ip parse_f64 to_lowercase preflight iter metrics_errors cfg = [] -> validated cfg.
Proof.
  unfold validate. rewrite !app_nil_iff, !on_some_nil, !fmap_nil_iff.
  intros (_ & _ & _ & _ & _ & Hf & Ha & Hh & Hl & Hp & _ & _ & Hr & _). by split.
Qed.

Lemma validated_pool cfg p : validated cfg -> p ∈ pools cfg -> exists fresh, validate_pool parse_v4 parse_v6 p fresh = [].
Proof. intros Hv Hp. pose proof (with_seen_each _ _ _ _ (va_pools _ Hv)) as Hall. rewrite Forall_forall in Hall. by apply Hall. Qed.

Lemma forward_compiles cfg : validated cfg -> exists fw, compile_forward_from_config parse_sock parse_v4 parse_v6 cfg = Ok fw.
Proof.
  intros Hv. unfold compile_forward_from_config. rewrite (va_addresses _ Hv).
  assert (exists pf, compile_pool_forwards parse_v4 parse_v6 (pools cfg) ∅ = Ok pf) as [pf Hpf].
  { assert (Forall (fun p => p ∈ pools cfg) (pools cfg)) as Hin by (by apply Forall_forall).
    generalize (∅ : gmap string PoolForward) as m. induction Hin as [|p ps Hp _ IH]; intros m; cbn; [by eexists|].
    destruct (validated_pool cfg p Hv Hp) as [fresh Hpool]. unfold validate_pool in Hpool.
    rewrite !app_nil_iff, !of_result_nil in Hpool. destruct Hpool as (_ & _ & _ & [a4 E4] & [a6 E6] & _).
    unfold compile_pool_forward. rewrite E4, E6. repeat case_bool_decide; cbn; apply IH. }
  rewrite Hpf. destruct (forward cfg) as [f|] eqn:Ef; cbn [default from_option].
  - pose proof (va_forward _ Hv f Ef) as Hf. unfold validate_forward in Hf.
    rewrite !app_nil_iff, check_nil, !of_result_nil in Hf. destruct Hf as (Hs & [a4 E4] & [a6 E6] & [t Et]).
    cbn. rewrite E4, E6, Et. cbn. destruct (is_empty (fc_source_selection f)); cbn; [by eexists|].
    cbn in Hs. unfold is_str in Hs. rewrite Hs. by eexists.
  - by eexists.
Qed.

Lemma within_ok {A} ctx (r : result A Msg) a : r = Ok a -> map_err (within ctx) r = Ok a.
Proof. by intros ->. Qed.

(** What [validate_health] says of a pool with a health section. *)
Record health_checked (p : Pool) (hc : HealthCheck) : Prop := {
  hk_interval : forall i, hc_interval_ms hc = Some i -> HEALTH_INTERVAL_FLOOR_MS <= i;
  hk_timeout : hc_timeout_ms hc <> Some 0;
  hk_rise : hc_rise hc <> Some 0;
  hk_fall : hc_fall hc <> Some 0;
  hk_passive : hc_passive_fall hc <> Some 0;
  hk_qtype : forall raw, nonblank (hc_probe_qtype hc) = Some raw -> exists n, parse_qtype raw = Ok n;
  hk_rcodes : Forall (fun n => exists z, parse_rcode n = Ok z) (hc_acceptable_rcodes hc);
  hk_initial : forall raw, hc_initial_state hc = Some raw -> exists i, parse_initial_state raw = Ok i;
  hk_backends : Forall (fun b => validate_backend_health parse_ip p b = []) (po_backends p);
}.

Lemma not_zero o : negb (is_zero o) = true -> o <> Some 0.
Proof. unfold is_zero. intros H%negb_true_iff%bool_decide_eq_false. done. Qed.

Lemma validated_health cfg p hc : validated cfg -> p ∈ pools cfg -> po_health p = Some hc -> health_checked p hc.
Proof.
  intros Hv Hp Hhc. pose proof (va_health _ Hv) as Hh. unfold validate_health in Hh. rewrite flat_map_nil, Forall_forall in Hh.
  specialize (Hh p Hp). unfold validate_pool_health in Hh. rewrite opt_check_nil in Hh. specialize (Hh hc Hhc). cbn in Hh.
  rewrite !app_nil_iff, !must_nil, !opt_check_nil in Hh. destruct Hh as (Hi & Ht & Hr & Hf & Hpf & Hq & Hrc & His & Hbs).
  rewrite flat_map_nil in Hrc. rewrite flat_map_nil in Hbs. split; try by apply not_zero.
  - intros i Ei. specialize (Hi i Ei). apply must_nil in Hi. lia.
  - intros raw Er. specialize (Hq raw Er). by apply error_of_nil, map_err_some in Hq.
  - eapply Forall_impl; [exact Hrc|]. cbn. intros n. by rewrite error_of_nil, map_err_some.
  - intros raw Er. specialize (His raw Er). by apply error_of_nil, map_err_some in His.
  - done.
Qed.

Lemma validated_address cfg p b : validated cfg -> p ∈ pools cfg -> b ∈ po_backends p -> is_Some (parse_sock (be_address b)).
Proof.
  intros Hv Hp Hb. pose proof (va_addresses _ Hv) as Ha. unfold validate_upstream_backend_addresses in Ha.
  rewrite flat_map_nil, Forall_forall in Ha. specialize (Ha p Hp). cbn in Ha.
  rewrite flat_map_nil, Forall_forall in Ha. specialize (Ha b Hb). cbn in Ha. by destruct (parse_sock (be_address b)).
Qed.

Lemma backend_health_compiles cfg p b hc qname qtype : validated cfg -> p ∈ pools cfg -> b ∈ po_backends p -> po_health p = Some hc ->
  exists c, compile_backend_health parse_sock parse_ip p qname qtype b = Ok c.
Proof.
  intros Hv Hp Hb Hhc. unfold compile_backend_health. destruct (validated_address cfg p b Hv Hp Hb) as [a ->].
  pose proof (hk_backends _ _ (validated_health cfg p hc Hv Hp Hhc)) as Hbs. rewrite Forall_forall in Hbs.
  specialize (Hbs b Hb). unfold validate_backend_health in Hbs. rewrite !app_nil_iff, !opt_check_nil in Hbs.
  destruct Hbs as (Hq & Hs & _).
  destruct (nonblank (be_probe_qtype b)) as [rq|]; [specialize (Hq rq eq_refl); apply error_of_nil in Hq as [z ->]|]; cbn;
    (destruct (nonblank (be_probe_source b)) as [rs|]; [|by eexists]; specialize (Hs rs eq_refl); apply must_nil in Hs;
     destruct (parse_ip rs); [by eexists|done]).
Qed.

(** The compiled thresholds of a pool. *)
Record pool_health_sound (p : Pool) (c : CompiledPoolHealth) : Prop := {
  ph_interval : HEALTH_INTERVAL_FLOOR_MS <= cp_interval_ms c;
  ph_timeout : cp_timeout_ms c <> 0;
  ph_rise : cp_rise c <> 0;
  ph_fall : cp_fall c <> 0;
  ph_passive : cp_passive_fall c <> 0;
  ph_backends : Forall2 (fun b k => parse_sock (be_address b) = Some (cb_address k)) (po_backends p) (cp_backends c);
}.

Lemma pool_health_compiles cfg p hc : validated cfg -> p ∈ pools cfg -> po_health p = Some hc ->
  exists c, compile_pool_health parse_sock parse_ip p hc = Ok c /\ pool_health_sound p c.
Proof.
  intros Hv Hp Hhc. destruct (validated_health cfg p hc Hv Hp Hhc) as [Hi Ht Hr Hf Hpf Hq Hrc His _]. unfold compile_pool_health.
  assert (exists n, parse_qtype (default DEFAULT_PROBE_QTYPE (nonblank (hc_probe_qtype hc))) = Ok n) as [n ->].
  { destruct (nonblank (hc_probe_qtype hc)) as [raw|]; [by apply Hq|by eexists]. }
  assert (exists i, parse_initial_state (default "" (hc_initial_state hc)) = Ok i) as [i ->].
  { destruct (hc_initial_state hc) as [raw|]; [by apply His|by eexists]. }
  assert (exists o, match hc_acceptable_rcodes hc with
                    | [] => Ok None
                    | names => result_map Some (try_map (fun n => map_err (within [po_name p]) (parse_rcode n)) names)
                    end = Ok o) as [o Eo].
  { destruct (try_map_ok (fun n => map_err (within [po_name p]) (parse_rcode n)) (hc_acceptable_rcodes hc)) as [zs Ez].
    { eapply Forall_impl; [exact Hrc|]. cbn. intros x. by rewrite map_err_some. }
    destruct (hc_acceptable_rcodes hc); [by eexists|]. rewrite Ez. by eexists. }
  destruct (try_map_ok (compile_backend_health parse_sock parse_ip p (default DEFAULT_PROBE_QNAME (nonblank (hc_probe_qname hc))) n)
    (po_backends p)) as [bs Ebs].
  { apply Forall_forall. intros b Hb. by eapply backend_health_compiles. }
  cbn [map_err]. rewrite Eo, Ebs. eexists. split; [reflexivity|]. apply try_map_length in Ebs. split; cbn.
  - destruct (hc_interval_ms hc) as [iv|]; cbn; [by apply Hi|done].
  - destruct (hc_timeout_ms hc) as [t|]; cbn; [congruence|]. destruct (hc_interval_ms hc) as [iv|] eqn:Ei; cbn; [|done].
    specialize (Hi iv eq_refl). unfold HEALTH_INTERVAL_FLOOR_MS in Hi. lia.
  - destruct (hc_rise hc); cbn; [congruence|done].
  - destruct (hc_fall hc); cbn; [congruence|done].
  - destruct (hc_passive_fall hc); cbn; [congruence|done].
  - eapply Forall2_impl; [exact Ebs|]. cbn. intros b k. unfold compile_backend_health.
    destruct (parse_sock (be_address b)); [|done]. case_all; cbn; intros [= <-]; done.
Qed.

Lemma name_key_nonempty {A} (name : A -> string) l : Forall (fun a => name a <> "") l -> omap (fun a => name_key (name a)) l = name <$> l.
Proof.
  induction 1 as [|a l Ha _ IH]; [done|]. cbn. unfold name_key at 1, is_empty. destruct (String.eqb_spec (name a) ""); [done|].
  by rewrite IH.
Qed.

Lemma is_empty_spec s : is_empty s = true <-> s = "".
Proof. apply String.eqb_eq. Qed.

Lemma pool_named p fresh : validate_pool parse_v4 parse_v6 p fresh = [] -> po_name p <> "".
Proof.
  unfold validate_pool. rewrite !app_nil_iff. intros [Hn _] E. by rewrite (proj2 (is_empty_spec _) E) in Hn.
Qed.

(** Pools have names, and different ones. *)
Lemma pool_names_distinct cfg : validated cfg -> NoDup (po_name <$> pools cfg).
Proof.
  intros Hv. pose proof (va_pools _ Hv) as Hp. pose proof (with_seen_each _ _ _ _ Hp) as Hall.
  apply with_seen_distinct in Hp as [Hnd _].
  - rewrite name_key_nonempty in Hnd; [done|]. eapply Forall_impl; [exact Hall|]. cbn. by intros p [fresh ?%pool_named].
  - intros p k Hk. unfold name_key in Hk. unfold validate_pool. by destruct (is_empty (po_name p)).
Qed.

(** The compiled health has every pool that is probed. *)
Definition health_sound (ps : list Pool) (h : CompiledHealth) : Prop :=
  forall p hc, p ∈ ps -> po_health p = Some hc -> hc_enabled hc = true ->
  exists c, h !! po_name p = Some c /\ pool_health_sound p c.

Lemma health_pools_compile ps : NoDup (po_name <$> ps) ->
  (forall p hc, p ∈ ps -> po_health p = Some hc -> exists c, compile_pool_health parse_sock parse_ip p hc = Ok c /\ pool_health_sound p c) ->
  forall m, exists h, compile_health_pools parse_sock parse_ip ps m = Ok h /\ health_sound ps h /\
    forall n, n ∉ po_name <$> ps -> h !! n = m !! n.
Proof.
  induction ps as [|p ps IH]; intros Hnd Hc m; cbn; [by exists m; split_and!; [|intros ? ? ?%not_elem_of_nil|]|].
  apply NoDup_cons in Hnd as [Hp Hnd]. destruct (po_health p) as [hc|] eqn:Ehc.
  - destruct (hc_enabled hc) eqn:Een.
    + destruct (Hc p hc) as (c & Ec & Hs); [by left|done|]. rewrite Ec. cbn.
      destruct (IH Hnd ltac:(intros; apply Hc; [by right|done]) (<[po_name p := c]> m)) as (h & Eh & Hh & Hrest).
      exists h. split_and!; [done| |].
      * intros q hq [->|Hq]%elem_of_cons Eq Enq; [|by eapply Hh]. exists c. split; [|done].
        rewrite Hrest by done. apply lookup_insert_eq.
      * intros n Hn. rewrite Hrest by set_solver. apply lookup_insert_ne. set_solver.
    + destruct (IH Hnd ltac:(intros; apply Hc; [by right|done]) m) as (h & Eh & Hh & Hrest).
      exists h. split_and!; [done| |intros n Hn; apply Hrest; set_solver].
      intros q hq [->|Hq]%elem_of_cons Eq Enq; [congruence|by eapply Hh].
  - destruct (IH Hnd ltac:(intros; apply Hc; [by right|done]) m) as (h & Eh & Hh & Hrest).
    exists h. split_and!; [done| |intros n Hn; apply Hrest; set_solver].
    intros q hq [->|Hq]%elem_of_cons Eq Enq; [congruence|by eapply Hh].
Qed.

Lemma health_compiles cfg : validated cfg ->
  exists h, compile_health_from_config parse_sock parse_ip cfg = Ok h /\ health_sound (pools cfg) h.
Proof.
  intros Hv. destruct (health_pools_compile (pools cfg) (pool_names_distinct cfg Hv)
    (fun p hc Hp Hhc => pool_health_compiles cfg p hc Hv Hp Hhc) ∅) as (h & Eh & Hh & _). by exists h.
Qed.

(** The caches that profiles name are there. *)
Definition lookup_sound (l : CompiledLookup) : Prop :=
  forall name p n, cl_profiles l !! name = Some p -> ProviderCache n ∈ Lookup.providers p -> is_Some (cl_cache_instances l !! n).

Lemma profile_sound instances name p c n : compile_profile instances name p = Ok c -> ProviderCache n ∈ Lookup.providers c ->
  is_Some (instances !! n).
Proof.
  unfold compile_profile. case_bool_decide; [done|]. destruct (try_map _ _) as [ps|] eqn:Em; [|done]. cbn. intros [= <-]. cbn.
  apply try_map_length in Em. intros (i & Hi)%list_elem_of_lookup. destruct (Forall2_lookup_r _ _ _ _ _ Em Hi) as (v & _ & Hv).
  apply map_err_ok in Hv. unfold compile_provider in Hv. destruct (String.eqb _ "forward"); [done|].
  destruct (String.eqb _ "cache"); [|by destruct (String.eqb _ "")]. destruct (Config.nonempty (pv_cache v)) as [m|]; [|done].
  destruct (instances !! m) eqn:Em'; cbn in Hv; [|done]. injection Hv as ->. rewrite Em'. by eexists.
Qed.

Lemma profiles_sound instances l : forall acc r, compile_profiles instances l acc = Ok r ->
  (forall name p n, acc.1 !! name = Some p -> ProviderCache n ∈ Lookup.providers p -> is_Some (instances !! n)) ->
  forall name p n, r.1 !! name = Some p -> ProviderCache n ∈ Lookup.providers p -> is_Some (instances !! n).
Proof.
  induction l as [|[nm q] l IH]; intros acc r; cbn; [by intros [= <-]|].
  destruct (is_empty nm); [done|]. destruct (compile_profile instances nm q) as [c|] eqn:Ec; [|done]. cbn.
  intros Hr Hacc. apply (IH _ _ Hr). cbn. intros name p n [[<- <-]|[_ Hn]]%lookup_insert_Some; [by eapply profile_sound|by eapply Hacc].
Qed.

Lemma lookup_compiles cfg : validated cfg ->
  exists l, compile_lookup_from_config preflight to_lowercase iter cfg = Ok l /\ lookup_sound l.
Proof.
  intros Hv. pose proof (va_lookup _ Hv) as Hl. unfold validate_lookup in Hl. apply error_of_nil in Hl as [l El].
  exists l. split; [done|]. unfold compile_lookup_from_config in El.
  destruct (compile_cache_instances _ _ _ _) as [instances|]; [|done]. cbn in El.
  destruct (Config.lookup cfg) as [lc|].
  - case_bool_decide; [done|]. destruct (_ && _); [done|]. destruct (compile_profiles _ _ _) as [r|] eqn:Ep; [|done]. cbn in El.
    destruct (_ && _); [done|]. injection El as <-. intros name p n. cbn. eapply profiles_sound; [exact Ep|]. by intros ? ? ?.
  - injection El as <-. intros name p n. cbn. intros [_ <-]%lookup_singleton_Some. cbn. set_solver.
Qed.
End ValidatedFacts.

(** ** Rules *)

(** The two types of selector whose value must not be blank. *)
Definition not_blank (sel : Selector) : Prop :=
  sel_type sel = "cache_instance" \/ sel_type sel = "client_cidr" -> trim (sel_value sel) <> "".

Section RuleFacts.
Context (parse_v4 parse_v6 : string -> option Z) (parse_f64 : string -> option f64).

Lemma is_ok_spec {A E} (r : result A E) : is_ok r = true <-> exists a, r = Ok a.
Proof. destruct r; cbn; split; [by eexists|done|done|by intros [? ?]]. Qed.

Lemma sample_key_compiles key from ctx :
  (exists u, validate_key_pair key from (is_someb (cc_rule_name ctx)) (is_someb (cc_sink_name ctx)) = Ok u) ->
  exists k, compile_sample_key_fields key from ctx (is_someb (cc_rule_name ctx)) (is_someb (cc_sink_name ctx)) = Ok k.
Proof.
  intros [u Hu]. unfold validate_key_pair in Hu. unfold compile_sample_key_fields.
  destruct (nonempty_key key), (nonempty_key from) as [f|]; try done; try by eexists.
  unfold validate_sample_key_from, is_str in Hu. unfold compile_sample_key_from.
  destruct (String.eqb f "qname"); [by eexists|].
  destruct (String.eqb f "rule_name"), (cc_rule_name ctx); cbn in *; first [by eexists|idtac];
    destruct (String.eqb f "sink_name"), (cc_sink_name ctx); cbn in *; first [discriminate Hu|by eexists].
Qed.

Lemma wire_value_compiles ty v : contains ["qtype"; "rcode"; "qclass"; "opcode"; "edns_option"] ty = true ->
  (exists u, validate_wire_selector_value ty v = Ok u) -> exists n, wire_value ty v = Ok n.
Proof. intros Hc [u Hu]. unfold validate_wire_selector_value in Hu. rewrite Hc in Hu. destruct (wire_value ty v); [by eexists|done]. Qed.

(** A selector whose value passes the checks of its type is compiled, if it is not blank. *)
Lemma checked_selector_compiles sel ctx :
  (exists u, validate_wire_selector_value (sel_type sel) (sel_value sel) = Ok u) ->
  negb (is_str (sel_type sel) "sample_percent") || is_ok (parse_sample_percent parse_f64 (sel_value sel)) = true ->
  (exists u, validate_selector_sample_key_fields sel (is_someb (cc_rule_name ctx)) (is_someb (cc_sink_name ctx)) = Ok u) ->
  negb (contains ["every_nth_worker"; "every_nth_global"] (sel_type sel)) || is_ok (parse_every_nth (sel_value sel)) = true ->
  not_blank sel -> exists c, selector_compile parse_f64 sel ctx = Ok c.
Proof.
  intros Hw Hp Hk He Hb. unfold selector_compile.
  repeat match goal with
  | |- context [String.eqb (sel_type sel) ?t] =>
      destruct (String.eqb_spec (sel_type sel) t) as [Et|Et];
      [rewrite ?Et in *; first
         [ by eexists
         | destruct (wire_value_compiles t (sel_value sel) eq_refl Hw) as [n ->]; by eexists
         | idtac ]|clear Et]
  end; try by eexists.
  - destruct Hw as [u Hu]. cbn in Hu. destruct (parse_answer_source (sel_value sel)); [by eexists|done].
  - destruct (String.eqb_spec (trim (sel_value sel)) ""); [|by eexists]. by destruct (Hb ltac:(by left)).
  - cbn in Hp. apply is_ok_spec in Hp as [x Hx]. unfold parse_percent_key. rewrite Hx. cbn.
    unfold validate_selector_sample_key_fields in Hk. rewrite Et in Hk. cbn in Hk.
    destruct (sample_key_compiles _ _ ctx Hk) as [k ->]. by eexists.
  - cbn in He. apply is_ok_spec in He as [x ->]. by eexists.
  - cbn in He. apply is_ok_spec in He as [x ->]. by eexists.
  - destruct (String.eqb_spec (trim (sel_value sel)) ""); [|by eexists]. by destruct (Hb ltac:(by right)).
Qed.

Lemma selector_compiles names rule sel : validate_rule_selector parse_f64 names rule sel = [] -> not_blank sel ->
  exists c, selector_compile parse_f64 sel {| cc_rule_name := Some (ru_name rule); cc_sink_name := None |} = Ok c.
Proof.
  unfold validate_rule_selector. rewrite !app_nil_iff, !of_selector_nil, !check_nil.
  intros (_ & Hw & Hp & Hk & He & _) Hb. by apply checked_selector_compiles.
Qed.

Lemma action_compiles al4 al6 rule a : validate_action parse_v4 parse_v6 al4 al6 rule a = [] -> is_rhai a = false ->
  is_Some (action_compile parse_v4 parse_v6 a).
Proof.
  unfold validate_action. rewrite !app_nil_iff, !check_nil. intros (Hty & _ & Hrc & _ & _ & _ & _ & Hsrc) Hr.
  apply contains_spec in Hty. unfold is_rhai in Hr. unfold action_compile.
  unfold ACTION_TYPES in Hty. repeat (apply elem_of_cons in Hty as [Hty|Hty]); [..|by apply elem_of_nil in Hty];
    rewrite Hty in *; cbn in *; try done; try by eexists.
  - unfold wire_value in Hrc. cbn in Hrc. unfold parse_name_or_err in Hrc.
    destruct (parse_name Rcode (act_value a)); [by eexists|done].
  - destruct (is_empty (act_value a)); [done|]. unfold validate_action_source in Hsrc.
    destruct (parse_v4 (act_value a)); [by eexists|done].
  - destruct (is_empty (act_value a)); [done|]. cbn in Hsrc. unfold validate_action_source in Hsrc.
    destruct (parse_v6 (act_value a)); [by eexists|done].
  - destruct (is_empty (act_value a)); [done|]. unfold validate_action_source in Hsrc.
    destruct (parse_v4 (act_value a)); [by eexists|done].
  - destruct (is_empty (act_value a)); [done|]. cbn in Hsrc. unfold validate_action_source in Hsrc.
    destruct (parse_v6 (act_value a)); [by eexists|done].
Qed.
End RuleFacts.

(** ** What passes is installed *)

Section Installs.
Context `{PrefixTrie} (parse_net : string -> option IpNet) (parse_ip : string -> option IpAddr).
Context (parse_sock : string -> option SocketAddr) (parse_v4 parse_v6 : string -> option Z) (parse_f64 : string -> option f64).
Context (to_lowercase : string -> string) (preflight : string -> result unit Msg).
Context (iter : gmap string LookupProfile -> list (string * LookupProfile)).
Context (disk : string -> result string string) (base_dir : option string).
Context (compile_source : string -> ScriptPhase -> DataSourceStore -> result unit Msg).
Context (check_metrics : Config -> CompiledScripting -> result unit Msg) (metrics_errors : Config -> list ValidationError).
#[local] Abbreviation valid := (validate parse_sock parse_v4 parse_v6 parse_ip parse_f64 to_lowercase preflight iter metrics_errors).
#[local] Abbreviation scripts := (compile_scripts parse_net parse_ip disk base_dir compile_source check_metrics).
#[local] Abbreviation try_from_config := (try_from_config_with_base parse_net parse_ip parse_sock parse_v4 parse_v6 parse_f64
  to_lowercase preflight iter disk base_dir compile_source check_metrics).

Definition selectors_not_blank (cfg : Config) : Prop :=
  forall rs, Config.rules cfg = Some rs -> Forall (fun r => Forall not_blank (ru_selectors r)) (rs_rules rs).

Lemma rule_names_distinct cfg rs : validate_rules parse_v4 parse_v6 parse_f64 cfg rs = [] -> NoDup (ru_name <$> rs_rules rs).
Proof.
  unfold validate_rules. intros [_ Hp]%app_nil_iff. pose proof (with_seen_each _ _ _ _ Hp) as Hall.
  apply with_seen_distinct in Hp as [Hnd _].
  - rewrite name_key_nonempty in Hnd; [done|]. eapply Forall_impl; [exact Hall|]. cbn. intros r [fresh Hr] E.
    unfold validate_rule in Hr. apply app_nil_iff in Hr as [Hr _]. by rewrite (proj2 (is_empty_spec _) E) in Hr.
  - intros r k Hk. unfold name_key in Hk. unfold validate_rule. by destruct (is_empty (ru_name r)).
Qed.

Lemma validated_rule_compiles cfg s rs r : validate_rules parse_v4 parse_v6 parse_f64 cfg rs = [] -> Config.rules cfg = Some rs ->
  scripts cfg = Some (Ok s) -> r ∈ rs_rules rs -> Forall not_blank (ru_selectors r) ->
  is_Some (rule_compile parse_v4 parse_v6 parse_f64 s r).
Proof.
  intros Hv Hrs Hs Hr Hb. pose proof (rule_names_distinct cfg rs Hv) as Hnd. unfold validate_rules in Hv.
  apply app_nil_iff in Hv as [_ Hall%with_seen_each]. rewrite Forall_forall in Hall. destruct (Hall r Hr) as [fresh Hvr].
  unfold validate_rule in Hvr. rewrite !app_nil_iff in Hvr. destruct Hvr as (_ & _ & Hsel & Hact).
  rewrite flat_map_nil in Hsel. rewrite flat_map_nil in Hact. unfold rule_compile.
  destruct (compile_actions_total parse_v4 parse_v6 (script_ids_for_rule s (ru_name r) (hook_phase r)) (ru_actions r) 0) as [acts ->].
  { eapply Forall_impl; [exact Hact|]. cbn. intros a Ha. by eapply action_compiles. }
  { rewrite drop_0. apply Nat.eq_le_incl. eapply Forall2_length. by eapply compiled_scripts_own. }
  cbn. unfold compile_rule_selectors.
  destruct (try_map_ok (fun sl => selector_compile parse_f64 sl {| cc_rule_name := Some (ru_name r); cc_sink_name := None |})
    (ru_selectors r)) as [sels ->]; [|by eexists].
  rewrite Forall_forall in Hsel, Hb. apply Forall_forall. intros sl Hsl. eapply selector_compiles; [by apply Hsel|by apply Hb].
Qed.

Lemma rules_compile_total cfg s : (forall rs, Config.rules cfg = Some rs -> validate_rules parse_v4 parse_v6 parse_f64 cfg rs = []) ->
  scripts cfg = Some (Ok s) -> selectors_not_blank cfg -> is_Some (rules_compile parse_v4 parse_v6 parse_f64 (Config.rules cfg) s).
Proof.
  intros Hv Hs Hb. unfold rules_compile. destruct (Config.rules cfg) as [rs|] eqn:Ers; [|by eexists].
  apply mapM_is_Some. apply Forall_forall. intros r Hr. specialize (Hb rs Ers). rewrite Forall_forall in Hb.
  eapply validated_rule_compiles; [by apply Hv|done|done|done|by apply Hb].
Qed.

(** What the runtime relies on in a snapshot: thresholds that can be met, weights that
    are not zero, caches that are there, and rules whose actions run their own scripts. *)
Record snapshot_sound (cfg : Config) (s : RuntimeSnapshot) : Prop := {
  so_health : health_sound parse_sock (pools cfg) (rt_health s);
  so_lookup : lookup_sound (rt_lookup s);
  so_weights : Forall (fun p => po_backends p <> [] /\ Forall (fun b => effective_backend_weight b <> 0) (po_backends p)) (pools cfg);
  so_rules : forall rs, Config.rules cfg = Some rs -> Forall2 (fun r c => rule_name c = ru_name r /\
               Forall2 (action_runs base_dir (rt_scripting s) (ru_name r)) (ru_actions r) (rule_actions c)) (rs_rules rs) (rt_rules s);
}.

Lemma pools_weighted cfg : validated parse_sock parse_v4 parse_v6 parse_ip parse_f64 to_lowercase preflight iter cfg ->
  Forall (fun p => po_backends p <> [] /\ Forall (fun b => effective_backend_weight b <> 0) (po_backends p)) (pools cfg).
Proof.
  intros Hv. apply Forall_forall. intros p Hp. edestruct validated_pool as [fresh Hpool]; [exact Hv|exact Hp|].
  unfold validate_pool in Hpool. rewrite !app_nil_iff in Hpool. destruct Hpool as (_ & Hne & Hb & _). split.
  - apply check_nil, negb_true_iff, bool_decide_eq_false in Hne. done.
  - apply with_seen_each in Hb. eapply Forall_impl; [exact Hb|]. cbn. intros b [fr Hbk]. unfold validate_backend in Hbk.
    rewrite !app_nil_iff, !check_nil in Hbk. destruct Hbk as (_ & _ & Hw). apply negb_true_iff, Z.eqb_neq in Hw. done.
Qed.

(** What passes is compiled. *)
Lemma validated_snapshot_compiles (cfg : Config) (s : CompiledScripting) :
  valid cfg = [] -> scripts cfg = Some (Ok s) -> selectors_not_blank cfg ->
  exists snap, try_from_config cfg = Some (Ok snap) /\ rt_scripting snap = s /\ rt_config snap = cfg /\ snapshot_sound cfg snap.
Proof.
  intros Hv%valid_parts Hs Hb. pose proof Hv as [_ _ _ _ _ Hrules]. edestruct forward_compiles as [fw Hfw]; [exact Hv|].
  edestruct health_compiles as (h & Hh & Hhs); [exact Hv|].
  edestruct lookup_compiles as (l & Hl & Hls); [exact Hv|].
  destruct (rules_compile_total cfg s Hrules Hs Hb) as [rules Hr].
  unfold try_from_config_with_base. rewrite Hs. cbn. rewrite Hfw. cbn. rewrite Hh. cbn. rewrite Hl. cbn. rewrite Hr. cbn.
  eexists. split; [reflexivity|]. split_and!; [done|done|]. split; cbn; [done|done|by apply pools_weighted|].
  intros rs Ers. rewrite Ers in Hr. cbn in Hr. apply mapM_Some in Hr.
  pose proof (rule_names_distinct cfg rs (Hrules rs Ers)) as Hnd.
  apply Forall2_same_length_lookup_2; [by eapply Forall2_length|]. intros i r c Hi Hc.
  pose proof (Forall2_lookup_lr _ _ _ _ _ _ Hr Hi Hc) as Ec. split.
  - unfold rule_compile in Ec. destruct (compile_actions _ _ _ _ _); [|done]. cbn in Ec. destruct (result_ok _); [|done].
    by injection Ec as <-.
  - eapply rule_actions_own; [exact Hs|exact Ers|done|by eapply list_elem_of_lookup_2|exact Ec].
Qed.

(** C17: A configuration that passes validation, whose data sources and scripts load, and
    whose rules have no blank cache or CIDR selector, is compiled: nothing of its forward,
    health, lookup and rule sections is rejected or panics any more. And the snapshot has
    what the runtime relies on. *)
Theorem validated_config_installs (cfg : Config) (s : CompiledScripting) :
  valid cfg = [] -> scripts cfg = Some (Ok s) -> selectors_not_blank cfg ->
  exists snap, try_from_config cfg = Some (Ok snap) /\ rt_scripting snap = s /\ rt_config snap = cfg /\ snapshot_sound cfg snap.
Proof. apply validated_snapshot_compiles. Qed.
End Installs.

(** ** What passes as the file of the configurator *)

(** No marker of an overlay, no address twice in a pool and no metric twice. *)
Record file_plain (cfg : Config) : Prop := {
  fp_pools : Forall (fun p => po_remove p = None /\ NoDup (be_address <$> po_backends p) /\
                              Forall (fun b => be_remove b = None) (po_backends p)) (pools cfg);
  fp_metrics : NoDup (um_name <$> me_user_metrics (default MetricsConfig_default (metrics cfg)));
}.

(** A configuration that passes validation and has no address twice in a pool and no
    overlay marker is one whose pools and backends can be told apart: as the file of the
    configurator, every primitive takes effect on it exactly. *)
Theorem validated_file_ok (parse_sock : string -> option SocketAddr) (parse_v4 parse_v6 : string -> option Z)
    (parse_ip : string -> option IpAddr) (parse_f64 : string -> option f64) (to_lowercase : string -> string)
    (preflight : string -> result unit Msg) (iter : gmap string LookupProfile -> list (string * LookupProfile))
    (metrics_errors : Config -> list ValidationError) (cfg : Config) :
  validate parse_sock parse_v4 parse_v6 parse_ip parse_f64 to_lowercase preflight iter metrics_errors cfg = [] ->
  file_plain cfg -> file_ok cfg.
Proof.
  intros Hv%valid_parts [Hplain Hmet]. pose proof Hv as [_ _ _ _ Hpools _]. apply with_seen_each in Hpools. split; [|apply Forall_forall|done].
  - split; [by eapply pool_names_distinct| |].
    + eapply Forall_impl; [exact Hpools|]. cbn. by intros p [fresh ?%pool_named].
    + eapply Forall_impl; [exact Hplain|]. by intros p (? & _).
  - intros p Hp. rewrite Forall_forall in Hplain, Hpools. destruct (Hplain p Hp) as (_ & Hnd & Hum).
    destruct (Hpools p Hp) as [fresh Hpool]. unfold validate_pool in Hpool. rewrite !app_nil_iff in Hpool.
    destruct Hpool as (_ & _ & Hb & _). pose proof (with_seen_each _ _ _ _ Hb) as Heach. split; [done| | |done].
    + eapply Forall_impl; [exact Heach|]. cbn. intros b [fr Hbk] E. unfold validate_backend in Hbk. apply app_nil_iff in Hbk as [Hbk _].
      by rewrite (proj2 (is_empty_spec _) E) in Hbk.
    + apply with_seen_distinct in Hb as [Hn _]; [done|]. intros b k Hk. unfold validate_backend. rewrite Hk. cbn.
      by destruct (is_empty (be_address b)).
Qed.

(** ** Witnesses *)

Definition sample_sock (s : string) : option SocketAddr :=
  if String.eqb s "192.0.2.1:53" then Some (SockV4 3221225985 53) else None.
Definition no_addr (s : string) : option Z := None.
Definition no_float (s : string) : option f64 := None.
Definition all_entries (m : gmap string LookupProfile) : list (string * LookupProfile) := map_to_list m.
Definition any_path (s : string) : result unit Msg := Ok tt.
Definition any_script `{PrefixTrie} (path : string) (p : ScriptPhase) (s : DataSourceStore) : result unit Msg := Ok tt.
Definition any_metrics `{PrefixTrie} (cfg : Config) (s : CompiledScripting) : result unit Msg := Ok tt.
Definition no_metric_errors (cfg : Config) : list ValidationError := [].
#[local] Instance no_trie : PrefixTrie := {|
  Trie := unit; trie_new := tt; trie_insert _ _ _ t := t; trie_get _ _ _ := None; trie_get_lpm _ _ _ := None |}.

Definition sample_health : HealthCheck := {|
  hc_enabled := true; hc_interval_ms := Some 500; hc_timeout_ms := None; hc_rise := None; hc_fall := None; hc_probe_qname := None;
  hc_probe_qtype := Some "SOA"; hc_acceptable_rcodes := ["NOERROR"]; hc_initial_state := None; hc_latency_weighting := None;
  hc_min_eligible := None; hc_passive_fast_trip := None; hc_passive_fall := None |}.
Definition sample_pool_cfg : Pool :=
  MkPoolCfg "main" [Backend_default <| be_address := "192.0.2.1:53" |>] [] [] None (Some sample_health) None.
Definition sample_cache : Config.CacheInstance := MkCache "answers" "memory" None None None None None None None None.
Definition sample_lookup : LookupConfig := {|
  lc_profiles := {[ "default" := {| pf_providers := [{| pv_type := "cache"; pv_cache := Some "answers" |}; {| pv_type := "forward"; pv_cache := None |}] |} ]} |}.
Definition sample_rule (sel : Selector) : RuleConfig := {|
  ru_name := "r"; ru_hook := "request"; ru_selectors := [sel];
  ru_actions := [{| act_type := "rhai"; act_value := "a.rhai" |}; {| act_type := "set_pool"; act_value := "main" |};
                 {| act_type := "rhai"; act_value := "a.rhai" |}] |}.
(** A configuration with one rule with one selector. *)
Definition sample_config (sel : Selector) : Config :=
  MkConfig 1 None None None None None [sample_pool_cfg] None (Some {| rs_match_mode := "first_match"; rs_rules := [sample_rule sel] |})
    None [] None None None None None [sample_cache] (Some sample_lookup) None.
Definition by_type : Selector := {| sel_type := "qtype"; sel_value := "AAAA"; sel_key := None; sel_key_from := None |}.
Definition by_cache (name : string) : Selector := {| sel_type := "cache_instance"; sel_value := name; sel_key := None; sel_key_from := None |}.

Abbreviation sample_validate :=
  (validate sample_sock no_addr no_addr no_ip no_float to_ascii_lowercase any_path all_entries no_metric_errors).
Abbreviation sample_scripts :=
  (compile_scripts sample_net no_ip sample_disk (Some "/etc/conduit") any_script any_metrics).
Abbreviation sample_try :=
  (try_from_config_with_base sample_net no_ip sample_sock no_addr no_addr no_float to_ascii_lowercase any_path all_entries
     sample_disk (Some "/etc/conduit") any_script any_metrics).

Definition sample_scripting : CompiledScripting := {|
  sc_scripts := [{| cs_path := "/etc/conduit/a.rhai"; cs_rule_name := "r"; cs_hook := RequestPhase |}];
  sc_index := {[ ("r", "/etc/conduit/a.rhai") := 0%nat ]}; sc_data_sources := store_default; sc_limits := script_limits None;
  sc_rules_scripts := [{| sr_rule_name := "r"; sr_hook := RequestPhase; sr_path := "a.rhai"; sr_script_id := 0%nat |};
                       {| sr_rule_name := "r"; sr_hook := RequestPhase; sr_path := "a.rhai"; sr_script_id := 0%nat |}] |}.

Lemma validated_config_installs_witness :
  exists snap, sample_try (sample_config by_type) = Some (Ok snap) /\ rt_scripting snap = sample_scripting.
Proof.
  destruct (validated_config_installs sample_net no_ip sample_sock no_addr no_addr no_float to_ascii_lowercase any_path all_entries
    sample_disk (Some "/etc/conduit") any_script any_metrics no_metric_errors (sample_config by_type) sample_scripting)
    as (snap & Ht & Hs & _ & _); [vm_compute; reflexivity|vm_compute; reflexivity| |exists snap; split; [exact Ht|exact Hs]].
  intros rs E. injection E as <-. apply Forall_cons. split; [|apply Forall_nil_2]. apply Forall_cons. split; [|apply Forall_nil_2].
  intros [E|E]; discriminate E.
Defined.

(** A rule whose [cache_instance] selector has a blank value passes validation, and
    compiling it panics. *)
Theorem blank_selector_panics :
  sample_validate (sample_config (by_cache "")) = [] /\ sample_try (sample_config (by_cache "")) = None.
Proof. split; vm_compute; reflexivity. Qed.

Lemma validated_file_ok_witness : file_ok (sample_config by_type).
Proof.
  apply (validated_file_ok sample_sock no_addr no_addr no_ip no_float to_ascii_lowercase any_path all_entries no_metric_errors);
    [vm_compute; reflexivity|].
  split; [|apply NoDup_nil; exact I]. apply Forall_cons. split; [|apply Forall_nil_2].
  split_and!; [reflexivity|apply NoDup_singleton|apply Forall_cons; split; [reflexivity|apply Forall_nil_2]].
Defined.

(** Two backends with the same address and no name pass validation. Removing one of them
    is then reported as done, and changes nothing. *)
Definition twice_config : Config :=
  (sample_config by_type) <| pools := [sample_pool_cfg <| po_backends := [Backend_default <| be_address := "192.0.2.1:53" |>;
                                                                          Backend_default <| be_address := "192.0.2.1:53" |>] |>] |>.
Theorem duplicate_address_not_removed :
  sample_validate twice_config = [] /\
  (let! r := apply_primitive_proposal {| ef_file := twice_config; ef_overlay := None |} (RemoveBackend "main" "192.0.2.1:53") in
   let! eff := result_ok r in let! cfg := effective eff in
   Some ((fun p => be_address <$> po_backends p) <$> pools cfg)) = Some [["192.0.2.1:53"; "192.0.2.1:53"]].
Proof. split; vm_compute; reflexivity. Qed.
