(* ===== verification/Extra.v ===== *)
(** * Extra: what an exported event says about its transaction

    conduit-events/src/view.rs and extra.rs with the builders of
    conduit-core/src/event_emit.rs: the view of a transaction that workers hand to the
    event hub, and the JSON object that a sink adds to its dnstap frames. The writer of
    the code appends to a string; the theorems read its output back with a reader of
    JSON values. Strings are UTF-8 bytes, so the control characters above U+007F are
    the byte pairs C2 80 to C2 9F. *)

From stdpp Require Import base gmap list strings.
From Stdlib Require Import ZArith Lia Ascii.
From S2P Require Import Prelude Text DnsWire Transaction Selectors Validate.

#[local] Open Scope list_scope.
#[local] Open Scope string_scope.
#[local] Open Scope Z_scope.

(** ** The view of a transaction *)

Record TxnExtraSource := {
  xs_pool : option string; xs_backend : option string; xs_attempt_count : Z; xs_txn_id : Z; xs_qname : option string;
  xs_rcode_label : option string; xs_client : string; xs_answer_source : option string; xs_cache_instance : option string;
  xs_tag_bools : list (string * bool); xs_tag_strings : list (string * string);
}.

Record TxnView := {
  tv_txn_id : Z; tv_global_query_index : Z; tv_client_addr : SocketAddr; tv_protocol_udp : bool; tv_qname : option string;
  tv_qtype : option Z; tv_rcode : option Z; tv_qclass : option Z; tv_opcode : option Z; tv_edns_option_codes : list Z;
  tv_qtype_label : option string; tv_query_wire : list Z; tv_response_wire : option (list Z); tv_attempt_count : Z;
  tv_answer_source : option string; tv_cache_instance : option string; tv_extra : TxnExtraSource;
}.

(** The order in which [TagSet::export_all_tags] lists a tag set is that of two hash
    maps: [iter_bools] and [iter_strings]. *)
Section View.
Context (show_addr : SocketAddr -> string).
Context (iter_bools : gmap string bool -> list (string * bool)) (iter_strings : gmap string string -> list (string * string)).

Definition export_all_tags (t : TagSet) : list (string * bool) * list (string * string) :=
  (iter_bools (flags t), iter_strings (strings t)).

Definition extra_source (t : Transaction) (include_tags : bool) : TxnExtraSource :=
  let exported := if include_tags then export_all_tags (tags t) else ([], []) in
  {| xs_pool := selected_pool t; xs_backend := selected_backend_display show_addr t; xs_attempt_count := attempt_count t;
     xs_txn_id := id t; xs_qname := qname t; xs_rcode_label := rcode_label t; xs_client := show_addr (client_addr t);
     xs_answer_source := source_as_str <$> answer_source t; xs_cache_instance := cache_instance t;
     xs_tag_bools := exported.1; xs_tag_strings := exported.2 |}.

(** [needs_tags]: some sink of the snapshot exports tags. *)
Definition txn_view (t : Transaction) (needs_tags : bool) : TxnView := {|
  tv_txn_id := id t; tv_global_query_index := global_query_index t; tv_client_addr := client_addr t;
  tv_protocol_udp := bool_decide (protocol t = Udp); tv_qname := qname t; tv_qtype := qtype t; tv_rcode := rcode t;
  tv_qclass := qclass t; tv_opcode := opcode t; tv_edns_option_codes := edns_option_codes t; tv_qtype_label := qtype_label t;
  tv_query_wire := query_wire t; tv_response_wire := response_wire t; tv_attempt_count := attempt_count t;
  tv_answer_source := source_as_str <$> answer_source t; tv_cache_instance := cache_instance t;
  tv_extra := extra_source t needs_tags |}.
End View.

(** ** Writing JSON *)

Definition chr (n : Z) : ascii := ascii_of_N (Z.to_N n).
Definition quote : string := String (chr 34) "".

Definition hex_char (d : Z) : ascii := chr (if d <? 10 then 48 + d else 87 + d).
(** [{:04x}] of a code point below 256. *)
Definition hex4 (n : Z) : string := String "0" (String "0" (String (hex_char (n / 16)) (String (hex_char (n mod 16)) ""))).

Fixpoint json_escape (s : string) : string :=
  match s with
  | "" => ""
  | String c s' =>
      let b := byte_of c in
      if b =? 34 then "\" ++ quote ++ json_escape s'
      else if b =? 92 then "\\" ++ json_escape s'
      else if b =? 10 then "\n" ++ json_escape s'
      else if b =? 13 then "\r" ++ json_escape s'
      else if b =? 9 then "\t" ++ json_escape s'
      else if (b <? 32) || (b =? 127) then "\u" ++ hex4 b ++ json_escape s'
      else
        match s' with
        | String d s'' =>
            if (b =? 194) && in_range 128 159 d then "\u" ++ hex4 (byte_of d) ++ json_escape s''
            else String c (json_escape s')
        | "" => String c (json_escape s')
        end
  end.

Definition quoted (s : string) : string := quote ++ json_escape s ++ quote.

(** The string written so far, and whether the next field is the first one. *)
Abbreviation Writer := (string * bool)%type.
Definition writer_new : Writer := ("{", true).
Definition append_field (w : Writer) (key value : string) : Writer :=
  let out := if w.2 then w.1 else w.1 ++ "," in
  (out ++ quoted key ++ ":" ++ value, false).
Definition append_opt (w : Writer) (key : string) (value : option string) : Writer :=
  match value with Some v => append_field w key v | None => w end.

Definition find_tag {A} (k : string) (l : list (string * A)) : option (string * A) := find (fun kv => String.eqb kv.1 k) l.

Definition build_tags_json (source : TxnExtraSource) (mode : TagExportMode) : option string :=
  let w :=
    match mode with
    | TagAll =>
        let w := foldl (fun w kv => if kv.2 : bool then append_field w kv.1 "true" else w) writer_new (xs_tag_bools source) in
        foldl (fun w kv => append_field w kv.1 (quoted kv.2)) w (xs_tag_strings source)
    | TagKeys keys =>
        foldl (fun w key =>
          match find_tag key (xs_tag_bools source) with
          | Some kv => if kv.2 then append_field w key "true" else w
          | None => append_opt w key ((fun kv => quoted kv.2) <$> find_tag key (xs_tag_strings source))
          end) writer_new keys
    end in
  if w.2 then None else Some (w.1 ++ "}").

Definition append_extra (name : string) (mode : TagExportMode) (source : TxnExtraSource) (w : Writer) (field : string) : Writer :=
  if String.eqb field "pool" then append_opt w "pool" (quoted <$> xs_pool source)
  else if String.eqb field "backend" then append_opt w "backend" (quoted <$> xs_backend source)
  else if String.eqb field "attempt_count" then append_field w "attempt_count" (dec (xs_attempt_count source))
  else if String.eqb field "txn_id" then append_field w "txn_id" (dec (xs_txn_id source))
  else if String.eqb field "qname" then append_opt w "qname" (quoted <$> xs_qname source)
  else if String.eqb field "rcode" then append_opt w "rcode" (quoted <$> xs_rcode_label source)
  else if String.eqb field "answer_source" then append_opt w "answer_source" (quoted <$> xs_answer_source source)
  else if String.eqb field "cache_instance" then append_opt w "cache_instance" (quoted <$> xs_cache_instance source)
  else if String.eqb field "client" then append_field w "client" (quoted (xs_client source))
  else if String.eqb field "tags" then append_opt w "tags" (build_tags_json source mode)
  else if String.eqb field "sink_name" then append_field w "sink_name" (quoted name)
  else w.

(** [name], [fields] and [mode] are those of the sink. *)
Definition build_extra_json (name : string) (fields : list string) (mode : TagExportMode) (source : TxnExtraSource) : option string :=
  if bool_decide (fields = []) then None
  else Some ((foldl (append_extra name mode source) writer_new fields).1 ++ "}").

(** ** Reading JSON *)

#[warnings="-register-all"]
Inductive JVal := JTrue | JNum (n : Z) | JStr (s : string) | JObj (ms : list (string * JVal)).

Definition hex_digit (c : ascii) : option Z :=
  let b := byte_of c in
  if in_range 48 57 c then Some (b - 48) else if in_range 97 102 c then Some (b - 87)
  else if in_range 65 70 c then Some (b - 55) else None.
(** The UTF-8 bytes of a code point below U+0800. *)
Definition utf8 (n : Z) : option string :=
  if n <? 128 then Some (String (chr n) "")
  else if n <? 2048 then Some (String (chr (192 + n / 64)) (String (chr (128 + n mod 64)) "")) else None.
(** What the character after a backslash stands for. *)
Definition unescape (c : ascii) : option string :=
  if Ascii.eqb c (chr 34) then Some quote else if Ascii.eqb c "\" then Some "\" else if Ascii.eqb c "/" then Some "/"
  else if Ascii.eqb c "b" then Some (String (chr 8) "") else if Ascii.eqb c "f" then Some (String (chr 12) "")
  else if Ascii.eqb c "n" then Some (String (chr 10) "") else if Ascii.eqb c "r" then Some (String (chr 13) "")
  else if Ascii.eqb c "t" then Some (String (chr 9) "") else None.

(** The characters of a string literal up to its closing quote, and what follows. *)
Fixpoint read_string (s : string) : option (string * string) :=
  match s with
  | "" => None
  | String c s' =>
      if Ascii.eqb c (chr 34) then Some ("", s')
      else if Ascii.eqb c "\" then
        match s' with
        | String "u" (String h1 (String h2 (String h3 (String h4 r)))) =>
            let! a := hex_digit h1 in let! b := hex_digit h2 in let! x := hex_digit h3 in let! y := hex_digit h4 in
            let! u := utf8 (((a * 16 + b) * 16 + x) * 16 + y) in
            let! k := read_string r in Some (u ++ k.1, k.2)
        | String e r => let! u := unescape e in let! k := read_string r in Some (u ++ k.1, k.2)
        | "" => None
        end
      else if byte_of c <? 32 then None
      else let! k := read_string s' in Some (String c k.1, k.2)
  end.

Fixpoint span_digits (s : string) : string * string :=
  match s with
  | String c s' => if is_digit c then let k := span_digits s' in (String c k.1, k.2) else ("", s)
  | "" => ("", "")
  end.

Fixpoint read_value (fuel : nat) (s : string) : option (JVal * string) :=
  match fuel with
  | O => None
  | S fuel =>
      match strip_prefix quote s, strip_prefix "{" s, strip_prefix "true" s with
      | Some r, _, _ => let! k := read_string r in Some (JStr k.1, k.2)
      | _, Some r, _ =>
          match strip_prefix "}" r with
          | Some r => Some (JObj [], r)
          | None => let! k := read_members fuel r in Some (JObj k.1, k.2)
          end
      | _, _, Some r => Some (JTrue, r)
      | _, _, _ => let k := span_digits s in let! n := parse_uint u64_max k.1 in Some (JNum n, k.2)
      end
  end
with read_members (fuel : nat) (s : string) : option (list (string * JVal) * string) :=
  match fuel with
  | O => None
  | S fuel =>
      let! r := strip_prefix quote s in
      let! k := read_string r in
      let! r := strip_prefix ":" k.2 in
      let! v := read_value fuel r in
      match strip_prefix "," v.2 with
      | Some r => let! ms := read_members fuel r in Some ((k.1, v.1) :: ms.1, ms.2)
      | None => let! r := strip_prefix "}" v.2 in Some ([(k.1, v.1)], r)
      end
  end.

(** A whole document; every nesting level and member takes at least one character. *)
Definition read_json (s : string) : option JVal :=
  match read_value (S (String.length s)) s with Some (v, "") => Some v | _ => None end.

(** ** The members that a sink asks for *)

Definition tag_members (source : TxnExtraSource) (mode : TagExportMode) : list (string * JVal) :=
  match mode with
  | TagAll => (omap (fun kv => if kv.2 : bool then Some (kv.1, JTrue) else None) (xs_tag_bools source)
               ++ ((fun kv => (kv.1, JStr kv.2)) <$> xs_tag_strings source))%list
  | TagKeys keys =>
      omap (fun key =>
        match find_tag key (xs_tag_bools source) with
        | Some kv => if kv.2 then Some (key, JTrue) else None
        | None => (fun kv => (key, JStr kv.2)) <$> find_tag key (xs_tag_strings source)
        end) keys
  end.

Definition object_of (ms : list (string * JVal)) : option JVal := match ms with [] => None | _ => Some (JObj ms) end.

Definition extra_value (name : string) (mode : TagExportMode) (source : TxnExtraSource) (field : string) : option JVal :=
  if String.eqb field "pool" then JStr <$> xs_pool source
  else if String.eqb field "backend" then JStr <$> xs_backend source
  else if String.eqb field "attempt_count" then Some (JNum (xs_attempt_count source))
  else if String.eqb field "txn_id" then Some (JNum (xs_txn_id source))
  else if String.eqb field "qname" then JStr <$> xs_qname source
  else if String.eqb field "rcode" then JStr <$> xs_rcode_label source
  else if String.eqb field "answer_source" then JStr <$> xs_answer_source source
  else if String.eqb field "cache_instance" then JStr <$> xs_cache_instance source
  else if String.eqb field "client" then Some (JStr (xs_client source))
  else if String.eqb field "tags" then object_of (tag_members source mode)
  else if String.eqb field "sink_name" then Some (JStr name)
  else None.
Definition extra_members (name : string) (fields : list string) (mode : TagExportMode) (source : TxnExtraSource)
    : list (string * JVal) := omap (fun f => (fun v => (f, v)) <$> extra_value name mode source f) fields.

(** ** Round trips *)

(** The escape of one character on its own. *)
Definition esc1 (c : ascii) : string :=
  let b := byte_of c in
  if b =? 34 then "\" ++ quote else if b =? 92 then "\\" else if b =? 10 then "\n" else if b =? 13 then "\r"
  else if b =? 9 then "\t" else if (b <? 32) || (b =? 127) then "\u" ++ hex4 b else String c "".

Lemma read_esc1 c r : read_string (esc1 c ++ r) = let! k := read_string r in Some (String c k.1, k.2).
Proof. destruct c as [[] [] [] [] [] [] [] []]; reflexivity. Qed.

Lemma read_esc2 d r : in_range 128 159 d = true ->
  read_string ("\u" ++ hex4 (byte_of d) ++ r) = let! k := read_string r in Some (String (chr 194) (String d k.1), k.2).
Proof. destruct d as [[] [] [] [] [] [] [] []]; intros H; first [discriminate H|reflexivity]. Qed.

Lemma chr_byte c : chr (byte_of c) = c.
Proof. unfold chr, byte_of. by rewrite N2Z.id, ascii_N_embedding. Qed.

Lemma str_app_assoc (a b c : string) : (a ++ b) ++ c = a ++ b ++ c.
Proof. induction a as [|x a IH]; [done|exact (f_equal (String x) IH)]. Qed.

Lemma str_app_nil (a : string) : a ++ "" = a.
Proof. induction a as [|x a IH]; [done|exact (f_equal (String x) IH)]. Qed.

(** A character is escaped alone, or with its successor as a control character of two
    bytes. *)
Lemma json_escape_cases c s :
  json_escape (String c s) = esc1 c ++ json_escape s
  \/ exists d s', c = chr 194 /\ s = String d s' /\ in_range 128 159 d = true
      /\ json_escape (String c s) = "\u" ++ hex4 (byte_of d) ++ json_escape s'.
Proof.
  destruct (Z.eq_dec (byte_of c) 194) as [E|E]; [destruct s as [|d s']; [|destruct (in_range 128 159 d) eqn:R]|].
  - left. rewrite <-(chr_byte c), E. reflexivity.
  - right. exists d, s'. rewrite <-(chr_byte c), E. split_and!; try done.
    change (json_escape (String (chr 194) (String d s')))
      with (if in_range 128 159 d then "\u" ++ hex4 (byte_of d) ++ json_escape s' else String (chr 194) (json_escape (String d s'))).
    by rewrite R.
  - left. rewrite <-(chr_byte c), E.
    change (json_escape (String (chr 194) (String d s')))
      with (if in_range 128 159 d then "\u" ++ hex4 (byte_of d) ++ json_escape s' else String (chr 194) (json_escape (String d s'))).
    rewrite R. reflexivity.
  - left. apply Z.eqb_neq in E. simpl. unfold esc1. rewrite E. simpl.
    repeat case_match; simpl; by rewrite ?str_app_assoc.
Qed.

Lemma read_json_escape s rest : read_string (json_escape s ++ quote ++ rest) = Some (s, rest).
Proof.
  induction s as [s IH] using (induction_ltof1 _ String.length). destruct s as [|c s]; [reflexivity|].
  destruct (json_escape_cases c s) as [->|(d & s' & -> & -> & R & ->)].
  - rewrite str_app_assoc, read_esc1, IH by (unfold ltof; simpl; lia). reflexivity.
  - rewrite str_app_assoc, (str_app_assoc (hex4 _)), read_esc2, IH by first [done|unfold ltof; simpl; lia]. reflexivity.
Qed.

Fixpoint print (v : JVal) : string :=
  match v with
  | JTrue => "true"
  | JNum n => dec n
  | JStr s => quoted s
  | JObj ms => "{" ++ join "," ((fun m => quoted m.1 ++ ":" ++ print m.2) <$> ms) ++ "}"
  end.
Definition print_member (m : string * JVal) : string := quoted m.1 ++ ":" ++ print m.2.

Fixpoint vsize (v : JVal) : nat :=
  match v with JObj ms => S (sum_list ((fun m => S (vsize m.2)) <$> ms)) | _ => 1%nat end.
(** Numbers are of at most 64 bits. *)
Fixpoint in_u64 (v : JVal) : Prop :=
  match v with JNum n => fits 64 n | JObj ms => foldr and True ((fun m => in_u64 m.2) <$> ms) | _ => True end.

Definition no_digit (s : string) : Prop := forall c s', s = String c s' -> is_digit c = false.

Lemma span_digits_app ds rest : str_forall is_digit ds = true -> no_digit rest -> span_digits (ds ++ rest) = (ds, rest).
Proof.
  intros H Hr. induction ds as [|c ds IH]; simpl in *.
  - destruct rest as [|c rest]; [done|]. simpl. by rewrite (Hr c rest).
  - apply andb_prop in H as [Hc H]. by rewrite Hc, IH.
Qed.

Lemma dec_first n : 0 <= n -> exists c s, dec n = String c s /\ is_digit c = true.
Proof.
  intros H. pose proof (dec_digits n H) as D. unfold dec in *. destruct (dec_fuel_cons 19 n "") as (c & s & E). rewrite E in *.
  apply andb_prop in D as [D _]. eauto.
Qed.

Lemma digit_no_token c s : is_digit c = true ->
  strip_prefix quote (String c s) = None /\ strip_prefix "{" (String c s) = None /\ strip_prefix "true" (String c s) = None.
Proof. destruct c as [[] [] [] [] [] [] [] []]; intros H; first [discriminate H|done]. Qed.

Lemma read_num fuel n rest : fits 64 n -> no_digit rest -> read_value (S fuel) (dec n ++ rest) = Some (JNum n, rest).
Proof.
  intros Hn Hr. destruct (dec_first n) as (c & s & E & D); [by destruct Hn|].
  cbn [read_value]. rewrite span_digits_app by (done || (apply dec_digits; by destruct Hn)). cbn [fst snd].
  rewrite parse_uint_dec by (done || (destruct Hn; unfold u64_max in *; lia)).
  rewrite E. change (String c s ++ rest) with (String c (s ++ rest)). destruct (digit_no_token c (s ++ rest) D) as (-> & -> & ->). done.
Qed.

Lemma strip_prefix_cons c s : strip_prefix (String c "") (String c s) = Some s.
Proof. simpl. by rewrite Ascii.eqb_refl. Qed.

Lemma read_quoted s rest : exists r, strip_prefix quote (quoted s ++ rest) = Some r /\ read_string r = Some (s, rest).
Proof.
  exists (json_escape s ++ quote ++ rest). split; [|apply read_json_escape].
  unfold quoted. rewrite !str_app_assoc. apply strip_prefix_app.
Qed.

Lemma print_obj ms : print (JObj ms) = "{" ++ join "," (print_member <$> ms) ++ "}".
Proof. done. Qed.

Lemma vsize_pos v : (1 <= vsize v)%nat.
Proof. destruct v; simpl; lia. Qed.

Lemma comma_brace r : no_digit ("," ++ r) /\ no_digit ("}" ++ r).
Proof. by split; intros c s' [= <- _]. Qed.

Lemma join_members k v ms :
  join "," (print_member <$> (k, v) :: ms)
  = quoted k ++ ":" ++ print v ++ match ms with [] => "" | _ => "," ++ join "," (print_member <$> ms) end.
Proof.
  destruct ms as [|m ms].
  - rewrite str_app_nil. reflexivity.
  - change (join "," (print_member <$> (k, v) :: m :: ms))
      with ((quoted k ++ ":" ++ print v) ++ "," ++ join "," (print_member <$> m :: ms)).
    by rewrite !str_app_assoc.
Qed.

Definition msize (ms : list (string * JVal)) : nat := sum_list ((fun m => S (vsize m.2)) <$> ms).

(** Reading what was printed: of a value, and of the members of an object after its
    brace. *)
Lemma read_print fuel :
  (forall v rest, (vsize v <= fuel)%nat -> in_u64 v -> no_digit rest -> read_value fuel (print v ++ rest) = Some (v, rest))
  /\ (forall ms rest, (msize ms <= fuel)%nat -> ms <> [] -> foldr and True ((fun m => in_u64 m.2) <$> ms) ->
      read_members fuel (join "," (print_member <$> ms) ++ "}" ++ rest) = Some (ms, rest)).
Proof.
  induction fuel as [|fuel [IHv IHm]].
  { split; [intros v rest H; pose proof (vsize_pos v); lia|].
    intros [|m ms] rest H; [done|]. unfold msize in H. simpl in H. lia. }
  split.
  - intros [|n|s|ms] rest Hs Hn Hr; [reflexivity|by apply read_num| |].
    + destruct (read_quoted s rest) as (r & E1 & E2). cbn [read_value print]. by rewrite E1, E2.
    + destruct ms as [|m ms]; [reflexivity|]. rewrite print_obj, !str_app_assoc. cbn [read_value].
      change (strip_prefix quote ("{" ++ _)) with (@None string). rewrite strip_prefix_app.
      assert (strip_prefix "}" (join "," (print_member <$> m :: ms) ++ "}" ++ rest) = None) as ->.
      { destruct m as [k v]. rewrite join_members. unfold quoted. rewrite !str_app_assoc. reflexivity. }
      rewrite IHm; [done| |done|done]. simpl in Hs. unfold msize. simpl. lia.
  - intros [|[k v] ms] rest Hs Hne Hn; [done|]. cbn [read_members]. destruct Hn as [Hv Hn].
    assert (exists tail, join "," (print_member <$> (k, v) :: ms) ++ "}" ++ rest = quoted k ++ ":" ++ print v ++ tail
      /\ tail = match ms with [] => "}" ++ rest | _ => "," ++ join "," (print_member <$> ms) ++ "}" ++ rest end) as (tail & -> & Ht).
    { eexists. split; [|reflexivity]. rewrite join_members. destruct ms; by rewrite !str_app_assoc. }
    destruct (read_quoted k (":" ++ print v ++ tail)) as (r & -> & ->). cbn -[strip_prefix read_value read_members]. rewrite strip_prefix_app.
    unfold msize in Hs. simpl in Hs.
    destruct (comma_brace (join "," (print_member <$> ms) ++ "}" ++ rest)) as [Hc _]. destruct (comma_brace rest) as [_ Hb].
    rewrite IHv by (first [lia|done|subst tail; by destruct ms]). cbn -[strip_prefix read_members]. destruct ms as [|m ms]; subst tail.
    + reflexivity.
    + rewrite strip_prefix_app, IHm; [done| |done|done]. unfold msize. simpl in *. lia.
Qed.

Lemma str_length_app (a b : string) : String.length (a ++ b) = (String.length a + String.length b)%nat.
Proof. induction a as [|c a IH]; [done|]. exact (f_equal S IH). Qed.

Lemma print_long fuel :
  (forall v, (vsize v <= fuel)%nat -> in_u64 v -> (vsize v <= String.length (print v))%nat)
  /\ (forall ms, (msize ms <= fuel)%nat -> foldr and True ((fun m => in_u64 m.2) <$> ms) ->
      (msize ms <= String.length (join "," (print_member <$> ms)))%nat).
Proof.
  induction fuel as [|fuel [IHv IHm]].
  { split; [intros v H; pose proof (vsize_pos v); lia|]. intros [|m ms] H; unfold msize in *; simpl in *; lia. }
  split.
  - intros [|n|s|ms] Hs Hn; try (cbn; lia).
    + destruct (dec_first n) as (c & s & E & _); [by destruct Hn|]. cbn [print]. rewrite E. cbn. lia.
    + change (print (JStr s)) with (quote ++ (json_escape s ++ quote)). rewrite str_length_app. cbn [vsize quote String.length]. lia.
    + rewrite print_obj, !str_length_app. assert (vsize (JObj ms) = S (msize ms)) as E by done. rewrite E in *.
      specialize (IHm ms ltac:(lia) Hn). cbn [String.length]. lia.
  - intros [|[k v] ms] Hs Hn; [unfold msize; simpl; lia|]. destruct Hn as [Hv Hn]. rewrite join_members. unfold quoted.
    assert (msize ((k, v) :: ms) = S (vsize v + msize ms)) as E by done. rewrite E in *.
    rewrite !str_length_app. specialize (IHv v ltac:(lia) Hv). specialize (IHm ms ltac:(lia) Hn).
    destruct ms as [|m ms]; [unfold msize; simpl in *; lia|]. rewrite str_length_app. cbn [String.length quote] in *. lia.
Qed.

Lemma read_json_print v : in_u64 v -> read_json (print v) = Some v.
Proof.
  intros H. unfold read_json. destruct (print_long (vsize v)) as [L _]. specialize (L v ltac:(done) H).
  destruct (read_print (S (String.length (print v)))) as [R _].
  rewrite <-(str_app_nil (print v)) at 2. rewrite R; [done|lia|done|]. intros c s' [=].
Qed.

(** *** The writer of the code prints the members that were asked for *)

(** The writer after the members [ms]. *)
Definition wrote (ms : list (string * JVal)) : Writer := ("{" ++ join "," (print_member <$> ms), bool_decide (ms = [])).

Lemma join_snoc (ws : list string) w : ws <> [] -> join "," (ws ++ [w])%list = join "," ws ++ "," ++ w.
Proof.
  induction ws as [|x ws IH]; [done|]. intros _. destruct ws as [|y ws]; [done|].
  change (join "," ((x :: y :: ws) ++ [w])%list) with (x ++ "," ++ join "," ((y :: ws) ++ [w])%list).
  rewrite IH by done. change (join "," (x :: y :: ws)) with (x ++ "," ++ join "," (y :: ws)). by rewrite !str_app_assoc.
Qed.

Lemma append_wrote ms k v : append_field (wrote ms) k (print v) = wrote (ms ++ [(k, v)])%list.
Proof.
  unfold append_field, wrote. cbn [fst snd]. rewrite (bool_decide_eq_false_2 ((ms ++ [(k, v)])%list = [])) by (by destruct ms).
  f_equal. rewrite fmap_app. destruct ms as [|m ms].
  - rewrite bool_decide_eq_true_2 by done. by rewrite str_app_assoc.
  - rewrite bool_decide_eq_false_2 by done. cbn [fmap list_fmap]. rewrite join_snoc by done. by rewrite !str_app_assoc.
Qed.

Lemma fold_wrote {A} (step : Writer -> A -> Writer) (mem : A -> option (string * JVal)) l :
  (forall ms a, step (wrote ms) a = wrote (ms ++ option_list (mem a))%list) ->
  forall ms, foldl step (wrote ms) l = wrote (ms ++ omap mem l)%list.
Proof.
  intros H. induction l as [|a l IH]; intros ms; simpl; [by rewrite app_nil_r|]. rewrite H, IH, <-app_assoc. by destruct (mem a).
Qed.

Lemma wrote_nothing ms : wrote ms = wrote (ms ++ [])%list.
Proof. by rewrite app_nil_r. Qed.

Lemma tags_written source mode :
  build_tags_json source mode = print <$> object_of (tag_members source mode).
Proof.
  assert (forall ms, (let w := wrote ms in if w.2 then None else Some (w.1 ++ "}"))
    = print <$> object_of ms) as Hend.
  { intros [|m ms]; [done|]. unfold wrote. cbn [fst snd]. rewrite bool_decide_eq_false_2, str_app_assoc by done. done. }
  rewrite <-Hend. unfold build_tags_json. change writer_new with (wrote []). destruct mode as [|keys].
  - rewrite (fold_wrote _ (fun kv => if kv.2 : bool then Some (kv.1, JTrue) else None)).
    2:{ intros ms [k b]. simpl. destruct b; [apply (append_wrote ms k JTrue)|apply wrote_nothing]. }
    rewrite (fold_wrote _ (fun kv => Some (kv.1, JStr kv.2))).
    2:{ intros ms [k s]. apply (append_wrote ms k (JStr s)). }
    rewrite app_nil_l. reflexivity.
  - erewrite (fold_wrote _ (fun key => _)); [reflexivity|]. intros ms key. simpl.
    destruct (find_tag key (xs_tag_bools source)) as [[k []]|]; [apply (append_wrote ms key JTrue)|apply wrote_nothing|].
    destruct (find_tag key (xs_tag_strings source)) as [[k s]|]; [apply (append_wrote ms key (JStr s))|apply wrote_nothing].
Qed.

Lemma field_written name mode source ms f :
  append_extra name mode source (wrote ms) f = wrote (ms ++ option_list ((fun v => (f, v)) <$> extra_value name mode source f))%list.
Proof.
  assert (forall o : option string, append_opt (wrote ms) f (quoted <$> o) = wrote (ms ++ option_list ((fun v => (f, v)) <$> (JStr <$> o)))%list) as Ho.
  { intros [s|]; [apply (append_wrote ms f (JStr s))|apply wrote_nothing]. }
  unfold append_extra, extra_value.
  repeat match goal with |- context [String.eqb f ?s] => destruct (String.eqb_spec f s) as [<-|_] end;
    try apply Ho; try apply (append_wrote ms _ (JNum _)); try apply (append_wrote ms _ (JStr _)); try apply wrote_nothing.
  rewrite tags_written. destruct (tag_members source mode) as [|m l]; [apply wrote_nothing|apply (append_wrote ms f (JObj (m :: l)))].
Qed.

Lemma in_u64_members ms : Forall (fun m => in_u64 m.2) ms -> in_u64 (JObj ms).
Proof. induction 1; simpl; [done|by split]. Qed.

Lemma tags_in_u64 source mode : in_u64 (JObj (tag_members source mode)).
Proof.
  apply in_u64_members, Forall_forall. intros [k v]. unfold tag_members. destruct mode as [|keys].
  - rewrite elem_of_app, list_elem_of_omap, list_elem_of_fmap. intros [([? []] & _ & [= <- <-])|([? ?] & [= -> ->] & _)]; done.
  - rewrite list_elem_of_omap. intros (key & _ & E). simpl.
    destruct (find_tag key (xs_tag_bools source)) as [[? []]|]; [by injection E as <- <-|done|].
    destruct (find_tag key (xs_tag_strings source)) as [[? ?]|]; [by injection E as <- <-|done].
Qed.

Lemma value_in_u64 name mode source f v : fits 64 (xs_attempt_count source) -> fits 64 (xs_txn_id source) ->
  extra_value name mode source f = Some v -> in_u64 v.
Proof.
  intros Ha Ht. unfold extra_value.
  assert (forall o : option string, JStr <$> o = Some v -> in_u64 v) as Ho by (intros [s|] [= <-]; done).
  pose proof (tags_in_u64 source mode) as Htags.
  repeat match goal with |- context [String.eqb f ?s] => destruct (String.eqb f s) end; intros E; try discriminate E; eauto; try by injection E as <-.
  unfold object_of in E. destruct (tag_members source mode); [done|]. by injection E as <-.
Qed.


(** A source with a control character, a quote and both kinds of tag. *)
Definition sample_source : TxnExtraSource := {|
  xs_pool := Some (String (chr 194) (String (chr 133) ("p" ++ quote))); xs_backend := None; xs_attempt_count := 2; xs_txn_id := 7;
  xs_qname := Some "a\032b."; xs_rcode_label := None; xs_client := "192.0.2.1:53"; xs_answer_source := None; xs_cache_instance := None;
  xs_tag_bools := [("vip", true); ("off", false)]; xs_tag_strings := [("tenant", "x")] |}.


(** Finding: a tag whose flag was set to false and that has a string value is a tag of
    the transaction, is exported when all tags are, and is left out when it is named. *)
Theorem named_tag_hidden (show_addr : SocketAddr -> string) (t : Transaction) :
  tags t = set_bool (set_string TagSet_default "tenant" "x") "tenant" false ->
  let source := extra_source show_addr map_to_list map_to_list t true in
  has_tag (tags t) "tenant" = true
  /\ tag_members source TagAll = [("tenant", JStr "x")] /\ tag_members source (TagKeys ["tenant"]) = [].
Proof. intros E. unfold extra_source. rewrite E. by vm_compute. Qed.

(** Finding: a tag with both a flag and a string value is listed twice in the object of
    all tags. *)
Theorem tag_listed_twice (show_addr : SocketAddr -> string) (t : Transaction) :
  tags t = set_bool (set_string TagSet_default "tenant" "x") "tenant" true ->
  tag_members (extra_source show_addr map_to_list map_to_list t true) TagAll = [("tenant", JTrue); ("tenant", JStr "x")].
Proof. intros E. unfold extra_source. rewrite E. by vm_compute. Qed.
