(* ===== verification/Events.v ===== *)
(** * Events: the sinks that queries are reported to

    conduit-events: the compilation of sinks (compile.rs), the filters (filters.rs), the
    bounded queue of a sink (queue.rs) with its counters (metrics.rs), and the hub that
    fans an event out to the sinks (hub.rs), with the calls of the dataplane
    (conduit-core/src/event_emit.rs). The consumer threads are steps that take the
    oldest event of a queue; enqueueing is one step, as if a producer were not
    interrupted between its eviction and its second attempt to send. *)

From stdpp Require Import base gmap list strings.
From Stdlib Require Import ZArith Lia Ascii SpecFloat.
From S2P Require Import Prelude Text Floats DnsWire Transaction Selectors Config DataSources Messages Compile Validate Extra.

#[local] Open Scope string_scope.
#[local] Open Scope list_scope.
#[local] Open Scope Z_scope.

(** ** Compilation *)

Inductive Destination := DestUnix (path : string) | DestTcp (host : string) (port : Z).

(** [s.rsplit_once(c)]. *)
Fixpoint rsplit_once (c : ascii) (s : string) : option (string * string) :=
  match s with
  | "" => None
  | String d s' =>
      match rsplit_once c s' with
      | Some (a, b) => Some (String d a, b)
      | None => if Ascii.eqb d c then Some ("", s') else None
      end
  end.

Definition parse_destination (base_dir : option string) (s : string) : option Destination :=
  match strip_prefix "unix:" s with
  | Some path => if is_empty path then None else Some (DestUnix (resolve_config_path base_dir path))
  | None =>
      let! rest := strip_prefix "tcp:" s in
      let! hp := rsplit_once ":" rest in
      let! port := parse_uint u16_max hp.2 in
      if is_empty hp.1 then None else Some (DestTcp hp.1 port)
  end.

Record EmitFlags := { em_query : bool; em_response : bool; em_retry : bool }.
Definition normalize_emit (emit : list string) : EmitFlags :=
  let q := contains emit "query" in
  let r := contains emit "response" in
  let y := contains emit "retry" in
  if negb q && negb r && negb y then {| em_query := true; em_response := true; em_retry := false |}
  else {| em_query := q; em_response := r; em_retry := y |}.

Record CompiledSinkFilters := {
  sf_selectors : list CompiledSelector; sf_tag_required : option string; sf_sample_percent : f64; sf_sample_key : SampleKey;
  sf_pool : option string; sf_backend : option string;
}.
Definition filters_default : CompiledSinkFilters := {|
  sf_selectors := []; sf_tag_required := None; sf_sample_percent := f64_of_Z 100; sf_sample_key := SampleGlobal;
  sf_pool := None; sf_backend := None |}.

Record CompiledSinkInstance := {
  si_emit : EmitFlags; si_filters : CompiledSinkFilters; si_name : string; si_export_id : string;
  si_connect_retry : ConnectRetry; si_destinations : list Destination; si_extra_fields : list string; si_tag_export : TagExportMode;
}.

Inductive DropPolicy := DropOldest | DropNewest.
Definition parse_drop_policy (s : string) : option DropPolicy :=
  if String.eqb s "drop_oldest" then Some DropOldest else if String.eqb s "drop_newest" then Some DropNewest else None.

Record CompiledEvents := {
  ce_enabled : bool; ce_queue_depth : Z; ce_drop_policy : DropPolicy; ce_sinks : list CompiledSinkInstance;
  ce_name_to_export_id : gmap string string; ce_export_id_to_name : gmap string string;
}.

Definition needs_tag_export (e : CompiledEvents) : bool := existsb (fun s => contains (si_extra_fields s) "tags") (ce_sinks e).
Definition export_id_for_name (e : CompiledEvents) (name : string) : option string := ce_name_to_export_id e !! name.
Definition name_for_export_id (e : CompiledEvents) (export_id : string) : option string := ce_export_id_to_name e !! export_id.
Definition sink_by_name (e : CompiledEvents) (name : string) : option CompiledSinkInstance :=
  find (fun s => String.eqb (si_name s) name) (ce_sinks e).

Section Compile.
Context (parse_f64 : string -> option f64) (base_dir : option string).

(** Errors are dropped by the caller. *)
Definition parse_sink_filters (f : option EventSinkFilters) (sink_name : string) : option CompiledSinkFilters :=
  match f with
  | None => Some filters_default
  | Some f =>
      let ctx := {| cc_rule_name := None; cc_sink_name := Some sink_name |} in
      let! _v := mapM (fun sel => result_ok (validate_non_rule_selector_type (sel_type sel))) (fi_selectors f) in
      if set_but_empty (fi_pool f) || set_but_empty (fi_backend f) then None
      else
        let! key := result_ok (compile_sample_key_fields (fi_sample_key f) (fi_sample_key_from f) ctx false true) in
        let! sels := mapM (fun sel => result_ok (selector_compile parse_f64 sel ctx)) (fi_selectors f) in
        let! percent := result_ok (parse_sink_sample_percent (fi_sample_percent f)) in
        Some {| sf_selectors := sels; sf_tag_required := Config.nonempty (fi_tag_required f); sf_sample_percent := percent;
                sf_sample_key := key; sf_pool := Config.nonempty (fi_pool f); sf_backend := Config.nonempty (fi_backend f) |}
  end.

Definition compile_one_sink (s : EventSink) : option CompiledSinkInstance :=
  if negb (String.eqb (es_type s) "dnstap") || bool_decide (es_destinations s = []) then None
  else
    let! identity := result_ok (resolve_sink_identity s) in
    let destinations := omap (parse_destination base_dir) (es_destinations s) in
    if bool_decide (destinations = []) then None
    else
      let! filters := parse_sink_filters (es_filters s) (id_name identity) in
      let! extra := result_ok (parse_extra_fields (es_extra_fields s)) in
      let! tags := result_ok (parse_extra_tags (es_extra_tags s) (contains extra "tags")) in
      let! retry := result_ok (parse_connect_retry s) in
      Some {| si_emit := normalize_emit (es_emit s); si_filters := filters; si_name := id_name identity;
              si_export_id := id_export_id identity; si_connect_retry := retry; si_destinations := destinations;
              si_extra_fields := extra; si_tag_export := tags |}.

Definition compile_sinks (o : EventsConfig) : list CompiledSinkInstance := omap compile_one_sink (ev_sinks o).

Definition compile_events (cfg : Config) : CompiledEvents :=
  let '(queue_depth, drop_policy, sinks) :=
    match events cfg with
    | Some o => (nz (ev_queue_depth o) 8192, default DropOldest (parse_drop_policy (ev_drop_policy o)), compile_sinks o)
    | None => (8192, DropOldest, [])
    end in
  {| ce_enabled := negb (bool_decide (sinks = [])); ce_queue_depth := queue_depth; ce_drop_policy := drop_policy; ce_sinks := sinks;
     ce_name_to_export_id := foldl (fun m s => <[si_name s := si_export_id s]> m) ∅ sinks;
     ce_export_id_to_name := foldl (fun m s => <[si_export_id s := si_name s]> m) ∅ sinks |}.
End Compile.

(** ** Events and queues *)

Inductive EventKind := EvQuery | EvResponse | EvRetry.
#[global] Instance EventKind_eq : EqDecision EventKind. Proof. solve_decision. Defined.

Record ExportEvent := {
  ee_kind : EventKind; ee_txn_id : Z; ee_client_addr : SocketAddr; ee_protocol_udp : bool; ee_wire : list Z; ee_attempt_count : Z;
  ee_extra : option string;
}.

Record SinkQueue := { sq_items : list ExportEvent; sq_capacity : Z; sq_policy : DropPolicy }.
Definition queue_new (capacity : Z) (policy : DropPolicy) : SinkQueue :=
  {| sq_items := []; sq_capacity := capacity; sq_policy := policy |}.

(** [try_send]: [None] when the channel is full. *)
Definition try_send (q : SinkQueue) (e : ExportEvent) : option SinkQueue :=
  if zlen (sq_items q) <? sq_capacity q
  then Some {| sq_items := push (sq_items q) e; sq_capacity := sq_capacity q; sq_policy := sq_policy q |} else None.
Definition try_recv (q : SinkQueue) : option ExportEvent * SinkQueue :=
  match sq_items q with
  | [] => (None, q)
  | e :: items => (Some e, {| sq_items := items; sq_capacity := sq_capacity q; sq_policy := sq_policy q |})
  end.

(** The boolean: whether an event was dropped. The queue holds a receiver of its own,
    so the channel is never disconnected. *)
Definition try_enqueue (q : SinkQueue) (e : ExportEvent) : SinkQueue * bool :=
  match try_send q e with
  | Some q => (q, false)
  | None =>
      match sq_policy q with
      | DropNewest => (q, true)
      | DropOldest => let q := (try_recv q).2 in (default q (try_send q e), true)
      end
  end.

Record SinkMetrics := {
  sm_name : string; sm_enqueued_query : Z; sm_enqueued_response : Z; sm_enqueued_retry : Z; sm_queue_dropped : Z; sm_delivered : Z;
  sm_write_failed : Z; sm_encode_failed : Z; sm_connect_attempts : Z; sm_connected : bool;
}.
Definition metrics_new (name : string) : SinkMetrics := {|
  sm_name := name; sm_enqueued_query := 0; sm_enqueued_response := 0; sm_enqueued_retry := 0; sm_queue_dropped := 0; sm_delivered := 0;
  sm_write_failed := 0; sm_encode_failed := 0; sm_connect_attempts := 0; sm_connected := false |}.

Ltac sink_setter :=
  setter Build_SinkMetrics (sm_name, sm_enqueued_query, sm_enqueued_response, sm_enqueued_retry, sm_queue_dropped, sm_delivered,
    sm_write_failed, sm_encode_failed, sm_connect_attempts, sm_connected).
#[export] Instance set_sm_enqueued_query : Setter sm_enqueued_query := ltac:(sink_setter).
#[export] Instance set_sm_enqueued_response : Setter sm_enqueued_response := ltac:(sink_setter).
#[export] Instance set_sm_enqueued_retry : Setter sm_enqueued_retry := ltac:(sink_setter).
#[export] Instance set_sm_queue_dropped : Setter sm_queue_dropped := ltac:(sink_setter).
#[export] Instance set_sm_delivered : Setter sm_delivered := ltac:(sink_setter).
#[export] Instance set_sm_write_failed : Setter sm_write_failed := ltac:(sink_setter).
#[export] Instance set_sm_encode_failed : Setter sm_encode_failed := ltac:(sink_setter).
#[export] Instance set_sm_connect_attempts : Setter sm_connect_attempts := ltac:(sink_setter).
#[export] Instance set_sm_connected : Setter sm_connected := ltac:(sink_setter).

Definition record_enqueued (m : SinkMetrics) (kind : EventKind) : SinkMetrics :=
  match kind with
  | EvQuery => m <| sm_enqueued_query := wrap 64 (sm_enqueued_query m + 1) |>
  | EvResponse => m <| sm_enqueued_response := wrap 64 (sm_enqueued_response m + 1) |>
  | EvRetry => m <| sm_enqueued_retry := wrap 64 (sm_enqueued_retry m + 1) |>
  end.
Definition record_queue_dropped (m : SinkMetrics) : SinkMetrics := m <| sm_queue_dropped := wrap 64 (sm_queue_dropped m + 1) |>.

(** ** The hub *)

(** [metrics] is shared with the consumer thread; [queues] always holds one queue. *)
Record SinkRuntime := { sr_metrics : SinkMetrics; sr_queue : SinkQueue }.
Record EventHub := { eh_enabled : bool; eh_drops : Z; eh_sinks : list SinkRuntime }.

Definition hub_disabled : EventHub := {| eh_enabled := false; eh_drops := 0; eh_sinks := [] |}.
Definition from_compiled (compiled : CompiledEvents) : EventHub :=
  if negb (ce_enabled compiled) then hub_disabled
  else {| eh_enabled := true; eh_drops := 0;
          eh_sinks := (fun s => {| sr_metrics := metrics_new (si_name s);
                                   sr_queue := queue_new (ce_queue_depth compiled) (ce_drop_policy compiled) |}) <$> ce_sinks compiled |}.

Section Hub.
Context (siphash : Z -> string -> Z) (show_addr : SocketAddr -> string).
Context (iter_bools : gmap string bool -> list (string * bool)) (iter_strings : gmap string string -> list (string * string)).

Definition selector_ctx (view : TxnView) (tag_has : string -> bool) : SelectorMatchCtx := {|
  cx_txn_id := tv_txn_id view; cx_global_query_index := tv_global_query_index view; cx_qname := tv_qname view;
  cx_qtype := tv_qtype view; cx_rcode := tv_rcode view; cx_qclass := tv_qclass view; cx_opcode := tv_opcode view;
  cx_edns_option_codes := tv_edns_option_codes view; cx_answer_source := tv_answer_source view;
  cx_cache_instance := tv_cache_instance view; cx_tag_has := tag_has; cx_client_cidr_match := None |}.

Definition sink_event_matches (f : CompiledSinkFilters) (kind : EventKind) (view : TxnView) (tag_has : string -> bool) : bool :=
  if match sf_tag_required f with Some key => negb (tag_has key) | None => false end then false
  else if negb (bool_decide (sf_selectors f = []))
          && negb (forallb (fun s => matches_ctx siphash s (selector_ctx view tag_has)) (sf_selectors f)) then false
  else if negb (bool_decide (kind = EvQuery))
          && match sf_pool f with Some pool => negb (bool_decide (xs_pool (tv_extra view) = Some pool)) | None => false end then false
  else if negb (bool_decide (kind = EvQuery))
          && match sf_backend f with Some b => negb (bool_decide (xs_backend (tv_extra view) = Some b)) | None => false end then false
  else
    let salt := resolve_sample_key (sf_sample_key f) (selector_ctx view tag_has) in
    hash_sample_keyed siphash (tv_txn_id view) (f64_div (sf_sample_percent f) (f64_of_Z 100)) salt.

Definition emit_allowed (instance : CompiledSinkInstance) (kind : EventKind) : bool :=
  match kind with
  | EvQuery => em_query (si_emit instance)
  | EvResponse => em_response (si_emit instance)
  | EvRetry => em_retry (si_emit instance)
  end.

(** The event for one sink, if it takes it. *)
Definition event_for (view : TxnView) (tag_has : string -> bool) (kind : EventKind) (wire : list Z) (instance : CompiledSinkInstance)
    : option ExportEvent :=
  if negb (emit_allowed instance kind) then None
  else if negb (sink_event_matches (si_filters instance) kind view tag_has) then None
  else Some {| ee_kind := kind; ee_txn_id := tv_txn_id view; ee_client_addr := tv_client_addr view;
               ee_protocol_udp := tv_protocol_udp view; ee_wire := wire; ee_attempt_count := tv_attempt_count view;
               ee_extra := build_extra_json (si_name instance) (si_extra_fields instance) (si_tag_export instance) (tv_extra view) |}.

(** One turn of the loop: the sink runtime, and whether an event was dropped. *)
Definition offer (rt : SinkRuntime) (e : ExportEvent) : SinkRuntime * bool :=
  let '(q, dropped) := try_enqueue (sr_queue rt) e in
  ({| sr_metrics := if dropped : bool then record_queue_dropped (sr_metrics rt) else record_enqueued (sr_metrics rt) (ee_kind e);
      sr_queue := q |}, dropped).

(** The loop of [try_enqueue_kind] from the sink with index [idx]: the runtimes of the
    hub are matched with the compiled sinks by index. *)
Fixpoint enqueue_from (event : nat -> option ExportEvent) (idx : nat) (rts : list SinkRuntime) (drops : Z) : list SinkRuntime * Z :=
  match rts with
  | [] => ([], drops)
  | rt :: rts =>
      let '(rt, drops) :=
        match event idx with
        | None => (rt, drops)
        | Some e => let '(rt, dropped) := offer rt e in (rt, if dropped : bool then wrap 64 (drops + 1) else drops)
        end in
      let '(rts, drops) := enqueue_from event (S idx) rts drops in (rt :: rts, drops)
  end.

Definition try_enqueue_kind (hub : EventHub) (view : TxnView) (compiled : CompiledEvents) (tag_has : string -> bool) (kind : EventKind)
    (wire : list Z) : EventHub :=
  let '(sinks, drops) :=
    enqueue_from (fun idx => let! instance := ce_sinks compiled !! idx in event_for view tag_has kind wire instance) 0
      (eh_sinks hub) (eh_drops hub) in
  {| eh_enabled := eh_enabled hub; eh_drops := drops; eh_sinks := sinks |}.

Definition try_enqueue_query (hub : EventHub) (view : TxnView) (compiled : CompiledEvents) (tag_has : string -> bool) : EventHub :=
  if negb (eh_enabled hub) || negb (is_someb (tv_qname view)) || bool_decide (tv_query_wire view = []) then hub
  else try_enqueue_kind hub view compiled tag_has EvQuery (tv_query_wire view).
Definition try_enqueue_response (hub : EventHub) (view : TxnView) (compiled : CompiledEvents) (tag_has : string -> bool) : EventHub :=
  match tv_response_wire view with
  | None => hub
  | Some wire =>
      if negb (eh_enabled hub) || bool_decide (wire = []) then hub else try_enqueue_kind hub view compiled tag_has EvResponse wire
  end.
Definition try_enqueue_retry (hub : EventHub) (view : TxnView) (compiled : CompiledEvents) (tag_has : string -> bool) : EventHub :=
  if negb (eh_enabled hub) || (tv_attempt_count view <=? 1) then hub
  else try_enqueue_kind hub view compiled tag_has EvRetry (tv_query_wire view).

(** [event_emit.rs]: [snapshot] stands for the events of the worker's snapshot. *)
Definition emit (kind : EventKind) (hub : EventHub) (t : Transaction) (snapshot : CompiledEvents) : EventHub :=
  if negb (eh_enabled hub) then hub
  else
    let view := txn_view show_addr iter_bools iter_strings t (needs_tag_export snapshot) in
    match kind with
    | EvQuery => try_enqueue_query hub view snapshot (has_tag (tags t))
    | EvResponse => try_enqueue_response hub view snapshot (has_tag (tags t))
    | EvRetry => try_enqueue_retry hub view snapshot (has_tag (tags t))
    end.

(** ** Histories *)

(** What happens to a hub: workers report transactions, each under the snapshot it
    runs with, and the consumer of a sink takes the next event. *)
Inductive HubOp := OpEmit (kind : EventKind) (t : Transaction) (snapshot : CompiledEvents) | OpRecv (sink : nat).

Definition hub_step (hub : EventHub) (op : HubOp) : EventHub * option (nat * ExportEvent) :=
  match op with
  | OpEmit kind t snapshot => (emit kind hub t snapshot, None)
  | OpRecv i =>
      match eh_sinks hub !! i with
      | None => (hub, None)
      | Some rt =>
          let '(e, q) := try_recv (sr_queue rt) in
          ({| eh_enabled := eh_enabled hub; eh_drops := eh_drops hub;
              eh_sinks := <[i := {| sr_metrics := sr_metrics rt; sr_queue := q |}]> (eh_sinks hub) |}, (fun e => (i, e)) <$> e)
      end
  end.
Fixpoint hub_run (hub : EventHub) (ops : list HubOp) : EventHub * list (nat * ExportEvent) :=
  match ops with
  | [] => (hub, [])
  | op :: ops =>
      let '(hub, r) := hub_step hub op in
      let '(hub, rs) := hub_run hub ops in (hub, option_list r ++ rs)
  end.

(** The wire bytes that an event of a kind carries; [None] when it is not reported. *)
Definition reported_wire (kind : EventKind) (t : Transaction) : option (list Z) :=
  match kind with
  | EvQuery => if is_someb (qname t) && negb (bool_decide (query_wire t = [])) then Some (query_wire t) else None
  | EvResponse => let! w := response_wire t in if bool_decide (w = []) then None else Some w
  | EvRetry => if 1 <? attempt_count t then Some (query_wire t) else None
  end.

(** The event that an operation makes for sink [i]. *)
Definition offered (i : nat) (op : HubOp) : option ExportEvent :=
  match op with
  | OpRecv _ => None
  | OpEmit kind t snapshot =>
      let! wire := reported_wire kind t in
      let! instance := ce_sinks snapshot !! i in
      event_for (txn_view show_addr iter_bools iter_strings t (needs_tag_export snapshot)) (has_tag (tags t)) kind wire instance
  end.
Definition received (i : nat) (rs : list (nat * ExportEvent)) : list ExportEvent :=
  omap (fun r => if Nat.eqb r.1 i then Some r.2 else None) rs.
End Hub.

(** ** Accounting *)

(** Everything that was offered to a sink is counted once. *)
Definition counted (m : SinkMetrics) : Z :=
  sm_enqueued_query m + sm_enqueued_response m + sm_enqueued_retry m + sm_queue_dropped m.

(** What a sink's queue and counters say of the events that were offered to it and
    those that its consumer took. *)
Record sink_accounts (cap : Z) (policy : DropPolicy) (rt : SinkRuntime) (off rec : list ExportEvent) : Prop := {
  sa_queue : sq_capacity (sr_queue rt) = cap /\ sq_policy (sr_queue rt) = policy;
  sa_bounded : zlen (sq_items (sr_queue rt)) <= cap;
  sa_order : (rec ++ sq_items (sr_queue rt)) `sublist_of` off;
  sa_latest : policy = DropOldest -> sq_items (sr_queue rt) `suffix_of` off;
  sa_dropped : sm_queue_dropped (sr_metrics rt) = wrap 64 (zlen off - zlen rec - zlen (sq_items (sr_queue rt)));
  sa_counted : wrap 64 (counted (sr_metrics rt)) = wrap 64 (zlen off);
}.

(** Arithmetic modulo the width of the counters. *)
Ltac counter_lia := unfold wrap in *; change (2 ^ 64) with 18446744073709551616 in *; Z.to_euclidean_division_equations; lia.

Lemma counted_enqueued m kind n : wrap 64 (counted m) = wrap 64 n -> wrap 64 (counted (record_enqueued m kind)) = wrap 64 (n + 1).
Proof. unfold counted. destruct kind; cbn; intros H; counter_lia. Qed.

Lemma counted_dropped m n : wrap 64 (counted m) = wrap 64 n -> wrap 64 (counted (record_queue_dropped m)) = wrap 64 (n + 1).
Proof. unfold counted. cbn. intros H; counter_lia. Qed.

Lemma zlen_snoc {A} (l : list A) a : zlen (l ++ [a]) = zlen l + 1.
Proof. by rewrite zlen_app. Qed.

Lemma suffix_snoc_both {A} (l k : list A) a : l `suffix_of` k -> (l ++ [a]) `suffix_of` (k ++ [a]).
Proof. intros [j ->]. exists j. by rewrite app_assoc. Qed.

Lemma offer_accounts cap policy rt off rec e : 1 <= cap -> sink_accounts cap policy rt off rec ->
  sink_accounts cap policy (offer rt e).1 (off ++ [e]) rec.
Proof.
  intros Hcap [[Hc Hp] Hb Ho Hl Hd Hn]. unfold offer, try_enqueue, try_send, push. rewrite Hc, Hp.
  destruct (Z.ltb_spec (zlen (sq_items (sr_queue rt))) cap) as [L|L].
  - split; cbn [fst sr_queue sr_metrics sq_capacity sq_policy sq_items]; rewrite ?zlen_snoc; try done.
    + lia.
    + rewrite app_assoc. by apply sublist_app.
    + intros P. by apply suffix_snoc_both, Hl.
    + assert (sm_queue_dropped (record_enqueued (sr_metrics rt) (ee_kind e)) = sm_queue_dropped (sr_metrics rt)) as -> by (by destruct (ee_kind e)).
      rewrite Hd. f_equal. lia.
    + by apply counted_enqueued.
  - assert (exists x items, sq_items (sr_queue rt) = x :: items) as (x & items & Ei).
    { destruct (sq_items (sr_queue rt)); [unfold zlen in L; simpl in L; lia|eauto]. }
    unfold try_recv. rewrite Ei in *. rewrite zlen_cons in Hb, Hd, L. destruct policy; cbn -[zlen Z.ltb].
    + rewrite Hc, (proj2 (Z.ltb_lt (zlen items) cap)) by lia.
      split; cbn -[zlen wrap]; rewrite ?zlen_snoc; try done.
      * rewrite app_assoc. apply sublist_app; [|done]. etrans; [|exact Ho]. by apply sublist_app, sublist_cons.
      * intros _. apply suffix_snoc_both. eapply suffix_cons_l. by apply Hl.
      * rewrite Hd. counter_lia.
      * by apply counted_dropped.
    + split; cbn -[zlen wrap]; rewrite ?Ei, ?zlen_snoc, ?zlen_cons; try done.
      * by apply sublist_inserts_r.
      * rewrite Hd. counter_lia.
      * by apply counted_dropped.
Qed.

Lemma recv_accounts cap policy rt off rec : sink_accounts cap policy rt off rec ->
  sink_accounts cap policy {| sr_metrics := sr_metrics rt; sr_queue := (try_recv (sr_queue rt)).2 |} off
    (rec ++ option_list (try_recv (sr_queue rt)).1).
Proof.
  intros [[Hc Hp] Hb Ho Hl Hd Hn]. unfold try_recv. destruct (sq_items (sr_queue rt)) as [|x items] eqn:E; cbn.
  { split; cbn; rewrite ?app_nil_r, ?E; done. }
  rewrite zlen_cons in *. split; cbn -[zlen wrap]; try done.
  - lia.
  - by rewrite <-app_assoc.
  - intros P. eapply suffix_cons_l. by apply Hl.
  - rewrite Hd, zlen_snoc. f_equal. lia.
Qed.

Section Accounts.
Context (siphash : Z -> string -> Z) (show_addr : SocketAddr -> string).
Context (iter_bools : gmap string bool -> list (string * bool)) (iter_strings : gmap string string -> list (string * string)).
#[local] Abbreviation emit := (emit siphash show_addr iter_bools iter_strings).
#[local] Abbreviation hub_step := (hub_step siphash show_addr iter_bools iter_strings).
#[local] Abbreviation hub_run := (hub_run siphash show_addr iter_bools iter_strings).
#[local] Abbreviation offered := (offered siphash show_addr iter_bools iter_strings).

Definition offer_to (event : option ExportEvent) (rt : SinkRuntime) : SinkRuntime :=
  match event with Some e => (offer rt e).1 | None => rt end.

Definition dropped_sum (rts : list SinkRuntime) : Z := foldr (fun rt n => sm_queue_dropped (sr_metrics rt) + n) 0 rts.

Lemma enqueue_from_sinks event rts : forall idx drops i,
  (enqueue_from event idx rts drops).1 !! i = offer_to (event (idx + i)%nat) <$> rts !! i.
Proof.
  induction rts as [|rt rts IH]; intros idx drops i; [done|]. cbn [enqueue_from].
  destruct (event idx) as [e|] eqn:E; [destruct (offer rt e) as [rt' d] eqn:O|];
    match goal with |- context [enqueue_from event ?k rts ?n] => specialize (IH k n); destruct (enqueue_from event k rts n) as [r s] end;
    destruct i as [|i]; cbn in *; rewrite ?Nat.add_0_r, ?E, ?IH, <-?plus_n_Sm; cbn; rewrite ?O; done.
Qed.

Lemma offer_dropped rt e : wrap 64 (sm_queue_dropped (sr_metrics (offer rt e).1))
  = wrap 64 (sm_queue_dropped (sr_metrics rt) + if (offer rt e).2 then 1 else 0).
Proof.
  unfold offer. destruct (try_enqueue (sr_queue rt) e) as [q []]; cbn -[wrap]; [counter_lia|]. rewrite Z.add_0_r. by destruct (ee_kind e).
Qed.

(** The hub's counter moves with the counters of its sinks. *)
Lemma enqueue_from_drops event rts : forall idx drops, let r := enqueue_from event idx rts drops in
  wrap 64 (r.2 - dropped_sum r.1) = wrap 64 (drops - dropped_sum rts) /\ (fits 64 drops -> fits 64 r.2).
Proof.
  induction rts as [|rt rts IH]; intros idx drops; [done|]. cbn [enqueue_from].
  destruct (event idx) as [e|]; [pose proof (offer_dropped rt e) as D; destruct (offer rt e) as [rt' d]|];
    match goal with |- context [enqueue_from event ?k rts ?n] => destruct (IH k n) as [IH1 IH2]; destruct (enqueue_from event k rts n) as [r s] end;
    cbn [fst snd] in *; change (dropped_sum (?x :: ?l)) with (sm_queue_dropped (sr_metrics x) + dropped_sum l).
  - split; [destruct d; counter_lia|]. intros F. apply IH2. destruct d; [by apply wrap_fits|done].
  - split; [counter_lia|done].
Qed.

(** A report reaches the sinks one by one, or none of them when it carries nothing. *)
Lemma emit_cases kind hub t snapshot : eh_enabled hub = true ->
  (emit kind hub t snapshot = hub /\ forall i, offered i (OpEmit kind t snapshot) = None)
  \/ exists view wire, emit kind hub t snapshot = try_enqueue_kind siphash hub view snapshot (has_tag (tags t)) kind wire
      /\ forall i, offered i (OpEmit kind t snapshot)
          = let! instance := ce_sinks snapshot !! i in event_for siphash view (has_tag (tags t)) kind wire instance.
Proof.
  intros En. unfold Events.emit. rewrite En. simpl. unfold Events.offered.
  destruct kind; unfold try_enqueue_query, try_enqueue_response, try_enqueue_retry; cbn [reported_wire tv_qname tv_query_wire
    tv_response_wire tv_attempt_count txn_view]; rewrite ?En.
  - destruct (qname t), (bool_decide_reflect (query_wire t = [])); simpl; [left|right|left|left]; eauto.
  - destruct (response_wire t) as [w|]; [|left; by split]. simpl. destruct (bool_decide_reflect (w = [])); simpl; [left|right]; eauto.
  - simpl. destruct (Z.leb_spec (attempt_count t) 1), (Z.ltb_spec 1 (attempt_count t)); try lia; [left|right]; eauto.
Qed.

Lemma emit_hub kind hub t snapshot : eh_enabled hub = true -> let hub' := emit kind hub t snapshot in
  eh_enabled hub' = true
  /\ (forall i, eh_sinks hub' !! i = offer_to (offered i (OpEmit kind t snapshot)) <$> eh_sinks hub !! i)
  /\ wrap 64 (eh_drops hub' - dropped_sum (eh_sinks hub')) = wrap 64 (eh_drops hub - dropped_sum (eh_sinks hub))
  /\ (fits 64 (eh_drops hub) -> fits 64 (eh_drops hub')).
Proof.
  intros En. destruct (emit_cases kind hub t snapshot En) as [[E O]|(view & wire & E & O)]; cbv zeta; rewrite E.
  { split_and!; try done. intros i. rewrite O. by destruct (eh_sinks hub !! i). }
  unfold try_enqueue_kind.
  match goal with |- context [enqueue_from ?ev 0 ?rts ?n] =>
    pose proof (enqueue_from_sinks ev rts 0 n) as S; destruct (enqueue_from_drops ev rts 0 n) as [D F];
    destruct (enqueue_from ev 0 rts n) as [rts' n'] end.
  split_and!; try done. intros i. rewrite O. apply S.
Qed.

Lemma dropped_sum_insert rts i rt rt' : rts !! i = Some rt -> sm_queue_dropped (sr_metrics rt') = sm_queue_dropped (sr_metrics rt) ->
  dropped_sum (<[i := rt']> rts) = dropped_sum rts.
Proof.
  revert i. induction rts as [|x rts IH]; intros [|i] H E; try done; simpl in *; [by simplify_eq; rewrite E|by erewrite IH].
Qed.

(** The counters of the hub and of its sinks agree, and every sink accounts for what it
    was offered. *)
Definition hub_accounts (cap : Z) (policy : DropPolicy) (hub : EventHub) (off rec : nat -> list ExportEvent) : Prop :=
  eh_enabled hub = true /\ fits 64 (eh_drops hub) /\ wrap 64 (eh_drops hub - dropped_sum (eh_sinks hub)) = 0
  /\ forall i rt, eh_sinks hub !! i = Some rt -> sink_accounts cap policy rt (off i) (rec i).

Lemma step_accounts cap policy hub op off rec : 1 <= cap -> hub_accounts cap policy hub off rec ->
  hub_accounts cap policy (hub_step hub op).1 (fun i => off i ++ option_list (offered i op))
    (fun i => rec i ++ received i (option_list (hub_step hub op).2)).
Proof.
  intros Hcap (En & F & W & A). destruct op as [kind t snapshot|j]; cbn [Events.hub_step].
  - destruct (emit_hub kind hub t snapshot En) as (En' & S & W' & F'). cbn [fst snd]. split_and!; [done|by apply F'|by rewrite W'|].
    intros i rt' H. rewrite S in H. apply fmap_Some in H as (rt & H & ->). specialize (A i rt H).
    change (received i (option_list None)) with (@nil ExportEvent). rewrite app_nil_r.
    destruct (offered i (OpEmit kind t snapshot)) as [e|]; cbn [option_list offer_to]; [by apply offer_accounts|by rewrite app_nil_r].
  - destruct (eh_sinks hub !! j) as [rt|] eqn:Ej; cbn.
    2:{ split_and!; try done. intros i rt H. rewrite !app_nil_r. by apply A. }
    pose proof (recv_accounts cap policy rt _ _ (A j rt Ej)) as R. destruct (try_recv (sr_queue rt)) as [e q]. cbn in *.
    split_and!; cbn; try done.
    { by erewrite dropped_sum_insert. }
    intros i rt'. rewrite app_nil_r. destruct (decide (i = j)) as [->|N].
    + rewrite list_lookup_insert_eq by (by eapply lookup_lt_Some). intros [= <-].
      destruct e; cbn; [rewrite Nat.eqb_refl|]; done.
    + rewrite list_lookup_insert_ne by done. intros H. specialize (A i rt' H).
      destruct e; cbn; [|by rewrite app_nil_r]. rewrite (proj2 (Nat.eqb_neq j i)) by done. cbn. by rewrite app_nil_r.
Qed.

Lemma received_app i rs rs' : received i (rs ++ rs') = received i rs ++ received i rs'.
Proof. apply omap_app. Qed.

Lemma run_accounts cap policy ops : 1 <= cap -> forall hub off rec, hub_accounts cap policy hub off rec ->
  hub_accounts cap policy (hub_run hub ops).1 (fun i => off i ++ omap (offered i) ops) (fun i => rec i ++ received i (hub_run hub ops).2).
Proof.
  intros Hcap. induction ops as [|op ops IH]; intros hub off rec H.
  { destruct H as (? & ? & ? & A). split_and!; try done. intros i rt E. cbn. rewrite !app_nil_r. by apply A. }
  apply (step_accounts _ _ _ op) in H; [|done]. cbn [Events.hub_run]. destruct (hub_step hub op) as [hub1 r]. cbn [fst snd] in H.
  apply IH in H. destruct (hub_run hub1 ops) as [hub2 rs]. destruct H as (? & ? & ? & A). split_and!; try done.
  intros i rt E. specialize (A i rt E). cbn [fst snd] in *. rewrite received_app, app_assoc. cbn [omap list_omap].
  rewrite <-app_assoc in A. by destruct (offered i op).
Qed.

Lemma from_compiled_accounts c : ce_enabled c = true -> 1 <= ce_queue_depth c ->
  hub_accounts (ce_queue_depth c) (ce_drop_policy c) (from_compiled c) (fun _ => []) (fun _ => []).
Proof.
  intros En Hc. unfold from_compiled. rewrite En. split_and!; try done.
  - cbn. induction (ce_sinks c); done.
  - intros i rt. cbn. rewrite list_lookup_fmap. intros H. apply fmap_Some in H as (s & _ & ->).
    split; cbn; try done; unfold zlen; simpl; lia.
Qed.
End Accounts.


(** *** Compilation of validated sinks *)

Section Validated.
Context (parse_f64 : string -> option f64) (base_dir : option string).

Lemma filter_selector_compiles sel name : validate_filter_selector parse_f64 sel = [] ->
  (exists u, validate_non_rule_selector_type (sel_type sel) = Ok u)
  /\ ((exists c, selector_compile parse_f64 sel {| cc_rule_name := None; cc_sink_name := Some name |} = Ok c) <-> not_blank sel).
Proof.
  unfold validate_filter_selector. rewrite !app_nil_iff, !of_selector_nil, !check_nil. intros (Ht & Hw & Hp & Hk).
  assert (contains RULE_ONLY_SELECTOR_TYPES (sel_type sel) = false) as Hr.
  { destruct Ht as [u Ht]. unfold validate_non_rule_selector_type in Ht.
    destruct (contains RULE_ONLY_SELECTOR_TYPES (sel_type sel)), (validate_selector_type (sel_type sel)); done. }
  split; [done|]. split.
  - intros [c Hc] [E|E] B; rewrite E in *; [|done]. unfold selector_compile in Hc. rewrite E in Hc. cbn in Hc. by rewrite B in Hc.
  - intros Hb. apply checked_selector_compiles; try done. cbn in Hr. apply orb_false_iff in Hr as [E1 Hr]. apply orb_false_iff in Hr as [E2 _].
    cbn. by rewrite E1, E2.
Qed.

Lemma result_ok_Some {A E} (r : result A E) : is_Some (result_ok r) <-> exists a, r = Ok a.
Proof. destruct r; cbn; split; [by eexists|done|by intros [? ?]|by intros [? ?]]. Qed.

Lemma filters_compile f name : validate_filters parse_f64 f = [] ->
  (is_Some (parse_sink_filters parse_f64 (Some f) name) <-> Forall not_blank (fi_selectors f)).
Proof.
  unfold validate_filters. rewrite !app_nil_iff, flat_map_nil, on_some_nil, of_selector_nil, !check_nil, !negb_true_iff.
  intros (Hs & Hp & Hk & H1 & H2). unfold parse_sink_filters. rewrite H1, H2. cbn [orb].
  assert (is_Some (mapM (fun sel => result_ok (validate_non_rule_selector_type (sel_type sel))) (fi_selectors f))) as [us ->].
  { apply mapM_is_Some. eapply Forall_impl; [exact Hs|]. intros sel H. apply result_ok_Some. by destruct (filter_selector_compiles sel name H). }
  destruct (sample_key_compiles _ _ {| cc_rule_name := None; cc_sink_name := Some name |} Hk) as [k Ek]. cbn in Ek. rewrite Ek. cbn.
  assert (exists p, parse_sink_sample_percent (fi_sample_percent f) = Ok p) as [p ->].
  { destruct (fi_sample_percent f) as [p|]; [|by eexists]. specialize (Hp p eq_refl). by apply of_result_nil in Hp. }
  set (l := mapM _ _). assert (is_Some l <-> Forall not_blank (fi_selectors f)) as Hl.
  { subst l. rewrite mapM_is_Some, !Forall_forall. rewrite Forall_forall in Hs.
    split; intros H sel Hin; destruct (filter_selector_compiles sel name (Hs sel Hin)) as [_ [T1 T2]].
    - by apply T1, result_ok_Some, H.
    - by apply result_ok_Some, T2, H. }
  rewrite <-Hl. destruct l; cbn; [split; by eexists|]. split; intros [? ?]; done.
Qed.

(** Whether any destination of a sink can be dialled, and its filters be compiled. *)
Definition exportable (s : EventSink) : Prop :=
  (exists d, d ∈ es_destinations s /\ is_Some (parse_destination base_dir d))
  /\ forall f, es_filters s = Some f -> Forall not_blank (fi_selectors f).

Lemma parse_extra_fields_id l : forall x, parse_extra_fields l = Ok x -> x = l.
Proof.
  unfold parse_extra_fields. induction l as [|n l IH]; intros x; cbn; [by intros [= <-]|].
  unfold parse_extra_field. destruct (contains _ n); cbn; [|done]. destruct (try_map _ l) as [r|] eqn:E; cbn; [|done].
  intros [= <-]. f_equal. by apply IH.
Qed.

Lemma omap_nonempty {A B} (f : A -> option B) l : omap f l <> [] <-> exists a, a ∈ l /\ is_Some (f a).
Proof.
  split.
  - intros N. destruct (omap f l) as [|b k] eqn:E; [done|]. assert (b ∈ omap f l) as H by (rewrite E; by left).
    apply list_elem_of_omap in H as (a & ? & ?). exists a. split; [done|by eexists].
  - intros (a & Hin & [b Hb]) E. assert (b ∈ omap f l) as H by (apply list_elem_of_omap; by exists a). rewrite E in H. by apply elem_of_nil in H.
Qed.

Lemma sink_compiles_iff s : validate_sink parse_f64 s = [] -> (is_Some (compile_one_sink parse_f64 base_dir s) <-> exportable s).
Proof.
  unfold validate_sink. rewrite !app_nil_iff, !check_nil, !of_result_nil, !on_some_nil.
  intros (Ht & [i Hi] & Hd & _ & _ & [x Hx] & [tg Htg] & _ & [cr Hcr] & Hf).
  unfold compile_one_sink. unfold is_str in Ht. rewrite Ht. apply negb_true_iff in Hd. rewrite Hd. cbn [negb orb]. rewrite Hi, Hx, Hcr. cbn [result_ok].
  rewrite (parse_extra_fields_id _ _ Hx), Htg. cbn [result_ok]. clear Hd. unfold exportable. rewrite <-omap_nonempty.
  assert (is_Some (parse_sink_filters parse_f64 (es_filters s) (id_name i)) <-> forall f, es_filters s = Some f -> Forall not_blank (fi_selectors f)) as <-.
  { destruct (es_filters s) as [f|]; [|split; [done|by eexists]]. rewrite filters_compile by (by apply Hf).
    split; [by intros H f' [= <-]|]. intros H. by apply H. }
  case_bool_decide as Hn; [split; [by intros [? ?]|by intros [? _]]|].
  destruct (parse_sink_filters parse_f64 (es_filters s) (id_name i)); split.
  - intros _. split; [done|by eexists].
  - intros _. by eexists.
  - by intros [? ?].
  - by intros [_ [? ?]].
Qed.

(** The identity under which a compiled sink goes is the resolved one. *)
Lemma compiled_identity s c : compile_one_sink parse_f64 base_dir s = Some c ->
  resolve_sink_identity s = Ok {| id_name := si_name c; id_export_id := si_export_id c |}.
Proof.
  unfold compile_one_sink. destruct (_ || _); [done|]. destruct (resolve_sink_identity s) as [[n x]|]; cbn; [|done].
  case_bool_decide; [done|]. repeat (case_match; try done). by intros [= <-].
Qed.

Lemma identities_distinct sinks : forall names ids, sink_identity_errors names ids sinks = [] ->
  let cs := omap (compile_one_sink parse_f64 base_dir) sinks in
  (NoDup (si_name <$> cs) /\ forall c, c ∈ cs -> si_name c ∉ names)
  /\ (NoDup (si_export_id <$> cs) /\ forall c, c ∈ cs -> si_export_id c ∉ ids).
Proof.
  assert (forall (key : CompiledSinkInstance -> string) c cs seen, NoDup (key <$> cs) /\ (forall c', c' ∈ cs -> key c' ∉ key c :: seen) ->
    key c ∉ seen -> NoDup (key <$> c :: cs) /\ forall c', c' ∈ c :: cs -> key c' ∉ seen) as Hcons.
  { intros key c cs seen [Hn Hc] Hk. split.
    - cbn. apply NoDup_cons. split; [|done]. intros H. apply list_elem_of_fmap in H as (c' & E & Hin). apply (Hc c' Hin). rewrite E. by left.
    - intros c' Hin. apply elem_of_cons in Hin as [->|Hin]; [done|]. intros H. apply (Hc c' Hin). by right. }
  induction sinks as [|s sinks IH]; intros names ids; cbn [sink_identity_errors].
  { intros _. repeat split; try apply NoDup_nil_2; intros c H; by apply elem_of_nil in H. }
  destruct (resolve_sink_identity s) as [i|] eqn:Ei; [|done]. rewrite !app_nil_iff, !check_nil, !negb_true_iff. intros (H1 & H2 & H3).
  apply not_true_iff_false in H1, H2. rewrite contains_spec in H1. rewrite contains_spec in H2. specialize (IH _ _ H3) as [IH1 IH2].
  cbn. destruct (compile_one_sink parse_f64 base_dir s) as [c|] eqn:Ec.
  - apply compiled_identity in Ec. rewrite Ei in Ec. injection Ec as ->. split; by apply Hcons.
  - destruct IH1 as [? I1], IH2 as [? I2]. repeat split; try done; intros c Hc Hin.
    + apply (I1 c Hc). by right.
    + apply (I2 c Hc). by right.
Qed.

Lemma identity_maps (key value : CompiledSinkInstance -> string) cs c : NoDup (key <$> cs) -> c ∈ cs ->
  foldl (fun (m : gmap string string) s => <[key s := value s]> m) ∅ cs !! key c = Some (value c).
Proof. intros Hn Hc. rewrite foldl_insert_lookup by done. by rewrite (find_NoDup key cs c). Qed.
End Validated.

Lemma find_eqb {A} (key : A -> string) l k : find (fun a => String.eqb (key a) k) l = find (fun a => bool_decide (key a = k)) l.
Proof.
  induction l as [|a l IH]; [done|]. simpl. rewrite IH.
  destruct (String.eqb_spec (key a) k); [by rewrite bool_decide_true|by rewrite bool_decide_false].
Qed.

(** A validated events section is compiled sink by sink: a sink gets a runtime
    exactly when one of its destinations can be parsed and its filters have no blank
    selector, the compiled sinks keep the order of the configuration, and the names and
    the export ids of the compiled sinks are each other's inverses. *)
Theorem validated_sinks_compile (parse_f64 : string -> option f64) (base_dir : option string) (cfg : Config) (e : EventsConfig) :
  events cfg = Some e -> validate_events parse_f64 e = [] ->
  let compiled := compile_events parse_f64 base_dir cfg in
  ce_sinks compiled = omap (compile_one_sink parse_f64 base_dir) (ev_sinks e)
  /\ (forall s, s ∈ ev_sinks e -> is_Some (compile_one_sink parse_f64 base_dir s) <-> exportable base_dir s)
  /\ (forall c, c ∈ ce_sinks compiled ->
       sink_by_name compiled (si_name c) = Some c
       /\ export_id_for_name compiled (si_name c) = Some (si_export_id c)
       /\ name_for_export_id compiled (si_export_id c) = Some (si_name c)).
Proof.
  intros He Hv. unfold validate_events in Hv. rewrite !app_nil_iff, flat_map_nil, Forall_forall in Hv. destruct Hv as (_ & _ & Hs & Hu).
  unfold compile_events. rewrite He. cbn. split_and!; [done|intros s Hin; by apply sink_compiles_iff, Hs|].
  destruct (identities_distinct parse_f64 base_dir (ev_sinks e) [] [] Hu) as [[N1 _] [N2 _]]. unfold compile_sinks. intros c Hc. split_and!.
  - unfold sink_by_name. cbn. rewrite find_eqb. by apply (find_NoDup si_name).
  - by apply (identity_maps si_name si_export_id).
  - by apply (identity_maps si_export_id si_name).
Qed.

(** ** Witnesses *)

Definition sample_sink (name : string) (dest : list string) (emit : list string) : EventSink :=
  MkSink "dnstap" "" dest emit None ["sink_name"] [] (Some name) None.
Definition sample_events (depth : Z) (policy : string) (sinks : list EventSink) : EventsConfig := MkEvents depth policy sinks.
Definition events_config (e : EventsConfig) : Config :=
  MkConfig 1 None None None (Some e) None [] None None None [] None None None None None [] None None.
Definition no_f64 : string -> option f64 := fun _ => None.
Definition compiled_of (e : EventsConfig) : CompiledEvents := compile_events no_f64 None (events_config e).

Definition two_sinks : EventsConfig :=
  sample_events 1 "drop_oldest" [sample_sink "a" ["unix:/run/a.sock"] ["response"]; sample_sink "b" ["tcp:[::1]:6000"] ["query"]].
Definition second_sink : EventsConfig := sample_events 1 "drop_oldest" [sample_sink "b" ["tcp:[::1]:6000"] ["query"]].

Definition sample_hash : Z -> string -> Z := fun n _ => n.
Definition sample_show : SocketAddr -> string := fun _ => "client".
Definition asked (n : Z) : Transaction :=
  (Transaction_new n (SockV4 1 53) Udp (Build_Clock 0 0)) <| qname := Some "x." |> <| query_wire := [n] |>.

Lemma validated_sinks_compile_witness :
  let compiled := compiled_of two_sinks in
  ce_sinks compiled = omap (compile_one_sink no_f64 None) (ev_sinks two_sinks)
  /\ (forall s, s ∈ ev_sinks two_sinks -> is_Some (compile_one_sink no_f64 None s) <-> exportable None s)
  /\ (forall c, c ∈ ce_sinks compiled ->
       sink_by_name compiled (si_name c) = Some c
       /\ export_id_for_name compiled (si_name c) = Some (si_export_id c)
       /\ name_for_export_id compiled (si_export_id c) = Some (si_name c)).
Proof.
  assert (validate_events no_f64 two_sinks = []) as Hv by (vm_compute; reflexivity).
  exact (validated_sinks_compile no_f64 None (events_config two_sinks) two_sinks eq_refl Hv).
Defined.

Definition sample_ops : list HubOp :=
  [OpEmit EvQuery (asked 1) (compiled_of two_sinks); OpEmit EvQuery (asked 2) (compiled_of two_sinks); OpRecv 1;
   OpEmit EvQuery (asked 3) (compiled_of two_sinks)].


(** The first query was evicted by the second, the second was taken, the third waits. *)
Example sample_ops_run :
  let '(hub, taken) := hub_run sample_hash sample_show map_to_list map_to_list (from_compiled (compiled_of two_sinks)) sample_ops in
  eh_drops hub = 1 /\ (fun r => (r.1, ee_txn_id r.2)) <$> taken = [(1%nat, 2)]
  /\ (fun rt => ee_txn_id <$> sq_items (sr_queue rt)) <$> eh_sinks hub = [[]; [3]].
Proof. vm_compute. repeat split. Qed.

(** Finding: a sink whose only destination lacks a port passes the validation and is
    compiled to nothing; the hub stays disabled. *)
Theorem unparsable_destination_accepted :
  let e := sample_events 8 "drop_oldest" [sample_sink "tap" ["tcp:collector"] []] in
  validate_events no_f64 e = [] /\ ce_sinks (compiled_of e) = [] /\ eh_enabled (from_compiled (compiled_of e)) = false.
Proof. vm_compute. repeat split. Qed.

(** Finding: the runtimes of the hub, made at start-up, are matched with the sinks of
    the current snapshot by index. After a reload that removes the first sink, what the
    filters of the second one admit goes to the queue, the consumer and the counters of
    the first. *)
Theorem reload_shifts_sinks :
  let hub := emit sample_hash sample_show map_to_list map_to_list EvQuery (from_compiled (compiled_of two_sinks)) (asked 1)
               (compiled_of second_sink) in
  (fun rt => (sm_name (sr_metrics rt), ee_txn_id <$> sq_items (sr_queue rt))) <$> eh_sinks hub = [("a", [1]); ("b", [])].
Proof. vm_compute. reflexivity. Qed.
