(* ===== verification/Effects.v ===== *)
(** * Effects: operations with a state and errors

    The monad of the components that thread a state through calls that may fail: the streams
    of Fstrm.v, the environments of Lmdb.v. An operation that fails keeps the state it
    reached, as the [?] operator does. *)

From S2P Require Import Prelude.

Definition Eff (S E A : Type) : Type := S -> result A E * S.

Section Monad.
Context {S E : Type}.

Definition ret {A} (a : A) : Eff S E A := fun s => (Ok a, s).
Definition throw {A} (e : E) : Eff S E A := fun s => (Err e, s).
Definition bind {A B} (m : Eff S E A) (k : A -> Eff S E B) : Eff S E B :=
  fun s => match m s with (Ok a, s) => k a s | (Err e, s) => (Err e, s) end.
Definition lift {A} (r : result A E) : Eff S E A := fun s => (r, s).
(** A [match] on the [Result] of a call instead of [?]. *)
Definition catch {A} (m : Eff S E A) : Eff S E (result A E) := fun s => (Ok (m s).1, (m s).2).

Lemma bind_ok {A B} (m : Eff S E A) (k : A -> Eff S E B) s a s' : m s = (Ok a, s') -> bind m k s = k a s'.
Proof. intros H. unfold bind. by rewrite H. Qed.

Lemma bind_inv {A B} (m : Eff S E A) (k : A -> Eff S E B) s b s'' :
  bind m k s = (Ok b, s'') -> exists a s', m s = (Ok a, s') /\ k a s' = (Ok b, s'').
Proof. unfold bind. destruct (m s) as [[a|e] s']; [|done]. eauto. Qed.

(** ** Postconditions

    [post P m Q]: from a state with [P], what [m] returns and leaves is in [Q]; a rule
    for each operator, so that a proof follows the program. *)
Definition post {A} (s : S) (m : Eff S E A) (Q : result A E -> S -> Prop) : Prop := Q (m s).1 (m s).2.

Lemma post_ret {A} s (a : A) Q : Q (Ok a) s -> post s (ret a) Q.
Proof. done. Qed.

Lemma post_bind {A B} s (m : Eff S E A) (k : A -> Eff S E B) Q :
  post s m (fun r s' => match r with Ok a => post s' (k a) Q | Err e => Q (Err e) s' end) -> post s (bind m k) Q.
Proof. unfold post, bind. by destruct (m s) as [[a|e] s']. Qed.

Lemma post_catch {A} s (m : Eff S E A) Q : post s m (fun r s' => Q (Ok r) s') -> post s (catch m) Q.
Proof. done. Qed.

Lemma post_mono {A} s (m : Eff S E A) (Q Q' : result A E -> S -> Prop) :
  post s m Q -> (forall r s', Q r s' -> Q' r s') -> post s m Q'.
Proof. unfold post. eauto. Qed.

End Monad.

Notation "'let*' x := m 'in' k" := (bind m (fun x => k)) (at level 10, x name, m at level 100, k at level 200) : conduit_scope.
