(* ===== verification/Fstrm.v ===== *)
(** * Fstrm: frame streams to the collectors

    conduit-events/src/fstrm.rs, the bidirectional frame stream protocol: control frames,
    data frames and the handshakes of both sides, with the receive loop of the tracer
    (conduit-dnstap-tracer/src/main.rs, [serve_connection]) as the other side. A stream
    is the bytes that will arrive, the bytes that were written, and whether writing
    still works; an operation is a function on streams that may fail. *)

From stdpp Require Import base list strings.
From Stdlib Require Import ZArith Lia Ascii.
From S2P Require Import Prelude Text Effects.

#[local] Open Scope string_scope.
#[local] Open Scope list_scope.
#[local] Open Scope Z_scope.

(** ** Streams *)

Record Stream := MkStream { rx : list Z; tx : list Z; writable : bool }.

Inductive IoError :=
  | UnexpectedEof | BrokenPipe
  | NotControl (len : Z) | BadControlLength (len : Z) | ShortSlice | UnsupportedField | TruncatedField | TrailingBytes
  | Unexpected (frame_type : Z) | ContentTypeMismatch | ControlWhileData.

Abbreviation Io := (Eff Stream IoError).

Definition read_exact (n : Z) : Io (list Z) := fun s =>
  if zlen (rx s) <? n then (Err UnexpectedEof, MkStream [] (tx s) (writable s))
  else (Ok (take (Z.to_nat n) (rx s)), MkStream (drop (Z.to_nat n) (rx s)) (tx s) (writable s)).
Definition write_all (bs : list Z) : Io unit := fun s =>
  if writable s then (Ok tt, MkStream (rx s) (tx s ++ bs) (writable s)) else (Err BrokenPipe, s).
Definition flush : Io unit := fun s => if writable s then (Ok tt, s) else (Err BrokenPipe, s).

(** ** Frames *)

Definition CONTROL_ACCEPT : Z := 1.
Definition CONTROL_START : Z := 2.
Definition CONTROL_STOP : Z := 3.
Definition CONTROL_READY : Z := 4.
Definition CONTROL_FINISH : Z := 5.
Definition CONTROL_FIELD_CONTENT_TYPE : Z := 1.
Definition CONTROL_FRAME_LENGTH_MAX : Z := 512.

Definition as_bytes (s : string) : list Z := byte_of <$> String.list_ascii_of_string s.

(** [to_be_bytes] and [from_be_bytes] of a [u32]. *)
Definition be32 (n : Z) : list Z := [n / 2 ^ 24 mod 256; n / 2 ^ 16 mod 256; n / 2 ^ 8 mod 256; n mod 256].
Definition of_be32 (bs : list Z) : Z := foldl (fun n b => n * 256 + b) 0 bs.

Arguments be32 : simpl never.
Arguments of_be32 : simpl never.

Definition read_u32_be : Io Z := let* buf := read_exact 4 in ret (of_be32 buf).
Definition read_u32_from_slice (buf : list Z) (offset : Z) : result Z IoError :=
  if zlen buf <? offset + 4 then Err ShortSlice else Ok (of_be32 (take 4 (drop (Z.to_nat offset) buf))).

Record DecodedControlFrame := { frame_type : Z; content_types : list (list Z) }.
Definition matches_content_type (f : DecodedControlFrame) (expected : string) : bool :=
  if bool_decide (content_types f = []) then true else existsb (fun ct => bool_decide (ct = as_bytes expected)) (content_types f).

Definition control_body (frame_type : Z) (content_type : option string) : list Z :=
  be32 frame_type ++
  match content_type with
  | Some ct => be32 CONTROL_FIELD_CONTENT_TYPE ++ be32 (wrap 32 (zlen (as_bytes ct))) ++ as_bytes ct
  | None => []
  end.
Definition write_control_frame (frame_type : Z) (content_type : option string) : Io unit :=
  let body := control_body frame_type content_type in
  let* _u := write_all (be32 0 ++ be32 (wrap 32 (zlen body)) ++ body) in flush.

Definition write_data_frame (payload : list Z) : Io unit :=
  let* _u := write_all (be32 (wrap 32 (zlen payload))) in write_all payload.

(** The loop over the fields; [None]: out of fuel. *)
Fixpoint parse_fields (fuel : nat) (body : list Z) (offset : Z) (cts : list (list Z)) : option (result (Z * list (list Z)) IoError) :=
  match fuel with
  | O => None
  | S fuel =>
      if zlen body <? offset + 8 then Some (Ok (offset, cts))
      else
        match read_u32_from_slice body offset, read_u32_from_slice body (offset + 4) with
        | Err e, _ | _, Err e => Some (Err e)
        | Ok field_type, Ok field_len =>
            let offset := offset + 8 in
            if negb (field_type =? CONTROL_FIELD_CONTENT_TYPE) then Some (Err UnsupportedField)
            else if zlen body <? offset + field_len then Some (Err TruncatedField)
            else parse_fields fuel body (offset + field_len) (push cts (take (Z.to_nat field_len) (drop (Z.to_nat offset) body)))
        end
  end.
(** Every turn takes at least eight bytes. *)
Definition parse_control_body (body : list Z) : option (result DecodedControlFrame IoError) :=
  match read_u32_from_slice body 0 with
  | Err e => Some (Err e)
  | Ok ft =>
      let! r := parse_fields (S (length body)) body 4 [] in
      Some (let? o := r in
            if negb (o.1 =? zlen body) then Err TrailingBytes else Ok {| frame_type := ft; content_types := o.2 |})
  end.

Definition read_control_frame_after_data_length (data_len : Z) : Io DecodedControlFrame :=
  if negb (data_len =? 0) then throw (NotControl data_len)
  else
    let* control_len := read_u32_be in
    if (control_len <? 4) || (CONTROL_FRAME_LENGTH_MAX <? control_len) then throw (BadControlLength control_len)
    else
      let* body := read_exact control_len in
      lift (default (Err ShortSlice) (parse_control_body body)).
Definition read_control_frame : Io DecodedControlFrame :=
  let* data_len := read_u32_be in read_control_frame_after_data_length data_len.

Definition read_data_frame : Io (list Z) :=
  let* len := read_u32_be in if len =? 0 then throw ControlWhileData else read_exact len.

Inductive IncomingFrame := FrameData (payload : list Z) | FrameStop.
Definition read_frame : Io IncomingFrame :=
  let* len := read_u32_be in
  if 0 <? len then let* buf := read_exact len in ret (FrameData buf)
  else
    let* control := read_control_frame_after_data_length 0 in
    if frame_type control =? CONTROL_STOP then ret FrameStop else throw (Unexpected (frame_type control)).

(** ** Handshakes *)

(** A control frame of the given type and content type. *)
Definition expect (ty : Z) (content_type : string) : Io unit :=
  let* f := read_control_frame in
  if negb (frame_type f =? ty) then throw (Unexpected (frame_type f))
  else if negb (matches_content_type f content_type) then throw ContentTypeMismatch else ret tt.

Definition connect_bidirectional (content_type : string) : Io unit :=
  let* _u := write_control_frame CONTROL_READY (Some content_type) in
  let* _u := expect CONTROL_ACCEPT content_type in
  write_control_frame CONTROL_START (Some content_type).

Definition accept_bidirectional (content_type : string) : Io unit :=
  let* _u := expect CONTROL_READY content_type in
  let* _u := write_control_frame CONTROL_ACCEPT (Some content_type) in
  expect CONTROL_START content_type.

Definition accept_unidirectional (content_type : string) : Io unit := expect CONTROL_START content_type.

(** [FrameStreamWriter]. *)
Definition writer_data_frame (payload : list Z) : Io unit := let* _u := write_data_frame payload in flush.
Definition writer_finish : Io unit := let* _u := write_control_frame CONTROL_STOP None in flush.

(** ** The two ends of a connection *)

(** What the worker of a sink does with a connection that stays up. *)
Fixpoint write_frames (payloads : list (list Z)) : Io unit :=
  match payloads with [] => ret tt | p :: ps => let* _u := writer_data_frame p in write_frames ps end.
Definition client (content_type : string) (payloads : list (list Z)) : Io unit :=
  let* _u := connect_bidirectional content_type in
  let* _u := write_frames payloads in writer_finish.

(** The loop of the tracer, which hands every payload on; it ends when a STOP frame or an
    error comes. Every frame takes at least four bytes of the input. *)
Fixpoint serve_frames (fuel : nat) (got : list (list Z)) : Io (list (list Z)) :=
  match fuel with
  | O => throw UnexpectedEof
  | S fuel =>
      let* f := read_frame in
      match f with
      | FrameData p => serve_frames fuel (push got p)
      | FrameStop => fun s => (Ok got, (write_control_frame CONTROL_FINISH None s).2)
      end
  end.
Definition serve_connection (content_type : string) (unidirectional : bool) : Io (list (list Z)) :=
  let* _u := (if unidirectional then accept_unidirectional content_type else accept_bidirectional content_type) in
  fun s => serve_frames (S (length (rx s))) [] s.

(** ** Encoding *)

Definition is_byte (b : Z) : Prop := fits 8 b.
Definition field (ct : list Z) : list Z := be32 CONTROL_FIELD_CONTENT_TYPE ++ be32 (zlen ct) ++ ct.
Definition encode_body (f : DecodedControlFrame) : list Z := be32 (frame_type f) ++ mjoin (field <$> content_types f).
(** A control frame on the wire. *)
Definition encode (f : DecodedControlFrame) : list Z := be32 0 ++ be32 (zlen (encode_body f)) ++ encode_body f.
Definition frame_wf (f : DecodedControlFrame) : Prop :=
  fits 32 (frame_type f) /\ Forall (fun ct => fits 32 (zlen ct)) (content_types f).

Ltac word_lia := unfold is_byte, fits in *; change (2 ^ 32) with 4294967296 in *; change (2 ^ 8) with 256 in *;
  change (2 ^ 24) with 16777216 in *; change (2 ^ 16) with 65536 in *; Z.to_euclidean_division_equations; lia.

Lemma of_be32_be32 n : fits 32 n -> of_be32 (be32 n) = n.
Proof. intros H. unfold be32, of_be32. cbn [foldl]. word_lia. Qed.

Lemma be32_of_be32 bs : Forall is_byte bs -> length bs = 4%nat -> be32 (of_be32 bs) = bs /\ fits 32 (of_be32 bs).
Proof.
  intros H L. destruct bs as [|a [|b [|c [|d []]]]]; try done. rewrite !Forall_cons in H. destruct H as (Ha & Hb & Hc & Hd & _).
  unfold of_be32. cbn [foldl]. split; [|word_lia]. unfold be32. f_equal; [word_lia|f_equal; [word_lia|f_equal; [word_lia|f_equal; word_lia]]].
Qed.

Lemma zlen_take {A} (l : list A) n : 0 <= n <= zlen l -> zlen (take (Z.to_nat n) l) = n.
Proof. unfold zlen. intros H. rewrite length_take. lia. Qed.

Lemma take_app_zlen {A} (a r : list A) : take (Z.to_nat (zlen a)) (a ++ r) = a.
Proof. unfold zlen. rewrite Nat2Z.id. apply take_app_length. Qed.
Lemma drop_app_zlen {A} (a r : list A) : drop (Z.to_nat (zlen a)) (a ++ r) = r.
Proof. unfold zlen. rewrite Nat2Z.id. apply drop_app_length. Qed.

Lemma read_stream_app a r t w : read_exact (zlen a) (MkStream (a ++ r) t w) = (Ok a, MkStream r t w).
Proof.
  unfold read_exact. cbn [rx tx writable]. rewrite zlen_app, (proj2 (Z.ltb_ge _ _)) by (pose proof (zlen_nonneg r); lia).
  by rewrite take_app_zlen, drop_app_zlen.
Qed.

Lemma read_slice pre suf :
  read_u32_from_slice (pre ++ suf) (zlen pre) = if zlen suf <? 4 then Err ShortSlice else Ok (of_be32 (take 4 suf)).
Proof.
  unfold read_u32_from_slice. rewrite zlen_app, drop_app_zlen.
  destruct (Z.ltb_spec (zlen pre + zlen suf) (zlen pre + 4)), (Z.ltb_spec (zlen suf) 4); try lia; done.
Qed.

Lemma split_at {A} n (l : list A) : 0 <= n <= zlen l -> exists a b, l = a ++ b /\ zlen a = n.
Proof. intros H. exists (take (Z.to_nat n) l), (drop (Z.to_nat n) l). by rewrite take_drop, zlen_take. Qed.

Lemma zlen4 {A} (l : list A) : zlen l = 4 -> length l = 4%nat.
Proof. unfold zlen. lia. Qed.

Lemma take4 {A} (a b : list A) : zlen a = 4 -> take 4 (a ++ b) = a.
Proof. intros H. rewrite <-(zlen4 a H). apply take_app_length. Qed.

(** One turn of the loop, at the start of [suf]. *)
Lemma parse_fields_turn fuel pre suf cts :
  parse_fields (S fuel) (pre ++ suf) (zlen pre) cts =
  if zlen suf <? 8 then Some (Ok (zlen pre, cts))
  else
    let ty := of_be32 (take 4 suf) in
    let len := of_be32 (take 4 (drop 4 suf)) in
    if negb (ty =? CONTROL_FIELD_CONTENT_TYPE) then Some (Err UnsupportedField)
    else if zlen (drop 8 suf) <? len then Some (Err TruncatedField)
    else parse_fields fuel (pre ++ suf) (zlen pre + 8 + len) (push cts (take (Z.to_nat len) (drop 8 suf))).
Proof.
  cbn [parse_fields]. rewrite zlen_app.
  destruct (Z.ltb_spec (zlen pre + zlen suf) (zlen pre + 8)), (Z.ltb_spec (zlen suf) 8); try lia; [done|].
  rewrite read_slice, (proj2 (Z.ltb_ge (zlen suf) 4)) by lia.
  destruct (split_at 8 suf) as (hd & tl & -> & L); [lia|].
  destruct (split_at 4 hd) as (a & b & -> & La); [lia|]. rewrite zlen_app in L.
  rewrite <-(app_assoc a b tl), (app_assoc pre a (b ++ tl)).
  replace (zlen pre + 4) with (zlen (pre ++ a)) by (rewrite zlen_app; lia).
  rewrite read_slice, zlen_app, (proj2 (Z.ltb_ge _ 4)) by (pose proof (zlen_nonneg tl); lia).
  assert (drop 4 (a ++ b ++ tl) = b ++ tl) as -> by (rewrite <-(zlen4 a La); apply drop_app_length).
  assert (drop 8 (a ++ b ++ tl) = tl) as ->.
  { rewrite app_assoc. replace 8%nat with (length (a ++ b)) by (rewrite length_app; unfold zlen in *; lia). apply drop_app_length. }
  destruct (_ =? _); cbn [negb]; [|done]. rewrite !zlen_app.
  set (len := of_be32 (take 4 (b ++ tl))).
  destruct (Z.ltb_spec (zlen pre + (zlen a + (zlen b + zlen tl))) (zlen pre + 8 + len)), (Z.ltb_spec (zlen tl) len); try lia; [done|].
  do 3 f_equal. replace (zlen pre + 8) with (zlen (pre ++ a ++ b)) by (rewrite !zlen_app; lia).
  replace ((pre ++ a) ++ b ++ tl) with ((pre ++ a ++ b) ++ tl) by (by rewrite <-!app_assoc). apply drop_app_zlen.
Qed.

Lemma zlen_be32 n : zlen (be32 n) = 4.
Proof. done. Qed.
Lemma zlen_field ct : zlen (field ct) = 8 + zlen ct.
Proof. unfold field. rewrite !zlen_app, !zlen_be32. lia. Qed.
Lemma drop8_field ct r : drop 8 (field ct ++ r) = ct ++ r.
Proof. done. Qed.

Lemma parse_fields_complete fs : Forall (fun ct => fits 32 (zlen ct)) fs -> forall fuel pre cts, (length (mjoin (field <$> fs)) < fuel)%nat ->
  parse_fields fuel (pre ++ mjoin (field <$> fs)) (zlen pre) cts = Some (Ok (zlen (pre ++ mjoin (field <$> fs)), cts ++ fs)).
Proof.
  induction 1 as [|ct fs Hc _ IH]; intros [|fuel] pre cts L; try (cbn in L; lia); rewrite parse_fields_turn.
  { cbn. by rewrite !app_nil_r. }
  change (mjoin (field <$> ct :: fs)) with (field ct ++ mjoin (field <$> fs)) in *. rewrite length_app in L.
  pose proof (zlen_field ct) as Lf. pose proof (zlen_nonneg ct). set (r := mjoin (field <$> fs)) in *.
  rewrite zlen_app, (proj2 (Z.ltb_ge _ 8)) by (pose proof (zlen_nonneg r); lia). rewrite drop8_field.
  change (take 4 (field ct ++ r)) with (be32 1). change (take 4 (drop 4 (field ct ++ r))) with (be32 (zlen ct)). cbv zeta.
  rewrite !of_be32_be32 by (done || by split). cbn [negb Z.eqb]. rewrite zlen_app, (proj2 (Z.ltb_ge _ _)) by (pose proof (zlen_nonneg r); lia).
  replace (zlen pre + 8 + zlen ct) with (zlen (pre ++ field ct)) by (rewrite zlen_app; lia).
  rewrite take_app_zlen, app_assoc, IH by (unfold zlen in Lf; lia). unfold push. by rewrite <-(app_assoc cts).
Qed.

(** The first field of a suffix that has one. *)
Lemma field_split a b tl : Forall is_byte (a ++ b ++ tl) -> zlen a = 4 -> zlen b = 4 -> of_be32 a = CONTROL_FIELD_CONTENT_TYPE ->
  of_be32 b <= zlen tl -> exists ct r, tl = ct ++ r /\ a ++ b ++ tl = field ct ++ r /\ zlen ct = of_be32 b /\ fits 32 (zlen ct).
Proof.
  rewrite !Forall_app. intros (Ha & Hb & _) La Lb Ht Hl.
  destruct (be32_of_be32 a Ha (zlen4 a La)) as [Ea _]. destruct (be32_of_be32 b Hb (zlen4 b Lb)) as [Eb Fb].
  destruct (split_at (of_be32 b) tl) as (ct & r & -> & Lc); [destruct Fb; lia|].
  exists ct, r. unfold field. rewrite Lc, Eb, <-Ht, Ea, <-!app_assoc. done.
Qed.

Lemma parse_fields_sound fuel : forall pre suf cts o cts', Forall is_byte suf ->
  parse_fields fuel (pre ++ suf) (zlen pre) cts = Some (Ok (o, cts')) ->
  exists fs rest, suf = mjoin (field <$> fs) ++ rest /\ o = zlen (pre ++ mjoin (field <$> fs)) /\ cts' = cts ++ fs
    /\ Forall (fun ct => fits 32 (zlen ct)) fs.
Proof.
  induction fuel as [|fuel IH]; intros pre suf cts o cts' Hb; [done|]. rewrite parse_fields_turn.
  destruct (Z.ltb_spec (zlen suf) 8) as [L|L].
  { intros [= <- <-]. exists [], suf. cbn. by rewrite !app_nil_r. }
  destruct (split_at 8 suf) as (hd & tl & -> & Lh); [lia|]. destruct (split_at 4 hd) as (a & b & -> & La); [lia|].
  rewrite zlen_app in Lh. assert (zlen b = 4) as Lb by lia. rewrite <-app_assoc in *.
  assert (take 4 (drop 4 (a ++ b ++ tl)) = b) as Eb by (rewrite <-(zlen4 a La) at 2; rewrite drop_app_length; by apply take4).
  assert (drop 8 (a ++ b ++ tl) = tl) as Et.
  { rewrite app_assoc. replace 8%nat with (length (a ++ b)) by (rewrite length_app, (zlen4 a), (zlen4 b); done). apply drop_app_length. }
  cbv zeta. rewrite Eb, Et, take4 by done. destruct (Z.eqb_spec (of_be32 a) CONTROL_FIELD_CONTENT_TYPE) as [Ht|]; cbn [negb]; [|done].
  destruct (Z.ltb_spec (zlen tl) (of_be32 b)) as [|Hl]; [done|].
  destruct (field_split a b tl Hb La Lb Ht Hl) as (ct & r & -> & E & Lc & Fc). rewrite E, <-Lc, take_app_zlen.
  replace (zlen pre + 8 + zlen ct) with (zlen (pre ++ field ct)) by (rewrite zlen_app, zlen_field; lia). rewrite app_assoc. intros H.
  apply IH in H as (fs & rest & -> & -> & -> & Hf).
  2:{ rewrite E, Forall_app in Hb. by destruct Hb. }
  exists (ct :: fs), rest. unfold push. change (mjoin (field <$> ct :: fs)) with (field ct ++ mjoin (field <$> fs)).
  rewrite <-!app_assoc. split_and!; try done. by constructor.
Qed.

Lemma parse_fields_total fuel : forall pre suf cts, (length suf < fuel)%nat -> Forall is_byte suf ->
  exists r, parse_fields fuel (pre ++ suf) (zlen pre) cts = Some r.
Proof.
  induction fuel as [|fuel IH]; intros pre suf cts L Hb; [lia|]. rewrite parse_fields_turn.
  destruct (Z.ltb_spec (zlen suf) 8) as [|L8]; [by eexists|]. cbv zeta. destruct (negb _); [by eexists|].
  set (len := of_be32 (take 4 (drop 4 suf))). assert (0 <= len) as Hlen.
  { subst len. assert (zlen (take 4 (drop 4 suf)) = 4) as L4 by (unfold zlen in *; rewrite length_take, length_drop; lia).
    destruct (be32_of_be32 (take 4 (drop 4 suf))) as [_ [? _]]; [by apply Forall_take, Forall_drop|by apply zlen4|done]. }
  destruct (Z.ltb_spec (zlen (drop 8 suf)) len) as [|Hl]; [by eexists|].
  replace (pre ++ suf) with ((pre ++ take (8 + Z.to_nat len) suf) ++ drop (8 + Z.to_nat len) suf) by (by rewrite <-app_assoc, take_drop).
  replace (zlen pre + 8 + len) with (zlen (pre ++ take (8 + Z.to_nat len) suf)).
  - apply IH; [rewrite length_drop; unfold zlen in L8; lia|by apply Forall_drop].
  - unfold zlen in *. rewrite length_app, length_take. rewrite length_drop in Hl. lia.
Qed.

Lemma parse_exact body f : Forall is_byte body ->
  parse_control_body body = Some (Ok f) <-> body = encode_body f /\ frame_wf f.
Proof.
  intros Hb. unfold parse_control_body, encode_body, frame_wf. pose proof (read_slice [] body) as R. rewrite app_nil_l in R.
  change (zlen []) with 0 in R. rewrite R. clear R. destruct (Z.ltb_spec (zlen body) 4) as [L|L].
  { split; [done|]. intros [-> _]. rewrite zlen_app, zlen_be32 in L. pose proof (zlen_nonneg (mjoin (field <$> content_types f))). lia. }
  destruct (split_at 4 body) as (a & suf & -> & La); [lia|]. rewrite Forall_app in Hb. destruct Hb as [Ha Hs].
  destruct (be32_of_be32 a Ha (zlen4 a La)) as [Ea Fa]. rewrite take4 by done. rewrite <-La. split.
  - destruct (parse_fields _ (a ++ suf) _ _) as [[[o cts]|]|] eqn:E; cbn; try done.
    apply parse_fields_sound in E as (fs & rest & -> & -> & -> & Hf); [|done]. rewrite !zlen_app.
    destruct (Z.eqb_spec (zlen a + zlen (mjoin (field <$> fs))) (zlen a + (zlen (mjoin (field <$> fs)) + zlen rest))) as [E|]; cbn; [|done].
    destruct rest; [|unfold zlen in E; simpl in E; lia]. intros [= <-]. cbn [frame_type content_types]. by rewrite Ea, app_nil_r.
  - intros [E [F1 F2]]. apply app_inj_1 in E as [-> ->]; [|by rewrite (zlen4 a La)].
    rewrite parse_fields_complete by (done || (rewrite length_app; lia)). cbn. rewrite Z.eqb_refl. cbn. rewrite of_be32_be32 by done.
    by destruct f.
Qed.

(** ** The handshake *)

Definition sized (f : DecodedControlFrame) : Prop := zlen (encode_body f) <= CONTROL_FRAME_LENGTH_MAX.

Lemma encode_body_bytes f : Forall is_byte (mjoin (content_types f)) -> Forall is_byte (encode_body f).
Proof.
  assert (forall n, Forall is_byte (be32 n)) as H32.
  { intros n. unfold be32. repeat constructor; unfold is_byte, fits; change (2 ^ 8) with 256; apply Z.mod_pos_bound; lia. }
  intros H. unfold encode_body. apply Forall_app. split; [done|]. induction (content_types f) as [|ct cts IH]; [done|].
  cbn in *. rewrite Forall_app in H. destruct H as [H1 H2]. unfold field. rewrite !Forall_app. split_and!; try done. by apply IH.
Qed.

Lemma read_u32_app n r t w : fits 32 n -> read_u32_be (MkStream (be32 n ++ r) t w) = (Ok n, MkStream r t w).
Proof. intros H. unfold read_u32_be. erewrite bind_ok; [|apply (read_stream_app (be32 n))]. unfold ret. by rewrite of_be32_be32. Qed.

Lemma read_encoded f r t w : frame_wf f -> sized f -> Forall is_byte (mjoin (content_types f)) ->
  read_control_frame (MkStream (encode f ++ r) t w) = (Ok f, MkStream r t w).
Proof.
  intros Hf Hs Hb. unfold read_control_frame, encode. rewrite <-!app_assoc. erewrite bind_ok; [|by apply read_u32_app].
  unfold read_control_frame_after_data_length. cbn [negb Z.eqb]. unfold sized, CONTROL_FRAME_LENGTH_MAX in *.
  assert (4 <= zlen (encode_body f)) as H4 by (unfold encode_body; rewrite zlen_app, zlen_be32; pose proof (zlen_nonneg (mjoin (field <$> content_types f))); lia).
  erewrite bind_ok; [|apply read_u32_app; split; [lia|]; change (2 ^ 32) with 4294967296; lia].
  rewrite (proj2 (Z.ltb_ge _ 4)), (proj2 (Z.ltb_ge 512 _)) by lia. cbn [orb]. erewrite bind_ok; [|apply read_stream_app].
  unfold lift. by rewrite (proj2 (parse_exact _ f (encode_body_bytes f Hb))).
Qed.

Lemma read_exact_inv n r t w a s' : 0 <= n -> read_exact n (MkStream r t w) = (Ok a, s') ->
  exists r', r = a ++ r' /\ zlen a = n /\ s' = MkStream r' t w.
Proof.
  intros Hn. unfold read_exact. cbn. destruct (Z.ltb_spec (zlen r) n); [done|]. intros [= <- <-].
  exists (drop (Z.to_nat n) r). by rewrite take_drop, zlen_take.
Qed.

Lemma read_u32_inv r t w n s' : Forall is_byte r -> read_u32_be (MkStream r t w) = (Ok n, s') ->
  exists r', r = be32 n ++ r' /\ fits 32 n /\ s' = MkStream r' t w.
Proof.
  intros Hb H. apply bind_inv in H as (a & s1 & H & E). injection E as <- <-. apply read_exact_inv in H as (r' & -> & L & ->); [|lia].
  rewrite Forall_app in Hb. destruct (be32_of_be32 a (proj1 Hb) (zlen4 a L)) as [Ea Fa]. exists r'. by rewrite Ea.
Qed.

Lemma read_control_inv r t w f s' : Forall is_byte r -> read_control_frame (MkStream r t w) = (Ok f, s') ->
  exists r', r = encode f ++ r' /\ frame_wf f /\ sized f /\ s' = MkStream r' t w.
Proof.
  intros Hb H. apply bind_inv in H as (n & s1 & H1 & H). apply read_u32_inv in H1 as (r1 & -> & _ & ->); [|done].
  rewrite Forall_app in Hb. destruct Hb as [_ Hb]. unfold read_control_frame_after_data_length in H.
  destruct (Z.eqb_spec n 0) as [->|]; [|done]. cbn [negb] in H. apply bind_inv in H as (len & s2 & H1 & H).
  apply read_u32_inv in H1 as (r2 & -> & [F _] & ->); [|done]. rewrite Forall_app in Hb. destruct Hb as [_ Hb].
  destruct (Z.ltb_spec len 4), (Z.ltb_spec CONTROL_FRAME_LENGTH_MAX len); try done. cbn [orb] in H.
  apply bind_inv in H as (body & s3 & Hr & H). apply read_exact_inv in Hr as (r3 & -> & L & ->); [|done].
  rewrite Forall_app in Hb. destruct Hb as [Hb _]. unfold lift in H. injection H as H <-.
  destruct (parse_control_body body) as [p|] eqn:E; [|done]. cbn in H. subst p. apply parse_exact in E as [-> Hf]; [|done].
  exists r3. unfold encode, sized. rewrite L, <-!app_assoc. by split_and!.
Qed.

Lemma matches_content_spec f ct : matches_content_type f ct = true <-> content_types f = [] \/ as_bytes ct ∈ content_types f.
Proof.
  unfold matches_content_type. case_bool_decide as E; [by split; [left|]|]. rewrite existsb_exists. split.
  - intros (c & Hin & Hc). apply bool_decide_eq_true in Hc as ->. right. by apply list_elem_of_In.
  - intros [|H]; [done|]. exists (as_bytes ct). split; [by apply list_elem_of_In|by apply bool_decide_eq_true].
Qed.

(** The frame that the code writes for a content type. *)
Definition typed (ty : Z) (ct : string) : DecodedControlFrame := {| frame_type := ty; content_types := [as_bytes ct] |}.

Lemma as_bytes_bytes ct : Forall is_byte (as_bytes ct).
Proof.
  unfold as_bytes. apply Forall_fmap, Forall_forall. intros c _. unfold is_byte, fits, byte_of. cbn.
  pose proof (N_ascii_bounded c). lia.
Qed.

Lemma expect_encoded f r t w ct : frame_wf f -> sized f -> Forall is_byte (mjoin (content_types f)) ->
  content_types f = [] \/ as_bytes ct ∈ content_types f ->
  expect (frame_type f) ct (MkStream (encode f ++ r) t w) = (Ok tt, MkStream r t w).
Proof.
  intros Hf Hs Hb Hc. unfold expect. erewrite bind_ok; [|by apply read_encoded]. rewrite Z.eqb_refl, (proj2 (matches_content_spec f ct) Hc). done.
Qed.

Lemma expect_inv ty r t w ct u s' : Forall is_byte r -> expect ty ct (MkStream r t w) = (Ok u, s') ->
  exists f r', r = encode f ++ r' /\ frame_type f = ty /\ (content_types f = [] \/ as_bytes ct ∈ content_types f) /\ frame_wf f /\ sized f
    /\ s' = MkStream r' t w.
Proof.
  intros Hb H. apply bind_inv in H as (f & s1 & Hr & H). apply read_control_inv in Hr as (r' & -> & Hf & Hs & ->); [|done].
  destruct (Z.eqb_spec (frame_type f) ty) as [<-|]; [|done]. destruct (matches_content_type f ct) eqn:E; [|done]. cbn in H.
  apply matches_content_spec in E. injection H as _ <-. exists f, r'. done.
Qed.

(** Content types of at most 500 bytes fit a control frame. *)
Definition short (ct : string) : Prop := zlen (as_bytes ct) <= 500.

Lemma typed_ok ty ct : short ct -> fits 32 ty -> frame_wf (typed ty ct) /\ sized (typed ty ct)
  /\ be32 0 ++ be32 (wrap 32 (zlen (control_body ty (Some ct)))) ++ control_body ty (Some ct) = encode (typed ty ct).
Proof.
  intros Hs Ht. unfold short in Hs. pose proof (zlen_nonneg (as_bytes ct)) as Hp.
  assert (fits 32 (zlen (as_bytes ct))) as Hf by (split; [lia|change (2 ^ 32) with 4294967296; lia]).
  assert (control_body ty (Some ct) = encode_body (typed ty ct)) as E.
  { unfold control_body, encode_body, typed, field. cbn. by rewrite app_nil_r, (wrap_small 32 _ Hf). }
  assert (zlen (encode_body (typed ty ct)) = 12 + zlen (as_bytes ct)) as El.
  { rewrite <-E. unfold control_body. rewrite !zlen_app, !zlen_be32. lia. }
  split_and!.
  - split; [done|]. by constructor.
  - unfold sized, CONTROL_FRAME_LENGTH_MAX. lia.
  - unfold encode. rewrite E, wrap_small; [done|]. split; [lia|change (2 ^ 32) with 4294967296; lia].
Qed.

Lemma write_typed ty ct r t : short ct -> fits 32 ty ->
  write_control_frame ty (Some ct) (MkStream r t true) = (Ok tt, MkStream r (t ++ encode (typed ty ct)) true).
Proof. intros Hs Ht. destruct (typed_ok ty ct Hs Ht) as (_ & _ & E). unfold write_control_frame. by rewrite E. Qed.

(** The client's handshake succeeds exactly on a peer that accepts it: the bytes that
    arrive start with one well-formed control frame of type ACCEPT, within the length
    limit, that lists no content type or the requested one; then exactly that frame is
    consumed and a READY and a START frame of the content type were written. *)
Theorem handshake_succeeds_iff (ct : string) (incoming : list Z) (s' : Stream) :
  short ct -> Forall is_byte incoming ->
  connect_bidirectional ct (MkStream incoming [] true) = (Ok tt, s') <->
  exists f rest, incoming = encode f ++ rest /\ frame_wf f /\ sized f /\ frame_type f = CONTROL_ACCEPT
    /\ (content_types f = [] \/ as_bytes ct ∈ content_types f)
    /\ s' = MkStream rest (encode (typed CONTROL_READY ct) ++ encode (typed CONTROL_START ct)) true.
Proof.
  intros Hs Hb. unfold connect_bidirectional. erewrite bind_ok; [|by apply write_typed]. split.
  - intros H. apply bind_inv in H as (u & s1 & He & H). apply expect_inv in He as (f & r' & -> & Ht & Hc & Hf & Hz & ->); [|done].
    rewrite write_typed in H by done. injection H as <-. by exists f, r'.
  - intros (f & rest & -> & Hf & Hz & Ht & Hc & ->). erewrite bind_ok; [by apply write_typed|]. rewrite <-Ht. apply expect_encoded; try done.
    rewrite Forall_app in Hb. destruct Hb as [Hb _]. unfold encode, encode_body in Hb. rewrite !Forall_app in Hb. destruct Hb as (_ & _ & _ & Hb).
    clear -Hb. induction (content_types f) as [|c cs IH]; [done|]. cbn in *. unfold field in Hb. rewrite !Forall_app in Hb.
    destruct Hb as ((_ & _ & Hc) & Hb). apply Forall_app. split; [done|by apply IH].
Qed.

(** *** A whole connection *)

Definition data_frame (p : list Z) : list Z := be32 (zlen p) ++ p.
Definition stop_frame : DecodedControlFrame := {| frame_type := CONTROL_STOP; content_types := [] |}.
Definition finish_frame : DecodedControlFrame := {| frame_type := CONTROL_FINISH; content_types := [] |}.
Definition payload_ok (p : list Z) : Prop := 0 < zlen p < 2 ^ 32.

Lemma write_frames_ok ps r : Forall payload_ok ps -> forall t,
  write_frames ps (MkStream r t true) = (Ok tt, MkStream r (t ++ mjoin (data_frame <$> ps)) true).
Proof.
  induction 1 as [|p ps Hp _ IH]; intros t; cbn [write_frames]; [by rewrite app_nil_r|].
  assert (writer_data_frame p (MkStream r t true) = (Ok tt, MkStream r (t ++ data_frame p) true)) as E.
  { unfold writer_data_frame, write_data_frame, bind, write_all, flush. cbn. rewrite wrap_small by (unfold payload_ok, fits in *; lia).
    unfold data_frame. by rewrite app_assoc. }
  erewrite bind_ok; [|exact E]. rewrite IH. cbn. by rewrite <-app_assoc.
Qed.

Lemma finish_ok r t : writer_finish (MkStream r t true) = (Ok tt, MkStream r (t ++ encode stop_frame) true).
Proof. done. Qed.

Lemma read_frame_data p r t w : payload_ok p -> read_frame (MkStream (data_frame p ++ r) t w) = (Ok (FrameData p), MkStream r t w).
Proof.
  intros Hp. unfold read_frame, data_frame. rewrite <-app_assoc. erewrite bind_ok; [|apply read_u32_app; unfold payload_ok, fits in *; lia].
  rewrite (proj2 (Z.ltb_lt 0 _)) by (by destruct Hp). erewrite bind_ok; [|apply read_stream_app]. done.
Qed.

Lemma read_frame_stop r t w : read_frame (MkStream (encode stop_frame ++ r) t w) = (Ok FrameStop, MkStream r t w).
Proof.
  pose proof (read_encoded stop_frame r t w) as R. unfold read_control_frame, encode in R. rewrite <-!app_assoc in R.
  erewrite bind_ok in R; [|by apply read_u32_app]. unfold read_frame, encode. rewrite <-!app_assoc.
  erewrite bind_ok; [|by apply read_u32_app]. cbn [Z.ltb Z.compare]. erewrite bind_ok; [|apply R]; [done|split; [done|constructor]|done|constructor].
Qed.

Lemma serve_frames_ok ps rest t : Forall payload_ok ps -> forall fuel got, (length ps < fuel)%nat ->
  serve_frames fuel got (MkStream (mjoin (data_frame <$> ps) ++ encode stop_frame ++ rest) t true)
  = (Ok (got ++ ps), MkStream rest (t ++ encode finish_frame) true).
Proof.
  induction 1 as [|p ps Hp _ IH]; intros [|fuel] got L; try (simpl in L; lia); cbn [serve_frames].
  - cbn [fmap list_fmap mjoin list_join app]. erewrite bind_ok; [|apply read_frame_stop]. by rewrite app_nil_r.
  - change (mjoin (data_frame <$> p :: ps)) with (data_frame p ++ mjoin (data_frame <$> ps)). rewrite <-app_assoc.
    erewrite bind_ok; [|by apply read_frame_data]. cbv beta iota. rewrite IH by (simpl in L; lia). unfold push. by rewrite <-app_assoc.
Qed.

Lemma payloads_short ps : Forall payload_ok ps -> (length ps <= length (mjoin (data_frame <$> ps)))%nat.
Proof.
  induction 1 as [|p ps Hp _ IH]; [simpl; lia|]. change (mjoin (data_frame <$> p :: ps)) with (data_frame p ++ mjoin (data_frame <$> ps)).
  rewrite length_app. unfold data_frame at 1. rewrite length_app. simpl length. lia.
Qed.

(** C27: a sink and a collector that speak the same content type exchange exactly the
    payloads: there are transcripts of the two directions such that the client, fed the
    server's bytes, writes the client's and succeeds, and the server, fed the client's
    bytes, writes the server's, hands on every payload once, in order and unchanged, and
    stops at the STOP frame. *)
Theorem connection_delivers (ct : string) (payloads : list (list Z)) :
  short ct -> Forall payload_ok payloads ->
  exists up down left,
    client ct payloads (MkStream down [] true) = (Ok tt, MkStream left up true)
    /\ serve_connection ct false (MkStream up [] true) = (Ok payloads, MkStream [] down true).
Proof.
  intros Hs Hp.
  destruct (typed_ok CONTROL_READY ct Hs) as (R1 & R2 & _); [done|]. destruct (typed_ok CONTROL_START ct Hs) as (S1 & S2 & _); [done|].
  destruct (typed_ok CONTROL_ACCEPT ct Hs) as (A1 & A2 & _); [done|].
  assert (Forall is_byte (mjoin [as_bytes ct])) as Hb by (cbn; rewrite app_nil_r; apply as_bytes_bytes).
  set (data := mjoin (data_frame <$> payloads) ++ encode stop_frame).
  exists (encode (typed CONTROL_READY ct) ++ encode (typed CONTROL_START ct) ++ data), (encode (typed CONTROL_ACCEPT ct) ++ encode finish_frame),
    (encode finish_frame). split.
  - unfold client, connect_bidirectional.
    erewrite bind_ok.
    2:{ erewrite bind_ok; [|by apply write_typed]. erewrite bind_ok; [by apply write_typed|].
        apply (expect_encoded (typed CONTROL_ACCEPT ct)); try done. right. by left. }
    erewrite bind_ok; [|by apply write_frames_ok]. rewrite finish_ok. subst data. by rewrite <-!app_assoc.
  - unfold serve_connection, accept_bidirectional.
    erewrite bind_ok.
    2:{ erewrite bind_ok; [|apply (expect_encoded (typed CONTROL_READY ct)); try done; right; by left].
        erewrite bind_ok; [|by apply write_typed]. apply (expect_encoded (typed CONTROL_START ct)); try done. right; by left. }
    cbn [rx]. subst data. rewrite <-(app_nil_r (encode stop_frame)). rewrite serve_frames_ok; [done|done|].
    rewrite !length_app. pose proof (payloads_short payloads Hp). lia.
Qed.

Definition sample_type : string := "protobuf:dnstap.Dnstap".

Lemma connection_delivers_witness : exists up down left,
  client sample_type [[1; 2; 3]; [0]] (MkStream down [] true) = (Ok tt, MkStream left up true)
  /\ serve_connection sample_type false (MkStream up [] true) = (Ok [[1; 2; 3]; [0]], MkStream [] down true).
Proof.
  apply (connection_delivers sample_type [[1; 2; 3]; [0]]).
  - by vm_compute.
  - repeat constructor.
Defined.

Lemma handshake_succeeds_iff_witness :
  exists s', connect_bidirectional sample_type (MkStream (encode (typed CONTROL_ACCEPT sample_type) ++ [9]) [] true) = (Ok tt, s')
    /\ rx s' = [9].
Proof.
  exists (MkStream [9] (encode (typed CONTROL_READY sample_type) ++ encode (typed CONTROL_START sample_type)) true).
  split; [|reflexivity].
  assert (Forall is_byte (encode (typed CONTROL_ACCEPT sample_type) ++ [9])) as Hb.
  { vm_compute. repeat (constructor; [split; [discriminate|reflexivity]|]). constructor. }
  apply (proj2 (handshake_succeeds_iff sample_type (encode (typed CONTROL_ACCEPT sample_type) ++ [9])
    (MkStream [9] (encode (typed CONTROL_READY sample_type) ++ encode (typed CONTROL_START sample_type)) true) ltac:(by vm_compute)
    Hb)).
  exists (typed CONTROL_ACCEPT sample_type), [9]. split; [reflexivity|]. split; [split; [split; [discriminate|reflexivity]|]|].
  { constructor; [split; [discriminate|reflexivity]|constructor]. }
  split; [vm_compute; discriminate|]. split; [reflexivity|]. split; [right; by left|reflexivity].
Defined.
