(* ===== verification/Dnstap.v ===== *)
(** * Dnstap: the worker of a sink

    conduit-events/src/dnstap.rs and connect_retry.rs: the thread that takes the events
    of one sink off its queue and writes them to every connected destination, with its
    reconnection, its back-off and what it logs. One turn of the loop of [run_inner] is
    a function of the worker's state and of what its environment does in that turn: the
    clock (read once), the shutdown flag, which destinations can be dialled (socket and handshake, see
    [Fstrm.connect_bidirectional]), what the queue gives, and which writes go through.
    The encoding of an event by the dnstap and protobuf crates is a parameter. A writer
    is the index of its destination in the configuration of the sink. *)

From stdpp Require Import base gmap list strings.
From Stdlib Require Import ZArith Lia.
From S2P Require Import Prelude Text Floats Config Messages Validate Extra Events.

#[local] Open Scope string_scope.
#[local] Open Scope list_scope.
#[local] Open Scope Z_scope.

(** ** Back-off *)

Record BackoffState := { bo_config : ConnectRetry; bo_failures : Z }.
Definition backoff_new (c : ConnectRetry) : BackoffState := {| bo_config := c; bo_failures := 0 |}.
Definition backoff_reset (b : BackoffState) : BackoffState := {| bo_config := bo_config b; bo_failures := 0 |}.

(** The cast [failures as i32]. *)
Definition as_i32 (n : Z) : Z := let m := wrap 32 n in if m <? 2 ^ 31 then m else m - 2 ^ 32.

Section Worker.
(** [f64::powi], the jitter factor drawn in a turn is part of the environment. *)
Context (powi : f64 -> Z -> f64) (encode_event : string -> ExportEvent -> option (list Z)).

(** In milliseconds. *)
Definition delay_for_failure (c : ConnectRetry) (failures : Z) (jitter_factor : f64) : Z :=
  let base_ms := f64_mul (f64_of_Z (cr_initial_ms c)) (powi (cr_multiplier c) (as_i32 failures)) in
  let capped := f64_min base_ms (f64_of_Z (cr_max_ms c)) in
  let ms := if cr_jitter c then f64_mul capped jitter_factor else capped in
  floor_as 0 u64_max (f64_max ms (f64_of_Z 1)).
Definition next_delay (b : BackoffState) (jitter_factor : f64) : Z * BackoffState :=
  (delay_for_failure (bo_config b) (bo_failures b) jitter_factor,
   {| bo_config := bo_config b; bo_failures := sat_add 32 (bo_failures b) 1 |}).

(** ** What is logged *)

Definition RETRY_WARN_INTERVAL : Z := 60000.
Inductive LogLine := LogDisconnected | LogUnreachable | LogRetrySleep (attempts delay : Z) | LogStillFailing (at_ms : Z) | LogConnected (destinations : Z).

Record ConnectLogState := { outage_logged : bool; last_retry_warn : option Z }.
Definition connect_log_new : ConnectLogState := {| outage_logged := false; last_retry_warn := None |}.

Definition mark_disconnected (l : ConnectLogState) (now : Z) : ConnectLogState * list LogLine :=
  if outage_logged l then (l, []) else ({| outage_logged := true; last_retry_warn := Some now |}, [LogDisconnected]).
Definition mark_unreachable (l : ConnectLogState) (now : Z) : ConnectLogState * list LogLine :=
  if outage_logged l then (l, []) else ({| outage_logged := true; last_retry_warn := Some now |}, [LogUnreachable]).
Definition on_retry_sleep (l : ConnectLogState) (attempts delay now : Z) : ConnectLogState * list LogLine :=
  let due := match last_retry_warn l with Some t => RETRY_WARN_INTERVAL <=? now - t | None => true end in
  if due && outage_logged l
  then ({| outage_logged := outage_logged l; last_retry_warn := Some now |}, [LogRetrySleep attempts delay; LogStillFailing now])
  else (l, [LogRetrySleep attempts delay]).
Definition on_connected (l : ConnectLogState) (destinations : Z) : ConnectLogState * list LogLine :=
  ({| outage_logged := false; last_retry_warn := None |}, if outage_logged l then [LogConnected destinations] else []).

(** ** The loop *)

(** [sleep_with_shutdown]: false when the flag is up before one of the steps of at most
    50 ms. [flag i]: the flag before step [i]; [None]: out of fuel. *)
Fixpoint sleep_steps (fuel : nat) (flag : nat -> bool) (i : nat) (remaining : Z) : option bool :=
  if remaining <=? 0 then Some true
  else
    match fuel with
    | O => None
    | S fuel => if flag i then Some false else sleep_steps fuel flag (S i) (remaining - Z.min remaining 50)
    end.
Definition sleep_with_shutdown (flag : nat -> bool) (delay : Z) : option bool :=
  sleep_steps (Z.to_nat (delay / 50 + 1)) flag 0 delay.

Inductive RecvResult := RecvEvent (e : ExportEvent) | RecvTimeout | RecvDisconnected.
Record TurnEnv := {
  te_shutdown : bool; te_dial : nat -> bool; te_now : Z; te_jitter : f64; te_flag : nat -> bool; te_recv : RecvResult;
  te_write : nat -> bool;
}.

Record Worker := MkWorker { wk_writers : list nat; wk_backoff : BackoffState; wk_log : ConnectLogState; wk_metrics : SinkMetrics }.

Definition set_connected (m : SinkMetrics) (b : bool) : SinkMetrics := m <| sm_connected := b |>.
Definition record_connect_attempt (m : SinkMetrics) : SinkMetrics := m <| sm_connect_attempts := wrap 64 (sm_connect_attempts m + 1) |>.
Definition record_delivered (m : SinkMetrics) : SinkMetrics := m <| sm_delivered := wrap 64 (sm_delivered m + 1) |>.
Definition record_write_failed (m : SinkMetrics) : SinkMetrics := m <| sm_write_failed := wrap 64 (sm_write_failed m + 1) |>.
Definition record_encode_failed (m : SinkMetrics) : SinkMetrics := m <| sm_encode_failed := wrap 64 (sm_encode_failed m + 1) |>.

(** [connect_all]: the destinations that can be dialled, in order. *)
Definition connect_all (destinations : nat) (dial : nat -> bool) : list nat := List.filter dial (seq 0 destinations).

(** [retain_mut]: every writer gets the frame; those that fail are dropped. *)
Fixpoint write_to_all (write : nat -> bool) (writers : list nat) (m : SinkMetrics) : list nat * SinkMetrics :=
  match writers with
  | [] => ([], m)
  | w :: ws =>
      let m := if write w then record_delivered m else record_write_failed m in
      let '(kept, m) := write_to_all write ws m in (if write w then w :: kept else kept, m)
  end.

Inductive Flow := Continue | Break.

(** The event taken off the queue and the writers connected then, the frames that got through, with the writer they went
    to, and the lines logged. *)
Record TurnOut := { to_flow : Flow; to_event : option (ExportEvent * list nat); to_frames : list (nat * list Z); to_log : list LogLine }.
Definition out (f : Flow) (event : option (ExportEvent * list nat)) (frames : list (nat * list Z)) (log : list LogLine) : TurnOut :=
  {| to_flow := f; to_event := event; to_frames := frames; to_log := log |}.

(** The part of a turn after the connections are up. *)
Definition receive (export_id : string) (env : TurnEnv) (wk : Worker) (log : list LogLine) : Worker * TurnOut :=
  match te_recv env with
  | RecvTimeout => (wk, out Continue None [] log)
  | RecvDisconnected => (wk, out Break None [] log)
  | RecvEvent e =>
      match encode_event export_id e with
      | None => (MkWorker (wk_writers wk) (wk_backoff wk) (wk_log wk) (record_encode_failed (wk_metrics wk)), out Continue (Some (e, wk_writers wk)) [] log)
      | Some bytes =>
          let before := wk_writers wk in
          let '(kept, m) := write_to_all (te_write env) before (wk_metrics wk) in
          let frames := (fun w => (w, bytes)) <$> List.filter (te_write env) before in
          if (0 <? zlen before) && bool_decide (kept = [])
          then let '(l, lines) := mark_disconnected (wk_log wk) (te_now env) in
               (MkWorker kept (wk_backoff wk) l (set_connected m false), out Continue (Some (e, before)) frames (log ++ lines))
          else (MkWorker kept (wk_backoff wk) (wk_log wk) m, out Continue (Some (e, before)) frames log)
      end
  end.

Definition worker_turn (destinations : nat) (export_id : string) (env : TurnEnv) (wk : Worker) : option (Worker * TurnOut) :=
  if te_shutdown env then Some (wk, out Break None [] [])
  else if bool_decide (wk_writers wk = []) then
    let m := record_connect_attempt (set_connected (wk_metrics wk) false) in
    let writers := connect_all destinations (te_dial env) in
    if bool_decide (writers = []) then
      let '(l, lines) := mark_unreachable (wk_log wk) (te_now env) in
      let '(delay, backoff) := next_delay (wk_backoff wk) (te_jitter env) in
      let '(l, lines') := on_retry_sleep l (sm_connect_attempts m) delay (te_now env) in
      let! slept := sleep_with_shutdown (te_flag env) delay in
      Some (MkWorker [] backoff l m, out (if slept then Continue else Break) None [] (lines ++ lines'))
    else
      let '(l, lines) := on_connected (wk_log wk) (zlen writers) in
      Some (receive export_id env (MkWorker writers (backoff_reset (wk_backoff wk)) l (set_connected m true)) lines)
  else Some (receive export_id env wk []).

Definition worker_new (c : ConnectRetry) (m : SinkMetrics) : Worker := MkWorker [] (backoff_new c) connect_log_new m.

(** The turns up to the one that breaks the loop, after which the gauge is cleared and
    the writers are finished. *)
Fixpoint worker_run (destinations : nat) (export_id : string) (envs : list TurnEnv) (wk : Worker) : option (Worker * list TurnOut) :=
  match envs with
  | [] => Some (wk, [])
  | env :: envs =>
      let! r := worker_turn destinations export_id env wk in
      match to_flow r.2 with
      | Break => Some (MkWorker (wk_writers r.1) (wk_backoff r.1) (wk_log r.1) (set_connected (wk_metrics r.1) false), [r.2])
      | Continue => let! k := worker_run destinations export_id envs r.1 in Some (k.1, r.2 :: k.2)
      end
  end.
End Worker.

(** ** What a worker does in a run *)

Lemma sleep_steps_total fuel flag : forall i remaining, remaining <= 50 * Z.of_nat fuel -> is_Some (sleep_steps fuel flag i remaining).
Proof.
  induction fuel as [|fuel IH]; intros i remaining H; cbn [sleep_steps]; destruct (Z.leb_spec remaining 0); [by eexists|lia|by eexists|].
  destruct (flag i); [by eexists|]. apply IH. lia.
Qed.

Lemma sleep_total flag delay : 0 <= delay -> is_Some (sleep_with_shutdown flag delay).
Proof. intros H. apply sleep_steps_total. rewrite Z2Nat.id by (pose proof (Z.div_pos delay 50); lia). Z.to_euclidean_division_equations; lia. Qed.

Lemma delay_nonneg powi c n j : 0 <= delay_for_failure powi c n j.
Proof.
  unfold delay_for_failure. set (x := f64_max _ _). clearbody x.
  destruct x as [|[]| |]; cbn [floor_as]; unfold clamp, u64_max; lia.
Qed.

(** [p = (a, b)] as two equations for [a] and [b]. *)
Ltac destruct_pair H := match type of H with ?p = (?a, ?b) => assert (a = p.1 /\ b = p.2) as [-> ->] by (by rewrite H) end.

Section Run.
Context (powi : f64 -> Z -> f64) (encode_event : string -> ExportEvent -> option (list Z)) (destinations : nat) (export_id : string).
#[local] Abbreviation turn := (worker_turn powi encode_event destinations export_id).
#[local] Abbreviation run := (worker_run powi encode_event destinations export_id).

Lemma turn_total env wk : is_Some (turn env wk).
Proof.
  unfold worker_turn. destruct (te_shutdown env); [by eexists|]. case_bool_decide; [|by eexists]. case_bool_decide.
  - destruct (mark_unreachable _ _), (next_delay _ _ _) as [d b] eqn:E. destruct (on_retry_sleep _ _ _ _).
    unfold next_delay in E. injection E as <- <-.
    destruct (sleep_total (te_flag env) (delay_for_failure powi (bo_config (wk_backoff wk)) (bo_failures (wk_backoff wk)) (te_jitter env)))
      as [b ->]; [apply delay_nonneg|]. by eexists.
  - destruct (on_connected _ _). by eexists.
Qed.

(** The encoded event of a turn, and the frames that a writer got. *)
Definition taken (o : TurnOut) : option (list Z) := let! e := to_event o in encode_event export_id e.1.
Definition frames_to (w : nat) (fs : list (nat * list Z)) : list (list Z) := omap (fun f => if Nat.eqb f.1 w then Some f.2 else None) fs.
Definition encode_failures (o : TurnOut) : Z :=
  match to_event o with Some e => match encode_event export_id e.1 with None => 1 | Some _ => 0 end | None => 0 end.
(** The writes that were tried in a turn. *)
Definition attempts (o : TurnOut) : Z :=
  match to_event o with Some e => match encode_event export_id e.1 with None => 0 | Some _ => zlen e.2 end | None => 0 end.

Definition writers_wf (ws : list nat) : Prop := NoDup ws /\ forall w, w ∈ ws -> (w < destinations)%nat.

(** What a turn does to the counters and the writers. *)
Record turn_effect (wk wk' : Worker) (o : TurnOut) : Prop := {
  tf_delivered : wrap 64 (sm_delivered (wk_metrics wk')) = wrap 64 (sm_delivered (wk_metrics wk) + zlen (to_frames o));
  tf_write_failed : wrap 64 (sm_write_failed (wk_metrics wk')) = wrap 64 (sm_write_failed (wk_metrics wk) + attempts o - zlen (to_frames o));
  tf_encode_failed : wrap 64 (sm_encode_failed (wk_metrics wk')) = wrap 64 (sm_encode_failed (wk_metrics wk) + encode_failures o);
  tf_gauge : sm_connected (wk_metrics wk') = negb (bool_decide (wk_writers wk' = []));
  tf_writers : writers_wf (wk_writers wk');
  tf_connected : forall e ws, to_event o = Some (e, ws) -> ws <> [];
  tf_frames : to_frames o = from_option (fun bytes => (fun w => (w, bytes)) <$> wk_writers wk') [] (taken o);
}.

Lemma write_to_all_spec write ws : forall m, let r := write_to_all write ws m in
  r.1 = List.filter write ws /\ sm_connected r.2 = sm_connected m /\ sm_encode_failed r.2 = sm_encode_failed m
  /\ wrap 64 (sm_delivered r.2) = wrap 64 (sm_delivered m + zlen (List.filter write ws))
  /\ wrap 64 (sm_write_failed r.2) = wrap 64 (sm_write_failed m + zlen ws - zlen (List.filter write ws)).
Proof.
  induction ws as [|w ws IH]; intros m; cbn [write_to_all List.filter].
  { cbn -[wrap]. unfold zlen. cbn -[wrap]. rewrite Z.add_0_r, Z.sub_0_r, Z.add_0_r. done. }
  destruct (write w); cbv zeta.
  - specialize (IH (record_delivered m)). destruct (write_to_all _ _ _) as [kept m']. cbn -[wrap zlen] in *.
    destruct IH as (-> & -> & -> & D & F). rewrite !zlen_cons. split_and!; try done; counter_lia.
  - specialize (IH (record_write_failed m)). destruct (write_to_all _ _ _) as [kept m']. cbn -[wrap zlen] in *.
    destruct IH as (-> & -> & -> & D & F). rewrite !zlen_cons. split_and!; try done; counter_lia.
Qed.

Lemma filter_writers (p : nat -> bool) ws : writers_wf ws -> writers_wf (List.filter p ws).
Proof.
  intros [N B]. split; [by apply NoDup_ListNoDup, List.NoDup_filter, NoDup_ListNoDup|].
  intros w Hw. apply list_elem_of_In, filter_In in Hw as [Hw _]. apply B. by apply list_elem_of_In.
Qed.

Lemma connect_all_wf dial : writers_wf (connect_all destinations dial).
Proof. apply filter_writers. split; [apply NoDup_seq|]. intros w Hw. apply elem_of_seq in Hw. lia. Qed.

Lemma receive_effect env wk log : writers_wf (wk_writers wk) -> wk_writers wk <> [] -> sm_connected (wk_metrics wk) = true ->
  turn_effect wk (receive encode_event export_id env wk log).1 (receive encode_event export_id env wk log).2.
Proof.
  intros Hw Hne Hc. unfold receive. destruct (te_recv env) as [e| |].
  2,3: split; cbn -[wrap zlen]; rewrite ?bool_decide_eq_false_2 by done; try done; unfold zlen; cbn -[wrap]; f_equal; lia.
  destruct (encode_event export_id e) as [bytes|] eqn:E.
  2:{ split; cbn -[wrap zlen]; unfold attempts, encode_failures, taken; cbn -[wrap zlen]; rewrite ?E, ?bool_decide_eq_false_2 by done; try done.
      - by rewrite Z.add_0_r.
      - by rewrite Z.add_0_r, Z.sub_0_r.
      - counter_lia.
      - by intros ? ? [= <- <-]. }
  pose proof (write_to_all_spec (te_write env) (wk_writers wk) (wk_metrics wk)) as W.
  destruct (write_to_all _ _ _) as [kept m]. cbn [fst snd] in W. destruct W as (-> & C & F & D & X).
  assert (0 < zlen (wk_writers wk)) as Hz by (destruct (wk_writers wk); [done|unfold zlen; simpl; lia]).
  rewrite (proj2 (Z.ltb_lt 0 _) Hz). cbn [andb]. set (kept := List.filter (te_write env) (wk_writers wk)) in *.
  assert (writers_wf kept) as Hk by (by apply filter_writers).
  case_bool_decide as Ek; [destruct (mark_disconnected _ _)|]; cbn [fst snd]; split; cbn -[wrap zlen kept];
    unfold attempts, encode_failures, taken; cbn -[wrap zlen kept]; rewrite ?E; cbn -[wrap zlen kept]; unfold zlen in *; rewrite ?length_fmap; try done;
    try (by intros ? ? [= <- <-]).
  - rewrite F. f_equal. lia.
  - by rewrite bool_decide_eq_true_2.
  - rewrite F. f_equal. lia.
  - by rewrite C, Hc, bool_decide_eq_false_2.
Qed.

Definition worker_inv (wk : Worker) : Prop :=
  writers_wf (wk_writers wk) /\ sm_connected (wk_metrics wk) = negb (bool_decide (wk_writers wk = [])).

Lemma idle_effect wk wk' lines flow : writers_wf (wk_writers wk') ->
  sm_delivered (wk_metrics wk') = sm_delivered (wk_metrics wk) -> sm_write_failed (wk_metrics wk') = sm_write_failed (wk_metrics wk) ->
  sm_encode_failed (wk_metrics wk') = sm_encode_failed (wk_metrics wk) ->
  sm_connected (wk_metrics wk') = negb (bool_decide (wk_writers wk' = [])) -> turn_effect wk wk' (out flow None [] lines).
Proof.
  intros Hw Hd Hf He Hc. split; cbn -[wrap zlen]; rewrite ?Hd, ?Hf, ?He, ?Z.add_0_r, ?Z.sub_0_r; done.
Qed.

Lemma turn_effects env wk wk' o : worker_inv wk -> turn env wk = Some (wk', o) -> turn_effect wk wk' o.
Proof.
  intros [Hw Hc]. unfold worker_turn. destruct (te_shutdown env); [intros [= <- <-]; by apply idle_effect|].
  case_bool_decide as Ew.
  - case_bool_decide as Ec.
    + destruct (mark_unreachable _ _) as [l lines], (next_delay _ _ _) as [d b], (on_retry_sleep _ _ _ _) as [l' lines'].
      destruct (sleep_with_shutdown _ _); [|done]. intros [= <- <-]. apply idle_effect; try done.
      split; [apply NoDup_nil_2|]. intros w H. by apply elem_of_nil in H.
    + destruct (on_connected _ _) as [l lines]. intros [= H]. destruct_pair H.
      match goal with |- turn_effect wk (receive _ _ _ ?wk1 _).1 _ =>
        destruct (receive_effect env wk1 lines (connect_all_wf _) Ec eq_refl) as [D F E G W C X] end. by split.
  - intros [= H].
    destruct_pair H. by apply receive_effect.
Qed.

Lemma turn_inv env wk wk' o : worker_inv wk -> turn env wk = Some (wk', o) -> worker_inv wk'.
Proof. intros H E. destruct (turn_effects env wk wk' o H E). by split. Qed.

(** Whether a line starts (true) or ends (false) a reported outage. *)
Definition mark (l : LogLine) : option bool :=
  match l with LogDisconnected | LogUnreachable => Some true | LogConnected _ => Some false | _ => None end.
(** The marks alternate, starting from whether an outage is being reported; the result is
    whether one is at the end. *)
Fixpoint alternates (reported : bool) (marks : list bool) : option bool :=
  match marks with [] => Some reported | b :: ms => if Bool.eqb b reported then None else alternates b ms end.

Lemma alternates_app ms ms' : forall r, alternates r (ms ++ ms') = let! r' := alternates r ms in alternates r' ms'.
Proof. induction ms as [|b ms IH]; intros r; [done|]. cbn. destruct (Bool.eqb b r); [done|apply IH]. Qed.

Lemma receive_log env wk log r : alternates r (omap mark log) = Some (outage_logged (wk_log wk)) ->
  let k := receive encode_event export_id env wk log in alternates r (omap mark (to_log k.2)) = Some (outage_logged (wk_log k.1)).
Proof.
  intros H. unfold receive. destruct (te_recv env) as [e| |]; cbn; try done. destruct (encode_event export_id e); cbn; [|done].
  destruct (write_to_all _ _ _) as [kept m]. destruct (_ && _); cbn; [|done]. unfold mark_disconnected.
  destruct (outage_logged (wk_log wk)) eqn:E; cbn; rewrite ?app_nil_r, ?E; [done|]. rewrite omap_app, alternates_app, H. done.
Qed.

Lemma turn_log env wk wk' o : turn env wk = Some (wk', o) ->
  alternates (outage_logged (wk_log wk)) (omap mark (to_log o)) = Some (outage_logged (wk_log wk')).
Proof.
  unfold worker_turn. destruct (te_shutdown env); [by intros [= <- <-]|]. case_bool_decide as Ew.
  - case_bool_decide as Ec.
    + destruct (next_delay _ _ _) as [d b]. unfold mark_unreachable, on_retry_sleep.
      destruct (wk_log wk) as [[] w]; cbn; destruct (sleep_with_shutdown _ _); cbn; repeat case_match; intros; simplify_eq; cbn in *; try done.
    + unfold on_connected. intros [= H]. destruct_pair H.
      apply receive_log. cbn. by destruct (outage_logged (wk_log wk)).
  - intros [= H]. destruct_pair H. by apply receive_log.
Qed.

Lemma frames_app w fs gs : frames_to w (fs ++ gs) = frames_to w fs ++ frames_to w gs.
Proof. apply omap_app. Qed.

Lemma turn_frames wk wk' o w : turn_effect wk wk' o -> frames_to w (to_frames o) `sublist_of` option_list (taken o).
Proof.
  intros [_ _ _ _ [N _] _ F]. rewrite F. destruct (taken o) as [bytes|]; [|done]. cbn. clear -N.
  induction (wk_writers wk') as [|x ws IH]; [apply sublist_nil_l|]. apply NoDup_cons in N as [Hx N]. unfold frames_to in *. cbn.
  destruct (Nat.eqb_spec x w) as [->|]; [|by apply IH]. apply sublist_skip.
  assert (omap (fun f : nat * list Z => if Nat.eqb f.1 w then Some f.2 else None) ((fun w0 => (w0, bytes)) <$> ws) = []) as ->; [|done].
  clear -Hx. induction ws as [|y ws IH]; [done|]. cbn. rewrite not_elem_of_cons in Hx. destruct Hx as [Hy Hx].
  rewrite (proj2 (Nat.eqb_neq y w)) by done. by apply IH.
Qed.

Definition total (f : TurnOut -> Z) (outs : list TurnOut) : Z := foldr (fun o n => f o + n) 0 outs.

Lemma run_spec envs : forall wk, worker_inv wk -> exists wk' outs, run envs wk = Some (wk', outs)
  /\ (forall o e ws, o ∈ outs -> to_event o = Some (e, ws) -> ws <> [])
  /\ (forall w, frames_to w (mjoin (to_frames <$> outs)) `sublist_of` omap taken outs)
  /\ wrap 64 (sm_delivered (wk_metrics wk')) = wrap 64 (sm_delivered (wk_metrics wk) + zlen (mjoin (to_frames <$> outs)))
  /\ wrap 64 (sm_write_failed (wk_metrics wk'))
      = wrap 64 (sm_write_failed (wk_metrics wk) + total attempts outs - zlen (mjoin (to_frames <$> outs)))
  /\ wrap 64 (sm_encode_failed (wk_metrics wk')) = wrap 64 (sm_encode_failed (wk_metrics wk) + total encode_failures outs)
  /\ is_Some (alternates (outage_logged (wk_log wk)) (omap mark (mjoin (to_log <$> outs)))).
Proof.
  induction envs as [|env envs IH]; intros wk Hi.
  { exists wk, []. cbn -[wrap zlen]. split_and!; try done; try (by eexists); try (f_equal; unfold zlen; simpl; lia).
    intros o e ws H. by apply elem_of_nil in H. }
  cbn [worker_run]. destruct (turn_total env wk) as [[wk1 o] E]. rewrite E. cbn [fst snd].
  pose proof (turn_inv _ _ _ _ Hi E) as Hi1. pose proof (turn_log _ _ _ _ E) as L1. pose proof (turn_effects _ _ _ _ Hi E) as T.
  pose proof (fun w => turn_frames wk wk1 o w T) as F1. destruct T as [D1 X1 E1 _ _ C1 _].
  destruct (to_flow o).
  - destruct (IH wk1 Hi1) as (wk2 & outs & -> & Ho & Hf & D2 & X2 & E2 & L2). exists wk2, (o :: outs). cbn [fst snd].
    change (mjoin (to_frames <$> o :: outs)) with (to_frames o ++ mjoin (to_frames <$> outs)).
    change (mjoin (to_log <$> o :: outs)) with (to_log o ++ mjoin (to_log <$> outs)). cbn [total foldr]. fold (total attempts outs) (total encode_failures outs).
    split_and!; try done.
    + intros o' e ws Hin. apply elem_of_cons in Hin as [->|Hin]; [apply C1|by apply Ho].
    + intros w. rewrite frames_app. specialize (F1 w). cbn. destruct (taken o) as [b|]; [|apply sublist_nil_r in F1; rewrite F1; apply Hf].
      apply (sublist_app _ [b] _ (omap taken outs)); [done|apply Hf].
    + rewrite zlen_app. clear -D1 D2. counter_lia.
    + rewrite zlen_app. clear -X1 X2. counter_lia.
    + clear -E1 E2. counter_lia.
    + rewrite omap_app, alternates_app, L1. done.
  - eexists _, [o]. split; [done|]. change (mjoin (to_frames <$> [o])) with (to_frames o ++ []).
    change (mjoin (to_log <$> [o])) with (to_log o ++ []). rewrite !app_nil_r. cbn [total foldr omap list_omap]. rewrite !Z.add_0_r. split_and!.
    + intros o' e ws Hin. apply elem_of_cons in Hin as [->|Hin]; [apply C1|by apply elem_of_nil in Hin].
    + intros w. specialize (F1 w). by destruct (taken o).
    + exact D1.
    + exact X1.
    + exact E1.
    + rewrite L1. by eexists.
Qed.
(** The state at the end: the gauge, and the writers after the last turn. *)
Lemma run_end envs : forall wk wk' outs, worker_inv wk -> run envs wk = Some (wk', outs) ->
  sm_connected (wk_metrics wk') = negb (bool_decide (wk_writers wk' = []) || existsb (fun o => match to_flow o with Break => true | Continue => false end) outs)
  /\ forall o bytes, last outs = Some o -> taken o = Some bytes -> to_frames o = (fun w => (w, bytes)) <$> wk_writers wk'.
Proof.
  induction envs as [|env envs IH]; intros wk wk' outs Hi; cbn [worker_run].
  { intros [= <- <-]. split; [|done]. cbn. rewrite orb_false_r. apply Hi. }
  destruct (turn_total env wk) as [[wk1 o] E]. rewrite E. cbn [fst snd]. pose proof (turn_inv _ _ _ _ Hi E) as Hi1.
  pose proof (tf_frames _ _ _ (turn_effects _ _ _ _ Hi E)) as T. destruct (to_flow o) eqn:F.
  - destruct (run envs wk1) as [[wk2 outs2]|] eqn:R; [|done]. intros [= <- <-]. destruct (IH _ _ _ Hi1 R) as [G1 G2].
    split; [cbn; by rewrite F|]. intros o' bytes. destruct outs2 as [|o2 outs2]; [|apply G2].
    intros [= <-] Ht. destruct envs as [|env2 envs]; cbn [worker_run] in R; [|destruct (turn_total env2 wk1) as [[? ?] E2]; rewrite E2 in R; cbn in R; repeat case_match; simplify_eq/=].
    injection R as <-. by rewrite T, Ht.
  - intros [= <- <-]. split; [cbn; by rewrite F, orb_true_r|]. intros o' bytes [= <-] Ht. by rewrite T, Ht.
Qed.
End Run.

(** C30: the worker of a sink delivers what it takes, and says so: over any run, every
    event it takes is taken while a destination is connected; a destination gets the
    encoded events in the order in which they were taken, none twice; a frame goes to
    exactly the destinations that are still connected after its turn; the counters of delivered
    frames, failed writes and failed encodings move by exactly what happened, modulo 2^64;
    the gauge is up exactly while the loop runs with a destination connected; and the log reports an
    outage once before it reports that it ended. The loop's sleep always ends, so a run
    goes on as long as its environment does. *)
Theorem worker_delivers (powi : f64 -> Z -> f64) (encode_event : string -> ExportEvent -> option (list Z)) (destinations : nat)
    (export_id : string) (c : ConnectRetry) (name : string) (envs : list TurnEnv) :
  exists wk outs, worker_run powi encode_event destinations export_id envs (worker_new c (metrics_new name)) = Some (wk, outs)
  /\ (forall o e ws, o ∈ outs -> to_event o = Some (e, ws) -> ws <> [])
  /\ (forall w, frames_to w (mjoin (to_frames <$> outs)) `sublist_of` omap (taken encode_event export_id) outs)
  /\ wrap 64 (sm_delivered (wk_metrics wk)) = wrap 64 (zlen (mjoin (to_frames <$> outs)))
  /\ wrap 64 (sm_write_failed (wk_metrics wk))
      = wrap 64 (total (attempts encode_event export_id) outs - zlen (mjoin (to_frames <$> outs)))
  /\ wrap 64 (sm_encode_failed (wk_metrics wk)) = wrap 64 (total (encode_failures encode_event export_id) outs)
  /\ is_Some (alternates false (omap mark (mjoin (to_log <$> outs))))
  /\ sm_connected (wk_metrics wk) = negb (bool_decide (wk_writers wk = []) || existsb (fun o => match to_flow o with Break => true | Continue => false end) outs)
  /\ (forall o bytes, last outs = Some o -> taken encode_event export_id o = Some bytes -> to_frames o = (fun w => (w, bytes)) <$> wk_writers wk).
Proof.
  assert (worker_inv destinations (worker_new c (metrics_new name))) as Hi
    by (split; [split; [apply NoDup_nil_2|intros w H; by apply elem_of_nil in H]|done]).
  destruct (run_spec powi encode_event destinations export_id envs _ Hi) as (wk & outs & E & H1 & H2 & H3 & H4 & H5 & H6).
  destruct (run_end powi encode_event destinations export_id envs _ _ _ Hi E) as [G1 G2]. exists wk, outs. by split_and!.
Qed.

(** Finding: a destination that fails while another one of the sink stays connected is
    not dialled again: the sink reconnects only when it has no writer left, whatever the
    back-off and however long the run. *)
Theorem lost_destination_stays_lost (powi : f64 -> Z -> f64) (encode_event : string -> ExportEvent -> option (list Z)) (destinations : nat)
    (export_id : string) (envs : list TurnEnv) : forall wk wk' outs,
  wk_writers wk = [0%nat] -> Forall (fun env => te_write env 0%nat = true) envs ->
  worker_run powi encode_event destinations export_id envs wk = Some (wk', outs) ->
  wk_writers wk' = [0%nat] /\ forall o w b, o ∈ outs -> (w, b) ∈ to_frames o -> w = 0%nat.
Proof.
  induction envs as [|env envs IH]; intros wk wk' outs Hw Hf; cbn [worker_run].
  { intros [= <- <-]. split; [done|]. intros o w b H. by apply elem_of_nil in H. }
  apply Forall_cons in Hf as [H0 Hf]. destruct (worker_turn _ _ _ _ env wk) as [[wk1 o]|] eqn:E; [|done]. cbn [fst snd].
  assert (wk_writers wk1 = [0%nat] /\ forall w b, (w, b) ∈ to_frames o -> w = 0%nat) as [H1 Ho].
  { revert E. unfold worker_turn, receive. rewrite Hw, bool_decide_eq_false_2 by done. cbn. rewrite H0. cbn.
    destruct (te_shutdown env), (te_recv env) as [e| |]; try destruct (encode_event export_id e); intros [= <- <-]; (split; [done|]); intros w b Hin;
      cbn in Hin; try (by apply elem_of_nil in Hin). apply elem_of_cons in Hin as [[= -> ->]|Hin]; [done|by apply elem_of_nil in Hin]. }
  destruct (to_flow o).
  - destruct (worker_run _ _ _ _ envs wk1) as [[wk2 outs2]|] eqn:E2; [|done]. cbn. intros [= <- <-]. destruct (IH _ _ _ H1 Hf E2) as [W Hk].
    split; [done|]. intros o' w b Hin. apply elem_of_cons in Hin as [->|Hin]; [apply Ho|by apply Hk].
  - intros [= <- <-]. split; [done|]. intros o' w b Hin. apply elem_of_cons in Hin as [->|Hin]; [apply Ho|by apply elem_of_nil in Hin].
Qed.

(** Finding: [max_elapsed_ms] has no effect on a worker: two configurations that differ
    in nothing else give the same delays for ever. *)
Theorem max_elapsed_ignored (powi : f64 -> Z -> f64) (c : ConnectRetry) (n failures : Z) (jitter_factor : f64) :
  let c' := {| cr_initial_ms := cr_initial_ms c; cr_max_ms := cr_max_ms c; cr_multiplier := cr_multiplier c; cr_max_elapsed_ms := n;
               cr_jitter := cr_jitter c |} in
  delay_for_failure powi c' failures jitter_factor = delay_for_failure powi c failures jitter_factor.
Proof. done. Qed.
