(* ===== verification/Lmdb.v ===== *)
(** * Lmdb: the durable answer cache

    conduit-core/src/lookup/cache/lmdb.rs, the store on disk: the layout of a value, the
    operations on a shard ([get], [insert], [remove], the evictions) and their
    dispatch over the shards. LMDB itself is seen as the crate heed documents it: an
    environment is a transactional map, a transaction is a copy of it that [commit] makes
    the environment, and an abandoned one leaves no trace. Every call of heed may fail: the
    [wo_faults] of a [World] say which do, and theorems hold for all of them. The system
    clock is a function of the number of readings; [eviction_secs] and the log are left out. *)

From stdpp Require Import base list gmap.
From Stdlib Require Import ZArith Lia.
From S2P Require Import Prelude Effects CacheStore Compile.

#[local] Open Scope list_scope.
#[local] Open Scope Z_scope.

(** ** Values *)

(** [to_le_bytes] of a [k]-byte integer, and [from_le_bytes]. *)
Fixpoint to_le (k : nat) (n : Z) : list Z := match k with O => [] | S k => n mod 256 :: to_le k (n / 256) end.
Definition of_le (bs : list Z) : Z := foldr (fun b n => b + 256 * n) 0 bs.
Arguments to_le : simpl never.
Arguments of_le : simpl never.

Definition VALUE_HEADER_LEN : Z := 8 + 8 + 1 + 4.

Definition kind_to_u8 (k : EntryKind) : Z := match k with Positive => 0 | NxDomain => 1 | NoData => 2 | ServFail => 3 end.
Definition u8_to_kind (v : Z) : option EntryKind :=
  if v =? 0 then Some Positive else if v =? 1 then Some NxDomain else if v =? 2 then Some NoData else if v =? 3 then Some ServFail else None.

Record StoredEntry := { se_filled_at_unix : Z; se_expires_at_unix : Z; se_kind : EntryKind; se_wire : list Z }.

(** What [encode_entry] stores of an entry, with the reading of the system clock. *)
Definition to_stored (e : CacheEntry) (now now_unix : Z) : StoredEntry :=
  {| se_filled_at_unix := sat_sub now_unix (as_secs (sat_sub now (ce_filled_at e)));
     se_expires_at_unix := sat_add 64 now_unix (ttl_remaining_secs e now);
     se_kind := ce_kind e; se_wire := ce_wire e |}.
Definition encode_stored (s : StoredEntry) : list Z :=
  to_le 8 (se_filled_at_unix s) ++ to_le 8 (se_expires_at_unix s) ++ [kind_to_u8 (se_kind s)] ++
  to_le 4 (wrap 32 (zlen (se_wire s))) ++ se_wire s.
Definition encode_entry (e : CacheEntry) (now now_unix : Z) : list Z := encode_stored (to_stored e now now_unix).

(** [raw[a..b]] *)
Definition slice (raw : list Z) (a b : nat) : list Z := take (b - a) (drop a raw).
Definition decode_value (raw : list Z) : option StoredEntry :=
  if zlen raw <? VALUE_HEADER_LEN then None
  else
    let! kind := u8_to_kind (nth 16 raw 0) in
    let wire_len := of_le (slice raw 17 21) in
    if zlen raw <? VALUE_HEADER_LEN + wire_len then None
    else Some {| se_filled_at_unix := of_le (slice raw 0 8); se_expires_at_unix := of_le (slice raw 8 16);
                 se_kind := kind; se_wire := slice raw 21 (21 + Z.to_nat wire_len) |}.

(** An [Instant] is a signed 64-bit number of seconds with its nanoseconds. *)
Definition instant (ns : Z) : option Z := if bool_decide (- 2 ^ 63 <= ns / NANOS < 2 ^ 63) then Some ns else None.

(** [None] is the panic of [Instant + Duration]. *)
Definition stored_to_entry (s : StoredEntry) (now now_unix : Z) : option CacheEntry :=
  let remaining := sat_sub (se_expires_at_unix s) now_unix in
  let age := sat_sub now_unix (se_filled_at_unix s) in
  let! expires := instant (now + remaining * NANOS) in
  Some {| ce_kind := se_kind s; ce_wire := se_wire s;
          ce_filled_at := default now (instant (now - age * NANOS)); ce_expires_at := expires |}.

(** ** Environments and shards *)

Inductive Fault := MapFull | OtherFault.
Inductive LmdbBackendError :=
  | CreateDir | OpenEnv (source : Fault) | FormatMismatch (found : Z) | FormatMagic | Layout (message : string) | Io (source : Fault)
  | SetSyncFlags (source : Fault) | InvalidSyncConfig (message : string) | SpawnFlusher.
Inductive Stop := Fails (e : LmdbBackendError) | Panics.

(** The databases of an environment: the entries, and of the metadata the two keys in use. *)
Record Env := MkEnv { e_entries : gmap CacheKey (list Z); e_count : option (list Z); e_format : option (list Z) }.

(** The durability flags of an open environment. *)
Record EnvFlags := { NO_SYNC : bool; NO_META_SYNC : bool }.

Record LmdbShard := MkLmdbShard { sh_env : Env; sh_max_entries : Z; sh_map_size_bytes : Z; sh_dirty : bool; sh_flags : EnvFlags }.

Record LmdbPolicy := MkPolicy { po_when_full : LmdbWhenFull; po_sample_size : Z; po_sync : LmdbSync; po_sync_interval : option Z }.

(** The next [get] fails if the head of [wo_gets] says so, any other call of heed with the
    fault at the head of [wo_faults]; calls past the ends succeed. *)
Record World (S : Type) := MkWorld { wo_state : S; wo_gets : list bool; wo_faults : list (option Fault); wo_reads : nat; wo_evictions : Z }.
Arguments MkWorld {S}.
Arguments wo_state {S}.
Arguments wo_gets {S}.
Arguments wo_faults {S}.
Arguments wo_reads {S}.
Arguments wo_evictions {S}.

Abbreviation L S := (Eff (World S) Stop).

Definition get_state {S} : L S S := fun w => (Ok (wo_state w), w).
Definition put_state {S} (s : S) : L S unit := fun w => (Ok tt, MkWorld s (wo_gets w) (wo_faults w) (wo_reads w) (wo_evictions w)).

(** A fallible call of heed, and a [get]. *)
Definition heed {S} : L S unit := fun w =>
  match wo_faults w with
  | [] => (Ok tt, w)
  | f :: fs => (match f with None => Ok tt | Some x => Err (Fails (Io x)) end, MkWorld (wo_state w) (wo_gets w) fs (wo_reads w) (wo_evictions w))
  end.
Definition heed_get {S} : L S unit := fun w =>
  match wo_gets w with
  | [] => (Ok tt, w)
  | f :: fs => (if f then Err (Fails (Io OtherFault)) else Ok tt, MkWorld (wo_state w) fs (wo_faults w) (wo_reads w) (wo_evictions w))
  end.

Section Store.
Context (clock : nat -> Z).
Context (iter : gmap CacheKey (list Z) -> list (CacheKey * list Z)).

Definition unix_now {T} : L T Z := fun w => (Ok (clock (wo_reads w)), MkWorld (wo_state w) (wo_gets w) (wo_faults w) (S (wo_reads w)) (wo_evictions w)).

(** [wtxn.commit()], and then [shard.dirty.store(true)]. *)
Definition commit (env : Env) : L LmdbShard unit :=
  let* _u := heed in let* s := get_state in
  put_state (MkLmdbShard env (sh_max_entries s) (sh_map_size_bytes s) true (sh_flags s)).

Definition count_value (raw : option (list Z)) : Z :=
  match raw with Some raw => if zlen raw =? 8 then of_le raw else 0 | None => 0 end.

Definition shard_entry_count : L LmdbShard Z :=
  let* r := catch (let* _u := heed in heed_get) in let* s := get_state in
  match r with Ok _ => ret (count_value (e_count (sh_env s))) | Err _ => ret 0 end.

Definition shard_key_exists (key : CacheKey) : L LmdbShard bool :=
  let* _u := heed in let* _u := heed_get in let* s := get_state in ret (is_someb (e_entries (sh_env s) !! key)).

Definition bump_count (env : Env) (delta : Z) : L LmdbShard Env :=
  let* r := catch heed_get in
  let cur := match r with Ok _ => count_value (e_count env) | Err _ => 0 end in
  let next := if 0 <=? delta then sat_add 64 cur delta else sat_sub cur (- delta) in
  let* _u := heed in ret (MkEnv (e_entries env) (Some (to_le 8 next)) (e_format env)).

Definition with_entries (env : Env) (m : gmap CacheKey (list Z)) : Env := MkEnv m (e_count env) (e_format env).

(** The end of both evictions: [delete], [bump_count] and [commit] in a write transaction. *)
Definition delete_victim (victim : CacheKey) : L LmdbShard bool :=
  let* s := get_state in
  let* _u := heed in
  let* env := bump_count (with_entries (sh_env s) (delete victim (e_entries (sh_env s)))) (-1) in
  let* _u := commit env in ret true.

Definition evict_one_arbitrary : L LmdbShard bool :=
  let* _u := heed in let* _u := heed in let* s := get_state in
  let* _u := heed in
  match iter (e_entries (sh_env s)) with
  | [] => ret false
  | (key, _) :: _ => delete_victim key
  end.

(** The loop of [evict_from_sample]; each round is a call of the cursor. *)
Fixpoint sample_scan (now_unix : Z) (sample_size : Z) (l : list (CacheKey * list Z)) (seen : Z) (best_soon : option (Z * CacheKey))
    : L LmdbShard (option CacheKey) :=
  let* _u := heed in
  match l with
  | [] => ret (snd <$> best_soon)
  | (key, val) :: l =>
      let seen := seen + 1 in
      match decode_value val with
      | Some st =>
          if se_expires_at_unix st <=? now_unix then ret (Some key)
          else
            let best_soon := match best_soon with
                             | Some (exp, k) => if se_expires_at_unix st <? exp then Some (se_expires_at_unix st, key) else Some (exp, k)
                             | None => Some (se_expires_at_unix st, key)
                             end in
            if sample_size <=? seen then ret (snd <$> best_soon) else sample_scan now_unix sample_size l seen best_soon
      | None => if sample_size <=? seen then ret (snd <$> best_soon) else sample_scan now_unix sample_size l seen best_soon
      end
  end.

Definition evict_from_sample (sample_size : Z) : L LmdbShard bool :=
  let* _u := heed in let* _u := heed in let* s := get_state in
  let* now_unix := unix_now in
  let* victim := sample_scan now_unix sample_size (iter (e_entries (sh_env s))) 0 None in
  match victim with
  | None => ret false
  | Some victim => let* _u := heed in delete_victim victim
  end.

Definition evict_victim (p : LmdbPolicy) : L LmdbShard bool :=
  match po_when_full p with
  | FullRefuse => ret false
  | FullEvictOne => evict_one_arbitrary
  | FullSample => evict_from_sample (Z.max (po_sample_size p) 1)
  end.

(** [*evictions += 1] after a victim. *)
Definition timed_evict_victim (p : LmdbPolicy) : L LmdbShard bool :=
  let* ok := evict_victim p in
  if ok then fun w => (Ok true, MkWorld (wo_state w) (wo_gets w) (wo_faults w) (wo_reads w) (wo_evictions w + 1)) else ret false.

(** ** The operations on a shard *)

(** The first part of [insert_inner]: [None] refuses the fill, [Some replacing] goes on. *)
Definition make_room (p : LmdbPolicy) (key : CacheKey) : L LmdbShard (option bool) :=
  let* s := get_state in
  let max := sh_max_entries s in
  let* replacing := shard_key_exists key in
  if (0 <? max) && negb replacing then
    let* count := shard_entry_count in
    if max <=? count then
      match po_when_full p with
      | FullRefuse => ret None
      | _ => let* ok := timed_evict_victim p in ret (if ok then Some replacing else None)
      end
    else ret (Some replacing)
  else ret (Some replacing).

(** Its write transaction: [false] is [MapFull]. *)
Definition insert_put (key : CacheKey) (value : list Z) (replacing : bool) : L LmdbShard bool :=
  let* _u := heed in let* s := get_state in
  let env := with_entries (sh_env s) (<[key := value]> (e_entries (sh_env s))) in
  let* r := catch heed in
  match r with
  | Ok _ =>
      let* env := if replacing then ret env else bump_count env 1 in
      let* _u := commit env in ret true
  | Err (Fails (Io MapFull)) => ret false
  | Err e => throw e
  end.

(** One run of [insert_inner]; [again] is the recursive call of a run that may retry. *)
Definition insert_attempt (p : LmdbPolicy) (key : CacheKey) (entry : CacheEntry) (now : Z) (again : option (L LmdbShard bool)) : L LmdbShard bool :=
  let* room := make_room p key in
  match room with
  | None => ret false
  | Some replacing =>
      let* now_unix := unix_now in
      let* stored := insert_put key (encode_entry entry now now_unix) replacing in
      if stored then ret true
      else match po_when_full p, again with
           | FullRefuse, _ | _, None => ret false
           | _, Some again => let* ok := timed_evict_victim p in if ok then again else ret false
           end
  end.
Definition insert_inner (p : LmdbPolicy) (key : CacheKey) (entry : CacheEntry) (now : Z) (allow_retry : bool) : L LmdbShard bool :=
  insert_attempt p key entry now (if allow_retry then Some (insert_attempt p key entry now None) else None).

Definition shard_insert (p : LmdbPolicy) (key : CacheKey) (entry : CacheEntry) (now : Z) : L LmdbShard InsertOutcome := fun w =>
  let (r, w') := insert_inner p key entry now true (MkWorld (wo_state w) (wo_gets w) (wo_faults w) (wo_reads w) 0) in
  (Ok {| io_stored := match r with Ok stored => stored | Err _ => false end; io_evictions := wo_evictions w' |}, w').

(** The body of [remove] in its write transaction; every failure returns [false]. *)
Definition remove_txn (key : CacheKey) : L LmdbShard bool :=
  let* _u := heed in let* _u := heed_get in let* s := get_state in
  if is_someb (e_entries (sh_env s) !! key) then delete_victim key else ret false.
Definition shard_remove (key : CacheKey) : L LmdbShard bool :=
  let* r := catch (remove_txn key) in ret (match r with Ok b => b | Err _ => false end).

(** [entries.get] in a read transaction, decoded; [None] is every way to miss. *)
Definition read_stored (key : CacheKey) : L LmdbShard (option StoredEntry) :=
  let* r := catch (let* _u := heed in heed_get) in let* s := get_state in
  ret (match r with Ok _ => let! raw := e_entries (sh_env s) !! key in decode_value raw | Err _ => None end).

Definition shard_get_result (key : CacheKey) : L LmdbShard CacheGetResult :=
  let* st := read_stored key in
  match st with
  | None => ret GetMiss
  | Some st =>
      let* now_unix := unix_now in
      if se_expires_at_unix st <=? now_unix then let* _u := shard_remove key in ret GetMiss else ret GetHit
  end.

Definition get_fresh (key : CacheKey) (now : Z) : L LmdbShard (option CacheEntry) :=
  let* st := read_stored key in
  match st with
  | None => ret None
  | Some st =>
      let* now_unix := unix_now in
      if se_expires_at_unix st <=? now_unix then let* _u := shard_remove key in ret None
      else match stored_to_entry st now now_unix with Some e => ret (Some e) | None => throw Panics end
  end.

Definition shard_get (key : CacheKey) (now : Z) : L LmdbShard (option CacheEntry) :=
  let* r := shard_get_result key in
  match r with GetHit => get_fresh key now | _ => ret None end.

(** The loop of [clear_shard_entries] over the keys it collected, and the cursor that collects them. *)
Fixpoint heeds (n : nat) : L LmdbShard unit := match n with O => ret tt | S n => let* _u := heed in heeds n end.
Definition clear_shard_entries : L LmdbShard unit :=
  let* _u := heed in let* _u := heed in let* s := get_state in
  let keys := (iter (e_entries (sh_env s))).*1 in
  let* _u := heeds (S (length keys)) in
  let* _u := heeds (length keys) in
  let* _u := heed in
  commit (MkEnv (foldl (fun m k => delete k m) (e_entries (sh_env s)) keys) (Some (to_le 8 0)) (e_format (sh_env s))).

(** ** The backend *)

Record LmdbCacheBackend := MkLmdbBackend { lc_shards : list LmdbShard; lc_total_map_size_bytes : Z; lc_total_max_entries : Z; lc_policy : LmdbPolicy }.

Context (hash : CacheKey -> Z).

Definition shard_index_for_key (key : CacheKey) (n : nat) : nat := Z.to_nat (wrap 64 (hash key) mod Z.of_nat n).

Definition with_shards (b : LmdbCacheBackend) (shards : list LmdbShard) : LmdbCacheBackend :=
  MkLmdbBackend shards (lc_total_map_size_bytes b) (lc_total_max_entries b) (lc_policy b).

(** An operation on [self.shards[i]]; the index panics out of range. *)
Definition on_shard {A} (i : nat) (op : L LmdbShard A) : L LmdbCacheBackend A := fun w =>
  match lc_shards (wo_state w) !! i with
  | None => (Err Panics, w)
  | Some s =>
      let (r, w') := op (MkWorld s (wo_gets w) (wo_faults w) (wo_reads w) (wo_evictions w)) in
      (r, MkWorld (with_shards (wo_state w) (<[i := wo_state w']> (lc_shards (wo_state w)))) (wo_gets w') (wo_faults w') (wo_reads w') (wo_evictions w'))
  end.

Definition for_key {A} (key : CacheKey) (op : LmdbPolicy -> L LmdbShard A) : L LmdbCacheBackend A :=
  let* b := get_state in on_shard (shard_index_for_key key (length (lc_shards b))) (op (lc_policy b)).

Definition lmdb_get (key : CacheKey) (now : Z) : L LmdbCacheBackend (option CacheEntry) := for_key key (fun _ => shard_get key now).
Definition lmdb_insert (key : CacheKey) (entry : CacheEntry) (now : Z) : L LmdbCacheBackend InsertOutcome :=
  for_key key (fun p => shard_insert p key entry now).
Definition lmdb_remove (key : CacheKey) : L LmdbCacheBackend bool := for_key key (fun _ => shard_remove key).

Fixpoint clear_shards (ixs : list nat) : L LmdbCacheBackend unit :=
  match ixs with [] => ret tt | i :: ixs => let* _u := on_shard i clear_shard_entries in clear_shards ixs end.
Definition clear_all_entries : L LmdbCacheBackend unit :=
  let* b := get_state in clear_shards (seq 0 (length (lc_shards b))).

Fixpoint sum_counts (ixs : list nat) : L LmdbCacheBackend Z :=
  match ixs with [] => ret 0 | i :: ixs => let* n := on_shard i shard_entry_count in let* m := sum_counts ixs in ret (wrap 64 (n + m)) end.
Definition entry_count : L LmdbCacheBackend Z :=
  let* b := get_state in sum_counts (seq 0 (length (lc_shards b))).

Fixpoint evict_any (ixs : list nat) : L LmdbCacheBackend bool :=
  match ixs with
  | [] => ret false
  | i :: ixs => let* ok := on_shard i evict_one_arbitrary in if ok then ret true else evict_any ixs
  end.
Definition evict_one_arbitrary_any_shard : L LmdbCacheBackend bool :=
  let* b := get_state in evict_any (seq 0 (length (lc_shards b))).

Definition per_shard_max_entries (max_entries : Z) (n : nat) : list Z :=
  if max_entries =? 0 then replicate n 0
  else
    let base := max_entries / Z.of_nat n in
    let rem := max_entries mod Z.of_nat n in
    (fun i => if Z.of_nat i <? rem then base + 1 else base) <$> seq 0 n.

Definition set_cap (s : LmdbShard) (cap : Z) : LmdbShard := MkLmdbShard (sh_env s) cap (sh_map_size_bytes s) (sh_dirty s) (sh_flags s).
Definition lmdb_set_max_entries (max_entries : Z) (b : LmdbCacheBackend) : LmdbCacheBackend :=
  MkLmdbBackend (zip_with set_cap (lc_shards b) (per_shard_max_entries max_entries (length (lc_shards b))))
    (lc_total_map_size_bytes b) max_entries (lc_policy b).

Definition apply_policy (when_full : LmdbWhenFull) (sample_size : Z) (b : LmdbCacheBackend) : LmdbCacheBackend :=
  MkLmdbBackend (lc_shards b) (lc_total_map_size_bytes b) (lc_total_max_entries b)
    (MkPolicy when_full sample_size (po_sync (lc_policy b)) (po_sync_interval (lc_policy b))).

End Store.

(** ** The layout of a value *)

Lemma to_le_S k n : to_le (S k) n = n mod 256 :: to_le k (n / 256).
Proof. done. Qed.

Lemma length_to_le k n : length (to_le k n) = k.
Proof. revert n. induction k as [|k IH]; intros n; [done|]. rewrite to_le_S. simpl. by rewrite IH. Qed.

Lemma of_le_to_le k n : of_le (to_le k n) = n mod 2 ^ (8 * Z.of_nat k).
Proof.
  revert n. induction k as [|k IH]; intros n; [by rewrite Z.mod_1_r|]. rewrite to_le_S.
  change (of_le (n mod 256 :: to_le k (n / 256))) with (n mod 256 + 256 * of_le (to_le k (n / 256))). rewrite IH.
  replace (8 * Z.of_nat (S k)) with (8 + 8 * Z.of_nat k) by lia. rewrite Z.pow_add_r by lia. change (2 ^ 8) with 256.
  rewrite Z.rem_mul_r; [done|done|]. apply Z.pow_pos_nonneg; lia.
Qed.

Lemma of_le_fits w k n : w = 8 * Z.of_nat k -> fits w n -> of_le (to_le k n) = n.
Proof. intros -> H. rewrite of_le_to_le. by apply Z.mod_small. Qed.

Lemma slice_app (a b c : list Z) i j : length a = i -> length (a ++ b) = j -> slice (a ++ b ++ c) i j = b.
Proof.
  intros <- <-. unfold slice. rewrite drop_app_length, length_app.
  replace (length a + length b - length a)%nat with (length b) by lia. apply take_app_length.
Qed.

Lemma u8_kind k : u8_to_kind (kind_to_u8 k) = Some k.
Proof. by destruct k. Qed.

(** What is read back of a value; the wire is cut to its length as a [u32]. *)
Lemma decode_encode s :
  decode_value (encode_stored s) =
  Some {| se_filled_at_unix := wrap 64 (se_filled_at_unix s); se_expires_at_unix := wrap 64 (se_expires_at_unix s);
          se_kind := se_kind s; se_wire := take (Z.to_nat (wrap 32 (zlen (se_wire s)))) (se_wire s) |}.
Proof.
  unfold decode_value, encode_stored. set (n := wrap 32 (zlen (se_wire s))).
  set (f := to_le 8 (se_filled_at_unix s)). set (e := to_le 8 (se_expires_at_unix s)). set (l := to_le 4 n).
  assert (length f = 8 /\ length e = 8 /\ length l = 4)%nat as (Hf & He & Hl) by (split_and!; apply length_to_le).
  assert (0 <= n <= zlen (se_wire s)) as Hn.
  { unfold n, wrap. split; [apply Z.mod_pos_bound; lia|]. apply Z.mod_le; [apply zlen_nonneg|lia]. }
  assert (zlen (f ++ e ++ [kind_to_u8 (se_kind s)] ++ l ++ se_wire s) = 21 + zlen (se_wire s)) as Hz.
  { rewrite !zlen_app. unfold zlen. rewrite Hf, He, Hl. cbn [length]. lia. }
  assert (of_le l = n) as Hw.
  { unfold l. apply (of_le_fits 32); [done|]. apply (wrap_fits 32). lia. }
  assert (slice (f ++ e ++ [kind_to_u8 (se_kind s)] ++ l ++ se_wire s) 17 21 = l) as Hs17.
  { rewrite !app_assoc. rewrite <-app_assoc. apply slice_app; rewrite ?length_app, ?Hf, ?He, ?Hl; done. }
  rewrite Hz, Hs17, Hw. unfold VALUE_HEADER_LEN. rewrite !(proj2 (Z.ltb_ge _ _)) by lia.
  replace (nth 16 _ 0) with (kind_to_u8 (se_kind s)).
  2:{ rewrite app_nth2 by lia. rewrite Hf, app_nth2 by (rewrite He; lia). by rewrite He. }
  rewrite u8_kind. f_equal. f_equal.
  - unfold slice. rewrite drop_0, take_app_length' by done. unfold f. by rewrite of_le_to_le.
  - rewrite slice_app by (rewrite ?length_app, ?Hf, ?He; done). unfold e. by rewrite of_le_to_le.
  - unfold slice. rewrite !app_assoc, drop_app_length' by (rewrite !length_app, Hf, He, Hl; done). f_equal. lia.
Qed.

(** ** Calls that change nothing *)

Create HintDb lmdb.

(** [w'] is [w] after calls that only consulted heed and the clock. *)
Record same {T} (w w' : World T) : Prop := {
  same_state : wo_state w' = wo_state w;
  same_evictions : wo_evictions w' = wo_evictions w;
  same_gets : wo_gets w = [] -> wo_gets w' = [];
  same_faults : wo_faults w = [] -> wo_faults w' = [];
  same_reads : (wo_reads w <= wo_reads w')%nat;
}.

Lemma same_refl {T} (w : World T) : same w w.
Proof. by split. Qed.

Lemma same_trans {T} (a b c : World T) : same a b -> same b c -> same a c.
Proof. intros [S E G F R] [S' E' G' F' R']. split; [congruence|congruence|auto|auto|lia]. Qed.

Definition quiet {T A} (m : L T A) : Prop := forall w, same w (m w).2.

Lemma quiet_ret {T A} (a : A) : @quiet T A (ret a).
Proof. intros w. apply same_refl. Qed.
Lemma quiet_get_state {T} : quiet (@get_state T).
Proof. intros w. apply same_refl. Qed.
Lemma quiet_unix {T} clock : @quiet T Z (unix_now clock).
Proof. intros w. split; simpl; auto. Qed.
Lemma quiet_heed {T} : quiet (@heed T).
Proof. intros w. unfold heed. destruct (wo_faults w) as [|f fs] eqn:E; [apply same_refl|]. split; [done|done|done|congruence|done]. Qed.
Lemma quiet_heed_get {T} : quiet (@heed_get T).
Proof. intros w. unfold heed_get. destruct (wo_gets w) as [|f fs] eqn:E; [apply same_refl|]. split; [done|done|congruence|done|done]. Qed.
Lemma quiet_bind {T A B} (m : L T A) (k : A -> L T B) : quiet m -> (forall a, quiet (k a)) -> quiet (bind m k).
Proof.
  intros Hm Hk w. unfold bind. specialize (Hm w). destruct (m w) as [[a|e] w1]; [|done]. eapply same_trans; [exact Hm|]. apply Hk.
Qed.
Lemma quiet_catch {T A} (m : L T A) : quiet m -> quiet (catch m).
Proof. intros Hm w. apply Hm. Qed.
Lemma quiet_throw {T A} e : @quiet T A (throw e).
Proof. intros w. apply same_refl. Qed.
Lemma quiet_heeds n : quiet (heeds n).
Proof. induction n as [|n IH]; [apply quiet_ret|]. apply quiet_bind; [apply quiet_heed|done]. Qed.

#[export] Hint Resolve quiet_ret quiet_get_state quiet_unix quiet_heed quiet_heed_get quiet_bind quiet_catch quiet_throw quiet_heeds same_refl same_trans : lmdb.

Lemma quiet_entry_count : quiet shard_entry_count.
Proof. unfold shard_entry_count. repeat (apply quiet_bind; eauto with lmdb; intros ?). case_match; eauto with lmdb. Qed.
Lemma quiet_key_exists key : quiet (shard_key_exists key).
Proof. unfold shard_key_exists. repeat (apply quiet_bind; eauto with lmdb; intros ?). Qed.
Lemma quiet_bump env d : quiet (bump_count env d).
Proof. unfold bump_count. repeat (apply quiet_bind; eauto with lmdb; intros ?). Qed.
Lemma quiet_read_stored key : quiet (read_stored key).
Proof. unfold read_stored. repeat (apply quiet_bind; eauto with lmdb; intros ?). Qed.
Lemma quiet_scan now_unix n l : forall seen best, quiet (sample_scan now_unix n l seen best).
Proof. induction l as [|[k v] l IH]; intros seen best; simpl; apply quiet_bind; eauto with lmdb; intros _; case_all; eauto with lmdb. Qed.
#[export] Hint Resolve quiet_entry_count quiet_key_exists quiet_bump quiet_read_stored quiet_scan : lmdb.

(** A quiet first step: the rest runs in a world that looks the same. *)
Lemma post_quiet {T A B} (w : World T) (m : L T A) (k : A -> L T B) Q : quiet m ->
  (forall a w', same w w' -> (m w).1 = Ok a -> post w' (k a) Q) -> (forall e w', same w w' -> Q (Err e) w') -> post w (bind m k) Q.
Proof.
  intros Hm Hk He. apply post_bind. unfold post at 1. specialize (Hm w). destruct (m w) as [[a|e] w1] eqn:E; simpl in *; eauto.
Qed.

(** ** Evictions *)

Abbreviation contents w := (e_entries (sh_env (wo_state w))).
Definition zsize (m : gmap CacheKey (list Z)) : Z := Z.of_nat (size m).

(** The stored count is the number of entries. *)
Definition counted (s : LmdbShard) : Prop := count_value (e_count (sh_env s)) = zsize (e_entries (sh_env s)) /\ zsize (e_entries (sh_env s)) <= u64_max.

(** What no operation on the entries touches. *)
Definition settings (s : LmdbShard) : Z * Z * EnvFlags * option (list Z) :=
  (sh_max_entries s, sh_map_size_bytes s, sh_flags s, e_format (sh_env s)).

(** [w'] is [w] after [n] entries went. *)
Record shed (n : nat) (w w' : World LmdbShard) : Prop := {
  shed_sub : contents w' ⊆ contents w;
  shed_size : size (contents w) = (size (contents w') + n)%nat;
  shed_settings : settings (wo_state w') = settings (wo_state w);
  shed_gets : wo_gets w = [] -> wo_gets w' = [];
  shed_faults : wo_faults w = [] -> wo_faults w' = [];
  shed_reads : (wo_reads w <= wo_reads w')%nat;
  shed_counted : wo_gets w = [] -> counted (wo_state w) -> counted (wo_state w');
}.

Lemma shed_trans n m a b c : shed n a b -> shed m b c -> shed (n + m) a c.
Proof.
  intros [S1 Z1 C1 G1 F1 R1 K1] [S2 Z2 C2 G2 F2 R2 K2]. split; [by etrans|lia|congruence|auto|auto|lia|auto].
Qed.

Lemma same_shed w w' : same w w' -> shed 0 w w'.
Proof. intros [S E G F R]. split; rewrite ?S; auto. Qed.

Lemma count_bytes n : fits 64 n -> count_value (Some (to_le 8 n)) = n.
Proof.
  intros H. unfold count_value, zlen. rewrite length_to_le. cbn [Z.of_nat Z.eqb Pos.of_succ_nat Pos.succ Pos.eqb]. by apply (of_le_fits 64).
Qed.

(** What [bump_count] writes when its [get] succeeds. *)
Lemma bump_result env d w env' w' : bump_count env d w = (Ok env', w') ->
  e_entries env' = e_entries env /\ e_format env' = e_format env /\
  (wo_gets w = [] -> e_count env' =
    Some (to_le 8 (if 0 <=? d then sat_add 64 (count_value (e_count env)) d else sat_sub (count_value (e_count env)) (- d)))).
Proof.
  unfold bump_count. intros H. apply bind_inv in H as (r & w1 & H1 & H). apply bind_inv in H as (u & w2 & H2 & H).
  unfold ret in H. simplify_eq. split_and!; [done|done|]. intros Hg. unfold catch, heed_get in H1. rewrite Hg in H1. simpl in H1. by simplify_eq.
Qed.

Lemma commit_post env w (Q : result unit Stop -> World LmdbShard -> Prop) :
  (forall w', wo_state w' = MkLmdbShard env (sh_max_entries (wo_state w)) (sh_map_size_bytes (wo_state w)) true (sh_flags (wo_state w)) ->
    wo_evictions w' = wo_evictions w -> wo_gets w' = wo_gets w -> (wo_faults w = [] -> wo_faults w' = []) -> (wo_reads w <= wo_reads w')%nat -> Q (Ok tt) w') ->
  (forall e w', same w w' -> Q (Err e) w') -> post w (commit env) Q.
Proof.
  intros Hok Herr. unfold commit. apply post_bind. unfold post at 1, heed. destruct (wo_faults w) as [|[f|] fs] eqn:Ef; cbn.
  - by apply Hok.
  - apply Herr. split; cbn; congruence || done.
  - by apply Hok.
Qed.

Lemma size_delete_in (m : gmap CacheKey (list Z)) k : is_Some (m !! k) -> size m = (size (delete k m) + 1)%nat.
Proof.
  intros [v Hv]. rewrite map_size_delete_Some by eauto.
  assert (size m <> 0%nat) by (intros Hz; apply map_size_empty_iff in Hz; subst; by rewrite lookup_empty in Hv). lia.
Qed.

Lemma delete_victim_post w k : is_Some (contents w !! k) ->
  post w (delete_victim k) (fun r w' => wo_evictions w' = wo_evictions w /\
    ((r = Ok true /\ contents w' = delete k (contents w) /\ shed 1 w w') \/ ((exists e, r = Err e) /\ wo_state w' = wo_state w /\ shed 0 w w'))).
Proof.
  intros Hk.
  assert (forall e w', same w w' -> wo_evictions w' = wo_evictions w /\
    ((@Err bool Stop e = Ok true /\ contents w' = delete k (contents w) /\ shed 1 w w') \/ ((exists e', @Err bool Stop e = Err e') /\ wo_state w' = wo_state w /\ shed 0 w w'))) as Herr.
  { intros e w' Hs. split; [by apply same_evictions in Hs|]. right. split_and!; [eauto|by apply same_state|by apply same_shed]. }
  unfold delete_victim. apply post_quiet; [apply quiet_get_state| |done]. intros s w1 Hs1 E. cbn in E. injection E as <-.
  apply post_quiet; [apply quiet_heed| |eauto with lmdb]. intros [] w2 Hs2 _.
  pose proof (same_trans _ _ _ Hs1 Hs2) as Hs. apply post_bind. unfold post at 1.
  pose proof (quiet_bump (with_entries (sh_env (wo_state w)) (delete k (contents w))) (-1) w2) as Hq.
  destruct (bump_count _ _ w2) as [[env|e] w3] eqn:Eb; simpl in *; [|eauto with lmdb].
  apply bump_result in Eb as (He & Hf & Hc). apply post_bind. apply commit_post.
  2:{ intros e w4 Hs4. apply Herr. eauto with lmdb. }
  intros w4 Hw4 Hev Hg Hfa Hr. apply post_ret. pose proof (same_trans _ _ _ Hs Hq) as Hq'. destruct Hq' as [Q1 Q2 Q3 Q5 Q4], Hs as [P1 P2 P3 P5 P4].
  split; [congruence|]. left. rewrite Hw4. cbn. rewrite He. cbn. split_and!; [done|done|]. split.
  - rewrite Hw4. cbn. rewrite He. apply delete_subseteq.
  - rewrite Hw4. cbn. rewrite He. by apply size_delete_in.
  - rewrite Hw4, Q1. unfold settings. cbn. by rewrite Hf.
  - intros H0. rewrite Hg. auto.
  - auto.
  - lia.
  - intros H0 [Hc1 Hc2]. rewrite Hw4. unfold counted, zsize in *. cbn [sh_env]. rewrite He, Hc by auto. cbn [with_entries e_entries e_count Z.leb Z.opp Z.compare].
    pose proof (size_delete_in _ _ Hk) as Hsz. unfold sat_sub, u64_max in *.
    rewrite count_bytes by (rewrite Hc1; unfold fits; lia). rewrite Hc1. lia.
Qed.

(** What a run that may evict one entry leaves. *)
Definition evict_post (e : Z) (w : World LmdbShard) (r : result bool Stop) (w' : World LmdbShard) : Prop :=
  (r = Ok true /\ shed 1 w w' /\ wo_evictions w' = wo_evictions w + e) \/
  (r <> Ok true /\ wo_state w' = wo_state w /\ shed 0 w w' /\ wo_evictions w' = wo_evictions w).

Lemma evict_quiet e w w' r : same w w' -> r <> Ok true -> evict_post e w r w'.
Proof. intros H Hr. right. split_and!; [done|by apply same_state|by apply same_shed|by apply same_evictions]. Qed.

Lemma evict_same e w w1 r w' : same w w1 -> evict_post e w1 r w' -> evict_post e w r w'.
Proof.
  intros H [(Hr & Hs & He)|(Hr & Ht & Hs & He)]; [left|right].
  - split_and!; [done| |rewrite He; f_equal; by apply same_evictions]. apply (shed_trans 0 1 _ w1); [by apply same_shed|done].
  - split_and!; [done|rewrite Ht; by apply same_state| |rewrite He; by apply same_evictions].
    apply (shed_trans 0 0 _ w1); [by apply same_shed|done].
Qed.

Lemma delete_victim_evicts w k : is_Some (contents w !! k) -> post w (delete_victim k) (evict_post 0 w).
Proof.
  intros Hk. eapply post_mono; [by apply delete_victim_post|]. intros r w' [He [(-> & _ & Hs)|([e ->] & Ht & Hs)]]; [left|right].
  - split_and!; [done|done|lia].
  - by split_and!.
Qed.

Section Evictions.
Context (clock : nat -> Z) (iter : gmap CacheKey (list Z) -> list (CacheKey * list Z)).
Context (iter_perm : forall m, iter m ≡ₚ map_to_list m).

Lemma iter_key m k : k ∈ (iter m).*1 -> is_Some (m !! k).
Proof.
  rewrite iter_perm. intros H. apply list_elem_of_fmap in H as ([k' v] & -> & Hin). apply elem_of_map_to_list in Hin. by exists v.
Qed.

Lemma scan_victim now_unix n l : forall seen best w k, (sample_scan now_unix n l seen best w).1 = Ok (Some k) ->
  k ∈ l.*1 \/ snd <$> best = Some k.
Proof.
  induction l as [|[k' v] l IH]; intros seen best w k; cbn [sample_scan]; intros H;
    destruct (bind _ _ w) as [r w2] eqn:E; cbn in H; subst r; apply bind_inv in E as (u & w1 & _ & E).
  - unfold ret in E. simplify_eq. by right.
  - cbn. repeat case_match; unfold ret in E; simplify_eq/=; try (left; by constructor); try (right; congruence);
      try (edestruct IH as [?|Hb]; [by rewrite E|left; by constructor|]; simplify_eq/=; try (left; by constructor); by right).
    all: right; congruence.
Qed.

(** A quiet call of an eviction, which stops it when it fails. *)
Ltac quiet_step := apply post_quiet; [eauto with lmdb| |intros; eapply evict_quiet; [eauto 10 with lmdb|done]].

Lemma evict_one_post w : post w (evict_one_arbitrary iter) (evict_post 0 w).
Proof.
  unfold evict_one_arbitrary. do 2 (quiet_step; intros [] ? ? _).
  quiet_step. intros s w3 Hs3 E. injection E as <-.
  quiet_step. intros [] w4 Hs4 _.
  assert (same w w4) as Hs by eauto with lmdb.
  destruct (iter _) as [|[k v] l] eqn:El; [apply post_ret; by apply evict_quiet|].
  eapply post_mono; [apply delete_victim_evicts|intros ? ?; by apply evict_same].
  apply iter_key. rewrite (same_state _ _ Hs4), (same_state _ _ Hs3). rewrite El. by left.
Qed.

Lemma evict_sample_post n w : post w (evict_from_sample clock iter n) (evict_post 0 w).
Proof.
  unfold evict_from_sample. do 2 (quiet_step; intros [] ? ? _).
  quiet_step. intros s w3 Hs3 E. injection E as <-.
  quiet_step. intros u w4 Hs4 _.
  quiet_step. intros [k|] w5 Hs5 Ek.
  - quiet_step. intros [] w6 Hs6 _.
    assert (same w w6) as Hs by eauto 10 with lmdb.
    eapply post_mono; [apply delete_victim_evicts|intros ? ?; by apply evict_same].
    apply scan_victim in Ek as [Hk|?]; [|done]. apply iter_key in Hk.
    by rewrite (same_state _ _ Hs6), (same_state _ _ Hs5), (same_state _ _ Hs4), (same_state _ _ Hs3).
  - apply post_ret. apply evict_quiet; [eauto 10 with lmdb|done].
Qed.

Lemma timed_evict_post p w : post w (timed_evict_victim clock iter p) (evict_post 1 w).
Proof.
  unfold timed_evict_victim. apply post_bind.
  assert (post w (evict_victim clock iter p) (evict_post 0 w)) as H.
  { unfold evict_victim. destruct (po_when_full p); [apply post_ret, evict_quiet; eauto with lmdb|apply evict_one_post|apply evict_sample_post]. }
  eapply post_mono; [exact H|]. intros r w' [(-> & [] & He)|(Hr & Ht & Hs & He)]; [left|].
  - cbn. split_and!; [done|by split|lia].
  - destruct r as [[]|e]; [done| |]; right; by split_and!.
Qed.
End Evictions.

(** ** Insertion *)

Section Insertion.
Context (clock : nat -> Z) (iter : gmap CacheKey (list Z) -> list (CacheKey * list Z)).
Context (iter_perm : forall m, iter m ≡ₚ map_to_list m).
Context (p : LmdbPolicy) (key : CacheKey) (entry : CacheEntry) (now : Z).

(** After some evictions [m] is left, and the value is there if it was stored. *)
Definition insert_effect (stored : bool) (w w' : World LmdbShard) : Prop := exists (m : gmap CacheKey (list Z)) (n i : nat),
  m ⊆ contents w /\ size (contents w) = (size m + n)%nat /\ wo_evictions w' = wo_evictions w + Z.of_nat n /\
  contents w' = (if stored then <[key := encode_entry entry now (clock i)]> m else m) /\ (wo_reads w <= i)%nat /\ (stored = true -> i < wo_reads w')%nat /\
  settings (wo_state w') = settings (wo_state w) /\ (wo_gets w = [] -> wo_gets w' = []) /\ (wo_faults w = [] -> wo_faults w' = []) /\
  (wo_gets w = [] -> counted (wo_state w) -> zsize (contents w) < u64_max -> counted (wo_state w')).

Lemma shed_effect n w w1 stored w' : shed n w w1 -> wo_evictions w1 = wo_evictions w + Z.of_nat n ->
  insert_effect stored w1 w' -> insert_effect stored w w'.
Proof.
  intros [S1 Z1 C1 G1 F1 R1 K1] E1 (m & n' & i & Sm & Zm & Em & Hc & Hi & Hi' & Hset & Hg & Hfa & Hk). exists m, (n + n')%nat, i.
  split_and!; [by etrans|lia|lia|done|lia|done|congruence|auto|auto|]. intros H0 H1 H2. apply Hk; [auto|auto|]. unfold zsize in *. lia.
Qed.

Lemma shed_refused n w w' : shed n w w' -> wo_evictions w' = wo_evictions w + Z.of_nat n -> insert_effect false w w'.
Proof.
  intros [S1 Z1 C1 G1 F1 R1 K1] E1. exists (contents w'), n, (wo_reads w). split_and!; auto with lia.
Qed.

Lemma evict_shed r w w' : evict_post 1 w r w' -> exists n, shed n w w' /\ wo_evictions w' = wo_evictions w + Z.of_nat n.
Proof. intros [(-> & Hs & He)|(Hr & Ht & Hs & He)]; [exists 1%nat|exists 0%nat]; split; (done || lia). Qed.

Lemma key_exists_result w b : (shard_key_exists key w).1 = Ok b -> b = is_someb (contents w !! key).
Proof.
  intros Eb. unfold shard_key_exists in Eb. destruct (bind _ _ w) as [r w'] eqn:E; cbn in Eb; subst r.
  apply bind_inv in E as ([] & w3 & H3 & E). apply bind_inv in E as ([] & w4 & H4 & E). unfold get_state, bind, ret in E. simplify_eq.
  pose proof (quiet_heed w) as Q1. rewrite H3 in Q1. pose proof (quiet_heed_get w3) as Q2. rewrite H4 in Q2. cbn in Q1, Q2.
  by rewrite (same_state _ _ Q2), (same_state _ _ Q1).
Qed.

Lemma make_room_post w : post w (make_room clock iter p key) (fun r w' => exists n, shed n w w' /\ wo_evictions w' = wo_evictions w + Z.of_nat n /\
  forall b, r = Ok (Some b) -> b = is_someb (contents w' !! key)).
Proof.
  assert (forall w' (r : result (option bool) Stop), same w w' -> (forall b, r = Ok (Some b) -> b = is_someb (contents w' !! key)) ->
    exists n, shed n w w' /\ wo_evictions w' = wo_evictions w + Z.of_nat n /\ forall b, r = Ok (Some b) -> b = is_someb (contents w' !! key)) as Hq.
  { intros w' r Hs Hb. exists 0%nat. split_and!; [by apply same_shed|pose proof (same_evictions _ _ Hs); lia|done]. }
  unfold make_room. apply post_quiet; [eauto with lmdb| |intros; apply Hq; [eauto with lmdb|done]]. intros s w1 Hs1 E. injection E as <-.
  apply post_quiet; [eauto with lmdb| |intros; apply Hq; [eauto with lmdb|done]]. intros b w2 Hs2 Eb.
  assert (same w w2) as Hs by eauto with lmdb.
  assert (b = is_someb (contents w2 !! key)) as Hb.
  { rewrite (same_state _ _ Hs2). by eapply key_exists_result. }
  assert (forall w', same w2 w' -> exists n, shed n w w' /\ wo_evictions w' = wo_evictions w + Z.of_nat n /\
    forall b', @Ok (option bool) Stop (Some b) = Ok (Some b') -> b' = is_someb (contents w' !! key)) as Hgo.
  { intros w' Hs'. apply Hq; [eauto with lmdb|]. intros b' [= <-]. by rewrite (same_state _ _ Hs'). }
  destruct ((0 <? sh_max_entries (wo_state w)) && negb b) eqn:Ec; [|apply post_ret, Hgo, same_refl].
  apply andb_prop in Ec as [_ Hnb]. apply negb_true_iff in Hnb. subst b. rewrite Hnb in *.
  apply post_quiet; [eauto with lmdb| |intros; apply Hq; [eauto with lmdb|done]]. intros c w3 Hs3 _.
  destruct (sh_max_entries (wo_state w) <=? c); [|by apply post_ret, Hgo].
  assert (post w3 (let* ok := timed_evict_victim clock iter p in ret (if ok then Some false else None)) (fun r w' => exists n, shed n w w' /\
    wo_evictions w' = wo_evictions w + Z.of_nat n /\ forall b, r = Ok (Some b) -> b = is_someb (contents w' !! key))) as Hev.
  { apply post_bind. eapply post_mono; [by apply timed_evict_post|]. intros r w4 H4. apply evict_shed in H4 as (n & Hn & He).
    assert (shed n w w4) as Hsn by (apply (shed_trans 0 n _ w3); [apply same_shed; eauto with lmdb|done]).
    assert (wo_evictions w4 = wo_evictions w + Z.of_nat n) as Hev4 by (rewrite He, (same_evictions _ _ Hs3), (same_evictions _ _ Hs); done).
    assert (is_someb (contents w4 !! key) = false) as Hne.
    { destruct (contents w4 !! key) as [v|] eqn:El; [|done]. exfalso. pose proof (lookup_weaken _ _ _ _ El (shed_sub _ _ _ Hn)) as Hw.
      rewrite (same_state _ _ Hs3) in Hw. by rewrite Hw in Hnb. }
    destruct r as [[]|e]; try apply post_ret; exists n; split_and!; try done. intros b [= <-]. done. }
  destruct (po_when_full p); [apply post_ret, Hq; [eauto with lmdb|done]|exact Hev|exact Hev].
Qed.

Lemma size_insert_new (m : gmap CacheKey (list Z)) v : is_someb (m !! key) = false -> size (<[key := v]> m) = (size m + 1)%nat.
Proof. intros H. rewrite map_size_insert_None; [lia|]. by destruct (m !! key). Qed.
Lemma size_insert_old (m : gmap CacheKey (list Z)) v : is_someb (m !! key) = true -> size (<[key := v]> m) = size m.
Proof. intros H. rewrite map_size_insert_Some; [done|]. destruct (m !! key); [eauto|done]. Qed.
(** The put stores the value or changes nothing. *)
Record put_effect (v : list Z) (w w' : World LmdbShard) : Prop := {
  put_contents : contents w' = <[key := v]> (contents w);
  put_evictions : wo_evictions w' = wo_evictions w;
  put_reads : (wo_reads w <= wo_reads w')%nat;
  put_settings : settings (wo_state w') = settings (wo_state w);
  put_gets : wo_gets w = [] -> wo_gets w' = [];
  put_faults : wo_faults w = [] -> wo_faults w' = [];
  put_counted : wo_gets w = [] -> counted (wo_state w) -> zsize (contents w) < u64_max -> counted (wo_state w');
}.

(** The environment that [insert_put] commits. *)
Lemma put_env_counted v (b : bool) w3 w4 (s : LmdbShard) env' :
  let env := with_entries (sh_env s) (<[key := v]> (e_entries (sh_env s))) in
  b = is_someb (e_entries (sh_env s) !! key) -> (if b then ret env else bump_count env 1) w3 = (Ok env', w4) ->
  e_entries env' = e_entries env /\ e_format env' = e_format env /\
  (wo_gets w3 = [] -> counted s -> zsize (e_entries (sh_env s)) < u64_max ->
    count_value (e_count env') = zsize (e_entries env') /\ zsize (e_entries env') <= u64_max).
Proof.
  intros env -> H. destruct (is_someb _) eqn:Hb.
  - unfold ret in H. injection H as <- <-. split_and!; [done|done|]. intros _ [C1 C2] _. unfold env, zsize in *. cbn [with_entries e_entries e_count].
    by rewrite size_insert_old.
  - apply bump_result in H as (He & Hf & Hc). split_and!; [done|done|]. intros H0 [C1 C2] Hlt. rewrite Hc, He by done.
    unfold env, zsize in *. cbn [with_entries e_entries e_count Z.leb Z.compare]. rewrite size_insert_new by done.
    unfold sat_add, u64_max in *. rewrite count_bytes by (rewrite C1; unfold fits; lia). rewrite C1. lia.
Qed.

Lemma insert_put_post v w : post w (insert_put key v (is_someb (contents w !! key)))
  (fun r w' => (r = Ok true /\ put_effect v w w') \/ (r <> Ok true /\ same w w')).
Proof.
  set (b := is_someb _). unfold insert_put.
  apply post_quiet; [eauto with lmdb| |intros; by right]. intros [] w1 Hs1 _.
  apply post_quiet; [eauto with lmdb| |right; eauto with lmdb]. intros s w2 Hs2 E. injection E as <-.
  rewrite (same_state _ _ Hs1). set (env := with_entries _ _).
  apply post_quiet; [eauto with lmdb| |right; eauto with lmdb]. intros [[]|e] w3 Hs3 _; assert (same w w3) as Hs by eauto with lmdb.
  2:{ destruct e as [[]|]; try (by right). by destruct source; right. }
  apply post_bind.
  assert (quiet (if b then ret env else bump_count env 1)) as Hqb by (destruct b; eauto with lmdb). specialize (Hqb w3). unfold post at 1.
  destruct ((if b then ret env else bump_count env 1) w3) as [[env'|e] w4] eqn:Eb; cbn in Hqb |- *; [|right; eauto with lmdb].
  assert (same w w4) as Hs4 by eauto with lmdb. apply post_bind, commit_post; [|right; eauto with lmdb].
  intros w5 Hw5 Hev Hg Hfa Hr. apply post_ret. left. split; [done|]. rewrite (same_state _ _ Hs4) in Hw5.
  apply put_env_counted in Eb as (He & Hf & Hc); [|done]. destruct Hs4 as [S1 S2 S3 S5 S4], Hs as [T1 T2 T3 T5 T4]. split.
  - by rewrite Hw5.
  - congruence.
  - lia.
  - rewrite Hw5. unfold settings. cbn. by rewrite Hf.
  - intros H0. rewrite Hg. auto.
  - auto.
  - intros H0 H1 H2. rewrite Hw5. by apply Hc; [apply T3|..].
Qed.

Definition stored_of (r : result bool Stop) : bool := match r with Ok b => b | Err _ => false end.
Abbreviation effect w := (fun r w' => insert_effect (stored_of r) w w').

Lemma insert_attempt_post again w : (forall m, again = Some m -> forall w, post w m (effect w)) ->
  post w (insert_attempt clock iter p key entry now again) (effect w).
Proof.
  intros Hagain. unfold insert_attempt. apply post_bind. eapply post_mono; [by apply make_room_post|]. intros r w1 (n & Hn & He & Hb).
  assert (forall w' r, shed 0 w1 w' -> wo_evictions w' = wo_evictions w1 -> stored_of r = false -> effect w r w') as Hno.
  { intros w' r' Hs Hev ->. eapply shed_refused; [by eapply shed_trans|]. lia. }
  destruct r as [[b|]|e]; [|by apply post_ret, Hno; [apply same_shed, same_refl|..]|by apply Hno; [apply same_shed, same_refl|..]].
  rewrite (Hb b eq_refl). clear b Hb. apply post_bind. unfold post at 1, unix_now. cbn [fst snd]. set (w2 := MkWorld _ _ _ _ _).
  assert (same w1 w2) as Hs2 by (apply (quiet_unix clock w1)). rewrite <-(same_state _ _ Hs2). apply post_bind.
  eapply post_mono; [apply insert_put_post|]. intros r w3 [(-> & [P1 P2 P3 P4 P5 P7 P6])|(Hr & Hs3)].
  - apply post_ret. eapply shed_effect; [exact Hn|exact He|].     exists (contents w1), 0%nat, (wo_reads w1). rewrite P1, P2. cbn in *. split_and!; try done; auto with lia.
  - assert (same w1 w3) as Hs by eauto with lmdb.
    assert (forall r, stored_of r = false -> effect w r w3) as Hno3 by (intros; apply Hno; [by apply same_shed|by apply same_evictions|done]).
    destruct r as [[]|e]; [done| |by apply Hno3]. destruct again as [m|]; [|by destruct (po_when_full p); apply post_ret, Hno3].
    assert (post w3 (let* ok := timed_evict_victim clock iter p in if ok then m else ret false) (effect w)) as Hre.
    { apply post_bind. eapply post_mono; [by apply timed_evict_post|]. intros r w4 Hev. apply evict_shed in Hev as (k & Hk & Hke).
      assert (shed (n + k) w w4) as Hsh by (eapply shed_trans; [exact Hn|]; by apply (shed_trans 0 k _ w3); [apply same_shed|]).
      assert (wo_evictions w4 = wo_evictions w + Z.of_nat (n + k)) as Hev by (rewrite Hke, (same_evictions _ _ Hs); lia).
      destruct r as [[]|e]; [|by apply post_ret; eapply shed_refused|by eapply shed_refused].
      eapply post_mono; [by apply Hagain|]. intros r w5 H5. by eapply shed_effect. }
    destruct (po_when_full p); [by apply post_ret, Hno3|exact Hre|exact Hre].
Qed.

Lemma insert_inner_post w b : post w (insert_inner clock iter p key entry now b) (effect w).
Proof. apply insert_attempt_post. intros m Hm w'. destruct b; simplify_eq. apply insert_attempt_post. intros m Hm. done. Qed.
End Insertion.

(** ** Removal, lookup and clearing *)

Definition remove_effect (key : CacheKey) (w : World LmdbShard) (r : result bool Stop) (w' : World LmdbShard) : Prop :=
  (r = Ok true /\ is_Some (contents w !! key) /\ contents w' = delete key (contents w) /\ shed 1 w w') \/
  (r = Ok false /\ wo_state w' = wo_state w /\ shed 0 w w').

Lemma remove_post key w : post w (shard_remove key) (remove_effect key w).
Proof.
  unfold shard_remove. apply post_bind, post_catch. unfold remove_txn.
  assert (forall e w', same w w' -> post w' (ret (match @Err bool Stop e with Ok b => b | Err _ => false end)) (remove_effect key w)) as Hq.
  { intros e w' Hs. right. split_and!; [done|by apply same_state|by apply same_shed]. }
  apply post_quiet; [eauto with lmdb| |done]. intros [] w1 Hs1 _.
  apply post_quiet; [eauto with lmdb| |eauto with lmdb]. intros [] w2 Hs2 _.
  apply post_quiet; [eauto with lmdb| |eauto with lmdb]. intros s w3 Hs3 E. injection E as <-.
  assert (same w w3) as Hs by eauto with lmdb. assert (shed 0 w w3) as Hsh by by apply same_shed.
  rewrite <-(same_state _ _ Hs3), (same_state _ _ Hs). destruct (contents w !! key) as [v|] eqn:El; cbn [is_someb].
  - eapply post_mono; [apply delete_victim_post; by rewrite (same_state _ _ Hs), El|].
    intros r w4 [_ [(-> & Hc & H1)|([e ->] & Ht & H0)]]; apply post_ret; [left|right].
    + rewrite (same_state _ _ Hs) in Hc. split_and!; [done|eauto|done|by apply (shed_trans 0 1 _ w3)].
    + split_and!; [done|by rewrite Ht, (same_state _ _ Hs)|by apply (shed_trans 0 0 _ w3)].
  - apply post_ret. right. split_and!; [done|by apply same_state|done].
Qed.

Lemma read_stored_result key w st : (read_stored key w).1 = Ok (Some st) -> exists raw, contents w !! key = Some raw /\ decode_value raw = Some st.
Proof.
  intros H. unfold read_stored in H. destruct (bind _ _ w) as [r w'] eqn:E. cbn in H. subst r.
  apply bind_inv in E as (r & w1 & H1 & E). unfold get_state, bind, ret in E. injection E as E <-.
  assert (quiet (catch (let* _u := @heed LmdbShard in heed_get))) as Hq by eauto with lmdb. specialize (Hq w). rewrite H1 in Hq. cbn in Hq.
  rewrite (same_state _ _ Hq) in E. destruct r; [|done]. destruct (contents w !! key) as [raw|] eqn:Er; [|done]. eauto.
Qed.

Section Lookup.
Context (clock : nat -> Z) (key : CacheKey) (now : Z).

(** A value that is stored for the key, and a reading of the clock during the run. *)
Definition read_at (w w' : World LmdbShard) (st : StoredEntry) (i : nat) : Prop :=
  (exists raw, contents w !! key = Some raw /\ decode_value raw = Some st) /\ (wo_reads w <= i < wo_reads w')%nat.

Inductive get_effect (w w' : World LmdbShard) : result (option CacheEntry) Stop -> Prop :=
  | get_hit st i e : read_at w w' st i -> clock i < se_expires_at_unix st -> stored_to_entry st now (clock i) = Some e ->
      wo_state w' = wo_state w -> shed 0 w w' -> get_effect w w' (Ok (Some e))
  | get_panics st i : read_at w w' st i -> clock i < se_expires_at_unix st -> stored_to_entry st now (clock i) = None ->
      wo_state w' = wo_state w -> shed 0 w w' -> get_effect w w' (Err Panics)
  | get_miss : wo_state w' = wo_state w -> shed 0 w w' -> get_effect w w' (Ok None)
  | get_expired st i : read_at w w' st i -> se_expires_at_unix st <= clock i ->
      contents w' = delete key (contents w) -> shed 1 w w' -> get_effect w w' (Ok None).

Lemma get_effect_same w w1 w' r : same w w1 -> get_effect w1 w' r -> get_effect w w' r.
Proof.
  intros Hs H. pose proof (same_state _ _ Hs) as Hst. pose proof (same_reads _ _ Hs) as Hr. pose proof (same_shed _ _ Hs) as Hsh.
  assert (forall st i, read_at w1 w' st i -> read_at w w' st i) as Hread.
  { intros st i [Ha Hb]. rewrite Hst in Ha. split; [done|lia]. }
  assert (forall n, shed n w1 w' -> shed n w w') as Hshed by (intros n; by apply (shed_trans 0 n)).
  destruct H as [st i e ? ? ? W ?|st i ? ? ? W ?|W ?|st i ? ? W ?]; rewrite Hst in W.
  - by apply (get_hit _ _ st i); auto.
  - by apply (get_panics _ _ st i); auto.
  - by apply get_miss; auto.
  - by apply (get_expired _ _ st i); auto.
Qed.

(** Both lookups end alike: an expired value is removed. *)
Lemma expire_post w w1 w2 i st : (exists raw, contents w !! key = Some raw /\ decode_value raw = Some st) -> same w w1 -> same w1 w2 ->
  (wo_reads w1 <= i < wo_reads w2)%nat -> se_expires_at_unix st <= clock i ->
  post w2 (let* _u := shard_remove key in ret None) (fun r w' => get_effect w w' r).
Proof.
  intros Hraw H1 H2 Hi He. assert (same w w2) as Hs by eauto with lmdb. apply post_bind. eapply post_mono; [apply remove_post|].
  pose proof (same_shed _ _ Hs) as Hsh. intros r w3 [(-> & _ & Hc & H3)|(-> & Ht & H3)]; apply post_ret.
  - rewrite (same_state _ _ Hs) in Hc. apply (get_expired _ _ st i); [split; [done|]|done|done|by apply (shed_trans 0 1 _ w2)].
    pose proof (same_reads _ _ H1). pose proof (shed_reads _ _ _ H3). lia.
  - apply get_miss; [by rewrite Ht, (same_state _ _ Hs)|by apply (shed_trans 0 0 _ w2)].
Qed.

Lemma get_fresh_post w : post w (get_fresh clock key now) (fun r w' => get_effect w w' r).
Proof.
  unfold get_fresh. apply post_bind. unfold post at 1. pose proof (quiet_read_stored key w) as Hs1.
  destruct (read_stored key w) as [[[st|]|e] w1] eqn:E; cbn in Hs1 |- *.
  - pose proof (read_stored_result key w st) as Hraw. rewrite E in Hraw. specialize (Hraw eq_refl).
    apply post_bind. unfold post at 1, unix_now. cbn [fst snd]. set (w2 := MkWorld _ _ _ _ _).
    assert (same w1 w2) as Hs2 by (apply (quiet_unix clock w1)). assert (same w w2) as Hs by eauto with lmdb.
    assert (read_at w w2 st (wo_reads w1)) as Hr by (split; [done|]; cbn; pose proof (same_reads _ _ Hs1); lia).
    destruct (se_expires_at_unix st <=? clock (wo_reads w1)) eqn:Ex; [apply Z.leb_le in Ex|apply Z.leb_gt in Ex].
    + apply (expire_post w w1 w2 (wo_reads w1) st); try done. cbn. lia.
    + destruct (stored_to_entry st now (clock (wo_reads w1))) as [e|] eqn:Ee.
      * apply post_ret. by apply (get_hit _ _ st (wo_reads w1)); [| | |apply same_state|apply same_shed].
      * by apply (get_panics _ _ st (wo_reads w1)); [| | |apply same_state|apply same_shed].
  - apply post_ret. apply get_miss; [by apply same_state|by apply same_shed].
  - exfalso. unfold read_stored, catch, bind, get_state, ret in E. done.
Qed.

Lemma get_result_post w : post w (shard_get_result clock key) (fun r w' =>
  (r = Ok GetHit /\ same w w') \/ (r = Ok GetMiss /\ get_effect w w' (Ok None))).
Proof.
  unfold shard_get_result. apply post_bind. unfold post at 1. pose proof (quiet_read_stored key w) as Hs1.
  destruct (read_stored key w) as [[[st|]|e] w1] eqn:E; cbn in Hs1 |- *.
  - pose proof (read_stored_result key w st) as Hraw. rewrite E in Hraw. specialize (Hraw eq_refl).
    apply post_bind. unfold post at 1, unix_now. cbn [fst snd]. set (w2 := MkWorld _ _ _ _ _).
    assert (same w1 w2) as Hs2 by (apply (quiet_unix clock w1)). assert (same w w2) as Hs by eauto with lmdb.
    destruct (se_expires_at_unix st <=? clock (wo_reads w1)) eqn:Ex; [|apply post_ret; by left]. apply Z.leb_le in Ex.
    assert (wo_reads w1 <= wo_reads w1 < wo_reads w2)%nat as Hlt by (cbn; lia).
    pose proof (expire_post w w1 w2 (wo_reads w1) st Hraw Hs1 Hs2 Hlt Ex) as He. unfold post, bind in He |- *.
    destruct (shard_remove key w2) as [[b|e] w3] eqn:Er; [by right|]. by unfold shard_remove, catch, bind, ret in Er.
  - apply post_ret. right. split; [done|]. apply get_miss; [by apply same_state|by apply same_shed].
  - exfalso. unfold read_stored, catch, bind, get_state, ret in E. done.
Qed.

Lemma shard_get_post w : post w (shard_get clock key now) (fun r w' => get_effect w w' r).
Proof.
  unfold shard_get. apply post_bind. eapply post_mono; [apply get_result_post|].
  intros r w1 [(-> & Hs)|(-> & He)]; [|by apply post_ret].
  eapply post_mono; [apply get_fresh_post|]. intros r w2. by apply get_effect_same.
Qed.
End Lookup.

(** Clearing is one transaction. *)
Lemma foldl_delete (ks : list CacheKey) (m : gmap CacheKey (list Z)) k :
  foldl (fun m k => delete k m) m ks !! k = if bool_decide (k ∈ ks) then None else m !! k.
Proof.
  revert m. induction ks as [|k' ks IH]; intros m; [done|]. cbn. rewrite IH. destruct (decide (k = k')) as [->|Hne].
  - rewrite (bool_decide_true (k' ∈ k' :: ks)) by by left. rewrite lookup_delete_eq. by case_bool_decide.
  - rewrite lookup_delete_ne by done. destruct (decide (k ∈ ks)) as [Hi|Hi].
    + by rewrite !bool_decide_true by (done || by right).
    + rewrite !bool_decide_false; [done| |done]. intros H. by apply elem_of_cons in H as [?|?].
Qed.

Lemma clear_post iter w : (forall m, iter m ≡ₚ map_to_list m) -> post w (clear_shard_entries iter) (fun r w' =>
  (r = Ok tt /\ contents w' = ∅ /\ shed (size (contents w)) w w') \/ ((exists e, r = Err e) /\ wo_state w' = wo_state w /\ shed 0 w w')).
Proof.
  intros Hiter.
  assert (forall (r : result unit Stop) w', same w w' -> (exists e, r = Err e) ->
    (r = Ok tt /\ contents w' = ∅ /\ shed (size (contents w)) w w') \/ ((exists e, r = Err e) /\ wo_state w' = wo_state w /\ shed 0 w w')) as Hq.
  { intros r w' Hs He. right. split_and!; [done|by apply same_state|by apply same_shed]. }
  unfold clear_shard_entries. do 2 (apply post_quiet; [eauto with lmdb| |eauto with lmdb]; intros [] ? ? _).
  apply post_quiet; [eauto with lmdb| |eauto 6 with lmdb]. intros s w3 Hs3 E. injection E as <-.
  do 3 (apply post_quiet; [eauto with lmdb| |eauto 10 with lmdb]; intros [] ? ? _).
  assert (same w w'3) as Hs by eauto 12 with lmdb. apply commit_post; [|eauto with lmdb].
  intros w4 Hw4 Hev Hg Hfa Hr. left.
  assert (contents w4 = ∅) as Hempty.
  { rewrite Hw4. cbn. apply map_eq. intros k. rewrite foldl_delete, lookup_empty. case_bool_decide as Hk; [done|].
    destruct (e_entries _ !! k) as [v|] eqn:El; [|done]. destruct Hk. rewrite Hiter. apply list_elem_of_fmap.
    exists (k, v). split; [done|]. by apply elem_of_map_to_list. }
  destruct Hs as [S1 S2 S3 S5 S4]. split_and!; [done|done|]. split; rewrite ?Hempty.
  - apply map_empty_subseteq.
  - by rewrite map_size_empty.
  - rewrite Hw4. unfold settings. cbn. repeat match goal with H : same _ _ |- _ => apply same_state in H end. congruence.
  - intros ?. rewrite Hg. auto.
  - auto.
  - lia.
  - intros _ _. unfold counted. rewrite Hempty. rewrite Hw4. cbn [sh_env e_count]. by rewrite count_bytes.
Qed.
