(* ===== verification/LmdbMap.v ===== *)
(** * LmdbMap: the durable cache refines a map

    The operations of Lmdb.v over all shards, against a map from keys to stored entries:
    what [get], [insert], [remove] and clearing may do to it, for every schedule of failures
    of the library and every clock, and what the persistent count of a shard is worth. *)

From stdpp Require Import base list gmap.
From Stdlib Require Import ZArith Lia.
From S2P Require Import Prelude Effects CacheStore Compile Lmdb.

#[local] Open Scope list_scope.
#[local] Open Scope Z_scope.

(** ** The backend as a map

    [found] is the abstract state: what is stored under each key. The specification of an
    operation, [allowed], says how it may change it, [n] being
    the number of entries; the readings of the clock it may use are those from [lo] to [hi]. *)

Section Refinement.
Context (clock : nat -> Z) (iter : gmap CacheKey (list Z) -> list (CacheKey * list Z)) (hash : CacheKey -> Z).

Inductive LmdbOp :=
  | LmdbGet (key : CacheKey) (now : Z)
  | LmdbInsert (key : CacheKey) (entry : CacheEntry) (now : Z)
  | LmdbRemove (key : CacheKey)
  | LmdbClear
  | LmdbSetMax (max_entries : Z)
  | LmdbPolicyOp (when_full : LmdbWhenFull) (sample_size : Z).
Inductive LmdbOut :=
  | OutGet (r : option CacheEntry) | OutInsert (o : InsertOutcome) | OutRemove (b : bool) | OutClear (cleared : bool) | OutUnit.

Definition lmdb_step (op : LmdbOp) : L LmdbCacheBackend LmdbOut :=
  match op with
  | LmdbGet key now => let* r := lmdb_get clock hash key now in ret (OutGet r)
  | LmdbInsert key entry now => let* o := lmdb_insert clock iter hash key entry now in ret (OutInsert o)
  | LmdbRemove key => let* b := lmdb_remove hash key in ret (OutRemove b)
  | LmdbClear => let* r := catch (clear_all_entries iter) in ret (OutClear (match r with Ok _ => true | Err _ => false end))
  | LmdbSetMax m => let* b := get_state in let* _u := put_state (lmdb_set_max_entries m b) in ret OutUnit
  | LmdbPolicyOp wf n => let* b := get_state in let* _u := put_state (apply_policy wf n b) in ret OutUnit
  end.

Definition lmdb_run (ops : list LmdbOp) (w : World LmdbCacheBackend) : World LmdbCacheBackend :=
  foldl (fun w op => (lmdb_step op w).2) w ops.

Definition shard_found (s : LmdbShard) (key : CacheKey) : option StoredEntry :=
  let! raw := e_entries (sh_env s) !! key in decode_value raw.
Definition home (b : LmdbCacheBackend) (key : CacheKey) : nat := shard_index_for_key hash key (length (lc_shards b)).
Definition found (b : LmdbCacheBackend) (key : CacheKey) : option StoredEntry :=
  let! s := lc_shards b !! home b key in shard_found s key.
Definition shard_size (s : LmdbShard) : nat := size (e_entries (sh_env s)).
Definition live (b : LmdbCacheBackend) : nat := sum_list (shard_size <$> lc_shards b).

(** The length of a wire is kept in 32 bits. *)
Definition read_back (st : StoredEntry) : StoredEntry :=
  {| se_filled_at_unix := se_filled_at_unix st; se_expires_at_unix := se_expires_at_unix st; se_kind := se_kind st;
     se_wire := take (Z.to_nat (wrap 32 (zlen (se_wire st)))) (se_wire st) |}.

Definition allowed (op : LmdbOp) (out : LmdbOut) (f f' : CacheKey -> option StoredEntry) (n n' lo hi : nat) : Prop :=
  match op, out with
  | LmdbInsert key entry now, OutInsert o =>
      (forall k, k <> key -> f' k = f k \/ f' k = None) /\
      (if io_stored o then exists i, (lo <= i < hi)%nat /\ f' key = Some (read_back (to_stored entry now (clock i))) else f' key = f key \/ f' key = None) /\
      Z.of_nat n <= Z.of_nat n' + io_evictions o <= Z.of_nat n + (if io_stored o then 1 else 0)
  | LmdbGet key now, OutGet r =>
      (forall k, k <> key -> f' k = f k) /\
      match r with
      | Some e => f' key = f key /\ n' = n /\
          exists st i, (lo <= i < hi)%nat /\ f key = Some st /\ clock i < se_expires_at_unix st /\ stored_to_entry st now (clock i) = Some e
      | None => (f' key = f key /\ n' = n) \/
          (f' key = None /\ n = S n' /\ exists st i, (lo <= i < hi)%nat /\ f key = Some st /\ se_expires_at_unix st <= clock i)
      end
  | LmdbRemove key, OutRemove b =>
      (forall k, k <> key -> f' k = f k) /\ if b then f key <> None /\ f' key = None /\ n = S n' else f' key = f key /\ n' = n
  | LmdbClear, OutClear cleared => if cleared then (forall k, f' k = None) /\ n' = O else forall k, f' k = f k \/ f' k = None
  | LmdbSetMax _, OutUnit | LmdbPolicyOp _ _, OutUnit => (forall k, f' k = f k) /\ n' = n
  | _, _ => False
  end.

(** ** The invariant *)

Definition sane_entry (raw : list Z) : Prop := exists st, decode_value raw = Some st /\ 0 <= se_expires_at_unix st < 2 ^ 62.
Definition sane_shard (i n : nat) (s : LmdbShard) : Prop :=
  forall k raw, e_entries (sh_env s) !! k = Some raw -> shard_index_for_key hash k n = i /\ sane_entry raw.
Definition sane_backend (b : LmdbCacheBackend) : Prop :=
  (0 < length (lc_shards b))%nat /\ forall i s, lc_shards b !! i = Some s -> sane_shard i (length (lc_shards b)) s.

(** No shard has more than [m] entries, and its count is exact. *)
Definition counted_backend (m : Z) (b : LmdbCacheBackend) : Prop :=
  forall i s, lc_shards b !! i = Some s -> counted s /\ zsize (e_entries (sh_env s)) <= m.

Lemma sane_shard_sub i n s s' : e_entries (sh_env s') ⊆ e_entries (sh_env s) -> sane_shard i n s -> sane_shard i n s'.
Proof. intros Hs H k raw Hk. apply H. by eapply lookup_weaken. Qed.

Lemma found_sub s s' k : e_entries (sh_env s') ⊆ e_entries (sh_env s) -> shard_found s' k = shard_found s k \/ shard_found s' k = None.
Proof.
  intros Hs. unfold shard_found. destruct (e_entries (sh_env s') !! k) as [raw|] eqn:E; [left|by right]. by rewrite (lookup_weaken _ _ _ _ E Hs).
Qed.

Lemma home_lt b k : (0 < length (lc_shards b))%nat -> (home b k < length (lc_shards b))%nat.
Proof.
  intros H. unfold home, shard_index_for_key. pose proof (Z.mod_pos_bound (wrap 64 (hash k)) (Z.of_nat (length (lc_shards b)))). lia.
Qed.

Lemma sum_list_insert (f : LmdbShard -> nat) l i s s' : l !! i = Some s ->
  (sum_list (f <$> <[i := s']> l) + f s = sum_list (f <$> l) + f s')%nat.
Proof.
  revert i. induction l as [|a l IH]; intros [|i] H; simplify_eq/=; [lia|]. specialize (IH i H). lia.
Qed.

(** What changes when shard [i] becomes [s']. *)
Definition updated (b : LmdbCacheBackend) (i : nat) (s' : LmdbShard) : LmdbCacheBackend := with_shards b (<[i := s']> (lc_shards b)).

Lemma updated_found b i s s' k : lc_shards b !! i = Some s ->
  found (updated b i s') k = if decide (home b k = i) then shard_found s' k else found b k.
Proof.
  intros Hs. unfold found, updated, home. cbn. rewrite length_insert. fold (home b k). case_decide as Hk.
  - rewrite Hk, list_lookup_insert_eq by by apply lookup_lt_Some in Hs. done.
  - by rewrite list_lookup_insert_ne by done.
Qed.

Lemma found_home b i s k : lc_shards b !! i = Some s -> home b k = i -> found b k = shard_found s k.
Proof. intros Hs <-. unfold found. by rewrite Hs. Qed.

Lemma updated_sane b i s s' : lc_shards b !! i = Some s -> sane_backend b -> sane_shard i (length (lc_shards b)) s' -> sane_backend (updated b i s').
Proof.
  intros Hs [Hn Hb] H'. unfold updated. split; cbn; rewrite length_insert; [done|]. intros j t Hj.
  apply list_lookup_insert_Some in Hj as [(<- & <- & _)|[_ Hj]]; [done|]. by apply Hb.
Qed.

Lemma updated_live b i s s' : lc_shards b !! i = Some s ->
  (live (updated b i s') + shard_size s = live b + shard_size s')%nat.
Proof. intros Hs. unfold live, updated. cbn. by apply (sum_list_insert shard_size). Qed.

Lemma updated_counted m b i s s' : lc_shards b !! i = Some s -> counted_backend m b -> counted s' -> zsize (e_entries (sh_env s')) <= m ->
  counted_backend m (updated b i s').
Proof.
  intros Hs Hb H1 H2 j t Hj. unfold updated in Hj. cbn in Hj. apply list_lookup_insert_Some in Hj as [(<- & <- & _)|[_ Hj]]; [done|]. by eapply Hb.
Qed.

(** ** Each operation *)

Context (iter_perm : forall m, iter m ≡ₚ map_to_list m).
Context (clock_sane : forall i, 0 <= clock i < 2 ^ 61).

(** The instants of a process are within 2^61 seconds of the origin of its clock. *)
Definition op_sane (op : LmdbOp) : Prop := match op with LmdbGet _ now => - 2 ^ 61 <= now / NANOS < 2 ^ 61 | _ => True end.

(** What a step does to the invariants and to the map. *)
Record step_effect (op : LmdbOp) (w : World LmdbCacheBackend) (r : result LmdbOut Stop) (w' : World LmdbCacheBackend) : Prop := {
  step_allowed : exists out, r = Ok out /\ allowed op out (found (wo_state w)) (found (wo_state w')) (live (wo_state w)) (live (wo_state w'))
    (wo_reads w) (wo_reads w');
  step_sane : sane_backend (wo_state w');
  step_gets : wo_gets w = [] -> wo_gets w' = [];
  step_faults : wo_faults w = [] -> wo_faults w' = [];
  step_counted m : wo_gets w = [] -> counted_backend m (wo_state w) -> m < u64_max -> counted_backend (m + 1) (wo_state w');
}.

Abbreviation local w s := (MkWorld s (wo_gets w) (wo_faults w) (wo_reads w) (wo_evictions w)).
Abbreviation outer w i ws := (MkWorld (updated (wo_state w) i (wo_state ws)) (wo_gets ws) (wo_faults ws) (wo_reads ws) (wo_evictions ws)).

Lemma on_shard_post {A} i s (op : L LmdbShard A) (w : World LmdbCacheBackend) Q : lc_shards (wo_state w) !! i = Some s ->
  post (local w s) op (fun r ws => Q r (outer w i ws)) -> post w (on_shard i op) Q.
Proof. intros Hs H. unfold post, on_shard in *. rewrite Hs. destruct (op _) as [r w'] eqn:E. exact H. Qed.

Lemma for_key_post {A} key (op : LmdbPolicy -> L LmdbShard A) (w : World LmdbCacheBackend) Q : sane_backend (wo_state w) ->
  (forall s, lc_shards (wo_state w) !! home (wo_state w) key = Some s ->
    post (local w s) (op (lc_policy (wo_state w))) (fun r ws => Q r (outer w (home (wo_state w) key) ws))) -> post w (for_key hash key op) Q.
Proof.
  intros [Hn _] H. destruct (lookup_lt_is_Some_2 (lc_shards (wo_state w)) (home (wo_state w) key)) as [s Hs]; [by apply home_lt|].
  unfold for_key. apply post_bind. unfold post at 1. cbn [get_state fst snd]. apply (on_shard_post _ s); [exact Hs|]. by apply H.
Qed.

Lemma counted_le m m' b : m <= m' -> counted_backend m b -> counted_backend m' b.
Proof. intros Hm H i s Hs. destruct (H i s Hs). split; [done|lia]. Qed.

(** Shedding entries of one shard keeps the invariants. *)
Lemma shed_sane n (w : World LmdbCacheBackend) i s ws : sane_backend (wo_state w) -> lc_shards (wo_state w) !! i = Some s -> shed n (local w s) ws ->
  sane_backend (wo_state (outer w i ws)) /\ (wo_gets w = [] -> wo_gets ws = []) /\ (wo_faults w = [] -> wo_faults ws = []) /\
  (forall m, wo_gets w = [] -> counted_backend m (wo_state w) -> m < u64_max -> counted_backend (m + 1) (wo_state (outer w i ws))) /\
  live (wo_state w) = (live (wo_state (outer w i ws)) + n)%nat.
Proof.
  intros Hb Hs [S1 S2 S3 S4 S7 S5 S6]. cbn in *. split_and!; [|done|done| |].
  - apply (updated_sane _ _ s); [done|done|]. eapply sane_shard_sub; [exact S1|]. by apply Hb.
  - intros m H0 Hm Hlt. destruct (Hm i s Hs) as [C1 C2]. apply (updated_counted _ _ _ s); [done|by apply (counted_le m); [lia|]|auto|].
    unfold zsize in *. lia.
  - pose proof (updated_live (wo_state w) i s (wo_state ws) Hs) as Hl. unfold shard_size in Hl. change (sum_list _) with (live (updated (wo_state w) i (wo_state ws))). lia.
Qed.

(** What one operation on the shard of [key] leaves under each key. *)
Section After.
Context (w : World LmdbCacheBackend) (key : CacheKey) (s : LmdbShard) (ws : World LmdbShard).
Abbreviation i := (home (wo_state w) key).
Context (Hs : lc_shards (wo_state w) !! i = Some s).

Lemma found_kept k : contents ws !! k = e_entries (sh_env s) !! k -> found (updated (wo_state w) i (wo_state ws)) k = found (wo_state w) k.
Proof.
  intros Hk. rewrite (updated_found _ i s) by done. case_decide as Hh; [|done]. rewrite (found_home _ i s k Hs Hh). unfold shard_found. by rewrite Hk.
Qed.
Lemma found_lost k : contents ws ⊆ e_entries (sh_env s) ->
  found (updated (wo_state w) i (wo_state ws)) k = found (wo_state w) k \/ found (updated (wo_state w) i (wo_state ws)) k = None.
Proof.
  intros Hsub. rewrite (updated_found _ i s) by done. case_decide as Hh; [|by left]. rewrite (found_home _ i s k Hs Hh). by apply found_sub.
Qed.
Lemma found_here : found (updated (wo_state w) i (wo_state ws)) key = shard_found (wo_state ws) key.
Proof. rewrite (updated_found _ i s) by done. by rewrite decide_True. Qed.
Lemma found_before : found (wo_state w) key = shard_found s key.
Proof. by apply (found_home _ i). Qed.
End After.

Lemma step_remove key w : sane_backend (wo_state w) -> post w (lmdb_step (LmdbRemove key)) (step_effect (LmdbRemove key) w).
Proof.
  intros Hb. cbn [lmdb_step]. apply post_bind, for_key_post; [done|]. intros s Hs. eapply post_mono; [apply remove_post|].
  intros r ws [(-> & Hk & Hc & Hsh)|(-> & Ht & Hsh)]; apply post_ret; destruct (shed_sane _ w _ s ws Hb Hs Hsh) as (H1 & H2 & H5 & H3 & H4);
    (split; [|done|done|done|done]); eexists; (split; [done|]); cbn in Hc || cbn in Ht; split_and!; try lia.
  - intros k Hne. apply (found_kept _ _ s); [done|]. rewrite Hc. by apply lookup_delete_ne.
  - rewrite (found_before _ _ s) by done. destruct Hk as [raw Hraw]. unfold shard_found. cbn in Hraw. rewrite Hraw.
    by destruct (proj2 Hb _ _ Hs key raw Hraw) as [_ (st & -> & _)].
  - cbn [wo_state]. rewrite (found_here _ _ s) by done. unfold shard_found. by rewrite Hc, lookup_delete_eq.
  - intros k _. apply (found_kept _ _ s); [done|]. by rewrite Ht.
  - apply (found_kept _ _ s); [done|]. by rewrite Ht.
Qed.

(** A sane entry is served without a panic. *)
Lemma sane_served st now i : 0 <= se_expires_at_unix st < 2 ^ 62 -> - 2 ^ 61 <= now / NANOS < 2 ^ 61 -> clock i < se_expires_at_unix st ->
  stored_to_entry st now (clock i) <> None.
Proof.
  intros He Hn Hc. pose proof (clock_sane i) as Hi. unfold stored_to_entry, instant. rewrite bool_decide_true; [done|].
  unfold sat_sub. rewrite Z.max_l by lia. unfold NANOS in *. rewrite Z.div_add by lia. lia.
Qed.

Lemma step_get key now w : sane_backend (wo_state w) -> op_sane (LmdbGet key now) ->
  post w (lmdb_step (LmdbGet key now)) (step_effect (LmdbGet key now) w).
Proof.
  intros Hb Hop. cbn [lmdb_step]. apply post_bind, for_key_post; [done|]. intros s Hs. eapply post_mono; [apply shard_get_post|].
  assert (forall st i ws, read_at key (local w s) ws st i -> found (wo_state w) key = Some st /\ 0 <= se_expires_at_unix st < 2 ^ 62) as Hread.
  { intros st i ws [(raw & Hraw & Hst) _]. cbn in Hraw. rewrite (found_before _ _ s) by done. unfold shard_found. rewrite Hraw.
    destruct (proj2 Hb _ _ Hs key raw Hraw) as [_ (st' & Hst' & Hx)]. split; congruence. }
  intros r ws H. destruct H as [st i e Hr Hc He Ht Hsh|st i Hr Hc He Ht Hsh|Ht Hsh|st i Hr Hc Ht Hsh];
    destruct (shed_sane _ w _ s ws Hb Hs Hsh) as (H1 & H2 & H5 & H3 & H4); try apply post_ret; cbn in Ht.
  - split; [|done|done|done|done]. eexists. split; [done|]. split_and!; [|by apply (found_kept _ _ s); [|rewrite Ht]|lia|exists st, i; split_and!; [by apply Hr|by apply Hr|by eapply Hread|done|done]].
    intros k _. by apply (found_kept _ _ s); [|rewrite Ht].
  - exfalso. apply Hread in Hr as [_ Hx]. by eapply sane_served.
  - split; [|done|done|done|done]. eexists. split; [done|]. split; [intros k _|left; split; [|lia]]; by apply (found_kept _ _ s); [|rewrite Ht].
  - split; [|done|done|done|done]. eexists. split; [done|]. split; [|right; split_and!; [|lia|exists st, i; split_and!; [by apply Hr|by apply Hr|by eapply Hread|done]]].
    + intros k Hne. apply (found_kept _ _ s); [done|]. rewrite Ht. by apply lookup_delete_ne.
    + cbn [wo_state]. rewrite (found_here _ _ s) by done. unfold shard_found. by rewrite Ht, lookup_delete_eq.
Qed.

Lemma as_secs_nonneg n : 0 <= n -> 0 <= as_secs n.
Proof. intros H. unfold as_secs. by apply Z.div_pos. Qed.

(** What an insertion writes is read back as it was meant. *)
Lemma encoded_found entry now i : decode_value (encode_entry entry now (clock i)) = Some (read_back (to_stored entry now (clock i))).
Proof.
  unfold encode_entry. rewrite decode_encode. pose proof (clock_sane i) as Hi. unfold read_back. f_equal. cbn.
  assert (0 <= ttl_remaining_secs entry now) by (unfold ttl_remaining_secs; case_match; [lia|]; apply Z.leb_gt in H; pose proof (as_secs_nonneg (ce_expires_at entry - now)); unfold u32_max; lia).
  f_equal; apply wrap_small; unfold fits, sat_sub, sat_add; pose proof (as_secs_nonneg (Z.max (now - ce_filled_at entry) 0)); lia.
Qed.

Lemma encoded_sane entry now i : sane_entry (encode_entry entry now (clock i)).
Proof.
  eexists. split; [apply encoded_found|]. cbn. pose proof (clock_sane i) as Hi.
  assert (0 <= ttl_remaining_secs entry now <= u32_max) by (unfold ttl_remaining_secs, u32_max; case_match; [lia|]; apply Z.leb_gt in H; pose proof (as_secs_nonneg (ce_expires_at entry - now)); lia).
  unfold sat_add, u32_max in *. lia.
Qed.

Lemma step_insert key entry now w : sane_backend (wo_state w) -> post w (lmdb_step (LmdbInsert key entry now)) (step_effect (LmdbInsert key entry now) w).
Proof.
  intros Hb. cbn [lmdb_step]. apply post_bind, for_key_post; [done|]. intros s Hs. unfold post at 1, shard_insert. cbn [wo_state wo_gets wo_faults wo_reads].
  set (w0 := MkWorld s _ _ _ 0).
  pose proof (insert_inner_post clock iter iter_perm (lc_policy (wo_state w)) key entry now w0 true) as Hp. unfold post in Hp.
  destruct (insert_inner _ _ _ _ _ _ _ w0) as [r ws]. cbn [fst snd] in *. apply post_ret. fold (stored_of r). destruct Hp as (m & n & i & P1 & P2 & P3 & P4 & P5 & P5' & P6 & P7 & P9 & P8).
  cbn [w0 wo_state wo_evictions wo_gets wo_reads] in *. pose proof (updated_live (wo_state w) _ s (wo_state ws) Hs) as Hl. unfold shard_size in Hl.
  assert (size m <= size (contents ws) <= size m + (if stored_of r then 1 else 0))%nat as Hsz.
  { rewrite P4. destruct (stored_of r); [|lia]. destruct (m !! key) as [v|] eqn:E; [rewrite map_size_insert_Some|rewrite map_size_insert_None]; eauto; lia. }
  split.
  - eexists. split; [done|]. cbn [allowed io_stored io_evictions]. split_and!.
    + intros k Hne. cbn [wo_state]. rewrite (updated_found _ _ s) by done. case_decide as Hh; [|by left]. rewrite (found_home _ _ s k Hs Hh).
      unfold shard_found. rewrite P4. assert ((if stored_of r then <[key:=encode_entry entry now (clock i)]> m else m) !! k = m !! k) as ->.
      { destruct (stored_of r); [by apply lookup_insert_ne|done]. }
      destruct (m !! k) as [raw|] eqn:E; [left|by right]. by rewrite (lookup_weaken _ _ _ _ E P1).
    + cbn [wo_state]. destruct (stored_of r); [|by apply (found_lost _ _ s); [done|rewrite P4]]. exists i. split; [cbn; auto|].
      rewrite (found_here _ _ s) by done. unfold shard_found. rewrite P4, lookup_insert_eq. apply encoded_found.
    + cbn [wo_state]. rewrite P3. destruct (stored_of r); lia.
    + cbn [wo_state]. rewrite P3. destruct (stored_of r); lia.
  - apply (updated_sane _ _ s); [done|done|]. intros k raw Hk. rewrite P4 in Hk. destruct (stored_of r).
    + apply lookup_insert_Some in Hk as [[<- <-]|[_ Hk]]; [split; [done|apply encoded_sane]|]. apply (proj2 Hb _ _ Hs). by eapply lookup_weaken.
    + apply (proj2 Hb _ _ Hs). by eapply lookup_weaken.
  - done.
  - done.
  - intros c H0 Hc Hlt. destruct (Hc _ _ Hs) as [C1 C2]. apply (updated_counted _ _ _ s); [done|by apply (counted_le c); [lia|]| |].
    + apply P8; [done|done|]. lia.
    + unfold zsize in *. destruct (stored_of r); lia.
Qed.

(** Shards that lost entries, one by one. *)
Record shrunk (w w' : World LmdbCacheBackend) : Prop := {
  shrunk_length : length (lc_shards (wo_state w')) = length (lc_shards (wo_state w));
  shrunk_gets : wo_gets w = [] -> wo_gets w' = [];
  shrunk_faults : wo_faults w = [] -> wo_faults w' = [];
  shrunk_shard i s' : lc_shards (wo_state w') !! i = Some s' -> exists s, lc_shards (wo_state w) !! i = Some s /\
    e_entries (sh_env s') ⊆ e_entries (sh_env s) /\ settings s' = settings s /\ (wo_gets w = [] -> counted s -> counted s');
}.

Lemma shrunk_refl w : shrunk w w.
Proof. split; [done|done|done|]. intros i s Hs. by exists s. Qed.

Lemma shrunk_trans a b c : shrunk a b -> shrunk b c -> shrunk a c.
Proof.
  intros [L1 G1 F1 S1] [L2 G2 F2 S2]. split; [congruence|auto|auto|]. intros i s Hs. apply S2 in Hs as (t & Ht & H1 & E1 & H2).
  apply S1 in Ht as (u & Hu & H3 & E2 & H4). exists u. split_and!; [done|by etrans|congruence|auto].
Qed.

Lemma shed_shrunk n w i s ws : lc_shards (wo_state w) !! i = Some s -> shed n (local w s) ws -> shrunk w (outer w i ws).
Proof.
  intros Hs [S1 S2 S3 S4 S7 S5 S6]. cbn in *. split; cbn; [by rewrite length_insert|done|done|]. intros j s' Hj.
  apply list_lookup_insert_Some in Hj as [(<- & <- & _)|[_ Hj]]; [by exists s|by exists s'].
Qed.

Lemma clear_shards_post ixs w : Forall (fun i => i < length (lc_shards (wo_state w)))%nat ixs ->
  post w (clear_shards iter ixs) (fun r w' => shrunk w w' /\ (r = Ok tt -> forall i s, i ∈ ixs -> lc_shards (wo_state w') !! i = Some s -> e_entries (sh_env s) = ∅)).
Proof.
  revert w. induction ixs as [|i ixs IH]; intros w Hin.
  { apply post_ret. split; [apply shrunk_refl|]. intros _ i s Hi. by apply elem_of_nil in Hi. }
  apply Forall_cons in Hin as [Hi Hin]. cbn [clear_shards]. apply lookup_lt_is_Some_2 in Hi as [s Hs].
  apply post_bind, (on_shard_post _ s); [done|]. eapply post_mono; [by apply clear_post|].
  intros r ws [(-> & Hc & Hsh)|([e ->] & Ht & Hsh)]; pose proof (shed_shrunk _ _ _ _ _ Hs Hsh) as Hk; [|by split].
  eapply post_mono; [apply IH; by rewrite (shrunk_length _ _ Hk)|]. intros r w' [Hk' Hr]. split; [by eapply shrunk_trans|].
  intros -> j t Hj Ht. apply elem_of_cons in Hj as [->|Hj]; [|by eapply Hr].
  apply (shrunk_shard _ _ Hk') in Ht as (t' & Ht' & Hsub & _). cbn in Ht'. rewrite list_lookup_insert_eq in Ht' by by apply lookup_lt_Some in Hs.
  injection Ht' as <-. rewrite Hc in Hsub. apply map_empty. intros k. destruct (_ !! k) eqn:E; [|done]. by eapply lookup_weaken, lookup_empty_Some in E.
Qed.

Lemma shrunk_found w w' k : shrunk w w' -> found (wo_state w') k = found (wo_state w) k \/ found (wo_state w') k = None.
Proof.
  intros [L G F S]. unfold found, home. rewrite L. destruct (lc_shards (wo_state w') !! _) as [s'|] eqn:E; [|by right].
  apply S in E as (s & -> & Hsub & _). by apply found_sub.
Qed.

Lemma sum_sizes_empty (l : list LmdbShard) : (forall i s, l !! i = Some s -> e_entries (sh_env s) = ∅) -> sum_list (shard_size <$> l) = O.
Proof.
  induction l as [|s l IH]; intros He; [done|]. cbn. rewrite IH by (intros i t Ht; by apply (He (S i))).
  unfold shard_size. by rewrite (He 0%nat s).
Qed.

Lemma step_clear w : sane_backend (wo_state w) -> post w (lmdb_step LmdbClear) (step_effect LmdbClear w).
Proof.
  intros Hb. cbn [lmdb_step]. apply post_bind, post_catch. unfold clear_all_entries. apply post_bind. unfold post at 1. cbn [get_state fst snd].
  eapply post_mono; [apply clear_shards_post, Forall_forall; intros i Hi; apply elem_of_seq in Hi; lia|].
  intros r w' [Hk Hr]. pose proof Hk as [L G F S]. apply post_ret. split; [|split; [rewrite L; by apply Hb|]|done|done|].
  - eexists. split; [done|]. destruct r as [[]|e]; [|intros k; by apply shrunk_found].
    assert (forall i s, lc_shards (wo_state w') !! i = Some s -> e_entries (sh_env s) = ∅) as He.
    { intros i s Hs. apply (Hr eq_refl i); [|done]. apply elem_of_seq. apply lookup_lt_Some in Hs. lia. }
    split.
    + intros k. unfold found. destruct (lc_shards _ !! _) as [s|] eqn:E; [|done]. unfold shard_found. by rewrite (He _ _ E), lookup_empty.
    + by apply sum_sizes_empty.
  - intros i s Hs. rewrite L. destruct (S _ _ Hs) as (t & Ht & Hsub & _). eapply sane_shard_sub; [exact Hsub|]. by apply Hb.
  - intros m H0 Hc Hlt i s Hs. destruct (S _ _ Hs) as (t & Ht & Hsub & _ & Hcnt). destruct (Hc _ _ Ht) as [C1 C2]. split; [auto|].
    apply map_subseteq_size in Hsub. unfold zsize in *. lia.
Qed.

(** Backends with the same environments hold the same entries. *)
Lemma same_envs b b' : sh_env <$> lc_shards b' = sh_env <$> lc_shards b -> length (lc_shards b') = length (lc_shards b) /\
  (forall k, found b' k = found b k) /\ live b' = live b /\ (sane_backend b -> sane_backend b') /\ (forall m, counted_backend m b -> counted_backend m b').
Proof.
  intros H. assert (length (lc_shards b') = length (lc_shards b)) as Hl by (apply (f_equal length) in H; by rewrite !length_fmap in H).
  assert (forall i s', lc_shards b' !! i = Some s' -> exists s, lc_shards b !! i = Some s /\ sh_env s = sh_env s') as Hi.
  { intros i s' Hs. apply (f_equal (lookup i)) in H. rewrite !list_lookup_fmap, Hs in H. destruct (lc_shards b !! i) as [s|]; [|done].
    exists s. by injection H. }
  split_and!; [done| | | |].
  - intros k. unfold found, home. rewrite Hl. destruct (lc_shards b' !! _) as [s'|] eqn:E.
    + apply Hi in E as (s & -> & Hs). unfold shard_found. by rewrite Hs.
    + apply lookup_ge_None in E. by rewrite lookup_ge_None_2 by lia.
  - unfold live. change shard_size with ((fun e => size (e_entries e)) ∘ sh_env). by rewrite !list_fmap_compose, H.
  - intros [Hn Hb]. split; [by rewrite Hl|]. intros i s' Hs. apply Hi in Hs as (s & Hs & He). unfold sane_shard. rewrite <-He, Hl. by apply Hb.
  - intros m Hc i s' Hs. apply Hi in Hs as (s & Hs & He). unfold counted. rewrite <-He. by apply (Hc i).
Qed.

Lemma length_caps m n : length (per_shard_max_entries m n) = n.
Proof. unfold per_shard_max_entries. case_match; [apply length_replicate|]. by rewrite length_fmap, length_seq. Qed.

Lemma set_caps_envs (l : list LmdbShard) caps : length caps = length l -> sh_env <$> zip_with set_cap l caps = sh_env <$> l.
Proof. revert caps. induction l as [|s l IH]; intros [|c caps] H; simplify_eq/=; [done|]. by rewrite IH. Qed.

Lemma step_set_max m w : sane_backend (wo_state w) -> post w (lmdb_step (LmdbSetMax m)) (step_effect (LmdbSetMax m) w).
Proof.
  intros Hb. destruct (same_envs (wo_state w) (lmdb_set_max_entries m (wo_state w))) as (_ & Hf & Hl & Hs & Hc).
  { apply set_caps_envs. by rewrite length_caps. }
  split; [eexists; split; [done|]; by split|by apply Hs|done|done|]. intros c _ Hcb _. apply Hc. by apply (counted_le c); [lia|].
Qed.

Lemma lmdb_step_ok op w : sane_backend (wo_state w) -> op_sane op -> post w (lmdb_step op) (step_effect op w).
Proof.
  intros Hb Hop. destruct op as [key now|key e now|key| |m|wf n].
  - by apply step_get.
  - by apply step_insert.
  - by apply step_remove.
  - by apply step_clear.
  - by apply step_set_max.
  - split; [eexists; split; [done|]; by split|done|done|done|]. intros m _ Hc _. by apply (counted_le m); [lia|].
Qed.

Lemma lmdb_run_ok ops : forall w m, sane_backend (wo_state w) -> Forall op_sane ops -> sane_backend (wo_state (lmdb_run ops w)) /\
  (wo_gets w = [] -> wo_gets (lmdb_run ops w) = [] /\ (counted_backend m (wo_state w) -> m + zlen ops <= u64_max ->
    counted_backend (m + zlen ops) (wo_state (lmdb_run ops w)))).
Proof.
  induction ops as [|op ops IH]; intros w m Hb Hops.
  { split; [done|]. intros H0. split; [done|]. intros Hc _. by rewrite Z.add_0_r. }
  apply Forall_cons in Hops as [Hop Hops]. pose proof (lmdb_step_ok op w Hb Hop) as [_ H1 H2 _ H3]. cbn [lmdb_run foldl] in *.
  destruct (IH _ (m + 1) H1 Hops) as [I1 I2]. split; [exact I1|]. intros H0. destruct (I2 (H2 H0)) as [J1 J2]. split; [exact J1|].
  rewrite zlen_cons in *. intros Hc Hlt. replace (m + (zlen ops + 1)) with (m + 1 + zlen ops) in * by lia. pose proof (zlen_nonneg ops). apply J2; [|done]. apply H3; [done|done|lia].
Qed.

(** A store that was just created. *)
Definition fresh (b : LmdbCacheBackend) : Prop :=
  (0 < length (lc_shards b))%nat /\ Forall (fun s => e_entries (sh_env s) = ∅ /\ e_count (sh_env s) = Some (to_le 8 0)) (lc_shards b).

Lemma fresh_ok b : fresh b -> sane_backend b /\ counted_backend 0 b.
Proof.
  intros [Hn Hf]. rewrite Forall_lookup in Hf. split; [split; [done|]|]; intros i s Hs; destruct (Hf _ _ Hs) as [He Hc].
  - intros k raw Hk. by rewrite He, lookup_empty in Hk.
  - unfold counted, zsize. by rewrite Hc, count_bytes, He.
Qed.

(** The entry under a key that is not inserted again is the same or gone. *)
Definition inserts (key : CacheKey) (op : LmdbOp) : bool := match op with LmdbInsert k _ _ => bool_decide (k = key) | _ => false end.

Lemma step_keeps op w key : sane_backend (wo_state w) -> op_sane op -> inserts key op = false ->
  found (wo_state (lmdb_step op w).2) key = found (wo_state w) key \/ found (wo_state (lmdb_step op w).2) key = None.
Proof.
  intros Hb Hop Hi. destruct (lmdb_step_ok op w Hb Hop) as [(out & _ & Ha) _ _ _ _]. revert Ha.
  destruct op as [k now|k e now|k| |m|wf n], out; try done; cbn [allowed] in *.
  - intros [Hne Hk]. destruct (decide (key = k)) as [->|?]; [|left; by apply Hne]. destruct r; naive_solver.
  - intros [Hne _]. apply bool_decide_eq_false in Hi. apply Hne. congruence.
  - intros [Hne Hk]. destruct (decide (key = k)) as [->|?]; [|left; by apply Hne]. destruct b; naive_solver.
  - destruct cleared; naive_solver.
  - intros [H _]. left. apply H.
  - intros [H _]. left. apply H.
Qed.

Lemma run_keeps ops key : forall w, sane_backend (wo_state w) -> Forall op_sane ops -> forallb (fun op => negb (inserts key op)) ops = true ->
  found (wo_state (lmdb_run ops w)) key = found (wo_state w) key \/ found (wo_state (lmdb_run ops w)) key = None.
Proof.
  induction ops as [|op ops IH]; intros w Hb Hops Hi; [by left|]. apply Forall_cons in Hops as [Hop Hops]. cbn in Hi. apply andb_prop in Hi as [Hi1 Hi2].
  apply negb_true_iff in Hi1. cbn [lmdb_run foldl]. pose proof (lmdb_step_ok op w Hb Hop) as [_ H1 _ _ _].
  destruct (IH _ H1 Hops Hi2) as [Ha|Ha]; [|by right]. unfold lmdb_run in Ha |- *. rewrite Ha. by apply step_keeps.
Qed.

(** C20: The durable cache refines a map from keys to stored entries. Start from an empty
    store, run any operations, and let any calls of the library fail and the clock show
    anything: the next operation returns without a panic and does what the specification allows. An
    insertion that reports success has stored the entry under its key; one that reports
    failure has not, and other keys at most lose their entries, as many as were counted
    as evictions. A hit returns what is stored and has not expired; a lookup removes nothing but
    an expired entry under its own key; a removal, a clearing and a change of limits do exactly
    what they say. As long as reads do not fail, the persistent count of every shard stays exact. *)
Theorem lmdb_refines_map (ops : list LmdbOp) (op : LmdbOp) (w0 : World LmdbCacheBackend) :
  fresh (wo_state w0) -> Forall op_sane (ops ++ [op]) ->
  let w := lmdb_run ops w0 in
  exists out w', lmdb_step op w = (Ok out, w') /\
    allowed op out (found (wo_state w)) (found (wo_state w')) (live (wo_state w)) (live (wo_state w')) (wo_reads w) (wo_reads w') /\
    (wo_gets w0 = [] -> zlen ops < u64_max -> forall i s, lc_shards (wo_state w') !! i = Some s ->
      count_value (e_count (sh_env s)) = zsize (e_entries (sh_env s))).
Proof.
  intros Hf Hops w. apply Forall_app in Hops as [Hops Hop]. apply Forall_cons in Hop as [Hop _]. destruct (fresh_ok _ Hf) as [Hb Hc].
  destruct (lmdb_run_ok ops w0 0 Hb Hops) as [R1 R2]. destruct (lmdb_step_ok op w R1 Hop) as [(out & Ho & Ha) H1 H2 _ H3].
  exists out, (lmdb_step op w).2. split_and!; [by rewrite <-Ho; destruct (lmdb_step op w)|done|].
  intros H0 Hlt i s Hs. destruct (R2 H0) as [G C]. pose proof (zlen_nonneg ops). specialize (C Hc ltac:(lia)).
  by destruct (H3 _ G C ltac:(lia) _ _ Hs) as [[? _] _].
Qed.

(** What a hit gives of an entry that was stored at reading [i], at reading [j] of a clock
    that shows whole seconds of the time [at_]. *)
Lemma aged_entry (at_ : nat -> Z) (off : Z) e now t i j e' : (forall i, clock i = (at_ i + off) / NANOS) -> 0 <= ce_expires_at e - now -> as_secs (ce_expires_at e - now) <= u32_max ->
  let st := read_back (to_stored e now (clock i)) in
  clock j < se_expires_at_unix st -> stored_to_entry st t (clock j) = Some e' ->
  at_ j < ce_expires_at e + (at_ i - now) /\
  Z.abs ((ce_expires_at e' - t) - (ce_expires_at e + (at_ i - now) - at_ j)) < 2 * NANOS.
Proof.
  intros Hclock Hpos Hu32 st Hlt He. pose proof (clock_sane i) as Hi. pose proof (clock_sane j) as Hj. pose proof (Hclock i) as Ci. pose proof (Hclock j) as Cj.
  assert (se_expires_at_unix st = clock i + (ce_expires_at e - now) / NANOS) as Hx.
  { cbn. unfold ttl_remaining_secs, as_secs, u32_max, sat_add in *. case_match eqn:E.
    - apply Z.leb_le in E. replace (ce_expires_at e - now) with 0 by lia. rewrite Z.div_0_l by done. lia.
    - rewrite (Z.min_l _ (2 ^ 32 - 1)) by lia. apply Z.min_l. lia. }
  rewrite Hx in Hlt. unfold stored_to_entry, instant in He. rewrite Hx in He. case_bool_decide; [|done]. injection He as <-. cbn [ce_expires_at].
  unfold sat_sub. rewrite Z.max_l by lia. revert Hlt. rewrite Ci, Cj. unfold NANOS in *. intros Hlt.
  pose proof (Z.div_mod (at_ i + off) 1000000000 ltac:(lia)). pose proof (Z.mod_pos_bound (at_ i + off) 1000000000 ltac:(lia)).
  pose proof (Z.div_mod (at_ j + off) 1000000000 ltac:(lia)). pose proof (Z.mod_pos_bound (at_ j + off) 1000000000 ltac:(lia)).
  pose proof (Z.div_mod (ce_expires_at e - now) 1000000000 ltac:(lia)). pose proof (Z.mod_pos_bound (ce_expires_at e - now) 1000000000 ltac:(lia)).
  lia.
Qed.

(** What the durable cache serves is what was last stored, and not after it expired. An entry is
    stored, other operations follow that do not store under its key, and a lookup hits: the
    answer has the kind and the bytes that were stored. The clock shows whole seconds of a time
    [at_]; up to the delay between the caller's instant and the reading of the clock, the
    entry had not expired when the clock was read, and the remaining lifetime that is
    handed out is right to within two seconds. *)
Theorem lmdb_serves_last_stored (at_ : nat -> Z) (off : Z) (ops1 ops2 : list LmdbOp) (w0 w1 w2 : World LmdbCacheBackend)
    (key : CacheKey) (e e' : CacheEntry) (now t : Z) (o : InsertOutcome) :
  (forall i, clock i = (at_ i + off) / NANOS) ->
  fresh (wo_state w0) -> Forall op_sane (ops1 ++ ops2 ++ [LmdbGet key t]) -> forallb (fun op => negb (inserts key op)) ops2 = true ->
  now <= ce_expires_at e -> as_secs (ce_expires_at e - now) <= u32_max -> zlen (ce_wire e) <= u32_max ->
  lmdb_step (LmdbInsert key e now) (lmdb_run ops1 w0) = (Ok (OutInsert o), w1) -> io_stored o = true ->
  lmdb_step (LmdbGet key t) (lmdb_run ops2 w1) = (Ok (OutGet (Some e')), w2) ->
  ce_kind e' = ce_kind e /\ ce_wire e' = ce_wire e /\
  exists i j : nat, (wo_reads (lmdb_run ops1 w0) <= i < wo_reads w1)%nat /\ (wo_reads (lmdb_run ops2 w1) <= j < wo_reads w2)%nat /\
    at_ j < ce_expires_at e + (at_ i - now) /\
    Z.abs ((ce_expires_at e' - t) - (ce_expires_at e + (at_ i - now) - at_ j)) < 2 * NANOS.
Proof.
  intros Hclock Hf Hops Hni Hpos Hu32 Hwire H1 Hst H2. rewrite !Forall_app, Forall_cons in Hops. destruct Hops as (Hops1 & Hops2 & Hop & _).
  destruct (fresh_ok _ Hf) as [Hb _]. destruct (lmdb_run_ok ops1 w0 0 Hb Hops1) as [Hb1 _].
  pose proof (lmdb_step_ok (LmdbInsert key e now) _ Hb1 I) as Hs. unfold post in Hs. rewrite H1 in Hs. destruct Hs as [(out & [= <-] & Ha) Hb1' _ _ _].
  cbn [allowed] in Ha. rewrite Hst in Ha. destruct Ha as (_ & (i & Hi & Hfound) & _). cbn [fst snd] in *.
  destruct (lmdb_run_ok ops2 w1 0 Hb1' Hops2) as [Hb2 _].
  pose proof (lmdb_step_ok (LmdbGet key t) _ Hb2 Hop) as Hs. unfold post in Hs. rewrite H2 in Hs. destruct Hs as [(out & [= <-] & Ha) _ _ _ _].
  destruct Ha as (_ & _ & _ & st & j & Hj & Hf2 & Hlt & He).
  destruct (run_keeps ops2 key w1 Hb1' Hops2 Hni) as [Hk|Hk]; [|congruence]. rewrite Hk, Hfound in Hf2. injection Hf2 as <-.
  assert (wrap 32 (zlen (ce_wire e)) = zlen (ce_wire e)) as Hw.
  { apply wrap_small. unfold fits, u32_max in *. pose proof (zlen_nonneg (ce_wire e)). lia. }
  assert (ce_kind e' = ce_kind e /\ ce_wire e' = ce_wire e) as [Hkind Hwe].
  { unfold stored_to_entry in He. destruct (instant _); [|done]. injection He as <-. cbn. rewrite Hw. split; [done|]. apply take_ge. unfold zlen. lia. }
  split_and!; [done|done|]. exists i, j. split; [done|]. split; [done|]. apply (aged_entry at_ off); try done. lia.
Qed.
End Refinement.

(** *** Witnesses: two shards, a clock that shows the second 1000 + [i] at reading [i], and failing calls. *)

Definition sample_flags : EnvFlags := {| NO_SYNC := false; NO_META_SYNC := false |}.
Definition empty_env : Env := MkEnv ∅ (Some (to_le 8 0)) None.
Definition sample_shard (cap : Z) : LmdbShard := MkLmdbShard empty_env cap 8192 false sample_flags.
Definition sample_policy (wf : LmdbWhenFull) : LmdbPolicy := MkPolicy wf 4 SyncFull None.
Definition sample_backend : LmdbCacheBackend := MkLmdbBackend [sample_shard 1; sample_shard 1] 16384 2 (sample_policy FullEvictOne).
Definition sample_at (i : nat) : Z := Z.of_nat (i mod 1000) * NANOS.
Definition sample_clock (i : nat) : Z := (sample_at i + 1000 * NANOS) / NANOS.
Definition sample_hash (k : CacheKey) : Z := zlen k.
Definition sample_answer (x : Z) : CacheEntry := {| ce_kind := Positive; ce_wire := [x; 2; 3]; ce_filled_at := 0; ce_expires_at := 60 * NANOS |}.
Definition sample_world : World LmdbCacheBackend := MkWorld sample_backend [] [None; None; Some MapFull] 0 0.

Lemma sample_clock_sane i : 0 <= sample_clock i < 2 ^ 61.
Proof.
  unfold sample_clock, sample_at. rewrite <-Z.mul_add_distr_r, Z.div_mul by done. pose proof (Nat.mod_upper_bound i 1000 ltac:(lia)). lia.
Qed.

Lemma lmdb_refines_map_witness :
  let w := lmdb_run sample_clock map_to_list sample_hash [LmdbInsert [5] (sample_answer 1) 0] sample_world in
  exists out w', lmdb_step sample_clock map_to_list sample_hash (LmdbInsert [6] (sample_answer 2) 0) w = (Ok out, w') /\
    allowed sample_clock (LmdbInsert [6] (sample_answer 2) 0) out (found sample_hash (wo_state w)) (found sample_hash (wo_state w'))
      (live (wo_state w)) (live (wo_state w')) (wo_reads w) (wo_reads w') /\
    (wo_gets sample_world = [] -> zlen [LmdbInsert [5] (sample_answer 1) 0] < u64_max -> forall i s, lc_shards (wo_state w') !! i = Some s ->
      count_value (e_count (sh_env s)) = zsize (e_entries (sh_env s))).
Proof.
  apply (lmdb_refines_map sample_clock map_to_list sample_hash (fun m => reflexivity _) sample_clock_sane).
  - split; [cbn; lia|]. by repeat constructor.
  - by repeat constructor.
Defined.

Definition sample_start : World LmdbCacheBackend := MkWorld sample_backend [] [] 0 0.
Definition sample_stored : World LmdbCacheBackend :=
  (lmdb_step sample_clock map_to_list sample_hash (LmdbInsert [5] (sample_answer 1) 0) sample_start).2.
Definition sample_read : World LmdbCacheBackend := (lmdb_step sample_clock map_to_list sample_hash (LmdbGet [5] 5) sample_stored).2.
Definition sample_served : CacheEntry :=
  {| ce_kind := Positive; ce_wire := [1; 2; 3]; ce_filled_at := 5 - 2 * NANOS; ce_expires_at := 5 + 58 * NANOS |}.

Lemma lmdb_serves_last_stored_witness :
  ce_kind sample_served = Positive /\ ce_wire sample_served = [1; 2; 3] /\
  exists i j : nat, (wo_reads sample_start <= i < wo_reads sample_stored)%nat /\ (wo_reads sample_stored <= j < wo_reads sample_read)%nat /\
    sample_at j < 60 * NANOS + (sample_at i - 0) /\
    Z.abs ((ce_expires_at sample_served - 5) - (60 * NANOS + (sample_at i - 0) - sample_at j)) < 2 * NANOS.
Proof.
  apply (lmdb_serves_last_stored sample_clock map_to_list sample_hash (fun m => reflexivity _) sample_clock_sane sample_at (1000 * NANOS)
    [] [] sample_start sample_stored sample_read [5] (sample_answer 1) sample_served 0 5 {| io_stored := true; io_evictions := 0 |}).
  - reflexivity.
  - split; [cbn; lia|]. by repeat constructor.
  - repeat constructor; vm_compute; congruence.
  - reflexivity.
  - vm_compute. congruence.
  - vm_compute. congruence.
  - vm_compute. congruence.
  - vm_compute. reflexivity.
  - reflexivity.
  - vm_compute. reflexivity.
Defined.
