(* ===== verification/LmdbLimits.v ===== *)
(** * LmdbLimits: capacity of the durable cache

    What an insertion does when the library works (lmdb.rs, [insert_inner], [evict_victim],
    [evict_from_sample]), that the shares of [max_entries] bound the store, the shares of the
    map size ([per_shard_map_sizes], [grow_map_size], [shrink_map_size]) - and where the bounds do not hold. *)

From stdpp Require Import base list gmap.
From Stdlib Require Import ZArith Lia.
From S2P Require Import Prelude Effects CacheStore Compile Lmdb LmdbMap.

#[local] Open Scope list_scope.
#[local] Open Scope Z_scope.

(** ** The victim of an eviction, as a specification *)

Section Victim.
Context (clock : nat -> Z) (iter : gmap CacheKey (list Z) -> list (CacheKey * list Z)).

Definition expired (now_unix : Z) (kv : CacheKey * list Z) : bool :=
  match decode_value kv.2 with Some st => se_expires_at_unix st <=? now_unix | None => false end.
Definition sooner (best : option (Z * CacheKey)) (kv : CacheKey * list Z) : option (Z * CacheKey) :=
  match decode_value kv.2, best with
  | Some st, Some (exp, k) => if se_expires_at_unix st <? exp then Some (se_expires_at_unix st, kv.1) else Some (exp, k)
  | Some st, None => Some (se_expires_at_unix st, kv.1)
  | None, _ => best
  end.

(** The first expired entry of the sample, or else the one that expires first. *)
Definition sample_victim (now_unix : Z) (sample : list (CacheKey * list Z)) (best : option (Z * CacheKey)) : option CacheKey :=
  match List.find (expired now_unix) sample with
  | Some kv => Some kv.1
  | None => snd <$> foldl sooner best sample
  end.

Definition victim (p : LmdbPolicy) (now_unix : Z) (m : gmap CacheKey (list Z)) : option CacheKey :=
  match po_when_full p with
  | FullRefuse => None
  | FullEvictOne => fst <$> head (iter m)
  | FullSample => sample_victim now_unix (take (Z.to_nat (Z.max (po_sample_size p) 1)) (iter m)) None
  end.

(** A full shard that is asked for a new key. *)
Definition full (s : LmdbShard) (key : CacheKey) : bool :=
  (0 <? sh_max_entries s) && negb (is_someb (e_entries (sh_env s) !! key)) && (sh_max_entries s <=? zsize (e_entries (sh_env s))).

Lemma scan_exact now_unix n l : forall seen best (w : World LmdbShard), wo_faults w = [] -> 0 <= seen < n ->
  sample_scan now_unix n l seen best w = (Ok (sample_victim now_unix (take (Z.to_nat (n - seen)) l) best), w).
Proof.
  induction l as [|[k v] l IH]; intros seen best w Hf Hs; cbn [sample_scan]; unfold bind at 1, heed; rewrite Hf.
  { by rewrite take_nil. }
  replace (Z.to_nat (n - seen)) with (S (Z.to_nat (n - (seen + 1)))) by lia. cbn [firstn]. unfold sample_victim. cbn [List.find foldl].
  replace (expired now_unix (k, v)) with (match decode_value v with Some st => se_expires_at_unix st <=? now_unix | None => false end) by done.
  replace (sooner best (k, v)) with (match decode_value v with
    | Some st => match best with
        | Some (exp, k0) => if se_expires_at_unix st <? exp then Some (se_expires_at_unix st, k) else Some (exp, k0)
        | None => Some (se_expires_at_unix st, k) end
    | None => best end) by done.
  assert (forall best', (if n <=? seen + 1 then ret (snd <$> best') else sample_scan now_unix n l (seen + 1) best') w =
    (Ok (match List.find (expired now_unix) (take (Z.to_nat (n - (seen + 1))) l) with
         | Some kv => Some kv.1 | None => snd <$> foldl sooner best' (take (Z.to_nat (n - (seen + 1))) l) end), w)) as Hgo.
  { intros best'. destruct (n <=? seen + 1) eqn:E; [apply Z.leb_le in E|apply Z.leb_gt in E].
    - by replace (Z.to_nat (n - (seen + 1))) with 0%nat by lia.
    - rewrite IH by (done || lia). done. }
  destruct (decode_value v) as [st|]; [|apply Hgo]. destruct (se_expires_at_unix st <=? now_unix); [done|apply Hgo].
Qed.

(** ** Runs without failures *)

Abbreviation well s r e := (MkWorld s [] [] r e).

(** The shard after [delete_victim], and after a put. *)
Definition without (s : LmdbShard) (k : CacheKey) : LmdbShard :=
  MkLmdbShard (MkEnv (delete k (e_entries (sh_env s))) (Some (to_le 8 (sat_sub (count_value (e_count (sh_env s))) 1))) (e_format (sh_env s)))
    (sh_max_entries s) (sh_map_size_bytes s) true (sh_flags s).
Definition with_value (s : LmdbShard) (k : CacheKey) (v : list Z) : LmdbShard :=
  MkLmdbShard (MkEnv (<[k := v]> (e_entries (sh_env s)))
      (if is_someb (e_entries (sh_env s) !! k) then e_count (sh_env s) else Some (to_le 8 (sat_add 64 (count_value (e_count (sh_env s))) 1)))
      (e_format (sh_env s)))
    (sh_max_entries s) (sh_map_size_bytes s) true (sh_flags s).

Definition sampling (p : LmdbPolicy) : nat := match po_when_full p with FullSample => 1 | _ => 0 end.

Lemma evict_exact p s r e : evict_victim clock iter p (well s r e) =
  match victim p (clock r) (e_entries (sh_env s)) with
  | None => (Ok false, well s (r + sampling p) e)
  | Some k => (Ok true, well (without s k) (r + sampling p) e)
  end.
Proof.
  unfold evict_victim, victim, sampling. destruct (po_when_full p).
  - by rewrite Nat.add_0_r.
  - unfold evict_one_arbitrary. unfold bind, heed, get_state. cbn. destruct (iter _) as [|[k v] l]; cbn; by rewrite Nat.add_0_r.
  - unfold evict_from_sample. cbn -[sample_scan sample_victim Z.max]. unfold bind, heed, get_state, unix_now. cbn -[sample_scan sample_victim Z.max].
    rewrite scan_exact by (done || lia). rewrite Z.sub_0_r. destruct (sample_victim _ _ _) as [k|]; by rewrite Nat.add_1_r.
Qed.

Lemma timed_exact p s r e : timed_evict_victim clock iter p (well s r e) =
  match victim p (clock r) (e_entries (sh_env s)) with
  | None => (Ok false, well s (r + sampling p) e)
  | Some k => (Ok true, well (without s k) (r + sampling p) (e + 1))
  end.
Proof. unfold timed_evict_victim, bind. rewrite evict_exact. by destruct (victim _ _ _). Qed.

Lemma put_exact key v s r e : insert_put key v (is_someb (e_entries (sh_env s) !! key)) (well s r e) = (Ok true, well (with_value s key v) r e).
Proof. unfold insert_put, bind, heed, catch, with_value. cbn. by destruct (is_someb _). Qed.

Lemma room_exact p key s r e : counted s -> make_room clock iter p key (well s r e) =
  if full s key then
    match victim p (clock r) (e_entries (sh_env s)) with
    | None => (Ok None, well s (r + sampling p) e)
    | Some k => (Ok (Some false), well (without s k) (r + sampling p) (e + 1))
    end
  else (Ok (Some (is_someb (e_entries (sh_env s) !! key))), well s r e).
Proof.
  intros [Hc _]. unfold make_room, full. unfold bind at 1 2. cbn [get_state]. unfold shard_key_exists. unfold bind at 1 2 3.
  cbn [heed heed_get wo_faults wo_gets get_state ret wo_state]. set (b := is_someb _) in *.
  destruct ((0 <? sh_max_entries s) && negb b) eqn:Eb; cbn [andb]; [|done]. apply andb_prop in Eb as [_ Hb]. apply negb_true_iff in Hb.
  unfold bind at 1. unfold shard_entry_count, bind at 1, catch. cbn [bind heed heed_get get_state wo_faults wo_gets wo_state fst snd].
  unfold bind at 1. cbn [get_state wo_state]. unfold ret at 1. rewrite Hc. destruct (sh_max_entries s <=? zsize _); [|done].
  rewrite Hb. unfold sampling, victim. destruct (po_when_full p) eqn:Ep; [by rewrite Nat.add_0_r|..];
    unfold bind; rewrite timed_exact; unfold sampling, victim; rewrite Ep; [by destruct (fst <$> _)|by destruct (sample_victim _ _ _)].
Qed.

(** What [insert] does to a shard whose count is right. *)
Lemma insert_exact p key entry now s r : counted s ->
  shard_insert clock iter p key entry now (well s r 0) =
  if full s key then
    match victim p (clock r) (e_entries (sh_env s)) with
    | None => (Ok {| io_stored := false; io_evictions := 0 |}, well s (r + sampling p) 0)
    | Some k => (Ok {| io_stored := true; io_evictions := 1 |},
        well (with_value (without s k) key (encode_entry entry now (clock (r + sampling p)%nat))) (S (r + sampling p)) 1)
    end
  else (Ok {| io_stored := true; io_evictions := 0 |}, well (with_value s key (encode_entry entry now (clock r))) (S r) 0).
Proof.
  intros Hc. unfold shard_insert, insert_inner, insert_attempt. cbn [wo_state wo_gets wo_faults wo_reads].
  assert (forall s' r' e b, b = is_someb (e_entries (sh_env s') !! key) -> (let* now_unix := unix_now clock in
      let* stored := insert_put key (encode_entry entry now now_unix) b in
      if stored then ret true else
      match po_when_full p, Some (insert_attempt clock iter p key entry now None) with
      | FullRefuse, _ | _, None => ret false
      | _, Some again => let* ok := timed_evict_victim clock iter p in if ok then again else ret false
      end) (well s' r' e) = (Ok true, well (with_value s' key (encode_entry entry now (clock r'))) (S r') e)) as Hput.
  { intros s' r' e b ->. unfold bind at 1. cbn [unix_now wo_state wo_gets wo_faults wo_reads wo_evictions]. unfold bind at 1. by rewrite put_exact. }
  unfold bind at 1. rewrite room_exact by done. destruct (full s key) eqn:Ef; [|by erewrite Hput].
  destruct (victim _ _ _) as [k|]; [|done]. erewrite Hput; [done|]. cbn. unfold full in Ef. rewrite !andb_true_iff, negb_true_iff in Ef.
  destruct Ef as [[_ Hn] _]. destruct (e_entries (sh_env s) !! key) eqn:E; [done|].
  destruct (decide (k = key)) as [->|Hk]; [by rewrite lookup_delete_eq|by rewrite lookup_delete_ne, E].
Qed.

(** ** The sample *)

Definition expiry (kv : CacheKey * list Z) : Z := match decode_value kv.2 with Some st => se_expires_at_unix st | None => 0 end.
Definition decodes (kv : CacheKey * list Z) : Prop := is_Some (decode_value kv.2).

(** [k] is the key of an entry of the sample that expires no later than the others. *)
Definition soonest (sample : list (CacheKey * list Z)) (x : Z) (k : CacheKey) : Prop :=
  (exists raw, (k, raw) ∈ sample /\ expiry (k, raw) = x) /\ forall kv, kv ∈ sample -> x <= expiry kv.

Lemma soonest_foldl l : forall sample x k, Forall decodes l -> soonest sample x k ->
  exists x' k', foldl sooner (Some (x, k)) l = Some (x', k') /\ soonest (sample ++ l) x' k'.
Proof.
  induction l as [|[k v] l IH]; intros sample x k0 Hl [(raw & Hin & Hx) Hmin].
  { exists x, k0. rewrite app_nil_r. split; [done|]. split; [by exists raw|done]. }
  apply Forall_cons in Hl as [[st Hst] Hl]. cbn [foldl]. cbn in Hst.
  assert (expiry (k, v) = se_expires_at_unix st) as Hkv by (unfold expiry; cbn; by rewrite Hst).
  replace (sooner (Some (x, k0)) (k, v)) with (if se_expires_at_unix st <? x then Some (se_expires_at_unix st, k) else Some (x, k0)) by (unfold sooner; cbn; by rewrite Hst).
  rewrite (cons_middle (k, v)), app_assoc. destruct (se_expires_at_unix st <? x) eqn:E; [apply Z.ltb_lt in E|apply Z.ltb_ge in E]; apply IH; try done; split.
  - exists v. split; [|done]. apply elem_of_app. right. by left.
  - intros kv [Hk|Hk]%elem_of_app; [specialize (Hmin _ Hk); lia|]. apply elem_of_cons in Hk as [->|Hk]; [lia|by apply elem_of_nil in Hk].
  - exists raw. split; [|done]. apply elem_of_app. by left.
  - intros kv [Hk|Hk]%elem_of_app; [by apply Hmin|]. apply elem_of_cons in Hk as [->|Hk]; [lia|by apply elem_of_nil in Hk].
Qed.

(** The victim of a sample is expired, or else none of the sample is and it is the next to expire. *)
Lemma sample_victim_spec now_unix sample : sample <> [] -> Forall decodes sample -> exists k raw,
  sample_victim now_unix sample None = Some k /\ (k, raw) ∈ sample /\
  (expired now_unix (k, raw) = true \/ forall kv, kv ∈ sample -> expired now_unix kv = false /\ expiry (k, raw) <= expiry kv).
Proof.
  intros Hne Hd. unfold sample_victim. destruct (List.find _ sample) as [[k raw]|] eqn:E.
  { apply find_some in E as [Hin He]. exists k, raw. apply list_elem_of_In in Hin. auto. }
  destruct sample as [|[k v] l]; [done|]. apply Forall_cons in Hd as [[st Hst] Hd]. cbn [foldl]. cbn in Hst.
  replace (sooner None (k, v)) with (Some (se_expires_at_unix st, k)) by (unfold sooner; cbn; by rewrite Hst).
  destruct (soonest_foldl l [(k, v)] (se_expires_at_unix st) k Hd) as (x & k' & -> & (raw & Hin & Hx) & Hmin).
  { split; [exists v; split; [by left|unfold expiry; cbn; by rewrite Hst]|]. intros kv Hk. apply elem_of_cons in Hk as [->|Hk]; [|by apply elem_of_nil in Hk].
    unfold expiry. cbn. by rewrite Hst. }
  exists k', raw. split_and!; [done|done|]. right. intros kv Hk. split; [|rewrite Hx; by apply Hmin].
  apply list_elem_of_In in Hk. by apply (find_none _ _ E).
Qed.
End Victim.

Lemma sooner_in l : forall best x k, foldl sooner best l = Some (x, k) -> k ∈ l.*1 \/ best = Some (x, k).
Proof.
  induction l as [|[k v] l IH]; intros best x k0; [by right|]. cbn [foldl]. intros H. apply IH in H as [H|H]; [left; by right|].
  unfold sooner in H. cbn in H. repeat case_match; simplify_eq; try (left; by left); by right.
Qed.

Lemma victim_in iter p now_unix m k : (forall m, iter m ≡ₚ map_to_list m) -> victim iter p now_unix m = Some k -> is_Some (m !! k).
Proof.
  intros Hiter. assert (forall k, k ∈ (iter m).*1 -> is_Some (m !! k)) as Hin by (intros ?; by apply iter_key). unfold victim, sample_victim.
  destruct (po_when_full p); [done| |].
  - destruct (iter m) as [|kv l]; [done|]. intros [= <-]. apply Hin. by left.
  - set (n := Z.to_nat _). assert (forall x, x ∈ (take n (iter m)).*1 -> x ∈ (iter m).*1) as Hs.
    { intros x Hx. rewrite <-(take_drop n (iter m)), fmap_app. apply elem_of_app. by left. }
    destruct (List.find _ _) as [kv|] eqn:E.
    + apply find_some in E as [E _]. intros [= <-]. apply Hin, Hs. apply list_elem_of_fmap. exists kv. split; [done|]. by apply list_elem_of_In.
    + destruct (foldl _ _ _) as [[x k']|] eqn:Ef; [|done]. intros [= <-]. apply sooner_in in Ef as [Ef|?]; [|done]. by apply Hin, Hs.
Qed.

(** A full shard that may evict has a victim. *)
Lemma victim_exists (iter : gmap CacheKey (list Z) -> list (CacheKey * list Z)) (p : LmdbPolicy) (now_unix : Z) (m : gmap CacheKey (list Z)) : (forall m, iter m ≡ₚ map_to_list m) ->
  (forall k raw, m !! k = Some raw -> is_Some (decode_value raw)) -> m <> ∅ -> po_when_full p <> FullRefuse ->
  exists k raw, victim iter p now_unix m = Some k /\ m !! k = Some raw /\
    (po_when_full p = FullSample -> exists sample, sample `prefix_of` iter m /\ (k, raw) ∈ sample /\
      (expired now_unix (k, raw) = true \/ forall kv, kv ∈ sample -> expired now_unix kv = false /\ expiry (k, raw) <= expiry kv)).
Proof.
  intros Hiter Hdec Hne Hp. assert (iter m <> []) as Hl.
  { intros E. apply Hne. apply map_to_list_empty_iff. symmetry. apply Permutation_nil_l. rewrite <-(Hiter m). by rewrite E. }
  assert (forall k raw, (k, raw) ∈ iter m -> m !! k = Some raw) as Hin by (intros k raw Hk; rewrite Hiter in Hk; by apply elem_of_map_to_list).
  unfold victim. destruct (po_when_full p) eqn:E; [done| |].
  - destruct (iter m) as [|[k raw] l] eqn:El; [done|]. exists k, raw. split_and!; [done|apply Hin; by left|done].
  - set (sample := take _ _). assert (sample `prefix_of` iter m) as Hpre by apply prefix_take.
    assert (forall kv, kv ∈ sample -> kv ∈ iter m) as Hsub by (intros kv Hk; destruct Hpre as [t ->]; apply elem_of_app; by left).
    destruct (sample_victim_spec now_unix sample) as (k & raw & Hv & Hk & Hs).
    + unfold sample. destruct (iter m) as [|kv l]; [done|]. destruct (Z.to_nat _) eqn:En; [lia|done].
    + apply Forall_forall. intros [k raw] Hk. apply (Hdec k). by apply Hin, Hsub.
    + exists k, raw. split_and!; [done|by apply Hin, Hsub|]. intros _. by exists sample.
Qed.

Lemma full_size s key : full s key = true -> 0 < sh_max_entries s <= zsize (e_entries (sh_env s)) /\ e_entries (sh_env s) !! key = None.
Proof.
  unfold full. rewrite !andb_true_iff, negb_true_iff, Z.ltb_lt, Z.leb_le. intros [[? Hn] ?]. split; [lia|]. by destruct (_ !! key).
Qed.

Lemma not_full_size s key v : full s key = false -> 0 < sh_max_entries s -> zsize (e_entries (sh_env s)) <= sh_max_entries s ->
  zsize (<[key := v]> (e_entries (sh_env s))) <= sh_max_entries s.
Proof.
  unfold full, zsize. intros Hf Hmax Hsz. destruct (e_entries (sh_env s) !! key) eqn:E.
  - by rewrite map_size_insert_Some by eauto.
  - rewrite map_size_insert_None by done. rewrite (proj2 (Z.ltb_lt _ _) Hmax) in Hf. cbn in Hf. apply Z.leb_gt in Hf. unfold zsize in Hf. lia.
Qed.

(** A shard within its limit stays within it. *)
Lemma insert_bounded (clock : nat -> Z) iter p key entry now s r e : (forall m, iter m ≡ₚ map_to_list m) -> counted s ->
  (forall k raw, e_entries (sh_env s) !! k = Some raw -> is_Some (decode_value raw)) ->
  exists o w', shard_insert clock iter p key entry now (MkWorld s [] [] r e) = (Ok o, w') /\ sh_max_entries (wo_state w') = sh_max_entries s /\
  (0 < sh_max_entries s -> zsize (e_entries (sh_env s)) <= sh_max_entries s -> zsize (contents w') <= sh_max_entries s).
Proof.
  intros Hiter Hc Hdec. change (shard_insert _ _ _ _ _ _ (MkWorld s [] [] r e)) with (shard_insert clock iter p key entry now (MkWorld s [] [] r 0)).
  rewrite insert_exact by done. destruct (full s key) eqn:Ef; cycle 1.
  { eexists _, _. split_and!; [done|done|]. intros H1 H2. by apply not_full_size. }
  pose proof (full_size _ _ Ef) as [Hsz Hkey]. destruct (victim _ _ _ _) as [k|] eqn:Ev; [|by eexists _, _].
  eexists _, _. split_and!; [done|done|]. cbn. intros _ Hle. unfold zsize. rewrite map_size_insert_None; [|by apply lookup_delete_None; right].
  pose proof (size_delete_in (e_entries (sh_env s)) k ltac:(by eapply victim_in)) as Hd. unfold zsize in *. lia.
Qed.

(** An insertion when the library works and the count of the shard is right. The entry is stored
    and nothing else changes, unless the key is new and the shard has reached its limit. Then
    [refuse] changes nothing; [evict_one] and [sample] store the entry in the place of
    exactly one other, and with [sample] that one is an expired entry of the
    sample, or, if the sample has none, the one of the sample that expires first. So a shard
    within its limit stays within it. *)
Theorem lmdb_insert_behaviour (clock : nat -> Z) (iter : gmap CacheKey (list Z) -> list (CacheKey * list Z)) (p : LmdbPolicy) (key : CacheKey)
    (entry : CacheEntry) (now : Z) (s : LmdbShard) (r : nat) :
  (forall m, iter m ≡ₚ map_to_list m) -> counted s -> (forall k raw, e_entries (sh_env s) !! k = Some raw -> is_Some (decode_value raw)) ->
  let m := e_entries (sh_env s) in
  exists o w' i, shard_insert clock iter p key entry now (MkWorld s [] [] r 0) = (Ok o, w') /\
  let value := encode_entry entry now (clock i) in
  (full s key = false -> o = {| io_stored := true; io_evictions := 0 |} /\ contents w' = <[key := value]> m) /\
  (full s key = true -> po_when_full p = FullRefuse -> o = {| io_stored := false; io_evictions := 0 |} /\ contents w' = m) /\
  (full s key = true -> po_when_full p <> FullRefuse -> o = {| io_stored := true; io_evictions := 1 |} /\
    exists k raw, m !! k = Some raw /\ contents w' = <[key := value]> (delete k m) /\
      (po_when_full p = FullSample -> exists sample, sample `prefix_of` iter m /\ (k, raw) ∈ sample /\
        (expired (clock r) (k, raw) = true \/ forall kv, kv ∈ sample -> expired (clock r) kv = false /\ expiry (k, raw) <= expiry kv))) /\
  (0 < sh_max_entries s -> zsize m <= sh_max_entries s -> zsize (contents w') <= sh_max_entries s).
Proof.
  intros Hiter Hc Hdec m. rewrite insert_exact by done. destruct (full s key) eqn:Ef; cycle 1.
  { eexists _, _, r. split; [done|]. cbn. split_and!; [done|done|done|]. intros H1 H2. by apply not_full_size. }
  pose proof (full_size _ _ Ef) as [Hsz Hkey].
  destruct (decide (po_when_full p = FullRefuse)) as [Hr|Hr].
  { unfold victim. rewrite Hr. eexists _, _, r. split; [done|]. cbn. split_and!; done. }
  destruct (victim_exists iter p (clock r) (e_entries (sh_env s))) as (k & raw & -> & Hk & Hs); [done|done| |done|].
  { intros E. rewrite E in Hsz. unfold zsize in Hsz. rewrite map_size_empty in Hsz. lia. }
  eexists _, _, (r + sampling p)%nat. split; [done|]. cbn. split_and!; [done|done| |].
  - intros _ _. split; [done|]. by exists k, raw.
  - intros _ Hle. unfold zsize. fold m. rewrite map_size_insert_None; [|by apply lookup_delete_None; right].
    pose proof (size_delete_in m k ltac:(eauto)) as Hd. unfold zsize in *. lia.
Qed.

Lemma lmdb_insert_behaviour_witness : full (sample_shard 1) [5] = false /\
  exists o w' i, shard_insert sample_clock map_to_list (sample_policy FullSample) [5] (sample_answer 1) 0 (MkWorld (sample_shard 1) [] [] 0 0) = (Ok o, w') /\
  o = {| io_stored := true; io_evictions := 0 |} /\ contents w' = <[[5] := encode_entry (sample_answer 1) 0 (sample_clock i)]> ∅.
Proof.
  split; [reflexivity|].
  destruct (lmdb_insert_behaviour sample_clock map_to_list (sample_policy FullSample) [5] (sample_answer 1) 0 (sample_shard 1) 0)
    as (o & w' & i & H1 & H2 & _); [reflexivity|split; [reflexivity|vm_compute; congruence]|intros k raw H; discriminate H|].
  exists o, w', i. split; [exact H1|]. exact (H2 eq_refl).
Defined.

(** ** The shares of [max_entries] *)

Lemma sum_shares base rem n a : 0 <= rem -> 0 <= a ->
  foldr Z.add 0 ((fun i => if Z.of_nat i <? rem then base + 1 else base) <$> seq (Z.to_nat a) n) =
  base * Z.of_nat n + Z.max 0 (Z.min (rem - a) (Z.of_nat n)).
Proof.
  intros Hr. revert a. induction n as [|n IH]; intros a Ha; [cbn; lia|]. cbn [seq fmap list_fmap foldr].
  replace (S (Z.to_nat a)) with (Z.to_nat (a + 1)) by lia. rewrite IH by lia. rewrite Z2Nat.id by lia.
  destruct (a <? rem) eqn:E; [apply Z.ltb_lt in E|apply Z.ltb_ge in E]; lia.
Qed.

(** The shares add up to the limit. *)
Lemma shares_sum max n : 0 <= max -> (0 < n)%nat -> foldr Z.add 0 (per_shard_max_entries max n) = max.
Proof.
  intros Hm Hn. unfold per_shard_max_entries. destruct (max =? 0) eqn:E.
  - apply Z.eqb_eq in E as ->. induction n as [|[|n] IH]; [lia|done|]. cbn in *. lia.
  - rewrite (sum_shares _ _ n 0) by (apply Z.mod_pos_bound || done; lia).
    pose proof (Z.mod_pos_bound max (Z.of_nat n) ltac:(lia)). pose proof (Z.div_mod max (Z.of_nat n) ltac:(lia)). lia.
Qed.

Lemma shares_pos max n c : Z.of_nat n <= max -> c ∈ per_shard_max_entries max n -> 0 < c.
Proof.
  intros Hm. unfold per_shard_max_entries. destruct (max =? 0) eqn:E.
  - apply Z.eqb_eq in E as ->. intros Hc. apply elem_of_replicate in Hc as [_ ?]. lia.
  - intros Hc. apply list_elem_of_fmap in Hc as (i & -> & Hi). apply elem_of_seq in Hi.
    assert (1 <= max / Z.of_nat n) by (apply Z.div_le_lower_bound; lia). case_match; lia.
Qed.

(** Each shard within its share. *)
Definition within (b : LmdbCacheBackend) : Prop := forall i s, lc_shards b !! i = Some s -> 0 < sh_max_entries s -> zsize (e_entries (sh_env s)) <= sh_max_entries s.

Lemma live_within b : within b -> (forall i s, lc_shards b !! i = Some s -> 0 < sh_max_entries s) ->
  Z.of_nat (live b) <= foldr Z.add 0 (sh_max_entries <$> lc_shards b).
Proof.
  unfold live, within. induction (lc_shards b) as [|s l IH]; intros Hw Hp; [done|]. cbn.
  specialize (IH (fun i => Hw (S i)) (fun i => Hp (S i))). pose proof (Hw 0%nat s eq_refl (Hp 0%nat s eq_refl)) as H0. unfold zsize in H0. unfold shard_size at 1. lia.
Qed.

Lemma set_caps_limits (l : list LmdbShard) caps : length caps = length l -> sh_max_entries <$> zip_with set_cap l caps = caps.
Proof. revert caps. induction l as [|s l IH]; intros [|c caps] H; simplify_eq/=; [done|]. by rewrite IH by congruence. Qed.

Section Bound.
Context (clock : nat -> Z) (iter : gmap CacheKey (list Z) -> list (CacheKey * list Z)) (hash : CacheKey -> Z).
Context (iter_perm : forall m, iter m ≡ₚ map_to_list m).
Context (clock_sane : forall i, 0 <= clock i < 2 ^ 61).

Definition limits (b : LmdbCacheBackend) : list Z := sh_max_entries <$> lc_shards b.
Definition keeps_limits (op : LmdbOp) : bool := match op with LmdbSetMax _ => false | _ => true end.

(** What keeps the shares: the shards within them stay so. *)
Definition kept (b b' : LmdbCacheBackend) : Prop := limits b' = limits b /\ (within b -> within b').

Lemma updated_kept b i s s' : lc_shards b !! i = Some s -> sh_max_entries s' = sh_max_entries s ->
  (0 < sh_max_entries s -> zsize (e_entries (sh_env s)) <= sh_max_entries s -> zsize (e_entries (sh_env s')) <= sh_max_entries s) -> kept b (updated b i s').
Proof.
  intros Hs Hm Hz. split.
  - unfold limits, updated. cbn. rewrite list_fmap_insert, Hm. apply list_insert_id. by rewrite list_lookup_fmap, Hs.
  - intros Hw j t Hj Hp. unfold updated in Hj. cbn in Hj. apply list_lookup_insert_Some in Hj as [(<- & <- & _)|[_ Hj]]; [|by eapply Hw].
    rewrite Hm in *. apply Hz; [done|]. by apply (Hw i).
Qed.

Lemma shed_kept n w i s ws : lc_shards (wo_state w) !! i = Some s ->
  shed n (MkWorld s (wo_gets w) (wo_faults w) (wo_reads w) (wo_evictions w)) ws -> kept (wo_state w) (updated (wo_state w) i (wo_state ws)).
Proof.
  intros Hs [S1 S2 S3 _ _ _ _]. cbn in *. apply (updated_kept _ _ s); [done|by injection S3|]. intros _ Hz. unfold zsize in *. lia.
Qed.

Lemma step_kept op w m : sane_backend hash (wo_state w) -> counted_backend m (wo_state w) -> wo_gets w = [] -> wo_faults w = [] -> keeps_limits op = true ->
  kept (wo_state w) (wo_state (lmdb_step clock iter hash op w).2).
Proof.
  intros Hb Hc Hg Hf Hk. change (post w (lmdb_step clock iter hash op) (fun _ w' => kept (wo_state w) (wo_state w'))).
  destruct op as [key now|key e now|key| |mx|wf n]; cbn [lmdb_step]; [..|done|done].
  - apply post_bind, (for_key_post hash); [done|]. intros s Hs. eapply post_mono; [apply shard_get_post|]. intros r ws H.
    destruct H; try apply post_ret; by eapply shed_kept.
  - apply post_bind, (for_key_post hash); [done|]. intros s Hs.
    destruct (insert_bounded clock iter (lc_policy (wo_state w)) key e now s (wo_reads w) (wo_evictions w) iter_perm) as (o & w' & E & Hset & Hz).
    { by destruct (Hc _ _ Hs). }
    { intros k raw Hr. destruct (proj2 Hb _ _ Hs k raw Hr) as [_ (st & -> & _)]. done. }
    rewrite Hg, Hf. unfold post at 1. rewrite E. cbn. by apply (updated_kept _ _ s).
  - apply post_bind, (for_key_post hash); [done|]. intros s Hs. eapply post_mono; [apply remove_post|].
    intros r ws [(-> & _ & _ & Hsh)|(-> & _ & Hsh)]; apply post_ret; by eapply shed_kept.
  - apply post_bind, post_catch. unfold clear_all_entries. apply post_bind. unfold post at 1. cbn [get_state fst snd].
    eapply post_mono; [by apply (clear_shards_post iter iter_perm), Forall_forall; intros i Hi; apply elem_of_seq in Hi; lia|].
    intros r w' [[L G F S] _]. apply post_ret. split.
    + apply list_eq. intros i. unfold limits. rewrite !list_lookup_fmap. destruct (lc_shards (wo_state w') !! i) as [s'|] eqn:E.
      * apply S in E as (s & -> & _ & E & _). cbn. f_equal. by injection E.
      * apply lookup_ge_None in E. by rewrite lookup_ge_None_2 by lia.
    + intros Hw i s' Hs' Hp. apply S in Hs' as (s & Hs & Hsub & E & _). injection E as E _ _ _. rewrite E in *.
      specialize (Hw i s Hs Hp). apply map_subseteq_size in Hsub. unfold zsize in *. lia.
Qed.

Lemma run_kept ops : forall w m, sane_backend hash (wo_state w) -> counted_backend m (wo_state w) -> wo_gets w = [] -> wo_faults w = [] ->
  Forall op_sane ops -> m + zlen ops <= u64_max -> forallb keeps_limits ops = true -> kept (wo_state w) (wo_state (lmdb_run clock iter hash ops w)).
Proof.
  induction ops as [|op ops IH]; intros w m Hb Hc Hg Hf Hops Hlt Hk; [done|]. apply Forall_cons in Hops as [Hop Hops]. rewrite zlen_cons in Hlt.
  cbn in Hk. apply andb_prop in Hk as [Hk1 Hk2]. pose proof (zlen_nonneg ops).
  destruct (lmdb_step_ok clock iter hash iter_perm clock_sane op w Hb Hop) as [_ B1 B2 B3 B4].
  destruct (step_kept op w m Hb Hc Hg Hf Hk1) as [K1 K2].
  destruct (IH _ (m + 1) B1 (B4 m Hg Hc ltac:(lia)) (B2 Hg) (B3 Hf) Hops ltac:(lia) Hk2) as [L1 L2].
  split; [by etrans|]. intros Hw. apply L2, K2, Hw.
Qed.
End Bound.

(** C32: The limit on entries. If [max_entries] is at least the number of shards, a store that starts
    empty never holds more than [max_entries] entries, whatever is inserted, looked up, removed
    or cleared and whatever the policy, as long as the library works. *)
Theorem lmdb_cap_kept (clock : nat -> Z) (iter : gmap CacheKey (list Z) -> list (CacheKey * list Z)) (hash : CacheKey -> Z)
    (ops : list LmdbOp) (b : LmdbCacheBackend) (max : Z) :
  (forall m, iter m ≡ₚ map_to_list m) -> (forall i, 0 <= clock i < 2 ^ 61) -> fresh b -> Forall op_sane ops -> zlen ops <= u64_max ->
  forallb keeps_limits ops = true -> Z.of_nat (length (lc_shards b)) <= max ->
  let w := lmdb_run clock iter hash ops (MkWorld (lmdb_set_max_entries max b) [] [] 0 0) in
  Z.of_nat (live (wo_state w)) <= max.
Proof.
  intros Hiter Hclock Hf Hops Hlen Hk Hmax. set (b' := lmdb_set_max_entries max b).
  assert (length (per_shard_max_entries max (length (lc_shards b))) = length (lc_shards b)) as Hl by apply length_caps.
  destruct (same_envs hash b b') as (_ & _ & _ & Hsane & Hcount); [by apply set_caps_envs|]. destruct (fresh_ok hash _ Hf) as [Hb Hc].
  assert (limits b' = per_shard_max_entries max (length (lc_shards b))) as Hlim by (by apply set_caps_limits).
  assert (forall i s, lc_shards b' !! i = Some s -> e_entries (sh_env s) = ∅) as Hempty.
  { intros i s Hs. destruct Hf as [_ Hf]. rewrite Forall_lookup in Hf. apply lookup_zip_with_Some in Hs as (t & c & -> & Ht & _). by apply (Hf _ _ Ht). }
  pose proof (run_kept clock iter hash Hiter Hclock ops (MkWorld b' [] [] 0 0) 0 (Hsane Hb) (Hcount 0 Hc) eq_refl eq_refl Hops ltac:(lia) Hk) as [K1 K2].
  cbn [wo_state] in *. destruct Hf as [Hn _]. etrans; [apply live_within|].
  - apply K2. intros i s Hs Hp. rewrite (Hempty _ _ Hs). unfold zsize. rewrite map_size_empty. lia.
  - intros i s Hs. apply (shares_pos max (length (lc_shards b))); [done|]. rewrite <-Hlim, <-K1. apply list_elem_of_lookup. exists i. unfold limits.
    by rewrite list_lookup_fmap, Hs.
  - change (foldr Z.add 0 (limits (wo_state (lmdb_run clock iter hash ops (MkWorld b' [] [] 0 0)))) <= max). rewrite K1, Hlim, shares_sum by lia. done.
Qed.

Lemma lmdb_cap_kept_witness :
  let w := lmdb_run sample_clock map_to_list sample_hash
    [LmdbInsert [5] (sample_answer 1) 0; LmdbInsert [6] (sample_answer 2) 0; LmdbInsert [7; 1] (sample_answer 3) 0; LmdbGet [6] 0]
    (MkWorld (lmdb_set_max_entries 2 sample_backend) [] [] 0 0) in
  Z.of_nat (live (wo_state w)) <= 2.
Proof.
  apply (lmdb_cap_kept sample_clock map_to_list sample_hash); try reflexivity.
  - exact sample_clock_sane.
  - split; [cbn; lia|]. by repeat constructor.
  - repeat constructor; vm_compute; congruence.
  - vm_compute. congruence.
Defined.

(** ** Where the limits do not hold *)

(** The shares of a limit below the number of shards are zero from [max] on, which means
    unlimited: such a shard stores every new key and evicts nothing, however many it has. *)
Theorem small_max_entries_unbounded (clock : nat -> Z) (iter : gmap CacheKey (list Z) -> list (CacheKey * list Z)) (max : Z) (n i : nat)
    (s : LmdbShard) (p : LmdbPolicy) (key : CacheKey) (entry : CacheEntry) (now : Z) (r : nat) :
  0 < max <= Z.of_nat i -> (i < n)%nat -> per_shard_max_entries max n !! i = Some (sh_max_entries s) ->
  counted s -> e_entries (sh_env s) !! key = None ->
  exists w', shard_insert clock iter p key entry now (MkWorld s [] [] r 0) = (Ok {| io_stored := true; io_evictions := 0 |}, w') /\
    size (contents w') = (size (e_entries (sh_env s)) + 1)%nat.
Proof.
  intros Hmax Hi Hcap Hc Hnew. assert (sh_max_entries s = 0) as H0.
  { unfold per_shard_max_entries in Hcap. destruct (max =? 0) eqn:E; [apply Z.eqb_eq in E; lia|].
    rewrite list_lookup_fmap, lookup_seq_lt in Hcap by done. cbn [fmap option_fmap option_map] in Hcap. injection Hcap as <-. rewrite Z.div_small, Z.mod_small by lia.
    destruct (Z.ltb_spec (Z.of_nat i) max); lia. }
  rewrite insert_exact by done. unfold full. rewrite H0. cbn. eexists. split; [done|]. cbn. rewrite map_size_insert_None by done. lia.
Qed.

(** Lowering the limit evicts nothing. *)
Theorem lowered_cap_keeps_entries (hash : CacheKey -> Z) (max : Z) (b : LmdbCacheBackend) :
  live (lmdb_set_max_entries max b) = live b /\ forall k, found hash (lmdb_set_max_entries max b) k = found hash b k.
Proof. destruct (same_envs hash b (lmdb_set_max_entries max b)) as (_ & Hf & Hl & _); [|done]. apply set_caps_envs. by rewrite length_caps. Qed.

(** Two threads store the same new key: each looks for it in a transaction of its own before
    either writes, and the count of the shard has one entry too many from then on. *)
Theorem racing_inserts_miscount :
  let p := sample_policy FullRefuse in
  let w := MkWorld (sample_shard 10) [] [] 0 0 in
  let check := make_room sample_clock map_to_list p [5] w in
  let w1 := (insert_put [5] (encode_entry (sample_answer 1) 0 1000) false check.2).2 in
  let w2 := (insert_put [5] (encode_entry (sample_answer 2) 0 1000) false w1).2 in
  check = (Ok (Some false), w) /\ size (contents w2) = 1%nat /\ count_value (e_count (sh_env (wo_state w2))) = 2 /\
  let w3 := (shard_remove [5] w2).2 in contents w3 = ∅ /\ count_value (e_count (sh_env (wo_state w3))) = 1.
Proof. vm_compute. done. Qed.

(** An eviction by sample picks its victim in a read transaction; if a lookup removes the
    expired entry before the write transaction, both take it off the count. *)
Theorem racing_eviction_miscounts :
  let stored k x w := (shard_insert sample_clock map_to_list (sample_policy FullSample) k (sample_answer x) 0 w).2 in
  let w := stored [6] 2 (stored [5] 1 (MkWorld (sample_shard 10) [] [] 0 0)) in
  let victim := sample_scan 5000 4 (map_to_list (contents w)) 0 None w in
  exists k, victim.1 = Ok (Some k) /\
    let w1 := (shard_remove k victim.2).2 in
    let w2 := (delete_victim k w1).2 in
    size (contents w2) = 1%nat /\ count_value (e_count (sh_env (wo_state w2))) = 0.
Proof. eexists. split; [vm_compute; reflexivity|]. vm_compute. done. Qed.

(** A failing read of the count makes the insertion write one. *)
Theorem failed_read_resets_count :
  let stored k x gets w := (shard_insert sample_clock map_to_list (sample_policy FullRefuse) k (sample_answer x) 0
    (MkWorld (wo_state w) gets [] (wo_reads w) 0)).2 in
  let w := stored [7] 3 [false; false; true] (stored [6] 2 [] (stored [5] 1 [] (MkWorld (sample_shard 10) [] [] 0 0))) in
  size (contents w) = 3%nat /\ count_value (e_count (sh_env (wo_state w))) = 1.
Proof. vm_compute. done. Qed.
