(* ===== verification/LmdbSync.v ===== *)
(** * LmdbSync: map sizes and durability of the durable cache

    lmdb.rs: the shares of the map size and its live changes ([per_shard_map_sizes],
    [grow_map_size], [shrink_map_size]), the durability modes ([apply_sync_config] and
    [reconcile_flusher]), and the dirty flags that the writers and the flusher share
    ([force_sync_iter]). What an environment occupies is the parameter [used]. *)

From stdpp Require Import base list gmap.
From Stdlib Require Import ZArith Lia.
From S2P Require Import Prelude Effects CacheStore Compile Lmdb LmdbMap.

#[local] Open Scope string_scope.
#[local] Open Scope list_scope.
#[local] Open Scope Z_scope.

(** ** Map sizes *)

Definition PAGE : Z := 4096.
(** [div_ceil] and the product are of [usize]. *)
Definition align_map_size (bytes : Z) : Z := let n := Z.max bytes PAGE in wrap 64 ((n + PAGE - 1) / PAGE * PAGE).

Definition sum_of (l : list Z) : Z := foldr Z.add 0 l.

Definition per_shard_map_sizes (total_bytes : Z) (n : nat) : list Z :=
  let total := align_map_size total_bytes in
  let base := Z.max (total / Z.of_nat n / PAGE * PAGE) PAGE in
  let sizes := replicate n base in
  let sum := sum_of sizes in
  if sum <? total then alter (Z.add (total - sum)) 0%nat sizes
  else if total <? sum then
    let overflow := sum - total in
    if PAGE + overflow <? base then alter (fun s => s - overflow) 0%nat sizes else sizes
  else sizes.

Section Sizes.
Context (iter : gmap CacheKey (list Z) -> list (CacheKey * list Z)) (used : Env -> Z).

Definition used_bytes (b : LmdbCacheBackend) : Z := sum_of ((fun s => used (sh_env s)) <$> lc_shards b).

Definition set_map_size (size : Z) (s : LmdbShard) : LmdbShard := MkLmdbShard (sh_env s) (sh_max_entries s) size (sh_dirty s) (sh_flags s).

(** The loop of [resize_total_to]: a failing shard leaves the earlier ones resized. *)
Fixpoint resize_shards (i : nat) (sizes : list Z) : L LmdbCacheBackend unit :=
  match sizes with
  | [] => ret tt
  | size :: sizes =>
      let* _u := on_shard i (let* _u := heed in let* s := get_state in put_state (set_map_size size s)) in
      resize_shards (S i) sizes
  end.
Definition resize_total_to (aligned_total : Z) : L LmdbCacheBackend unit :=
  let* b := get_state in
  let* _u := resize_shards 0 (per_shard_map_sizes aligned_total (length (lc_shards b))) in
  let* b := get_state in
  put_state (MkLmdbBackend (lc_shards b) (sum_of (sh_map_size_bytes <$> lc_shards b)) (lc_total_max_entries b) (lc_policy b)).

Definition grow_map_size (new_size : Z) : L LmdbCacheBackend unit :=
  let* b := get_state in
  if new_size <=? lc_total_map_size_bytes b then ret tt else resize_total_to (align_map_size new_size).

(** The guarded eviction loop of [shrink_map_size]. *)
Fixpoint evict_until (guard : nat) (target : Z) : L LmdbCacheBackend unit :=
  let* b := get_state in
  if used_bytes b <=? target then ret tt
  else match guard with
       | O => ret tt
       | S guard => let* ok := evict_one_arbitrary_any_shard iter in if ok then evict_until guard target else ret tt
       end.

Definition shrink_map_size (new_size : Z) : L LmdbCacheBackend unit :=
  let* b := get_state in
  let target := align_map_size new_size in
  if lc_total_map_size_bytes b <=? target then ret tt
  else if used_bytes b <=? target then resize_total_to target
  else
    let* _u := evict_until (Z.to_nat 1000000) target in
    let* b := get_state in
    if used_bytes b <=? target then resize_total_to target
    else
      let* _u := clear_all_entries iter in
      let* b := get_state in
      if target <? used_bytes b then throw (Fails (Io OtherFault)) else resize_total_to target.
End Sizes.

(** ** Durability modes *)

Definition sync_env_flags (sync : LmdbSync) : EnvFlags :=
  match sync with
  | SyncFull => {| NO_SYNC := false; NO_META_SYNC := false |}
  | SyncNoMeta => {| NO_SYNC := false; NO_META_SYNC := true |}
  | SyncPeriodic | SyncNone => {| NO_SYNC := true; NO_META_SYNC := false |}
  end.

Definition set_flags (f : EnvFlags -> EnvFlags) : L LmdbShard unit :=
  let* r := catch heed in
  match r with
  | Err (Fails (Io x)) => throw (Fails (SetSyncFlags x))
  | Err e => throw e
  | Ok _ => let* s := get_state in put_state (MkLmdbShard (sh_env s) (sh_max_entries s) (sh_map_size_bytes s) (sh_dirty s) (f (sh_flags s)))
  end.

Definition apply_sync_flags_to_env (sync : LmdbSync) : L LmdbShard unit :=
  let* _u := set_flags (fun f => {| NO_SYNC := false; NO_META_SYNC := NO_META_SYNC f |}) in
  let* _u := set_flags (fun f => {| NO_SYNC := NO_SYNC f; NO_META_SYNC := false |}) in
  match sync with
  | SyncFull => ret tt
  | SyncNoMeta => set_flags (fun f => {| NO_SYNC := NO_SYNC f; NO_META_SYNC := true |})
  | SyncPeriodic | SyncNone => set_flags (fun f => {| NO_SYNC := true; NO_META_SYNC := NO_META_SYNC f |})
  end.

(** [force_sync_iter] on one shard: the flag goes down before the sync and up again if it fails. *)
Definition force_sync_shard : L LmdbShard bool :=
  let* s := get_state in
  if sh_dirty s then
    let* _u := put_state (MkLmdbShard (sh_env s) (sh_max_entries s) (sh_map_size_bytes s) false (sh_flags s)) in
    let* r := catch heed in
    match r with
    | Ok _ => ret true
    | Err _ => let* s := get_state in
        let* _u := put_state (MkLmdbShard (sh_env s) (sh_max_entries s) (sh_map_size_bytes s) true (sh_flags s)) in ret false
    end
  else ret true.

(** It visits every shard; the result says whether all syncs succeeded. *)
Fixpoint force_sync_iter (ixs : list nat) : L LmdbCacheBackend bool :=
  match ixs with
  | [] => ret true
  | i :: ixs => let* ok := on_shard i force_sync_shard in let* rest := force_sync_iter ixs in ret (ok && rest)
  end.
Definition force_sync_dirty_shards : L LmdbCacheBackend bool :=
  let* b := get_state in force_sync_iter (seq 0 (length (lc_shards b))).

(** The backend with its flusher, which is its interval. *)
Record LmdbHandle := MkHandle { h_backend : LmdbCacheBackend; h_flusher : option Z }.

Definition on_backend {A} (op : L LmdbCacheBackend A) : L LmdbHandle A := fun w =>
  let (r, w') := op (MkWorld (h_backend (wo_state w)) (wo_gets w) (wo_faults w) (wo_reads w) (wo_evictions w)) in
  (r, MkWorld (MkHandle (wo_state w') (h_flusher (wo_state w))) (wo_gets w') (wo_faults w') (wo_reads w') (wo_evictions w')).

Definition set_policy (sync : LmdbSync) (interval : option Z) : L LmdbHandle unit :=
  let* h := get_state in
  let b := h_backend h in
  put_state (MkHandle (MkLmdbBackend (lc_shards b) (lc_total_map_size_bytes b) (lc_total_max_entries b)
    (MkPolicy (po_when_full (lc_policy b)) (po_sample_size (lc_policy b)) sync interval)) (h_flusher h)).

Definition set_flusher (f : option Z) : L LmdbHandle unit := let* h := get_state in put_state (MkHandle (h_backend h) f).

(** [reconcile_flusher]; whether a thread could be spawned, and whether it was joined in time, are arguments. *)
Definition reconcile_flusher (spawned joined : bool) (sync : LmdbSync) (interval : option Z) : L LmdbHandle unit :=
  let* h := get_state in
  match sync, interval with
  | SyncPeriodic, Some iv =>
      if is_someb (h_flusher h) then set_flusher (Some iv)
      else if spawned then set_flusher (Some iv) else throw (Fails SpawnFlusher)
  | _, _ =>
      if is_someb (h_flusher h) then
        let* _u := set_flusher None in
        if joined then let* _u := catch (on_backend force_sync_dirty_shards) in ret tt else ret tt
      else ret tt
  end.

Fixpoint flags_all (ixs : list nat) (sync : LmdbSync) : L LmdbCacheBackend unit :=
  match ixs with [] => ret tt | i :: ixs => let* _u := on_shard i (apply_sync_flags_to_env sync) in flags_all ixs sync end.
(** The revert tries every shard and logs what fails. *)
Fixpoint flags_revert (ixs : list nat) (sync : LmdbSync) : L LmdbCacheBackend unit :=
  match ixs with [] => ret tt | i :: ixs => let* _u := catch (on_shard i (apply_sync_flags_to_env sync)) in flags_revert ixs sync end.

Definition apply_sync_config (spawned joined : bool) (sync : LmdbSync) (interval : option Z) : L LmdbHandle unit :=
  if bool_decide (sync = SyncPeriodic) && negb (is_someb interval) then throw (Fails (InvalidSyncConfig "sync=periodic requires sync_interval"))
  else if negb (bool_decide (sync = SyncPeriodic)) && is_someb interval
  then throw (Fails (InvalidSyncConfig "sync_interval must only be set when sync=periodic"))
  else
    let* h := get_state in
    let prev_sync := po_sync (lc_policy (h_backend h)) in
    let prev_interval := po_sync_interval (lc_policy (h_backend h)) in
    let all := seq 0 (length (lc_shards (h_backend h))) in
    if bool_decide (prev_sync = sync) && bool_decide (prev_interval = interval) then ret tt
    else
      let* _u := if bool_decide (prev_sync = sync) then ret tt else on_backend (flags_all all sync) in
      let* _u := set_policy sync interval in
      let* r := catch (reconcile_flusher spawned joined sync interval) in
      match r with
      | Ok _ => ret tt
      | Err e =>
          let* _u := set_policy prev_sync prev_interval in
          let* _u := if bool_decide (prev_sync = sync) then ret tt else on_backend (flags_revert all prev_sync) in
          throw e
      end.

(** ** The shares of the map size *)

Lemma align_spec bytes : 0 <= bytes < 2 ^ 63 -> PAGE <= align_map_size bytes /\ bytes <= align_map_size bytes < bytes + 2 * PAGE /\ align_map_size bytes mod PAGE = 0.
Proof.
  intros H. unfold align_map_size. cbv zeta. set (n := Z.max bytes PAGE). assert (PAGE <= n < 2 ^ 63 + 1) as Hn by (unfold n, PAGE in *; lia).
  pose proof (Z.div_mod (n + PAGE - 1) PAGE ltac:(done)) as Hd. pose proof (Z.mod_pos_bound (n + PAGE - 1) PAGE ltac:(done)) as Hm.
  rewrite wrap_small by (unfold fits, PAGE in *; lia). rewrite Z.mod_mul by done. unfold n, PAGE in *. lia.
Qed.

Lemma sum_replicate n x : sum_of (replicate n x) = Z.of_nat n * x.
Proof. unfold sum_of. induction n as [|n IH]; cbn; lia. Qed.

Lemma sum_alter_0 (f : Z -> Z) x l : sum_of (alter f 0%nat (x :: l)) = f x + sum_of l.
Proof. done. Qed.

(** What the shares are, according to whether every shard can have a page of the total. *)
Lemma map_sizes_cases bytes n : 0 <= bytes < 2 ^ 63 -> (0 < n)%nat ->
  let total := align_map_size bytes in
  (Z.of_nat n * PAGE <= total -> exists base, per_shard_map_sizes bytes n = (total - (Z.of_nat n - 1) * base) :: replicate (n - 1) base /\
    PAGE <= base /\ base mod PAGE = 0 /\ Z.of_nat n * base <= total) /\
  (total < Z.of_nat n * PAGE -> per_shard_map_sizes bytes n = replicate n PAGE).
Proof.
  intros Hb Hn total. pose proof (align_spec bytes Hb) as (A1 & A2 & A3). fold total in A1, A2, A3.
  unfold per_shard_map_sizes. fold total. set (q := total / Z.of_nat n).
  pose proof (Z.div_mod total (Z.of_nat n) ltac:(lia)) as Hq. pose proof (Z.mod_pos_bound total (Z.of_nat n) ltac:(lia)) as Hqm. fold q in Hq.
  pose proof (Z.div_mod q PAGE ltac:(done)) as Hp. pose proof (Z.mod_pos_bound q PAGE ltac:(done)) as Hpm. split; intros Hle.
  - assert (PAGE <= q) as Hqp by (apply Z.div_le_lower_bound; lia).
    assert (1 <= q / PAGE) as H1 by (apply Z.div_le_lower_bound; unfold PAGE in *; lia).
    rewrite Z.max_l by (unfold PAGE in *; lia). set (base := q / PAGE * PAGE). assert (PAGE <= base <= q) as Hbase by (unfold base, PAGE in *; lia).
    assert (Z.of_nat n * base <= total) as Htot by nia.
    exists base. rewrite sum_replicate. destruct n as [|n]; [lia|]. replace (S n - 1)%nat with n by lia. cbn [replicate].
    split; [|split_and!; [lia|by apply Z.mod_mul|lia]].
    destruct (Z.ltb_spec (Z.of_nat (S n) * base) total) as [Hlt|Hge]; [cbn; f_equal; lia|].
    assert (Z.of_nat (S n) * base = total) as E by lia.
    destruct (Z.ltb_spec total (Z.of_nat (S n) * base)); [lia|]. f_equal. lia.
  - assert (q < PAGE) as Hqp by (apply Z.div_lt_upper_bound; lia). replace (q / PAGE) with 0 by (symmetry; apply Z.div_small; unfold q; split; [apply Z.div_pos; unfold PAGE in *; lia|done]).
    cbn [Z.mul]. rewrite Z.max_r by done. rewrite sum_replicate, (proj2 (Z.ltb_ge _ _)) by lia.
    destruct (total <? _); [|done]. by rewrite (proj2 (Z.ltb_ge _ _)) by lia.
Qed.

(** The shares of the map size. If the total has a page for every shard, the shares add up to the
    total rounded up to pages, and each is a whole number of pages, at least one. *)
Theorem map_sizes_split (bytes : Z) (n : nat) :
  0 <= bytes < 2 ^ 63 -> (0 < n)%nat -> Z.of_nat n * PAGE <= align_map_size bytes ->
  sum_of (per_shard_map_sizes bytes n) = align_map_size bytes /\ length (per_shard_map_sizes bytes n) = n /\
  Forall (fun size => PAGE <= size /\ size mod PAGE = 0) (per_shard_map_sizes bytes n).
Proof.
  intros Hb Hn Hle. destruct (map_sizes_cases bytes n Hb Hn) as [H _]. destruct (H Hle) as (base & -> & Hbase & Hmod & Htot).
  pose proof (align_spec bytes Hb) as (_ & _ & Ha). split_and!.
  - change (sum_of (?x :: ?l)) with (x + sum_of l). rewrite sum_replicate. replace (Z.of_nat (n - 1)) with (Z.of_nat n - 1) by lia. ring.
  - cbn. rewrite length_replicate. lia.
  - constructor.
    + split; [nia|]. apply Z.mod_divide in Hmod as [c ->]; [|done]. rewrite Z.mul_assoc, Zminus_mod, Ha, Z.mod_mul by done. done.
    + apply Forall_replicate. done.
Qed.

Lemma map_sizes_split_witness : sum_of (per_shard_map_sizes 1000000000 16) = align_map_size 1000000000 /\
  length (per_shard_map_sizes 1000000000 16) = 16%nat /\ Forall (fun size => PAGE <= size /\ size mod PAGE = 0) (per_shard_map_sizes 1000000000 16).
Proof. apply map_sizes_split; vm_compute; lia || (split; congruence) || congruence. Defined.

(** Below a page per shard the shares exceed the total. *)
Theorem small_map_size_exceeds_total (bytes : Z) (n : nat) :
  0 <= bytes < 2 ^ 63 -> (0 < n)%nat -> align_map_size bytes < Z.of_nat n * PAGE ->
  align_map_size bytes < sum_of (per_shard_map_sizes bytes n).
Proof. intros Hb Hn Hlt. destruct (map_sizes_cases bytes n Hb Hn) as [_ ->]; [|done]. by rewrite sum_replicate. Qed.

(** ** Resizing a live store *)

Section Resize.
Context (iter : gmap CacheKey (list Z) -> list (CacheKey * list Z)) (used : Env -> Z).
Context (iter_perm : forall m, iter m ≡ₚ map_to_list m).

Definition envs (b : LmdbCacheBackend) : list Env := sh_env <$> lc_shards b.

(** Environment by environment, entries were only lost. *)
Definition fewer (b b' : LmdbCacheBackend) : Prop := Forall2 (fun e e' => e_entries e' ⊆ e_entries e) (envs b) (envs b').

Lemma fewer_refl b b' : envs b' = envs b -> fewer b b'.
Proof. intros H. unfold fewer. rewrite H. by apply Forall_Forall2_diag, Forall_true. Qed.

Lemma fewer_trans a b c : fewer a b -> fewer b c -> fewer a c.
Proof. unfold fewer. intros H1 H2. eapply Forall2_trans; [|exact H1|exact H2]. intros x y z Hxy Hyz. cbn in *. by etrans; [exact Hyz|exact Hxy]. Qed.

Lemma fewer_found hash b b' k : fewer b b' -> found hash b' k = found hash b k \/ found hash b' k = None.
Proof.
  intros H. unfold fewer, envs in H. rewrite Forall2_fmap in H. unfold found, home. rewrite (Forall2_length _ _ _ H).
  destruct (lc_shards b' !! _) as [s'|] eqn:E; [|by right]. destruct (Forall2_lookup_r _ _ _ _ _ H E) as (s & -> & Hsub). by apply found_sub.
Qed.

Lemma shed_fewer n w i s ws : lc_shards (wo_state w) !! i = Some s -> shed n (MkWorld s (wo_gets w) (wo_faults w) (wo_reads w) (wo_evictions w)) ws ->
  fewer (wo_state w) (updated (wo_state w) i (wo_state ws)).
Proof.
  intros Hs [S1 _ _ _ _ _ _]. unfold fewer, envs, updated. cbn in *. rewrite list_fmap_insert. apply Forall2_same_length_lookup_2; [by rewrite length_insert|].
  intros j e e' He He'. apply list_lookup_insert_Some in He' as [(<- & <- & _)|[_ He']].
  - rewrite list_lookup_fmap, Hs in He. cbn in He. by injection He as <-.
  - by simplify_eq.
Qed.

(** A run in which every step on a shard loses entries at most. *)
Lemma evict_any_fewer ixs w : Forall (fun i => i < length (lc_shards (wo_state w)))%nat ixs ->
  post w (evict_any iter ixs) (fun _ w' => fewer (wo_state w) (wo_state w')).
Proof.
  revert w. induction ixs as [|i ixs IH]; intros w Hin; [apply post_ret; by apply fewer_refl|].
  apply Forall_cons in Hin as [Hi Hin]. apply lookup_lt_is_Some_2 in Hi as [s Hs]. cbn [evict_any].
  apply post_bind, (on_shard_post _ s); [done|]. eapply post_mono; [by apply evict_one_post|]. intros r ws H.
  assert (exists n, shed n (MkWorld s (wo_gets w) (wo_faults w) (wo_reads w) (wo_evictions w)) ws) as [n Hn] by (destruct H as [(_ & ? & _)|(_ & _ & ? & _)]; eauto).
  pose proof (shed_fewer n w i s ws Hs Hn) as Hf. destruct r as [[]|e]; [by apply post_ret| |done].
  eapply post_mono; [apply IH; cbn; by rewrite length_insert|]. intros r w' H'. by eapply fewer_trans.
Qed.

Lemma evict_until_fewer guard target w : post w (evict_until iter used guard target) (fun _ w' => fewer (wo_state w) (wo_state w')).
Proof.
  revert w. induction guard as [|guard IH]; intros w; cbn [evict_until]; apply post_bind; unfold post at 1; cbn [get_state fst snd];
    destruct (used_bytes used _ <=? target); try (apply post_ret; by apply fewer_refl).
  apply post_bind. unfold evict_one_arbitrary_any_shard. apply post_bind. unfold post at 1. cbn [get_state fst snd].
  eapply post_mono; [apply evict_any_fewer, Forall_forall; intros i Hi; apply elem_of_seq in Hi; lia|].
  intros [[]|e] w' H'; [|by apply post_ret|done]. eapply post_mono; [apply IH|]. intros r w'' H''. by eapply fewer_trans.
Qed.

Lemma clear_fewer w : post w (clear_all_entries iter) (fun _ w' => fewer (wo_state w) (wo_state w')).
Proof.
  unfold clear_all_entries. apply post_bind. unfold post at 1. cbn [get_state fst snd].
  eapply post_mono; [by apply (clear_shards_post iter iter_perm), Forall_forall; intros i Hi; apply elem_of_seq in Hi; lia|].
  intros r w' [[L G F S] _]. unfold fewer, envs. rewrite Forall2_fmap. apply Forall2_same_length_lookup_2; [done|].
  intros i s s' Hs Hs'. apply S in Hs' as (t & Ht & Hsub & _). by simplify_eq.
Qed.

(** A resize changes sizes only. *)
Lemma resize_shards_post sizes i w : (i + length sizes <= length (lc_shards (wo_state w)))%nat ->
  post w (resize_shards i sizes) (fun r w' => envs (wo_state w') = envs (wo_state w) /\
    (r = Ok tt -> sh_map_size_bytes <$> lc_shards (wo_state w') =
      take i (sh_map_size_bytes <$> lc_shards (wo_state w)) ++ sizes ++ drop (i + length sizes) (sh_map_size_bytes <$> lc_shards (wo_state w)))).
Proof.
  revert i w. induction sizes as [|size sizes IH]; intros i w Hle.
  { apply post_ret. split; [done|]. intros _. cbn. rewrite Nat.add_0_r. by rewrite take_drop. }
  cbn in Hle. destruct (lookup_lt_is_Some_2 (lc_shards (wo_state w)) i) as [s Hs]; [lia|]. cbn [resize_shards].
  apply post_bind, (on_shard_post _ s); [done|]. apply post_quiet; [eauto with lmdb| |intros e w' [E _ _ _ _]; split; [|done]].
  2:{ cbn. unfold envs, updated. cbn. rewrite E. cbn. rewrite list_insert_id; done. }
  intros [] w1 [E _ _ _ _] _. cbn in E. apply post_bind. unfold post at 1. cbn [get_state fst snd]. unfold post at 1. cbn [put_state fst snd]. rewrite E.
  set (w2 := MkWorld (updated _ _ _) _ _ _ _). assert (envs (wo_state w2) = envs (wo_state w)) as He.
  { unfold envs, w2, updated. cbn. rewrite list_fmap_insert. apply list_insert_id. by rewrite list_lookup_fmap, Hs. }
  eapply post_mono; [apply IH; unfold w2, updated; cbn; rewrite length_insert; lia|]. intros r w' [H1 H2]. split; [by rewrite H1|]. intros Hr. rewrite (H2 Hr).
  set (l := sh_map_size_bytes <$> lc_shards (wo_state w)). assert (sh_map_size_bytes <$> lc_shards (wo_state w2) = <[i := size]> l) as ->.
  { unfold w2, updated. cbn. by rewrite list_fmap_insert. }
  assert (i < length l)%nat as Hi by (unfold l; rewrite length_fmap; lia). rewrite (drop_insert_lt _ _ i) by lia. cbn [length].
  rewrite (take_S_r _ _ size) by by rewrite list_lookup_insert_eq. rewrite take_insert_ge by lia. rewrite <-app_assoc. cbn. by rewrite Nat.add_succ_r.
Qed.

Lemma length_map_sizes total n : length (per_shard_map_sizes total n) = n.
Proof. unfold per_shard_map_sizes. repeat case_match; by rewrite ?length_alter, length_replicate. Qed.

Lemma resize_total_post total w : post w (resize_total_to total) (fun r w' => envs (wo_state w') = envs (wo_state w) /\
  (r = Ok tt -> sh_map_size_bytes <$> lc_shards (wo_state w') = per_shard_map_sizes total (length (lc_shards (wo_state w))) /\
    lc_total_map_size_bytes (wo_state w') = sum_of (per_shard_map_sizes total (length (lc_shards (wo_state w)))))).
Proof.
  unfold resize_total_to. apply post_bind. unfold post at 1. cbn [get_state fst snd]. set (n := length _). apply post_bind.
  eapply post_mono; [apply resize_shards_post; rewrite length_map_sizes; unfold n; lia|]. intros [[]|e] w' [He Hs]; [|done].
  specialize (Hs eq_refl). rewrite length_map_sizes in Hs. cbn [take firstn Nat.add app] in Hs. rewrite drop_ge in Hs by (rewrite length_fmap; done).
  rewrite app_nil_r in Hs. apply post_bind. unfold post at 1. cbn [get_state fst snd]. unfold post. cbn [put_state fst snd wo_state lc_shards lc_total_map_size_bytes].
  rewrite Hs. done.
Qed.

Lemma used_envs b : used_bytes used b = sum_of (used <$> envs b).
Proof. unfold used_bytes, envs. by rewrite <-list_fmap_compose. Qed.

Lemma shrink_post new_size w : let target := align_map_size new_size in
  post w (shrink_map_size iter used new_size) (fun r w' => fewer (wo_state w) (wo_state w') /\
    (used_bytes used (wo_state w) <= target -> envs (wo_state w') = envs (wo_state w)) /\
    (r = Ok tt -> w' = w \/ (used_bytes used (wo_state w') <= target /\
      lc_total_map_size_bytes (wo_state w') = sum_of (per_shard_map_sizes target (length (lc_shards (wo_state w))))))).
Proof.
  intros target. unfold shrink_map_size. apply post_bind. unfold post at 1. cbn [get_state fst snd]. fold target.
  destruct (lc_total_map_size_bytes (wo_state w) <=? target); [apply post_ret; split_and!; [by apply fewer_refl|done|by left]|].
  assert (forall w1, fewer (wo_state w) (wo_state w1) -> used_bytes used (wo_state w1) <= target ->
    (used_bytes used (wo_state w) <= target -> envs (wo_state w1) = envs (wo_state w)) ->
    post w1 (resize_total_to target) (fun r w' => fewer (wo_state w) (wo_state w') /\
      (used_bytes used (wo_state w) <= target -> envs (wo_state w') = envs (wo_state w)) /\
      (r = Ok tt -> w' = w \/ (used_bytes used (wo_state w') <= target /\
        lc_total_map_size_bytes (wo_state w') = sum_of (per_shard_map_sizes target (length (lc_shards (wo_state w)))))))) as Hres.
  { intros w1 Hf Hu Hsame. eapply post_mono; [apply resize_total_post|]. intros r w' [He Hr]. split_and!.
    - eapply fewer_trans; [exact Hf|]. by apply fewer_refl.
    - intros H. rewrite He. auto.
    - intros ->. right. destruct (Hr eq_refl) as [_ Ht]. split.
      + rewrite used_envs in Hu |- *. by rewrite He.
      + rewrite Ht. f_equal. f_equal. unfold fewer, envs in Hf. apply Forall2_length in Hf. by rewrite !length_fmap in Hf. }
  destruct (Z.leb_spec (used_bytes used (wo_state w)) target) as [Hu|Hu]; [by apply Hres; [apply fewer_refl| |]|].
  assert (forall (r : result unit Stop) w', fewer (wo_state w) (wo_state w') -> r <> Ok tt -> fewer (wo_state w) (wo_state w') /\
    (used_bytes used (wo_state w) <= target -> envs (wo_state w') = envs (wo_state w)) /\
    (r = Ok tt -> w' = w \/ (used_bytes used (wo_state w') <= target /\
      lc_total_map_size_bytes (wo_state w') = sum_of (per_shard_map_sizes target (length (lc_shards (wo_state w))))))) as Hno.
  { intros r w' Hf Hr. split_and!; [done|lia|done]. }
  apply post_bind. eapply post_mono; [apply evict_until_fewer|]. intros [[]|e] w1 Hf1; [|by apply Hno].
  apply post_bind. unfold post at 1. cbn [get_state fst snd]. destruct (Z.leb_spec (used_bytes used (wo_state w1)) target) as [Hu1|Hu1]; [apply Hres; (done || lia)|].
  apply post_bind. eapply post_mono; [apply clear_fewer|]. intros [[]|e] w2 Hf2; [|apply Hno; [by eapply fewer_trans|done]].
  apply post_bind. unfold post at 1. cbn [get_state fst snd]. assert (fewer (wo_state w) (wo_state w2)) as Hf by by eapply fewer_trans.
  destruct (Z.ltb_spec target (used_bytes used (wo_state w2))) as [Hu2|Hu2]; [by apply Hno|apply Hres; (done || lia)].
Qed.
End Resize.

(** Shrinking the map of a live store, whatever calls of the library fail. Entries are only
    lost, and none if what is stored fits the new size; when the call succeeds, the store fits, and the
    total is that of the shares. *)
Theorem shrink_outcome (iter : gmap CacheKey (list Z) -> list (CacheKey * list Z)) (used : Env -> Z) (hash : CacheKey -> Z) (new_size : Z)
    (w w' : World LmdbCacheBackend) (r : result unit Stop) :
  (forall m, iter m ≡ₚ map_to_list m) -> shrink_map_size iter used new_size w = (r, w') ->
  let target := align_map_size new_size in
  (forall k, found hash (wo_state w') k = found hash (wo_state w) k \/ found hash (wo_state w') k = None) /\
  (used_bytes used (wo_state w) <= target -> forall k, found hash (wo_state w') k = found hash (wo_state w) k) /\
  (r = Ok tt -> w' = w \/ (used_bytes used (wo_state w') <= target /\
    lc_total_map_size_bytes (wo_state w') = sum_of (per_shard_map_sizes target (length (lc_shards (wo_state w)))))).
Proof.
  intros Hiter H target. pose proof (shrink_post iter used Hiter new_size w) as (Hf & He & Hr). rewrite H in Hf, He, Hr. cbn in *. split_and!; [|intros Hu|done].
  - intros k. by apply fewer_found.
  - intros k. destruct (same_envs hash (wo_state w) (wo_state w')) as (_ & -> & _); [|done]. by apply He.
Qed.

Definition page_per_env (e : Env) : Z := PAGE * (1 + Z.of_nat (size (e_entries e))).
Definition sized_backend (sizes : list Z) : LmdbCacheBackend :=
  MkLmdbBackend ((fun size => MkLmdbShard empty_env 0 size false sample_flags) <$> sizes) (sum_of sizes) 0 (sample_policy FullEvictOne).
Definition stored_two (sizes : list Z) : World LmdbCacheBackend :=
  lmdb_run sample_clock map_to_list sample_hash [LmdbInsert [5] (sample_answer 1) 0; LmdbInsert [6; 6] (sample_answer 2) 0] (MkWorld (sized_backend sizes) [] [] 0 0).

Lemma shrink_outcome_witness : exists r w',
  shrink_map_size map_to_list page_per_env 16384 (stored_two [16384; 16384]) = (r, w') /\ r = Ok tt /\
  (forall k, found sample_hash (wo_state w') k = found sample_hash (wo_state (stored_two [16384; 16384])) k \/ found sample_hash (wo_state w') k = None).
Proof.
  eexists _, _. split; [vm_compute; reflexivity|]. split; [reflexivity|].
  refine (proj1 (shrink_outcome map_to_list page_per_env sample_hash 16384 (stored_two [16384; 16384]) _ (Ok tt) _ _)); [reflexivity|vm_compute; reflexivity].
Defined.

(** A map size of less than a page per shard cannot be kept: every later apply of the same
    configuration takes it for a shrink, clears the store and fails. *)
Theorem small_map_size_clears_on_apply :
  let w := stored_two (per_shard_map_sizes 4096 2) in
  let cur := lc_total_map_size_bytes (wo_state w) in
  let (r, w') := shrink_map_size map_to_list page_per_env 4096 w in
  4096 < cur /\ live (wo_state w) = 2%nat /\ r = Err (Fails (Io OtherFault)) /\ live (wo_state w') = 0%nat.
Proof. vm_compute. done. Qed.

(** ** Durability modes *)

Definition with_flags (f : EnvFlags) (s : LmdbShard) : LmdbShard := MkLmdbShard (sh_env s) (sh_max_entries s) (sh_map_size_bytes s) (sh_dirty s) f.
Definition clean (s : LmdbShard) : LmdbShard := MkLmdbShard (sh_env s) (sh_max_entries s) (sh_map_size_bytes s) false (sh_flags s).

(** The flags of the environments, the flusher and the policy agree. *)
Record consistent (h : LmdbHandle) : Prop := {
  con_flags : Forall (fun s => sh_flags s = sync_env_flags (po_sync (lc_policy (h_backend h)))) (lc_shards (h_backend h));
  con_interval : is_someb (po_sync_interval (lc_policy (h_backend h))) = bool_decide (po_sync (lc_policy (h_backend h)) = SyncPeriodic);
  con_flusher : h_flusher h = po_sync_interval (lc_policy (h_backend h));
}.

Section Modes.
Context (g : list bool) (r : nat) (e : Z).
Abbreviation calm x := (MkWorld x g [] r e).

Lemma flags_exact sync s : apply_sync_flags_to_env sync (calm s) = (Ok tt, calm (with_flags (sync_env_flags sync) s)).
Proof. by destruct sync. Qed.

Lemma force_sync_exact s : force_sync_shard (calm s) = (Ok true, calm (clean s)).
Proof. unfold force_sync_shard, bind, get_state. cbn. destruct s as [env mx sz [] fl]; done. Qed.

(** A loop over all shards of an operation that succeeds with [f]. *)
Lemma on_shard_exact {A} (op : L LmdbShard A) (a : A) (f : LmdbShard -> LmdbShard) b l1 s l2 :
  (forall s, op (calm s) = (Ok a, calm (f s))) -> lc_shards b = l1 ++ s :: l2 ->
  on_shard (length l1) op (calm b) = (Ok a, calm (with_shards b (l1 ++ f s :: l2))).
Proof. intros Hop Hl. unfold on_shard. cbn. rewrite Hl, lookup_app_r, Nat.sub_diag by done. cbn. rewrite Hop. cbn. by rewrite insert_app_r_alt, Nat.sub_diag by done. Qed.

Lemma with_shards_twice b l l' : with_shards (with_shards b l) l' = with_shards b l'.
Proof. done. Qed.

Lemma flags_all_exact sync l2 : forall b l1, lc_shards b = l1 ++ l2 ->
  flags_all (seq (length l1) (length l2)) sync (calm b) = (Ok tt, calm (with_shards b (l1 ++ (with_flags (sync_env_flags sync) <$> l2)))) /\
  flags_revert (seq (length l1) (length l2)) sync (calm b) = (Ok tt, calm (with_shards b (l1 ++ (with_flags (sync_env_flags sync) <$> l2)))).
Proof.
  induction l2 as [|s l2 IH]; intros b l1 Hl.
  { cbn. rewrite app_nil_r in *. rewrite <-Hl. by destruct b. }
  cbn [length seq flags_all flags_revert]. unfold bind at 1 2. unfold catch. rewrite (on_shard_exact _ tt (with_flags (sync_env_flags sync)) b l1 s l2) by (done || apply flags_exact).
  cbn [fst snd]. destruct (IH (with_shards b (l1 ++ with_flags (sync_env_flags sync) s :: l2)) (l1 ++ [with_flags (sync_env_flags sync) s])) as [I1 I2].
  { cbn. by rewrite <-app_assoc. }
  rewrite length_app, Nat.add_1_r in I1, I2. rewrite I1, I2, with_shards_twice. cbn. by rewrite <-app_assoc.
Qed.

Lemma force_sync_all_exact l2 : forall b l1, lc_shards b = l1 ++ l2 ->
  force_sync_iter (seq (length l1) (length l2)) (calm b) = (Ok true, calm (with_shards b (l1 ++ (clean <$> l2)))).
Proof.
  induction l2 as [|s l2 IH]; intros b l1 Hl.
  { cbn. rewrite app_nil_r in *. rewrite <-Hl. by destruct b. }
  cbn [length seq force_sync_iter]. unfold bind at 1. rewrite (on_shard_exact _ true clean b l1 s l2) by (done || apply force_sync_exact).
  unfold bind. specialize (IH (with_shards b (l1 ++ clean s :: l2)) (l1 ++ [clean s])). rewrite length_app, Nat.add_1_r in IH. rewrite IH by (cbn; by rewrite <-app_assoc).
  unfold ret. rewrite with_shards_twice. cbn. by rewrite <-app_assoc.
Qed.

Lemma set_all_flags sync b : flags_all (seq 0 (length (lc_shards b))) sync (calm b) = (Ok tt, calm (with_shards b (with_flags (sync_env_flags sync) <$> lc_shards b))) /\
  flags_revert (seq 0 (length (lc_shards b))) sync (calm b) = (Ok tt, calm (with_shards b (with_flags (sync_env_flags sync) <$> lc_shards b))).
Proof. by apply (flags_all_exact sync (lc_shards b) b []). Qed.

Lemma sync_all b : force_sync_dirty_shards (calm b) = (Ok true, calm (with_shards b (clean <$> lc_shards b))).
Proof. unfold force_sync_dirty_shards, bind. cbn [get_state wo_state]. by apply (force_sync_all_exact (lc_shards b) b []). Qed.
End Modes.

Lemma policy_eta p : MkPolicy (po_when_full p) (po_sample_size p) (po_sync p) (po_sync_interval p) = p.
Proof. by destruct p. Qed.

Lemma flags_back f f' l : Forall (fun s => sh_flags s = f) l -> with_flags f <$> (with_flags f' <$> l) = l.
Proof.
  induction 1 as [|s l Hs _ IH]; [done|]. cbn. unfold with_flags at 1 2. rewrite IH. f_equal. destruct s. cbn in *. by subst.
Qed.

Lemma with_flags_all f l : Forall (fun s => sh_flags s = f) (with_flags f <$> l).
Proof. by apply Forall_fmap, Forall_true. Qed.

Lemma clean_flags f l : Forall (fun s => sh_flags s = f) l -> Forall (fun s => sh_flags s = f) (clean <$> l).
Proof. intros H. apply Forall_fmap. eapply Forall_impl; [exact H|]. done. Qed.

(** The handle with new shards, policy and flusher. *)
Definition reconfigured (h : LmdbHandle) (shards : list LmdbShard) (sync : LmdbSync) (interval flusher : option Z) : LmdbHandle :=
  let b := h_backend h in
  MkHandle (MkLmdbBackend shards (lc_total_map_size_bytes b) (lc_total_max_entries b)
    (MkPolicy (po_when_full (lc_policy b)) (po_sample_size (lc_policy b)) sync interval)) flusher.

(** The flags step of [apply_sync_config]. *)
Definition flagged (h : LmdbHandle) (sync : LmdbSync) : list LmdbShard :=
  if bool_decide (po_sync (lc_policy (h_backend h)) = sync) then lc_shards (h_backend h)
  else with_flags (sync_env_flags sync) <$> lc_shards (h_backend h).

Lemma flagged_flags h sync : consistent h -> Forall (fun s => sh_flags s = sync_env_flags sync) (flagged h sync).
Proof.
  intros [Hf _ _]. unfold flagged. case_bool_decide as E; [by rewrite E in Hf|apply with_flags_all].
Qed.

Lemma flagged_envs h sync : sh_env <$> flagged h sync = sh_env <$> lc_shards (h_backend h).
Proof. unfold flagged. case_bool_decide; [done|]. by rewrite <-list_fmap_compose. Qed.

Lemma reconcile_exact g r e h shards spawned joined sync interval : is_someb interval = bool_decide (sync = SyncPeriodic) ->
  reconcile_flusher spawned joined sync interval (MkWorld (reconfigured h shards sync interval (h_flusher h)) g [] r e) =
  if bool_decide (sync = SyncPeriodic) && negb (is_someb (h_flusher h)) && negb spawned
  then (Err (Fails SpawnFlusher), MkWorld (reconfigured h shards sync interval (h_flusher h)) g [] r e)
  else (Ok tt, MkWorld (reconfigured h (if negb (bool_decide (sync = SyncPeriodic)) && is_someb (h_flusher h) && joined then clean <$> shards else shards)
                         sync interval interval) g [] r e).
Proof.
  intros Hi. unfold reconcile_flusher. unfold bind at 1. cbn [get_state wo_state]. cbn [reconfigured h_flusher].
  destruct (bool_decide_reflect (sync = SyncPeriodic)) as [->|Hne]; cbn [negb andb] in *.
  - destruct interval as [iv|]; [|done]. destruct (h_flusher h) as [f|]; [done|]. by destruct spawned.
  - destruct interval; [done|].
    replace (match sync with SyncPeriodic => _ | _ => _ end) with (if is_someb (h_flusher h) then
      let* _u := set_flusher None in if joined then let* _u := catch (on_backend force_sync_dirty_shards) in ret tt else ret tt else ret tt) by by destruct sync.
    destruct (h_flusher h) as [f|] eqn:Ef; cbn [is_someb andb]; [|done]. destruct joined; [|done].
    unfold set_flusher, bind at 1 2. cbn [get_state put_state wo_state]. unfold bind, catch, on_backend. cbn [wo_state h_backend reconfigured wo_gets wo_faults wo_reads wo_evictions].
    by rewrite sync_all.
Qed.

Lemma handle_eta h : MkHandle (with_shards (h_backend h) (lc_shards (h_backend h))) (h_flusher h) = h.
Proof. by destruct h as [[] ?]. Qed.

(** What the mode change comes to. *)
Lemma change_exact g r e h spawned joined sync interval :
  let prev := po_sync (lc_policy (h_backend h)) in
  let prev_interval := po_sync_interval (lc_policy (h_backend h)) in
  is_someb interval = bool_decide (sync = SyncPeriodic) -> bool_decide (prev = sync) && bool_decide (prev_interval = interval) = false ->
  apply_sync_config spawned joined sync interval (MkWorld h g [] r e) =
  if bool_decide (sync = SyncPeriodic) && negb (is_someb (h_flusher h)) && negb spawned
  then (Err (Fails SpawnFlusher), MkWorld (reconfigured h (if bool_decide (prev = sync) then flagged h sync else with_flags (sync_env_flags prev) <$> flagged h sync)
                                            prev prev_interval (h_flusher h)) g [] r e)
  else (Ok tt, MkWorld (reconfigured h (if negb (bool_decide (sync = SyncPeriodic)) && is_someb (h_flusher h) && joined then clean <$> flagged h sync else flagged h sync)
                         sync interval interval) g [] r e).
Proof.
  intros prev prev_interval Hi Hne. unfold apply_sync_config. rewrite Hi.
  replace (bool_decide _ && negb (bool_decide _)) with false by by destruct (bool_decide _).
  replace (negb (bool_decide _) && bool_decide _) with false by by destruct (bool_decide _).
  unfold bind at 1. cbn [get_state wo_state]. fold prev prev_interval. rewrite Hne. clear Hne.
  assert ((if bool_decide (prev = sync) then ret tt else on_backend (flags_all (seq 0 (length (lc_shards (h_backend h)))) sync)) (MkWorld h g [] r e) =
    (Ok tt, MkWorld (MkHandle (with_shards (h_backend h) (flagged h sync)) (h_flusher h)) g [] r e)) as Hflags.
  { clear Hi. unfold flagged. fold prev. case_bool_decide; [by rewrite handle_eta|]. unfold on_backend. cbn. by rewrite (proj1 (set_all_flags g r e sync (h_backend h))). }
  rewrite (bind_ok _ _ _ _ _ Hflags).
  assert (forall h1 s iv, set_policy s iv (MkWorld h1 g [] r e) = (Ok tt, MkWorld (reconfigured h1 (lc_shards (h_backend h1)) s iv (h_flusher h1)) g [] r e)) as Hset by done.
  rewrite (bind_ok _ _ _ _ _ (Hset _ _ _)). set (h1 := reconfigured _ _ _ _ _).
  assert (h1 = reconfigured h (flagged h sync) sync interval (h_flusher h)) as -> by done.
  pose proof (reconcile_exact g r e h (flagged h sync) spawned joined sync interval Hi) as Hrec. unfold bind at 1, catch at 1. rewrite Hrec. cbn [fst snd].
  destruct (bool_decide (sync = SyncPeriodic) && negb (is_someb (h_flusher h)) && negb spawned); [|done]. cbn [fst snd].
  rewrite (bind_ok _ _ _ _ _ (Hset _ _ _)). clear Hi Hrec Hflags. case_bool_decide as Hp; [done|]. unfold bind, on_backend.
  cbn [wo_state wo_gets wo_faults wo_reads wo_evictions]. set (b := h_backend (reconfigured _ _ _ _ _)).
  assert (length (lc_shards (h_backend h)) = length (lc_shards b)) as ->.
  { unfold b, flagged. cbn. fold prev. rewrite bool_decide_false by done. by rewrite length_fmap. }
  by rewrite (proj2 (set_all_flags g r e prev b)).
Qed.

(** A change of the durability mode of a live store, when the library works. The mode and the
    interval must fit each other; then the call fails only if a flusher is needed and cannot be started,
    and a call that fails leaves everything as it was. After a call that succeeds the policy
    is the new one, and the flags of every environment and the flusher agree with it. No entry
    is touched, and a store that leaves the periodic mode has been synced if the flusher stopped in time. *)
Theorem sync_config_outcome (spawned joined : bool) (sync : LmdbSync) (interval : option Z) (h : LmdbHandle) (g : list bool) (rd : nat) (e : Z)
    (res : result unit Stop) (w' : World LmdbHandle) :
  consistent h -> apply_sync_config spawned joined sync interval (MkWorld h g [] rd e) = (res, w') ->
  let prev := po_sync (lc_policy (h_backend h)) in
  envs (h_backend (wo_state w')) = envs (h_backend h) /\
  match res with
  | Ok _ => consistent (wo_state w') /\ po_sync (lc_policy (h_backend (wo_state w'))) = sync /\ po_sync_interval (lc_policy (h_backend (wo_state w'))) = interval /\
      (prev = SyncPeriodic -> sync <> SyncPeriodic -> joined = true -> Forall (fun s => sh_dirty s = false) (lc_shards (h_backend (wo_state w'))))
  | Err err => wo_state w' = h /\
      (is_someb interval <> bool_decide (sync = SyncPeriodic) \/ (err = Fails SpawnFlusher /\ spawned = false /\ sync = SyncPeriodic /\ prev <> SyncPeriodic))
  end.
Proof.
  intros Hh H prev. pose proof Hh as [Hf Hi Hfl].
  destruct (decide (is_someb interval = bool_decide (sync = SyncPeriodic))) as [Hok|Hbad]; cycle 1.
  { assert (wo_state w' = h /\ exists e', res = Err e') as [-> [e' ->]]; [|split; [done|]; split; [done|by left]].
    destruct sync, interval; try (by destruct Hbad); unfold apply_sync_config in H; cbn in H; unfold throw in H; injection H as <- <-; (split; [done|by eexists]). }
  destruct (bool_decide (prev = sync) && bool_decide (po_sync_interval (lc_policy (h_backend h)) = interval)) eqn:Esame.
  { assert (res = Ok tt /\ wo_state w' = h) as [-> ->].
    { unfold apply_sync_config in H. rewrite Hok in H. replace (bool_decide _ && negb (bool_decide _)) with false in H by by destruct (bool_decide _).
      replace (negb (bool_decide _) && bool_decide _) with false in H by by destruct (bool_decide _).
      unfold bind at 1 in H. cbn [get_state wo_state] in H. fold prev in H. rewrite Esame in H. unfold ret in H. by simplify_eq. }
    apply andb_prop in Esame as [E1%bool_decide_eq_true E2%bool_decide_eq_true]. split; [done|]. split_and!; [done|done|done|]. intros Hp Hn. congruence. }
  rewrite change_exact in H by done. fold prev in H.
  destruct (bool_decide (sync = SyncPeriodic) && negb (is_someb (h_flusher h)) && negb spawned) eqn:Espawn; injection H as <- <-; cbn [wo_state].
  - apply andb_prop in Espawn as [[E1%bool_decide_eq_true E2%negb_true_iff]%andb_prop E3%negb_true_iff]. rewrite Hfl, Hi in E2. apply bool_decide_eq_false in E2.
    assert (prev <> sync) as Hne by (rewrite E1; exact E2). rewrite bool_decide_false by done.
    assert (reconfigured h (with_flags (sync_env_flags prev) <$> flagged h sync) prev (po_sync_interval (lc_policy (h_backend h))) (h_flusher h) = h) as ->.
    { unfold flagged. fold prev. rewrite bool_decide_false by done. rewrite flags_back by done. unfold reconfigured. unfold prev. rewrite policy_eta. by destruct h as [[] ?]. }
    split; [done|]. split; [done|]. right. done.
  - set (shards := if negb (bool_decide (sync = SyncPeriodic)) && is_someb (h_flusher h) && joined then clean <$> flagged h sync else flagged h sync).
    assert (sh_env <$> shards = sh_env <$> flagged h sync) as Henv by (unfold shards; case_match; [by rewrite <-list_fmap_compose|done]).
    split; [unfold envs; cbn; by rewrite Henv, flagged_envs|]. split_and!; [|done|done|].
    + split; cbn; [|done|done]. unfold shards. case_match; [apply clean_flags|]; by apply flagged_flags.
    + intros Hp Hs Hj. cbn. unfold shards. rewrite bool_decide_false by done. rewrite Hfl, Hi. fold prev. rewrite bool_decide_true by done. rewrite Hj. cbn.
      by apply Forall_fmap, Forall_true.
Qed.

Definition sample_handle (sync : LmdbSync) (interval : option Z) (flags : EnvFlags) : LmdbHandle :=
  MkHandle (MkLmdbBackend [MkLmdbShard empty_env 0 8192 true flags; MkLmdbShard empty_env 0 8192 false flags] 16384 0
    (MkPolicy FullRefuse 4 sync interval)) interval.

Lemma sync_config_outcome_witness :
  let out := apply_sync_config true true SyncFull None (MkWorld (sample_handle SyncPeriodic (Some 1000) (sync_env_flags SyncPeriodic)) [] [] 0 0) in
  out.1 = Ok tt /\ consistent (wo_state out.2) /\ Forall (fun s => sh_dirty s = false) (lc_shards (h_backend (wo_state out.2))).
Proof.
  intros out.
  destruct (sync_config_outcome true true SyncFull None (sample_handle SyncPeriodic (Some 1000) (sync_env_flags SyncPeriodic)) [] 0 0 (Ok tt) out.2) as (_ & H1 & _ & _ & H2).
  - split; [by repeat constructor|reflexivity|reflexivity].
  - vm_compute. reflexivity.
  - split; [vm_compute; reflexivity|]. split; [exact H1|]. apply H2; [reflexivity|discriminate|reflexivity].
Defined.

(** If setting the flags of a later environment fails, the earlier ones keep the new
    flags while the policy stays the old one. *)
Theorem failed_mode_change_is_mixed :
  let w := MkWorld (sample_handle SyncFull None (sync_env_flags SyncFull)) [] [None; None; None; Some OtherFault] 0 0 in
  let (r, w') := apply_sync_config true true SyncNone None w in
  r = Err (Fails (SetSyncFlags OtherFault)) /\ po_sync (lc_policy (h_backend (wo_state w'))) = SyncFull /\
  sh_flags <$> lc_shards (h_backend (wo_state w')) = [sync_env_flags SyncNone; sync_env_flags SyncFull].
Proof. vm_compute. done. Qed.

(** ** The dirty flag

    One shard, its writers and its flusher, as steps that interleave: a commit and the
    store to the flag after it are two steps, and so are the swap and the sync of
    [force_sync_iter]. [df_committed] counts the commits and [df_synced] how many of them are
    on disk; a successful sync covers every commit before it. *)
Record DirtyState := MkDirty { df_committed : nat; df_synced : nat; df_unmarked : nat; df_dirty : bool; df_syncing : bool }.

Inductive dirty_step : DirtyState -> DirtyState -> Prop :=
  | step_commit c s u d y : dirty_step (MkDirty c s u d y) (MkDirty (S c) s (S u) d y)
  | step_mark c s u d y : dirty_step (MkDirty c s (S u) d y) (MkDirty c s u true y)
  | step_swap c s u : dirty_step (MkDirty c s u true false) (MkDirty c s u false true)
  | step_skip c s u : dirty_step (MkDirty c s u false false) (MkDirty c s u false false)
  | step_synced c s u d : dirty_step (MkDirty c s u d true) (MkDirty c c u d false)
  | step_sync_failed c s u d : dirty_step (MkDirty c s u d true) (MkDirty c s u true false).

Definition dirty_start : DirtyState := MkDirty 0 0 0 false false.

Lemma dirty_inv st : rtc dirty_step dirty_start st -> (df_synced st <= df_committed st)%nat /\
  (df_synced st = df_committed st \/ df_dirty st = true \/ (0 < df_unmarked st)%nat \/ df_syncing st = true).
Proof.
  revert st. apply rtc_ind_r; [cbn; auto|]. intros st st' _ Hs. inversion Hs; subst; cbn; intros [H1 H2]; (split; [lia|]); destruct H2 as [?|[?|[?|?]]]; auto with lia.
Qed.



(** The executable sync of a shard is the swap followed by a sync. *)
Lemma force_sync_steps (w : World LmdbShard) c s u : let out := force_sync_shard w in
  let st d y s := MkDirty c s u d y in
  exists s', rtc dirty_step (st (sh_dirty (wo_state w)) false s) (st (sh_dirty (wo_state out.2)) false s') /\
    (out.1 = Ok true -> sh_dirty (wo_state w) = true -> s' = c) /\ (out.1 = Ok false -> sh_dirty (wo_state out.2) = true).
Proof.
  cbv zeta. unfold force_sync_shard, bind, get_state, put_state, catch, heed. cbn. destruct (sh_dirty (wo_state w)) eqn:Ed; cbn.
  - destruct (wo_faults w) as [|[f|] fs]; cbn.
    + exists c. split_and!; [|done|done]. eapply rtc_l; [apply step_swap|]. eapply rtc_l; [apply step_synced|]. apply rtc_refl.
    + exists s. split_and!; [|done|done]. eapply rtc_l; [apply step_swap|]. eapply rtc_l; [apply step_sync_failed|]. apply rtc_refl.
    + exists c. split_and!; [|done|done]. eapply rtc_l; [apply step_swap|]. eapply rtc_l; [apply step_synced|]. apply rtc_refl.
  - exists s. rewrite Ed. split_and!; [apply rtc_refl|done|done].
Qed.
