(* ===== verification/LmdbOpen.v ===== *)
(** * LmdbOpen: the layout of the durable cache on disk

    lmdb.rs: what is found under the operator's path ([detect_on_disk_layout]), how many
    shards a store has ([resolve_effective_shard_count], [explicit_requires_abandon]), and opening
    it ([open_at], [finish_open_env], [write_sidecar]). A directory is a map from names to files: an
    environment, a sidecar as its JSON was read, or another file. The sibling
    directories of a reopen in place are not modelled. *)

From stdpp Require Import base list gmap strings.
From Stdlib Require Import ZArith Lia String.
From S2P Require Import Prelude Text Effects CacheStore Compile Lmdb LmdbMap LmdbSync.

#[local] Open Scope string_scope.
#[local] Open Scope list_scope.
#[local] Open Scope Z_scope.

(** ** Files *)

Inductive File :=
  | EnvFile (e : Env)
  | SidecarJson (version shard_count : option Z)
  | NotJson
  | OtherFile.
Abbreviation Files := (gmap string File).
Inductive PathState := Absent | NotDirectory | Directory (files : Files).

Definition SIDECAR_FILE : string := "conduit-lmdb-shards.json".
Definition SHARD_LAYOUT_VERSION : Z := 1.
Definition FORMAT_VERSION : Z := 1.
Definition FORMAT_MAGIC : list Z := [67; 68; 67; 76].
Definition shard_file_name (i : nat) : string := ("shard-" ++ dec (Z.of_nat i))%string.

Inductive OnDiskLayout := LayoutEmpty | LayoutLegacy | LayoutSharded (n : Z).
#[global] Instance OnDiskLayout_eq : EqDecision OnDiskLayout. Proof. solve_decision. Defined.

(** A call that fails with the error [e]. *)
Definition call {T} (e : LmdbBackendError) : L T unit := fun w =>
  match heed w with (Ok _, w') => (Ok tt, w') | (Err _, w') => (Err (Fails e), w') end.

(** ** Detection *)

Definition exists_in (files : Files) (name : string) : bool := is_someb (files !! name).

(** The first name of [missing] says which shard file is not there. *)
Definition detect_on_disk_layout (files : Files) : L Files OnDiskLayout :=
  match files !! SIDECAR_FILE with
  | Some f =>
      let* _u := call (Layout "failed to read shard sidecar") in
      match f with
      | SidecarJson version shard_count =>
          match version with
          | None => throw (Fails (Layout "shard sidecar missing version"))
          | Some v =>
              if negb (v =? SHARD_LAYOUT_VERSION) then throw (Fails (Layout "unsupported shard layout version"))
              else
                match shard_count with
                | None => throw (Fails (Layout "shard sidecar missing shard_count"))
                | Some n =>
                    if (n =? 0) || (MAX_LMDB_SHARD_COUNT <? n) then throw (Fails (Layout "shard sidecar shard_count out of range"))
                    else if forallb (fun i => exists_in files (shard_file_name i)) (seq 0 (Z.to_nat n)) then ret (LayoutSharded n)
                    else throw (Fails (Layout "shard sidecar claims N but missing file"))
                end
          end
      | _ => throw (Fails (Layout "invalid shard sidecar JSON"))
      end
  | None =>
      if exists_in files "data.mdb" || exists_in files "lock.mdb" then ret LayoutLegacy
      else
        (* a directory that cannot be listed counts as empty *)
        let* listed := catch heed in
        match listed with
        | Ok _ => if existsb (fun name => starts_with name "shard-") (map_to_list files).*1
                  then throw (Fails (Layout "found shard file without sidecar; repair or recreate the cache path")) else ret LayoutEmpty
        | Err _ => ret LayoutEmpty
        end
  end.

Definition clamp (lo hi n : Z) : Z := Z.max lo (Z.min hi n).

Definition resolve_effective_shard_count (explicit : option Z) (on_disk : OnDiskLayout) (lookup_thread_count : Z) : Z :=
  match explicit with
  | Some n => clamp 1 MAX_LMDB_SHARD_COUNT n
  | None =>
      match on_disk with
      | LayoutSharded n => clamp 1 MAX_LMDB_SHARD_COUNT n
      | LayoutLegacy => 1
      | LayoutEmpty => clamp 1 MAX_LMDB_SHARD_COUNT (Z.min (Z.max lookup_thread_count 1 * 2) u32_max)
      end
  end.

Definition on_disk_shard_count (on_disk : OnDiskLayout) : option Z :=
  match on_disk with LayoutEmpty => None | LayoutLegacy => Some 1 | LayoutSharded n => Some n end.

Definition explicit_requires_abandon (explicit : option Z) (on_disk : OnDiskLayout) : bool :=
  match explicit, on_disk_shard_count on_disk with
  | Some n, Some disk => negb (disk =? clamp 1 MAX_LMDB_SHARD_COUNT n)
  | _, _ => false
  end.

(** ** Changing the directory *)

Definition owned (name : string) : bool :=
  String.eqb name "data.mdb" || String.eqb name "lock.mdb" || starts_with name "shard-" || starts_with name SIDECAR_FILE.

Definition put_file (name : string) (f : File) : L Files unit := let* files := get_state in put_state (<[name := f]> files).
Definition remove_file (message : string) (name : string) : L Files unit :=
  let* _u := call (Layout message) in let* files := get_state in put_state (delete name files).

Fixpoint remove_owned (names : list string) : L Files unit :=
  match names with
  | [] => ret tt
  | name :: names => let* _u := if owned name then remove_file "failed to remove layout file" name else ret tt in remove_owned names
  end.
Definition remove_owned_layout_files : L Files unit :=
  let* files := get_state in
  let* _u := if exists_in files SIDECAR_FILE then remove_file "failed to remove shard sidecar during abandon" SIDECAR_FILE else ret tt in
  let* listed := catch heed in
  match listed with
  | Ok _ => let* files := get_state in remove_owned (map_to_list files).*1
  | Err _ => ret tt
  end.

(** The temporary file stays behind if the rename fails. *)
Definition write_sidecar (n : Z) : L Files unit :=
  let* _u := call (Layout "failed to write shard sidecar temp") in
  let* _u := put_file (SIDECAR_FILE ++ ".tmp") (SidecarJson (Some SHARD_LAYOUT_VERSION) (Some n)) in
  let* _u := call (Layout "failed to install shard sidecar") in
  let* files := get_state in
  put_state (<[SIDECAR_FILE := SidecarJson (Some SHARD_LAYOUT_VERSION) (Some n)]> (delete (SIDECAR_FILE ++ ".tmp")%string files)).

(** ** Opening an environment *)

Definition new_env : Env := MkEnv ∅ None None.
Definition format_header : list Z := FORMAT_MAGIC ++ to_le 4 FORMAT_VERSION.

Definition verify_format (raw : list Z) : result unit LmdbBackendError :=
  if (zlen raw <? 8) || negb (bool_decide (take 4 raw = FORMAT_MAGIC)) then Err FormatMagic
  else let found := of_le (slice raw 4 8) in
       if found =? FORMAT_VERSION then Ok tt else Err (FormatMismatch found).

(** The write transaction of [finish_open_env]. *)
Definition finish_open_env (env : Env) : L Files Env :=
  let* _u := heed in let* _u := heed in let* _u := heed in
  let* _u := heed_get in
  let* env := match e_format env with
              | Some raw => match verify_format raw with Ok _ => ret env | Err e => throw (Fails e) end
              | None =>
                  let* _u := heed in
                  let* r := catch heed_get in
                  let count := match r with Ok _ => e_count env | Err _ => None end in
                  let* count := if is_someb count then ret count else let* _u := heed in ret (Some (to_le 8 0)) in
                  ret (MkEnv (e_entries env) count (Some format_header))
              end in
  let* r := catch heed_get in
  let raw := match r with Ok _ => e_count env | Err _ => None end in
  let* count := if match raw with Some raw => zlen raw =? 8 | None => false end then ret (e_count env)
                else
                  let* _u := heed in
                  let* _u := heed in
                  ret (Some (to_le 8 (zsize (e_entries env)))) in
  let* _u := heed in
  ret (MkEnv (e_entries env) count (e_format env)).

(** Opening creates the files of a new environment; the result of the transaction replaces them. *)
Definition open_env (data lock : string) (map_size max_entries : Z) (sync : LmdbSync) : L Files LmdbShard :=
  let* _u := call (OpenEnv OtherFault) in
  let* files := get_state in
  match files !! data with
  | Some (EnvFile env) =>
      let* _u := put_state (<[lock := OtherFile]> files) in
      let* env := finish_open_env env in
      let* _u := put_file data (EnvFile env) in ret (MkLmdbShard env max_entries map_size false (sync_env_flags sync))
  | None =>
      let* _u := put_state (<[lock := OtherFile]> (<[data := EnvFile new_env]> files)) in
      let* env := finish_open_env new_env in
      let* _u := put_file data (EnvFile env) in ret (MkLmdbShard env max_entries map_size false (sync_env_flags sync))
  | Some _ => throw (Fails (OpenEnv OtherFault))
  end.

Fixpoint open_shards (i : nat) (sizes caps : list Z) (sync : LmdbSync) : L Files (list LmdbShard) :=
  match sizes, caps with
  | size :: sizes, cap :: caps =>
      let* s := open_env (shard_file_name i) (shard_file_name i ++ "-lock") size cap sync in
      let* rest := open_shards (S i) sizes caps sync in ret (s :: rest)
  | _, _ => ret []
  end.

Inductive LayoutKind := KindLegacy | KindSharded.

(** The shards of the layout that was found or chosen. *)
Definition open_layout (on_disk : OnDiskLayout) (effective_n max_entries : Z) (lmdb : CompiledLmdbCache) : L Files (LayoutKind * list LmdbShard) :=
  let n := Z.to_nat effective_n in
  let sizes := per_shard_map_sizes (lb_map_size_bytes lmdb) n in
  let caps := per_shard_max_entries max_entries n in
  if bool_decide (on_disk = LayoutLegacy) && (effective_n =? 1)
  then let* s := open_env "data.mdb" "lock.mdb" (nth 0 sizes 0) (nth 0 caps 0) (lb_sync lmdb) in ret (KindLegacy, [s])
  else let* shards := open_shards 0 sizes caps (lb_sync lmdb) in
       let* _u := write_sidecar effective_n in ret (KindSharded, shards).

(** [open_at] in a directory that exists. *)
Definition open_files (spawned : bool) (max_entries : Z) (lmdb : CompiledLmdbCache) : L Files (LayoutKind * LmdbHandle) :=
  let* files := get_state in
  let* on_disk := detect_on_disk_layout files in
  let* on_disk := if explicit_requires_abandon (lb_shard_count lmdb) on_disk
                  then let* _u := remove_owned_layout_files in ret LayoutEmpty else ret on_disk in
  let effective_n := resolve_effective_shard_count (lb_shard_count lmdb) on_disk (lb_lookup_thread_count lmdb) in
  let* opened := open_layout on_disk effective_n max_entries lmdb in
  let backend := MkLmdbBackend opened.2 (sum_of (sh_map_size_bytes <$> opened.2)) max_entries
    (MkPolicy (lb_when_full lmdb) (lb_sample_size lmdb) (lb_sync lmdb) (lb_sync_interval lmdb)) in
  match lb_sync lmdb, lb_sync_interval lmdb with
  | SyncPeriodic, Some iv => if spawned then ret (opened.1, MkHandle backend (Some iv)) else throw (Fails SpawnFlusher)
  | _, _ => ret (opened.1, MkHandle backend None)
  end.

Definition in_dir {A} (files : Files) (op : L Files A) : L PathState A := fun w =>
  let (r, w') := op (MkWorld files (wo_gets w) (wo_faults w) (wo_reads w) (wo_evictions w)) in
  (r, MkWorld (Directory (wo_state w')) (wo_gets w') (wo_faults w') (wo_reads w') (wo_evictions w')).

Definition open_at (spawned : bool) (max_entries : Z) (lmdb : CompiledLmdbCache) : L PathState (LayoutKind * LmdbHandle) :=
  let* path := get_state in
  match path with
  | Absent => let* _u := call CreateDir in in_dir ∅ (open_files spawned max_entries lmdb)
  | NotDirectory => throw (Fails CreateDir)
  | Directory files => in_dir files (open_files spawned max_entries lmdb)
  end.

(** ** Names *)

Abbreviation lock_name i := (shard_file_name i ++ "-lock")%string.

Lemma name_inj i j : Z.of_nat i < 2 ^ 64 -> Z.of_nat j < 2 ^ 64 -> shard_file_name i = shard_file_name j -> i = j.
Proof.
  intros Hi Hj H. apply (str_app_inj_l "shard-"), dec_inj in H; [lia|unfold fits; lia|unfold fits; lia].
Qed.

Lemma str_assoc (a b c : string) : ((a ++ b) ++ c = a ++ (b ++ c))%string.
Proof. induction a as [|x a IH]; [done|]. exact (f_equal (String x) IH). Qed.

Lemma lock_not_name i j : lock_name i <> shard_file_name j.
Proof.
  unfold shard_file_name. intros H. rewrite str_assoc in H. apply (str_app_inj_l "shard-") in H.
  pose proof (dec_digits (Z.of_nat j) ltac:(lia)) as Hd. rewrite <-H, str_forall_app in Hd. by apply andb_prop in Hd as [_ Hd].
Qed.

Lemma name_not_sidecar i : shard_file_name i <> SIDECAR_FILE /\ lock_name i <> SIDECAR_FILE /\ SIDECAR_FILE <> (SIDECAR_FILE ++ ".tmp")%string.
Proof. unfold shard_file_name. split_and!; discriminate. Qed.

(** ** What opening leaves *)

Definition formatted (e : Env) : Prop := exists raw, e_format e = Some raw /\ verify_format raw = Ok tt.

(** The files of a store with these shards. *)
Definition stored_as (kind : LayoutKind) (shards : list LmdbShard) (files : Files) : Prop :=
  match kind with
  | KindSharded => 1 <= zlen shards <= MAX_LMDB_SHARD_COUNT /\ files !! SIDECAR_FILE = Some (SidecarJson (Some SHARD_LAYOUT_VERSION) (Some (zlen shards))) /\
      forall i s, shards !! i = Some s -> files !! shard_file_name i = Some (EnvFile (sh_env s))
  | KindLegacy => files !! SIDECAR_FILE = None /\ exists s, shards = [s] /\ files !! "data.mdb" = Some (EnvFile (sh_env s))
  end.

Lemma finish_post env w : post w (finish_open_env env) (fun r w' => wo_state w' = wo_state w /\
  forall env', r = Ok env' -> e_entries env' = e_entries env /\ formatted env').
Proof.
  assert (forall (r : result Env Stop) w', (same w w' -> (forall env', r = Ok env' -> e_entries env' = e_entries env /\ formatted env') ->
    wo_state w' = wo_state w /\ forall env', r = Ok env' -> e_entries env' = e_entries env /\ formatted env')) as Hq by (intros r w' [S _ _ _ _] H; done).
  unfold finish_open_env.
  do 4 (apply post_quiet; [eauto with lmdb| |intros; apply Hq; [eauto 10 with lmdb|done]]; intros [] ? ? _).
  set (step := match e_format env with Some _ => _ | None => _ end).
  assert (quiet step) as Hqs.
  { unfold step. destruct (e_format env) as [raw|]; [destruct (verify_format raw); eauto with lmdb|].
    apply quiet_bind; [eauto with lmdb|intros _]. apply quiet_bind; [eauto with lmdb|intros rr].
    apply quiet_bind; [destruct (is_someb _); eauto with lmdb|intros c; eauto with lmdb]. }
  apply post_quiet; [done| |intros; apply Hq; [eauto 10 with lmdb|done]]. intros env1 w1 Hs1 He1.
  assert (e_entries env1 = e_entries env /\ formatted env1) as [Hent Hfmt].
  { destruct (step _) as [r1 w1'] eqn:E. cbn in He1. subst r1. unfold step in E. destruct (e_format env) as [raw|] eqn:Ef.
    - destruct (verify_format raw) as [[]|] eqn:Ev; [|done]. unfold ret in E. injection E as <- _. split; [done|]. by exists raw.
    - apply bind_inv in E as (? & ? & _ & E). apply bind_inv in E as (? & ? & _ & E). apply bind_inv in E as (c & ? & _ & E). unfold ret in E. injection E as <- _.
      split; [done|]. eexists. split; [done|]. done. }
  apply post_quiet; [eauto with lmdb| |intros; apply Hq; [eauto 10 with lmdb|done]]. intros rr w2 Hs2 _.
  apply post_quiet; [case_match; eauto with lmdb| |intros; apply Hq; [eauto 12 with lmdb|done]]. intros c w3 Hs3 _.
  apply post_quiet; [eauto with lmdb| |intros; apply Hq; [eauto 12 with lmdb|done]]. intros [] w4 Hs4 _.
  apply post_ret. apply Hq; [eauto 14 with lmdb|]. intros env' [= <-]. split; [done|]. destruct Hfmt as (raw & ? & ?). by exists raw.
Qed.

Lemma call_quiet {T} e : quiet (@call T e).
Proof. intros w. unfold call. pose proof (quiet_heed w) as H. destruct (heed w) as [[[]|?] w']; done. Qed.
#[export] Hint Resolve call_quiet : lmdb.

Lemma post_put_file name f (w : World Files) Q :
  Q (Ok tt) (MkWorld (<[name := f]> (wo_state w)) (wo_gets w) (wo_faults w) (wo_reads w) (wo_evictions w)) -> post w (put_file name f) Q.
Proof. done. Qed.

(** Opening an environment: the file has it, other files are kept. *)
Lemma open_env_post data lock size cap sync w : data <> lock -> post w (open_env data lock size cap sync) (fun r w' =>
  (forall name, name <> data -> name <> lock -> wo_state w' !! name = wo_state w !! name) /\
  forall s, r = Ok s -> wo_state w' !! data = Some (EnvFile (sh_env s)) /\ formatted (sh_env s)).
Proof.
  intros Hne. unfold open_env.
  apply post_quiet; [eauto with lmdb| |intros e w' [-> _ _ _ _]; done]. intros [] w1 [S1 _ _ _ _] _.
  apply post_bind. unfold post at 1. cbn [get_state fst snd]. rewrite S1.
  assert (forall env, post (MkWorld (<[lock:=OtherFile]> (if decide (wo_state w !! data = None) then <[data:=EnvFile new_env]> (wo_state w) else wo_state w)) (wo_gets w1) (wo_faults w1) (wo_reads w1) (wo_evictions w1))
    (let* env := finish_open_env env in let* _u := put_file data (EnvFile env) in ret (MkLmdbShard env cap size false (sync_env_flags sync)))
    (fun r w' => (forall name, name <> data -> name <> lock -> wo_state w' !! name = wo_state w !! name) /\
      forall s, r = Ok s -> wo_state w' !! data = Some (EnvFile (sh_env s)) /\ formatted (sh_env s))) as Hfin.
  { intros env. set (w2 := MkWorld _ _ _ _ _). assert (forall name, name <> data -> name <> lock -> wo_state w2 !! name = wo_state w !! name) as Hold.
    { intros name H1 H2. cbn. rewrite lookup_insert_ne by done. case_decide; [by rewrite lookup_insert_ne|done]. }
    apply post_bind. eapply post_mono; [apply finish_post|]. intros [env'|e] w3 [S3 H3]; [|split; [intros; rewrite S3; by apply Hold|done]].
    destruct (H3 _ eq_refl) as [_ Hfmt]. apply post_bind, post_put_file, post_ret. cbn [wo_state]. split.
    - intros name H1 H2. rewrite lookup_insert_ne by done. rewrite S3. by apply Hold.
    - intros s [= <-]. cbn. by rewrite lookup_insert_eq. }
  destruct (wo_state w !! data) as [[env|? ?| |]|] eqn:E; try (unfold post; cbn [throw fst snd]; split; [intros; by rewrite S1|done]).
  - apply post_bind. unfold post at 1. cbn [put_state fst snd]. specialize (Hfin env). by rewrite decide_False in Hfin by congruence.
  - apply post_bind. unfold post at 1. cbn [put_state fst snd]. specialize (Hfin new_env). by rewrite decide_True in Hfin.
Qed.

Lemma open_shards_post sizes caps sync i w : length sizes = length caps -> Z.of_nat (i + length sizes) <= MAX_LMDB_SHARD_COUNT ->
  post w (open_shards i sizes caps sync) (fun r w' =>
    (forall name, (forall j, (i <= j < i + length sizes)%nat -> name <> shard_file_name j /\ name <> lock_name j) -> wo_state w' !! name = wo_state w !! name) /\
    forall shards, r = Ok shards -> length shards = length sizes /\
      forall k s, shards !! k = Some s -> wo_state w' !! shard_file_name (i + k) = Some (EnvFile (sh_env s)) /\ formatted (sh_env s)).
Proof.
  revert caps i w. induction sizes as [|size sizes IH]; intros [|cap caps] i w Hlen Hmax; simplify_eq/=.
  { apply post_ret. split; [done|]. intros shards [= <-]. split; [done|]. by intros k s. }
  unfold MAX_LMDB_SHARD_COUNT in *. apply post_bind. eapply post_mono; [apply open_env_post; pose proof (lock_not_name i i); congruence|].
  intros [s|e] w1 [Hold Hs]; cycle 1.
  { split; [|done]. intros name Hn. destruct (Hn i) as [? ?]; [lia|]. by apply Hold. }
  destruct (Hs s eq_refl) as [Hf Hfmt]. apply post_bind. eapply post_mono; [apply (IH caps (S i)); [done|lia]|]. intros r w2 [Hold2 Hr].
  assert (forall name, (forall j, (i <= j < i + S (length sizes))%nat -> name <> shard_file_name j /\ name <> lock_name j) -> wo_state w2 !! name = wo_state w !! name) as Hkeep.
  { intros name Hn. rewrite Hold2 by (intros j Hj; apply Hn; lia). apply Hold; apply Hn; lia. }
  destruct r as [shards|e]; [|by split]. destruct (Hr shards eq_refl) as [Hl Hk]. apply post_ret. split; [done|]. intros l [= <-]. cbn. split; [lia|].
  intros [|k] t Ht; cbn in Ht.
  - injection Ht as <-. rewrite Nat.add_0_r. split; [|done]. rewrite Hold2; [done|]. intros j Hj. split; [|intros E; by apply (lock_not_name j i)].
    intros E. apply name_inj in E; lia.
  - rewrite Nat.add_succ_r. by apply Hk.
Qed.

Lemma write_sidecar_post n w : post w (write_sidecar n) (fun r w' =>
  (r = Ok tt -> wo_state w' !! SIDECAR_FILE = Some (SidecarJson (Some SHARD_LAYOUT_VERSION) (Some n))) /\
  forall name, name <> SIDECAR_FILE -> name <> (SIDECAR_FILE ++ ".tmp")%string -> wo_state w' !! name = wo_state w !! name).
Proof.
  unfold write_sidecar. apply post_quiet; [eauto with lmdb| |intros e w' [-> _ _ _ _]; done]. intros [] w1 [S1 _ _ _ _] _.
  apply post_bind, post_put_file. rewrite S1. set (w2 := MkWorld _ _ _ _ _).
  apply post_quiet; [eauto with lmdb| |intros e w' [-> _ _ _ _]; split; [done|]; intros name H1 H2; cbn; by rewrite lookup_insert_ne].
  intros [] w3 [S3 _ _ _ _] _. apply post_bind. unfold post at 1. cbn [get_state fst snd]. unfold post. cbn [put_state fst snd wo_state]. rewrite S3. cbn. split.
  - intros _. by rewrite lookup_insert_eq.
  - intros name H1 H2. by rewrite lookup_insert_ne, lookup_delete_ne, lookup_insert_ne.
Qed.

Lemma detect_quiet files : quiet (detect_on_disk_layout files).
Proof.
  unfold detect_on_disk_layout. destruct (files !! SIDECAR_FILE) as [f|].
  - apply quiet_bind; [eauto with lmdb|intros _]. repeat case_match; eauto with lmdb.
  - case_match; [eauto with lmdb|]. apply quiet_bind; [eauto with lmdb|intros rr]. repeat case_match; eauto with lmdb.
Qed.

Lemma detect_legacy files w : (detect_on_disk_layout files w).1 = Ok LayoutLegacy -> files !! SIDECAR_FILE = None.
Proof.
  unfold detect_on_disk_layout. destruct (files !! SIDECAR_FILE) as [f|]; [|done]. unfold bind. destruct (call _ w) as [[[]|] w']; [|done].
  repeat case_match; done.
Qed.

Lemma effective_range explicit on_disk threads : 1 <= resolve_effective_shard_count explicit on_disk threads <= MAX_LMDB_SHARD_COUNT.
Proof. unfold resolve_effective_shard_count, clamp, MAX_LMDB_SHARD_COUNT. repeat case_match; lia. Qed.

(** A store that was opened is on disk in the layout it reports, with a good format. *)
Lemma open_files_post spawned max_entries cfg w : post w (open_files spawned max_entries cfg) (fun r w' =>
  forall kind h, r = Ok (kind, h) -> stored_as kind (lc_shards (h_backend h)) (wo_state w') /\ Forall (fun s => formatted (sh_env s)) (lc_shards (h_backend h))).
Proof.
  unfold open_files. apply post_bind. unfold post at 1. cbn [get_state fst snd].
  apply post_quiet; [apply detect_quiet| |intros; done]. intros on_disk w1 [S1 _ _ _ _] Hd. apply post_bind.
  set (abandon := if explicit_requires_abandon _ _ then _ else _).
  assert (post w1 abandon (fun r w' => forall d, r = Ok d -> d = LayoutLegacy -> wo_state w' !! SIDECAR_FILE = None)) as Ha.
  { unfold abandon. destruct (explicit_requires_abandon _ _).
    - apply post_bind. unfold post at 1. destruct (remove_owned_layout_files w1) as [[[]|e] w2]; cbn; [|done]. apply post_ret. by intros d [= <-].
    - apply post_ret. intros d [= <-] ->. rewrite S1. by eapply detect_legacy. }
  eapply post_mono; [exact Ha|]. intros [d|e] w2 Hd2; [|done]. specialize (Hd2 d eq_refl).
  pose proof (effective_range (lb_shard_count cfg) d (lb_lookup_thread_count cfg)) as Hn. set (n := resolve_effective_shard_count _ _ _) in *. apply post_bind.
  set (opening := open_layout _ _ _ _).
  assert (post w2 opening (fun r w' => forall o, r = Ok o -> stored_as o.1 o.2 (wo_state w') /\ Forall (fun s => formatted (sh_env s)) o.2)) as Ho; [|clearbody opening].
  { unfold opening, open_layout. destruct (bool_decide (d = LayoutLegacy) && (n =? 1)) eqn:El.
    - apply andb_prop in El as [->%bool_decide_eq_true _]. apply post_bind. eapply post_mono; [by apply open_env_post|]. intros [s|e] w3 [Hold Hs]; [|done].
      destruct (Hs s eq_refl) as [Hf Hfmt]. apply post_ret. intros o [= <-]. cbn. split; [|by repeat constructor]. split; [|by exists s]. rewrite Hold by done. by apply Hd2.
    - apply post_bind. eapply post_mono; [apply open_shards_post; rewrite length_map_sizes; [by rewrite length_caps|lia]|]. intros [shards|e] w3 [Hold Hs]; [|done].
      destruct (Hs shards eq_refl) as [Hl Hk]. rewrite length_map_sizes in Hl. apply post_bind. eapply post_mono; [apply write_sidecar_post|]. intros [[]|e] w4 [H4 Hold4]; [|done].
      apply post_ret. intros o [= <-]. cbn. assert (zlen shards = n) as Hz by (unfold zlen; lia). split.
      + split_and!; [lia|lia|rewrite Hz; by apply H4|]. intros i s Hi. destruct (Hk i s Hi) as [Hf _]. cbn in Hf. rewrite Hold4; [done| |]; unfold shard_file_name; discriminate.
      + apply Forall_lookup. intros i s Hi. by destruct (Hk i s Hi). }
  eapply post_mono; [exact Ho|]. intros [[kind shards]|e] w3 Hs; [|done]. specialize (Hs _ eq_refl). cbn in *.
  destruct (lb_sync cfg), (lb_sync_interval cfg), spawned; try (apply post_ret; intros ? ? [= <- <-]; exact Hs); intros ? ? [=].
Qed.

(** ** Opening again *)

Definition recounted (env : Env) : Env :=
  MkEnv (e_entries env) (if match e_count env with Some raw => zlen raw =? 8 | None => false end then e_count env else Some (to_le 8 (zsize (e_entries env))))
    (e_format env).

Section Reopen.
Context (r : nat) (e : Z).
Abbreviation calm x := (MkWorld x [] [] r e).

Lemma finish_exact env files : formatted env -> finish_open_env env (calm files) = (Ok (recounted env), calm files).
Proof.
  intros (raw & Hf & Hv). unfold finish_open_env, bind, heed, heed_get. cbn [wo_faults wo_gets]. rewrite Hf, Hv. unfold ret at 1, catch. cbn [wo_gets fst snd].
  unfold recounted. rewrite Hf. by destruct (match e_count env with Some _ => _ | None => _ end).
Qed.

Lemma open_env_exact data lock size cap sync env files : files !! data = Some (EnvFile env) -> formatted env ->
  open_env data lock size cap sync (calm files) =
  (Ok (MkLmdbShard (recounted env) cap size false (sync_env_flags sync)), calm (<[data := EnvFile (recounted env)]> (<[lock := OtherFile]> files))).
Proof.
  intros Hd Hf. unfold open_env, call, bind at 1, heed. cbn [wo_faults]. unfold bind at 1. cbn [get_state wo_state]. rewrite Hd.
  unfold bind at 1. cbn [put_state wo_gets wo_faults wo_reads wo_evictions]. by rewrite (bind_ok _ _ _ _ _ (finish_exact env _ Hf)).
Qed.

Lemma open_shards_exact shards sync : forall i sizes caps files, length sizes = length shards -> length caps = length shards ->
  Z.of_nat (i + length shards) <= MAX_LMDB_SHARD_COUNT -> Forall (fun s => formatted (sh_env s)) shards ->
  (forall k s, shards !! k = Some s -> files !! shard_file_name (i + k) = Some (EnvFile (sh_env s))) ->
  exists opened files', open_shards i sizes caps sync (calm files) = (Ok opened, calm files') /\ sh_env <$> opened = recounted ∘ sh_env <$> shards.
Proof.
  induction shards as [|s shards IH]; intros i [|size sizes] [|cap caps] files H1 H2 Hmax Hfmt Hfile; simplify_eq/=; [by eexists _, _|].
  apply Forall_cons in Hfmt as [Hf Hfmt]. pose proof (Hfile 0%nat s eq_refl) as H0. rewrite Nat.add_0_r in H0. unfold MAX_LMDB_SHARD_COUNT in *.
  rewrite (bind_ok _ _ _ _ _ (open_env_exact _ _ size cap sync _ _ H0 Hf)).
  destruct (IH (S i) sizes caps (<[shard_file_name i := EnvFile (recounted (sh_env s))]> (<[lock_name i := OtherFile]> files)) H1 H2 ltac:(lia) Hfmt) as (opened & files' & Ho & He).
  { intros k t Hk. rewrite !lookup_insert_ne.
    - rewrite Nat.add_succ_l, <-Nat.add_succ_r. by apply (Hfile (S k)).
    - apply lock_not_name.
    - intros E. apply name_inj in E; [lia|lia|]. apply lookup_lt_Some in Hk. lia. }
  rewrite (bind_ok _ _ _ _ _ Ho). eexists _, _. split; [done|]. cbn. by rewrite He.
Qed.

Lemma detect_exact kind shards files : stored_as kind shards files ->
  detect_on_disk_layout files (calm files) = (Ok (match kind with KindLegacy => LayoutLegacy | KindSharded => LayoutSharded (zlen shards) end), calm files).
Proof.
  unfold detect_on_disk_layout. destruct kind; cbn.
  - intros (-> & s & _ & Hd). unfold exists_in at 1. by rewrite Hd.
  - intros (Hn & -> & Hf). unfold bind, call, heed. cbn [wo_faults]. rewrite Z.eqb_refl. cbn [negb].
    destruct (Z.eqb_spec (zlen shards) 0); [lia|]. destruct (Z.ltb_spec MAX_LMDB_SHARD_COUNT (zlen shards)); [lia|]. cbn [orb].
    assert (forallb (fun i => exists_in files (shard_file_name i)) (seq 0 (Z.to_nat (zlen shards))) = true) as ->; [|done].
    apply forallb_forall. intros i Hi. apply in_seq in Hi. destruct (lookup_lt_is_Some_2 shards i) as [s Hs]; [unfold zlen in Hi; lia|].
    unfold exists_in. by rewrite (Hf _ _ Hs).
Qed.

Lemma layout_exact max_entries cfg kind shards files : let on_disk := match kind with KindLegacy => LayoutLegacy | KindSharded => LayoutSharded (zlen shards) end in
  stored_as kind shards files -> Forall (fun s => formatted (sh_env s)) shards ->
  exists opened files', open_layout on_disk (zlen shards) max_entries cfg (calm files) = (Ok (kind, opened), calm files') /\
    sh_env <$> opened = recounted ∘ sh_env <$> shards.
Proof.
  intros on_disk Hst Hfmt. unfold open_layout. set (n := Z.to_nat (zlen shards)). assert (n = length shards) as En by (unfold n, zlen; lia).
  destruct kind; cbn [stored_as] in Hst; unfold on_disk.
  - destruct Hst as (_ & s & Hs & Hd). apply Forall_lookup with (i := 0%nat) (x := s) in Hfmt; [|by rewrite Hs]. subst shards.
    rewrite bool_decide_true by done. change (zlen [s] =? 1) with true. cbn [andb]. rewrite (bind_ok _ _ _ _ _ (open_env_exact _ _ _ _ _ _ _ Hd Hfmt)). by eexists _, _.
  - rewrite bool_decide_false by done. cbn [andb]. destruct Hst as (Hn & Hside & Hf).
    destruct (open_shards_exact shards (lb_sync cfg) 0 (per_shard_map_sizes (lb_map_size_bytes cfg) n) (per_shard_max_entries max_entries n) files) as (opened & files' & Ho & He);
      [by rewrite length_map_sizes|by rewrite length_caps|unfold MAX_LMDB_SHARD_COUNT, zlen in *; lia|done|done|]. rewrite (bind_ok _ _ _ _ _ Ho). by eexists _, _.
Qed.

(** A store whose number of shards is asked for, or not asked for, opens as it was. *)
Lemma reopen_exact spawned max_entries cfg kind shards files : stored_as kind shards files -> Forall (fun s => formatted (sh_env s)) shards ->
  (forall m, lb_shard_count cfg = Some m -> clamp 1 MAX_LMDB_SHARD_COUNT m = zlen shards) -> (lb_sync cfg = SyncPeriodic -> spawned = true) ->
  exists h files', open_files spawned max_entries cfg (calm files) = (Ok (kind, h), calm files') /\
    sh_env <$> lc_shards (h_backend h) = recounted ∘ sh_env <$> shards.
Proof.
  intros Hst Hfmt Hcount Hspawn. unfold open_files. unfold bind at 1. cbn [get_state wo_state]. rewrite (bind_ok _ _ _ _ _ (detect_exact _ _ _ Hst)).
  destruct (layout_exact max_entries cfg kind shards files Hst Hfmt) as (opened & files' & Hopen & He).
  set (on_disk := match kind with KindLegacy => _ | KindSharded => _ end) in *.
  assert (on_disk_shard_count on_disk = Some (zlen shards) /\ 1 <= zlen shards <= MAX_LMDB_SHARD_COUNT) as [Hdisk Hn].
  { unfold on_disk. destruct kind; cbn in *; [destruct Hst as (_ & s & -> & _); done|]. by destruct Hst as (Hn & _ & _). }
  assert (explicit_requires_abandon (lb_shard_count cfg) on_disk = false) as ->.
  { unfold explicit_requires_abandon. destruct (lb_shard_count cfg) as [m|]; [|done]. rewrite Hdisk, (Hcount m eq_refl). by rewrite Z.eqb_refl. }
  unfold bind at 1. unfold ret at 1. cbv zeta.
  assert (resolve_effective_shard_count (lb_shard_count cfg) on_disk (lb_lookup_thread_count cfg) = zlen shards) as ->.
  { unfold resolve_effective_shard_count. destruct (lb_shard_count cfg) as [m|]; [by apply Hcount|]. unfold on_disk in *. destruct kind; cbn in *; [congruence|]. unfold clamp. lia. }
  rewrite (bind_ok _ _ _ _ _ Hopen). cbn [fst snd].
  destruct (lb_sync cfg) eqn:Es, (lb_sync_interval cfg); try (eexists _, _; split; [done|]; done). rewrite Hspawn by done. eexists _, _. split; [done|]. done.
Qed.
End Reopen.

(** ** Runs keep the format *)

Section Formats.
Context (clock : nat -> Z) (iter : gmap CacheKey (list Z) -> list (CacheKey * list Z)) (hash : CacheKey -> Z).
Context (iter_perm : forall m, iter m ≡ₚ map_to_list m).

Definition formats (b : LmdbCacheBackend) : list (option (list Z)) := e_format ∘ sh_env <$> lc_shards b.

Lemma updated_formats b i s s' : lc_shards b !! i = Some s -> settings s' = settings s -> formats (updated b i s') = formats b.
Proof.
  intros Hs He. injection He as _ _ _ He. unfold formats, updated. cbn. rewrite list_fmap_insert. apply list_insert_id.
  rewrite list_lookup_fmap, Hs. cbn. by rewrite He.
Qed.

Lemma step_formats op w : sane_backend hash (wo_state w) -> formats (wo_state (lmdb_step clock iter hash op w).2) = formats (wo_state w).
Proof.
  intros Hb. change (post w (lmdb_step clock iter hash op) (fun _ w' => formats (wo_state w') = formats (wo_state w))).
  destruct op as [key now|key en now|key| |mx|wf n]; cbn [lmdb_step].
  - apply post_bind, (for_key_post hash); [done|]. intros s Hs. eapply post_mono; [apply shard_get_post|]. intros r ws H.
    destruct H as [? ? ? _ _ _ _ Hsh|? ? _ _ _ _ Hsh|_ Hsh|? ? _ _ _ Hsh]; try apply post_ret; eapply updated_formats; try done; by apply (shed_settings _ _ _ Hsh).
  - apply post_bind, (for_key_post hash); [done|]. intros s Hs. unfold post at 1, shard_insert. cbn [wo_state wo_gets wo_faults wo_reads].
    set (w0 := MkWorld s _ _ _ 0). pose proof (insert_inner_post clock iter iter_perm (lc_policy (wo_state w)) key en now w0 true) as Hp. unfold post in Hp.
    destruct (insert_inner _ _ _ _ _ _ _ w0) as [r ws]. cbn [fst snd] in *. apply post_ret. destruct Hp as (m & n & i & _ & _ & _ & _ & _ & _ & P6 & _).
    by eapply updated_formats.
  - apply post_bind, (for_key_post hash); [done|]. intros s Hs. eapply post_mono; [apply remove_post|].
    intros r ws [(-> & _ & _ & Hsh)|(-> & _ & Hsh)]; apply post_ret; eapply updated_formats; try done; by apply (shed_settings _ _ _ Hsh).
  - apply post_bind, post_catch. unfold clear_all_entries. apply post_bind. unfold post at 1. cbn [get_state fst snd].
    eapply post_mono; [by apply (clear_shards_post iter iter_perm), Forall_forall; intros i Hi; apply elem_of_seq in Hi; lia|].
    intros r w' [[L G F S] _]. apply post_ret. apply list_eq. intros i. unfold formats. rewrite !list_lookup_fmap. destruct (lc_shards (wo_state w') !! i) as [s'|] eqn:E.
    + apply S in E as (s & -> & _ & E & _). injection E as _ _ _ E. cbn. by rewrite E.
    + apply lookup_ge_None in E. by rewrite lookup_ge_None_2 by lia.
  - apply post_bind. unfold post at 1. cbn [get_state fst snd]. apply post_bind. unfold post at 1. cbn [put_state fst snd]. apply post_ret. cbn [wo_state].
    unfold formats. cbn [lmdb_set_max_entries lc_shards]. rewrite !list_fmap_compose. by rewrite set_caps_envs by by rewrite length_caps.
  - done.
Qed.

Lemma run_formats ops : forall w, (forall i, 0 <= clock i < 2 ^ 61) -> sane_backend hash (wo_state w) -> Forall op_sane ops ->
  formats (wo_state (lmdb_run clock iter hash ops w)) = formats (wo_state w).
Proof.
  induction ops as [|op ops IH]; intros w Hc Hb Hops; [done|]. apply Forall_cons in Hops as [Hop Hops].
  destruct (lmdb_step_ok clock iter hash iter_perm Hc op w Hb Hop) as [_ B1 _ _ _]. cbn [lmdb_run foldl]. unfold lmdb_run in IH. rewrite IH by done. by apply step_formats.
Qed.
End Formats.

Lemma formatted_formats (l l' : list LmdbShard) : e_format ∘ sh_env <$> l' = e_format ∘ sh_env <$> l ->
  Forall (fun s => formatted (sh_env s)) l -> Forall (fun s => formatted (sh_env s)) l'.
Proof.
  revert l'. induction l as [|s l IH]; intros [|s' l'] H Hf; simplify_eq/=; [done|]. apply Forall_cons in Hf as [(raw & Hr & Hv) Hf].
  constructor; [exists raw; split; congruence|]. by apply IH.
Qed.

Lemma open_at_formatted spawned max_entries cfg w kind h w1 : open_at spawned max_entries cfg w = (Ok (kind, h), w1) ->
  Forall (fun s => formatted (sh_env s)) (lc_shards (h_backend h)).
Proof.
  intros Hopen. assert (exists w0 w0', open_files spawned max_entries cfg w0 = (Ok (kind, h), w0')) as (w0 & w0' & Hof).
  { unfold open_at, bind, get_state in Hopen. destruct (wo_state w) as [| |files0]; [|done|].
    - destruct (call CreateDir w) as [[[]|] wc]; [|done]. unfold in_dir in Hopen. destruct (open_files _ _ _ _) as [r wf] eqn:E. injection Hopen as -> _. by eexists _, _.
    - unfold in_dir in Hopen. destruct (open_files _ _ _ _) as [r wf] eqn:E. injection Hopen as -> _. by eexists _, _. }
  pose proof (open_files_post spawned max_entries cfg w0) as Hp. unfold post in Hp. rewrite Hof in Hp. by destruct (Hp _ _ eq_refl).
Qed.


Definition sample_config (shard_count : option Z) : CompiledLmdbCache :=
  {| lb_path := "/var/cache/conduit"; lb_map_size_bytes := 1048576; lb_when_full := FullEvictOne; lb_sample_size := 4; lb_sync := SyncFull;
     lb_sync_interval := None; lb_shard_count := shard_count; lb_lookup_thread_count := 1 |}.
Definition sample_opened : result (LayoutKind * LmdbHandle) Stop * World PathState := open_at true 100 (sample_config None) (MkWorld Absent [] [] 0 0).
Definition sample_store : LmdbHandle :=
  match sample_opened.1 with Ok (_, h) => h | Err _ => MkHandle sample_backend None end.
Definition sample_used : World LmdbCacheBackend :=
  lmdb_run sample_clock map_to_list sample_hash [LmdbInsert [5] (sample_answer 1) 0; LmdbInsert [6; 6] (sample_answer 2) 0] (MkWorld (h_backend sample_store) [] [] 0 0).
(** The directory with what the environments of the shards hold. *)
Definition sample_files : Files :=
  match wo_state sample_opened.2, lc_shards (wo_state sample_used) with
  | Directory files, [s0; s1] => <[shard_file_name 0 := EnvFile (sh_env s0)]> (<[shard_file_name 1 := EnvFile (sh_env s1)]> files)
  | _, _ => ∅
  end.


(** An open that fails at a later shard leaves the files of the earlier ones without a
    sidecar, and from then on every open of the path fails, with or without a shard count. *)
Theorem failed_open_blocks_path (spawned : bool) (max_entries : Z) :
  let w := MkWorld Absent [] (replicate 9 None ++ [Some OtherFault]) 0 0 in
  let (r, w') := open_at true 100 (sample_config None) w in
  r = Err (Fails (OpenEnv OtherFault)) /\
  forall count, (open_at spawned max_entries (sample_config count) (MkWorld (wo_state w') [] [] 0 0)).1 =
    Err (Fails (Layout "found shard file without sidecar; repair or recreate the cache path")).
Proof. vm_compute. done. Qed.
