(* ===== verification/Reconcile.v ===== *)
(** * Reconcile: the caches of a new configuration

    src/crates/conduit-core/src/lookup/cache/registry.rs, the part that makes and changes
    instances ([LookupCacheRegistry::reconcile] with [CacheInstanceRuntime]) and the reaper's
    pass; backend.rs, the choice between the two stores; and of lmdb.rs the
    reopening with another number of shards. The stores are those of CacheStore.v and
    Lmdb.v, so an operation here runs the operations there.

    [ca_disk] holds what is under a path when it is opened; the files of an open store are in
    its handle. The order in which a [HashMap] is visited is the order of the lists of
    configurations, and [order] for the opened stores. *)

From stdpp Require Import base list gmap strings.
From Stdlib Require Import ZArith Lia.
From S2P Require Import Prelude Effects CacheStore Compile CacheRegistry Lmdb LmdbMap LmdbSync LmdbOpen.

#[local] Open Scope list_scope.
#[local] Open Scope Z_scope.

(** ** Stores *)

#[global] Instance CacheBackendType_eq : EqDecision CacheBackendType. Proof. solve_decision. Defined.

Inductive CacheBackend := StoreMemory (m : MemoryCacheBackend) | StoreLmdb (layout : LayoutKind) (h : LmdbHandle).

Record CacheInstanceRuntime := MkRuntime {
  ir_config : CompiledCacheInstance; ir_backend : CacheBackend; ir_rebuilding : bool;
  ir_inflight : gmap CacheKey InFlightGate; ir_next_reap_shard : nat;
}.

Abbreviation Disk := (gmap string PathState).
Record Caches := MkCaches { ca_instances : gmap string CacheInstanceRuntime; ca_disk : Disk }.

Definition at_path (d : Disk) (path : string) : PathState := default Absent (d !! path).
Definition path_exists (d : Disk) (path : string) : bool := match at_path d path with Absent => false | _ => true end.

(** An operation on a part of the state. *)
Definition zoom {S T E A} (get : S -> T) (put : T -> S -> S) (op : Eff (World T) E A) : Eff (World S) E A := fun w =>
  let (r, w') := op (MkWorld (get (wo_state w)) (wo_gets w) (wo_faults w) (wo_reads w) (wo_evictions w)) in
  (r, MkWorld (put (wo_state w') (wo_state w)) (wo_gets w') (wo_faults w') (wo_reads w') (wo_evictions w')).
Definition look {S E} : Eff (World S) E S := fun w => (Ok (wo_state w), w).
Definition store {S E} (s : S) : Eff (World S) E unit := fun w => (Ok tt, MkWorld s (wo_gets w) (wo_faults w) (wo_reads w) (wo_evictions w)).

(** ** Directories *)

Definition shard_reopen_staging_dir (operator : string) : string := (operator ++ ".conduit-lmdb-reopen")%string.
Definition shard_reopen_abandoned_dir (operator : string) : string := (operator ++ ".conduit-lmdb-abandoned")%string.

Definition remove_dir_all (e : LmdbBackendError) (path : string) : L Disk unit :=
  let* d := look in
  match at_path d path with
  | Directory _ => let* _u := call e in store (delete path d)
  | _ => throw (Fails e)
  end.

(** [rename] replaces an empty directory, but nothing else. *)
Definition rename (e : LmdbBackendError) (from to : string) : L Disk unit :=
  let* d := look in
  match at_path d from, at_path d to with
  | Absent, _ => throw (Fails e)
  | st, Absent => let* _u := call e in store (<[to := st]> (delete from d))
  | Directory files, Directory there =>
      if bool_decide (there = ∅) then let* _u := call e in store (<[to := Directory files]> (delete from d)) else throw (Fails e)
  | NotDirectory, NotDirectory => let* _u := call e in store (<[to := NotDirectory]> (delete from d))
  | _, _ => throw (Fails e)
  end.

Definition remove_stale_reopen_staging (operator : string) : L Disk unit :=
  let staging := shard_reopen_staging_dir operator in
  let* d := look in
  if path_exists d staging then let* _u := catch (remove_dir_all (Layout "failed to remove stale LMDB shard reopen staging dir") staging) in ret tt else ret tt.

Definition create_dir_all (path : string) : L Disk unit :=
  let* d := look in
  match at_path d path with
  | Absent => let* _u := call CreateDir in store (<[path := Directory ∅]> d)
  | NotDirectory => throw (Fails CreateDir)
  | Directory _ => ret tt
  end.

(** The files of a directory. *)
Definition in_path {A} (path : string) (op : L Files A) : L Disk A :=
  zoom (fun d => match at_path d path with Directory files => files | _ => ∅ end) (fun files d => <[path := Directory files]> d) op.

(** [LmdbCacheBackend::open_at], among the other directories of the disk. *)
Definition open_path (spawned : bool) (max_entries : Z) (lmdb : CompiledLmdbCache) : L Disk (LayoutKind * LmdbHandle) :=
  let* _u := create_dir_all (lb_path lmdb) in
  let* _u := remove_stale_reopen_staging (lb_path lmdb) in
  in_path (lb_path lmdb) (open_files spawned max_entries lmdb).

Definition missing_lmdb : LmdbBackendError := Io OtherFault.

Definition lmdb_open (spawned : bool) (cfg : CompiledCacheInstance) : L Disk (LayoutKind * LmdbHandle) :=
  match ci_lmdb cfg with Some lmdb => open_path spawned (ci_max_entries cfg) lmdb | None => throw (Fails missing_lmdb) end.

Definition with_path (lmdb : CompiledLmdbCache) (path : string) : CompiledLmdbCache :=
  {| lb_path := path; lb_map_size_bytes := lb_map_size_bytes lmdb; lb_when_full := lb_when_full lmdb; lb_sample_size := lb_sample_size lmdb;
     lb_sync := lb_sync lmdb; lb_sync_interval := lb_sync_interval lmdb; lb_shard_count := lb_shard_count lmdb;
     lb_lookup_thread_count := lb_lookup_thread_count lmdb |}.

Definition open_for_shard_reopen (spawned : bool) (cfg : CompiledCacheInstance) : L Disk (LayoutKind * LmdbHandle * string * string) :=
  match ci_lmdb cfg with
  | None => throw (Fails missing_lmdb)
  | Some lmdb =>
      let operator := lb_path lmdb in
      let staging := shard_reopen_staging_dir operator in
      let* d := look in
      let* _u := if path_exists d staging then remove_dir_all (Layout "failed to clear shard reopen staging dir") staging else ret tt in
      let* _u := create_dir_all staging in
      let* b := open_path spawned (ci_max_entries cfg) (with_path lmdb staging) in
      ret (b, operator, staging)
  end.

Definition finalize_shard_reopen (operator staging : string) : L Disk unit :=
  let abandoned := shard_reopen_abandoned_dir operator in
  let* d := look in
  let* _u := if path_exists d abandoned then let* _r := catch (remove_dir_all (Layout "abandoned") abandoned) in ret tt else ret tt in
  let* d := look in
  let* _u := if path_exists d operator then rename (Layout "failed to move abandoned LMDB layout aside before shard reopen finalize") operator abandoned else ret tt in
  let* _u := rename (Layout "failed to install new LMDB shard layout at operator path") staging operator in
  let* _r := catch (remove_dir_all (Layout "abandoned") abandoned) in ret tt.

(** [CacheBackend::from_config] *)
Definition from_config (spawned : bool) (cfg : CompiledCacheInstance) : L Disk CacheBackend :=
  match ci_backend_type cfg with
  | BackendMemory => ret (StoreMemory (memory_from_config (mm_shard_count (ci_memory cfg)) (ci_max_entries cfg)))
  | BackendLmdb => let* b := lmdb_open spawned cfg in ret (StoreLmdb b.1 b.2)
  | BackendEbpfMap => throw Panics
  end.

(** ** Reconciling *)

(** The step at which an apply is rejected, and its cause. *)
Inductive ApplyStep := OpenReplacement | OpenShardLayout | OpenNew | SyncApply | MapGrow | MapShrink.
Inductive ApplyStop := Rejects (cache : string) (step : ApplyStep) (e : LmdbBackendError) | ApplyPanics.
Abbreviation Rc S := (Eff (World S) ApplyStop).

Definition rejecting {S A} (name : string) (step : ApplyStep) (op : L S A) : Rc S A := fun w =>
  let (r, w') := op w in
  (match r with Ok a => Ok a | Err (Fails e) => Err (Rejects name step e) | Err Panics => Err ApplyPanics end, w').

Inductive PendingBackendOpen :=
  | Replace (backend : CacheBackend) (cfg : CompiledCacheInstance)
  | ShardReopen (backend : CacheBackend) (cfg : CompiledCacheInstance) (operator staging : string).
Definition pending_config (p : PendingBackendOpen) : CompiledCacheInstance := match p with Replace _ cfg | ShardReopen _ cfg _ _ => cfg end.
Definition pending_backend (p : PendingBackendOpen) : CacheBackend := match p with Replace b _ | ShardReopen b _ _ _ => b end.

Definition lmdb_path (cfg : CompiledCacheInstance) : option string := lb_path <$> ci_lmdb cfg.

Definition lmdb_explicit_shard_reopen_needed (new : CompiledCacheInstance) (live : CacheBackend) : bool :=
  match ci_lmdb new with
  | None => false
  | Some new_lmdb =>
      match lb_shard_count new_lmdb, live with
      | Some explicit, StoreLmdb layout h =>
          let want := clamp 1 MAX_LMDB_SHARD_COUNT explicit in
          match layout with KindLegacy => negb (want =? 1) | KindSharded => negb (want =? zlen (lc_shards (h_backend h))) end
      | _, _ => false
      end
  end.

Section Reconcile.
(** [CacheStore]'s iteration order, that of an environment, the bytes it uses, the clock of
    [set_max_entries], and whether the thread of a cache could be spawned and joined. *)
Context (iter : Shard -> list (CacheKey * CacheEntry)) (iter_env : gmap CacheKey (list Z) -> list (CacheKey * list Z)).
Context (used : Env -> Z) (now : Z) (spawned joined : string -> bool).

(** A loop of at most one turn per entry, which is enough for a store that counts its entries. *)
Definition memory_set_max (m : MemoryCacheBackend) (max : Z) : MemoryCacheBackend :=
  default m (set_max_entries iter (S (Z.to_nat (live_entries m))) m max now).
Definition backend_set_max (b : CacheBackend) (max : Z) : CacheBackend :=
  match b with
  | StoreMemory m => StoreMemory (memory_set_max m max)
  | StoreLmdb layout h => StoreLmdb layout (MkHandle (lmdb_set_max_entries max (h_backend h)) (h_flusher h))
  end.

Definition set_config (cfg : CompiledCacheInstance) (i : CacheInstanceRuntime) : CacheInstanceRuntime :=
  MkRuntime cfg (ir_backend i) (ir_rebuilding i) (ir_inflight i) (ir_next_reap_shard i).
Definition set_backend (b : CacheBackend) (i : CacheInstanceRuntime) : CacheInstanceRuntime :=
  MkRuntime (ir_config i) b (ir_rebuilding i) (ir_inflight i) (ir_next_reap_shard i).
Definition set_rebuilding (v : bool) (i : CacheInstanceRuntime) : CacheInstanceRuntime :=
  MkRuntime (ir_config i) (ir_backend i) v (ir_inflight i) (ir_next_reap_shard i).
Definition with_max_entries (cfg : CompiledCacheInstance) (max : Z) : CompiledCacheInstance :=
  {| ci_name := ci_name cfg; ci_backend_type := ci_backend_type cfg; ci_negative_cache := ci_negative_cache cfg;
     ci_on_hit_response_rules := ci_on_hit_response_rules cfg; ci_truncated_udp := ci_truncated_udp cfg;
     ci_rotate_rrset_on_serve := ci_rotate_rrset_on_serve cfg; ci_memory := ci_memory cfg; ci_lmdb := ci_lmdb cfg; ci_max_entries := max |}.

Definition apply_max_entries (max : Z) (i : CacheInstanceRuntime) : CacheInstanceRuntime :=
  let i := set_backend (backend_set_max (ir_backend i) max) i in
  if ci_max_entries (ir_config i) =? max then i else set_config (with_max_entries (ir_config i) max) i.

Definition swap_backend (b : CacheBackend) (cfg : CompiledCacheInstance) (i : CacheInstanceRuntime) : CacheInstanceRuntime :=
  set_config cfg (set_backend b i).

Definition new_runtime (b : CacheBackend) (cfg : CompiledCacheInstance) : CacheInstanceRuntime := MkRuntime cfg b false ∅ 0.

Definition on_disk {A} (op : L Disk A) : L Caches A := zoom ca_disk (fun d c => MkCaches (ca_instances c) d) op.
Definition set_instances (m : gmap string CacheInstanceRuntime) : Rc Caches unit := let* c := look in store (MkCaches m (ca_disk c)).

(** Phase 1 for one name: the store to open, if one is to be. *)
Definition preflight_one (name : string) (cfg : CompiledCacheInstance) : Rc Caches (option PendingBackendOpen) :=
  let* c := look in
  match ca_instances c !! name with
  | Some inst =>
      let cur_cfg := ir_config inst in
      let type_or_path_change := negb (bool_decide (ci_backend_type cur_cfg = ci_backend_type cfg)) || negb (bool_decide (lmdb_path cur_cfg = lmdb_path cfg)) in
      if type_or_path_change then
        let* b := rejecting name OpenReplacement (on_disk (from_config (spawned name) cfg)) in ret (Some (Replace b cfg))
      else if lmdb_explicit_shard_reopen_needed cfg (ir_backend inst) then
        let* o := rejecting name OpenShardLayout (on_disk (open_for_shard_reopen (spawned name) cfg)) in
        let '(b, operator, staging) := o in ret (Some (ShardReopen (StoreLmdb b.1 b.2) cfg operator staging))
      else ret None
  | None => let* b := rejecting name OpenNew (on_disk (from_config (spawned name) cfg)) in ret (Some (Replace b cfg))
  end.

Fixpoint preflight (new : list (string * CompiledCacheInstance)) : Rc Caches (list (string * PendingBackendOpen)) :=
  match new with
  | [] => ret []
  | (name, cfg) :: new =>
      let* p := preflight_one name cfg in
      let* ps := preflight new in ret (match p with Some p => (name, p) :: ps | None => ps end)
  end.

(** Operations on the durable store of an instance, if it has one. *)
Definition on_handle {E A} (op : Eff (World LmdbHandle) E A) : Eff (World CacheInstanceRuntime) E (option A) := fun w =>
  match ir_backend (wo_state w) with
  | StoreMemory _ => (Ok None, w)
  | StoreLmdb layout h => zoom (fun _ => h) (fun h i => set_backend (StoreLmdb layout h) i) (let* a := op in ret (Some a)) w
  end.

Definition hot_lmdb (name : string) (new_lmdb : CompiledLmdbCache) : Rc LmdbHandle unit :=
  let* h := look in
  let* _u := store (MkHandle (apply_policy (lb_when_full new_lmdb) (lb_sample_size new_lmdb) (h_backend h)) (h_flusher h)) in
  rejecting name SyncApply (apply_sync_config (spawned name) (joined name) (lb_sync new_lmdb) (lb_sync_interval new_lmdb)).

(** Growing or shrinking, with lookups turned away while the map shrinks. *)
Definition hot_map_size (name : string) (new_lmdb : CompiledLmdbCache) : Rc CacheInstanceRuntime unit :=
  let* i := look in
  let cur := match ir_backend i with StoreLmdb _ h => lc_total_map_size_bytes (h_backend h) | StoreMemory _ => 0 end in
  if cur <? lb_map_size_bytes new_lmdb then
    let* _u := on_handle (rejecting name MapGrow (on_backend (grow_map_size (lb_map_size_bytes new_lmdb)))) in ret tt
  else if lb_map_size_bytes new_lmdb <? cur then
    let* _u := store (set_rebuilding true i) in
    let* r := catch (on_handle (rejecting name MapShrink (on_backend (shrink_map_size iter_env used (lb_map_size_bytes new_lmdb))))) in
    let* i := look in
    let* _u := store (set_rebuilding false i) in
    match r with Ok _ => ret tt | Err e => throw e end
  else ret tt.

(** Phase 2 for one instance. *)
Definition hot_instance (prev : option CompiledCacheInstance) (name : string) (cfg : CompiledCacheInstance) : Rc CacheInstanceRuntime unit :=
  let* i := look in
  let* _u := if bool_decide (ci_max_entries <$> prev = Some (ci_max_entries cfg)) then ret tt else store (apply_max_entries (ci_max_entries cfg) i) in
  let* i := look in
  let* _u := match ir_backend i, ci_lmdb cfg with
             | StoreLmdb _ _, Some new_lmdb => let* _u := on_handle (hot_lmdb name new_lmdb) in hot_map_size name new_lmdb
             | _, _ => ret tt
             end in
  let* i := look in
  store (set_config cfg i).

Definition on_instance {A} (name : string) (op : Rc CacheInstanceRuntime A) : Rc Caches unit := fun w =>
  match ca_instances (wo_state w) !! name with
  | None => (Ok tt, w)
  | Some i => zoom (fun _ => i) (fun i c => MkCaches (<[name := i]> (ca_instances c)) (ca_disk c)) (let* _a := op in ret tt) w
  end.

Fixpoint hot (prev : gmap string CompiledCacheInstance) (pending : list (string * PendingBackendOpen)) (new : list (string * CompiledCacheInstance)) : Rc Caches unit :=
  match new with
  | [] => ret tt
  | (name, cfg) :: new =>
      let* _u := if bool_decide (name ∈ pending.*1) then ret tt else on_instance name (hot_instance (prev !! name) name cfg) in
      hot prev pending new
  end.

(** A preflighted store takes its place; what is left to do on the disk after the switch may
    fail, which is only logged. *)
Definition commit_one (name : string) (p : PendingBackendOpen) : Rc Caches unit :=
  let* c := look in
  match p, ca_instances c !! name with
  | Replace b cfg, Some inst => set_instances (<[name := swap_backend b cfg inst]> (ca_instances c))
  | Replace b cfg, None => set_instances (<[name := new_runtime b cfg]> (ca_instances c))
  | ShardReopen b cfg operator staging, Some inst =>
      let* _u := set_instances (<[name := swap_backend b cfg inst]> (ca_instances c)) in
      match b with
      | StoreLmdb _ _ => let* _r := catch (rejecting name OpenShardLayout (on_disk (finalize_shard_reopen operator staging))) in ret tt
      | StoreMemory _ => ret tt
      end
  | ShardReopen _ _ _ staging, None =>
      let* _r := catch (rejecting name OpenShardLayout (on_disk (remove_dir_all (Layout "staging") staging))) in ret tt
  end.
Fixpoint commit_pending (ps : list (string * PendingBackendOpen)) : Rc Caches unit :=
  match ps with [] => ret tt | (name, p) :: ps => let* _u := commit_one name p in commit_pending ps end.

Definition drop_removed (new : list (string * CompiledCacheInstance)) : Rc Caches unit :=
  let* c := look in set_instances (filter (fun kv => kv.1 ∈ new.*1) (ca_instances c)).

Definition reconcile (order : list (string * PendingBackendOpen) -> list (string * PendingBackendOpen))
    (prev : gmap string CompiledCacheInstance) (new : list (string * CompiledCacheInstance)) : Rc Caches unit :=
  let* pending := preflight new in
  let* _u := hot prev pending new in
  let* _u := commit_pending (order pending) in
  drop_removed new.
End Reconcile.

(** ** The reaper *)

Section Reaper.
(** The clocks of a pass, by cache. *)
Context (iter : Shard -> list (CacheKey * CacheEntry)) (now : Z) (budget : ReapBudget) (clock : string -> nat -> Z) (tick : string -> nat -> nat -> Z).

Definition active (i : CacheInstanceRuntime) : bool := match mm_eviction (ci_memory (ir_config i)) with EvictActive => true | EvictPassive => false end.
Definition has_active_eviction (c : Caches) : bool := existsb (fun ni => active ni.2) (map_to_list (ca_instances c)).

(** [CacheBackend::reap_expired_budgeted] for one instance, from its cursor. *)
Definition reap_instance (name : string) (i : CacheInstanceRuntime) : Z * CacheInstanceRuntime :=
  match active i, ir_backend i with
  | true, StoreMemory m =>
      let '(removed, _, cursor, m) := reap_expired_budgeted iter m now budget (clock name) (tick name) (ir_next_reap_shard i) in
      (removed, MkRuntime (ir_config i) (StoreMemory m) (ir_rebuilding i) (ir_inflight i) cursor)
  | _, _ => (0, i)
  end.

Definition reap_active_expired_with_budget (c : Caches) : Z * Caches :=
  (foldr (fun ni n => (reap_instance ni.1 ni.2).1 + n) 0 (map_to_list (ca_instances c)),
   MkCaches (map_imap (fun name i => Some (reap_instance name i).2) (ca_instances c)) (ca_disk c)).
End Reaper.

(** ** Operations that do not panic *)

Create HintDb reconcile.

Definition calls {S A} (m : L S A) : Prop := forall w, (m w).1 <> Err Panics.

Lemma calls_ret {S A} (a : A) : calls (S := S) (ret a).
Proof. done. Qed.
Lemma calls_throw {S A} e : calls (S := S) (A := A) (throw (Fails e)).
Proof. done. Qed.
Lemma calls_bind {S A B} (m : L S A) (k : A -> L S B) : calls m -> (forall a, calls (k a)) -> calls (bind m k).
Proof. intros Hm Hk w. specialize (Hm w). unfold bind. destruct (m w) as [[a|e] w1]; [apply Hk|]. cbn in *. congruence. Qed.
Lemma calls_catch {S A} (m : L S A) : calls (catch m).
Proof. done. Qed.
Lemma calls_heed {S} : calls (@heed S).
Proof. intros w. unfold heed. repeat case_match; done. Qed.
Lemma calls_heed_get {S} : calls (@heed_get S).
Proof. intros w. unfold heed_get. repeat case_match; done. Qed.
Lemma calls_get {S} : calls (@get_state S).
Proof. done. Qed.
Lemma calls_put {S} s : calls (@put_state S s).
Proof. done. Qed.
Lemma calls_look {S} : calls (@look S Stop).
Proof. done. Qed.
Lemma calls_store {S} s : calls (@store S Stop s).
Proof. done. Qed.
Lemma calls_call {S} e : calls (@call S e).
Proof. intros w. unfold call. by destruct (heed w) as [[]]. Qed.
Lemma calls_zoom {S T A} (get : S -> T) put (op : L T A) : calls op -> calls (zoom get put op).
Proof. intros H w. unfold zoom. specialize (H (MkWorld (get (wo_state w)) (wo_gets w) (wo_faults w) (wo_reads w) (wo_evictions w))). by destruct (op _). Qed.
#[export] Hint Resolve calls_ret calls_throw calls_bind calls_catch calls_heed calls_heed_get calls_get calls_put calls_look calls_store calls_call calls_zoom : reconcile.

(** Through the binds and the case distinctions of a program. *)
Ltac calls := repeat first [progress eauto with reconcile | apply calls_bind; [|intros ?] | case_match].

Lemma calls_heeds n : calls (heeds n).
Proof. induction n; cbn; calls. Qed.
Lemma calls_commit env : calls (commit env).
Proof. unfold commit. calls. Qed.
Lemma calls_bump env d : calls (bump_count env d).
Proof. unfold bump_count. calls. Qed.
#[export] Hint Resolve calls_heeds calls_commit calls_bump : reconcile.

Lemma calls_evict iter : calls (evict_one_arbitrary iter).
Proof. unfold evict_one_arbitrary, delete_victim. calls. Qed.
Lemma calls_clear iter : calls (clear_shard_entries iter).
Proof. unfold clear_shard_entries. calls. Qed.
Lemma calls_set_flags f : calls (set_flags f).
Proof. intros w. unfold set_flags, bind, catch, heed, get_state, put_state, throw. destruct (wo_faults w) as [|[x|] fs]; cbn; done. Qed.
#[export] Hint Resolve calls_evict calls_clear calls_set_flags : reconcile.
Lemma calls_flags sync : calls (apply_sync_flags_to_env sync).
Proof. unfold apply_sync_flags_to_env. calls. Qed.
Lemma calls_force : calls force_sync_shard.
Proof. unfold force_sync_shard. calls. Qed.
#[export] Hint Resolve calls_flags calls_force : reconcile.

(** Opening never panics. *)
Lemma calls_detect files : calls (detect_on_disk_layout files).
Proof. unfold detect_on_disk_layout. calls. Qed.
Lemma calls_remove_owned names : calls (remove_owned names).
Proof. induction names; cbn; unfold remove_file; calls. Qed.
Lemma calls_open_env data lock size cap sync : calls (open_env data lock size cap sync).
Proof. unfold open_env, finish_open_env, put_file. calls. Qed.
#[export] Hint Resolve calls_detect calls_remove_owned calls_open_env : reconcile.
Lemma calls_open_shards sizes caps sync : forall i, calls (open_shards i sizes caps sync).
Proof. revert caps. induction sizes as [|s sizes IH]; intros [|c caps] i; cbn; calls. Qed.
#[export] Hint Resolve calls_open_shards : reconcile.
Lemma calls_open_files spawned max lmdb : calls (open_files spawned max lmdb).
Proof. unfold open_files, open_layout, remove_owned_layout_files, write_sidecar, put_file. calls. Qed.
#[export] Hint Resolve calls_open_files : reconcile.

(** ** What the operations on a live durable store leave alone *)

Definition stays (b b' : LmdbCacheBackend) : Prop :=
  lc_policy b' = lc_policy b /\ lc_total_max_entries b' = lc_total_max_entries b /\ length (lc_shards b') = length (lc_shards b).

#[global] Instance stays_preorder : PreOrder stays.
Proof. split; [done|]. intros a b c (?&?&?) (?&?&?). repeat split; congruence. Qed.

(** On a backend of [n] shards: no panic, and the settings stay. *)
Definition within (n : nat) {A} (m : L LmdbCacheBackend A) : Prop :=
  forall w, length (lc_shards (wo_state w)) = n -> stays (wo_state w) (wo_state (m w).2) /\ (m w).1 <> Err Panics.

Lemma within_ret n {A} (a : A) : within n (ret a).
Proof. done. Qed.
Lemma within_throw n {A} e : within n (A := A) (throw (Fails e)).
Proof. done. Qed.
Lemma within_bind n {A B} (m : L LmdbCacheBackend A) (k : A -> L LmdbCacheBackend B) : within n m -> (forall a, within n (k a)) -> within n (bind m k).
Proof.
  intros Hm Hk w Hw. specialize (Hm w Hw). unfold bind. destruct (m w) as [[a|e] w1]; cbn in Hm; [|cbn; split; [apply Hm|destruct Hm; congruence]].
  destruct Hm as [S1 _]. destruct (Hk a w1) as [S2 E]; [destruct S1 as (_ & _ & ->); done|]. split; [by etrans|done].
Qed.
Lemma within_get n {A} (k : LmdbCacheBackend -> L LmdbCacheBackend A) : (forall b, length (lc_shards b) = n -> within n (k b)) -> within n (bind get_state k).
Proof. intros H w Hw. by apply (H (wo_state w) Hw w). Qed.
Lemma within_catch n {A} (m : L LmdbCacheBackend A) : within n m -> within n (catch m).
Proof. intros H w Hw. destruct (H w Hw) as [? _]. done. Qed.
Lemma within_shard n {A} i (op : L LmdbShard A) : (i < n)%nat -> calls op -> within n (on_shard i op).
Proof.
  intros Hi Hop w Hw. unfold on_shard. rewrite <-Hw in Hi. destruct (lookup_lt_is_Some_2 _ _ Hi) as [s ->].
  specialize (Hop (MkWorld s (wo_gets w) (wo_faults w) (wo_reads w) (wo_evictions w))). destruct (op _) as [r w']. cbn in *.
  split; [|done]. repeat split; cbn. by rewrite length_insert.
Qed.
#[export] Hint Resolve within_ret within_throw within_catch : reconcile.

Lemma seq_below n : Forall (fun i => i < n)%nat (seq 0 n).
Proof. apply Forall_seq. lia. Qed.

Lemma within_resize_shards sizes n : forall i, (i + length sizes <= n)%nat -> within n (resize_shards i sizes).
Proof.
  induction sizes as [|s sizes IH]; intros i H; [apply within_ret|]. cbn in *. apply within_bind; [|intros _; apply IH; lia].
  apply within_shard; [lia|calls].
Qed.
Lemma within_resize total n : within n (resize_total_to total).
Proof.
  unfold resize_total_to. apply within_get. intros b Hb. apply within_bind; [apply within_resize_shards; rewrite length_map_sizes; lia|].
  intros _. by intros w Hw.
Qed.
Lemma within_grow size n : within n (grow_map_size size).
Proof. unfold grow_map_size. apply within_get. intros b Hb. case_match; [apply within_ret|apply within_resize]. Qed.

Lemma within_evict_any iter n ixs : Forall (fun i => i < n)%nat ixs -> within n (evict_any iter ixs).
Proof.
  induction 1 as [|i ixs Hi _ IH]; cbn; [apply within_ret|]. apply within_bind; [apply within_shard; [done|calls]|].
  intros []; [apply within_ret|apply IH].
Qed.
Lemma within_clear_shards iter n ixs : Forall (fun i => i < n)%nat ixs -> within n (clear_shards iter ixs).
Proof. induction 1 as [|i ixs Hi _ IH]; cbn; [apply within_ret|]. apply within_bind; [apply within_shard; [done|calls]|intros _; apply IH]. Qed.
Lemma within_evict_until iter used guard target n : within n (evict_until iter used guard target).
Proof.
  induction guard as [|guard IH]; cbn; apply within_get; intros b Hb; case_match; try apply within_ret.
  apply within_bind; [|intros []; [apply IH|apply within_ret]]. unfold evict_one_arbitrary_any_shard. apply within_get. intros b' <-.
  apply within_evict_any, seq_below.
Qed.
Lemma within_shrink iter used size n : within n (shrink_map_size iter used size).
Proof.
  unfold shrink_map_size. apply within_get. intros b Hb. repeat case_match; try apply within_ret; try apply within_resize.
  apply within_bind; [apply within_evict_until|intros _]. apply within_get. intros b' Hb'. case_match; [apply within_resize|].
  apply within_bind; [unfold clear_all_entries; apply within_get; intros b2 <-; apply within_clear_shards, seq_below|intros _].
  apply within_get. intros b2 Hb2. case_match; [apply within_throw|apply within_resize].
Qed.

(** *** Durability modes *)

Definition unmoved (b b' : LmdbCacheBackend) : Prop := envs b' = envs b /\ lc_total_map_size_bytes b' = lc_total_map_size_bytes b.
Definition still {A} (m : L LmdbCacheBackend A) : Prop := forall w, unmoved (wo_state w) (wo_state (m w).2).
Definition tame {A} (m : L LmdbShard A) : Prop := forall w, sh_env (wo_state (m w).2) = sh_env (wo_state w).

Lemma still_bind {A B} (m : L LmdbCacheBackend A) (k : A -> L LmdbCacheBackend B) : still m -> (forall a, still (k a)) -> still (bind m k).
Proof. intros Hm Hk w. unfold bind. destruct (Hm w) as [E1 E2]. destruct (m w) as [[a|e] w1]; [|done]. destruct (Hk a w1) as [E3 E4]. split; [by rewrite E3|by rewrite E4]. Qed.
Lemma tame_bind {A B} (m : L LmdbShard A) (k : A -> L LmdbShard B) : tame m -> (forall a, tame (k a)) -> tame (bind m k).
Proof. intros Hm Hk w. unfold bind. specialize (Hm w). destruct (m w) as [[a|e] w1]; [|done]. by rewrite Hk. Qed.
Lemma still_shard {A} i (op : L LmdbShard A) : tame op -> still (on_shard i op).
Proof.
  intros H w. unfold on_shard. destruct (lc_shards (wo_state w) !! i) as [s|] eqn:Hs; [|done].
  specialize (H (MkWorld s (wo_gets w) (wo_faults w) (wo_reads w) (wo_evictions w))). destruct (op _) as [r w']. cbn in *.
  split; [|done]. unfold envs, with_shards. cbn. rewrite list_fmap_insert, H. apply list_insert_id. by rewrite list_lookup_fmap, Hs.
Qed.

Lemma tame_flags sync : tame (apply_sync_flags_to_env sync).
Proof.
  assert (forall f, tame (set_flags f)) as Hf by (intros f w; unfold set_flags, bind, catch, heed, get_state, put_state, throw; by destruct (wo_faults w) as [|[x|] fs]).
  unfold apply_sync_flags_to_env. repeat (apply tame_bind; [apply Hf|intros _]). destruct sync; done || apply Hf.
Qed.
Lemma tame_force : tame force_sync_shard.
Proof.
  intros w. unfold force_sync_shard, bind, get_state, put_state, catch, heed, ret. destruct (sh_dirty (wo_state w)); [|done]. by destruct (wo_faults w) as [|[x|] fs].
Qed.

Lemma still_flags_all ixs sync : still (flags_all ixs sync).
Proof. induction ixs; cbn; [done|]. apply still_bind; [apply still_shard, tame_flags|done]. Qed.
Lemma within_flags_all ixs sync n : Forall (fun i => i < n)%nat ixs -> within n (flags_all ixs sync).
Proof. induction 1; cbn; [apply within_ret|]. apply within_bind; [apply within_shard; [done|calls]|done]. Qed.
Lemma still_flags_revert ixs sync : still (flags_revert ixs sync).
Proof. induction ixs; cbn; [done|]. apply still_bind; [intros w; apply still_shard, tame_flags|done]. Qed.
Lemma within_flags_revert ixs sync n : Forall (fun i => i < n)%nat ixs -> within n (flags_revert ixs sync).
Proof. induction 1; cbn; [apply within_ret|]. apply within_bind; [apply within_catch, within_shard; [done|calls]|done]. Qed.
Lemma still_force : still force_sync_dirty_shards.
Proof. intros w. unfold force_sync_dirty_shards. cbn. induction (seq _ _) in w |- *; cbn; [done|]. apply still_bind; [apply still_shard, tame_force|intros ok]. by apply still_bind. Qed.
Lemma within_force n : within n force_sync_dirty_shards.
Proof.
  apply within_get. intros b <-. induction (seq_below (length (lc_shards b))); cbn; [apply within_ret|].
  apply within_bind; [apply within_shard; [done|calls]|intros ok]. by apply within_bind.
Qed.

(** What a change of the mode never touches. *)
Definition settled (h h' : LmdbHandle) : Prop :=
  unmoved (h_backend h) (h_backend h') /\ lc_total_max_entries (h_backend h') = lc_total_max_entries (h_backend h) /\
  po_when_full (lc_policy (h_backend h')) = po_when_full (lc_policy (h_backend h)) /\
  po_sample_size (lc_policy (h_backend h')) = po_sample_size (lc_policy (h_backend h)).
Definition settles (n : nat) {A} (m : L LmdbHandle A) : Prop := forall w, length (envs (h_backend (wo_state w))) = n ->
  settled (wo_state w) (wo_state (m w).2) /\ (m w).1 <> Err Panics.

#[global] Instance settled_preorder : PreOrder settled.
Proof. split; [done|]. intros a b c ([? ?]&?&?&?) ([? ?]&?&?&?). repeat split; congruence. Qed.
Lemma settles_ret n {A} (a : A) : settles n (ret a).
Proof. done. Qed.
Lemma settles_throw n {A} e : settles n (A := A) (throw (Fails e)).
Proof. done. Qed.
Lemma settles_bind n {A B} (m : L LmdbHandle A) (k : A -> L LmdbHandle B) : settles n m -> (forall a, settles n (k a)) -> settles n (bind m k).
Proof.
  intros Hm Hk w Hn. specialize (Hm w Hn). unfold bind. destruct (m w) as [[a|e] w1]; cbn in *; [|destruct Hm; split; congruence].
  destruct Hm as [S1 _]. destruct (Hk a w1) as [S2 E]; [by destruct S1 as [[-> _] _]|]. split; [by etrans|done].
Qed.
Lemma settles_get n {A} (k : LmdbHandle -> L LmdbHandle A) : (forall h, length (envs (h_backend h)) = n -> settles n (k h)) -> settles n (bind get_state k).
Proof. intros H w Hw. by apply (H (wo_state w) Hw w). Qed.
Lemma settles_catch n {A} (m : L LmdbHandle A) : settles n m -> settles n (catch m).
Proof. intros H w Hw. by destruct (H w Hw). Qed.
Lemma settles_try n {A B} (m : L LmdbHandle A) (k : result A Stop -> L LmdbHandle B) :
  settles n m -> (forall r, r <> Err Panics -> settles n (k r)) -> settles n (bind (catch m) k).
Proof.
  intros Hm Hk w Hn. destruct (Hm w Hn) as [S1 E1]. cbn. destruct (Hk _ E1 (m w).2) as [S2 E2]; [by destruct S1 as [[-> _] _]|]. split; [by etrans|done].
Qed.
Lemma settles_on n {A} (op : L LmdbCacheBackend A) : still op -> within n op -> settles n (on_backend op).
Proof.
  intros Hs Hw w Hn. unfold on_backend. set (w0 := MkWorld _ _ _ _ _). specialize (Hs w0). unfold envs in Hn. rewrite length_fmap in Hn.
  destruct (Hw w0 Hn) as [(P & M & _) E]. destruct (op w0) as [r w1]. cbn in *. split; [|done]. split_and!; cbn; by rewrite ?P.
Qed.
#[export] Hint Resolve settles_ret settles_throw settles_catch : reconcile.

Lemma settles_set_policy n sync interval : settles n (set_policy sync interval).
Proof. by intros w Hw. Qed.
Lemma settles_reconcile n spawned joined sync interval : settles n (reconcile_flusher spawned joined sync interval).
Proof.
  assert (forall f, settles n (set_flusher f)) as Hf by by intros f w Hw.
  assert (settles n (let* _u := catch (on_backend force_sync_dirty_shards) in ret tt)) as Hs
    by (apply settles_bind; [apply settles_catch, settles_on; [apply still_force|apply within_force]|intros; apply settles_ret]).
  unfold reconcile_flusher. apply settles_get. intros h Hh.
  destruct sync, interval; repeat first [apply settles_ret | apply Hf | apply Hs | apply settles_throw | apply settles_bind; [apply Hf|intros _] | case_match].
Qed.

Lemma settles_sync n spawned joined sync interval : settles n (apply_sync_config spawned joined sync interval).
Proof.
  unfold apply_sync_config. case_match; [apply settles_throw|]. case_match; [apply settles_throw|]. apply settles_get. intros h <-.
  unfold envs. rewrite length_fmap. case_match; [apply settles_ret|].
  assert (forall b : bool, settles (length (lc_shards (h_backend h))) (if b then ret tt else on_backend (flags_all (seq 0 (length (lc_shards (h_backend h)))) sync))) as Hf.
  { intros []; [apply settles_ret|]. apply settles_on; [apply still_flags_all|apply within_flags_all, seq_below]. }
  assert (forall (b : bool) g, settles (length (lc_shards (h_backend h))) (if b then ret tt else on_backend (flags_revert (seq 0 (length (lc_shards (h_backend h)))) g))) as Hr.
  { intros [] g; [apply settles_ret|]. apply settles_on; [apply still_flags_revert|apply within_flags_revert, seq_below]. }
  apply settles_bind; [apply Hf|intros _]. apply settles_bind; [apply settles_set_policy|intros _].
  apply settles_try; [apply settles_reconcile|intros [[]|e] He]; [apply settles_ret|].
  apply settles_bind; [apply settles_set_policy|intros _]. apply settles_bind; [apply Hr|intros _]. destruct e; [apply settles_throw|done].
Qed.

Lemma flusher_policy spawned joined sync interval w :
  lc_policy (h_backend (wo_state (reconcile_flusher spawned joined sync interval w).2)) = lc_policy (h_backend (wo_state w)).
Proof.
  set (same_policy := fun (w w' : World LmdbHandle) => lc_policy (h_backend (wo_state w')) = lc_policy (h_backend (wo_state w))).
  assert (forall w, same_policy w (on_backend force_sync_dirty_shards w).2) as Hs.
  { intros w1. unfold same_policy, on_backend. set (w0 := MkWorld _ _ _ _ _). destruct (within_force _ w0 eq_refl) as [(P & _) _]. by destruct (force_sync_dirty_shards w0). }
  change (same_policy w (reconcile_flusher spawned joined sync interval w).2). unfold reconcile_flusher. cbn.
  destruct sync, interval, (h_flusher (wo_state w)), spawned, joined; cbn; try done;
    exact (Hs (MkWorld (MkHandle (h_backend (wo_state w)) None) (wo_gets w) (wo_faults w) (wo_reads w) (wo_evictions w))).
Qed.

(** An accepted mode is the mode. *)
Lemma sync_accepted spawned joined sync interval w w' : apply_sync_config spawned joined sync interval w = (Ok tt, w') ->
  po_sync (lc_policy (h_backend (wo_state w'))) = sync /\ po_sync_interval (lc_policy (h_backend (wo_state w'))) = interval.
Proof.
  unfold apply_sync_config. destruct (_ && _); [done|]. destruct (_ && _); [done|]. intros H. apply bind_inv in H as (h & w1 & [= <- <-] & H).
  destruct (_ && _) eqn:Hb.
  { apply andb_prop in Hb as [?%bool_decide_eq_true ?%bool_decide_eq_true]. by injection H as <-. }
  apply bind_inv in H as ([] & w1 & _ & H). apply bind_inv in H as ([] & w2 & Hp & H). apply bind_inv in H as (r & w3 & Hr & H).
  injection Hr as <- <-. pose proof (flusher_policy spawned joined sync interval w2) as Hf.
  destruct (reconcile_flusher _ _ _ _ w2).1 as [[]|e].
  - injection H as <-. rewrite Hf. unfold set_policy, bind, get_state, put_state in Hp. by injection Hp as <-.
  - apply bind_inv in H as ([] & ? & _ & H). by apply bind_inv in H as ([] & ? & _ & H).
Qed.

(** ** A store that is as its configuration says *)

Definition policy_of (l : CompiledLmdbCache) : LmdbPolicy := MkPolicy (lb_when_full l) (lb_sample_size l) (lb_sync l) (lb_sync_interval l).

(** Layout and number of shards are as asked for, if they were. *)
Definition laid_out (l : CompiledLmdbCache) (kind : LayoutKind) (b : LmdbCacheBackend) : Prop :=
  (forall n, lb_shard_count l = Some n -> clamp 1 MAX_LMDB_SHARD_COUNT n = zlen (lc_shards b)) /\ (kind = KindLegacy -> zlen (lc_shards b) = 1).

Section Fits.
Context (hash : CacheKey -> Z).

(** A store that serves: of the configured type, and laid out as asked for. *)
Definition works (cfg : CompiledCacheInstance) (b : CacheBackend) : Prop :=
  match b with
  | StoreMemory m => ci_backend_type cfg = BackendMemory /\ wf hash m /\ within_cap m
  | StoreLmdb kind h => ci_backend_type cfg = BackendLmdb /\ exists l, ci_lmdb cfg = Some l /\ laid_out l kind (h_backend h)
  end.
Definition policed (cfg : CompiledCacheInstance) (b : CacheBackend) : Prop :=
  match b with StoreMemory _ => True | StoreLmdb _ h => policy_of <$> ci_lmdb cfg = Some (lc_policy (h_backend h)) end.
Definition limit (b : CacheBackend) : Z := match b with StoreMemory m => max_entries m | StoreLmdb _ h => lc_total_max_entries (h_backend h) end.

(** The caches are those of [cfgs], and every one works. *)
Definition operable (cfgs : gmap string CompiledCacheInstance) (m : gmap string CacheInstanceRuntime) : Prop :=
  forall name, match cfgs !! name, m !! name with
               | Some _, Some i => works (ir_config i) (ir_backend i) /\ ir_rebuilding i = false
               | None, None => True
               | _, _ => False
               end.

(** And every one is as its section says. *)
Definition agrees (cfgs : gmap string CompiledCacheInstance) (m : gmap string CacheInstanceRuntime) : Prop :=
  forall name, match cfgs !! name, m !! name with
               | Some cfg, Some i => ir_config i = cfg /\ works cfg (ir_backend i) /\ policed cfg (ir_backend i) /\ limit (ir_backend i) = ci_max_entries cfg /\
                   ir_rebuilding i = false
               | None, None => True
               | _, _ => False
               end.

Lemma agrees_operable cfgs m : agrees cfgs m -> operable cfgs m.
Proof. intros H name. specialize (H name). destruct (cfgs !! name), (m !! name); try done. by destruct H as (-> & ? & _ & _ & ?). Qed.

(** What validation guarantees of an instance. *)
Definition valid (cfg : CompiledCacheInstance) : Prop := 0 <= ci_max_entries cfg /\ ci_backend_type cfg <> BackendEbpfMap.

(** The store of [b'] is that of [b], or has lost entries. *)
Definition kept (b b' : CacheBackend) : Prop :=
  match b, b' with
  | StoreMemory m, StoreMemory m' => forall k e, stored hash m' k = Some e -> stored hash m k = Some e
  | StoreLmdb kind h, StoreLmdb kind' h' => kind' = kind /\ fewer (h_backend h) (h_backend h')
  | _, _ => False
  end.

#[global] Instance kept_preorder : PreOrder kept.
Proof.
  split.
  - intros [m|k h]; cbn; [done|]. split; [done|by apply fewer_refl].
  - intros [m|k h] [m'|k' h'] [m''|k'' h'']; cbn; try done; [auto|]. intros [-> H1] [-> H2]. split; [done|by eapply fewer_trans].
Qed.

(** *** What opening gives *)

Lemma open_files_fits spawned max lmdb w kind h w' : open_files spawned max lmdb w = (Ok (kind, h), w') ->
  lc_total_max_entries (h_backend h) = max /\ lc_policy (h_backend h) = policy_of lmdb /\ laid_out lmdb kind (h_backend h).
Proof.
  intros H. pose proof (open_files_post spawned max lmdb w) as Hp. unfold post in Hp. rewrite H in Hp. destruct (Hp kind h eq_refl) as [Hst _].
  unfold open_files in H. apply bind_inv in H as (files & w1 & _ & H). apply bind_inv in H as (d & w2 & _ & H). apply bind_inv in H as (d' & w3 & _ & H).
  set (n := resolve_effective_shard_count _ _ _) in H. pose proof (effective_range (lb_shard_count lmdb) d' (lb_lookup_thread_count lmdb)) as Hn. fold n in Hn.
  apply bind_inv in H as ([k shards] & w4 & Ho & H).
  assert (zlen shards = n /\ (k = KindLegacy -> n = 1)) as [Hlen Hleg].
  { unfold open_layout in Ho. destruct (bool_decide _ && (n =? 1)) eqn:El.
    - apply andb_prop in El as [_ El%Z.eqb_eq]. apply bind_inv in Ho as (s & ? & _ & Ho). injection Ho as <- <- _. rewrite El. done.
    - apply bind_inv in Ho as (ss & ? & Hs & Ho). apply bind_inv in Ho as ([] & ? & _ & Ho). injection Ho as <- <- _. split; [|done].
      pose proof (open_shards_post (per_shard_map_sizes (lb_map_size_bytes lmdb) (Z.to_nat n)) (per_shard_max_entries max (Z.to_nat n)) (lb_sync lmdb) 0 w3) as Hp3.
      unfold post in Hp3. rewrite Hs, length_map_sizes, length_caps in Hp3. destruct Hp3 as [_ Hp3]; [done|lia|]. destruct (Hp3 _ eq_refl) as [Hl _]. unfold zlen. lia. }
  assert (laid_out lmdb k {| lc_shards := shards; lc_total_map_size_bytes := 0; lc_total_max_entries := max; lc_policy := policy_of lmdb |}) as Hl.
  { split; cbn; rewrite Hlen; [|done]. intros m Hm. unfold n, resolve_effective_shard_count. by rewrite Hm. }
  assert (k = kind /\ h_backend h = MkLmdbBackend shards (sum_of (sh_map_size_bytes <$> shards)) max (policy_of lmdb)) as [-> ->].
  { unfold policy_of. destruct (lb_sync lmdb), (lb_sync_interval lmdb), spawned; try done; by injection H as <- <- _. }
  done.
Qed.

Lemma open_path_fits spawned max lmdb w kind h w' : open_path spawned max lmdb w = (Ok (kind, h), w') ->
  lc_total_max_entries (h_backend h) = max /\ lc_policy (h_backend h) = policy_of lmdb /\ laid_out lmdb kind (h_backend h).
Proof.
  intros H. apply bind_inv in H as ([] & w1 & _ & H). apply bind_inv in H as ([] & w2 & _ & H). unfold in_path, zoom in H.
  destruct (open_files _ _ _ _) as [r w3] eqn:E. injection H as -> _. by apply open_files_fits in E.
Qed.

Lemma from_config_fits spawned cfg w b w' : valid cfg -> from_config spawned cfg w = (Ok b, w') -> works cfg b /\ policed cfg b /\ limit b = ci_max_entries cfg.
Proof.
  intros [Hmax _] H. unfold from_config in H. destruct (ci_backend_type cfg) eqn:Ht; [|apply bind_inv in H as ([kind h] & w1 & Ho & H)|done]; injection H as <- _; cbn.
  - split_and!; [done|apply from_config_wf|by right|done|done].
  - unfold lmdb_open in Ho. destruct (ci_lmdb cfg) as [l|] eqn:El; [|done]. apply open_path_fits in Ho as (? & Hp & ?). rewrite Hp. split_and!; [done|by exists l|done|done].
Qed.

Lemma shard_reopen_fits spawned cfg w b operator staging w' : ci_backend_type cfg = BackendLmdb ->
  open_for_shard_reopen spawned cfg w = (Ok (b, operator, staging), w') ->
  works cfg (StoreLmdb b.1 b.2) /\ policed cfg (StoreLmdb b.1 b.2) /\ limit (StoreLmdb b.1 b.2) = ci_max_entries cfg.
Proof.
  intros Ht H. unfold open_for_shard_reopen in H. destruct (ci_lmdb cfg) as [l|] eqn:El; [|done].
  apply bind_inv in H as (d & w1 & _ & H). apply bind_inv in H as ([] & w2 & _ & H). apply bind_inv in H as ([] & w3 & _ & H).
  apply bind_inv in H as ([kind h] & w4 & Ho & H). injection H as <- _ _ _. apply open_path_fits in Ho as (? & Hp & ?).
  cbn. rewrite El, Hp. split_and!; [done|by exists l|done|done].
Qed.

(** Opening does not panic. *)
Lemma calls_open_path spawned max lmdb : calls (open_path spawned max lmdb).
Proof. unfold open_path, create_dir_all, remove_stale_reopen_staging, in_path. calls. Qed.
Lemma calls_from_config spawned cfg : valid cfg -> calls (from_config spawned cfg).
Proof. intros [_ H]. pose proof calls_open_path. unfold from_config, lmdb_open. destruct (ci_backend_type cfg); [calls|calls|done]. Qed.
Lemma calls_shard_reopen spawned cfg : calls (open_for_shard_reopen spawned cfg).
Proof. pose proof calls_open_path. unfold open_for_shard_reopen, remove_dir_all, create_dir_all. calls. Qed.

(** *** Hot changes *)

Definition opening (step : ApplyStep) : bool := match step with OpenReplacement | OpenShardLayout | OpenNew => true | _ => false end.

(** No panic, and no rejection but by phase 2. *)
Definition late {A} (r : result A ApplyStop) : Prop :=
  match r with Ok _ => True | Err (Rejects _ step _) => opening step = false | Err ApplyPanics => False end.

Section Hot.
Context (iter : Shard -> list (CacheKey * CacheEntry)) (iter_env : gmap CacheKey (list Z) -> list (CacheKey * list Z)).
Context (used : Env -> Z) (now : Z) (spawned joined : string -> bool).
Context (iter_perm : forall s, iter s ≡ₚ map_to_list s) (iter_env_perm : forall m, iter_env m ≡ₚ map_to_list m).

Lemma rejecting_post {S A} name step (op : L S A) w Q : calls op ->
  post w op (fun r w' => (forall a, r = Ok a -> Q (Ok a) w') /\ forall e, Q (Err (Rejects name step e)) w') -> post w (rejecting name step op) Q.
Proof. intros Hc H. specialize (Hc w). unfold post, rejecting in *. destruct (op w) as [[a|[e|]] w']; cbn in *; [by apply H|by apply H|done]. Qed.

(** The store after the mode and the policy were applied. *)
Lemma hot_lmdb_post name l w : post w (hot_lmdb spawned joined name l) (fun r w' =>
  unmoved (h_backend (wo_state w)) (h_backend (wo_state w')) /\ lc_total_max_entries (h_backend (wo_state w')) = lc_total_max_entries (h_backend (wo_state w)) /\
  late r /\ (r = Ok tt -> lc_policy (h_backend (wo_state w')) = policy_of l)).
Proof.
  unfold hot_lmdb. apply post_bind. unfold post at 1. cbn [look fst snd]. apply post_bind. unfold post at 1. cbn [store fst snd].
  set (w1 := MkWorld _ _ _ _ _). unfold post, rejecting. destruct (settles_sync _ (spawned name) (joined name) (lb_sync l) (lb_sync_interval l) w1 eq_refl) as [(E & M & F & N) P].
  pose proof (sync_accepted (spawned name) (joined name) (lb_sync l) (lb_sync_interval l) w1) as Ha.
  destruct (apply_sync_config _ _ _ _ w1) as [r w2]. cbn in *. split_and!; [done|done|by destruct r as [|[]]|].
  intros Hr. destruct r as [[]|[]]; try done. destruct (Ha w2 eq_refl) as [A1 A2]. destruct (lc_policy (h_backend (wo_state w2))). cbn in *. unfold policy_of. by subst.
Qed.

Lemma fewer_length b b' : fewer b b' -> length (lc_shards b') = length (lc_shards b).
Proof. intros H. apply Forall2_length in H. unfold envs in H. by rewrite !length_fmap in H. Qed.

(** A change of the size of the map. *)
Lemma resize_post name step (op : L LmdbCacheBackend unit) (R : LmdbCacheBackend -> LmdbCacheBackend -> Prop) w :
  opening step = false -> (forall n, within n op) -> (forall w, R (wo_state w) (wo_state (op w).2)) ->
  post w (rejecting name step (on_backend op)) (fun r w' => stays (h_backend (wo_state w)) (h_backend (wo_state w')) /\
    R (h_backend (wo_state w)) (h_backend (wo_state w')) /\ late r).
Proof.
  intros Ho Hw Hf. unfold post, rejecting, on_backend. set (w0 := MkWorld _ _ _ _ _). specialize (Hf w0). destruct (Hw _ w0 eq_refl) as [S1 E1].
  destruct (op w0) as [[[]|[]] w1]; cbn in *; [done|done|]. done.
Qed.

(** An operation on the handle of an instance, seen from the instance. *)
Lemma on_handle_post {A} (op : Rc LmdbHandle A) w kind h Q : ir_backend (wo_state w) = StoreLmdb kind h ->
  post (MkWorld h (wo_gets w) (wo_faults w) (wo_reads w) (wo_evictions w)) op (fun r w' =>
    Q (match r with Ok a => Ok (Some a) | Err e => Err e end)
      (MkWorld (set_backend (StoreLmdb kind (wo_state w')) (wo_state w)) (wo_gets w') (wo_faults w') (wo_reads w') (wo_evictions w'))) ->
  post w (on_handle op) Q.
Proof. intros Hb H. unfold post, on_handle, zoom, bind, ret in *. rewrite Hb. cbn. by destruct (op _) as [[a|e] w']. Qed.

Lemma hot_map_size_post name l w kind h : ir_backend (wo_state w) = StoreLmdb kind h -> ir_rebuilding (wo_state w) = false ->
  post w (hot_map_size iter_env used name l) (fun r w' => late r /\
    exists h', wo_state w' = set_backend (StoreLmdb kind h') (wo_state w) /\ stays (h_backend h) (h_backend h') /\ fewer (h_backend h) (h_backend h') /\
      (lc_total_map_size_bytes (h_backend h) <= lb_map_size_bytes l -> envs (h_backend h') = envs (h_backend h))).
Proof.
  intros Hb Hr. unfold hot_map_size. apply post_bind. unfold post at 1. cbn [look fst snd]. rewrite Hb. destruct (_ <? _); [|destruct (Z.ltb_spec (lb_map_size_bytes l) (lc_total_map_size_bytes (h_backend h)))].
  - apply post_bind, (on_handle_post _ _ kind h); [done|]. eapply post_mono.
    { apply (resize_post _ _ _ (fun b b' => envs b' = envs b)); [done|intros n; apply within_grow|]. intros w1. unfold grow_map_size, bind, get_state. cbn.
      case_match; [done|]. apply (resize_total_post _ w1). }
    intros [[]|e] w1 (S1 & F1 & E1); [apply post_ret; split; [done|]|split; [done|]]; exists (wo_state w1); split_and!; try done; by apply fewer_refl.
  - apply post_bind. unfold post at 1. cbn [store fst snd]. apply post_bind, post_catch, (on_handle_post _ _ kind h); [done|]. eapply post_mono.
    { apply (resize_post _ _ _ fewer); [done|intros n; apply within_shrink|]. intros w1. apply (shrink_post iter_env used iter_env_perm _ w1). }
    intros r w1 (S1 & F1 & E1). apply post_bind. unfold post at 1. cbn [look fst snd]. apply post_bind. unfold post at 1. cbn [store fst snd].
    destruct r as [[]|e]; unfold post; cbn; (split; [done|]); exists (wo_state w1); (split_and!; [|done|done|lia]); destruct (wo_state w); cbn in *; by subst.
  - apply post_ret. split; [done|]. exists h. split_and!; [|done|by apply fewer_refl|done]. destruct (wo_state w). cbn in *. by subst.
Qed.

(** Nothing is lost unless the limit changed or the map shrank. *)
Definition spared (cfg : CompiledCacheInstance) (b b' : CacheBackend) : Prop :=
  match b, b' with
  | StoreMemory m, StoreMemory m' => max_entries m = ci_max_entries cfg -> m' = m
  | StoreLmdb _ h, StoreLmdb _ h' => forall l, ci_lmdb cfg = Some l -> lc_total_map_size_bytes (h_backend h) <= lb_map_size_bytes l ->
      envs (h_backend h') = envs (h_backend h)
  | _, _ => False
  end.

(** What every instance keeps through phase 2. *)
Definition hot_kept (i i' : CacheInstanceRuntime) : Prop :=
  kept (ir_backend i) (ir_backend i') /\ ir_inflight i' = ir_inflight i /\ ir_next_reap_shard i' = ir_next_reap_shard i /\ ir_rebuilding i' = ir_rebuilding i.

#[global] Instance hot_kept_preorder : PreOrder hot_kept.
Proof. split; [intros i; split_and!; done|]. intros a b c (?&?&?&?) (?&?&?&?). split_and!; [by etrans|congruence..]. Qed.

Lemma set_caps_envs_max max b : envs (lmdb_set_max_entries max b) = envs b.
Proof. unfold envs, lmdb_set_max_entries. cbn. apply set_caps_envs. by rewrite length_caps. Qed.

(** The limit is applied if it is new. *)
Lemma max_step (prev : option Z) cur max i : 0 <= max -> works cur (ir_backend i) ->
  let i1 := if bool_decide (prev = Some max) then i else apply_max_entries iter now max i in
  hot_kept i i1 /\ works cur (ir_backend i1) /\ (ir_config i1 = ir_config i \/ ir_config i1 = with_max_entries (ir_config i) max) /\
  limit (ir_backend i1) = (if bool_decide (prev = Some max) then limit (ir_backend i) else max) /\
  match ir_backend i, ir_backend i1 with
  | StoreMemory m, StoreMemory m1 => max_entries m = max -> m1 = m
  | StoreLmdb _ h, StoreLmdb _ h1 => unmoved (h_backend h) (h_backend h1)
  | _, _ => False
  end.
Proof.
  intros Hmax Hf. cbv zeta. case_bool_decide as E; [split_and!; [done|done|by left|done|by destruct (ir_backend i)]|].
  assert (ir_backend (apply_max_entries iter now max i) = backend_set_max iter now (ir_backend i) max /\ ir_inflight (apply_max_entries iter now max i) = ir_inflight i /\
    ir_next_reap_shard (apply_max_entries iter now max i) = ir_next_reap_shard i /\ ir_rebuilding (apply_max_entries iter now max i) = ir_rebuilding i /\
    (ir_config (apply_max_entries iter now max i) = ir_config i \/ ir_config (apply_max_entries iter now max i) = with_max_entries (ir_config i) max)) as (Hb & K1 & K2 & K3 & K4)
    by (unfold apply_max_entries; case_match; split_and!; auto).
  unfold hot_kept. rewrite Hb. destruct (ir_backend i) as [m|kind h]; cbn in Hf |- *.
  - destruct Hf as (Ht & Hwf & Hcap). unfold memory_set_max. destruct (set_max_spec hash iter iter_perm m max now Hwf Hcap Hmax) as (m' & Hset & ? & ? & ? & _ & ? & _).
    rewrite Hset. cbn. split_and!; try done. intros Hm. unfold set_max_entries in Hset. rewrite Hm, Z.ltb_irrefl in Hset. cbn [orb] in Hset.
    destruct m as [sc me le sh]. cbn in *. subst me. destruct (Z.eqb_spec max 0) as [->|]; cbn in Hset; [by injection Hset as <-|]. rewrite andb_false_r in Hset. by injection Hset as <-.
  - destruct Hf as (Ht & l & Hl & Hs). pose proof (set_caps_envs_max max (h_backend h)) as He. split_and!; try done; [by apply fewer_refl|].
    exists l. split; [done|]. unfold laid_out, zlen in *. by rewrite (fewer_length _ _ (fewer_refl _ _ He)).
Qed.

Lemma reopen_not_needed cfg l kind h : ci_lmdb cfg = Some l -> (kind = KindLegacy -> zlen (lc_shards (h_backend h)) = 1) ->
  lmdb_explicit_shard_reopen_needed cfg (StoreLmdb kind h) = false -> laid_out l kind (h_backend h).
Proof.
  intros Hl Hk. unfold lmdb_explicit_shard_reopen_needed. rewrite Hl. intros H. split; [|done]. intros n Hn. rewrite Hn in H.
  destruct kind; apply negb_false_iff, Z.eqb_eq in H; [rewrite (Hk eq_refl)|]; done.
Qed.

(** A cache that stays where it is: it is changed in place. *)
Definition in_place (cfg : CompiledCacheInstance) (i : CacheInstanceRuntime) : Prop :=
  ci_backend_type (ir_config i) = ci_backend_type cfg /\ lmdb_path (ir_config i) = lmdb_path cfg /\ lmdb_explicit_shard_reopen_needed cfg (ir_backend i) = false.

(** The settings of a store that was changed in place: the limit is the new one, or the old one if
    the configuration before had the new one already. *)
Definition retuned (prev : option CompiledCacheInstance) (cfg : CompiledCacheInstance) (b b' : CacheBackend) : Prop :=
  works cfg b' /\ policed cfg b' /\
  limit b' = if bool_decide (ci_max_entries <$> prev = Some (ci_max_entries cfg)) then limit b else ci_max_entries cfg.

Lemma works_config cfg cfg' b : ci_backend_type cfg' = ci_backend_type cfg -> ci_lmdb cfg' = ci_lmdb cfg -> works cfg b -> works cfg' b.
Proof. intros Ht Hl. destruct b; cbn; by rewrite Ht, ?Hl. Qed.

Lemma works_unmoved cfg kind h h' : length (lc_shards (h_backend h')) = length (lc_shards (h_backend h)) -> works cfg (StoreLmdb kind h) -> works cfg (StoreLmdb kind h').
Proof. intros He (Ht & l & Hl & Hs). split; [done|]. exists l. split; [done|]. unfold laid_out, zlen in *. by rewrite He. Qed.

Lemma hot_instance_post prev name cfg w : let i := wo_state w in works (ir_config i) (ir_backend i) -> ir_rebuilding i = false -> valid cfg -> in_place cfg i ->
  post w (hot_instance iter iter_env used now spawned joined prev name cfg) (fun r w' =>
    late r /\ hot_kept i (wo_state w') /\ spared cfg (ir_backend i) (ir_backend (wo_state w')) /\ works (ir_config (wo_state w')) (ir_backend (wo_state w')) /\
    (r = Ok tt -> ir_config (wo_state w') = cfg /\ retuned prev cfg (ir_backend i) (ir_backend (wo_state w')))).
Proof.
  intros i Hf Hr [Hmax _] (Ht & Hp & Hn). unfold hot_instance. apply post_bind. unfold post at 1. cbn [look fst snd]. fold i. apply post_bind.
  destruct (max_step (ci_max_entries <$> prev) (ir_config i) (ci_max_entries cfg) i Hmax Hf) as (Hk & Hf1 & Hc1 & Hl1 & Hsp). set (i1 := if bool_decide _ then i else _) in *.
  assert (forall Q, post (MkWorld i1 (wo_gets w) (wo_faults w) (wo_reads w) (wo_evictions w)) (ret (E := ApplyStop) tt) Q ->
    post w (if bool_decide (ci_max_entries <$> prev = Some (ci_max_entries cfg)) then ret (E := ApplyStop) tt else store (apply_max_entries iter now (ci_max_entries cfg) i)) Q) as Hstep.
  { intros Q. unfold i1. case_bool_decide; [|done]. unfold i. by destruct w. }
  apply Hstep, post_ret. clear Hstep. clearbody i1. apply post_bind. unfold post at 1. cbn [look fst snd wo_state]. apply post_bind. destruct Hk as (K & K2 & K3 & K4).
  assert (forall b, works (ir_config i) b -> works (ir_config i1) b) as Hw1 by (intros b; apply works_config; by destruct Hc1 as [->| ->]).
  unfold retuned. destruct (ir_backend i1) as [m|kind h] eqn:Eb.
  - apply post_ret. apply post_bind. unfold post. cbn. assert (hot_kept i i1) as KK by (split_and!; by rewrite ?Eb). rewrite Eb.
    assert (works cfg (StoreMemory m)) as Hw by (cbn in Hf1 |- *; by rewrite <-Ht).
    split; [done|]. split; [exact KK|]. split; [by destruct (ir_backend i)|]. split; [exact Hw|]. intros _. by split_and!.
  - destruct (ir_backend i) as [|kind0 h0] eqn:Ei; [done|]. destruct K as [-> K], Hsp as [V1 V2]. pose proof Hf1 as (Ht1 & l0 & Hl0 & Hs0).
    unfold lmdb_path in Hp. rewrite Hl0 in Hp. destruct (ci_lmdb cfg) as [l|] eqn:El; [|done].
    apply post_bind, (on_handle_post _ _ kind0 h); [done|]. eapply post_mono; [apply hot_lmdb_post|]. intros r w1 ([E1 Z1] & M1 & P1 & A1). cbn in E1, Z1, M1.
    assert (fewer (h_backend h0) (h_backend (wo_state w1))) as K1 by (eapply fewer_trans; [exact K|by apply fewer_refl]).
    pose proof (fewer_length _ _ (fewer_refl _ _ E1)) as Len1. destruct r as [[]|e]; cbn -[post works]; cycle 1.
    { split_and!; [done|split_and!; rewrite ?Ei; done|cbn; congruence|apply Hw1; by eapply works_unmoved|done]. }
    eapply post_mono; [apply (hot_map_size_post _ _ _ kind0 (wo_state w1)); [done|cbn; congruence]|].
    intros r w2 (P2 & h2 & E2 & (S1 & S2 & S3) & F2 & G2). cbn in E2, S1, S2, S3, F2, G2.
    assert (hot_kept i (wo_state w2) /\ spared cfg (StoreLmdb kind0 h0) (ir_backend (wo_state w2))) as [KK SS].
    { rewrite E2. split; [split_and!; rewrite ?Ei; try done; split; [done|by eapply fewer_trans]|]. cbn. intros l' Hl' Hz. rewrite El in Hl'. injection Hl' as <-.
      rewrite G2; congruence. }
    destruct r as [[]|e]; [|split_and!; try done; rewrite E2; apply Hw1; eapply works_unmoved; [|exact Hf1]; cbn; congruence].
    assert (laid_out l kind0 (h_backend h2)) as Hlay.
    { apply (reopen_not_needed cfg); [done| |].
      + intros Hk. unfold zlen. rewrite S3, Len1. by apply Hs0.
      + unfold lmdb_explicit_shard_reopen_needed, zlen in *. rewrite El in Hn |- *. by rewrite S3, (fewer_length _ _ K1). }
    apply post_bind. unfold post. cbn -[works policed limit]. rewrite E2. cbn -[works policed limit].
    assert (works cfg (StoreLmdb kind0 h2)) as Hw by (split; [congruence|by exists l]). rewrite E2 in KK, SS. split_and!; [done|exact KK|exact SS|done|]. intros _.
    split_and!; [done|done|cbn; rewrite El; cbn; by rewrite S1, A1|]. cbn in Hl1 |- *. congruence.
Qed.

(** *** The phases *)

(** The store opened for a name. *)
Definition prepared (m : gmap string CacheInstanceRuntime) (name : string) (cfg : CompiledCacheInstance) (p : PendingBackendOpen) : Prop :=
  pending_config p = cfg /\ (works cfg (pending_backend p) /\ policed cfg (pending_backend p) /\ limit (pending_backend p) = ci_max_entries cfg) /\
  match p with ShardReopen _ _ _ _ => is_Some (m !! name) | Replace _ _ => True end.

Lemma opened_post {A} name step (op : L Disk A) (k : A -> Rc Caches (option PendingBackendOpen)) w Q : calls op ->
  (forall e w', ca_instances (wo_state w') = ca_instances (wo_state w) -> Q (Err (Rejects name step e)) w') ->
  (forall a d d' w', ca_instances (wo_state w') = ca_instances (wo_state w) -> op d = (Ok a, d') -> post w' (k a) Q) ->
  post w (bind (rejecting name step (on_disk op)) k) Q.
Proof.
  intros Hc He Hk. apply post_bind, rejecting_post; [by apply calls_zoom|]. unfold post at 1, on_disk, zoom. set (d := MkWorld _ _ _ _ _).
  destruct (op d) as [r d'] eqn:E. cbn. split; [|intros e; by apply He]. intros a ->. by eapply Hk.
Qed.

Lemma preflight_one_post name cfg w : let m := ca_instances (wo_state w) in valid cfg ->
  (forall i, m !! name = Some i -> works (ir_config i) (ir_backend i)) ->
  post w (preflight_one spawned name cfg) (fun r w' => ca_instances (wo_state w') = m /\
    match r with
    | Ok None => exists i, m !! name = Some i /\ in_place cfg i
    | Ok (Some p) => prepared m name cfg p /\ (forall i, m !! name = Some i -> ~ in_place cfg i)
    | Err (Rejects _ step _) => opening step = true
    | Err ApplyPanics => False
    end).
Proof.
  intros m Hv Hfit. unfold preflight_one. apply post_bind. unfold post at 1. cbn [look fst snd]. fold m. destruct (m !! name) as [i|] eqn:Ei; cycle 1.
  { apply opened_post; [by apply calls_from_config|done|]. intros b d d' w' Hw Hop. apply post_ret. split; [done|]. apply from_config_fits in Hop; [|done]. by split. }
  cbn zeta. case_bool_decide as Et; [case_bool_decide as Ep; [destruct (lmdb_explicit_shard_reopen_needed cfg (ir_backend i)) eqn:En|]|]; cbn [negb orb].
  - apply opened_post; [apply calls_shard_reopen|done|]. intros [[b o] st] d d' w' Hw Hop. apply post_ret. split; [done|]. apply shard_reopen_fits in Hop.
    + split; [split; [done|]; split; [exact Hop|by exists i]|]. intros i' [= <-] (_ & _ & ?). congruence.
    + unfold lmdb_explicit_shard_reopen_needed in En. destruct (ci_lmdb cfg) as [l|]; [|done]. destruct (lb_shard_count l); [|done].
      specialize (Hfit _ eq_refl). destruct (ir_backend i); [done|]. rewrite <-Et. apply Hfit.
  - apply post_ret. split; [done|]. by exists i.
  - apply opened_post; [by apply calls_from_config|done|]. intros b d d' w' Hw Hop. apply post_ret. split; [done|]. apply from_config_fits in Hop; [|done]. split; [done|].
    intros i' [= <-] (_ & ? & _). done.
  - apply opened_post; [by apply calls_from_config|done|]. intros b d d' w' Hw Hop. apply post_ret. split; [done|]. apply from_config_fits in Hop; [|done]. split; [done|].
    intros i' [= <-] (? & _). done.
Qed.

(** What is known of the stores that were opened before anything changed. *)
Definition preflighted (m : gmap string CacheInstanceRuntime) (new : list (string * CompiledCacheInstance)) (ps : list (string * PendingBackendOpen)) : Prop :=
  NoDup ps.*1 /\ (forall name p, (name, p) ∈ ps -> exists cfg, (name, cfg) ∈ new /\ prepared m name cfg p /\ forall i, m !! name = Some i -> ~ in_place cfg i) /\
  forall name cfg, (name, cfg) ∈ new -> name ∈ ps.*1 \/ exists i, m !! name = Some i /\ in_place cfg i.

Lemma preflight_post new w : let m := ca_instances (wo_state w) in NoDup new.*1 -> Forall (fun nc => valid nc.2) new ->
  (forall name i, m !! name = Some i -> works (ir_config i) (ir_backend i)) ->
  post w (preflight spawned new) (fun r w' => ca_instances (wo_state w') = m /\
    match r with Ok ps => preflighted m new ps | Err (Rejects _ step _) => opening step = true | Err ApplyPanics => False end).
Proof.
  intros m Hn Hv Hfit. subst m. revert w Hfit. induction new as [|[name cfg] new IH]; intros w Hfit.
  { apply post_ret. split; [done|]. split_and!; [apply NoDup_nil_2| |]; [intros ? ? H|intros ? ? H]; by apply elem_of_nil in H. }
  cbn in Hn. apply NoDup_cons in Hn as [Hnot Hn]. apply Forall_cons in Hv as [Hv Hvs]. cbn [preflight]. apply post_bind.
  eapply post_mono; [by apply preflight_one_post; [|intros; eapply Hfit]|]. intros [p|[]] w1 [E1 Hp]; [|by split..]. apply post_bind.
  eapply post_mono; [apply (IH Hn Hvs w1); rewrite E1; exact Hfit|]. rewrite E1. intros [ps|[]] w2 [E2 Hps]; [|by split..]. apply post_ret. split; [by rewrite E2|].
  destruct Hps as (P1 & P2 & P3). assert (forall x p, (x, p) ∈ ps -> x <> name) as Hfresh.
  { intros x q Hq ->. destruct (P2 _ _ Hq) as (c & Hc & _). apply Hnot. apply list_elem_of_fmap. by exists (name, c). }
  destruct p as [p|]; cbn.
  - destruct Hp as [Hp Hin]. split_and!.
    + apply NoDup_cons. split; [|done]. intros ([x q] & E & Hq)%list_elem_of_fmap. cbn in E. by eapply Hfresh.
    + intros x q [[= -> ->]|Hq]%elem_of_cons; [exists cfg; split; [by left|done]|]. destruct (P2 x q Hq) as (c & ? & ?). exists c. split; [by right|done].
    + intros x c [[= -> ->]|Hc]%elem_of_cons; [left; by left|]. destruct (P3 x c Hc) as [?|?]; [left; by right|by right].
  - split_and!; [done| |].
    + intros x q Hq. destruct (P2 x q Hq) as (c & ? & ?). exists c. split; [by right|done].
    + intros x c [[= -> ->]|Hc]%elem_of_cons; [by right|by apply P3].
Qed.

(** An instance changed in place, as far as the loop got. *)
Definition hot_done {A} (prev : gmap string CompiledCacheInstance) (m m' : gmap string CacheInstanceRuntime) (r : result A ApplyStop) (name : string) (cfg : CompiledCacheInstance) : Prop :=
  exists i i', m !! name = Some i /\ m' !! name = Some i' /\ hot_kept i i' /\ spared cfg (ir_backend i) (ir_backend i') /\
    works (ir_config i') (ir_backend i') /\ ((exists a, r = Ok a) -> ir_config i' = cfg /\ retuned (prev !! name) cfg (ir_backend i) (ir_backend i')).

Lemma spared_refl cfg b : spared cfg b b.
Proof. by destruct b. Qed.

Definition hot_ready (m : gmap string CacheInstanceRuntime) (name : string) (cfg : CompiledCacheInstance) : Prop :=
  exists i, m !! name = Some i /\ in_place cfg i /\ works (ir_config i) (ir_backend i) /\ ir_rebuilding i = false.

Lemma on_instance_post name cfg prev w : let m := ca_instances (wo_state w) in hot_ready m name cfg -> valid cfg ->
  post w (on_instance name (hot_instance iter iter_env used now spawned joined (prev !! name) name cfg)) (fun r w' =>
    late r /\ (forall x, x <> name -> ca_instances (wo_state w') !! x = m !! x) /\ hot_done prev m (ca_instances (wo_state w')) r name cfg).
Proof.
  intros m (i & Hi & Hin & Hf & Hr) Hv. unfold post, on_instance. fold m. rewrite Hi. unfold zoom, bind, ret. set (w0 := MkWorld i _ _ _ _).
  destruct (hot_instance_post (prev !! name) name cfg w0 Hf Hr Hv Hin) as (L1 & K1 & S1 & W1 & F1). destruct (hot_instance _ _ _ _ _ _ _ _ _ w0) as [[[]|e] w1]; cbn in *.
  - split_and!; [done|intros x Hx; by rewrite lookup_insert_ne|]. exists i, (wo_state w1). split_and!; [done|by rewrite lookup_insert_eq|done..|]. intros _. by apply F1.
  - split_and!; [done|intros x Hx; by rewrite lookup_insert_ne|]. exists i, (wo_state w1). split_and!; [done|by rewrite lookup_insert_eq|done..|]. by intros [? [=]].
Qed.

Lemma hot_post prev pending new w : let m := ca_instances (wo_state w) in NoDup new.*1 -> Forall (fun nc => valid nc.2) new ->
  (forall name cfg, (name, cfg) ∈ new -> name ∉ pending.*1 -> hot_ready m name cfg) ->
  post w (hot iter iter_env used now spawned joined prev pending new) (fun r w' => late r /\
    (forall x, x ∉ new.*1 \/ x ∈ pending.*1 -> ca_instances (wo_state w') !! x = m !! x) /\
    forall name cfg, (name, cfg) ∈ new -> name ∉ pending.*1 -> hot_done prev m (ca_instances (wo_state w')) r name cfg).
Proof.
  intros m Hn Hv Hready. subst m. revert w Hready. induction new as [|[name cfg] new IH]; intros w Hready.
  { apply post_ret. split_and!; [done|done|]. intros ? ? H. by apply elem_of_nil in H. }
  cbn in Hn. apply NoDup_cons in Hn as [Hnot Hn]. apply Forall_cons in Hv as [Hv Hvs]. cbn [hot]. apply post_bind.
  assert (forall x c, (x, c) ∈ new -> x <> name) as Hne by (intros x c Hc ->; apply Hnot, list_elem_of_fmap; by exists (name, c)).
  case_bool_decide as Hpend.
  { apply post_ret. eapply post_mono; [apply IH; [done|done|]; intros x c Hc; apply Hready; by right|]. intros r w' (L1 & O1 & D1). split_and!; [done| |].
    - intros x Hx. apply O1. destruct Hx as [Hx|?]; [left|by right]. intros H. apply Hx. by right.
    - intros x c [[= -> ->]|Hc]%elem_of_cons; [done|by apply D1]. }
  eapply post_mono; [apply on_instance_post; [apply Hready; [by left|done]|done]|]. intros [[]|e] w1 (L1 & O1 & D1); cycle 1.
  { split_and!; [done| |].
    - intros x [Hx|Hx]; apply O1; intros ->; [apply Hx; by left|done].
    - intros x c [[= -> ->]|Hc]%elem_of_cons Hx; [done|]. destruct (Hready x c) as (i & Hi & _); [by right|done|]. exists i, i. rewrite O1 by by eapply Hne.
      split_and!; [done..|apply spared_refl|by destruct (Hready x c) as (i0 & Hi0 & _ & ? & _); [by right|done|]; simplify_eq|]. by intros [? [=]]. }
  eapply post_mono; [apply (IH Hn Hvs w1)|].
  { intros x c Hc Hx. unfold hot_ready. rewrite O1 by by eapply Hne. apply Hready; [by right|done]. }
  intros r w2 (L2 & O2 & D2). split_and!; [done| |].
  - intros x Hx. rewrite O2 by (destruct Hx as [Hx|?]; [left; intros H; apply Hx; by right|by right]). apply O1. intros ->. destruct Hx as [Hx|?]; [apply Hx; by left|done].
  - intros x c [[= -> ->]|Hc]%elem_of_cons Hx.
    + destruct D1 as (i & i' & ? & ? & ? & ? & ? & F). exists i, i'. rewrite O2 by by left. split_and!; [done..|]. intros _. apply F. by eexists.
    + destruct (D2 x c Hc Hx) as (i & i' & Hi & ?). exists i, i'. rewrite O1 in Hi by by eapply Hne. done.
Qed.

(** Every preflighted store takes its place. *)
Definition committed (m m' : gmap string CacheInstanceRuntime) (name : string) (p : PendingBackendOpen) : Prop :=
  exists i', m' !! name = Some i' /\ ir_config i' = pending_config p /\ ir_backend i' = pending_backend p /\
    match m !! name with Some i => ir_inflight i' = ir_inflight i /\ ir_rebuilding i' = ir_rebuilding i | None => ir_rebuilding i' = false end.

Lemma commit_one_post name p w : let m := ca_instances (wo_state w) in match p with ShardReopen _ _ _ _ => is_Some (m !! name) | Replace _ _ => True end ->
  post w (commit_one name p) (fun r w' => r = Ok tt /\ (forall x, x <> name -> ca_instances (wo_state w') !! x = m !! x) /\ committed m (ca_instances (wo_state w')) name p).
Proof.
  intros m Hp. unfold commit_one. apply post_bind. unfold post at 1. cbn [look fst snd]. fold m.
  assert (forall i' k, ir_config i' = pending_config p -> ir_backend i' = pending_backend p ->
    match m !! name with Some i => ir_inflight i' = ir_inflight i /\ ir_rebuilding i' = ir_rebuilding i | None => ir_rebuilding i' = false end ->
    k = <[name := i']> m -> (forall x, x <> name -> k !! x = m !! x) /\ committed m k name p) as Hput.
  { intros i' k Hc Hb Hi ->. split; [intros x Hx; by rewrite lookup_insert_ne|]. exists i'. by rewrite lookup_insert_eq. }
  destruct p as [b cfg|b cfg operator staging]; cbn in Hput.
  - destruct (m !! name) as [i|] eqn:Ei; unfold post; cbn; (split; [done|]); (eapply Hput; [| | |reflexivity]); done.
  - destruct Hp as [i Hi]. rewrite Hi in Hput |- *. apply post_bind. unfold post at 1. cbn. destruct b as [b|kind h].
    + apply post_ret. split; [done|]. by eapply Hput; [| | |reflexivity].
    + apply post_bind, post_catch. unfold post at 1. unfold rejecting, on_disk, zoom. destruct (finalize_shard_reopen _ _ _) as [r d']. cbn. split; [done|]. by eapply Hput; [| | |reflexivity].
Qed.

Lemma commit_pending_post ps w : let m := ca_instances (wo_state w) in NoDup ps.*1 ->
  (forall name p, (name, p) ∈ ps -> match p with ShardReopen _ _ _ _ => is_Some (m !! name) | Replace _ _ => True end) ->
  post w (commit_pending ps) (fun r w' => r = Ok tt /\ (forall x, x ∉ ps.*1 -> ca_instances (wo_state w') !! x = m !! x) /\
    forall name p, (name, p) ∈ ps -> committed m (ca_instances (wo_state w')) name p).
Proof.
  intros m Hn Hp. subst m. revert w Hp. induction ps as [|[name p] ps IH]; intros w Hp.
  { apply post_ret. split_and!; [done|done|]. intros ? ? H. by apply elem_of_nil in H. }
  cbn in Hn. apply NoDup_cons in Hn as [Hnot Hn]. cbn [commit_pending]. apply post_bind. eapply post_mono; [apply commit_one_post, Hp; by left|]. intros r w1 (-> & O1 & C1).
  assert (forall x q, (x, q) ∈ ps -> x <> name) as Hne by (intros x c Hc ->; apply Hnot, list_elem_of_fmap; by exists (name, c)).
  eapply post_mono; [apply (IH Hn w1)|].
  { intros x q Hq. rewrite O1 by by eapply Hne. apply Hp. by right. }
  intros r w2 (-> & O2 & C2). split_and!; [done| |].
  - intros x Hx. rewrite O2 by (intros H; apply Hx; by right). apply O1. intros ->. apply Hx. by left.
  - intros x q [[= -> ->]|Hq]%elem_of_cons.
    + destruct C1 as (i' & H1 & H2). exists i'. by rewrite O2.
    + destruct (C2 x q Hq) as (i' & H1 & H2 & H3 & H4). exists i'. split_and!; [done..|]. by rewrite O1 in H4 by by eapply Hne.
Qed.

(** *** The whole apply *)

(** Instance by instance, at most what phase 2 may do. *)
Definition serving (m m' : gmap string CacheInstanceRuntime) : Prop :=
  forall name, match m !! name, m' !! name with Some i, Some i' => hot_kept i i' | None, None => True | _, _ => False end.

(** What an accepted apply leaves under a name of the new configuration. *)
Definition applied (prev : gmap string CompiledCacheInstance) (m : gmap string CacheInstanceRuntime) (name : string) (cfg : CompiledCacheInstance) (i' : CacheInstanceRuntime) : Prop :=
  ir_config i' = cfg /\ ir_rebuilding i' = false /\ works cfg (ir_backend i') /\ policed cfg (ir_backend i') /\
  (limit (ir_backend i') = ci_max_entries cfg \/
    exists i, m !! name = Some i /\ limit (ir_backend i') = limit (ir_backend i) /\ ci_max_entries <$> prev !! name = Some (ci_max_entries cfg)) /\
  forall i, m !! name = Some i -> ir_inflight i' = ir_inflight i /\ (in_place cfg i -> kept (ir_backend i) (ir_backend i') /\ spared cfg (ir_backend i) (ir_backend i')).

Definition outcome (prev : gmap string CompiledCacheInstance) (new : list (string * CompiledCacheInstance)) (m m' : gmap string CacheInstanceRuntime) (r : result unit ApplyStop) : Prop :=
  match r with
  | Ok _ => dom m' = list_to_set new.*1 /\ forall name cfg, (name, cfg) ∈ new -> exists i', m' !! name = Some i' /\ applied prev m name cfg i'
  | Err (Rejects _ step _) => operable prev m' /\ serving m m' /\ (opening step = true -> m' = m)
  | Err ApplyPanics => False
  end.

Lemma serving_refl m : serving m m.
Proof. intros name. by destruct (m !! name). Qed.

Lemma hot_serving {A} prev m m' (new : list (string * CompiledCacheInstance)) (pending : list string) (r : result A ApplyStop) : operable prev m ->
  (forall x, x ∉ new.*1 \/ x ∈ pending -> m' !! x = m !! x) ->
  (forall name cfg, (name, cfg) ∈ new -> name ∉ pending -> hot_done prev m m' r name cfg) -> operable prev m' /\ serving m m'.
Proof.
  intros Ha O D. assert (forall name, m' !! name = m !! name \/ exists cfg, hot_done prev m m' r name cfg) as H.
  { intros name. destruct (decide (name ∈ new.*1 /\ name ∉ pending)) as [[Hn Hp]|H].
    - apply list_elem_of_fmap in Hn as ([x cfg] & -> & Hc). right. exists cfg. by apply D.
    - left. apply O. destruct (decide (name ∈ pending)); [by right|left; tauto]. }
  split; intros name; destruct (H name) as [E|(cfg & i & i' & Hi & Hi' & K & _ & W & _)].
  - rewrite E. apply Ha.
  - specialize (Ha name). rewrite Hi in Ha. rewrite Hi'. destruct (prev !! name); [|done]. split; [done|]. destruct K as (_ & _ & _ & ->). apply Ha.
  - rewrite E. by destruct (m !! name).
  - by rewrite Hi, Hi'.
Qed.

(** The instances of a name after all phases. *)
Lemma phases_done prev new pending m m1 m2 : NoDup new.*1 -> operable prev m -> preflighted m new pending ->
  (forall x, x ∉ new.*1 \/ x ∈ pending.*1 -> m1 !! x = m !! x) ->
  (forall name cfg, (name, cfg) ∈ new -> name ∉ pending.*1 -> hot_done prev m m1 (Ok tt) name cfg) ->
  (forall x, x ∉ pending.*1 -> m2 !! x = m1 !! x) -> (forall name p, (name, p) ∈ pending -> committed m1 m2 name p) ->
  forall name cfg, (name, cfg) ∈ new -> exists i', m2 !! name = Some i' /\ applied prev m name cfg i'.
Proof.
  intros Hn Ha (P1 & P2 & P3) O1 D1 O2 C2 name cfg Hc. specialize (Ha name). destruct (decide (name ∈ pending.*1)) as [Hp|Hp].
  - pose proof Hp as Hp0. apply list_elem_of_fmap in Hp as ([x p] & -> & Hp). cbn in *. destruct (C2 x p Hp) as (i' & Hi' & Hcfg & Hb & Hr).
    destruct (P2 x p Hp) as (cfg' & Hc' & (Hpc & (Hf1 & Hf2 & Hf3) & _) & Hnot). assert (cfg' = cfg) as ->
      by (apply (elem_of_list_to_map_1 (M := gmap string) new) in Hc, Hc'; [congruence|done..]).
    exists i'. rewrite O1 in Hr by by right. split; [done|]. unfold applied. rewrite Hcfg, Hb. split_and!; [done| |done|done|by left|].
    + destruct (m !! x); [|done]. destruct (prev !! x); [|done]. destruct Hr as [_ ->]. apply Ha.
    + intros i Hi. rewrite Hi in Hr. split; [apply Hr|]. intros Hin. by destruct (Hnot i Hi).
  - destruct (D1 name cfg Hc Hp) as (i & i' & Hi & Hi' & (K1 & K2 & K3 & K4) & S1 & _ & F1). destruct F1 as [F1 (F2 & F3 & F4)]; [by eexists|].
    exists i'. rewrite O2 by done. rewrite Hi in Ha. split; [done|]. split_and!; [done| |done|done| |].
    + rewrite K4. destruct (prev !! name); [|done]. apply Ha.
    + case_bool_decide; [right; by exists i|by left].
    + intros i0 H0. rewrite Hi in H0. by injection H0 as <-.
Qed.

Lemma reconcile_post order prev new w : (forall l, order l ≡ₚ l) -> NoDup new.*1 -> Forall (fun nc => valid nc.2) new -> operable prev (ca_instances (wo_state w)) ->
  post w (reconcile iter iter_env used now spawned joined order prev new) (fun r w' => outcome prev new (ca_instances (wo_state w)) (ca_instances (wo_state w')) r).
Proof.
  intros Hord Hn Hv Ha. set (m := ca_instances (wo_state w)) in *. assert (forall name i, m !! name = Some i -> works (ir_config i) (ir_backend i) /\ ir_rebuilding i = false) as Hfit.
  { intros name i Hi. specialize (Ha name). rewrite Hi in Ha. by destruct (prev !! name). }
  unfold reconcile. apply post_bind. eapply post_mono; [apply preflight_post; [done|done|]; intros; by eapply Hfit|]. fold m.
  intros [pending|[x step e|]] w1 [E1 H1]; [|rewrite E1; split_and!; [done|apply serving_refl|done]|done].
  pose proof H1 as (P1 & P2 & P3). apply post_bind. eapply post_mono; [apply hot_post; [done|done|]|].
  { intros name cfg Hc Hp. rewrite E1. destruct (P3 name cfg Hc) as [?|(i & Hi & Hin)]; [done|]. exists i. by destruct (Hfit name i Hi). }
  rewrite E1. intros [[]|[x step e|]] w2 (L2 & O2 & D2); [|edestruct (hot_serving (A := unit)) as [H3 H4]; [exact Ha|exact O2|exact D2|]; split_and!; [done..|cbn in L2; congruence]|done].
  assert (forall x, x ∈ (order pending).*1 <-> x ∈ pending.*1) as Hperm by (intros x; by rewrite Hord). apply post_bind. eapply post_mono; [apply commit_pending_post|].
  { by rewrite Hord. }
  { intros name p Hp. rewrite Hord in Hp. destruct (P2 name p Hp) as (cfg & Hc & (_ & _ & Hs) & _). rewrite O2; [done|]. right. apply list_elem_of_fmap. by exists (name, p). }
  intros r w3 (-> & O3 & C3). unfold drop_removed. apply post_bind. unfold post. cbn.
  assert (forall name cfg, (name, cfg) ∈ new -> exists i', ca_instances (wo_state w3) !! name = Some i' /\ applied prev m name cfg i') as Hall.
  { eapply (phases_done prev new pending m (ca_instances (wo_state w2))); try done.
    - intros x Hx. apply O3. by rewrite Hperm.
    - intros name p Hp. apply C3. by rewrite Hord. }
  split.
  - apply set_eq. intros name. rewrite elem_of_dom, elem_of_list_to_set. split.
    + intros [i [_ Hi]%map_lookup_filter_Some]. done.
    + intros Hin. pose proof Hin as Hin0. apply list_elem_of_fmap in Hin as ([y cfg] & -> & Hc). destruct (Hall y cfg Hc) as (i' & Hi' & _).
      exists i'. by apply map_lookup_filter_Some_2.
  - intros name cfg Hc. destruct (Hall name cfg Hc) as (i' & Hi' & Hap). exists i'. split; [|done].
    apply map_lookup_filter_Some_2; [done|]. apply list_elem_of_fmap. by exists (name, cfg).
Qed.

(** An accepted apply of caches that agreed with their configuration. *)
Lemma applied_agrees prev new m m' : NoDup new.*1 -> agrees prev m -> dom m' = list_to_set new.*1 ->
  (forall name cfg, (name, cfg) ∈ new -> exists i', m' !! name = Some i' /\ applied prev m name cfg i') -> agrees (list_to_map new) m'.
Proof.
  intros Hn Ha Hd H name. destruct (decide (name ∈ new.*1)) as [Hin|Hin].
  - apply list_elem_of_fmap in Hin as ([y cfg] & -> & Hc). cbn. destruct (H y cfg Hc) as (i' & -> & A1 & A2 & A3 & A4 & A5 & _).
    rewrite (elem_of_list_to_map_1 new y cfg) by done. split_and!; try done. destruct A5 as [?|(i & Hi & -> & Hp)]; [done|].
    specialize (Ha y). rewrite Hi in Ha. destruct (prev !! y) as [c|]; [|done]. injection Hp as <-. apply Ha.
  - rewrite (not_elem_of_list_to_map_1 new name) by done. destruct (m' !! name) eqn:E; [|done]. apply elem_of_dom_2 in E. rewrite Hd in E. by apply elem_of_list_to_set in E.
Qed.
End Hot.
End Fits.

(** An instance that was compiled is valid. *)
Lemma compiled_valid check i seen threads cfg : compile_cache_instance check i seen threads = Ok cfg -> 0 <= default 0 (Config.ca_max_entries i) -> valid cfg.
Proof.
  unfold compile_cache_instance. intros H Hmax. repeat (case_match; try done); simplify_eq/=; split; cbn; try done.
Qed.

(** ** Theorems *)


(** *** A run: two caches are made, then changed *)

Definition sample_cache (name : string) (type : CacheBackendType) (lmdb : option CompiledLmdbCache) (max : Z) : CompiledCacheInstance :=
  {| ci_name := name; ci_backend_type := type; ci_negative_cache := {| ng_enabled := true; ng_covers_descendants := false; ng_servfail_ttl_secs := 5 |};
     ci_on_hit_response_rules := HitRun; ci_truncated_udp := {| tr_udp_enabled := false; tr_ttl_secs := 5 |}; ci_rotate_rrset_on_serve := false;
     ci_memory := {| mm_shard_count := 2; mm_eviction := EvictPassive |}; ci_lmdb := lmdb; ci_max_entries := max |}.
Definition sample_lmdb (size : Z) : CompiledLmdbCache :=
  {| lb_path := "/var/cache/b"; lb_map_size_bytes := size; lb_when_full := FullEvictOne; lb_sample_size := 4; lb_sync := SyncFull;
     lb_sync_interval := None; lb_shard_count := Some 2; lb_lookup_thread_count := 1 |}.
Definition sample_new (max size : Z) : list (string * CompiledCacheInstance) :=
  [("a", sample_cache "a" BackendMemory None max); ("b", sample_cache "b" BackendLmdb (Some (sample_lmdb size)) 100)].
Definition sample_reconcile (prev : list (string * CompiledCacheInstance)) (new : list (string * CompiledCacheInstance)) : Rc Caches unit :=
  reconcile map_to_list map_to_list page_per_env 0 (fun _ => true) (fun _ => true) id (list_to_map prev) new.
Definition no_caches : World Caches := MkWorld (MkCaches ∅ ∅) [] [] 0 0.
Definition first_apply : World Caches := (sample_reconcile [] (sample_new 10 1048576) no_caches).2.

(** The limit that is enforced, and the one that is configured. *)
Definition live_max (w : World Caches) (name : string) : option (Z * Z) :=
  (fun i => (limit (ir_backend i), ci_max_entries (ir_config i)))
    <$> ca_instances (wo_state w) !! name.

Lemma sample_valid max size : 0 <= max -> NoDup (sample_new max size).*1 /\ Forall (fun nc => valid nc.2) (sample_new max size).
Proof. intros H. split; [by apply (bool_decide_unpack _)|]. repeat constructor; cbn; try done; lia. Qed.


(** The state after an apply, when the next calls of the library fail as [f] says. *)
Definition failing (f : list (option Fault)) (w : World Caches) : World Caches := MkWorld (wo_state w) (wo_gets w) f (wo_reads w) (wo_evictions w).

(** A rejected apply is not undone. The limit of [a] is lowered and the map of [b] grows;
    the library refuses the growth and the apply is rejected, but the lower limit of
    [a] is in force. Applying the running configuration again does not
    bring the old limit back, as it is compared with the running configuration and not
    with the store: [a] is configured for 10 entries and holds 5. *)
Theorem rejected_apply_keeps_limit :
  let second := sample_reconcile (sample_new 10 1048576) (sample_new 5 2097152) (failing [Some OtherFault] first_apply) in
  let third := sample_reconcile (sample_new 10 1048576) (sample_new 10 1048576) (failing [] second.2) in
  second.1 = Err (Rejects "b" MapGrow (Io OtherFault)) /\ live_max second.2 "a" = Some (5, 5) /\
  third.1 = Ok tt /\ live_max third.2 "a" = Some (5, 10).
Proof. split_and!; by vm_compute. Qed.

(** A pass of the reaper, over caches that agree with their configuration: they still do, nothing
    fresh is gone, and a cache whose eviction is passive is as it was. *)
Theorem reaper_keeps_agreement (hash : CacheKey -> Z) (iter : Shard -> list (CacheKey * CacheEntry)) (now : Z) (budget : ReapBudget)
    (clock : string -> nat -> Z) (tick : string -> nat -> nat -> Z) (cfgs : gmap string CompiledCacheInstance) (c : Caches) :
  (forall s, iter s ≡ₚ map_to_list s) -> agrees hash cfgs (ca_instances c) ->
  let c' := (reap_active_expired_with_budget iter now budget clock tick c).2 in
  agrees hash cfgs (ca_instances c') /\
  forall name i, ca_instances c !! name = Some i -> exists i', ca_instances c' !! name = Some i' /\ ir_inflight i' = ir_inflight i /\
    (active i = false -> i' = i) /\
    match ir_backend i, ir_backend i' with
    | StoreMemory m, StoreMemory m' => forall k e, stored hash m k = Some e -> is_fresh e now = true -> stored hash m' k = Some e
    | b, b' => b' = b
    end.
Proof.
  intros Hi Ha c'. assert (forall name i, ca_instances c !! name = Some i -> ca_instances c' !! name = Some (reap_instance iter now budget clock tick name i).2) as Hc
    by (intros name i H; cbn; by rewrite map_lookup_imap, H).
  assert (forall name i, ca_instances c !! name = Some i -> forall i', i' = (reap_instance iter now budget clock tick name i).2 ->
    ir_config i' = ir_config i /\ ir_rebuilding i' = ir_rebuilding i /\ ir_inflight i' = ir_inflight i /\ (active i = false -> i' = i) /\
    works hash (ir_config i) (ir_backend i') /\ policed (ir_config i) (ir_backend i') /\ limit (ir_backend i') = limit (ir_backend i) /\
    match ir_backend i, ir_backend i' with
    | StoreMemory m, StoreMemory m' => forall k e, stored hash m k = Some e -> is_fresh e now = true -> stored hash m' k = Some e
    | b, b' => b' = b
    end) as Hr.
  { intros name i H i' ->. specialize (Ha name). rewrite H in Ha. destruct (cfgs !! name) as [cfg|]; [|done]. destruct Ha as (<- & Hf & Hp & Hl & _).
    unfold reap_instance. destruct (active i); cbn -[works policed limit]; [|by destruct (ir_backend i)].
    destruct (ir_backend i) as [m|kind h] eqn:Eb; cbn -[works policed limit]; [|by rewrite Eb].
    destruct (reap_expired_budgeted _ _ _ _ _ _ _) as [[[removed inc] cur] m'] eqn:E. cbn. destruct Hf as (Ht & Hwf & Hcap).
    destruct (reap_pass_spec hash iter Hi _ _ _ _ _ _ _ _ _ _ Hwf E) as (W & L & M & K). split_and!; try done.
    destruct Hcap as [?|?]; [left; congruence|right; lia]. }
  split.
  - intros name. pose proof (Ha name) as Hn. destruct (ca_instances c !! name) as [i|] eqn:E.
    + rewrite (Hc name i E). destruct (cfgs !! name) as [cfg|]; [|done]. destruct Hn as (<- & _ & _ & Hl & Hb).
      destruct (Hr name i E _ eq_refl) as (-> & -> & _ & _ & ? & ? & -> & _). done.
    + cbn. rewrite map_lookup_imap, E. done.
  - intros name i E. eexists. split; [by apply Hc|]. destruct (Hr name i E _ eq_refl) as (_ & _ & ? & ? & _ & _ & _ & ?). done.
Qed.
