(* ===== verification/System.v ===== *)
(** * System: the running configuration

    The parts that a configuration change touches, put together: the configurator
    (Configurator.v) with the whole validation (Validate.v), compilation (Snapshot.v), the
    caches (Reconcile.v) and the health table (Health.v) in the places of its parameters; and
    the steps that change the caches and the health table between changes of the configuration. The
    theorem is an invariant of every history of such steps. The exporters of metrics stay a parameter. *)

From stdpp Require Import base list gmap strings.
From Stdlib Require Import ZArith Lia.
From S2P Require Import Prelude Text Floats Effects Transaction Selectors Script Rules Health Routing CacheStore CacheRegistry Lookup Forward Acl Config Synthesize Configurator DataSources Messages Compile Snapshot Validate Lmdb LmdbMap LmdbSync LmdbOpen Reconcile.

#[local] Open Scope list_scope.
#[local] Open Scope Z_scope.

Section System.
Context `{PrefixTrie} (parse_net : string -> option IpNet) (parse_ip : string -> option IpAddr).
Context (parse_sock : string -> option SocketAddr) (parse_v4 parse_v6 : string -> option Z) (parse_f64 : string -> option f64).
Context (to_lowercase : string -> string) (preflight_path : string -> result unit Msg).
Context (iter_profiles : gmap string LookupProfile -> list (string * LookupProfile)).
Context (disk : string -> result string string) (base_dir : option string).
Context (compile_source : string -> ScriptPhase -> DataSourceStore -> result unit Msg).
Context (check_metrics : Config -> CompiledScripting -> result unit Msg) (metrics_errors : Config -> list ValidationError).
(** The texts of errors. *)
Context (show_invalid : ValidationError -> string) (show_messages : list Msg -> string) (show_stop : ApplyStop -> string).
(** The caches: see Reconcile.v. [iter_caches] is the order in which a map of cache configurations is visited. *)
Context (hash : CacheKey -> Z) (iter : Shard -> list (CacheKey * CacheEntry)) (iter_env : gmap CacheKey (list Z) -> list (CacheKey * list Z)).
Context (used : Env -> Z) (now : Z) (spawned joined : string -> bool) (clock : nat -> Z).
Context (order : list (string * PendingBackendOpen) -> list (string * PendingBackendOpen)).
Context (iter_caches : gmap string CompiledCacheInstance -> list (string * CompiledCacheInstance)).
Context {Export Pending : Type} (export_prepare : Config -> Export -> result Pending string * Export).
Context (hub_apply : Config -> Export -> Export) (export_commit : Pending -> Export -> Export).

Definition validate_config (cfg : Config) : list string :=
  show_invalid <$> validate parse_sock parse_v4 parse_v6 parse_ip parse_f64 to_lowercase preflight_path iter_profiles metrics_errors cfg.

(** A panic of the compiler (see [Validate.blank_selector_panics]) ends the configurator, and with it
    the changes; it changes nothing else. *)
Definition compile_config (cfg : Config) : result RuntimeSnapshot string :=
  match try_from_config_with_base parse_net parse_ip parse_sock parse_v4 parse_v6 parse_f64 to_lowercase preflight_path iter_profiles disk base_dir compile_source check_metrics cfg with
  | Some (Ok s) => Ok s
  | Some (Err es) => Err (show_messages es)
  | None => Err "panic"
  end.

Definition cache_configs (s : RuntimeSnapshot) : gmap string CompiledCacheInstance := cl_cache_instances (rt_lookup s).

Definition reconcile_caches (prev new : RuntimeSnapshot) (w : World Caches) : result unit string * World Caches :=
  let (r, w') := Reconcile.reconcile iter iter_env used now spawned joined order (cache_configs prev) (iter_caches (cache_configs new)) w in
  (match r with Ok _ => Ok tt | Err e => Err (show_stop e) end, w').
Definition reconcile_health (prev new : RuntimeSnapshot) (h : HealthRegistry) : HealthRegistry := Health.reconcile (rt_health prev) (rt_health new) h.

Abbreviation System := (Configurator (Snap := RuntimeSnapshot) (Cache := World Caches) (Health := HealthRegistry) (Export := Export)).

Definition propose (c : System) (file : result Config string) (p : PolicyProposal) : option (ApplyResult * System) :=
  apply_proposal validate_config compile_config reconcile_caches reconcile_health export_prepare hub_apply export_commit c file p.

(** [LookupCacheRegistry::from_snapshot]: a store that cannot be opened is a panic. *)
Fixpoint from_snapshot (new : list (string * CompiledCacheInstance)) : Rc Caches unit :=
  match new with
  | [] => ret tt
  | (name, cfg) :: new =>
      let* r := catch (rejecting name OpenNew (on_disk (from_config (spawned name) cfg))) in
      match r with
      | Err _ => throw ApplyPanics
      | Ok b =>
          let* c := look in
          let* _u := store (MkCaches (<[name := new_runtime b cfg]> (ca_instances c)) (ca_disk c)) in
          from_snapshot new
      end
  end.

(** [SnapshotStore::new] with a snapshot: the registries made for it. *)
Definition start (cfg : Config) (w : World Caches) (export : Export) : option System :=
  match compile_config cfg with
  | Err _ => None
  | Ok s =>
      match from_snapshot (iter_caches (cache_configs s)) (MkWorld (MkCaches ∅ (ca_disk (wo_state w))) (wo_gets w) (wo_faults w) (wo_reads w) (wo_evictions w)) with
      | (Ok _, w') => Some (MkConfigurator {| ef_file := cfg; ef_overlay := None |} (MkSnapStore s 0 0 w' (Health.from_compiled (rt_health s))) export)
      | (Err _, _) => None
      end
  end.

(** ** What happens between changes of the configuration *)

(** Queries on a store, with what the library and its clock do to them. *)
Definition memory_query (op : CacheOp) : bool := match op with OpInsert _ _ _ | OpRemove _ | OpReap _ _ _ _ _ => true | OpSetMax _ _ => false end.
Definition lmdb_query (op : LmdbOp) : bool := match op with LmdbGet _ _ | LmdbInsert _ _ _ | LmdbRemove _ => true | _ => false end.
Inductive traffic : CacheBackend -> CacheBackend -> Prop :=
  | traffic_memory m op m' : memory_query op = true -> live_entries m < u64_max -> op_step hash iter m op = Some m' -> traffic (StoreMemory m) (StoreMemory m')
  | traffic_lmdb kind h op gets faults reads evictions : lmdb_query op = true ->
      traffic (StoreLmdb kind h)
        (StoreLmdb kind (MkHandle (wo_state (lmdb_step clock iter_env hash op (MkWorld (h_backend h) gets faults reads evictions)).2) (h_flusher h))).

(** Changes of the health table of a snapshot. *)
Inductive health_step (h : CompiledHealth) : HealthRegistry -> HealthRegistry -> Prop :=
  | health_passive r now_ms pool backend failed : health_step h r (record_passive_forward_outcome now_ms h pool backend failed r).2
  | health_control r now_ms scope action : health_step h r (set_health_control now_ms h scope action r).2
  | health_views r filter : health_step h r (backend_health_views h filter r).2
  | health_probe r k s rise fall alpha probe : table r !! k = Some s ->
      health_step h r {| table := <[k := probe_step rise fall alpha s probe]> (table r); scopes := scopes r |}.

Definition with_cache (c : System) (w : World Caches) : System :=
  MkConfigurator (co_eff c) (MkSnapStore (ss_snap (co_store c)) (ss_snap_generation (co_store c)) (ss_generation (co_store c)) w (ss_health (co_store c))) (co_export c).
Definition with_health (c : System) (h : HealthRegistry) : System :=
  MkConfigurator (co_eff c) (MkSnapStore (ss_snap (co_store c)) (ss_snap_generation (co_store c)) (ss_generation (co_store c)) (ss_cache (co_store c)) h) (co_export c).

(** A value of the type [u64] where the source has one. *)
Definition limits_typed (cfg : Config) : Prop := Forall (fun i => 0 <= default 0 (ca_max_entries i)) (caches cfg).
Definition typed (c : System) : Prop := forall cfg, effective (co_eff c) = Some cfg -> limits_typed cfg.

(** The histories of a system. The flag says that the caches rejected no change. *)
Inductive reaches : bool -> System -> Prop :=
  | reach_start cfg w export c : validate_config cfg = [] -> limits_typed cfg -> start cfg w export = Some c -> reaches true c
  | reach_accepted clean c file p r c' : reaches clean c -> propose c file p = Some (r, c') -> typed c' -> ar_ok r = true -> reaches clean c'
  | reach_refused clean c file p r c' : reaches clean c -> propose c file p = Some (r, c') -> typed c' -> ar_ok r = false -> co_store c' = co_store c -> reaches clean c'
  | reach_rejected clean c file p r c' : reaches clean c -> propose c file p = Some (r, c') -> typed c' -> ar_ok r = false -> reaches false c'
  | reach_traffic clean c w' name i b inflight : reaches clean c -> ca_instances (wo_state (ss_cache (co_store c))) !! name = Some i -> traffic (ir_backend i) b ->
      wo_state w' = MkCaches (<[name := MkRuntime (ir_config i) b (ir_rebuilding i) inflight (ir_next_reap_shard i)]> (ca_instances (wo_state (ss_cache (co_store c)))))
        (ca_disk (wo_state (ss_cache (co_store c)))) -> reaches clean (with_cache c w')
  | reach_health clean c h : reaches clean c -> health_step (rt_health (ss_snap (co_store c))) (ss_health (co_store c)) h -> reaches clean (with_health c h).

(** ** The invariant *)

Definition probed (h : CompiledHealth) : list BackendKey := (fun e => e.1.1) <$> Health.all_entries h.

Record consistent (clean : bool) (c : System) (cfg : Config) : Prop := {
  con_valid : validate_config cfg = [];
  con_snapshot : compile_config cfg = Ok (ss_snap (co_store c));
  con_caches : operable hash (cache_configs (ss_snap (co_store c))) (ca_instances (wo_state (ss_cache (co_store c))));
  con_agrees : clean = true -> agrees hash (cache_configs (ss_snap (co_store c))) (ca_instances (wo_state (ss_cache (co_store c))));
  con_health : forall k, is_Some (table (ss_health (co_store c)) !! k) <-> k ∈ probed (rt_health (ss_snap (co_store c)));
}.

(** *** Compiled cache sections *)

Lemma instances_valid l threads : forall m m', Forall (fun i => 0 <= default 0 (ca_max_entries i)) l -> map_Forall (fun _ c => valid c) m ->
  compile_cache_instances preflight_path l threads m = Ok m' -> map_Forall (fun _ c => valid c) m'.
Proof.
  induction l as [|i l IH]; intros m m' Hl Hm H0; cbn in H0; [by injection H0 as <-|]. apply Forall_cons in Hl as [Hi Hl].
  destruct (compile_cache_instance _ _ _ _) as [c|e] eqn:E; [|done]. cbn in H0. eapply IH; [done| |exact H0]. apply map_Forall_insert_2; [|done]. by eapply compiled_valid.
Qed.

Lemma snapshot_caches_valid cfg s : compile_config cfg = Ok s -> limits_typed cfg -> map_Forall (fun _ c => valid c) (cache_configs s).
Proof.
  unfold compile_config, try_from_config_with_base. intros H0 Hl. destruct (compile_scripts _ _ _ _ _ _ _) as [[sc|e]|]; [|done..]. cbn in H0.
  destruct (compile_forward_from_config _ _ _ _) as [fw|e]; [|done]. cbn in H0. destruct (compile_health_from_config _ _ _) as [h|e]; [|done]. cbn in H0.
  destruct (compile_lookup_from_config _ _ _ _) as [l|e] eqn:El; [|done]. cbn in H0. destruct (rules_compile _ _ _ _ _) as [rules|]; [|done]. injection H0 as <-. cbn.
  unfold cache_configs. cbn. unfold compile_lookup_from_config in El. destruct (compile_cache_instances _ _ _ _) as [m|e] eqn:Em; [|done]. cbn in El.
  assert (cl_cache_instances l = m) as ->.
  { destruct (Config.lookup cfg) as [lc|]; [|by injection El as <-]. case_bool_decide; [done|]. destruct (_ && _); [done|]. destruct (compile_profiles _ _ _); [|done]. cbn in El.
    destruct (_ && _); [done|]. by injection El as <-. }
  by eapply instances_valid; [| |exact Em]; [exact Hl|].
Qed.

(** *** Queries *)

Lemma on_shard_stays {A} i (op : L LmdbShard A) w : stays (wo_state w) (wo_state (on_shard i op w).2).
Proof. unfold on_shard. destruct (lc_shards (wo_state w) !! i); [|done]. destruct (op _) as [r w']. repeat split; cbn. by rewrite length_insert. Qed.

Lemma for_key_stays {A} key (op : LmdbPolicy -> L LmdbShard A) w : stays (wo_state w) (wo_state (for_key hash key op w).2).
Proof. apply (on_shard_stays _ _ w). Qed.

Lemma query_stays op w : lmdb_query op = true -> stays (wo_state w) (wo_state (lmdb_step clock iter_env hash op w).2).
Proof.
  assert (forall {A B} (m : L LmdbCacheBackend A) (k : A -> B), stays (wo_state w) (wo_state (m w).2) -> stays (wo_state w) (wo_state ((let* a := m in ret (k a)) w).2)) as Hret.
  { intros A B m k Hm. unfold Effects.bind, ret. by destruct (m w) as [[a|e] w1]. }
  intros Hq. destruct op; try done; cbn [lmdb_step]; apply Hret, for_key_stays.
Qed.

Context (iter_perm : forall s, iter s ≡ₚ map_to_list s) (iter_env_perm : forall m, iter_env m ≡ₚ map_to_list m).
Context (order_perm : forall l, order l ≡ₚ l) (iter_caches_perm : forall m, iter_caches m ≡ₚ map_to_list m).

Lemma memory_query_keeps m op m' : memory_query op = true -> live_entries m < u64_max -> wf hash m -> within_cap m -> op_step hash iter m op = Some m' ->
  wf hash m' /\ within_cap m' /\ CacheStore.max_entries m' = CacheStore.max_entries m.
Proof.
  intros Hq Hl Hwf Hcap Hop. destruct op as [key e t|key|max t|t budget clk tick cur]; try done; cbn [op_step] in Hop.
  - destruct (insert_spec hash iter iter_perm (S (S (Z.to_nat (live_entries m)))) m key e t) as (n & b' & E & Hins & _); [done|done|lia|done| |].
    { destruct Hcap as [->|?]; [lia|]. pose proof (wf_live _ _ Hwf). lia. }
    rewrite E in Hop. injection Hop as <-. by destruct Hins.
  - injection Hop as <-. unfold cache_remove. fold (stored hash m key). destruct (stored hash m key) as [e|] eqn:He; cbn [snd]; [|done].
    destruct (remove_spec hash m key e Hwf He) as (H1 & (H2 & H2m & _) & H3 & H4 & H5). split_and!; [done|unfold within_cap in *; lia|done].
  - injection Hop as <-. destruct (reap_expired_budgeted _ _ _ _ _ _ _) as [[[r inc] c] b'] eqn:Hr.
    destruct (reap_pass_spec hash iter iter_perm _ _ _ _ _ _ _ _ _ _ Hwf Hr) as (W & L & M & _). split_and!; [done|unfold within_cap in *; cbn in *; lia|done].
Qed.

Lemma traffic_keeps cfg b b' : traffic b b' -> works hash cfg b -> works hash cfg b' /\ limit b' = limit b /\ (policed cfg b -> policed cfg b').
Proof.
  intros [m op m' Hq Hl Hop|kind h op g f rd ev Hq].
  - intros (Ht & Hwf & Hcap). destruct (memory_query_keeps m op m' Hq Hl Hwf Hcap Hop) as (? & ? & ?). by split_and!.
  - intros Hw. destruct (query_stays op (MkWorld (h_backend h) g f rd ev) Hq) as (P & M & Hlen). cbn in P, M, Hlen. split_and!; [|done|cbn; by rewrite P].
    by eapply works_unmoved.
Qed.

(** *** Health *)

Lemma insert_dom {B} (t : gmap BackendKey B) k0 s s' k : t !! k0 = Some s -> is_Some (<[k0 := s']> t !! k) <-> is_Some (t !! k).
Proof. intros E. rewrite lookup_insert_is_Some'. split; [intros [<-|?]; [by eexists|done]|by right]. Qed.

Lemma control_loop_dom t scope a affected : forall r k, is_Some (table (control_loop t scope a affected r).2 !! k) <-> is_Some (table r !! k).
Proof.
  induction affected as [|[pool addr] affected IH]; intros r k; [done|]. cbn [control_loop]. destruct (table r !! _) as [s|] eqn:E; [|apply IH].
  match goal with |- context [control_loop t scope a affected ?r1] => specialize (IH r1 k) end. destruct (control_loop _ _ _ _ _) as [os r'].
  etrans; [exact IH|]. by eapply insert_dom.
Qed.

Lemma sync_flags_dom h r k : is_Some (table (sync_frozen_flags h r) !! k) <-> is_Some (table r !! k).
Proof.
  unfold sync_frozen_flags. cbn [table]. generalize (table r). induction (Health.all_entries h) as [|[[k' b] p] l IH]; intros t; [done|]. cbn [foldl]. etrans; [apply IH|].
  destruct (t !! k') eqn:E; [by eapply insert_dom|done].
Qed.

Lemma health_step_dom h r r' : health_step h r r' -> forall k, is_Some (table r' !! k) <-> is_Some (table r !! k).
Proof.
  intros [r0 t pool backend failed|r0 t scope a|r0 f|r0 k0 s rise fall alpha x E] k.
  - unfold record_passive_forward_outcome. repeat (case_match; simplify_eq; try done); by eapply insert_dom.
  - unfold set_health_control. destruct (validate_scope _ _); [|done]. destruct (backends_in_scope _ _) as [|x l]; [done|].
    match goal with |- context [control_loop ?t ?s ?a ?l ?r1] => pose proof (control_loop_dom t s a l r1 k) as Hd; destruct (control_loop t s a l r1) end. exact Hd.
  - apply sync_flags_dom.
  - by eapply insert_dom.
Qed.

Lemma foldl_insert_dom {A B} (key : A -> BackendKey) (val : A -> B) l : forall (t : gmap BackendKey B) k,
  is_Some (foldl (fun t e => <[key e := val e]> t) t l !! k) <-> k ∈ key <$> l \/ is_Some (t !! k).
Proof.
  induction l as [|e l IH]; intros t k; cbn; [rewrite elem_of_nil; tauto|]. rewrite IH, lookup_insert_is_Some', elem_of_cons. naive_solver.
Qed.

Lemma table_dom {A B} (key : A -> BackendKey) (val : A -> B) (f : gmap BackendKey B -> A -> gmap BackendKey B) l k :
  (forall t e, f t e = <[key e := val e]> t) -> is_Some (foldl f ∅ l !! k) <-> k ∈ key <$> l.
Proof.
  intros Hf. rewrite (foldl_ext f (fun t e => <[key e := val e]> t)) by done. rewrite foldl_insert_dom, lookup_empty. split; [intros [?|[? [=]]]; done|by left].
Qed.

Lemma reconcile_health_dom prev new r k : is_Some (table (Health.reconcile prev new r) !! k) <-> k ∈ probed new.
Proof.
  apply (table_dom (fun e => e.1.1) (fun e => match preserved prev (table r) e.1.1 e.1.2 with Some s => s | None => from_initial_policy (cp_initial_state e.2) end)).
  by intros t [[? ?] ?].
Qed.

Lemma from_compiled_dom h k : is_Some (table (Health.from_compiled h) !! k) <-> k ∈ probed h.
Proof. apply (table_dom (fun e => e.1.1) (fun e => from_initial_policy (cp_initial_state e.2))). by intros t [[? ?] ?]. Qed.

(** *** Starting *)

Lemma from_snapshot_agrees new : forall w w', NoDup new.*1 -> Forall (fun nc => valid nc.2) new -> (forall name, name ∈ new.*1 -> ca_instances (wo_state w) !! name = None) ->
  from_snapshot new w = (Ok tt, w') ->
  (forall name cfg, (name, cfg) ∈ new -> exists i, ca_instances (wo_state w') !! name = Some i /\ ir_config i = cfg /\ works hash cfg (ir_backend i) /\
    policed cfg (ir_backend i) /\ limit (ir_backend i) = ci_max_entries cfg /\ ir_rebuilding i = false) /\
  forall name, name ∉ new.*1 -> ca_instances (wo_state w') !! name = ca_instances (wo_state w) !! name.
Proof.
  induction new as [|[name cfg] new IH]; intros w w' Hn Hv Hfresh H0.
  { injection H0 as <-. split; [|done]. intros ? ? Hin. by apply elem_of_nil in Hin. }
  cbn in Hn. apply NoDup_cons in Hn as [Hnot Hn]. apply Forall_cons in Hv as [Hv Hvs]. cbn [from_snapshot] in H0. apply bind_inv in H0 as (r & w1 & Hr & H0).
  injection Hr as <- <-. unfold rejecting, on_disk, zoom in H0. set (d := MkWorld _ _ _ _ _) in H0. destruct (from_config (spawned name) cfg d) as [[b|[]] d'] eqn:Eo; [|done..].
  cbn in H0. apply IH in H0 as [H1 H2]; [|done|done|].
  2:{ intros x Hx. cbn. rewrite lookup_insert_ne by (intros ->; done). apply Hfresh. by right. }
  apply from_config_fits with (hash := hash) in Eo as (F1 & F2 & F3); [|done]. split.
  - intros x c [[= -> ->]|Hc]%elem_of_cons; [|by apply H1]. exists (new_runtime b cfg). rewrite H2 by done. cbn. by rewrite lookup_insert_eq.
  - intros x Hx. apply not_elem_of_cons in Hx as [Hx1 Hx2]. rewrite H2 by done. cbn. by rewrite lookup_insert_ne.
Qed.

Lemma iter_caches_spec m : NoDup (iter_caches m).*1 /\ list_to_map (iter_caches m) = m.
Proof.
  assert (NoDup (iter_caches m).*1) as Hn by (rewrite iter_caches_perm; apply NoDup_fst_map_to_list). split; [done|].
  rewrite (list_to_map_proper (iter_caches m) (map_to_list m)) by done. apply list_to_map_to_list.
Qed.
Lemma iter_caches_valid m : map_Forall (fun _ c => valid c) m -> Forall (fun nc => valid nc.2) (iter_caches m).
Proof. intros Hm. rewrite iter_caches_perm. apply map_Forall_to_list in Hm. eapply Forall_impl; [exact Hm|]. by intros [? ?]. Qed.

Lemma start_consistent cfg w export c : validate_config cfg = [] -> limits_typed cfg -> start cfg w export = Some c -> consistent true c cfg.
Proof.
  intros Hv Ht H0. unfold start in H0. destruct (compile_config cfg) as [s|] eqn:Ec; [|done]. destruct (from_snapshot _ _) as [[[]|e] w'] eqn:Ef; [|done]. injection H0 as <-.
  destruct (iter_caches_spec (cache_configs s)) as [Hn Hm]. pose proof (iter_caches_valid _ (snapshot_caches_valid _ _ Ec Ht)) as Hval.
  apply from_snapshot_agrees in Ef as [H1 H2]; [|done|done|intros; apply lookup_empty].
  assert (agrees hash (cache_configs s) (ca_instances (wo_state w'))) as Ha.
  { intros name. destruct (cache_configs s !! name) as [cc|] eqn:E.
    - assert ((name, cc) ∈ iter_caches (cache_configs s)) as Hin by (rewrite iter_caches_perm; by apply elem_of_map_to_list).
      by destruct (H1 name cc Hin) as (i & -> & ? & ? & ? & ? & ?).
    - rewrite H2; [cbn; by rewrite lookup_empty|]. rewrite iter_caches_perm. intros ([x cc] & -> & Hx%elem_of_map_to_list)%list_elem_of_fmap. cbn in *. congruence. }
  split; cbn; [done|done|by apply agrees_operable|done|]. intros k. apply from_compiled_dom.
Qed.

(** *** Proposals *)

Lemma validated_empty cfg : validate_config cfg = [] -> validate parse_sock parse_v4 parse_v6 parse_ip parse_f64 to_lowercase preflight_path iter_profiles metrics_errors cfg = [].
Proof. unfold validate_config. by destruct (validate _ _ _ _ _ _ _ _ _ _). Qed.

(** A proposal leaves the store alone, or the caches were asked and decided. *)
Lemma propose_cases c file p r c' : propose c file p = Some (r, c') ->
  (ar_ok r = false /\ co_store c' = co_store c) \/
  exists cfg snap w', effective (co_eff c') = Some cfg /\ validate_config cfg = [] /\ compile_config cfg = Ok snap /\
    ss_cache (co_store c') = w' /\
    ((ar_ok r = true /\ reconcile_caches (ss_snap (co_store c)) snap (ss_cache (co_store c)) = (Ok tt, w') /\ ss_snap (co_store c') = snap /\
       ss_health (co_store c') = reconcile_health (ss_snap (co_store c)) snap (ss_health (co_store c))) \/
     (ar_ok r = false /\ (exists e, reconcile_caches (ss_snap (co_store c)) snap (ss_cache (co_store c)) = (Err e, w')) /\ ss_snap (co_store c') = ss_snap (co_store c) /\
       ss_health (co_store c') = ss_health (co_store c))).
Proof.
  unfold propose, apply_proposal. destruct (prepare_effective _ _ _ _) as [[[merged|es] eff]|] eqn:Ep; [| |done].
  2:{ cbn. intros [= <- <-]. by left. }
  apply prepare_cases in Ep as [He Hv]. cbn. destruct (export_prepare merged (co_export c)) as [[pending|m] x]; [|intros [= <- <-]; by left].
  unfold install_validated_with_base, try_swap. rewrite Hv. destruct (compile_config merged) as [snap|m] eqn:Ec; [|intros [= <- <-]; left; split; [done|]; by destruct (co_store c)].
  destruct (reconcile_caches _ _ _) as [[[]|m] w'] eqn:Er; intros [= <- <-]; right; exists merged, snap, w'; (split_and!; [done..|]).
  - left. by split_and!.
  - right. split_and!; [done| |done|done]. by exists m.
Qed.

Lemma reconciled c cfg snap w' (e : result unit string) clean : consistent clean c cfg -> forall cfg', compile_config cfg' = Ok snap -> limits_typed cfg' ->
  reconcile_caches (ss_snap (co_store c)) snap (ss_cache (co_store c)) = (e, w') ->
  match e with
  | Ok _ => operable hash (cache_configs snap) (ca_instances (wo_state w')) /\ (clean = true -> agrees hash (cache_configs snap) (ca_instances (wo_state w')))
  | Err _ => operable hash (cache_configs (ss_snap (co_store c))) (ca_instances (wo_state w'))
  end.
Proof.
  intros [_ _ Ho Ha _] cfg' Hc Ht Hr. unfold reconcile_caches in Hr. destruct (iter_caches_spec (cache_configs snap)) as [Hn Hm].
  pose proof (iter_caches_valid _ (snapshot_caches_valid _ _ Hc Ht)) as Hval.
  pose proof (reconcile_post hash iter iter_env used now spawned joined iter_perm iter_env_perm order (cache_configs (ss_snap (co_store c)))
    (iter_caches (cache_configs snap)) (ss_cache (co_store c)) order_perm Hn Hval Ho) as Hp. unfold post in Hp.
  destruct (Reconcile.reconcile _ _ _ _ _ _ _ _ _ _) as [[[]|[x step er|]] w2]; injection Hr as <- <-; cbn in Hp; [|by destruct Hp|done].
  destruct Hp as [Hd Hall]. split.
  - intros name. destruct (cache_configs snap !! name) as [cc|] eqn:E.
    + assert ((name, cc) ∈ iter_caches (cache_configs snap)) as Hin by (rewrite iter_caches_perm; by apply elem_of_map_to_list).
      destruct (Hall name cc Hin) as (i & -> & <- & ? & ? & _). done.
    + destruct (ca_instances (wo_state w2) !! name) eqn:Ei; [|done]. apply elem_of_dom_2 in Ei. rewrite Hd, elem_of_list_to_set, iter_caches_perm in Ei.
      apply list_elem_of_fmap in Ei as ([x cc] & -> & Hx%elem_of_map_to_list). cbn in *. congruence.
  - intros Hclean. rewrite <-Hm. by eapply applied_agrees; [|apply Ha| |].
Qed.

Lemma reaches_consistent clean c : reaches clean c -> exists cfg, consistent clean c cfg.
Proof.
  induction 1 as [cfg w export c Hv Ht Hs|clean c file p r c' _ [cfg IH] Hp Ht Hok|clean c file p r c' _ [cfg IH] Hp Ht Hok Hst
    |clean c file p r c' _ [cfg IH] Hp Ht Hok|clean c w' name i b inflight _ [cfg IH] Hi Htr Hw|clean c h _ [cfg IH] Hst].
  - exists cfg. by eapply start_consistent.
  - apply propose_cases in Hp as [[? _]|(cfg' & snap & w' & He & Hv & Hc & <- & [(_ & Hr & <- & Hh)|[? _]])]; [congruence| |congruence].
    exists cfg'. eapply reconciled in Hr as [Ho Ha]; [|exact IH|exact Hc|by apply Ht]. split; [done..|]. intros k. rewrite Hh. apply reconcile_health_dom.
  - exists cfg. destruct IH as [H1 H2 H3 H4 H5]. split; by rewrite ?Hst.
  - apply propose_cases in Hp as [[_ Hst]|(cfg' & snap & w' & He & Hv & Hc & <- & [[? _]|(_ & [e Hr] & Hs & Hh)])]; [|congruence|].
    + exists cfg. destruct IH as [H1 H2 H3 H4 H5]. split; rewrite ?Hst; done.
    + exists cfg. pose proof IH as [H1 H2 H3 H4 H5]. eapply reconciled in Hr; [|exact IH|exact Hc|by apply Ht]. split; rewrite ?Hs, ?Hh; done.
  - exists cfg. destruct IH as [H1 H2 H3 H4 H5]. split; cbn; try done; rewrite Hw; cbn; [intros x; specialize (H3 x)|intros Hcl x; specialize (H4 Hcl x)].
    + destruct (decide (x = name)) as [->|]; [rewrite lookup_insert_eq; rewrite Hi in H3|by rewrite lookup_insert_ne]. destruct (cache_configs _ !! name); [|done].
      destruct H3 as [Hwk ?]. split; [|done]. by eapply traffic_keeps.
    + destruct (decide (x = name)) as [->|]; [rewrite lookup_insert_eq; rewrite Hi in H4|by rewrite lookup_insert_ne]. destruct (cache_configs _ !! name); [|done].
      destruct H4 as (<- & Hwk & Hpo & Hl & ?). destruct (traffic_keeps _ _ _ Htr Hwk) as (? & ? & ?). cbn. split_and!; auto; congruence.
  - exists cfg. destruct IH as [H1 H2 H3 H4 H5]. split; cbn; try done. intros k. rewrite <-H5. by eapply health_step_dom.
Qed.

(** *** What a snapshot has *)

Lemma compile_parts cfg s : compile_config cfg = Ok s -> compile_scripts parse_net parse_ip disk base_dir compile_source check_metrics cfg = Some (Ok (rt_scripting s)) /\
  compile_lookup_from_config preflight_path to_lowercase iter_profiles cfg = Ok (rt_lookup s) /\
  try_from_config_with_base parse_net parse_ip parse_sock parse_v4 parse_v6 parse_f64 to_lowercase preflight_path iter_profiles disk base_dir compile_source check_metrics cfg = Some (Ok s).
Proof.
  unfold compile_config. destruct (try_from_config_with_base _ _ _ _ _ _ _ _ _ _ _ _ _ _) as [[s'|e]|] eqn:E; [|done..]. intros [= <-]. split_and!; [..|done];
    unfold try_from_config_with_base in E; destruct (compile_scripts _ _ _ _ _ _ _) as [[sc|e]|]; try done; cbn in E; destruct (compile_forward_from_config _ _ _ _) as [fw|e]; try done; cbn in E;
    destruct (compile_health_from_config _ _ _) as [h|e]; try done; cbn in E; destruct (compile_lookup_from_config _ _ _ _) as [l|e]; try done; cbn in E;
    destruct (rules_compile _ _ _ _ _) as [rules|]; try done; by injection E as <-.
Qed.

End System.

(** ** A history: a start and a change of a limit *)

#[local] Existing Instance no_trie.

Definition limited_config (max : Z) : Config :=
  MkConfig 1 None None None None None [sample_pool_cfg] None (Some {| rs_match_mode := "first_match"; rs_rules := [sample_rule by_type] |})
    None [] None None None None None [MkCache "answers" "memory" None None None None None (Some max) None None] (Some sample_lookup) None.
Definition first_error (e : ValidationError) : string := "invalid".
Definition first_message (es : list Msg) : string := match es with [] => "" | e :: _ => e.1 end.
Definition stop_text (e : ApplyStop) : string := match e with Rejects cache _ _ => cache | ApplyPanics => "panic" end.
Definition no_export (cfg : Config) (x : unit) : result unit string * unit := (Ok tt, x).
Definition new_file (cfg : Config) : PolicyProposal := {| pr_source := Configurator.File; pr_overlay := None; pr_overlay_mode := ModeMerge; pr_file_reload := Some cfg; pr_primitive := None |}.

#[local] Abbreviation sample_start := (start sample_net no_ip sample_sock no_addr no_addr no_float to_ascii_lowercase any_path all_entries sample_disk (Some "/etc/conduit")
  any_script any_metrics first_message (fun _ => true) map_to_list).
#[local] Abbreviation sample_propose := (propose sample_net no_ip sample_sock no_addr no_addr no_float to_ascii_lowercase any_path all_entries sample_disk (Some "/etc/conduit")
  any_script any_metrics no_metric_errors first_error first_message stop_text map_to_list map_to_list page_per_env 0 (fun _ => true) (fun _ => true) (fun l => l) map_to_list
  no_export (fun _ x => x) (fun _ x => x)).
#[local] Abbreviation sample_reaches := (reaches sample_net no_ip sample_sock no_addr no_addr no_float to_ascii_lowercase any_path all_entries sample_disk (Some "/etc/conduit")
  any_script any_metrics no_metric_errors first_error first_message stop_text CacheStore.sample_hash map_to_list map_to_list page_per_env 0 (fun _ => true) (fun _ => true) (fun _ => 0) (fun l => l) map_to_list
  no_export (fun _ x => x) (fun _ x => x)).
Definition started : option (Configurator (Snap := RuntimeSnapshot) (Cache := World Caches) (Health := HealthRegistry) (Export := unit)) :=
  sample_start (limited_config 10) no_caches tt.
Definition changed : option (Configurator (Snap := RuntimeSnapshot) (Cache := World Caches) (Health := HealthRegistry) (Export := unit)) :=
  match started with
  | Some c => match sample_propose c (Err "") (new_file (limited_config 5)) with Some r => Some r.2 | None => None end
  | None => None
  end.
Definition answers_limit (c : Configurator (Snap := RuntimeSnapshot) (Cache := World Caches) (Health := HealthRegistry) (Export := unit)) : option Z :=
  (fun i => limit (ir_backend i)) <$> ca_instances (wo_state (ss_cache (co_store c))) !! "answers".

Definition change_summary : option (bool * option Z * EffectiveConfig) :=
  match started with
  | Some c0 => match sample_propose c0 (Err "") (new_file (limited_config 5)) with Some r => Some (ar_ok r.1, answers_limit r.2, co_eff r.2) | None => None end
  | None => None
  end.

