(* ===== verification/Probes.v ===== *)
(** * Probes: health probes

    The query of a probe and the verdict on a reply (conduit-core/src/health/probe.rs), when
    probes are sent and how their outcomes reach the health state
    (conduit-dataplane/src/probe/scheduler.rs), and the turns of the loop that sends them
    (probe/run.rs). The loop and the registry share the state of a backend, so states live in a
    heap and both hold references into it. Times are nanoseconds. *)

From stdpp Require Import base list gmap strings.
From Stdlib Require Import ZArith Lia.
From S2P Require Import Prelude Text Floats Transaction Health Message Routing ForwardTable Forward Compile.

#[local] Open Scope list_scope.
#[local] Open Scope Z_scope.

#[export] Instance set_m_recursion_desired : Setter m_recursion_desired := ltac:(msg_setter).

(** ** Queries and replies *)

Inductive ProbeOutcome := ProbeSuccess | ProbeFailure | ProbeUnmatched.

Record ProbeSpec := { ps_name : string; ps_qtype : Z; ps_acceptable_rcodes : option (list Z) }.

Record Outstanding := { out_qid : Z; out_sent_at : Z; out_deadline : Z }.

(** A reference to a health state ([Arc]). *)
Abbreviation Ref := positive (only parsing).
Abbreviation Heap := (gmap positive BackendHealthState).

Record BackendProbe := MkProbe {
  bp_key : BackendKey; bp_address : SocketAddr; bp_label : string; bp_source : option IpAddr; bp_state : Ref; bp_spec : ProbeSpec;
  bp_interval : Z; bp_timeout : Z; bp_rise : Z; bp_fall : Z; bp_alpha : f64; bp_latency_weighting : bool; bp_latency_floor : f64;
  bp_next_due : Z; bp_outstanding : option Outstanding }.

Ltac probe_setter :=
  setter MkProbe (bp_key, bp_address, bp_label, bp_source, bp_state, bp_spec, bp_interval, bp_timeout, bp_rise, bp_fall, bp_alpha,
    bp_latency_weighting, bp_latency_floor, bp_next_due, bp_outstanding).
#[export] Instance set_bp_next_due : Setter bp_next_due := ltac:(probe_setter).
#[export] Instance set_bp_outstanding : Setter bp_outstanding := ltac:(probe_setter).

Record DueProbe := { due_idx : nat; due_address : SocketAddr; due_source : option IpAddr; due_qid : Z; due_wire : list Z; due_timeout : Z }.

Record ProbeScheduler := { sch_rng : Z; sch_backends : list BackendProbe }.

Definition NANOS_PER_MILLI : Z := 1000000.
Definition JITTER_PERCENT : Z := 20.
Definition WEIGHT_FACTOR_DAMPING : f64 := f64_div (f64_of_Z 1) (f64_of_Z 2).

(** [SplitMix64::next_u64]. *)
Definition next_u64 (s : Z) : Z * Z :=
  let s := wrap 64 (s + 0x9E3779B97F4A7C15) in
  let z := wrap 64 (Z.lxor s (Z.shiftr s 30) * 0xBF58476D1CE4E5B9) in
  let z := wrap 64 (Z.lxor z (Z.shiftr z 27) * 0x94D049BB133111EB) in
  (Z.lxor z (Z.shiftr z 31), s).

(** [f64::clamp], which panics when its bounds are not in order. *)
Definition f64_clamp (x lo hi : f64) : option f64 :=
  if f64_le lo hi then
    let x := if f64_lt x lo then lo else x in
    Some (if f64_lt hi x then hi else x)
  else None.

(** [Duration::as_secs_f64]. *)
Definition as_secs_f64 (d : Z) : f64 := f64_add (f64_of_Z (d / 1000000000)) (f64_div (f64_of_Z (d mod 1000000000)) (f64_of_Z 1000000000)).

Definition max_jitter_ms (interval : Z) : Z := wrap 64 (wrap 64 (interval / NANOS_PER_MILLI) * JITTER_PERCENT) / 100.

Definition jitter (interval rng : Z) : Z * Z :=
  let max_ms := max_jitter_ms interval in
  if max_ms =? 0 then (0, rng)
  else let (x, rng) := next_u64 rng in (x mod (max_ms + 1) * NANOS_PER_MILLI, rng).

Definition schedule_bounds (interval : Z) : Z * Z := (interval, interval + max_jitter_ms interval * NANOS_PER_MILLI).

Section Probes.
(** The wire codec; hickory's names: the name of a probe query ([Name::from_utf8], [set_fqdn] and
    [to_lowercase]) and the equality of names. *)
Context `{DnsCodec} (probe_name : string -> option string) (name_eq : string -> string -> bool).

Definition ProbeSpec_new (qname : string) (qtype : Z) (acceptable_rcodes : option (list Z)) : result ProbeSpec string :=
  match probe_name qname with
  | Some name => Ok {| ps_name := name; ps_qtype := qtype; ps_acceptable_rcodes := acceptable_rcodes |}
  | None => Err qname
  end.

Definition probe_message (spec : ProbeSpec) (qid : Z) : Message :=
  add_query (Message_new <| m_id := qid |> <| m_recursion_desired := true |>) {| q_name := ps_name spec; q_type := ps_qtype spec; q_class := 1 |}.

Definition build_query (spec : ProbeSpec) (qid : Z) : result (list Z) (list Z) := emit (probe_message spec qid).

Definition classify_response (spec : ProbeSpec) (qid : Z) (wire : list Z) : ProbeOutcome :=
  match from_vec wire with
  | None => ProbeUnmatched
  | Some msg =>
      if negb (m_id msg =? qid) then ProbeUnmatched
      else match head (m_queries msg) with
      | None => ProbeUnmatched
      | Some query =>
          if negb (q_type query =? ps_qtype spec) || negb (name_eq (q_name query) (ps_name spec)) then ProbeUnmatched
          else match ps_acceptable_rcodes spec with
          | None => ProbeSuccess
          | Some allowed => if bool_decide (m_rcode msg ∈ allowed) then ProbeSuccess else ProbeFailure
          end
      end
  end.

(** ** The scheduler *)

Definition backend_labels (s : ProbeScheduler) (idx : nat) : option (string * string) :=
  (fun b => (bk_pool (bp_key b), bp_label b)) <$> sch_backends s !! idx.

(** The body of the loop of [due_probes] for one backend. *)
Definition due_one (now : Z) (idx : nat) (b : BackendProbe) (rng : Z) : option DueProbe * BackendProbe * Z :=
  if is_someb (bp_outstanding b) || (now <? bp_next_due b) then (None, b, rng)
  else
    let (x, rng) := next_u64 rng in
    let qid := wrap 16 x in
    let (j, rng) := jitter (bp_interval b) rng in
    match build_query (bp_spec b) qid with
    | Err _ => (None, b <| bp_next_due := now + bp_interval b |>, rng)
    | Ok wire =>
        (Some {| due_idx := idx; due_address := bp_address b; due_source := bp_source b; due_qid := qid; due_wire := wire; due_timeout := bp_timeout b |},
         b <| bp_outstanding := Some {| out_qid := qid; out_sent_at := now; out_deadline := now + bp_timeout b |} |>
           <| bp_next_due := now + bp_interval b + j |>, rng)
    end.

Fixpoint due_from (now : Z) (idx : nat) (bs : list BackendProbe) (rng : Z) : list DueProbe * list BackendProbe * Z :=
  match bs with
  | [] => ([], [], rng)
  | b :: bs =>
      let '(d, b, rng) := due_one now idx b rng in
      let '(ds, bs, rng) := due_from now (S idx) bs rng in
      (match d with Some d => d :: ds | None => ds end, b :: bs, rng)
  end.

Definition due_probes (now : Z) (s : ProbeScheduler) : list DueProbe * ProbeScheduler :=
  let '(ds, bs, rng) := due_from now 0 (sch_backends s) (sch_rng s) in (ds, {| sch_rng := rng; sch_backends := bs |}).

Definition wake_at (b : BackendProbe) : Z := match bp_outstanding b with Some o => out_deadline o | None => bp_next_due b end.
Definition next_wakeup (s : ProbeScheduler) : option Z :=
  match wake_at <$> sch_backends s with [] => None | t :: ts => Some (foldl Z.min t ts) end.

(** What the scheduler and the registry share: the scheduler with the heap. *)
Record ProbeLoop := MkLoop { pl_sched : ProbeScheduler; pl_heap : Heap }.

Definition set_backend_probe (idx : nat) (b : BackendProbe) (s : ProbeScheduler) : ProbeScheduler :=
  {| sch_rng := sch_rng s; sch_backends := <[idx := b]> (sch_backends s) |}.

(** The two ways an outstanding probe ends. [unix] is the wall clock, which transitions carry. *)
Definition succeed (now unix : Z) (idx : nat) (b : BackendProbe) (o : Outstanding) (l : ProbeLoop) : ProbeLoop :=
  let rtt_ms := f64_mul (as_secs_f64 (Z.max 0 (now - out_sent_at o))) (f64_of_Z 1000) in
  MkLoop (set_backend_probe idx (b <| bp_outstanding := None |>) (pl_sched l))
    (alter (record_success unix (bp_rise b) (bp_alpha b) rtt_ms) (bp_state b) (pl_heap l)).
Definition fail (unix : Z) (idx : nat) (b : BackendProbe) (l : ProbeLoop) : ProbeLoop :=
  MkLoop (set_backend_probe idx (b <| bp_outstanding := None |>) (pl_sched l)) (alter (record_failure unix (bp_fall b)) (bp_state b) (pl_heap l)).

Definition on_reply (now unix : Z) (idx : nat) (wire : list Z) (l : ProbeLoop) : option ProbeOutcome * ProbeLoop :=
  match sch_backends (pl_sched l) !! idx with
  | None => (None, l)
  | Some b =>
      match bp_outstanding b with
      | None => (None, l)
      | Some o =>
          let outcome := classify_response (bp_spec b) (out_qid o) wire in
          (Some outcome,
           match outcome with
           | ProbeSuccess => succeed now unix idx b o l
           | ProbeFailure => fail unix idx b l
           | ProbeUnmatched => l
           end)
      end
  end.

Definition on_failure (unix : Z) (idx : nat) (l : ProbeLoop) : bool * ProbeLoop :=
  match sch_backends (pl_sched l) !! idx with
  | None => (false, l)
  | Some b => if is_someb (bp_outstanding b) then (true, fail unix idx b l) else (false, l)
  end.

Definition timed_out (now : Z) (b : BackendProbe) : bool :=
  match bp_outstanding b with Some o => out_deadline o <=? now | None => false end.

Fixpoint expire_from (now unix : Z) (idxs : list nat) (l : ProbeLoop) : list nat * ProbeLoop :=
  match idxs with
  | [] => ([], l)
  | idx :: idxs =>
      match sch_backends (pl_sched l) !! idx with
      | Some b =>
          if timed_out now b then let (expired, l) := expire_from now unix idxs (fail unix idx b l) in (idx :: expired, l)
          else expire_from now unix idxs l
      | None => expire_from now unix idxs l
      end
  end.
Definition expire_timeouts (now unix : Z) (l : ProbeLoop) : list nat * ProbeLoop :=
  expire_from now unix (seq 0 (length (sch_backends (pl_sched l)))) l.

(** [recompute_weight_factors]: the fastest eligible latency of each pool, then a step towards it. *)
Definition note_latency (h : Heap) (m : gmap string f64) (b : BackendProbe) : gmap string f64 :=
  match h !! bp_state b with
  | Some s =>
      if negb (bp_latency_weighting b) || negb (bool_decide (applied s = Up)) then m
      else match latency_ewma_ms s with
      | None => m
      | Some ewma =>
          let entry := default ewma (m !! bk_pool (bp_key b)) in
          <[bk_pool (bp_key b) := if f64_lt ewma entry then ewma else entry]> m
      end
  | None => m
  end.
Definition pool_min (h : Heap) (bs : list BackendProbe) : gmap string f64 := foldl (note_latency h) ∅ bs.

Definition target_factor (m : gmap string f64) (b : BackendProbe) (s : BackendHealthState) : option f64 :=
  match m !! bk_pool (bp_key b), latency_ewma_ms s with
  | Some min, Some ewma => if f64_lt (f64_of_Z 0) ewma then f64_clamp (f64_div min ewma) (bp_latency_floor b) (f64_of_Z 1) else Some (f64_of_Z 1)
  | _, _ => Some (f64_of_Z 1)
  end.

Fixpoint damp_all (m : gmap string f64) (bs : list BackendProbe) (h : Heap) : option Heap :=
  match bs with
  | [] => Some h
  | b :: bs =>
      if negb (bp_latency_weighting b) then damp_all m bs h
      else match h !! bp_state b with
      | None => damp_all m bs h
      | Some s => let! target := target_factor m b s in damp_all m bs (<[bp_state b := damp_weight_factor s target WEIGHT_FACTOR_DAMPING]> h)
      end
  end.
Definition recompute_weight_factors (l : ProbeLoop) : option ProbeLoop :=
  let bs := sch_backends (pl_sched l) in
  let! h := damp_all (pool_min (pl_heap l) bs) bs (pl_heap l) in Some (MkLoop (pl_sched l) h).

(** ** The loop *)

Inductive ProbeTransport := ProbeUdp | ProbeTcp (source_v4 source_v6 : option Z).

Record TcpOutcome := { tcp_idx : nat; tcp_wire : option (list Z) }.

(** What can be seen of a turn: the probes that [due_probes] issues, and the results that are counted,
    by pool and label. *)
Inductive LoopEvent :=
  | Issued (now : Z) (d : DueProbe)
  | Counted (idx : nat) (pool label outcome : string).

Definition record_probe_result (s : ProbeScheduler) (idx : nat) (outcome : string) : list LoopEvent :=
  match backend_labels s idx with
  | Some (pool, label) => [Counted idx pool label outcome]
  | None => []
  end.

Definition record_reply_outcome (s : ProbeScheduler) (idx : nat) (outcome : option ProbeOutcome) : list LoopEvent :=
  match outcome with
  | Some ProbeSuccess => record_probe_result s idx "success"
  | Some ProbeFailure => record_probe_result s idx "failure"
  | Some ProbeUnmatched | None => []
  end.

(** [on_failure] with the result it is counted as. *)
Definition fail_and_record (unix : Z) (idx : nat) (l : ProbeLoop) : list LoopEvent * ProbeLoop :=
  let (failed, l) := on_failure unix idx l in (if failed then record_probe_result (pl_sched l) idx "send_error" else [], l).
Definition reply_and_record (now unix : Z) (idx : nat) (wire : list Z) (l : ProbeLoop) : list LoopEvent * ProbeLoop :=
  let (outcome, l) := on_reply now unix idx wire l in (record_reply_outcome (pl_sched l) idx outcome, l).

(** 1) Sending what is due. A TCP probe is left to a thread, which reports a [TcpOutcome]. [sent] says
    which sends of the UDP sockets succeed; an index without a transport panics. *)
Fixpoint send_due (transports : list ProbeTransport) (unix : Z) (sent : DueProbe -> bool) (ds : list DueProbe) (l : ProbeLoop) : option (list LoopEvent * ProbeLoop) :=
  match ds with
  | [] => Some ([], l)
  | d :: ds =>
      let! t := transports !! due_idx d in
      let (r, l) := match t with
                    | ProbeUdp => if sent d then ([], l) else fail_and_record unix (due_idx d) l
                    | ProbeTcp _ _ => ([], l)
                    end in
      let! rest := send_due transports unix sent ds l in Some (r ++ rest.1, rest.2)
  end.

Inductive LoopStep :=
  | StepDue (now unix : Z) (sent : DueProbe -> bool)
  | StepTcp (now unix : Z) (o : TcpOutcome)
  | StepExpire (now unix : Z)
  | StepWeights
  | StepDatagram (now unix : Z) (idx : nat) (wire : list Z).

Definition loop_step (transports : list ProbeTransport) (st : LoopStep) (l : ProbeLoop) : option (list LoopEvent * ProbeLoop) :=
  match st with
  | StepDue now unix sent => let (ds, s) := due_probes now (pl_sched l) in 
      let! r := send_due transports unix sent ds (MkLoop s (pl_heap l)) in Some ((Issued now <$> ds) ++ r.1, r.2)
  | StepTcp now unix o =>
      Some (match tcp_wire o with
            | Some wire => reply_and_record now unix (tcp_idx o) wire l
            | None => fail_and_record unix (tcp_idx o) l
            end)
  | StepExpire now unix => let (expired, l) := expire_timeouts now unix l in Some (expired ≫= fun idx => record_probe_result (pl_sched l) idx "timeout", l)
  | StepWeights => let! l := recompute_weight_factors l in Some ([], l)
  | StepDatagram now unix idx wire =>
      match transports !! idx with
      | Some ProbeUdp => Some (reply_and_record now unix idx wire l)
      | _ => Some ([], l)
      end
  end.

Fixpoint loop_steps (transports : list ProbeTransport) (sts : list LoopStep) (l : ProbeLoop) : option (list LoopEvent * ProbeLoop) :=
  match sts with
  | [] => Some ([], l)
  | st :: sts => let! r := loop_step transports st l in let! rest := loop_steps transports sts r.2 in Some (r.1 ++ rest.1, rest.2)
  end.

(** One turn of [run_loop]: what is due, finished TCP probes, timeouts, weights, then a wait and the datagrams of the sockets that became readable. *)
Record Turn := { tn_due : Z * Z * (DueProbe -> bool); tn_tcp : list (Z * Z * TcpOutcome); tn_expire : Z * Z; tn_datagrams : list (Z * Z * nat * list Z) }.
Definition turn_steps (t : Turn) : list LoopStep :=
  [StepDue (tn_due t).1.1 (tn_due t).1.2 (tn_due t).2] ++ ((fun '(now, unix, o) => StepTcp now unix o) <$> tn_tcp t) ++
  [StepExpire (tn_expire t).1 (tn_expire t).2; StepWeights] ++ ((fun '(now, unix, idx, wire) => StepDatagram now unix idx wire) <$> tn_datagrams t).
Definition run_turns (transports : list ProbeTransport) (ts : list Turn) (l : ProbeLoop) : option (list LoopEvent * ProbeLoop) :=
  loop_steps transports (ts ≫= turn_steps) l.

Definition IDLE_POLL_INTERVAL : Z := 100 * NANOS_PER_MILLI.
(** 4) How long the loop waits for datagrams. *)
Definition poll_wait (now : Z) (s : ProbeScheduler) : Z :=
  Z.min (match next_wakeup s with Some w => Z.max 0 (w - now) | None => IDLE_POLL_INTERVAL end) IDLE_POLL_INTERVAL.

(** ** Starting *)

(** The registry as the loop sees it: references to the states. *)
Record RefRegistry := { rr_table : gmap BackendKey Ref; rr_scopes : HealthControlScopes }.

(** [bind_probe_udp] binds this address; [bind_udp] says whether the socket can be bound and connected. *)
Definition probe_bind_ip (source : option IpAddr) (backend : SocketAddr) : IpAddr :=
  let unspecified := if is_ipv4 backend then IpV4 0 else IpV6 0 in
  match source with
  | Some (IpV4 ip) => if is_ipv4 backend then IpV4 ip else unspecified
  | Some (IpV6 ip) => if is_ipv4 backend then unspecified else IpV6 ip
  | None => unspecified
  end.

Section Start.
Context (bind_udp : IpAddr -> SocketAddr -> bool) (use_tcp : bool) (now : Z).

Definition probe_transport (b : CompiledBackendHealth) : option ProbeTransport :=
  if use_tcp then
    Some (match cb_probe_source b with
          | Some (IpV4 ip) => ProbeTcp (Some ip) None
          | Some (IpV6 ip) => ProbeTcp None (Some ip)
          | None => ProbeTcp None None
          end)
  else if bind_udp (probe_bind_ip (cb_probe_source b) (cb_address b)) (cb_address b) then Some ProbeUdp else None.

Definition build_one (registry : RefRegistry) (pool_name : string) (pool : CompiledPoolHealth) (backend : CompiledBackendHealth) (spread : Z)
    : option (BackendProbe * ProbeTransport) * Z :=
  let key := {| bk_pool := pool_name; bk_address := cb_address backend |} in
  match rr_table registry !! key, ProbeSpec_new (cb_probe_qname backend) (cb_probe_qtype backend) (cp_acceptable_rcodes pool), probe_transport backend with
  | Some state, Ok spec, Some transport =>
      let spread := wrap 64 (wrap 64 (spread * 6364136223846793005) + 1) in
      let interval := cp_interval_ms pool * NANOS_PER_MILLI in
      let first_offset := if cp_interval_ms pool =? 0 then 0 else spread mod cp_interval_ms pool * NANOS_PER_MILLI in
      (Some (MkProbe key (cb_address backend) (cb_label backend) (cb_probe_source backend) state spec interval (cp_timeout_ms pool * NANOS_PER_MILLI)
               (cp_rise pool) (cp_fall pool) (cp_latency_ewma_alpha pool) (cp_latency_weighting pool) (cp_latency_floor pool) (now + first_offset) None, transport), spread)
  | _, _, _ => (None, spread)
  end.

Fixpoint build_pool (registry : RefRegistry) (pool_name : string) (pool : CompiledPoolHealth) (backends : list CompiledBackendHealth) (spread : Z)
    : list (BackendProbe * ProbeTransport) * Z :=
  match backends with
  | [] => ([], spread)
  | b :: backends =>
      let (r, spread) := build_one registry pool_name pool b spread in
      let (rest, spread) := build_pool registry pool_name pool backends spread in
      (match r with Some r => r :: rest | None => rest end, spread)
  end.

(** [pools] is the map of the compiled section in the order it is visited. *)
Fixpoint build_backends (pools : list (string * CompiledPoolHealth)) (registry : RefRegistry) (spread : Z) : list (BackendProbe * ProbeTransport) :=
  match pools with
  | [] => []
  | (name, pool) :: pools => let (r, spread) := build_pool registry name pool (cp_backends pool) spread in r ++ build_backends pools registry spread
  end.

(** [spawn_probe_loop]: the transports and the scheduler of the thread, if one is started. *)
Definition spawn_probe_loop (pools : list (string * CompiledPoolHealth)) (registry : RefRegistry) (seed : Z) : option (list ProbeTransport * ProbeScheduler) :=
  match build_backends pools registry seed with
  | [] => None
  | bs => Some (bs.*2, {| sch_rng := seed; sch_backends := bs.*1 |})
  end.
End Start.
End Probes.

(** ** The registry with references *)

Definition deref (h : Heap) (r : RefRegistry) : HealthRegistry :=
  {| table := omap (fun ref => h !! ref) (rr_table r); scopes := rr_scopes r |}.

(** The reference that [reconcile] keeps for a backend. *)
Definition preserved_ref (prev : CompiledHealth) (old : gmap BackendKey Ref) (k : BackendKey) (b : CompiledBackendHealth) : option Ref :=
  let! ref := old !! k in
  let! pp := prev !! bk_pool k in
  let! pb := List.find (fun x => bool_decide (cb_address x = cb_address b)) (cp_backends pp) in
  if probe_semantics_eq pb b then Some ref else None.

(** [HealthRegistry::reconcile], with [Arc::new] as an allocation. *)
Definition reconcile_refs (prev new : CompiledHealth) (r : RefRegistry) (h : Heap) : RefRegistry * Heap :=
  let (t, h) := foldl (fun (th : gmap BackendKey Ref * Heap) '(k, b, p) =>
      match preserved_ref prev (rr_table r) k b with
      | Some ref => (<[k := ref]> th.1, th.2)
      | None => let ref := fresh (dom th.2) in (<[k := ref]> th.1, <[ref := from_initial_policy (cp_initial_state p)]> th.2)
      end) (∅, h) (Health.all_entries new) in
  ({| rr_table := t; rr_scopes := rr_scopes r |}, h).

(** ** Runs *)

Definition outst (b : BackendProbe) : bool := is_someb (bp_outstanding b).

(** The issues ([true]) and results ([false]) of one backend, and when it was issued. *)
Definition idx_trace (idx : nat) (evs : list LoopEvent) : list bool :=
  omap (fun e => match e with
                 | Issued _ d => if decide (due_idx d = idx) then Some true else None
                 | Counted i _ _ _ => if decide (i = idx) then Some false else None
                 end) evs.
Definition issue_times (idx : nat) (evs : list LoopEvent) : list Z :=
  omap (fun e => match e with Issued now d => if decide (due_idx d = idx) then Some now else None | Counted _ _ _ _ => None end) evs.

(** An issue, its result, an issue, its result; [o] says whether a probe is outstanding. *)
Definition alternate_step (o : option bool) (e : bool) : option bool :=
  match o, e with Some false, true => Some true | Some true, false => Some false | _, _ => None end.
Definition alternate (o : bool) (tr : list bool) : option bool := foldl alternate_step (Some o) tr.

(** The counted results: whose, and whether it was a success. *)
Definition outcomes (evs : list LoopEvent) : list (nat * bool) :=
  omap (fun e => match e with Counted i _ _ o => Some (i, String.eqb o "success") | Issued _ _ => None end) evs.

(** The state behind a reference after the results [ps]. *)
Definition probe_state (bs : list BackendProbe) (ref : Ref) (ps : list (nat * Probe)) (s : BackendHealthState) : BackendHealthState :=
  foldl (fun s '(i, x) => match bs !! i with
                          | Some b => if decide (bp_state b = ref) then probe_step (bp_rise b) (bp_fall b) (bp_alpha b) s x else s
                          | None => s
                          end) s ps.

(** All but the weight, which the latencies of others move. *)
Definition weightless (s : BackendHealthState) : BackendHealthState := s <| weight_factor := f64_of_Z 0 |>.

Definition same_probe (b b' : BackendProbe) : Prop := b' <| bp_next_due := bp_next_due b |> <| bp_outstanding := bp_outstanding b |> = b.

(** [t] follows [lo], each by at least [iv]; the next may come at [hi]. *)
Fixpoint spaced (iv lo : Z) (ts : list Z) (hi : Z) : Prop :=
  match ts with [] => lo <= hi | t :: ts => lo <= t /\ spaced iv (t + iv) ts hi end.

Definition sound_backend (b : BackendProbe) : Prop := 0 <= bp_interval b /\ f64_le (bp_latency_floor b) (f64_of_Z 1) = true.
Definition sound (transports : list ProbeTransport) (l : ProbeLoop) : Prop :=
  length transports = length (sch_backends (pl_sched l)) /\ Forall sound_backend (sch_backends (pl_sched l)).

Lemma spaced_weaken iv ts : forall lo lo' hi hi', lo <= lo' -> hi <= hi' -> spaced iv lo' ts hi -> spaced iv lo ts hi'.
Proof.
  induction ts as [|t ts IH]; intros lo lo' hi hi' H1 H2; cbn; [lia|]. intros [? Hs]. split; [lia|]. eapply IH; [|exact H2|exact Hs]. lia.
Qed.
Lemma spaced_app iv ts ts' : forall lo m hi, spaced iv lo ts m -> spaced iv m ts' hi -> spaced iv lo (ts ++ ts') hi.
Proof.
  induction ts as [|t ts IH]; intros lo m hi; cbn; [|intros [? Hs] H'; split; [done|]; by eapply IH].
  intros Hle Hs. eapply spaced_weaken; [exact Hle|reflexivity|exact Hs].
Qed.
Lemma spaced_gap iv ts : forall lo hi k t t', spaced iv lo ts hi -> ts !! k = Some t -> ts !! S k = Some t' -> t + iv <= t'.
Proof.
  induction ts as [|u ts IH]; intros lo hi k t t'; [done|]. intros [_ Hs] Hk Hk'. destruct k as [|k]; [|by eapply IH].
  injection Hk as ->. cbn in Hk'. destruct ts as [|v ts]; [done|]. injection Hk' as ->. apply Hs.
Qed.

Lemma alternate_app o tr tr' o' : alternate o tr = Some o' -> alternate o (tr ++ tr') = alternate o' tr'.
Proof. unfold alternate. rewrite foldl_app. by intros ->. Qed.

Lemma same_probe_fields b b' : same_probe b b' ->
  bp_key b' = bp_key b /\ bp_label b' = bp_label b /\ bp_state b' = bp_state b /\ bp_spec b' = bp_spec b /\ bp_interval b' = bp_interval b /\ bp_timeout b' = bp_timeout b /\
  bp_rise b' = bp_rise b /\ bp_fall b' = bp_fall b /\ bp_alpha b' = bp_alpha b /\ bp_latency_floor b' = bp_latency_floor b.
Proof. by intros <-. Qed.
#[export] Instance same_probe_refl : Reflexive same_probe.
Proof. by intros []. Qed.
#[export] Instance same_probe_trans : Transitive same_probe.
Proof. intros [] [] [] [=] [=]. subst. done. Qed.

Lemma probe_step_weightless rise fall alpha s s' x : weightless s = weightless s' -> weightless (probe_step rise fall alpha s x) = weightless (probe_step rise fall alpha s' x).
Proof.
  destruct s, s', x as [u [rtt|]]; intros [=]; subst; unfold probe_step, record_success, record_failure, observe, set_applied, note_transition, update_ewma; cbn;
    repeat (case_match; cbn in *; simplify_eq); done.
Qed.

Lemma probe_state_weightless bs ref ps : forall s s', weightless s = weightless s' -> weightless (probe_state bs ref ps s) = weightless (probe_state bs ref ps s').
Proof.
  induction ps as [|[i x] ps IH]; intros s s' Hs; [done|]. cbn. apply IH. destruct (bs !! i); [|done]. case_decide; [|done]. by apply probe_step_weightless.
Qed.
Lemma probe_state_app bs ref ps ps' s : probe_state bs ref (ps ++ ps') s = probe_state bs ref ps' (probe_state bs ref ps s).
Proof. apply foldl_app. Qed.

Lemma max_jitter_nonneg interval : 0 <= max_jitter_ms interval.
Proof. unfold max_jitter_ms, wrap. apply Z.div_pos; [|lia]. apply Z.mod_pos_bound. lia. Qed.

Lemma jitter_bounds interval rng j rng' : jitter interval rng = (j, rng') -> 0 <= j <= max_jitter_ms interval * NANOS_PER_MILLI.
Proof.
  pose proof (max_jitter_nonneg interval). unfold jitter. destruct (Z.eqb_spec (max_jitter_ms interval) 0) as [E|]; [intros [= <- <-]; rewrite E; lia|].
  destruct (next_u64 rng) as [x r]. intros [= <- <-]. pose proof (Z.mod_pos_bound x (max_jitter_ms interval + 1)). unfold NANOS_PER_MILLI. nia.
Qed.

Section Runs.
Context `{DnsCodec} (name_eq : string -> string -> bool).

(** The primitive changes of a run, with the events and the results they make. *)
Inductive moves : ProbeLoop -> list LoopEvent -> list (nat * Probe) -> ProbeLoop -> Prop :=
  | mv_none l : moves l [] [] l
  | mv_due now l ds s : due_probes now (pl_sched l) = (ds, s) -> moves l (Issued now <$> ds) [] (MkLoop s (pl_heap l))
  | mv_end l idx b outcome x : sch_backends (pl_sched l) !! idx = Some b -> outst b = true -> good x = String.eqb outcome "success" ->
      moves l [Counted idx (bk_pool (bp_key b)) (bp_label b) outcome] [(idx, x)]
        (MkLoop (set_backend_probe idx (b <| bp_outstanding := None |>) (pl_sched l)) (alter (fun s => probe_step (bp_rise b) (bp_fall b) (bp_alpha b) s x) (bp_state b) (pl_heap l)))
  | mv_damp l h : weightless <$> h = weightless <$> pl_heap l -> moves l [] [] (MkLoop (pl_sched l) h)
  | mv_trans l1 l2 l3 evs evs' ps ps' : moves l1 evs ps l2 -> moves l2 evs' ps' l3 -> moves l1 (evs ++ evs') (ps ++ ps') l3.

(** *** What [due_probes] does *)

Lemma due_one_cases now idx b rng d b' rng' : due_one now idx b rng = (d, b', rng') ->
  (d = None /\ b' = b /\ (outst b = true \/ now < bp_next_due b)) \/
  (outst b = false /\ bp_next_due b <= now /\
   ((d = None /\ b' = b <| bp_next_due := now + bp_interval b |> /\ exists qid e, build_query (bp_spec b) qid = Err e) \/
    exists dp o j, d = Some dp /\ due_idx dp = idx /\ out_deadline o = now + bp_timeout b /\ 0 <= j <= max_jitter_ms (bp_interval b) * NANOS_PER_MILLI /\
      b' = b <| bp_outstanding := Some o |> <| bp_next_due := now + bp_interval b + j |>)).
Proof.
  unfold due_one, outst. destruct (is_someb (bp_outstanding b)) eqn:Eo; cbn [orb]; [intros [= <- <- <-]; auto|].
  destruct (Z.ltb_spec now (bp_next_due b)); [intros [= <- <- <-]; auto|]. destruct (next_u64 rng) as [x r1]. destruct (jitter (bp_interval b) r1) as [j r2] eqn:Ej.
  apply jitter_bounds in Ej. destruct (build_query (bp_spec b) (wrap 16 x)) as [w|e] eqn:Eb; intros [= <- <- <-]; right; (split_and!; [done..|]).
  - right. eexists _, {| out_qid := _; out_sent_at := now; out_deadline := _ |}, j. split_and!; try reflexivity; lia.
  - left. split_and!; [done..|]. eauto.
Qed.

Lemma due_from_range now bs : forall k rng ds bs' rng', due_from now k bs rng = (ds, bs', rng') -> length bs' = length bs /\ Forall (fun d => (k <= due_idx d < k + length bs)%nat) ds.
Proof.
  induction bs as [|b bs IH]; intros k rng ds bs' rng' Hd; cbn in Hd; [injection Hd as <- <- <-; by split|].
  destruct (due_one now k b rng) as [[d b1] r1] eqn:E1. destruct (due_from now (S k) bs r1) as [[ds1 bs1] r2] eqn:E2. injection Hd as <- <- <-.
  apply IH in E2 as [Hl Hf]. split; [cbn; lia|]. assert (Forall (fun d => (k <= due_idx d < k + length (b :: bs))%nat) ds1) as Hf' by (eapply Forall_impl; [exact Hf|]; cbn; lia).
  destruct d as [d|]; [|done]. constructor; [|done].
  apply due_one_cases in E1 as [(? & _)|(_ & _ & [(? & _)|(dp & o & j & [= <-] & -> & _)])]; [done..|]. cbn. lia.
Qed.

Lemma due_from_at now bs : forall k rng ds bs' rng' i b, due_from now k bs rng = (ds, bs', rng') -> bs !! i = Some b ->
  exists r d b' r', bs' !! i = Some b' /\ due_one now (k + i) b r = (d, b', r') /\ filter (fun d => due_idx d = k + i)%nat ds = option_list d.
Proof.
  induction bs as [|b0 bs IH]; intros k rng ds bs' rng' i b Hd Hi; [done|]. cbn in Hd. destruct (due_one now k b0 rng) as [[d b1] r1] eqn:E1.
  destruct (due_from now (S k) bs r1) as [[ds1 bs1] r2] eqn:E2. injection Hd as <- <- <-. pose proof (proj2 (due_from_range _ _ _ _ _ _ _ E2)) as Hr.
  assert (forall dp, d = Some dp -> due_idx dp = k) as Hk.
  { intros dp ->. by apply due_one_cases in E1 as [(? & _)|(_ & _ & [(? & _)|(dp' & o & j & [= <-] & -> & _)])]. }
  destruct i as [|i]; cbn in Hi.
  - injection Hi as ->. exists rng, d, b1, r1. rewrite Nat.add_0_r. split_and!; [done|done|].
    assert (filter (fun d => due_idx d = k) ds1 = []) as Hn.
    { clear -Hr. induction Hr as [|d ds1 ? _ IH]; [done|]. rewrite filter_cons_False; [done|lia]. }
    destruct d as [dp|]; [|exact Hn]. rewrite filter_cons_True, Hn by auto. done.
  - destruct (IH _ _ _ _ _ _ _ E2 Hi) as (r & d' & b' & r' & Hb & Hone & Hf). exists r, d', b', r'. replace (k + S i)%nat with (S k + i)%nat by lia. split_and!; [done|done|].
    destruct d as [dp|]; [|done]. rewrite filter_cons_False; [done|]. rewrite (Hk dp) by done. lia.
Qed.

Lemma trace_of_issues idx now ds : idx_trace idx (Issued now <$> ds) = (fun _ => true) <$> filter (fun d => due_idx d = idx) ds.
Proof. induction ds as [|d ds IH]; [done|]. rewrite fmap_cons, filter_cons. unfold idx_trace in *. cbn [omap list_omap]. case_decide; rewrite ?fmap_cons; by rewrite IH. Qed.
Lemma times_of_issues idx now ds : issue_times idx (Issued now <$> ds) = (fun _ => now) <$> filter (fun d => due_idx d = idx) ds.
Proof. induction ds as [|d ds IH]; [done|]. rewrite fmap_cons, filter_cons. unfold issue_times in *. cbn [omap list_omap]. case_decide; rewrite ?fmap_cons; by rewrite IH. Qed.
Lemma outcomes_of_issues now ds : outcomes (Issued now <$> ds) = [].
Proof. by induction ds. Qed.

(** *** Invariants of runs *)

Lemma moves_backend l evs ps l' : moves l evs ps l' -> forall idx b, sch_backends (pl_sched l) !! idx = Some b -> 0 <= bp_interval b ->
  exists b', sch_backends (pl_sched l') !! idx = Some b' /\ same_probe b b' /\ alternate (outst b) (idx_trace idx evs) = Some (outst b') /\
    spaced (bp_interval b) (bp_next_due b) (issue_times idx evs) (bp_next_due b').
Proof.
  induction 1 as [l|now l ds s Hd|l i bi outcome x Hi Ho Hx|l h Hh|l1 l2 l3 e1 e2 p1 p2 _ IH1 _ IH2]; intros idx b Hb Hiv.
  - exists b. split_and!; [done|done|done|cbn; lia].
  - unfold due_probes in Hd. destruct (due_from _ _ _ _) as [[ds1 bs] r] eqn:E. injection Hd as <- <-.
    destruct (due_from_at _ _ _ _ _ _ _ _ _ E Hb) as (r0 & d & b' & r1 & Hb' & Hone & Hf). exists b'. cbn [Nat.add] in Hone, Hf. rewrite trace_of_issues, times_of_issues, Hf.
    split; [done|]. apply due_one_cases in Hone as [(-> & -> & _)|(Ho & Hle & [(-> & -> & _)|(dp & o & j & -> & _ & _ & Hj & ->)])]; cbn.
    + split_and!; [done|done|lia].
    + split_and!; [by destruct b|done|lia].
    + rewrite Ho. split_and!; [by destruct b|done|lia|lia].
  - cbn. destruct (decide (i = idx)) as [->|Hne].
    + rewrite Hb in Hi. injection Hi as <-. exists (b <| bp_outstanding := None |>). rewrite list_lookup_insert_eq by (by eapply lookup_lt_Some).
      split_and!; [done|by destruct b| |cbn; lia]. cbn. by rewrite Ho.
    + exists b. rewrite list_lookup_insert_ne by done. split_and!; [done|done| |cbn; lia]. unfold idx_trace. cbn. by rewrite ?decide_False by done.
  - exists b. split_and!; [done|done|done|cbn; lia].
  - destruct (IH1 idx b Hb Hiv) as (b1 & Hb1 & S1 & A1 & T1). destruct (same_probe_fields _ _ S1) as (_ & _ & _ & _ & Ei & _).
    destruct (IH2 idx b1 Hb1) as (b2 & Hb2 & S2 & A2 & T2); [by rewrite Ei|]. exists b2. unfold idx_trace, issue_times. rewrite !omap_app.
    split_and!; [done|by etrans| |]; [by erewrite alternate_app|]. rewrite Ei in T2. by eapply spaced_app.
Qed.

Lemma moves_length l evs ps l' : moves l evs ps l' -> length (sch_backends (pl_sched l')) = length (sch_backends (pl_sched l)).
Proof.
  induction 1 as [l|now l ds s Hd|l i bi outcome x Hi Ho Hx|l h Hh|l1 l2 l3 e1 e2 p1 p2 _ IH1 _ IH2]; [done| |by cbn; rewrite length_insert|done|by etrans].
  unfold due_probes in Hd. destruct (due_from _ _ _ _) as [[ds1 bs] r] eqn:E. injection Hd as <- <-. by apply due_from_range in E as [? _].
Qed.

Lemma moves_back l evs ps l' idx b' : moves l evs ps l' -> Forall sound_backend (sch_backends (pl_sched l)) -> sch_backends (pl_sched l') !! idx = Some b' ->
  exists b, sch_backends (pl_sched l) !! idx = Some b /\ same_probe b b'.
Proof.
  intros Hm Hs Hb'. destruct (sch_backends (pl_sched l) !! idx) as [b|] eqn:Hb.
  - exists b. split; [done|]. destruct (moves_backend _ _ _ _ Hm idx b Hb) as (b1 & Hb1 & ? & _); [by destruct (Forall_lookup_1 _ _ _ _ Hs Hb)|]. rewrite Hb1 in Hb'. by injection Hb' as ->.
  - apply lookup_lt_Some in Hb'. apply lookup_ge_None in Hb. apply moves_length in Hm. lia.
Qed.

Lemma moves_forall l evs ps l' : moves l evs ps l' -> Forall sound_backend (sch_backends (pl_sched l)) -> Forall sound_backend (sch_backends (pl_sched l')).
Proof.
  intros Hm Hs. apply Forall_lookup. intros idx b' Hb'. destruct (moves_back _ _ _ _ _ _ Hm Hs Hb') as (b & Hb & Hsame).
  destruct (same_probe_fields _ _ Hsame) as (_ & _ & _ & _ & Ei & _ & _ & _ & _ & Ef). unfold sound_backend. rewrite Ei, Ef. by apply (Forall_lookup_1 _ _ _ _ Hs Hb).
Qed.

Lemma moves_sound transports l evs ps l' : moves l evs ps l' -> sound transports l -> sound transports l'.
Proof. intros Hm [Hl Hs]. split; [by rewrite (moves_length _ _ _ _ Hm)|by eapply moves_forall]. Qed.

Lemma moves_labels transports l evs ps l' : moves l evs ps l' -> sound transports l -> forall idx outcome, record_probe_result (pl_sched l') idx outcome = record_probe_result (pl_sched l) idx outcome.
Proof.
  intros Hm [_ Hs] idx outcome. unfold record_probe_result, backend_labels. destruct (sch_backends (pl_sched l) !! idx) as [b|] eqn:Hb.
  - destruct (moves_backend _ _ _ _ Hm idx b Hb) as (b' & -> & Hsame & _); [by destruct (Forall_lookup_1 _ _ _ _ Hs Hb)|]. cbn. by destruct (same_probe_fields _ _ Hsame) as (-> & -> & _).
  - apply lookup_ge_None in Hb. rewrite <-(moves_length _ _ _ _ Hm) in Hb. by apply lookup_ge_None in Hb as ->.
Qed.

Lemma moves_outcomes l evs ps l' : moves l evs ps l' -> outcomes evs = (fun ix => (ix.1, good ix.2)) <$> ps.
Proof.
  induction 1 as [l|now l ds s Hd|l i bi outcome x Hi Ho Hx|l h Hh|l1 l2 l3 e1 e2 p1 p2 _ IH1 _ IH2]; [done|apply outcomes_of_issues| |done|].
  - cbn. by rewrite Hx.
  - unfold outcomes in *. by rewrite omap_app, fmap_app, IH1, IH2.
Qed.

Lemma probe_state_same bs bs' ref ps s : (forall i b, bs !! i = Some b -> exists b', bs' !! i = Some b' /\ same_probe b b') -> length bs' = length bs ->
  probe_state bs' ref ps s = probe_state bs ref ps s.
Proof.
  intros Hb Hl. unfold probe_state. apply foldl_ext. intros s0 [i x]. destruct (bs !! i) as [b|] eqn:E.
  - destruct (Hb i b E) as (b' & -> & Hs). by destruct (same_probe_fields _ _ Hs) as (_ & _ & -> & _ & _ & _ & -> & -> & -> & _).
  - apply lookup_ge_None in E. rewrite <-Hl in E. by apply lookup_ge_None in E as ->.
Qed.

Lemma moves_states l evs ps l' : moves l evs ps l' -> Forall sound_backend (sch_backends (pl_sched l)) ->
  forall ref, weightless <$> pl_heap l' !! ref = (fun s => weightless (probe_state (sch_backends (pl_sched l)) ref ps s)) <$> pl_heap l !! ref.
Proof.
  induction 1 as [l|now l ds s Hd|l i bi outcome x Hi Ho Hx|l h Hh|l1 l2 l3 e1 e2 p1 p2 Hm1 IH1 Hm2 IH2]; intros Hs ref; [done|done| | |].
  - unfold probe_state. cbn [pl_heap foldl]. rewrite Hi. case_decide as Er; [subst ref; rewrite lookup_alter_eq|by rewrite lookup_alter_ne]. by destruct (pl_heap l !! _).
  - cbn [pl_heap]. by rewrite <-lookup_fmap, Hh, lookup_fmap.
  - rewrite IH2 by (by eapply moves_forall). specialize (IH1 Hs ref). destruct (pl_heap l2 !! ref) as [s2|], (pl_heap l1 !! ref) as [s1|]; try done. cbn in *. apply (inj Some) in IH1.
    f_equal. rewrite probe_state_app, (probe_state_same (sch_backends (pl_sched l1))); [by apply probe_state_weightless| |by eapply moves_length].
    intros i b Hb. destruct (moves_backend _ _ _ _ Hm1 i b Hb) as (b' & ? & ? & _); [by destruct (Forall_lookup_1 _ _ _ _ Hs Hb)|]. eauto.
Qed.

(** *** The steps of the loop are such runs, and none panics *)

Lemma fail_moves unix idx b l outcome : sch_backends (pl_sched l) !! idx = Some b -> outst b = true -> String.eqb outcome "success" = false ->
  moves l (record_probe_result (pl_sched l) idx outcome) [(idx, (unix, None))] (fail unix idx b l).
Proof. intros Hb Ho Hn. unfold record_probe_result, backend_labels. rewrite Hb. cbn. by apply (mv_end l idx b outcome (unix, None)). Qed.

Lemma succeed_moves now unix idx b o l : sch_backends (pl_sched l) !! idx = Some b -> bp_outstanding b = Some o ->
  exists x, moves l (record_probe_result (pl_sched l) idx "success") [(idx, x)] (succeed now unix idx b o l).
Proof.
  intros Hb Ho. eexists (unix, Some _). unfold record_probe_result, backend_labels. rewrite Hb. cbn.
  apply (mv_end l idx b "success" (unix, Some (f64_mul (as_secs_f64 (Z.max 0 (now - out_sent_at o))) (f64_of_Z 1000)))); [done|unfold outst; by rewrite Ho|done].
Qed.

Lemma fail_and_record_moves transports unix idx l r l' : sound transports l -> fail_and_record unix idx l = (r, l') -> exists ps, moves l r ps l'.
Proof.
  intros Hs. unfold fail_and_record, on_failure. destruct (sch_backends (pl_sched l) !! idx) as [b|] eqn:Hb; [|intros [= <- <-]; eexists; constructor].
  destruct (is_someb (bp_outstanding b)) eqn:Ho; intros [= <- <-]; [|eexists; constructor]. eexists. pose proof (fail_moves unix idx b l "send_error" Hb Ho eq_refl) as Hm.
  by rewrite (moves_labels _ _ _ _ _ Hm Hs).
Qed.

Lemma reply_and_record_moves transports now unix idx wire l r l' : sound transports l -> reply_and_record name_eq now unix idx wire l = (r, l') -> exists ps, moves l r ps l'.
Proof.
  intros Hs. unfold reply_and_record, on_reply. destruct (sch_backends (pl_sched l) !! idx) as [b|] eqn:Hb; [|intros [= <- <-]; eexists; constructor].
  destruct (bp_outstanding b) as [o|] eqn:Ho; [|intros [= <- <-]; eexists; constructor]. assert (outst b = true) as Ho' by (unfold outst; by rewrite Ho).
  destruct (classify_response _ _ _ _); intros [= <- <-]; cbn [record_reply_outcome]; [| |eexists; constructor].
  - destruct (succeed_moves now unix idx b o l Hb Ho) as [x Hm]. eexists. by rewrite (moves_labels _ _ _ _ _ Hm Hs).
  - pose proof (fail_moves unix idx b l "failure" Hb Ho' eq_refl) as Hm. eexists. by rewrite (moves_labels _ _ _ _ _ Hm Hs).
Qed.

Lemma send_due_moves transports unix sent ds : forall l, sound transports l -> Forall (fun d => (due_idx d < length transports)%nat) ds ->
  exists evs ps l', send_due transports unix sent ds l = Some (evs, l') /\ moves l evs ps l'.
Proof.
  induction ds as [|d ds IH]; intros l Hs Hd; [eexists _, _, _; split; [done|constructor]|]. apply Forall_cons in Hd as [Hd Hds]. cbn [send_due].
  apply lookup_lt_is_Some in Hd as [t ->]. cbn.
  assert (exists r l1 ps, (match t with ProbeUdp => if sent d then ([], l) else fail_and_record unix (due_idx d) l | ProbeTcp _ _ => ([], l) end) = (r, l1) /\ moves l r ps l1)
    as (r & l1 & ps & -> & Hm).
  { destruct t; [destruct (sent d)|]; try (eexists _, _, _; split; [done|constructor]).
    destruct (fail_and_record unix (due_idx d) l) as [r l1] eqn:E. destruct (fail_and_record_moves _ _ _ _ _ _ Hs E) as [ps Hm]. eauto. }
  destruct (IH l1) as (evs & ps' & l' & -> & Hm'); [by eapply moves_sound|done|]. eexists _, _, _. split; [done|]. by eapply mv_trans.
Qed.

Lemma expire_from_moves transports now unix idxs : forall l ex l', sound transports l -> expire_from now unix idxs l = (ex, l') ->
  exists ps, moves l (ex ≫= fun idx => record_probe_result (pl_sched l) idx "timeout") ps l'.
Proof.
  induction idxs as [|idx idxs IH]; intros l ex l' Hs He; cbn in He; [injection He as <- <-; eexists; constructor|].
  destruct (sch_backends (pl_sched l) !! idx) as [b|] eqn:Hb; [|by apply IH]. destruct (timed_out now b) eqn:Et; [|by apply IH].
  destruct (expire_from now unix idxs (fail unix idx b l)) as [ex1 l1] eqn:E. injection He as <- <-.
  assert (outst b = true) as Ho by (unfold timed_out, outst in *; by destruct (bp_outstanding b)). pose proof (fail_moves unix idx b l "timeout" Hb Ho eq_refl) as Hm.
  apply IH in E as [ps Hm']; [|by eapply moves_sound]. eexists. rewrite bind_cons. eapply mv_trans; [exact Hm|]. erewrite list_bind_ext; [exact Hm'| |reflexivity].
  intros i. symmetry. by eapply moves_labels.
Qed.

Lemma target_factor_ok m b s : sound_backend b -> is_Some (target_factor m b s).
Proof.
  intros [_ Hf]. unfold target_factor. destruct (m !! _), (latency_ewma_ms s); try by eexists. destruct (f64_lt _ _); [|by eexists]. unfold f64_clamp. rewrite Hf. by eexists.
Qed.

Lemma damp_all_weightless m bs : Forall sound_backend bs -> forall h, exists h', damp_all m bs h = Some h' /\ weightless <$> h' = weightless <$> h.
Proof.
  induction 1 as [|b bs Hb _ IH]; intros h; cbn [damp_all]; [by eexists|]. destruct (negb _); [apply IH|]. destruct (h !! bp_state b) as [s|] eqn:Es; [|apply IH].
  destruct (target_factor_ok m b s Hb) as [f ->]. cbn. destruct (IH (<[bp_state b := damp_weight_factor s f WEIGHT_FACTOR_DAMPING]> h)) as (h' & -> & Hw). exists h'. split; [done|].
  rewrite Hw, fmap_insert. apply insert_id. rewrite lookup_fmap, Es. done.
Qed.

Lemma loop_step_moves transports st l : sound transports l -> exists evs ps l', loop_step name_eq transports st l = Some (evs, l') /\ moves l evs ps l'.
Proof.
  intros Hs. destruct st as [now unix sent|now unix o|now unix| |now unix idx wire]; cbn [loop_step].
  - destruct (due_probes now (pl_sched l)) as [ds s] eqn:Ed. pose proof (mv_due now l ds s Ed) as Hm.
    assert (Forall (fun d => (due_idx d < length transports)%nat) ds) as Hr.
    { unfold due_probes in Ed. destruct (due_from _ _ _ _) as [[ds1 bs] r] eqn:E. injection Ed as <- <-. apply due_from_range in E as [_ E]. eapply Forall_impl; [exact E|].
      destruct Hs as [-> _]. cbn. lia. }
    destruct (send_due_moves transports unix sent ds (MkLoop s (pl_heap l))) as (evs & ps & l' & -> & Hm'); [by eapply moves_sound|done|].
    eexists _, _, _. split; [done|]. by eapply mv_trans.
  - destruct (tcp_wire o) as [wire|].
    + destruct (reply_and_record _ _ _ _ _ _) as [r l1] eqn:E. apply (reply_and_record_moves transports) in E as [ps Hm]; [|done]. eauto.
    + destruct (fail_and_record _ _ _) as [r l1] eqn:E. apply (fail_and_record_moves transports) in E as [ps Hm]; [|done]. eauto.
  - destruct (expire_timeouts now unix l) as [ex l1] eqn:E. unfold expire_timeouts in E. apply (expire_from_moves transports) in E as [ps Hm]; [|done].
    eexists _, _, _. split; [done|]. erewrite list_bind_ext; [exact Hm| |reflexivity]. intros i. by eapply moves_labels.
  - unfold recompute_weight_factors. destruct (damp_all_weightless (pool_min (pl_heap l) (sch_backends (pl_sched l))) _ (proj2 Hs) (pl_heap l)) as (h' & -> & Hw).
    eexists _, _, _. split; [done|]. by apply mv_damp.
  - destruct (transports !! idx) as [[|? ?]|]; try (eexists _, _, _; split; [done|constructor]).
    destruct (reply_and_record _ _ _ _ _ _) as [r l1] eqn:E. apply (reply_and_record_moves transports) in E as [ps Hm]; [|done]. eauto.
Qed.

Lemma loop_steps_moves transports sts : forall l, sound transports l -> exists evs ps l', loop_steps name_eq transports sts l = Some (evs, l') /\ moves l evs ps l'.
Proof.
  induction sts as [|st sts IH]; intros l Hs; [eexists _, _, _; split; [done|constructor]|]. destruct (loop_step_moves transports st l Hs) as (evs & ps & l1 & E & Hm).
  cbn [loop_steps]. rewrite E. cbn. destruct (IH l1) as (evs' & ps' & l' & -> & Hm'); [by eapply moves_sound|]. eexists _, _, _. split; [done|]. by eapply mv_trans.
Qed.

(** *** Probes keep coming *)

Lemma moves_quiet l evs ps l' idx b : moves l evs ps l' -> sch_backends (pl_sched l) !! idx = Some b -> (forall qid, exists w, build_query (bp_spec b) qid = Ok w) ->
  issue_times idx evs = [] ->
  exists b', sch_backends (pl_sched l') !! idx = Some b' /\ same_probe b b' /\ bp_next_due b' = bp_next_due b /\ (bp_outstanding b' = bp_outstanding b \/ bp_outstanding b' = None).
Proof.
  intros Hm. revert b. induction Hm as [l|now l ds s Hd|l i bi outcome x Hi Ho Hx|l h Hh|l1 l2 l3 e1 e2 p1 p2 Hm1 IH1 Hm2 IH2]; intros b Hb Hw Hq.
  - exists b. by split_and!; auto.
  - unfold due_probes in Hd. destruct (due_from _ _ _ _) as [[ds1 bs] r] eqn:E. injection Hd as <- <-.
    destruct (due_from_at _ _ _ _ _ _ _ _ _ E Hb) as (r0 & d & b' & r1 & Hb' & Hone & Hf). exists b'. cbn [Nat.add] in Hone, Hf. rewrite times_of_issues, Hf in Hq.
    apply due_one_cases in Hone as [(-> & -> & _)|(_ & _ & [(_ & _ & qid & e & He)|(dp & o & j & -> & _)])]; [by split_and!; auto| |done].
    destruct (Hw qid) as [w Hw']. congruence.
  - cbn. destruct (decide (i = idx)) as [->|Hne].
    + rewrite Hb in Hi. injection Hi as <-. exists (b <| bp_outstanding := None |>). rewrite list_lookup_insert_eq by (by eapply lookup_lt_Some). split_and!; auto. by destruct b.
    + exists b. rewrite list_lookup_insert_ne by done. by split_and!; auto.
  - exists b. by split_and!; auto.
  - unfold issue_times in Hq. rewrite omap_app in Hq. apply app_nil in Hq as [Hq1 Hq2]. destruct (IH1 b Hb Hw Hq1) as (b1 & Hb1 & S1 & N1 & O1).
    destruct (same_probe_fields _ _ S1) as (_ & _ & _ & Es & _). rewrite <-Es in Hw. destruct (IH2 b1 Hb1 Hw Hq2) as (b2 & Hb2 & S2 & N2 & O2). exists b2.
    split_and!; [done|by etrans|congruence|]. destruct O2 as [->|]; auto.
Qed.

Lemma fail_lookup unix i b l idx b' : sch_backends (pl_sched l) !! i = Some b -> sch_backends (pl_sched (fail unix i b l)) !! idx = Some b' ->
  (i = idx /\ bp_outstanding b' = None) \/ (i <> idx /\ sch_backends (pl_sched l) !! idx = Some b').
Proof.
  intros Hb. cbn. destruct (decide (i = idx)) as [->|]; [|rewrite list_lookup_insert_ne by done; auto]. rewrite list_lookup_insert_eq by (by eapply lookup_lt_Some). intros [= <-]. by left.
Qed.

Lemma expire_from_expires now unix idxs idx : forall l ex l' b', expire_from now unix idxs l = (ex, l') -> sch_backends (pl_sched l') !! idx = Some b' ->
  (idx ∈ idxs \/ (forall b, sch_backends (pl_sched l) !! idx = Some b -> timed_out now b = false)) -> timed_out now b' = false.
Proof.
  induction idxs as [|i idxs IH]; intros l ex l' b' He Hb' Hc; cbn in He.
  { injection He as <- <-. destruct Hc as [Hc|Hc]; [by apply elem_of_nil in Hc|auto]. }
  destruct (sch_backends (pl_sched l) !! i) as [b|] eqn:Hi.
  - destruct (timed_out now b) eqn:Et.
    + destruct (expire_from _ _ _ _) as [ex1 l1] eqn:E. injection He as <- <-. eapply IH; [exact E|exact Hb'|]. rewrite elem_of_cons in Hc.
      destruct Hc as [[->|?]|Hc]; [right|by left|right]; intros b0 H0; apply (fail_lookup unix i b) in H0 as [[_ H0]|[Hne H0]]; try done; [unfold timed_out; by rewrite H0..|by apply Hc].
    + eapply IH; [exact He|exact Hb'|]. rewrite elem_of_cons in Hc. destruct Hc as [[->|?]|Hc]; [right|by left|by right]. intros b0. rewrite Hi. by intros [= <-].
  - eapply IH; [exact He|exact Hb'|]. rewrite elem_of_cons in Hc. destruct Hc as [[->|?]|Hc]; [right|by left|by right]. intros b0. by rewrite Hi.
Qed.

Lemma loop_steps_app transports a b l ea la eb lb : loop_steps name_eq transports a l = Some (ea, la) -> loop_steps name_eq transports b la = Some (eb, lb) ->
  loop_steps name_eq transports (a ++ b) l = Some (ea ++ eb, lb).
Proof.
  revert l ea. induction a as [|st a IH]; intros l ea; cbn [app loop_steps]; [by intros [= <- <-]|].
  destruct (loop_step _ _ _ _) as [[e1 l1]|]; [|done]. cbn. destruct (loop_steps name_eq transports a l1) as [[e2 l2]|] eqn:E; [|done]. cbn. intros [= <- <-] Hb.
  rewrite (IH l1 e2) by done. cbn. by rewrite app_assoc.
Qed.

Lemma loop_step_one transports st l : loop_steps name_eq transports [st] l = loop_step name_eq transports st l.
Proof. cbn. destruct (loop_step _ _ _ _) as [[e l']|]; [|done]. cbn. by rewrite app_nil_r. Qed.

(** The step [StepDue] issues what is due. *)
Lemma due_step_issues transports n u sent l idx b evs l' : sch_backends (pl_sched l) !! idx = Some b -> (forall qid, exists w, build_query (bp_spec b) qid = Ok w) ->
  bp_outstanding b = None -> bp_next_due b <= n -> loop_step name_eq transports (StepDue n u sent) l = Some (evs, l') -> issue_times idx evs <> [].
Proof.
  intros Hb Hw Ho Hn Hst. cbn [loop_step] in Hst. destruct (due_probes n (pl_sched l)) as [ds s] eqn:Ed. destruct (send_due _ _ _ _ _) as [r|]; [|done]. injection Hst as <- <-.
  unfold issue_times. rewrite omap_app. fold (issue_times idx (Issued n <$> ds)). unfold due_probes in Ed. destruct (due_from _ _ _ _) as [[ds1 bs] rn] eqn:E. injection Ed as <- <-.
  destruct (due_from_at _ _ _ _ _ _ _ _ _ E Hb) as (r0 & d & b' & r1 & Hb' & Hone & Hf). cbn [Nat.add] in Hone, Hf. rewrite times_of_issues, Hf.
  apply due_one_cases in Hone as [(_ & _ & [Hc|Hc])|(_ & _ & [(_ & _ & qid & e & He)|(dp & o & j & -> & _)])]; [unfold outst in Hc; by rewrite Ho in Hc|lia| |done].
  destruct (Hw qid) as [w Hw']. congruence.
Qed.

Lemma expire_step_expires transports e u l idx b' evs l' : sound transports l -> loop_step name_eq transports (StepExpire e u) l = Some (evs, l') ->
  sch_backends (pl_sched l') !! idx = Some b' -> timed_out e b' = false.
Proof.
  intros Hs Hst Hb'. pose proof Hst as Hst'. cbn [loop_step] in Hst. destruct (expire_timeouts e u l) as [ex l1] eqn:E. injection Hst as <- <-.
  eapply expire_from_expires; [exact E|exact Hb'|]. left. apply elem_of_seq. split; [lia|]. apply lookup_lt_Some in Hb'.
  destruct (expire_from_moves transports _ _ _ _ _ _ Hs E) as [ps Hm]. apply moves_length in Hm. lia.
Qed.

Lemma steps_issue_again transports sts1 e u sts2 n u' sent sts3 l idx b : sound transports l -> sch_backends (pl_sched l) !! idx = Some b ->
  (forall qid, exists w, build_query (bp_spec b) qid = Ok w) -> (forall o, bp_outstanding b = Some o -> out_deadline o <= e) -> bp_next_due b <= n ->
  exists evs l', loop_steps name_eq transports (sts1 ++ [StepExpire e u] ++ sts2 ++ [StepDue n u' sent] ++ sts3) l = Some (evs, l') /\ issue_times idx evs <> [].
Proof.
  intros Hs Hb Hw Ho Hn. destruct (loop_steps_moves transports sts1 l Hs) as (e1 & p1 & l1 & E1 & M1). pose proof (moves_sound _ _ _ _ _ M1 Hs) as Hs1.
  destruct (loop_step_moves transports (StepExpire e u) l1 Hs1) as (e2 & p2 & l2 & E2 & M2). pose proof (moves_sound _ _ _ _ _ M2 Hs1) as Hs2.
  destruct (loop_steps_moves transports sts2 l2 Hs2) as (e3 & p3 & l3 & E3 & M3). pose proof (moves_sound _ _ _ _ _ M3 Hs2) as Hs3.
  destruct (loop_step_moves transports (StepDue n u' sent) l3 Hs3) as (e4 & p4 & l4 & E4 & M4). pose proof (moves_sound _ _ _ _ _ M4 Hs3) as Hs4.
  destruct (loop_steps_moves transports sts3 l4 Hs4) as (e5 & p5 & l5 & E5 & _).
  exists (e1 ++ e2 ++ e3 ++ e4 ++ e5), l5. split; [by repeat (eapply loop_steps_app; rewrite ?loop_step_one; [eassumption|])|].
  unfold issue_times. rewrite !omap_app. intros [Q1 [Q2 [Q3 [Q4 _]%app_nil]%app_nil]%app_nil]%app_nil. revert Q4. 
  destruct (moves_quiet _ _ _ _ _ _ M1 Hb Hw Q1) as (b1 & Hb1 & S1 & N1 & O1). assert (bp_spec b1 = bp_spec b) as Sp1 by (by apply same_probe_fields).
  destruct (moves_quiet _ _ _ _ _ _ M2 Hb1 ltac:(by rewrite Sp1) Q2) as (b2 & Hb2 & S2 & N2 & O2). assert (bp_spec b2 = bp_spec b) as Sp2 by (rewrite <-Sp1; by apply same_probe_fields).
  destruct (moves_quiet _ _ _ _ _ _ M3 Hb2 ltac:(by rewrite Sp2) Q3) as (b3 & Hb3 & S3 & N3 & O3). assert (bp_spec b3 = bp_spec b) as Sp3 by (rewrite <-Sp2; by apply same_probe_fields).
  pose proof (expire_step_expires _ _ _ _ _ _ _ _ Hs1 E2 Hb2) as Ht. apply (due_step_issues transports n u' sent l3 idx b3 e4 l4); [done|by rewrite Sp3| |lia|exact E4].
  assert (bp_outstanding b2 = None) as Hn2; [|destruct O3; congruence]. unfold timed_out in Ht. destruct (bp_outstanding b2) as [o|]; [|done].
  assert (bp_outstanding b = Some o) as Hbo by (destruct O1, O2; congruence). specialize (Ho o Hbo). apply Z.leb_gt in Ht. lia.
Qed.
End Runs.

(** *** Starting *)

Definition pool_sound (p : CompiledPoolHealth) : Prop := 0 <= cp_interval_ms p /\ f64_le (cp_latency_floor p) (f64_of_Z 1) = true.
Definition fresh_probe (b : BackendProbe) : Prop := sound_backend b /\ outst b = false.

Lemma build_pool_fresh probe_name bind use_tcp now registry name pool backends : pool_sound pool -> forall spread r spread',
  build_pool probe_name bind use_tcp now registry name pool backends spread = (r, spread') -> Forall (fun bt => fresh_probe bt.1) r.
Proof.
  intros [Hi Hf]. induction backends as [|b backends IH]; intros spread r spread' Hb; cbn in Hb; [by injection Hb as <- <-|].
  destruct (build_one _ _ _ _ _ _ _ _ _) as [o s1] eqn:E1. destruct (build_pool _ _ _ _ _ _ _ _ _) as [rest s2] eqn:E2. apply IH in E2. injection Hb as <- <-.
  destruct o as [bt|]; [|done]. constructor; [|done]. unfold build_one in E1. repeat case_match; simplify_eq; (split; [split|done]; cbn; [unfold NANOS_PER_MILLI; lia|done]).
Qed.

Lemma build_backends_fresh probe_name bind use_tcp now registry pools : Forall (fun np => pool_sound np.2) pools -> forall spread,
  Forall (fun bt => fresh_probe bt.1) (build_backends probe_name bind use_tcp now pools registry spread).
Proof.
  induction 1 as [|[name pool] pools Hp _ IH]; intros spread; cbn; [done|]. destruct (build_pool _ _ _ _ _ _ _ _ _) as [r s] eqn:E. apply Forall_app. split; [|apply IH].
  by eapply build_pool_fresh.
Qed.

Lemma spawned_fresh probe_name bind use_tcp now registry pools seed transports sched h : Forall (fun np => pool_sound np.2) pools ->
  spawn_probe_loop probe_name bind use_tcp now pools registry seed = Some (transports, sched) ->
  sound transports (MkLoop sched h) /\ Forall fresh_probe (sch_backends sched).
Proof.
  intros Hp Hsp. pose proof (build_backends_fresh probe_name bind use_tcp now registry pools Hp seed) as Hf. unfold spawn_probe_loop in Hsp.
  destruct (build_backends _ _ _ _ _ _ _) as [|bt bs]; [done|]. injection Hsp as <- <-.
  assert (Forall fresh_probe ((bt :: bs).*1)) as Hfr by (apply Forall_fmap; exact Hf). split; [|done]. split; [exact (eq_trans (length_fmap snd (bt :: bs)) (eq_sym (length_fmap fst (bt :: bs))))|]. eapply Forall_impl; [exact Hfr|]. by intros b [? _].
Qed.

Lemma foldl_min_le ts : forall t x, x ∈ t :: ts -> foldl Z.min t ts <= x.
Proof.
  induction ts as [|t' ts IH]; intros t x Hx; cbn; [apply list_elem_of_singleton in Hx; lia|].
  pose proof (IH (Z.min t t') (Z.min t t') ltac:(by left)). apply elem_of_cons in Hx as [->|[->|Hx]%elem_of_cons]; [lia..|]. apply IH. by right.
Qed.

(** The poll never sleeps past the next send or timeout of a backend. *)
Theorem poll_wait_bounded now (s : ProbeScheduler) (b : BackendProbe) :
  b ∈ sch_backends s -> 0 <= poll_wait now s <= IDLE_POLL_INTERVAL /\ now + poll_wait now s <= Z.max now (wake_at b).
Proof.
  intros Hb. unfold poll_wait, next_wakeup, IDLE_POLL_INTERVAL, NANOS_PER_MILLI. apply (list_elem_of_fmap_2 wake_at) in Hb. destruct (wake_at <$> sch_backends s) as [|t ts]; [by apply elem_of_nil in Hb|].
  pose proof (foldl_min_le ts t _ Hb). lia.
Qed.

(** C23: What the probe loop does, whatever happens to it: sends that fail, replies
    that do not match, TCP probes that report late. It does not panic. The events of each
    backend alternate - a probe is issued, it has one result, then the next is issued - so at
    most one is outstanding; consecutive probes of a backend are at least its
    interval apart, whatever the other backends do. And the health state of each backend
    is its initial one with the counted results recorded in order, but for the
    weight that latencies move. *)
Theorem probe_loop_outcome `{DnsCodec} probe_name name_eq bind use_tcp now registry pools seed transports sched h sts :
  Forall (fun np => pool_sound np.2) pools ->
  spawn_probe_loop probe_name bind use_tcp now pools registry seed = Some (transports, sched) ->
  exists evs l', loop_steps name_eq transports sts (MkLoop sched h) = Some (evs, l') /\
    (forall idx b, sch_backends sched !! idx = Some b ->
       is_Some (alternate false (idx_trace idx evs)) /\
       forall k t t', issue_times idx evs !! k = Some t -> issue_times idx evs !! S k = Some t' -> t + bp_interval b <= t') /\
    exists ps, outcomes evs = (fun ix => (ix.1, good ix.2)) <$> ps /\
      forall ref s, h !! ref = Some s -> exists s', pl_heap l' !! ref = Some s' /\ weightless s' = weightless (probe_state (sch_backends sched) ref ps s).
Proof.
  intros Hp Hsp. destruct (spawned_fresh _ _ _ _ _ _ _ _ _ h Hp Hsp) as [Hs Hf]. destruct (loop_steps_moves name_eq transports sts _ Hs) as (evs & ps & l' & E & Hm).
  exists evs, l'. split_and!; [done| |].
  - intros idx b Hb. destruct (moves_backend _ _ _ _ Hm idx b Hb) as (b' & _ & _ & Ha & Ht); [by apply (Forall_lookup_1 _ _ _ _ Hf Hb)|].
    split; [|intros k t t'; by eapply spaced_gap]. rewrite (proj2 (Forall_lookup_1 _ _ _ _ Hf Hb)) in Ha. by eexists.
  - exists ps. split; [by eapply moves_outcomes|]. intros ref s Hr. pose proof (moves_states _ _ _ _ Hm (proj2 Hs) ref) as Hst. cbn [pl_heap pl_sched] in Hst. rewrite Hr in Hst.
    destruct (pl_heap l' !! ref) as [s'|]; [|done]. exists s'. split; [done|]. by apply (inj Some) in Hst.
Qed.

(** ** A loop with one backend *)

Definition sample_reply (qid : Z) : Message :=
  Message_new <| m_id := qid |> <| m_response := true |> <| m_queries := [{| q_name := "health.example."; q_type := 1; q_class := 1 |}] |>.

(** A codec of such replies, by their ids. *)
#[local] Instance reply_codec : DnsCodec := {|
  from_vec w := match w with [qid] => Some (sample_reply qid) | _ => None end;
  emit m := Ok [m_id m];
  name_wire s := None;
|}.

Definition probed_backend : CompiledBackendHealth :=
  {| cb_address := SockV4 1 53; cb_name := None; cb_label := "b"; cb_probe_qname := "health.example."; cb_probe_qtype := 1; cb_probe_source := None |}.
Definition probed_pool : CompiledPoolHealth :=
  {| cp_interval_ms := 1000; cp_timeout_ms := 200; cp_rise := 1; cp_fall := 2; cp_acceptable_rcodes := None; cp_initial_state := Optimistic;
     cp_latency_weighting := false; cp_latency_ewma_alpha := f64_of_Z 1; cp_latency_floor := f64_of_Z 1; cp_min_eligible := 0; cp_passive_fast_trip := false;
     cp_passive_fall := 0; cp_backends := [probed_backend] |}.
Definition probed_key : BackendKey := {| bk_pool := "p"; bk_address := SockV4 1 53 |}.
Definition probed_registry : RefRegistry := {| rr_table := {[ probed_key := 1%positive ]}; rr_scopes := scopes_default |}.
Definition probed_heap : Heap := {[ 1%positive := from_initial_policy Optimistic ]}.
Definition spawned_sample (use_tcp : bool) : option (list ProbeTransport * ProbeScheduler) :=
  spawn_probe_loop Some (fun _ _ => true) use_tcp 0 [("p", probed_pool)] probed_registry 7.
Definition sample_steps : list LoopStep :=
  let ms := NANOS_PER_MILLI in
  [StepDue (1000 * ms) 5 (fun _ => true); StepDatagram (1010 * ms) 6 0 [0]; StepExpire (1200 * ms) 7; StepWeights; StepDue (2300 * ms) 8 (fun _ => false)].

Lemma probe_loop_outcome_witness : exists transports sched evs l',
  spawned_sample false = Some (transports, sched) /\ loop_steps String.eqb transports sample_steps (MkLoop sched probed_heap) = Some (evs, l') /\
  outcomes evs = [(0%nat, false); (0%nat, false)] /\ is_Some (alternate false (idx_trace 0 evs)).
Proof.
  destruct (spawned_sample false) as [[transports sched]|] eqn:Es; [|discriminate Es].
  destruct (probe_loop_outcome Some String.eqb (fun _ _ => true) false 0 probed_registry [("p", probed_pool)] 7 transports sched probed_heap sample_steps) as (evs & l' & E & Hb & _).
  - apply Forall_cons. split; [split; vm_compute; [discriminate|reflexivity]|apply Forall_nil_2].
  - exact Es.
  - exists transports, sched, evs, l'. vm_compute in Es. injection Es as <- <-. split; [reflexivity|]. split; [exact E|]. split.
    + vm_compute in E. injection E as <- _. reflexivity.
    + eapply Hb. reflexivity.
Defined.

(** *** The next probe *)

Lemma due_probes_issued `{DnsCodec} now sc ds s' idx b : due_probes now sc = (ds, s') -> sch_backends sc !! idx = Some b -> idx ∈ due_idx <$> ds ->
  exists b', sch_backends s' !! idx = Some b' /\ same_probe b b' /\ (forall o, bp_outstanding b' = Some o -> out_deadline o = now + bp_timeout b) /\
    bp_next_due b' <= now + (schedule_bounds (bp_interval b)).2.
Proof.
  intros Hd Hb Hin. unfold due_probes in Hd. destruct (due_from _ _ _ _) as [[ds1 bs] r] eqn:E. injection Hd as <- <-.
  destruct (due_from_at _ _ _ _ _ _ _ _ _ E Hb) as (r0 & d & b' & r1 & Hb' & Hone & Hf). cbn [Nat.add] in Hone, Hf. exists b'. split; [done|].
  apply due_one_cases in Hone as [(-> & _)|(_ & _ & [(-> & _)|(dp & o & j & -> & _ & Ho & Hj & ->)])].
  1,2: apply list_elem_of_fmap in Hin as (d & -> & Hin); assert (d ∈ filter (fun x => due_idx x = due_idx d) ds1) as Hx by (by apply list_elem_of_filter); rewrite Hf in Hx; by apply elem_of_nil in Hx.
  split_and!; [by destruct b|by cbn; intros ? [= <-]|cbn; lia].
Qed.

Lemma turn_expires t : exists a b, turn_steps t = a ++ [StepExpire (tn_expire t).1 (tn_expire t).2] ++ b.
Proof. eexists ([_] ++ _), ([_] ++ _). unfold turn_steps. rewrite <-app_assoc. cbn. reflexivity. Qed.
Lemma turn_starts t : exists a, turn_steps t = [StepDue (tn_due t).1.1 (tn_due t).1.2 (tn_due t).2] ++ a.
Proof. by eexists. Qed.

(** C24: Probes keep coming. Take a backend to which a probe was issued. Once a turn
    of the loop finds its timeout passed, and a later turn starts after its interval and the
    largest jitter, the next probe has been issued, whatever replies came or did not come from
    it and from the others. *)
Theorem probe_sent_again `{DnsCodec} name_eq transports l now ds s idx b turns1 t1 turns2 t2 :
  sound transports l -> sch_backends (pl_sched l) !! idx = Some b -> (forall qid, exists w, build_query (bp_spec b) qid = Ok w) ->
  due_probes now (pl_sched l) = (ds, s) -> idx ∈ due_idx <$> ds ->
  now + bp_timeout b <= (tn_expire t1).1 -> now + (schedule_bounds (bp_interval b)).2 <= (tn_due t2).1.1 ->
  exists evs l', run_turns name_eq transports (turns1 ++ [t1] ++ turns2 ++ [t2]) (MkLoop s (pl_heap l)) = Some (evs, l') /\ issue_times idx evs <> [].
Proof.
  intros Hs Hb Hw Hd Hin He Hn. destruct (due_probes_issued _ _ _ _ _ _ Hd Hb Hin) as (b' & Hb' & Hsame & Ho & Hnd). pose proof (mv_due now l ds s Hd) as Hm.
  destruct (turn_expires t1) as (x & y & E1). destruct (turn_starts t2) as (z & E2).
  destruct (steps_issue_again name_eq transports ((turns1 ≫= turn_steps) ++ x) (tn_expire t1).1 (tn_expire t1).2 (y ++ (turns2 ≫= turn_steps))
    (tn_due t2).1.1 (tn_due t2).1.2 (tn_due t2).2 z (MkLoop s (pl_heap l)) idx b') as (evs & l' & E & Hi).
  - by eapply moves_sound.
  - exact Hb'.
  - by destruct (same_probe_fields _ _ Hsame) as (_ & _ & _ & -> & _).
  - intros o Eo. rewrite (Ho o Eo). exact He.
  - lia.
  - exists evs, l'. split; [|exact Hi]. rewrite <-E. unfold run_turns. f_equal. rewrite !bind_app, !bind_singleton, E1, E2. by rewrite <-!app_assoc.
Qed.

Definition quiet_turn (ms : Z) : Turn := {| tn_due := (ms * NANOS_PER_MILLI, ms, fun _ => true); tn_tcp := []; tn_expire := (ms * NANOS_PER_MILLI, ms); tn_datagrams := [] |}.

Lemma probe_sent_again_witness : exists transports sched ds s, spawned_sample false = Some (transports, sched) /\
  due_probes (1000 * NANOS_PER_MILLI) sched = (ds, s) /\ due_idx <$> ds = [0%nat] /\
  exists evs l', run_turns String.eqb transports [quiet_turn 1100; quiet_turn 1200; quiet_turn 2200] (MkLoop s probed_heap) = Some (evs, l') /\ issue_times 0 evs <> [].
Proof.
  destruct (spawned_sample false) as [[transports sched]|] eqn:Es; [|discriminate Es]. destruct (due_probes (1000 * NANOS_PER_MILLI) sched) as [ds s] eqn:Ed.
  exists transports, sched, ds, s. split; [reflexivity|]. split; [exact Ed|]. vm_compute in Es. injection Es as <- <-. pose proof Ed as Ed'. vm_compute in Ed'. injection Ed' as <- _.
  split; [reflexivity|].
  match type of Ed with due_probes _ ?sc = _ =>
    eapply (probe_sent_again String.eqb [ProbeUdp] (MkLoop sc probed_heap) _ _ _ 0 _ [quiet_turn 1100] (quiet_turn 1200) [] (quiet_turn 2200)); [|reflexivity| |exact Ed|left| |]
  end.
  - split; [reflexivity|]. apply Forall_cons. split; [split; vm_compute; [discriminate|reflexivity]|apply Forall_nil_2].
  - intros qid. eexists. reflexivity.
  - vm_compute. discriminate.
  - vm_compute. discriminate.
Defined.

(** ** Reloads *)

Definition refs_valid (r : RefRegistry) (h : Heap) : Prop := forall k ref, rr_table r !! k = Some ref -> is_Some (h !! ref).

Lemma deref_lookup h r k : table (deref h r) !! k = rr_table r !! k ≫= fun ref => h !! ref.
Proof. exact (lookup_omap (fun ref => h !! ref) (rr_table r) k). Qed.

Lemma preserved_deref prev r h k b : refs_valid r h -> preserved prev (table (deref h r)) k b = preserved_ref prev (rr_table r) k b ≫= fun ref => h !! ref.
Proof.
  intros Hv. unfold preserved, preserved_ref. rewrite deref_lookup. destruct (rr_table r !! k) as [ref|] eqn:E; [|done]. cbn. destruct (Hv k ref E) as [s Hs]. rewrite Hs. cbn.
  destruct (prev !! bk_pool k); [|done]. cbn. destruct (List.find _ _); [|done]. cbn. by destruct (probe_semantics_eq _ _); cbn; rewrite ?Hs.
Qed.

Lemma preserved_ref_old prev t k b ref : preserved_ref prev t k b = Some ref -> t !! k = Some ref.
Proof. unfold preserved_ref. destruct (t !! k); [|done]. cbn. destruct (prev !! _); [|done]. cbn. destruct (List.find _ _); [|done]. cbn. destruct (probe_semantics_eq _ _); congruence. Qed.

(** A table of references, all valid. *)
Definition refs_to (h : Heap) (t : gmap BackendKey Ref) (vs : gmap BackendKey BackendHealthState) : Prop := forall k, (t !! k ≫= fun ref => h !! ref) = vs !! k /\ (vs !! k = None -> t !! k = None).

Lemma refs_to_omap h t vs : refs_to h t vs -> omap (fun ref => h !! ref) t = vs.
Proof. intros Ht. apply map_eq. intros k. rewrite lookup_omap. apply Ht. Qed.

Lemma refs_to_insert h t vs k ref s : refs_to h t vs -> h !! ref = Some s -> refs_to h (<[k := ref]> t) (<[k := s]> vs).
Proof.
  intros Ht Hr k'. destruct (decide (k' = k)) as [->|]; [rewrite !lookup_insert_eq; cbn; by rewrite Hr|rewrite !lookup_insert_ne by done; apply Ht].
Qed.

Lemma refs_to_grow h h' t vs : refs_to h t vs -> h ⊆ h' -> refs_to h' t vs.
Proof.
  intros Ht Hsub k. destruct (Ht k) as [H1 H2]. split; [|done]. destruct (t !! k) as [ref|]; [|done]. cbn in *. destruct (vs !! k) as [s|]; [|by specialize (H2 eq_refl)].
  by eapply lookup_weaken.
Qed.

Section Reload.
Context (prev new : CompiledHealth) (r : RefRegistry) (h : Heap).
Context (Hv : refs_valid r h).

Definition reload_refs (th : gmap BackendKey Ref * Heap) (e : BackendKey * CompiledBackendHealth * CompiledPoolHealth) : gmap BackendKey Ref * Heap :=
  match preserved_ref prev (rr_table r) e.1.1 e.1.2 with
  | Some ref => (<[e.1.1 := ref]> th.1, th.2)
  | None => let ref := fresh (dom th.2) in (<[e.1.1 := ref]> th.1, <[ref := from_initial_policy (cp_initial_state e.2)]> th.2)
  end.
Definition reload_states (t : gmap BackendKey BackendHealthState) (e : BackendKey * CompiledBackendHealth * CompiledPoolHealth) : gmap BackendKey BackendHealthState :=
  <[e.1.1 := match preserved prev (table (deref h r)) e.1.1 e.1.2 with Some s => s | None => from_initial_policy (cp_initial_state e.2) end]> t.

Lemma reload_fold es : forall t h1 vs, refs_to h1 t vs -> h ⊆ h1 -> let '(t', h') := foldl reload_refs (t, h1) es in refs_to h' t' (foldl reload_states vs es) /\ h1 ⊆ h'.
Proof.
  induction es as [|e es IH]; intros t h1 vs Ht Hsub; [by cbn|]. cbn [foldl]. unfold reload_refs at 2, reload_states at 2. cbn [fst snd]. rewrite preserved_deref by exact Hv.
  destruct (preserved_ref _ _ _ _) as [ref|] eqn:Ep.
  - destruct (Hv _ _ (preserved_ref_old _ _ _ _ _ Ep)) as [s Hs]. cbn. rewrite Hs. apply IH; [|done]. apply refs_to_insert; [done|by eapply lookup_weaken].
  - cbn. set (ref := fresh (dom h1)). assert (h1 !! ref = None) as Hf by (apply not_elem_of_dom, is_fresh).
    assert (h1 ⊆ <[ref := from_initial_policy (cp_initial_state e.2)]> h1) as Hg by (by apply insert_subseteq).
    specialize (IH (<[e.1.1 := ref]> t) (<[ref := from_initial_policy (cp_initial_state e.2)]> h1) (<[e.1.1 := from_initial_policy (cp_initial_state e.2)]> vs)).
    destruct (foldl reload_refs _ es) as [t' h']. destruct IH as [? ?]; [|by etrans|split; [done|by etrans]].
    apply refs_to_insert; [by eapply refs_to_grow|apply lookup_insert_eq].
Qed.

Lemma reconcile_refs_refines r' h' : reconcile_refs prev new r h = (r', h') -> deref h' r' = Health.reconcile prev new (deref h r) /\ refs_valid r' h' /\ h ⊆ h'.
Proof.
  unfold reconcile_refs. pose proof (reload_fold (Health.all_entries new) ∅ h ∅) as Hf.
  replace (foldl (fun (th : gmap BackendKey Ref * Heap) '(k, b, p) => _) (∅, h) (Health.all_entries new)) with (foldl reload_refs (∅, h) (Health.all_entries new))
    by (apply foldl_ext; intros ? [[? ?] ?]; done).
  destruct (foldl reload_refs (∅, h) _) as [t h1]. destruct Hf as [Ht Hsub]; [intros k; by rewrite !lookup_empty|done|]. intros [= <- <-]. split_and!; [| |done].
  - unfold deref, Health.reconcile. cbn [rr_table rr_scopes]. f_equal. rewrite (refs_to_omap _ _ _ Ht). apply foldl_ext. by intros ? [[? ?] ?].
  - intros k ref Hk. cbn in Hk. destruct (Ht k) as [H1 H2]. rewrite Hk in *. cbn in H1. rewrite H1. destruct (foldl reload_states ∅ _ !! k); [done|by specialize (H2 eq_refl)].
Qed.
End Reload.

Lemma reload_fresh prev r h es k : (forall e, e ∈ es -> e.1.1 = k -> preserved_ref prev (rr_table r) k e.1.2 = None) ->
  forall t h1, (forall ref, t !! k = Some ref -> h !! ref = None) -> h ⊆ h1 -> forall ref, (foldl (reload_refs prev r) (t, h1) es).1 !! k = Some ref -> h !! ref = None.
Proof.
  induction es as [|e es IH]; intros Hes t h1 Ht Hsub; [done|]. cbn [foldl]. unfold reload_refs at 2. cbn [fst snd]. assert (e ∈ e :: es) as Hin by (by left).
  destruct (preserved_ref _ _ _ _) as [ref|] eqn:Ep.
  - apply IH; [intros; apply Hes; [by right|done]| |done]. intros ref'. rewrite lookup_insert_ne; [apply Ht|]. intros <-. by rewrite (Hes e Hin eq_refl) in Ep.
  - set (ref := fresh (dom h1)). assert (h1 !! ref = None) as Hf by (apply not_elem_of_dom, is_fresh).
    apply IH; [intros; apply Hes; [by right|done]| |etrans; [exact Hsub|by apply insert_subseteq]]. intros ref'. rewrite lookup_insert. case_decide; [|apply Ht].
    intros [= <-]. by eapply lookup_weaken_None.
Qed.

Lemma probe_state_other bs ref ps s : Forall (fun b => bp_state b <> ref) bs -> probe_state bs ref ps s = s.
Proof.
  intros Hb. revert s. induction ps as [|[i x] ps IH]; intros s; [done|]. cbn. destruct (bs !! i) as [b|] eqn:E; [|apply IH].
  rewrite decide_False; [apply IH|]. by apply (Forall_lookup_1 _ _ _ _ Hb E).
Qed.

(** A reload reaches the table but not the probe loop, which keeps the backends and the references it was
    started with. A backend that the reload adds, or whose probe it changes, gets a new state; and no step of
    the loop ever records a result in it. *)
Theorem reloaded_backend_not_probed `{DnsCodec} name_eq transports sched prev new r h r' h' k ref :
  sound transports (MkLoop sched h') -> Forall (fun b => is_Some (h !! bp_state b)) (sch_backends sched) -> refs_valid r h ->
  reconcile_refs prev new r h = (r', h') -> (forall b p, (k, b, p) ∈ Health.all_entries new -> preserved_ref prev (rr_table r) k b = None) -> rr_table r' !! k = Some ref ->
  exists s, h' !! ref = Some s /\
    forall sts evs l', loop_steps name_eq transports sts (MkLoop sched h') = Some (evs, l') -> exists s', pl_heap l' !! ref = Some s' /\ weightless s' = weightless s.
Proof.
  intros Hs Hb Hv Hr Hnew Hk. destruct (reconcile_refs_refines _ _ _ _ Hv _ _ Hr) as (_ & Hv' & _). destruct (Hv' k ref Hk) as [s Hsr]. exists s. split; [done|].
  assert (h !! ref = None) as Hf.
  { unfold reconcile_refs in Hr. replace (foldl (fun (th : gmap BackendKey Ref * Heap) '(k, b, p) => _) (∅, h) (Health.all_entries new)) with (foldl (reload_refs prev r) (∅, h) (Health.all_entries new)) in Hr
      by (apply foldl_ext; intros ? [[? ?] ?]; done).
    pose proof (reload_fresh prev r h (Health.all_entries new) k) as Hx. destruct (foldl _ _ _) as [t h1] eqn:E. injection Hr as <- <-. eapply (Hx _ ∅ h); [intros ?; by rewrite lookup_empty|done|].
    rewrite E. exact Hk. Unshelve. intros [[k' b] p] Hin Hkk. cbn in Hkk |- *. subst k'. by eapply Hnew. }
  intros sts evs l' Hl. destruct (loop_steps_moves name_eq transports sts _ Hs) as (evs1 & ps & l1 & E & Hm). rewrite Hl in E. injection E as <- <-.
  pose proof (moves_states _ _ _ _ Hm (proj2 Hs) ref) as Hst. cbn [pl_heap pl_sched] in Hst. rewrite Hsr in Hst. destruct (pl_heap l' !! ref) as [s'|]; [|done].
  exists s'. split; [done|]. apply (inj Some) in Hst. rewrite Hst, probe_state_other; [done|]. eapply Forall_impl; [exact Hb|]. intros b [x Hx]. congruence.
Qed.

Definition stale_failure_steps (qid : Z) : list LoopStep :=
  let ms := NANOS_PER_MILLI in
  [StepDue (1000 * ms) 1 (fun _ => true); StepExpire (1200 * ms) 2; StepDue (2300 * ms) 3 (fun _ => true);
   StepTcp (2310 * ms) 4 {| tcp_idx := 0; tcp_wire := None |}; StepTcp (2320 * ms) 5 {| tcp_idx := 0; tcp_wire := Some [qid] |}].
(** The qids of the probes issued, the results counted, and the observed health in the end. *)
Definition tcp_run (sts : list LoopStep) : option (list Z * list (nat * bool) * option Health) :=
  let! ts := spawned_sample true in
  let! r := loop_steps String.eqb ts.1 sts (MkLoop ts.2 probed_heap) in
  Some (omap (fun e => match e with Issued _ d => Some (due_qid d) | Counted _ _ _ _ => None end) r.1, outcomes r.1, observed <$> pl_heap r.2 !! 1%positive).

(** A probe over TCP runs on a thread whose connection attempt has no timeout. When such a thread
    gives up after its probe has timed out, its failure is taken for that of the probe that is
    outstanding by then: here the second probe is answered, and the backend, with [fall] 2, is marked down. Without
    the late failure it is up. *)
Theorem stale_tcp_failure_counts : let sts := stale_failure_steps 10754 in
  tcp_run sts = Some ([3543; 10754], [(0%nat, false); (0%nat, false)], Some Down) /\
  tcp_run (take 3 sts ++ drop 4 sts) = Some ([3543; 10754], [(0%nat, false); (0%nat, true)], Some Up).
Proof. vm_compute. by split. Qed.

(** A datagram that echoes the probe counts as an answer: the flag that tells responses from queries is not looked at. *)
Theorem echoed_probe_is_success `{DnsCodec} name_eq spec qid wire : name_eq (ps_name spec) (ps_name spec) = true -> ps_acceptable_rcodes spec = None ->
  from_vec wire = Some (probe_message spec qid) -> m_response (probe_message spec qid) = false /\ classify_response name_eq spec qid wire = ProbeSuccess.
Proof. intros Hn Ha Hw. split; [done|]. unfold classify_response. rewrite Hw. cbn. by rewrite !Z.eqb_refl, Hn, Ha. Qed.
