(* ===== verification/MetricsPlan.v ===== *)
(** * MetricsPlan: what is counted and what is exported

    The metrics section compiled into a plan (conduit-metrics/src/plan.rs), with the sinks, the
    activation of traces and the validation of both sections (compile.rs), and the check of scripts
    against a plan (consumer.rs). The maps of a message are visited in an order given
    as a parameter. *)

From stdpp Require Import base gmap list strings sorting.
From Stdlib Require Import ZArith Lia Ascii.
From S2P Require Import Prelude Text Floats Selectors Rules Acl Config Messages Compile Validate.

#[local] Open Scope string_scope.
#[local] Open Scope list_scope.
#[local] Open Scope Z_scope.

(** ** Categories and presets *)

Inductive MetricCategory :=
  | CatVolume | CatFailures | CatLookup | CatTiming | CatCacheDetail | CatForwardDetail | CatHealth | CatRuntime | CatTopology | CatProcess | CatMeta.
Inductive MetricsBase := BaseNone | BaseMinimal | BaseStandard.
Inductive Granularity := Coarse | Balanced | Fine.
Inductive ResponsesRcodeBucketing := RcodeCoarse | RcodeIana.

#[global] Instance MetricCategory_eq : EqDecision MetricCategory. Proof. solve_decision. Defined.
#[global] Instance MetricsBase_eq : EqDecision MetricsBase. Proof. solve_decision. Defined.
#[global] Instance Granularity_eq : EqDecision Granularity. Proof. solve_decision. Defined.
#[global] Instance ResponsesRcode_eq : EqDecision ResponsesRcodeBucketing. Proof. solve_decision. Defined.

(** [MetricCategory::ALL], which is also the order of a [BTreeSet] of categories. *)
Definition ALL_CATEGORIES : list MetricCategory :=
  [CatVolume; CatFailures; CatLookup; CatTiming; CatCacheDetail; CatForwardDetail; CatHealth; CatRuntime; CatTopology; CatProcess; CatMeta].

Definition category_str (c : MetricCategory) : string :=
  match c with
  | CatVolume => "volume" | CatFailures => "failures" | CatLookup => "lookup" | CatTiming => "timing" | CatCacheDetail => "cache_detail"
  | CatForwardDetail => "forward_detail" | CatHealth => "health" | CatRuntime => "runtime" | CatTopology => "topology" | CatProcess => "process" | CatMeta => "meta"
  end.
Definition category_from_str (s : string) : option MetricCategory := List.find (fun c => String.eqb (category_str c) s) ALL_CATEGORIES.

Lemma category_from_to c : category_from_str (category_str c) = Some c.
Proof. by destruct c. Qed.

#[global] Instance MetricCategory_countable : Countable MetricCategory.
Proof. apply (inj_countable category_str category_from_str), category_from_to. Defined.

Definition base_from_str (s : string) : option MetricsBase :=
  if String.eqb s "none" then Some BaseNone else if String.eqb s "minimal" then Some BaseMinimal else if String.eqb s "standard" then Some BaseStandard else None.
Definition granularity_from_str (s : string) : option Granularity :=
  if String.eqb s "coarse" then Some Coarse else if String.eqb s "balanced" then Some Balanced else if String.eqb s "fine" then Some Fine else None.
Definition rcode_mode_from_str (s : string) : option ResponsesRcodeBucketing :=
  if String.eqb s "coarse" then Some RcodeCoarse else if String.eqb s "iana" then Some RcodeIana else None.

Definition default_responses_rcode (g : Granularity) : ResponsesRcodeBucketing :=
  match g with Coarse | Balanced => RcodeCoarse | Fine => RcodeIana end.

Definition GRANULARITY_FAMILIES : list string := ["volume"; "responses"; "timing"; "forward_failures"; "acl"; "cache_lookup"].

Definition family_allowed_dimensions (family : string) : option (list string) :=
  if String.eqb family "volume" then Some ["listener"; "protocol"; "qtype"; "qclass"; "ip_family"]
  else if String.eqb family "responses" then Some ["listener"; "protocol"; "rcode"; "ip_family"; "answer_source"]
  else if String.eqb family "timing" then Some ["pool"; "backend"]
  else if String.eqb family "forward_failures" then Some ["pool"; "backend"; "reason"]
  else if String.eqb family "acl" then Some ["tier"; "action"; "listener"; "ip_family"]
  else if String.eqb family "cache_lookup" then Some ["cache"; "profile"; "result"]
  else None.

Definition preset_family_dimensions (family : string) (g : Granularity) : option (list string) :=
  if String.eqb family "volume" then
    Some (match g with
          | Coarse => ["listener"; "protocol"]
          | Balanced => ["listener"; "protocol"; "qtype"]
          | Fine => ["listener"; "protocol"; "qtype"; "qclass"; "ip_family"]
          end)
  else if String.eqb family "responses" then
    Some (match g with
          | Coarse | Balanced => ["listener"; "protocol"; "rcode"; "answer_source"]
          | Fine => ["listener"; "protocol"; "rcode"; "ip_family"; "answer_source"]
          end)
  else if String.eqb family "timing" then
    Some (match g with Coarse => [] | Balanced => ["pool"] | Fine => ["pool"; "backend"] end)
  else if String.eqb family "forward_failures" then
    Some (match g with Coarse => ["pool"; "backend"; "reason"] | Balanced => ["pool"; "reason"] | Fine => ["pool"; "backend"; "reason"] end)
  else if String.eqb family "acl" then
    Some (match g with Coarse | Balanced => ["tier"; "action"; "listener"] | Fine => ["tier"; "action"; "listener"; "ip_family"] end)
  else if String.eqb family "cache_lookup" then Some ["cache"; "profile"; "result"]
  else None.

Definition normalize_dimensions (allowed provided : list string) : list string := List.filter (contains provided) allowed.

Definition MINIMAL_CATEGORIES : list MetricCategory := [CatVolume; CatFailures; CatLookup; CatHealth; CatTopology; CatMeta].
Definition STANDARD_CATEGORIES : list MetricCategory :=
  [CatVolume; CatFailures; CatLookup; CatTiming; CatCacheDetail; CatForwardDetail; CatHealth; CatRuntime; CatTopology; CatProcess; CatMeta].

Definition expand_base (base : MetricsBase) : gset MetricCategory :=
  match base with BaseNone => ∅ | BaseMinimal => list_to_set MINIMAL_CATEGORIES | BaseStandard => list_to_set STANDARD_CATEGORIES end.
Definition default_granularity_for_base (base : MetricsBase) : Granularity :=
  match base with BaseMinimal => Coarse | BaseStandard | BaseNone => Fine end.

(** ** Plans *)

Record UserMetricMode := { umm_collect : bool; umm_emit : bool; umm_help : string }.

Record CompiledMetricsPlan := {
  pl_enabled : bool; pl_base : MetricsBase; pl_categories : gset MetricCategory; pl_collect : gmap MetricCategory bool; pl_emit : gmap MetricCategory bool;
  pl_granularity_default : Granularity; pl_granularity_overrides : gmap string (list string); pl_family_dimensions : gmap string (list string);
  pl_responses_rcode : ResponsesRcodeBucketing; pl_event_export_collect : bool; pl_event_export_emit : bool; pl_user_metrics : gmap string UserMetricMode }.

Definition plan_disabled : CompiledMetricsPlan :=
  {| pl_enabled := false; pl_base := BaseNone; pl_categories := ∅; pl_collect := ∅; pl_emit := ∅; pl_granularity_default := Fine; pl_granularity_overrides := ∅;
     pl_family_dimensions := ∅; pl_responses_rcode := RcodeIana; pl_event_export_collect := false; pl_event_export_emit := false; pl_user_metrics := ∅ |}.

Definition dimensions_for (p : CompiledMetricsPlan) (family : string) : list string := default [] (pl_family_dimensions p !! family).
Definition has_dimension (p : CompiledMetricsPlan) (family dim : string) : bool := contains (dimensions_for p family) dim.
Definition collect_for (p : CompiledMetricsPlan) (cat : MetricCategory) : bool :=
  pl_enabled p && bool_decide (cat ∈ pl_categories p) && default true (pl_collect p !! cat).
Definition emit_for (p : CompiledMetricsPlan) (cat : MetricCategory) : bool :=
  pl_enabled p && bool_decide (cat ∈ pl_categories p) && default true (pl_emit p !! cat).
Definition user_metrics_standard_tier (p : CompiledMetricsPlan) : bool := pl_enabled p && bool_decide (pl_granularity_default p = Fine).
Definition user_collect_for (p : CompiledMetricsPlan) (name : string) : bool :=
  if negb (pl_enabled p) then false else match pl_user_metrics p !! name with Some m => umm_collect m | None => user_metrics_standard_tier p end.
Definition user_emit_for (p : CompiledMetricsPlan) (name : string) : bool :=
  if negb (pl_enabled p) then false else match pl_user_metrics p !! name with Some m => umm_emit m | None => user_metrics_standard_tier p end.
Definition user_help_for (p : CompiledMetricsPlan) (name : string) : string := default EmptyString (umm_help <$> pl_user_metrics p !! name).
Definition user_helps (p : CompiledMetricsPlan) : gmap string string :=
  omap (fun m => if is_empty (umm_help m) then None else Some (umm_help m)) (pl_user_metrics p).

(** [sanitize_user_metric_name], also of user.rs. A character that is not ASCII is one underscore:
    the bytes that continue it add nothing. *)
Definition metric_char (c : ascii) : ascii := if is_digit c || in_range 65 90 c || in_range 97 122 c || Ascii.eqb c "_" then c else "_"%char.
Fixpoint sanitize_user_metric_name (name : string) : string :=
  match name with
  | EmptyString => EmptyString
  | String c name => if in_range 128 191 c then sanitize_user_metric_name name else String (metric_char c) (sanitize_user_metric_name name)
  end.

Definition category_families : list (MetricCategory * list string) :=
  [(CatVolume, ["conduit_queries_total"; "conduit_responses_total"; "conduit_responses_truncated_total"; "conduit_queries_dropped_total"; "conduit_acl_decisions_total";
                "conduit_queries_by_pool_total"]);
   (CatFailures, ["conduit_parse_rejected_total"; "conduit_forward_errors_total"; "conduit_script_errors_total"; "conduit_retries_total"; "conduit_slot_pool_exhausted_total"]);
   (CatLookup, ["conduit_lookup_provider_outcomes_total"; "conduit_cache_lookups_total"]);
   (CatTiming, ["conduit_phase_duration_seconds"; "conduit_forward_attempts_total"; "conduit_forward_duration_seconds"; "conduit_lookup_duration_seconds";
                "conduit_cache_lookup_duration_seconds"; "conduit_cache_fill_duration_seconds"; "conduit_cache_eviction_duration_seconds"; "conduit_response_duration_seconds"]);
   (CatCacheDetail, ["conduit_cache_fills_total"; "conduit_cache_singleflight_coalesced_total"; "conduit_cache_evictions_total"; "conduit_cache_entries"; "conduit_cache_entries_limit";
                     "conduit_cache_bytes_used"; "conduit_cache_bytes_limit"; "conduit_cache_lmdb_shards"; "conduit_cache_lmdb_sync"; "conduit_cache_lmdb_periodic_sync_age_seconds";
                     "conduit_cache_lmdb_periodic_sync_duration_seconds"; "conduit_cache_lmdb_periodic_sync_failures_total"; "conduit_cache_lmdb_errors_total"]);
   (CatForwardDetail, ["conduit_forward_outstanding"]);
   (CatHealth, ["conduit_backend_health_observed"; "conduit_backend_health_applied"; "conduit_backend_health_probe_automatic"; "conduit_backend_health_effective_weight";
                "conduit_backend_health_latency_ewma_ms"; "conduit_backend_health_transitions_total"; "conduit_pool_backends_active"; "conduit_probe_results_total"]);
   (CatRuntime, ["conduit_slots_in_use"; "conduit_slots_capacity"]);
   (CatTopology, ["conduit_pool_backends_configured"; "conduit_listener_info"; "conduit_listener_ingress_threads"; "conduit_listener_rcvbuf_bytes"; "conduit_backend_info";
                  "conduit_backend_weight"]);
   (CatProcess, ["conduit_process_resident_bytes"; "conduit_process_open_fds"; "conduit_process_max_fds"; "conduit_process_threads"; "conduit_process_cpu_seconds_total"]);
   (CatMeta, ["conduit_build_info"; "conduit_start_time_seconds"; "conduit_uptime_seconds"; "conduit_config_generation"])].

Definition builtin_metric_category (family_name : string) : option MetricCategory :=
  fst <$> List.find (fun cf => contains cf.2 family_name) category_families.

(** The entries of a [BTreeMap] with string keys, in its order. *)
Definition key_le {A} (a b : string * A) : Prop := String.leb a.1 b.1 = true.
#[global] Instance key_le_dec {A} : RelDecision (@key_le A). Proof. intros a b. unfold key_le. apply _. Defined.
Definition sorted_entries {A} (m : gmap string A) : list (string * A) := merge_sort key_le (map_to_list m).

Definition user_emit_for_sanitized (p : CompiledMetricsPlan) (bare : string) : bool :=
  if negb (pl_enabled p) then false
  else match pl_user_metrics p !! bare with
  | Some m => umm_emit m
  | None =>
      match List.find (fun e => String.eqb (sanitize_user_metric_name e.1) bare) (sorted_entries (pl_user_metrics p)) with
      | Some (_, mode) => umm_emit mode
      | None => user_metrics_standard_tier p
      end
  end.

Definition emits_family (p : CompiledMetricsPlan) (family_name : string) : bool :=
  if negb (pl_enabled p) then false
  else if starts_with family_name "conduit_events_" then pl_event_export_emit p
  else match strip_prefix "conduit_user_" family_name with
  | Some bare => user_emit_for_sanitized p bare
  | None => match builtin_metric_category family_name with Some cat => emit_for p cat | None => true end
  end.

(** ** Resolution *)

Record PlanResolution := { res_plan : CompiledMetricsPlan; res_warnings : list Msg }.

Definition PROFILE_DEPRECATION_WARNING : Msg := ("metrics.profile is deprecated; use metrics.base instead", []).
Definition USER_METRIC_EXPORT_DEPRECATION_WARNING : Msg := ("metrics.user_metrics[].export is deprecated; use collect/emit instead", []).

Definition when (b : bool) (m : Msg) : list Msg := if b then [m] else [].

Section Resolve.
Context (iter_overrides : gmap string MetricsDimensionList -> list (string * MetricsDimensionList)).
Context (iter_collection : gmap string MetricsCollectEmit -> list (string * MetricsCollectEmit)).

(** The keys that a disabled section ignores. *)
Definition ignored_keys (m : MetricsConfig) : list string :=
  (if negb (is_empty (me_base m)) then ["base"] else []) ++
  (if negb (is_empty (me_profile m)) then ["profile"] else []) ++
  (match me_categories m with Some c => if bool_decide (mc_include c = []) && bool_decide (mc_exclude c = []) then [] else ["categories"] | None => [] end) ++
  (if bool_decide (me_collection m = ∅) then [] else ["collection"]) ++
  (match me_granularity m with Some g => if is_empty (mg_default g) && bool_decide (mg_overrides g = ∅) then [] else ["granularity"] | None => [] end) ++
  (if is_someb (me_event_export m) then ["event_export"] else []).

Definition disabled_resolution (warnings : list Msg) : PlanResolution := {| res_plan := plan_disabled; res_warnings := warnings |}.

(** The alias [profile]: the base it gives, whether metrics stay enabled, errors and warnings. *)
Definition resolve_profile (profile base : string) : string * bool * list Msg * list Msg :=
  if is_empty profile then (base, true, [], [])
  else if String.eqb profile "minimal" then (if is_empty base then "minimal" else base, true, [], [PROFILE_DEPRECATION_WARNING])
  else if String.eqb profile "full" then (if is_empty base then "standard" else base, true, [], [PROFILE_DEPRECATION_WARNING])
  else if String.eqb profile "off" then
    (base, false, [], [PROFILE_DEPRECATION_WARNING; ("metrics.profile 'off' is deprecated; treating as metrics.enabled: false", [])])
  else (base, true, [("metrics.profile must be minimal, full, or off", [profile])], []).

Definition resolve_base (base : string) : MetricsBase * list Msg :=
  match base_from_str base with
  | Some b => (b, [])
  | None => (BaseStandard, [("metrics.base must be none, minimal, or standard", [base])])
  end.

(** Known names as a set, unknown ones as errors. *)
Fixpoint known_categories (what : string) (names : list string) : gset MetricCategory * list Msg :=
  match names with
  | [] => (∅, [])
  | name :: names =>
      let (s, errors) := known_categories what names in
      match category_from_str name with
      | Some cat => ({[cat]} ∪ s, errors)
      | None => (s, (what, [name]) :: errors)
      end
  end.

Definition resolve_categories (c : option MetricsCategories) (start : gset MetricCategory) : gset MetricCategory * list Msg * list Msg :=
  match c with
  | None => (start, [], [])
  | Some c =>
      let (included, e1) := known_categories "metrics.categories.include is not a known category" (mc_include c) in
      let (excluded, e2) := known_categories "metrics.categories.exclude is not a known category" (mc_exclude c) in
      let both := List.filter (fun cat => bool_decide (cat ∈ excluded) && bool_decide (cat ∈ included)) ALL_CATEGORIES in
      ((start ∪ included) ∖ excluded, e1 ++ e2,
       ((fun cat => ("metrics.categories: appears in both include and exclude; exclude wins", [category_str cat])) <$> both) ++
       when (bool_decide (CatFailures ∈ excluded)) ("metrics.categories.exclude contains 'failures'; excluding failure metrics creates an alerting blind spot", []))
  end.

Record GranularityState := { gr_overrides : gmap string (list string); gr_rcode : option ResponsesRcodeBucketing; gr_families : gset string; gr_errors : list Msg }.

Definition override_dimensions (family : string) (allowed : list string) (l : MetricsDimensionList) (st : GranularityState) : GranularityState :=
  if md_dimensions_set l then
    {| gr_overrides := <[family := normalize_dimensions allowed (md_dimensions l)]> (gr_overrides st); gr_rcode := gr_rcode st; gr_families := {[family]} ∪ gr_families st;
       gr_errors := gr_errors st ++ ((fun dim => ("metrics.granularity dimension is not valid for family", [family; dim])) <$>
         List.filter (fun dim => negb (contains allowed dim)) (md_dimensions l)) |}
  else st.

Definition override_rcode (family : string) (l : MetricsDimensionList) (st : GranularityState) : GranularityState :=
  let add e := {| gr_overrides := gr_overrides st; gr_rcode := gr_rcode st; gr_families := gr_families st; gr_errors := gr_errors st ++ [e] |} in
  if is_empty (md_rcode l) then st
  else if negb (String.eqb family "responses") then add ("metrics.granularity rcode is only valid under the responses family", [family])
  else match rcode_mode_from_str (md_rcode l) with
  | Some mode => {| gr_overrides := gr_overrides st; gr_rcode := Some mode; gr_families := gr_families st; gr_errors := gr_errors st |}
  | None => add ("metrics.granularity.responses.rcode must be coarse or iana", [md_rcode l])
  end.

Definition granularity_override (st : GranularityState) (e : string * MetricsDimensionList) : GranularityState :=
  match family_allowed_dimensions e.1 with
  | Some allowed => override_rcode e.1 e.2 (override_dimensions e.1 allowed e.2 st)
  | None =>
      {| gr_overrides := gr_overrides st; gr_rcode := gr_rcode st; gr_families := gr_families st;
         gr_errors := gr_errors st ++ [("metrics.granularity has unknown family", [e.1])] |}
  end.

Definition resolve_granularity (g : option MetricsGranularity) (start : Granularity) : Granularity * GranularityState :=
  let empty := {| gr_overrides := ∅; gr_rcode := None; gr_families := ∅; gr_errors := [] |} in
  match g with
  | None => (start, empty)
  | Some g =>
      let (gr, errors) := if is_empty (mg_default g) then (start, [])
                          else match granularity_from_str (mg_default g) with
                          | Some gr => (gr, [])
                          | None => (start, [("metrics.granularity.default must be coarse, balanced, or fine", [mg_default g])])
                          end in
      (gr, foldl granularity_override {| gr_overrides := ∅; gr_rcode := None; gr_families := ∅; gr_errors := errors |} (iter_overrides (mg_overrides g)))
  end.

Definition family_dims (gr : Granularity) (st : GranularityState) (family : string) : list string :=
  if bool_decide (family ∈ gr_families st) then default [] (gr_overrides st !! family) else default [] (preset_family_dimensions family gr).
Definition resolve_dimensions (gr : Granularity) (st : GranularityState) : gmap string (list string) :=
  list_to_map ((fun family => (family, family_dims gr st family)) <$> GRANULARITY_FAMILIES).

Record CollectState := { cs_collect : gmap MetricCategory bool; cs_emit : gmap MetricCategory bool; cs_errors : list Msg }.

Definition collection_entry (st : CollectState) (e : string * MetricsCollectEmit) : CollectState :=
  match category_from_str e.1 with
  | None => {| cs_collect := cs_collect st; cs_emit := cs_emit st; cs_errors := cs_errors st ++ [("metrics.collection has unknown category", [e.1])] |}
  | Some cat =>
      let c := default true (ce_collect e.2) in
      let em := default true (ce_emit e.2) in
      {| cs_collect := <[cat := c]> (cs_collect st); cs_emit := <[cat := em]> (cs_emit st);
         cs_errors := cs_errors st ++ when (negb c && em) ("metrics.collection: collect: false with emit: true is invalid", [e.1]) |}
  end.

(** [entry(cat).or_insert(true)] for each category of the set. *)
Definition or_true (m : gmap MetricCategory bool) (cats : gset MetricCategory) : gmap MetricCategory bool :=
  foldl (fun m cat => <[cat := default true (m !! cat)]> m) m (List.filter (fun cat => bool_decide (cat ∈ cats)) ALL_CATEGORIES).

Definition resolve_collection (c : gmap string MetricsCollectEmit) (cats : gset MetricCategory) : CollectState :=
  let st := foldl collection_entry {| cs_collect := ∅; cs_emit := ∅; cs_errors := [] |} (iter_collection c) in
  {| cs_collect := or_true (cs_collect st) cats; cs_emit := or_true (cs_emit st) cats; cs_errors := cs_errors st |}.

Definition resolve_event_export (ee : option MetricsEventExport) : bool * bool * list Msg :=
  match ee with
  | Some ee =>
      let c := default true (ee_collect ee) in
      let e := default true (ee_emit ee) in
      (c, e, when (negb c && e) ("metrics.event_export: collect: false with emit: true is invalid", []))
  | None => (true, true, [])
  end.

(** The mode of one user metric and its errors. *)
Definition user_metric_mode (standard_tier : bool) (i : Z) (u : UserMetricExportConfig) : UserMetricMode * list Msg :=
  let has_explicit := is_someb (um_collect u) || is_someb (um_emit u) in
  let has_export := negb (is_empty (um_export u)) in
  let c := default true (um_collect u) in
  let e := default true (um_emit u) in
  let '(collect, emit, errors) :=
    if has_explicit then (c, e, when (negb c && e) ("metrics.user_metrics: collect: false with emit: true is invalid", [dec i; um_name u]))
    else if has_export && String.eqb (um_export u) "minimal" then (true, true, [])
    else (standard_tier, standard_tier, []) in
  ({| umm_collect := collect; umm_emit := emit; umm_help := um_help u |},
   when (has_export && negb (String.eqb (um_export u) "minimal") && negb (String.eqb (um_export u) "full")) ("metrics.user_metrics export must be 'minimal' or 'full'", [dec i]) ++ errors).

Record UserState := { us_modes : gmap string UserMetricMode; us_seen : gset string; us_alias : bool; us_errors : list Msg }.

Fixpoint resolve_user_metrics (standard_tier : bool) (i : Z) (us : list UserMetricExportConfig) (st : UserState) : UserState :=
  match us with
  | [] => st
  | u :: us =>
      let next :=
        if is_empty (um_name u) then
          {| us_modes := us_modes st; us_seen := us_seen st; us_alias := us_alias st; us_errors := us_errors st ++ [("metrics.user_metrics name must not be empty", [dec i])] |}
        else if bool_decide (um_name u ∈ us_seen st) then
          {| us_modes := us_modes st; us_seen := us_seen st; us_alias := us_alias st; us_errors := us_errors st ++ [("metrics.user_metrics: duplicate name", [dec i; um_name u])] |}
        else
          let (mode, errors) := user_metric_mode standard_tier i u in
          {| us_modes := <[um_name u := mode]> (us_modes st); us_seen := {[um_name u]} ∪ us_seen st;
             us_alias := us_alias st || negb (is_empty (um_export u)); us_errors := us_errors st ++ errors |} in
      resolve_user_metrics standard_tier (i + 1) us next
  end.

Definition resolve_enabled (m : MetricsConfig) (base_str : string) (errors warnings : list Msg) : result PlanResolution (list Msg) :=
  let (base, e_base) := resolve_base (if is_empty base_str then "standard" else base_str) in
  let '(categories, e_cats, w_cats) := resolve_categories (me_categories m) (expand_base base) in
  let e_empty := when (bool_decide (categories = ∅)) ("metrics is enabled but the resolved category set is empty", []) in
  let (gr, gst) := resolve_granularity (me_granularity m) (default_granularity_for_base base) in
  let cst := resolve_collection (me_collection m) categories in
  let '(ee_c, ee_e, e_ee) := resolve_event_export (me_event_export m) in
  let ust := resolve_user_metrics (bool_decide (gr = Fine)) 0 (me_user_metrics m) {| us_modes := ∅; us_seen := ∅; us_alias := false; us_errors := [] |} in
  match errors ++ e_base ++ e_cats ++ e_empty ++ gr_errors gst ++ cs_errors cst ++ e_ee ++ us_errors ust with
  | [] =>
      Ok {| res_plan := {| pl_enabled := true; pl_base := base; pl_categories := categories; pl_collect := cs_collect cst; pl_emit := cs_emit cst;
                           pl_granularity_default := gr; pl_granularity_overrides := gr_overrides gst; pl_family_dimensions := resolve_dimensions gr gst;
                           pl_responses_rcode := default (default_responses_rcode gr) (gr_rcode gst); pl_event_export_collect := ee_c; pl_event_export_emit := ee_e;
                           pl_user_metrics := us_modes ust |};
            res_warnings := warnings ++ w_cats ++ (if us_alias ust then [USER_METRIC_EXPORT_DEPRECATION_WARNING] else []) |}
  | errors => Err errors
  end.

Definition resolve_metrics_plan (m : option MetricsConfig) : result PlanResolution (list Msg) :=
  match m with
  | None => Ok (disabled_resolution [])
  | Some m =>
      if negb (default false (me_enabled m)) then
        let ignored := ignored_keys m in
        Ok (disabled_resolution (when (negb (bool_decide (ignored = []))) ("metrics.enabled is false; ignoring metrics", ignored)))
      else
        let '(base_str, enabled, errors, warnings) := resolve_profile (me_profile m) (me_base m) in
        if negb enabled then match errors with [] => Ok (disabled_resolution warnings) | _ => Err errors end
        else resolve_enabled m base_str errors warnings
  end.
End Resolve.

(** ** Compiled sections *)

Inductive BuiltinProfile := ProfileFull | ProfileMinimal | ProfileOff.
#[global] Instance BuiltinProfile_eq : EqDecision BuiltinProfile. Proof. solve_decision. Defined.

Record CompiledMetrics := {
  cm_enabled : bool; cm_profile : BuiltinProfile; cm_plan : CompiledMetricsPlan; cm_prometheus_listen : option string; cm_prometheus_path : string;
  cm_otel_endpoint : option string; cm_otel_push_interval_ms : Z; cm_otel_resource_attributes : list (string * string); cm_otel_allow_invalid_certs : bool;
  cm_otel_headers : list (string * string) }.

Definition metrics_default (plan : CompiledMetricsPlan) : CompiledMetrics :=
  {| cm_enabled := false; cm_profile := ProfileOff; cm_plan := plan; cm_prometheus_listen := None; cm_prometheus_path := "/metrics"; cm_otel_endpoint := None;
     cm_otel_push_interval_ms := 15000; cm_otel_resource_attributes := []; cm_otel_allow_invalid_certs := false; cm_otel_headers := [] |}.

Record CompiledTraceActivation := {
  tac_tag_required : option string; tac_selectors : list CompiledSelector; tac_sample_percent : f64; tac_sample_key : SampleKey }.
Record CompiledTracing := { ctr_enabled : bool; ctr_activation : CompiledTraceActivation; ctr_log_json : bool }.

(** The derived [Default]. *)
Definition tracing_default : CompiledTracing :=
  {| ctr_enabled := false; ctr_activation := {| tac_tag_required := None; tac_selectors := []; tac_sample_percent := f64_of_Z 0; tac_sample_key := SampleGlobal |};
     ctr_log_json := false |}.

Definition result_list {A E} (r : result (list A) E) : list A := match r with Ok l => l | Err _ => [] end.
Fixpoint compile_selectors (parse_f64 : string -> option f64) (sels : list Selector) : result (list CompiledSelector) SelectorError :=
  match sels with
  | [] => Ok []
  | sel :: sels =>
      let? c := selector_compile parse_f64 sel {| cc_rule_name := None; cc_sink_name := None |} in
      let? rest := compile_selectors parse_f64 sels in Ok (c :: rest)
  end.

Section CompileSections.
Context (iter_overrides : gmap string MetricsDimensionList -> list (string * MetricsDimensionList)).
Context (iter_collection : gmap string MetricsCollectEmit -> list (string * MetricsCollectEmit)).
Context (iter_pairs : gmap string string -> list (string * string)).
Context (parse_sock : string -> option SocketAddr) (parse_f64 : string -> option f64) (siphash : Z -> string -> Z).

Definition compile_metrics (m : option MetricsConfig) : CompiledMetrics :=
  match m with
  | None => metrics_default plan_disabled
  | Some m =>
      let plan := match resolve_metrics_plan iter_overrides iter_collection (Some m) with Ok r => res_plan r | Err _ => plan_disabled end in
      if negb (pl_enabled plan) then metrics_default plan
      else
        {| cm_enabled := pl_enabled plan;
           cm_profile := if bool_decide (pl_granularity_default plan = Fine) then ProfileFull else ProfileMinimal;
           cm_plan := plan;
           cm_prometheus_listen := match me_prometheus m with Some p => if is_empty (pm_listen_address p) then None else Some (pm_listen_address p) | None => None end;
           cm_prometheus_path := match me_prometheus m with Some p => if is_empty (pm_path p) then "/metrics" else pm_path p | None => "/metrics" end;
           cm_otel_endpoint := match me_otel m with Some o => if is_empty (ot_endpoint o) then None else Some (ot_endpoint o) | None => None end;
           cm_otel_push_interval_ms := Z.max (match me_otel m with Some o => if ot_push_interval_ms o =? 0 then 15000 else ot_push_interval_ms o | None => 15000 end) 1000;
           cm_otel_resource_attributes := match me_otel m with Some o => iter_pairs (ot_resource_attributes o) | None => [] end;
           cm_otel_allow_invalid_certs := match me_otel m with Some o => default false (ot_allow_invalid_certs o) | None => false end;
           cm_otel_headers := match me_otel m with Some o => iter_pairs (ot_headers o) | None => [] end |}
  end.

Definition compile_tracing (t : option TracingConfig) : CompiledTracing :=
  match t with
  | None => tracing_default
  | Some t =>
      if negb (tr_enabled t) then tracing_default
      else
        let selectors := match tr_activation t with
                         | Some a => result_list (compile_selectors parse_f64 (List.filter (fun sel => is_ok (validate_non_rule_selector_type (sel_type sel))) (ta_selectors a)))
                         | None => []
                         end in
        let sample_percent := match tr_activation t with
                              | Some a => match parse_sink_sample_percent (ta_sample_percent a) with Ok p => p | Err _ => f64_of_Z 100 end
                              | None => f64_of_Z 100
                              end in
        let sample_key := match tr_activation t with
                          | Some a => match compile_sample_key_fields (ta_sample_key a) (ta_sample_key_from a) {| cc_rule_name := None; cc_sink_name := None |} false false with
                                      | Ok k => k
                                      | Err _ => SampleGlobal
                                      end
                          | None => SampleGlobal
                          end in
        {| ctr_enabled := true;
           ctr_activation := {| tac_tag_required := (let! a := tr_activation t in let! s := ta_tag a in if is_empty s then None else Some s);
                                tac_selectors := selectors; tac_sample_percent := sample_percent; tac_sample_key := sample_key |};
           ctr_log_json := default false (tr_log_json t) |}
  end.

Definition trace_activation_matches (a : CompiledTraceActivation) (ctx : SelectorMatchCtx) : bool :=
  if match tac_tag_required a with Some key => negb (cx_tag_has ctx key) | None => false end then false
  else if negb (bool_decide (tac_selectors a = [])) && negb (forallb (fun s => matches_ctx siphash s ctx) (tac_selectors a)) then false
  else hash_sample_keyed siphash (cx_txn_id ctx) (f64_div (tac_sample_percent a) (f64_of_Z 100)) (resolve_sample_key (tac_sample_key a) ctx).

(** ** Validation *)

Definition validate_user_metric (i : Z) (u : UserMetricExportConfig) (fresh : bool) : list ValidationError :=
  (if is_empty (um_name u) then fail "metrics.user_metrics name must not be empty" [dec i] else check fresh "metrics.user_metrics: duplicate name" [dec i; um_name u]) ++
  check (is_empty (um_export u) || contains ["minimal"; "full"] (um_export u)) "metrics.user_metrics export must be 'minimal' or 'full'" [dec i].

Fixpoint validate_user_metrics (i : Z) (seen : list string) (us : list UserMetricExportConfig) : list ValidationError :=
  match us with
  | [] => []
  | u :: us => validate_user_metric i u (negb (contains seen (um_name u))) ++ validate_user_metrics (i + 1) (if is_empty (um_name u) then seen else um_name u :: seen) us
  end.

Definition validate_trace_selector (sel : Selector) : list ValidationError :=
  of_selector ["tracing.activation"] (validate_non_rule_selector_type (sel_type sel)) ++
  check (negb (is_str (sel_type sel) "sample_percent") || is_ok (parse_sample_percent parse_f64 (sel_value sel))) "tracing.activation.selectors sample_percent must be in [0, 100]" [] ++
  of_selector ["tracing.activation"] (validate_wire_selector_value (sel_type sel) (sel_value sel)) ++
  of_selector ["tracing.activation"] (validate_selector_sample_key_fields sel false false).

Definition validate_metrics_tracing (cfg : Config) : list ValidationError :=
  on_some (metrics cfg) (fun m =>
    (match resolve_metrics_plan iter_overrides iter_collection (Some m) with Ok _ => [] | Err es => Invalid <$> es end) ++
    if default false (me_enabled m) then
      on_some (me_prometheus m) (fun p => check (is_empty (pm_listen_address p) || is_someb (parse_sock (pm_listen_address p)))
        "metrics.prometheus.listen_address is not a valid socket address" [pm_listen_address p]) ++
      on_some (me_otel m) (fun o =>
        check (is_empty (ot_endpoint o) || starts_with (ot_endpoint o) "http") "metrics.otel.endpoint must be an http(s) URL for OTLP HTTP" [] ++
        check (negb ((0 <? ot_push_interval_ms o) && (ot_push_interval_ms o <? 1000))) "metrics.otel.push_interval_ms must be >= 1000" []) ++
      validate_user_metrics 0 [] (me_user_metrics m)
    else []) ++
  on_some (tracing cfg) (fun t =>
    if tr_enabled t then
      on_some (tr_activation t) (fun a =>
        flat_map validate_trace_selector (ta_selectors a) ++
        on_some (ta_sample_percent a) (fun p => of_result ["tracing.activation"] (parse_sink_sample_percent (Some p))) ++
        of_selector ["tracing.activation"] (validate_top_level_sample_key_fields (ta_sample_key a) (ta_sample_key_from a) false))
    else []).
End CompileSections.

(** ** Scripts that use a metric *)

Inductive ConsumerKind := ConsumerRhai | ConsumerWasm | ConsumerSidecar.
#[global] Instance ConsumerKind_eq : EqDecision ConsumerKind. Proof. solve_decision. Defined.
Definition consumer_label (k : ConsumerKind) : string := match k with ConsumerRhai => "rhai" | ConsumerWasm => "wasm" | ConsumerSidecar => "sidecar" end.
Definition consumer_rank (k : ConsumerKind) : Z := match k with ConsumerRhai => 0 | ConsumerWasm => 1 | ConsumerSidecar => 2 end.

Record MetricConsumerRef := { mr_kind : ConsumerKind; mr_path : string; mr_line : option Z; mr_symbol : string }.
#[global] Instance MetricConsumerRef_eq : EqDecision MetricConsumerRef. Proof. solve_decision. Defined.

Abbreviation MetricConsumerGraph := (gmap string (list MetricConsumerRef)).

(** The derived [Ord]: the fields in their order. *)
Definition lex (c d : comparison) : comparison := match c with Eq => d | _ => c end.
Definition compare_line (a b : option Z) : comparison :=
  match a, b with None, None => Eq | None, Some _ => Lt | Some _, None => Gt | Some a, Some b => Z.compare a b end.
Definition compare_ref (a b : MetricConsumerRef) : comparison :=
  lex (Z.compare (consumer_rank (mr_kind a)) (consumer_rank (mr_kind b)))
    (lex (String.compare (mr_path a) (mr_path b)) (lex (compare_line (mr_line a) (mr_line b)) (String.compare (mr_symbol a) (mr_symbol b)))).
Definition ref_le (a b : MetricConsumerRef) : Prop := compare_ref a b <> Gt.
#[global] Instance ref_le_dec : RelDecision ref_le. Proof. intros a b. unfold ref_le. apply _. Defined.

Definition graph_record (g : MetricConsumerGraph) (metric : string) (consumer : MetricConsumerRef) : MetricConsumerGraph :=
  let entry := default [] (g !! metric) in
  <[metric := if bool_decide (consumer ∈ entry) then entry else merge_sort ref_le (entry ++ [consumer])]> g.
Definition graph_extend (g other : MetricConsumerGraph) : MetricConsumerGraph :=
  foldl (fun g e => foldl (fun g site => graph_record g e.1 site) g e.2) g (sorted_entries other).
Definition consumers_for (g : MetricConsumerGraph) (metric : string) : list MetricConsumerRef := default [] (g !! metric).

Definition is_write_consumer_symbol (symbol : string) : bool := contains ["metrics.inc"; "metrics.inc_labels"; "metric_inc"; "metric_inc_labels"] symbol.
Definition conduit_user_metric_name (bare : string) : string := ("conduit_user_" ++ bare)%string.

Definition format_consumer_list (cs : list MetricConsumerRef) : list string :=
  (fun c => (consumer_label (mr_kind c) ++ ": " ++ mr_path c ++
    match mr_line c with Some line => " (line " ++ dec line ++ ", " ++ mr_symbol c ++ ")" | None => " (" ++ mr_symbol c ++ ")" end)%string) <$> cs.

Record ConsumerDependencyReport := { dr_errors : list Msg; dr_warnings : list Msg }.

Definition metric_dependencies (plan : CompiledMetricsPlan) (e : string * list MetricConsumerRef) : list Msg * list Msg :=
  let writes := List.filter (fun c => is_write_consumer_symbol (mr_symbol c)) e.2 in
  let reads := List.filter (fun c => negb (is_write_consumer_symbol (mr_symbol c))) e.2 in
  let collect := user_collect_for plan e.1 in
  let emit := user_emit_for plan e.1 in
  (when (negb collect && negb (bool_decide (reads = [])))
     ("metrics configuration rejected: cannot stop collecting metric", e.1 :: conduit_user_metric_name e.1 :: format_consumer_list reads),
   when (negb (bool_decide (writes = [])) && (negb collect || negb emit))
     (if negb collect then "user metric is referenced by scripts but collect is off" else "user metric is referenced by scripts but emit is off",
      e.1 :: conduit_user_metric_name e.1 :: format_consumer_list writes)).

Definition check_consumer_dependencies (graph : MetricConsumerGraph) (plan : CompiledMetricsPlan) : ConsumerDependencyReport :=
  if negb (pl_enabled plan) then {| dr_errors := []; dr_warnings := [] |}
  else {| dr_errors := flat_map (fun e => (metric_dependencies plan e).1) (sorted_entries graph);
          dr_warnings := flat_map (fun e => (metric_dependencies plan e).2) (sorted_entries graph) |}.

(** ** The resolved plan *)

Lemma category_from_name name cat : category_from_str name = Some cat -> name = category_str cat.
Proof. intros (_ & H)%List.find_some. symmetry. by apply String.eqb_eq. Qed.

Lemma when_nil b m : when b m = [] -> b = false.
Proof. by destruct b. Qed.

Lemma known_categories_spec what names cat :
  cat ∈ (known_categories what names).1 <-> category_str cat ∈ names.
Proof.
  induction names as [|name names IH]; cbn [known_categories]; [set_solver|].
  destruct (known_categories what names) as [s errors]. cbn [fst] in IH.
  rewrite elem_of_cons, <- IH. destruct (category_from_str name) as [c|] eqn:E; cbn [fst].
  - apply category_from_name in E as ->. rewrite elem_of_union, elem_of_singleton.
    split; intros [H|H]; try by right.
    + left. by subst.
    + left. apply (f_equal category_from_str) in H. rewrite !category_from_to in H. by injection H.
  - split; [by right|]. intros [<-|H]; [|done]. by rewrite category_from_to in E.
Qed.

(** What the operator named. *)
Definition named_categories (part : MetricsCategories -> list string) (c : option MetricsCategories) : list string := from_option part [] c.

Lemma resolve_categories_spec c start cat :
  cat ∈ (resolve_categories c start).1.1 <->
  (cat ∈ start \/ category_str cat ∈ named_categories mc_include c) /\ category_str cat ∉ named_categories mc_exclude c.
Proof.
  destruct c as [c|]; cbn [resolve_categories named_categories from_option fst]; [|set_solver].
  pose proof (known_categories_spec "metrics.categories.include is not a known category" (mc_include c) cat) as Hi.
  pose proof (known_categories_spec "metrics.categories.exclude is not a known category" (mc_exclude c) cat) as Hx.
  destruct (known_categories _ (mc_include c)) as [inc e1], (known_categories _ (mc_exclude c)) as [exc e2].
  cbn [fst] in *. set_solver.
Qed.

(** *** Dimensions *)

Lemma normalize_sublist allowed provided : normalize_dimensions allowed provided `sublist_of` allowed.
Proof.
  unfold normalize_dimensions. induction allowed as [|a allowed IH]; cbn [List.filter]; [done|].
  destruct (contains provided a); [by apply sublist_skip|by apply sublist_cons].
Qed.

Lemma preset_sublist family g allowed dims :
  family_allowed_dimensions family = Some allowed -> preset_family_dimensions family g = Some dims -> dims `sublist_of` allowed.
Proof.
  unfold family_allowed_dimensions, preset_family_dimensions. intros Ha Hd.
  repeat (destruct (String.eqb family _); [injection Ha as <-; injection Hd as <-; destruct g; repeat constructor|]). done.
Qed.

Lemma lookup_resolved gr st family :
  resolve_dimensions gr st !! family = if contains GRANULARITY_FAMILIES family then Some (family_dims gr st family) else None.
Proof.
  unfold resolve_dimensions, GRANULARITY_FAMILIES. cbn [fmap list_fmap contains existsb]. rewrite !list_to_map_cons, list_to_map_nil.
  rewrite !lookup_insert, lookup_empty.
  repeat (case_decide; [subst; by rewrite ?String.eqb_refl, ?orb_true_r|]).
  repeat match goal with H : ?a <> family |- _ => assert (String.eqb family a = false) as -> by (by apply String.eqb_neq); clear H end. done.
Qed.

(** The dimensions of a family are the operator's, in canonical order, or those of the preset. *)
Definition expected_dimensions (gr : Granularity) (g : option MetricsGranularity) (family : string) : list string :=
  match (let! g := g in mg_overrides g !! family) with
  | Some l => if md_dimensions_set l then normalize_dimensions (default [] (family_allowed_dimensions family)) (md_dimensions l)
              else default [] (preset_family_dimensions family gr)
  | None => default [] (preset_family_dimensions family gr)
  end.

Lemma override_lookup st e family :
  let st' := granularity_override st e in
  (bool_decide (family ∈ gr_families st'), gr_overrides st' !! family) =
  match family_allowed_dimensions e.1 with
  | Some allowed => if bool_decide (family = e.1) && md_dimensions_set e.2 then (true, Some (normalize_dimensions allowed (md_dimensions e.2)))
                    else (bool_decide (family ∈ gr_families st), gr_overrides st !! family)
  | None => (bool_decide (family ∈ gr_families st), gr_overrides st !! family)
  end.
Proof.
  unfold granularity_override. destruct (family_allowed_dimensions e.1) as [allowed|]; [|done].
  assert (forall st', let st'' := override_rcode e.1 e.2 st' in gr_families st'' = gr_families st' /\ gr_overrides st'' = gr_overrides st') as Hr.
  { intros st'. unfold override_rcode. destruct (is_empty _), (String.eqb e.1 "responses"), (rcode_mode_from_str (md_rcode e.2)); done. }
  cbv zeta. destruct (Hr (override_dimensions e.1 allowed e.2 st)) as [-> ->]. unfold override_dimensions.
  destruct (md_dimensions_set e.2); [|by rewrite andb_false_r]. rewrite andb_true_r. cbn [gr_families gr_overrides].
  destruct (decide (family = e.1)) as [->|Hne].
  - rewrite lookup_insert_eq, (bool_decide_eq_true_2 (e.1 = e.1)) by done. by rewrite bool_decide_eq_true_2 by set_solver.
  - rewrite lookup_insert_ne, (bool_decide_eq_false_2 (family = e.1)) by done. f_equal. apply bool_decide_ext. set_solver.
Qed.

Lemma overrides_fold l st family :
  NoDup l.*1 -> is_Some (family_allowed_dimensions family) ->
  let st' := foldl granularity_override st l in
  (bool_decide (family ∈ gr_families st'), gr_overrides st' !! family) =
  match (list_to_map l : gmap string MetricsDimensionList) !! family with
  | Some d => if md_dimensions_set d then (true, Some (normalize_dimensions (default [] (family_allowed_dimensions family)) (md_dimensions d)))
              else (bool_decide (family ∈ gr_families st), gr_overrides st !! family)
  | None => (bool_decide (family ∈ gr_families st), gr_overrides st !! family)
  end.
Proof.
  intros Hnd [allowed Ha]. revert st. induction l as [|e l IH]; intros st; [done|].
  cbn [fmap list_fmap] in Hnd. apply NoDup_cons in Hnd as [Hn Hnd]. cbv zeta in *. cbn [foldl].
  rewrite (IH Hnd). pose proof (override_lookup st e family) as Ho. cbv zeta in Ho. rewrite Ho. clear Ho.
  destruct e as [k d]. rewrite list_to_map_cons. cbn [fst snd] in *. destruct (decide (family = k)) as [->|Hne].
  - rewrite lookup_insert_eq, (bool_decide_eq_true_2 (k = k)), Ha by done. apply not_elem_of_list_to_map_1 in Hn as ->.
    destruct (md_dimensions_set d); done.
  - rewrite lookup_insert_ne, (bool_decide_eq_false_2 (family = k)) by done. cbn [andb]. by destruct (family_allowed_dimensions k).
Qed.

Definition iterates {A} (iter : gmap string A -> list (string * A)) : Prop := forall m, iter m ≡ₚ map_to_list m.

Lemma iterates_map {A} (iter : gmap string A -> list (string * A)) m : iterates iter -> NoDup (iter m).*1 /\ list_to_map (iter m) = m.
Proof.
  intros Hi. assert (NoDup (iter m).*1) as Hnd by (rewrite (Hi m); apply NoDup_fst_map_to_list).
  split; [done|]. transitivity (list_to_map (map_to_list m) : gmap string A); [by apply list_to_map_proper|apply list_to_map_to_list].
Qed.

Lemma granularity_families_known family : contains GRANULARITY_FAMILIES family = is_someb (family_allowed_dimensions family).
Proof.
  unfold GRANULARITY_FAMILIES, family_allowed_dimensions. cbn [contains existsb].
  repeat (destruct (String.eqb family _); [done|]). done.
Qed.

Lemma resolved_dimensions_spec iter g start gr st family :
  iterates iter -> resolve_granularity iter g start = (gr, st) -> is_Some (family_allowed_dimensions family) ->
  default [] (resolve_dimensions gr st !! family) = expected_dimensions gr g family.
Proof.
  intros Hi Hg Hf. rewrite lookup_resolved, granularity_families_known. destruct Hf as [allowed Ha]. rewrite Ha. cbn [is_someb from_option default id].
  unfold family_dims, expected_dimensions. destruct g as [g|]; cbn [resolve_granularity] in Hg; [|injection Hg as <- <-; by rewrite bool_decide_eq_false_2 by apply not_elem_of_empty].
  destruct (if is_empty _ then _ else _) as [gr' errors]. injection Hg as <- <-. cbn [mbind option_bind].
  destruct (iterates_map iter (mg_overrides g) Hi) as [Hnd Hm].
  pose proof (overrides_fold _ {| gr_overrides := ∅; gr_rcode := None; gr_families := ∅; gr_errors := errors |} family Hnd (ex_intro _ _ Ha)) as Ho.
  cbv zeta in Ho. rewrite Hm in Ho. destruct (mg_overrides g !! family) as [d|]; cbn [from_option]; [destruct (md_dimensions_set d)|]; injection Ho as Hb Hl; by rewrite Hb, ?Hl, ?Ha.
Qed.

Lemma expected_sublist gr g family allowed : family_allowed_dimensions family = Some allowed -> expected_dimensions gr g family `sublist_of` allowed.
Proof.
  intros Ha. unfold expected_dimensions. rewrite Ha.
  assert (default [] (preset_family_dimensions family gr) `sublist_of` allowed) as Hp.
  { destruct (preset_family_dimensions family gr) eqn:E; cbn; [by eapply preset_sublist|apply sublist_nil_l]. }
  destruct (let! g := g in mg_overrides g !! family) as [d|]; [|done].
  destruct (md_dimensions_set d); [apply normalize_sublist|done].
Qed.

(** *** Collection *)

Lemma collection_fold l st cat :
  NoDup l.*1 ->
  let ce := (list_to_map l : gmap string MetricsCollectEmit) !! category_str cat in
  let st' := foldl collection_entry st l in
  cs_collect st' !! cat = match ce with Some ce => Some (default true (ce_collect ce)) | None => cs_collect st !! cat end /\
  cs_emit st' !! cat = match ce with Some ce => Some (default true (ce_emit ce)) | None => cs_emit st !! cat end.
Proof.
  intros Hnd. revert st. induction l as [|[k e] l IH]; intros st; [done|].
  cbn [fmap list_fmap fst] in Hnd. apply NoDup_cons in Hnd as [Hn Hnd]. cbv zeta in *. cbn [foldl].
  destruct (IH Hnd (collection_entry st (k, e))) as [-> ->]. clear IH. rewrite list_to_map_cons. cbn [fst snd].
  unfold collection_entry. cbn [fst snd]. destruct (decide (k = category_str cat)) as [->|Hne].
  - rewrite lookup_insert_eq, category_from_to. apply not_elem_of_list_to_map_1 in Hn as ->. cbn [cs_collect cs_emit]. by rewrite !lookup_insert_eq.
  - rewrite lookup_insert_ne by done. destruct (list_to_map l !! _); [done|].
    destruct (category_from_str k) as [cat'|] eqn:E; [|done]. cbn [cs_collect cs_emit].
    rewrite !lookup_insert_ne; [done| |]; intros ->; by apply category_from_name in E.
Qed.

Lemma or_true_lookup m cats cat : or_true m cats !! cat = if bool_decide (cat ∈ cats) then Some (default true (m !! cat)) else m !! cat.
Proof.
  assert (forall l (m : gmap MetricCategory bool), NoDup l -> foldl (fun m cat => <[cat := default true (m !! cat)]> m) m l !! cat
    = if bool_decide (cat ∈ l) then Some (default true (m !! cat)) else m !! cat) as H.
  { clear. induction l as [|c l IH]; intros m Hnd; [done|]. apply NoDup_cons in Hnd as [Hn Hnd]. cbn [foldl]. rewrite IH by done.
    destruct (decide (cat = c)) as [->|Hne].
    - rewrite lookup_insert_eq, bool_decide_eq_false_2, bool_decide_eq_true_2 by set_solver. done.
    - rewrite lookup_insert_ne by done. erewrite bool_decide_ext; [done|]. set_solver. }
  unfold or_true. rewrite H.
  - erewrite bool_decide_ext; [done|]. rewrite list_elem_of_In, List.filter_In, <- list_elem_of_In, bool_decide_eq_true.
    split; [by intros [_ ?]|]. split; [|done]. destruct cat; set_solver.
  - apply NoDup_ListNoDup, List.NoDup_filter, NoDup_ListNoDup. apply (bool_decide_unpack _). by vm_compute.
Qed.

Definition collect_error (e : string * MetricsCollectEmit) : list Msg :=
  match category_from_str e.1 with
  | None => [("metrics.collection has unknown category", [e.1])]
  | Some _ => when (negb (default true (ce_collect e.2)) && default true (ce_emit e.2)) ("metrics.collection: collect: false with emit: true is invalid", [e.1])
  end.

Lemma collection_errors l st : cs_errors (foldl collection_entry st l) = cs_errors st ++ flat_map collect_error l.
Proof.
  revert st. induction l as [|e l IH]; intros st; cbn [foldl flat_map]; [by rewrite app_nil_r|].
  rewrite IH, app_assoc. f_equal. unfold collection_entry, collect_error. by destruct (category_from_str e.1).
Qed.

Section Collection.
Context (iter : gmap string MetricsCollectEmit -> list (string * MetricsCollectEmit)) (Hiter : iterates iter).
Context (c : gmap string MetricsCollectEmit) (cats : gset MetricCategory).

(** What a category is set to, [true] if nothing is said. *)
Definition collection_flag (part : MetricsCollectEmit -> option bool) (cat : MetricCategory) : bool :=
  default true (let! ce := c !! category_str cat in part ce).

Lemma resolve_collection_spec cat :
  cat ∈ cats ->
  cs_collect (resolve_collection iter c cats) !! cat = Some (collection_flag ce_collect cat) /\
  cs_emit (resolve_collection iter c cats) !! cat = Some (collection_flag ce_emit cat).
Proof.
  intros Hc. destruct (iterates_map iter c Hiter) as [Hnd Hm]. unfold resolve_collection. cbn [cs_collect cs_emit].
  rewrite !or_true_lookup, bool_decide_eq_true_2 by done.
  destruct (collection_fold (iter c) {| cs_collect := ∅; cs_emit := ∅; cs_errors := [] |} cat Hnd) as [-> ->]. rewrite Hm.
  unfold collection_flag. by destruct (c !! category_str cat) as [ce|].
Qed.

Lemma collection_emits_collected cat :
  cs_errors (resolve_collection iter c cats) = [] -> collection_flag ce_emit cat = true -> collection_flag ce_collect cat = true.
Proof.
  unfold resolve_collection. cbn [cs_errors]. rewrite collection_errors. cbn [cs_errors app]. intros He.
  unfold collection_flag. destruct (c !! category_str cat) as [ce|] eqn:E; cbn [mbind option_bind]; [|done].
  assert (collect_error (category_str cat, ce) = []) as H.
  { apply flat_map_nil in He. rewrite Forall_forall in He. apply He. rewrite (Hiter c). by apply elem_of_map_to_list. }
  unfold collect_error in H. cbn [fst snd] in H. rewrite category_from_to in H. apply when_nil in H.
  intros Hem. rewrite Hem, andb_true_r in H. by apply negb_false_iff in H.
Qed.
End Collection.

(** *** User metrics *)

Definition user_mode (standard_tier : bool) (u : UserMetricExportConfig) : UserMetricMode := (user_metric_mode standard_tier 0 u).1.

Lemma user_metric_mode_fst tier i u : (user_metric_mode tier i u).1 = user_mode tier u.
Proof.
  unfold user_mode, user_metric_mode. destruct (is_someb (um_collect u) || is_someb (um_emit u)); [done|].
  by destruct (negb (is_empty (um_export u)) && String.eqb (um_export u) "minimal").
Qed.

Lemma user_mode_emits_collected tier i u : (user_metric_mode tier i u).2 = [] -> umm_emit (user_mode tier u) = true -> umm_collect (user_mode tier u) = true.
Proof.
  unfold user_mode, user_metric_mode. destruct (is_someb (um_collect u) || is_someb (um_emit u)).
  - cbn [snd fst umm_emit umm_collect]. intros [_ H]%app_nil He. apply when_nil in H. rewrite He, andb_true_r in H. by apply negb_false_iff.
  - by destruct (negb (is_empty (um_export u)) && String.eqb (um_export u) "minimal").
Qed.

Record users_ok (tier : bool) (us : list UserMetricExportConfig) (st : UserState) : Prop := {
  uo_seen : dom (us_modes st) = us_seen st;
  uo_listed u : u ∈ us -> us_modes st !! um_name u = Some (user_mode tier u);
  uo_from name mode : us_modes st !! name = Some mode -> exists u, u ∈ us /\ um_name u = name /\ mode = user_mode tier u;
  uo_mask name mode : us_modes st !! name = Some mode -> umm_emit mode = true -> umm_collect mode = true }.

Definition next_user (tier : bool) (i : Z) (u : UserMetricExportConfig) (st : UserState) : UserState := resolve_user_metrics tier i [u] st.

Lemma resolve_users_cons tier i u us st : resolve_user_metrics tier i (u :: us) st = resolve_user_metrics tier (i + 1) us (next_user tier i u st).
Proof. done. Qed.

Lemma next_user_errors tier i u st : us_errors st `prefix_of` us_errors (next_user tier i u st).
Proof.
  unfold next_user. cbn [resolve_user_metrics]. destruct (is_empty (um_name u)); [by apply prefix_app_r|].
  destruct (bool_decide _); [by apply prefix_app_r|]. destruct (user_metric_mode tier i u). by apply prefix_app_r.
Qed.

Lemma user_errors_prefix tier us : forall i st, us_errors st `prefix_of` us_errors (resolve_user_metrics tier i us st).
Proof.
  induction us as [|u us IH]; intros i st; [done|]. rewrite resolve_users_cons.
  etransitivity; [apply next_user_errors|apply IH].
Qed.

Lemma next_user_ok tier i u st dn : users_ok tier dn st -> us_errors (next_user tier i u st) = [] -> users_ok tier (dn ++ [u]) (next_user tier i u st).
Proof.
  intros [Hs Hl Hf Hm]. unfold next_user. cbn [resolve_user_metrics].
  destruct (is_empty (um_name u)); [by intros [_ [=]]%app_nil|].
  destruct (bool_decide_reflect (um_name u ∈ us_seen st)) as [Hin|Hnin]; [by intros [_ [=]]%app_nil|].
  pose proof (user_metric_mode_fst tier i u) as Hfst. pose proof (user_mode_emits_collected tier i u) as Hmask.
  destruct (user_metric_mode tier i u) as [mode errors]. cbn [fst snd us_errors] in *. subst mode. intros [_ ->]%app_nil.
  assert (forall u', u' ∈ dn -> um_name u <> um_name u') as Hfresh.
  { intros u' Hu' Heq. apply Hnin. rewrite <- Hs, Heq. apply elem_of_dom. rewrite Hl by done. by eexists. }
  split; cbn [us_modes us_seen].
  - by rewrite dom_insert_L, Hs.
  - intros u' [Hu'| ->%list_elem_of_singleton]%elem_of_app; [|by rewrite lookup_insert_eq].
    rewrite lookup_insert_ne by (by apply Hfresh). by apply Hl.
  - intros name mode. destruct (decide (name = um_name u)) as [->|Hne].
    + rewrite lookup_insert_eq. intros [= <-]. exists u. split; [|done]. apply elem_of_app. right. by apply list_elem_of_singleton.
    + rewrite lookup_insert_ne by done. intros (u' & Hu' & ?)%Hf. exists u'. split; [apply elem_of_app; by left|done].
  - intros name mode. destruct (decide (name = um_name u)) as [->|Hne].
    + rewrite lookup_insert_eq. intros [= <-]. by apply Hmask.
    + rewrite lookup_insert_ne by done. apply Hm.
Qed.

Lemma resolve_user_metrics_ok tier us : forall dn i st,
  users_ok tier dn st -> us_errors (resolve_user_metrics tier i us st) = [] -> users_ok tier (dn ++ us) (resolve_user_metrics tier i us st).
Proof.
  induction us as [|u us IH]; intros dn i st Hst He; [by rewrite app_nil_r|].
  rewrite resolve_users_cons in *. rewrite cons_middle, app_assoc. apply IH; [|done]. apply next_user_ok; [done|].
  pose proof (user_errors_prefix tier us (i + 1) (next_user tier i u st)) as Hp. rewrite He in Hp. by apply prefix_nil_inv in Hp.
Qed.

(** *** The plan *)

(** What is exported is recorded, and the labels of a family are allowed ones in canonical order, none twice. *)
Record plan_ok (p : CompiledMetricsPlan) : Prop := {
  po_category cat : emit_for p cat = true -> collect_for p cat = true;
  po_user name : user_emit_for p name = true -> user_collect_for p name = true;
  po_event : pl_event_export_emit p = true -> pl_event_export_collect p = true;
  po_dimensions family allowed : family_allowed_dimensions family = Some allowed -> dimensions_for p family `sublist_of` allowed }.

Lemma plan_disabled_ok : plan_ok plan_disabled.
Proof. split; intros; try done. apply sublist_nil_l. Qed.

Lemma allowed_NoDup family allowed : family_allowed_dimensions family = Some allowed -> NoDup allowed.
Proof.
  unfold family_allowed_dimensions. intros H.
  repeat (destruct (String.eqb family _); [injection H as <-; by apply (bool_decide_unpack _); vm_compute|]). done.
Qed.

Lemma resolve_event_export_ok ee c e : resolve_event_export ee = (c, e, []) -> e = true -> c = true.
Proof.
  destruct ee as [ee|]; cbn; [|by intros [= <-]]. intros [= <- <- H%when_nil] He. rewrite He, andb_true_r in H. by apply negb_false_iff in H.
Qed.

Section ResolvedPlan.
Context (iter_overrides : gmap string MetricsDimensionList -> list (string * MetricsDimensionList)) (Hovr : iterates iter_overrides).
Context (iter_collection : gmap string MetricsCollectEmit -> list (string * MetricsCollectEmit)) (Hcol : iterates iter_collection).

(** The plan of an enabled section says what the section says. *)
Record plan_of (m : MetricsConfig) (p : CompiledMetricsPlan) : Prop := {
  pf_categories cat : cat ∈ pl_categories p <->
    (cat ∈ expand_base (pl_base p) \/ category_str cat ∈ named_categories mc_include (me_categories m)) /\
    category_str cat ∉ named_categories mc_exclude (me_categories m);
  pf_nonempty : pl_categories p <> ∅;
  pf_masks cat : cat ∈ pl_categories p ->
    collect_for p cat = collection_flag (me_collection m) ce_collect cat /\ emit_for p cat = collection_flag (me_collection m) ce_emit cat;
  pf_users u : u ∈ me_user_metrics m -> pl_user_metrics p !! um_name u = Some (user_mode (bool_decide (pl_granularity_default p = Fine)) u);
  pf_dimensions family : is_Some (family_allowed_dimensions family) ->
    dimensions_for p family = expected_dimensions (pl_granularity_default p) (me_granularity m) family }.

Lemma resolve_enabled_spec m base_str errors warnings r :
  resolve_enabled iter_overrides iter_collection m base_str errors warnings = Ok r ->
  pl_enabled (res_plan r) = true /\ plan_of m (res_plan r) /\ plan_ok (res_plan r).
Proof.
  unfold resolve_enabled. destruct (resolve_base _) as [base e_base].
  pose proof (resolve_categories_spec (me_categories m) (expand_base base)) as Hcats.
  destruct (resolve_categories _ _) as [[cats e_cats] w_cats]. cbn [fst] in Hcats.
  destruct (resolve_granularity _ _ _) as [gr gst] eqn:Eg.
  pose proof (resolve_collection_spec iter_collection Hcol (me_collection m) cats) as Hmask.
  pose proof (collection_emits_collected iter_collection Hcol (me_collection m) cats) as Hcol_ok.
  destruct (resolve_collection _ _ _) as [cc ce e_col]. cbn [cs_collect cs_emit cs_errors] in *.
  destruct (resolve_event_export _) as [[ee_c ee_e] e_ee] eqn:Eee.
  match goal with |- context [resolve_user_metrics ?t ?i ?us ?st] => pose proof (resolve_user_metrics_ok t us [] i st) as Hus; set (ust := resolve_user_metrics t i us st) in * end.
  destruct (errors ++ _) as [|] eqn:Eerr; [|done]. intros [= <-]. cbn [res_plan pl_enabled].
  repeat (apply app_nil in Eerr as [? Eerr]). split; [done|].
  assert (users_ok (bool_decide (gr = Fine)) (me_user_metrics m) ust) as [_ Hl _ Hm].
  { apply Hus; [|done]. split; cbn; [apply dom_empty_L|set_solver|done|done]. }
  assert (forall cat, cat ∈ cats -> cc !! cat = Some (collection_flag (me_collection m) ce_collect cat) /\ ce !! cat = Some (collection_flag (me_collection m) ce_emit cat)) as Hflags by done.
  split; split; cbn [pl_categories pl_base pl_granularity_default pl_user_metrics pl_event_export_emit pl_event_export_collect].
  - apply Hcats.
  - intros ->. by rewrite bool_decide_eq_true_2 in *.
  - intros cat Hcat. unfold collect_for, emit_for. cbn. destruct (Hflags cat Hcat) as [-> ->]. by rewrite bool_decide_eq_true_2.
  - exact Hl.
  - intros family Hf. eapply resolved_dimensions_spec; [exact Hovr|exact Eg|done].
  - intros cat. unfold emit_for, collect_for. cbn. destruct (bool_decide_reflect (cat ∈ cats)) as [Hcat|]; [|done].
    destruct (Hflags cat Hcat) as [-> ->]. cbn. by apply Hcol_ok.
  - intros name. unfold user_emit_for, user_collect_for. cbn. destruct (us_modes ust !! name) as [mode|] eqn:E; [by apply (Hm name)|done].
  - subst e_ee. by eapply resolve_event_export_ok.
  - intros family allowed Ha. unfold dimensions_for. cbn [pl_family_dimensions]. rewrite (resolved_dimensions_spec _ _ _ _ _ family Hovr Eg) by (by eexists).
    by apply expected_sublist.
Qed.

Definition metrics_on (m : MetricsConfig) : bool := default false (me_enabled m) && negb (String.eqb (me_profile m) "off").

Lemma resolve_error_nonempty m : resolve_metrics_plan iter_overrides iter_collection m <> Err [].
Proof.
  assert (forall m b es ws, resolve_enabled iter_overrides iter_collection m b es ws <> Err []) as He.
  { intros m' b es ws. unfold resolve_enabled.
    destruct (resolve_base _), (resolve_categories _ _) as [[? ?] ?], (resolve_granularity _ _ _), (resolve_event_export _) as [[? ?] ?].
    by destruct (es ++ _). }
  unfold resolve_metrics_plan. destruct m as [m|]; [|done]. destruct (negb _); [done|].
  destruct (resolve_profile _ _) as [[[? []] es] ?]; cbn [negb]; [apply He|by destruct es].
Qed.

Lemma resolve_metrics_plan_spec m r :
  resolve_metrics_plan iter_overrides iter_collection (Some m) = Ok r ->
  pl_enabled (res_plan r) = metrics_on m /\ plan_ok (res_plan r) /\ (metrics_on m = true -> plan_of m (res_plan r)).
Proof.
  unfold resolve_metrics_plan, metrics_on. destruct (default false (me_enabled m)); cbn [negb andb].
  2: { intros [= <-]. split; [done|]. split; [apply plan_disabled_ok|done]. }
  unfold resolve_profile. destruct (is_empty (me_profile m)) eqn:E0.
  { assert (String.eqb (me_profile m) "off" = false) as -> by (by destruct (me_profile m)).
    cbn [negb]. by intros (? & ? & ?)%resolve_enabled_spec. }
  destruct (String.eqb_spec (me_profile m) "minimal") as [->|]; [cbn [negb String.eqb]; by intros (? & ? & ?)%resolve_enabled_spec|].
  destruct (String.eqb_spec (me_profile m) "full") as [->|]; [cbn [negb String.eqb]; by intros (? & ? & ?)%resolve_enabled_spec|].
  destruct (String.eqb (me_profile m) "off"); cbn [negb].
  - intros [= <-]. split; [done|]. split; [apply plan_disabled_ok|done].
  - by intros (? & ? & ?)%resolve_enabled_spec.
Qed.

Section Validated.
Context (iter_pairs : gmap string string -> list (string * string)) (parse_sock : string -> option SocketAddr) (parse_f64 : string -> option f64).
#[local] Abbreviation valid := (validate_metrics_tracing iter_overrides iter_collection parse_sock parse_f64).

Lemma trace_selector_compiles sel : validate_trace_selector parse_f64 sel = [] -> not_blank sel ->
  is_ok (validate_non_rule_selector_type (sel_type sel)) = true /\ exists c, selector_compile parse_f64 sel {| cc_rule_name := None; cc_sink_name := None |} = Ok c.
Proof.
  unfold validate_trace_selector. rewrite !app_nil_iff, !of_selector_nil, !check_nil. intros (Ht & Hp & Hw & Hk) Hb.
  split; [by apply is_ok_spec|]. apply checked_selector_compiles; try done.
  destruct Ht as [u Ht]. unfold validate_non_rule_selector_type in Ht.
  destruct (contains RULE_ONLY_SELECTOR_TYPES (sel_type sel)) eqn:Hr; [by destruct (validate_selector_type (sel_type sel))|].
  cbn in Hr. apply orb_false_iff in Hr as [E1 Hr]. apply orb_false_iff in Hr as [E2 _]. cbn. by rewrite E1, E2.
Qed.

Lemma compile_selectors_all sels :
  Forall (fun sel => is_ok (validate_non_rule_selector_type (sel_type sel)) = true /\ exists c, selector_compile parse_f64 sel {| cc_rule_name := None; cc_sink_name := None |} = Ok c) sels ->
  List.filter (fun sel => is_ok (validate_non_rule_selector_type (sel_type sel))) sels = sels /\
  exists cs, compile_selectors parse_f64 sels = Ok cs /\
    Forall2 (fun sel c => selector_compile parse_f64 sel {| cc_rule_name := None; cc_sink_name := None |} = Ok c) sels cs.
Proof.
  induction 1 as [|sel sels [Hk [c Hc]] _ [Hf (cs & Hcs & Hall)]]; cbn [List.filter compile_selectors]; [by eauto|].
  rewrite Hk, Hf, Hc. split; [done|]. rewrite Hcs. eexists. split; [done|]. by constructor.
Qed.


End Validated.
End ResolvedPlan.

(** *** Examples *)

Definition no_metrics : MetricsConfig :=
  {| me_enabled := Some true; me_profile := ""; me_prometheus := None; me_otel := None; me_user_metrics := []; me_base := ""; me_categories := None;
     me_granularity := None; me_collection := ∅; me_event_export := None |}.
Definition with_sections (m : option MetricsConfig) (t : option TracingConfig) : Config := 
  MkConfig 1 None None None None None [] None None None [] m t None None None [] None None.
Definition trace_of (sels : list Selector) : TracingConfig :=
  {| tr_enabled := true; tr_activation := Some {| ta_tag := None; ta_selectors := sels; ta_sample_percent := None; ta_sample_key := None; ta_sample_key_from := None |};
     tr_log_json := None |}.
Definition qname_selector : Selector := {| sel_type := "qname_exact"; sel_value := "a."; sel_key := None; sel_key_from := None |}.
Definition blank_selector : Selector := {| sel_type := "cache_instance"; sel_value := " "; sel_key := None; sel_key_from := None |}.

Lemma map_to_list_iterates {A} : iterates (fun m : gmap string A => map_to_list m).
Proof. by intros m. Qed.


(** A blank [cache_instance] or [client_cidr] passes the validation, and the compilation then drops every selector of the
    activation, the valid ones too: all queries are traced. *)
Theorem blank_selector_traces_all siphash iter_overrides iter_collection parse_sock parse_f64 ctx :
  let t := trace_of [qname_selector; blank_selector] in
  validate_metrics_tracing iter_overrides iter_collection parse_sock parse_f64 (with_sections None (Some t)) = [] /\
  trace_activation_matches siphash (ctr_activation (compile_tracing parse_f64 (Some t))) ctx = true.
Proof. split; [reflexivity|]. unfold trace_activation_matches, hash_sample_keyed. by vm_compute. Qed.

(** [collect: false] alone is rejected: the absent [emit] is [true]. *)
Theorem collect_off_alone_rejected iter_overrides :
  resolve_metrics_plan iter_overrides map_to_list
    (Some (MkMetrics (Some true) "" None None [] "" None None {["timing" := {| ce_collect := Some false; ce_emit := None |}]} None))
  = Err [("metrics.collection: collect: false with emit: true is invalid", ["timing"])].
Proof. reflexivity. Qed.

(** *** Consumers *)

Lemma sorted_entries_perm {A} (m : gmap string A) : sorted_entries m ≡ₚ map_to_list m.
Proof. unfold sorted_entries. by rewrite merge_sort_Permutation. Qed.

Lemma filter_nil {A} (f : A -> bool) l : List.filter f l = [] <-> forall a, a ∈ l -> f a = false.
Proof.
  induction l as [|a l IH]; cbn [List.filter]; [set_solver|]. destruct (f a) eqn:E; split; try done.
  - intros H. specialize (H a ltac:(left)). congruence.
  - intros H b [->|Hb]%elem_of_cons; [done|]. by apply IH.
  - intros H. apply IH. intros b Hb. apply H. by right.
Qed.

Lemma metric_errors_nil plan m l :
  (metric_dependencies plan (m, l)).1 = [] <-> forall site, site ∈ l -> is_write_consumer_symbol (mr_symbol site) = false -> user_collect_for plan m = true.
Proof.
  unfold metric_dependencies. cbn [fst snd]. destruct (user_collect_for plan m); cbn [negb andb]; [done|].
  destruct (bool_decide_reflect (List.filter (fun c => negb (is_write_consumer_symbol (mr_symbol c))) l = [])) as [E|E]; cbn [negb when].
  - split; [|done]. intros _ site Hs Hw. rewrite filter_nil in E. specialize (E site Hs). by rewrite Hw in E.
  - split; [done|]. intros H. destruct E. apply filter_nil. intros a Ha. destruct (is_write_consumer_symbol (mr_symbol a)) eqn:W; [done|].
    by discriminate (H a Ha W).
Qed.

Lemma metric_warnings_nil plan m l :
  (metric_dependencies plan (m, l)).2 = [] <->
  forall site, site ∈ l -> is_write_consumer_symbol (mr_symbol site) = true -> user_collect_for plan m = true /\ user_emit_for plan m = true.
Proof.
  unfold metric_dependencies. cbn [fst snd].
  destruct (bool_decide_reflect (List.filter (fun c => is_write_consumer_symbol (mr_symbol c)) l = [])) as [E|E]; cbn [negb when andb].
  - split; [|done]. intros _ site Hs Hw. rewrite filter_nil in E. specialize (E site Hs). by rewrite Hw in E.
  - split; [by destruct (user_collect_for plan m), (user_emit_for plan m)|]. intros H.
    destruct (user_collect_for plan m && user_emit_for plan m) eqn:B.
    + apply andb_true_iff in B as [-> ->]. done.
    + destruct E. apply filter_nil. intros a Ha. destruct (is_write_consumer_symbol (mr_symbol a)) eqn:W; [|done].
      destruct (H a Ha W) as [H1 H2]. by rewrite H1, H2 in B.
Qed.

Lemma entries_forall (P : string * list MetricConsumerRef -> Prop) (graph : MetricConsumerGraph) :
  (forall m, P (m, [])) -> Forall P (sorted_entries graph) <-> forall metric, P (metric, consumers_for graph metric).
Proof.
  intros H0. rewrite sorted_entries_perm, Forall_forall. unfold consumers_for. split.
  - intros H metric. destruct (graph !! metric) as [l|] eqn:E; cbn; [|done]. apply (H (metric, l)). by apply elem_of_map_to_list.
  - intros H [metric l] Hl%elem_of_map_to_list. specialize (H metric). by rewrite Hl in H.
Qed.

(** A graph and an enabled plan give an error exactly if a site reads a metric that is not recorded, and
    a warning exactly if one writes a metric that is not both recorded and exported. *)
Theorem consumer_report graph plan :
  pl_enabled plan = true ->
  let report := check_consumer_dependencies graph plan in
  (dr_errors report = [] <->
     forall metric site, site ∈ consumers_for graph metric -> is_write_consumer_symbol (mr_symbol site) = false -> user_collect_for plan metric = true) /\
  (dr_warnings report = [] <->
     forall metric site, site ∈ consumers_for graph metric -> is_write_consumer_symbol (mr_symbol site) = true ->
       user_collect_for plan metric = true /\ user_emit_for plan metric = true).
Proof.
  intros Hen. cbv zeta. unfold check_consumer_dependencies. rewrite Hen. cbn [negb dr_errors dr_warnings].
  rewrite !flat_map_nil, !entries_forall.
  - split; apply forall_proper; intros metric; [apply metric_errors_nil|apply metric_warnings_nil].
  - intros m. apply metric_warnings_nil. set_solver.
  - intros m. apply metric_errors_nil. set_solver.
Qed.

(** Every compiled plan is sound: one that did not resolve is the disabled plan. *)
Lemma compile_metrics_ok iter_overrides iter_collection iter_pairs m :
  iterates iter_overrides -> iterates iter_collection -> plan_ok (cm_plan (compile_metrics iter_overrides iter_collection iter_pairs m)).
Proof.
  intros Ho Hc. destruct m as [m|]; [|apply plan_disabled_ok]. unfold compile_metrics.
  destruct (resolve_metrics_plan iter_overrides iter_collection (Some m)) as [r|es] eqn:E; [|apply plan_disabled_ok].
  apply resolve_metrics_plan_spec in E as (_ & Hok & _); [|done|done]. by destruct (pl_enabled (res_plan r)).
Qed.
