(* ===== verification/Metrics.v ===== *)
(** * Metrics: the series that count what happens

    The process-wide store of series (conduit-metrics/src/store.rs), the registry that a plan builds
    from it with its operations (builtin.rs, labels.rs), the counters of scripts (user.rs), the hub that
    swaps registries on a reload (lib.rs) and what an export shows (export.rs). The prometheus
    crate is the class [Prometheus]: vectors of samples with label names, as it documents them. A
    reading of the clock or of /proc is an argument. *)

From stdpp Require Import base gmap list strings sorting.
From Stdlib Require Import ZArith Lia Ascii.
From S2P Require Import Prelude Text Floats Effects Selectors Config Messages MetricsPlan.

#[local] Open Scope string_scope.
#[local] Open Scope list_scope.
#[local] Open Scope Z_scope.

(** ** The prometheus crate *)

Inductive Kind := KCounter | KHistogram | KGauge.
#[global] Instance Kind_eq : EqDecision Kind. Proof. solve_decision. Defined.

(** A label name as the crate accepts it. *)
Definition label_start (c : ascii) : bool := in_range 65 90 c || in_range 97 122 c || Ascii.eqb c "_".
Fixpoint label_rest (s : string) : bool :=
  match s with EmptyString => true | String c s => (label_start c || is_digit c) && label_rest s end.
Definition label_name_ok (s : string) : bool :=
  match s with EmptyString => false | String c s' => label_start c && label_rest s' && negb (String.eqb s "le") end.

(** A [Vec] has the names of its labels, and for a tuple of label values a sample: the value of a counter or the number
    of observations of a histogram ([vec_count]), the value of a gauge or of a floating-point counter. [None] is an error or a
    panic. *)
Class Prometheus := {
  Vec : Type;
  vec_new : Kind -> list string -> option Vec;
  vec_names : Vec -> list string;
  vec_count : Vec -> list string -> Z;
  vec_gauge : Vec -> list string -> option f64;
  vec_inc_by : Vec -> list string -> Z -> option Vec;
  vec_observe : Vec -> list string -> f64 -> option Vec;
  vec_set : Vec -> list string -> f64 -> option Vec;
  vec_add : Vec -> list string -> f64 -> option Vec;
  vec_reset : Vec -> Vec }.

Definition add_at (f : list string -> Z) (vals : list string) (n : Z) (vals' : list string) : Z :=
  if decide (vals' = vals) then wrap 64 (f vals' + n) else f vals'.

Class PrometheusLaws `{Prometheus} : Prop := {
  new_law k labels : NoDup labels -> Forall (fun l => label_name_ok l = true) labels ->
    exists v, vec_new k labels = Some v /\ vec_names v = labels /\ (forall vals, vec_count v vals = 0) /\ (forall vals, vec_gauge v vals = None);
  inc_law v vals n : length vals = length (vec_names v) ->
    exists v', vec_inc_by v vals n = Some v' /\ vec_names v' = vec_names v /\ (forall vals', vec_count v' vals' = add_at (vec_count v) vals n vals');
  observe_law v vals x : length vals = length (vec_names v) ->
    exists v', vec_observe v vals x = Some v' /\ vec_names v' = vec_names v /\ (forall vals', vec_count v' vals' = add_at (vec_count v) vals 1 vals');
  set_law v vals x : length vals = length (vec_names v) ->
    exists v', vec_set v vals x = Some v' /\ vec_names v' = vec_names v /\ (forall vals', vec_count v' vals' = vec_count v vals') /\
      (forall vals', vec_gauge v' vals' = if decide (vals' = vals) then Some x else vec_gauge v vals');
  add_law v vals x : length vals = length (vec_names v) ->
    exists v', vec_add v vals x = Some v' /\ vec_names v' = vec_names v /\ (forall vals', vec_count v' vals' = vec_count v vals');
  reset_law v : vec_names (vec_reset v) = vec_names v /\ (forall vals, vec_gauge (vec_reset v) vals = None) }.

(** ** Label values *)

Definition ip_family_label (addr : SocketAddr) : string := match addr with SockV4 _ _ => "v4" | SockV6 _ _ _ _ => "v6" end.

(** The name of a number in a table. *)
Definition code_label (table : list (Z * string)) (n : Z) : option string := snd <$> List.find (fun e => e.1 =? n) table.

Definition qtype_label (qtype : Z) : string :=
  default ("TYPE" ++ dec qtype)%string
    (code_label [(1, "A"); (28, "AAAA"); (15, "MX"); (16, "TXT"); (2, "NS"); (5, "CNAME"); (6, "SOA"); (12, "PTR"); (33, "SRV"); (255, "ANY")] qtype).
Definition qclass_label (qclass : Z) : string := default ("CLASS" ++ dec qclass)%string (code_label [(1, "IN"); (3, "CH"); (4, "HS")] qclass).

Definition rcode_class_label (rcode : option Z) : string :=
  default "OTHER" (let! r := rcode in code_label [(0, "NOERROR"); (3, "NXDOMAIN"); (2, "SERVFAIL"); (5, "REFUSED")] r).
Definition rcode_label (rcode : option Z) : string :=
  default "OTHER" (let! r := rcode in code_label
    [(0, "NOERROR"); (1, "FORMERR"); (2, "SERVFAIL"); (3, "NXDOMAIN"); (4, "NOTIMP"); (5, "REFUSED"); (6, "YXDOMAIN"); (7, "YXRRSET"); (8, "NXRRSET"); (9, "NOTAUTH");
     (10, "NOTZONE"); (16, "BADSIG"); (17, "BADKEY"); (18, "BADTIME"); (19, "BADMODE"); (20, "BADNAME"); (21, "BADALG"); (22, "BADTRUNC"); (23, "BADCOOKIE")] r).

(** ** The store *)

Record SeriesIdentity := { si_name : string; si_labels : list string }.
#[global] Instance SeriesIdentity_eq : EqDecision SeriesIdentity. Proof. solve_decision. Defined.
#[global] Instance SeriesIdentity_countable : Countable SeriesIdentity.
Proof. apply (inj_countable' (fun i => (si_name i, si_labels i)) (fun p => {| si_name := p.1; si_labels := p.2 |})). by intros []. Defined.

Definition str_le (a b : string) : Prop := String.leb a b = true.
#[global] Instance str_le_dec : RelDecision str_le. Proof. intros a b. unfold str_le. apply _. Defined.
Definition series_identity (name : string) (labels : list string) : SeriesIdentity := {| si_name := name; si_labels := merge_sort str_le labels |}.

Section Metrics.
Context `{Prometheus}.

(** Handles are references into a heap of vectors; those that live as long as the process are in the store. *)
Record World := MkWorld { wd_store : gmap SeriesIdentity (Kind * positive); wd_heap : gmap positive Vec; wd_next : positive }.
Definition empty_world : World := MkWorld ∅ ∅ 1.

Inductive Panic := PanicMetric.
Abbreviation MetricEff A := (Eff World Panic A).

Definition alloc (v : option Vec) : MetricEff positive := fun w =>
  match v with
  | Some v => (Ok (wd_next w), MkWorld (wd_store w) (<[wd_next w := v]> (wd_heap w)) (Pos.succ (wd_next w)))
  | None => (Err PanicMetric, w)
  end.

(** [get_or_create_counter], [get_or_create_histogram] and [get_or_create_gauge]. *)
Definition get_or_create (k : Kind) (name : string) (labels : list string) : MetricEff positive := fun w =>
  let identity := series_identity name labels in
  let create := fun w =>
    match alloc (vec_new k labels) w with
    | (Ok ref, w) => (Ok ref, MkWorld (<[identity := (k, ref)]> (wd_store w)) (wd_heap w) (wd_next w))
    | (Err e, w) => (Err e, w)
    end in
  match wd_store w !! identity with
  | Some (k', ref) => if decide (k' = k) then (Ok ref, w) else create w
  | None => create w
  end.

(** A call on the vector behind a handle. *)
Definition on_vec (ref : positive) (f : Vec -> option Vec) : MetricEff unit := fun w =>
  match (let! v := wd_heap w !! ref in f v) with
  | Some v => (Ok tt, MkWorld (wd_store w) (<[ref := v]> (wd_heap w)) (wd_next w))
  | None => (Err PanicMetric, w)
  end.

(** ** The registry of a plan *)

Record FamilyLabelSchemas := {
  sc_volume : list string; sc_responses : list string; sc_responses_rcode : ResponsesRcodeBucketing; sc_timing : list string; sc_forward_failures : list string;
  sc_acl : list string }.
Definition schemas_from_plan (plan : CompiledMetricsPlan) : FamilyLabelSchemas :=
  {| sc_volume := dimensions_for plan "volume"; sc_responses := dimensions_for plan "responses"; sc_responses_rcode := pl_responses_rcode plan;
     sc_timing := dimensions_for plan "timing"; sc_forward_failures := dimensions_for plan "forward_failures"; sc_acl := dimensions_for plan "acl" |}.
Definition volume_has_ip_family (sc : FamilyLabelSchemas) : bool := contains (sc_volume sc) "ip_family".

(** The calls of [get_counter], [get_histogram] and [get_gauge] in [new_internal], in their order, with the conditions they are under. *)
Definition family := (string * Kind * list string)%type.
Definition volume_families (sc : FamilyLabelSchemas) (effective is_full : bool) : list family :=
  [("conduit_queries_total", KCounter, sc_volume sc)] ++
  (if effective then
     [("conduit_responses_total", KCounter, sc_responses sc);
      ("conduit_responses_truncated_total", KCounter,
        if volume_has_ip_family sc then ["listener"; "protocol"; "ip_family"; "answer_source"] else ["listener"; "protocol"; "answer_source"]);
      ("conduit_queries_dropped_total", KCounter,
        if volume_has_ip_family sc then ["listener"; "protocol"; "reason"; "ip_family"] else ["listener"; "protocol"; "reason"]);
      ("conduit_acl_decisions_total", KCounter, sc_acl sc)]
   else []) ++
  (if effective && is_full then [("conduit_response_duration_seconds", KHistogram, ["answer_source"; "listener"; "protocol"])] else []) ++
  (if effective then
     [("conduit_lookup_provider_outcomes_total", KCounter, ["profile"; "provider"; "outcome"]); ("conduit_cache_lookups_total", KCounter, ["cache"; "profile"; "result"])]
   else []).

Definition cache_detail_families : list family :=
  [("conduit_cache_fills_total", KCounter, ["cache"; "profile"]);
   ("conduit_cache_singleflight_coalesced_total", KCounter, ["cache"; "profile"]);
   ("conduit_lookup_duration_seconds", KHistogram, ["profile"; "provider"]);
   ("conduit_cache_lookup_duration_seconds", KHistogram, ["cache"; "profile"]);
   ("conduit_cache_fill_duration_seconds", KHistogram, ["cache"; "profile"]);
   ("conduit_cache_eviction_duration_seconds", KHistogram, ["cache"; "reason"]);
   ("conduit_cache_evictions_total", KCounter, ["cache"; "reason"]);
   ("conduit_cache_entries", KGauge, ["cache"]);
   ("conduit_cache_entries_limit", KGauge, ["cache"]);
   ("conduit_cache_bytes_used", KGauge, ["cache"]);
   ("conduit_cache_bytes_limit", KGauge, ["cache"]);
   ("conduit_cache_lmdb_shards", KGauge, ["cache"]);
   ("conduit_cache_lmdb_sync", KGauge, ["cache"; "sync"]);
   ("conduit_cache_lmdb_periodic_sync_age_seconds", KGauge, ["cache"]);
   ("conduit_cache_lmdb_periodic_sync_duration_seconds", KHistogram, ["cache"]);
   ("conduit_cache_lmdb_periodic_sync_failures_total", KCounter, ["cache"]);
   ("conduit_cache_lmdb_errors_total", KCounter, ["cache"; "reason"])].

Definition pipeline_families (sc : FamilyLabelSchemas) (effective : bool) : list family :=
  (if effective then [("conduit_parse_rejected_total", KCounter, ["reason"])] else []) ++
  [("conduit_queries_by_pool_total", KCounter, ["pool"]);
   ("conduit_phase_duration_seconds", KHistogram, ["phase"]);
   ("conduit_forward_attempts_total", KCounter, sc_timing sc ++ ["outcome"]);
   ("conduit_forward_errors_total", KCounter, sc_forward_failures sc);
   ("conduit_forward_duration_seconds", KHistogram, sc_timing sc);
   ("conduit_retries_total", KCounter, ["pool"])] ++
  (if effective then [("conduit_script_errors_total", KCounter, ["reason"; "script"; "table"])] else []).

Definition topology_families : list family :=
  [("conduit_forward_outstanding", KGauge, ["pool"; "backend"]);
   ("conduit_pool_backends_configured", KGauge, ["pool"]);
   ("conduit_listener_info", KGauge, ["listener"; "address"; "name"; "protocol"; "ip_family"; "reuse_port"]);
   ("conduit_listener_ingress_threads", KGauge, ["listener"; "protocol"]);
   ("conduit_listener_rcvbuf_bytes", KGauge, ["listener"; "protocol"]);
   ("conduit_backend_info", KGauge, ["pool"; "backend"; "address"; "name"]);
   ("conduit_backend_weight", KGauge, ["pool"; "backend"])].

Definition health_families : list family :=
  [("conduit_backend_health_observed", KGauge, ["pool"; "backend"]);
   ("conduit_backend_health_applied", KGauge, ["pool"; "backend"]);
   ("conduit_backend_health_probe_automatic", KGauge, ["pool"; "backend"]);
   ("conduit_backend_health_effective_weight", KGauge, ["pool"; "backend"]);
   ("conduit_backend_health_latency_ewma_ms", KGauge, ["pool"; "backend"]);
   ("conduit_backend_health_transitions_total", KCounter, ["pool"; "backend"]);
   ("conduit_pool_backends_active", KGauge, ["pool"]);
   ("conduit_probe_results_total", KCounter, ["pool"; "backend"; "outcome"])].

Definition builtin_families (sc : FamilyLabelSchemas) (effective is_full health : bool) : list family :=
  volume_families sc effective is_full ++ (if effective && is_full then cache_detail_families else []) ++ pipeline_families sc effective ++ topology_families ++
  (if health then health_families else []).

(** The metrics without labels, which each registry has for itself. *)
Definition builtin_singles (effective is_full process : bool) : list (string * Kind) :=
  [("conduit_build_info", KGauge); ("conduit_start_time_seconds", KGauge); ("conduit_uptime_seconds", KGauge); ("conduit_config_generation", KGauge)] ++
  (if effective then [("conduit_slot_pool_exhausted_total", KCounter)] else []) ++
  (if is_full then [("conduit_slots_in_use", KGauge); ("conduit_slots_capacity", KGauge)] else []) ++
  (if effective && process then
     [("conduit_process_resident_bytes", KGauge); ("conduit_process_open_fds", KGauge); ("conduit_process_max_fds", KGauge); ("conduit_process_threads", KGauge);
      ("conduit_process_cpu_seconds_total", KGauge)]
   else []).

(** The fields that hold a metric are a map by the name of its family. *)
Record BuiltinRegistry := {
  br_enabled : bool; br_profile : BuiltinProfile; br_health_enabled : bool; br_collect_volume : bool; br_collect_failures : bool; br_collect_timing : bool;
  br_schemas : FamilyLabelSchemas; br_fields : gmap string positive }.

Fixpoint build_vecs (fs : list family) (acc : gmap string positive) : MetricEff (gmap string positive) :=
  match fs with
  | [] => ret acc
  | (name, k, labels) :: fs => let* ref := get_or_create k name labels in build_vecs fs (<[name := ref]> acc)
  end.
Fixpoint build_singles (fs : list (string * Kind)) (acc : gmap string positive) : MetricEff (gmap string positive) :=
  match fs with
  | [] => ret acc
  | (name, k) :: fs => let* ref := alloc (vec_new k []) in build_singles fs (<[name := ref]> acc)
  end.

(** A field that is an [Option] and absent, or a call on what it holds. *)
Definition on_field (r : BuiltinRegistry) (name : string) (f : Vec -> option Vec) : MetricEff unit :=
  match br_fields r !! name with Some ref => on_vec ref f | None => ret tt end.
Definition set_field (r : BuiltinRegistry) (name : string) (vals : list string) (x : f64) : MetricEff unit := on_field r name (fun v => vec_set v vals x).

(** [new_internal] with a store; [start_unix] and [uptime] are the readings of the clocks in seconds. *)
Definition new_internal (enabled : bool) (profile : BuiltinProfile) (health volume failures timing process : bool) (sc : FamilyLabelSchemas) (start_unix uptime : f64)
    : MetricEff BuiltinRegistry :=
  let effective := enabled && negb (bool_decide (profile = ProfileOff)) in
  let is_full := bool_decide (profile = ProfileFull) in
  let* fields := build_vecs (builtin_families sc effective is_full health) ∅ in
  let* fields := build_singles (builtin_singles effective is_full process) fields in
  let r := {| br_enabled := effective; br_profile := profile; br_health_enabled := effective && health; br_collect_volume := volume; br_collect_failures := failures;
              br_collect_timing := timing; br_schemas := sc; br_fields := fields |} in
  let* _u := set_field r "conduit_build_info" [] (f64_of_Z 1) in
  let* _u := set_field r "conduit_start_time_seconds" [] start_unix in
  let* _u := set_field r "conduit_uptime_seconds" [] uptime in
  ret r.

Definition new_from_plan_with_store (plan : CompiledMetricsPlan) (start_unix uptime : f64) : MetricEff BuiltinRegistry :=
  let profile := if negb (pl_enabled plan) then ProfileOff else if bool_decide (pl_granularity_default plan = Fine) then ProfileFull else ProfileMinimal in
  new_internal (pl_enabled plan) profile (collect_for plan CatHealth) (collect_for plan CatVolume) (collect_for plan CatFailures) (collect_for plan CatTiming)
    (collect_for plan CatProcess) (schemas_from_plan plan) start_unix uptime.

(** ** Recording *)

Definition inc_field (r : BuiltinRegistry) (name : string) (vals : list string) (n : Z) : MetricEff unit := on_field r name (fun v => vec_inc_by v vals n).
Definition observe_field (r : BuiltinRegistry) (name : string) (vals : list string) (x : f64) : MetricEff unit := on_field r name (fun v => vec_observe v vals x).
Definition guarded (b : bool) (m : MetricEff unit) : MetricEff unit := if b then m else ret tt.
Definition collects_volume (r : BuiltinRegistry) : bool := br_enabled r && br_collect_volume r.
Definition collects_failures (r : BuiltinRegistry) : bool := br_enabled r && br_collect_failures r.
Definition collects_timing (r : BuiltinRegistry) : bool := br_enabled r && br_collect_timing r.
Definition collects_full (r : BuiltinRegistry) : bool := br_enabled r && bool_decide (br_profile r = ProfileFull).

(** The value of a dimension: a [match] on its name. *)
Fixpoint dim_value (arms : list (string * string)) (dim : string) : string :=
  match arms with [] => "" | (name, value) :: arms => if String.eqb dim name then value else dim_value arms dim end.

Definition record_query (r : BuiltinRegistry) (listener protocol : string) (qtype qclass : option Z) (addr : SocketAddr) : MetricEff unit :=
  guarded (collects_volume r) (inc_field r "conduit_queries_total"
    (dim_value [("listener", listener); ("protocol", protocol); ("qtype", default "UNKNOWN" (qtype_label <$> qtype)); ("qclass", default "UNKNOWN" (qclass_label <$> qclass));
                ("ip_family", ip_family_label addr)] <$> sc_volume (br_schemas r)) 1).

Definition record_parse_rejected (r : BuiltinRegistry) (reason : string) : MetricEff unit :=
  guarded (collects_failures r) (inc_field r "conduit_parse_rejected_total" [reason] 1).

Definition record_query_dropped (r : BuiltinRegistry) (listener protocol reason : string) (addr : SocketAddr) : MetricEff unit :=
  guarded (collects_volume r) (inc_field r "conduit_queries_dropped_total"
    (if volume_has_ip_family (br_schemas r) then [listener; protocol; reason; ip_family_label addr] else [listener; protocol; reason]) 1).

Definition record_acl_decision (r : BuiltinRegistry) (tier action listener : string) (ip : IpAddr) : MetricEff unit :=
  guarded (collects_volume r) (inc_field r "conduit_acl_decisions_total"
    (dim_value [("tier", tier); ("action", action); ("listener", listener); ("ip_family", match ip with IpV6 _ => "v6" | IpV4 _ => "v4" end)] <$> sc_acl (br_schemas r)) 1).

Definition record_query_by_pool (r : BuiltinRegistry) (pool : string) : MetricEff unit :=
  guarded (collects_volume r) (inc_field r "conduit_queries_by_pool_total" [pool] 1).

Definition rcode_value (sc : FamilyLabelSchemas) (rcode : option Z) : string :=
  match sc_responses_rcode sc with RcodeCoarse => rcode_class_label rcode | RcodeIana => rcode_label rcode end.
Definition record_response (r : BuiltinRegistry) (listener protocol : string) (rcode : option Z) (addr : SocketAddr) (answer_source : option string) : MetricEff unit :=
  guarded (collects_volume r) (inc_field r "conduit_responses_total"
    (dim_value [("listener", listener); ("protocol", protocol); ("rcode", rcode_value (br_schemas r) rcode); ("ip_family", ip_family_label addr);
                ("answer_source", default "" answer_source)] <$> sc_responses (br_schemas r)) 1).

Definition record_response_truncated (r : BuiltinRegistry) (listener protocol : string) (addr : SocketAddr) (answer_source : option string) : MetricEff unit :=
  guarded (collects_volume r) (inc_field r "conduit_responses_truncated_total"
    (if volume_has_ip_family (br_schemas r) then [listener; protocol; ip_family_label addr; default "" answer_source]
     else [listener; protocol; default "" answer_source]) 1).

Definition observe_response_duration (r : BuiltinRegistry) (answer_source : option string) (listener protocol : string) (secs : f64) : MetricEff unit :=
  guarded (collects_full r) (observe_field r "conduit_response_duration_seconds" [default "" answer_source; listener; protocol] secs).

Definition record_lookup_provider_outcome (r : BuiltinRegistry) (profile provider outcome : string) : MetricEff unit :=
  guarded (br_enabled r) (inc_field r "conduit_lookup_provider_outcomes_total" [profile; provider; outcome] 1).
Definition record_cache_lookup (r : BuiltinRegistry) (cache profile result : string) : MetricEff unit :=
  guarded (br_enabled r) (inc_field r "conduit_cache_lookups_total" [cache; profile; result] 1).
Definition record_cache_fill (r : BuiltinRegistry) (cache profile : string) : MetricEff unit :=
  guarded (collects_full r) (inc_field r "conduit_cache_fills_total" [cache; profile] 1).
Definition record_cache_singleflight_coalesced (r : BuiltinRegistry) (cache profile : string) : MetricEff unit :=
  guarded (collects_full r) (inc_field r "conduit_cache_singleflight_coalesced_total" [cache; profile] 1).
Definition observe_lookup_duration (r : BuiltinRegistry) (profile provider : string) (secs : f64) : MetricEff unit :=
  guarded (collects_full r) (observe_field r "conduit_lookup_duration_seconds" [profile; provider] secs).
Definition observe_cache_lookup_duration (r : BuiltinRegistry) (cache profile : string) (secs : f64) : MetricEff unit :=
  guarded (collects_full r) (observe_field r "conduit_cache_lookup_duration_seconds" [cache; profile] secs).
Definition observe_cache_fill_duration (r : BuiltinRegistry) (cache profile : string) (secs : f64) : MetricEff unit :=
  guarded (collects_full r) (observe_field r "conduit_cache_fill_duration_seconds" [cache; profile] secs).
Definition observe_cache_eviction_duration (r : BuiltinRegistry) (cache reason : string) (secs : f64) : MetricEff unit :=
  guarded (collects_full r) (observe_field r "conduit_cache_eviction_duration_seconds" [cache; reason] secs).
Definition record_cache_evictions (r : BuiltinRegistry) (cache reason : string) (count : Z) : MetricEff unit :=
  guarded (negb (count =? 0) && collects_full r) (inc_field r "conduit_cache_evictions_total" [cache; reason] count).
Definition record_cache_lmdb_error (r : BuiltinRegistry) (cache reason : string) : MetricEff unit :=
  guarded (collects_full r) (inc_field r "conduit_cache_lmdb_errors_total" [cache; reason] 1).
Definition observe_phase (r : BuiltinRegistry) (phase : string) (secs : f64) : MetricEff unit :=
  guarded (collects_timing r) (observe_field r "conduit_phase_duration_seconds" [phase] secs).

Definition timing_values (r : BuiltinRegistry) (pool backend : string) : list string := dim_value [("pool", pool); ("backend", backend)] <$> sc_timing (br_schemas r).
Definition record_forward_attempt (r : BuiltinRegistry) (pool backend outcome : string) : MetricEff unit :=
  guarded (collects_timing r) (inc_field r "conduit_forward_attempts_total" (timing_values r pool backend ++ [outcome]) 1).
Definition record_forward_error (r : BuiltinRegistry) (pool backend reason : string) : MetricEff unit :=
  guarded (collects_failures r) (inc_field r "conduit_forward_errors_total"
    (dim_value [("pool", pool); ("backend", backend); ("reason", reason)] <$> sc_forward_failures (br_schemas r)) 1).
Definition registry_record_probe_result (r : BuiltinRegistry) (pool backend outcome : string) : MetricEff unit :=
  guarded (br_enabled r && br_health_enabled r) (inc_field r "conduit_probe_results_total" [pool; backend; outcome] 1).
Definition record_forward_duration (r : BuiltinRegistry) (pool backend : string) (secs : f64) : MetricEff unit :=
  guarded (collects_timing r) (observe_field r "conduit_forward_duration_seconds" (timing_values r pool backend) secs).
Definition record_retry (r : BuiltinRegistry) (pool : string) : MetricEff unit :=
  guarded (collects_failures r) (inc_field r "conduit_retries_total" [pool] 1).
Definition record_script_error (r : BuiltinRegistry) (reason script table : string) : MetricEff unit :=
  guarded (collects_failures r) (inc_field r "conduit_script_errors_total" [reason; script; table] 1).
Definition observe_periodic_sync_duration (r : BuiltinRegistry) (cache : string) (secs : f64) : MetricEff unit :=
  observe_field r "conduit_cache_lmdb_periodic_sync_duration_seconds" [cache] secs.

(** Everything the dataplane records. *)
Inductive Recorded :=
  | Query (listener protocol : string) (qtype qclass : option Z) (addr : SocketAddr)
  | ParseRejected (reason : string)
  | QueryDropped (listener protocol reason : string) (addr : SocketAddr)
  | AclDecision (tier action listener : string) (ip : IpAddr)
  | QueryByPool (pool : string)
  | Response (listener protocol : string) (rcode : option Z) (addr : SocketAddr) (answer_source : option string)
  | ResponseTruncated (listener protocol : string) (addr : SocketAddr) (answer_source : option string)
  | ResponseDuration (answer_source : option string) (listener protocol : string) (secs : f64)
  | LookupOutcome (profile provider outcome : string)
  | CacheLookup (cache profile result : string)
  | CacheFill (cache profile : string)
  | Coalesced (cache profile : string)
  | LookupDuration (profile provider : string) (secs : f64)
  | CacheLookupDuration (cache profile : string) (secs : f64)
  | CacheFillDuration (cache profile : string) (secs : f64)
  | EvictionDuration (cache reason : string) (secs : f64)
  | Evictions (cache reason : string) (count : Z)
  | LmdbError (cache reason : string)
  | PhaseTime (phase : string) (secs : f64)
  | ForwardAttempt (pool backend outcome : string)
  | ForwardFailure (pool backend reason : string)
  | ProbeResult (pool backend outcome : string)
  | ForwardDuration (pool backend : string) (secs : f64)
  | Retry (pool : string)
  | ScriptError (reason script table : string)
  | SyncDuration (cache : string) (secs : f64).

Definition record (r : BuiltinRegistry) (e : Recorded) : MetricEff unit :=
  match e with
  | Query l p t c a => record_query r l p t c a
  | ParseRejected x => record_parse_rejected r x
  | QueryDropped l p x a => record_query_dropped r l p x a
  | AclDecision t a l ip => record_acl_decision r t a l ip
  | QueryByPool p => record_query_by_pool r p
  | Response l p c a s => record_response r l p c a s
  | ResponseTruncated l p a s => record_response_truncated r l p a s
  | ResponseDuration s l p x => observe_response_duration r s l p x
  | LookupOutcome f p o => record_lookup_provider_outcome r f p o
  | CacheLookup c p o => record_cache_lookup r c p o
  | CacheFill c p => record_cache_fill r c p
  | Coalesced c p => record_cache_singleflight_coalesced r c p
  | LookupDuration f p x => observe_lookup_duration r f p x
  | CacheLookupDuration c p x => observe_cache_lookup_duration r c p x
  | CacheFillDuration c p x => observe_cache_fill_duration r c p x
  | EvictionDuration c o x => observe_cache_eviction_duration r c o x
  | Evictions c o n => record_cache_evictions r c o n
  | LmdbError c o => record_cache_lmdb_error r c o
  | PhaseTime p x => observe_phase r p x
  | ForwardAttempt p b o => record_forward_attempt r p b o
  | ForwardFailure p b o => record_forward_error r p b o
  | ProbeResult p b o => registry_record_probe_result r p b o
  | ForwardDuration p b x => record_forward_duration r p b x
  | Retry p => record_retry r p
  | ScriptError o s t => record_script_error r o s t
  | SyncDuration c x => observe_periodic_sync_duration r c x
  end.

(** ** Scrapes *)

Record HealthScrapeBackend := {
  hs_pool : string; hs_backend : string; hs_observed : f64; hs_applied : f64; hs_probe_automatic : f64; hs_effective_weight : f64; hs_latency_ewma_ms : option f64;
  hs_transitions_total : Z }.
Record ListenerIdentity := {
  ld_label : string; ld_address : string; ld_name : string; ld_protocol : string; ld_ip_family : string; ld_reuse_port : bool; ld_threads : Z; ld_rcvbuf : Z }.
Record BackendIdentity := { bd_pool : string; bd_label : string; bd_address : string; bd_name : string; bd_weight : Z }.
Record CacheCapacitySample := {
  cc_cache : string; cc_entries : Z; cc_entries_limit : Z; cc_bytes_used : Z; cc_bytes_limit : Z; cc_lmdb_shards : Z; cc_lmdb_sync : option string;
  cc_lmdb_sync_age_secs : option f64; cc_lmdb_sync_failures : Z }.
Record ScrapeGaugeSnapshot := {
  sg_config_generation : Z; sg_pool_backend_counts : list (string * Z); sg_forward_outstanding : list (string * string * Z); sg_slots_in_use : Z; sg_slots_capacity : Z;
  sg_slot_pool_exhausted_total : Z; sg_listeners : list ListenerIdentity; sg_backends : list BackendIdentity; sg_health_backends : list HealthScrapeBackend;
  sg_pool_backends_active : list (string * Z); sg_cache_entry_counts : list (string * Z); sg_cache_capacity : list CacheCapacitySample }.

(** The totals a registry has already added to its counters. *)
Record Synced := MkSynced { sy_failures : gmap string Z; sy_transitions : gmap (string * string) Z; sy_exhaustion : Z; sy_cpu_micros : Z }.
Definition synced_new : Synced := MkSynced ∅ ∅ 0 0.

(** The readings of a scrape: the uptime and what /proc says. *)
Record Readings := { rd_uptime : f64; rd_resident_bytes : option Z; rd_open_fds : option Z; rd_max_fds : option Z; rd_threads : option Z; rd_cpu_seconds : option f64 }.

Definition gauge_row := (list string * f64)%type.
Definition gauge_rows := (string * list gauge_row)%type.

Definition outstanding_rows (s : ScrapeGaugeSnapshot) : list gauge_row := (fun x => ([x.1.1; x.1.2], f64_of_Z x.2)) <$> sg_forward_outstanding s.
Definition count_rows (l : list (string * Z)) : list gauge_row := (fun x => ([x.1], f64_of_Z x.2)) <$> l.
Definition listener_rows (s : ScrapeGaugeSnapshot) : list gauge_rows :=
  [("conduit_listener_info", (fun l => ([ld_label l; ld_address l; ld_name l; ld_protocol l; ld_ip_family l; if ld_reuse_port l then "true" else "false"], f64_of_Z 1))
      <$> sg_listeners s);
   ("conduit_listener_ingress_threads", (fun l => ([ld_label l; ld_protocol l], f64_of_Z (ld_threads l))) <$> sg_listeners s);
   ("conduit_listener_rcvbuf_bytes", (fun l => ([ld_label l; ld_protocol l], f64_of_Z (ld_rcvbuf l))) <$> sg_listeners s)].
Definition backend_rows (s : ScrapeGaugeSnapshot) : list gauge_rows :=
  [("conduit_backend_info", (fun b => ([bd_pool b; bd_label b; bd_address b; bd_name b], f64_of_Z 1)) <$> sg_backends s);
   ("conduit_backend_weight", (fun b => ([bd_pool b; bd_label b], f64_of_Z (bd_weight b))) <$> sg_backends s)].
Definition topology_rows (s : ScrapeGaugeSnapshot) : list gauge_rows :=
  [("conduit_forward_outstanding", outstanding_rows s); ("conduit_pool_backends_configured", count_rows (sg_pool_backend_counts s))] ++ listener_rows s ++ backend_rows s.

Definition health_labels (h : HealthScrapeBackend) : list string := [hs_pool h; hs_backend h].
Definition health_rows (s : ScrapeGaugeSnapshot) : list gauge_rows :=
  [("conduit_backend_health_observed", (fun h => (health_labels h, hs_observed h)) <$> sg_health_backends s);
   ("conduit_backend_health_applied", (fun h => (health_labels h, hs_applied h)) <$> sg_health_backends s);
   ("conduit_backend_health_probe_automatic", (fun h => (health_labels h, hs_probe_automatic h)) <$> sg_health_backends s);
   ("conduit_backend_health_effective_weight", (fun h => (health_labels h, hs_effective_weight h)) <$> sg_health_backends s);
   ("conduit_backend_health_latency_ewma_ms", omap (fun h => (fun ms => (health_labels h, ms)) <$> hs_latency_ewma_ms h) (sg_health_backends s))].

Definition sample_rows (f : CacheCapacitySample -> Z) (s : ScrapeGaugeSnapshot) : list gauge_row := (fun c => ([cc_cache c], f64_of_Z (f c))) <$> sg_cache_capacity s.
Definition cache_rows (s : ScrapeGaugeSnapshot) : list gauge_rows :=
  [("conduit_cache_entries", count_rows (sg_cache_entry_counts s));
   ("conduit_cache_entries_limit", sample_rows cc_entries_limit s);
   ("conduit_cache_bytes_used", sample_rows cc_bytes_used s);
   ("conduit_cache_bytes_limit", sample_rows cc_bytes_limit s);
   ("conduit_cache_lmdb_shards", sample_rows cc_lmdb_shards s);
   ("conduit_cache_lmdb_sync", omap (fun c => (fun sync => ([cc_cache c; sync], f64_of_Z 1)) <$> cc_lmdb_sync c) (sg_cache_capacity s));
   ("conduit_cache_lmdb_periodic_sync_age_seconds", omap (fun c => (fun age => ([cc_cache c], age)) <$> cc_lmdb_sync_age_secs c) (sg_cache_capacity s))].

Fixpoint set_rows (r : BuiltinRegistry) (name : string) (rows : list gauge_row) : MetricEff unit :=
  match rows with
  | [] => ret tt
  | (vals, x) :: rows => let* _u := set_field r name vals x in set_rows r name rows
  end.
(** A gauge is reset and gets its rows. *)
Definition refresh_gauge (r : BuiltinRegistry) (g : gauge_rows) : MetricEff unit :=
  let* _u := on_field r g.1 (fun v => Some (vec_reset v)) in set_rows r g.1 g.2.
Fixpoint refresh_gauges (r : BuiltinRegistry) (gs : list gauge_rows) : MetricEff unit :=
  match gs with [] => ret tt | g :: gs => let* _u := refresh_gauge r g in refresh_gauges r gs end.

Definition sync_exhaustion_counter (r : BuiltinRegistry) (total : Z) (sy : Synced) : MetricEff Synced :=
  if is_someb (br_fields r !! "conduit_slot_pool_exhausted_total") && (sy_exhaustion sy <? total) then
    let* _u := inc_field r "conduit_slot_pool_exhausted_total" [] (total - sy_exhaustion sy) in
    ret (MkSynced (sy_failures sy) (sy_transitions sy) total (sy_cpu_micros sy))
  else ret sy.

(** The loops that add what a total has grown by since the last scrape. *)
Fixpoint sync_totals `{Countable K} (r : BuiltinRegistry) (name : string) (labels : K -> list string) (rows : list (K * Z)) (last : gmap K Z) : MetricEff (gmap K Z) :=
  match rows with
  | [] => ret last
  | (key, total) :: rows =>
      let prev := default 0 (last !! key) in
      if prev <? total then
        let* _u := inc_field r name (labels key) (total - prev) in
        sync_totals r name labels rows (<[key := total]> last)
      else sync_totals r name labels rows last
  end.
Definition retain_seen `{Countable K} (rows : list (K * Z)) (last : gmap K Z) : gmap K Z := filter (fun kv => kv.1 ∈ rows.*1) last.

Definition transition_rows (s : ScrapeGaugeSnapshot) : list (string * string * Z) :=
  (fun h => (hs_pool h, hs_backend h, hs_transitions_total h)) <$> sg_health_backends s.
Definition sync_health_transition_counters (r : BuiltinRegistry) (s : ScrapeGaugeSnapshot) (sy : Synced) : MetricEff Synced :=
  if is_someb (br_fields r !! "conduit_backend_health_transitions_total") then
    let* last := sync_totals r "conduit_backend_health_transitions_total" (fun k => [k.1; k.2]) (transition_rows s) (sy_transitions sy) in
    ret (MkSynced (sy_failures sy) (retain_seen (transition_rows s) last) (sy_exhaustion sy) (sy_cpu_micros sy))
  else ret sy.

Definition failure_rows (s : ScrapeGaugeSnapshot) : list (string * Z) :=
  omap (fun c => if bool_decide (cc_lmdb_sync c = Some "periodic") then Some (cc_cache c, cc_lmdb_sync_failures c) else None) (sg_cache_capacity s).
Definition sync_periodic_sync_failure_counters (r : BuiltinRegistry) (s : ScrapeGaugeSnapshot) (sy : Synced) : MetricEff Synced :=
  if is_someb (br_fields r !! "conduit_cache_lmdb_periodic_sync_failures_total") then
    let* last := sync_totals r "conduit_cache_lmdb_periodic_sync_failures_total" (fun k => [k]) (failure_rows s) (sy_failures sy) in
    ret (MkSynced (retain_seen (failure_rows s) last) (sy_transitions sy) (sy_exhaustion sy) (sy_cpu_micros sy))
  else ret sy.

Definition refresh_health_scrape_gauges (r : BuiltinRegistry) (s : ScrapeGaugeSnapshot) (sy : Synced) : MetricEff Synced :=
  if is_someb (br_fields r !! "conduit_backend_health_observed") then
    let* _u := refresh_gauges r (health_rows s) in
    let* sy := sync_health_transition_counters r s sy in
    let* _u := refresh_gauge r ("conduit_pool_backends_active", count_rows (sg_pool_backends_active s)) in
    ret sy
  else ret sy.

Definition refresh_cpu (r : BuiltinRegistry) (secs : option f64) (sy : Synced) : MetricEff Synced :=
  match br_fields r !! "conduit_process_cpu_seconds_total", secs with
  | Some _, Some secs =>
      let micros := round_as 0 u64_max (f64_mul secs (f64_of_Z 1000000)) in
      if sy_cpu_micros sy <=? micros then
        let delta := f64_div (f64_of_Z (micros - sy_cpu_micros sy)) (f64_of_Z 1000000) in
        let* _u := guarded (negb (f64_le delta (f64_of_Z 0))) (on_field r "conduit_process_cpu_seconds_total" (fun v => vec_add v [] delta)) in
        ret (MkSynced (sy_failures sy) (sy_transitions sy) (sy_exhaustion sy) micros)
      else ret sy
  | _, _ => ret sy
  end.

Definition refresh_scrape_gauges (r : BuiltinRegistry) (s : ScrapeGaugeSnapshot) (rd : Readings) (sy : Synced) : MetricEff Synced :=
  let* _u := set_field r "conduit_config_generation" [] (f64_of_Z (sg_config_generation s)) in
  let* _u := set_field r "conduit_uptime_seconds" [] (rd_uptime rd) in
  let* _u := refresh_gauges r (topology_rows s) in
  let* _u := set_field r "conduit_slots_in_use" [] (f64_of_Z (sg_slots_in_use s)) in
  let* _u := set_field r "conduit_slots_capacity" [] (f64_of_Z (sg_slots_capacity s)) in
  let* sy := sync_exhaustion_counter r (sg_slot_pool_exhausted_total s) sy in
  let* sy := refresh_health_scrape_gauges r s sy in
  let* _u := refresh_gauges r (cache_rows s) in
  let* sy := sync_periodic_sync_failure_counters r s sy in
  let* _u := set_field r "conduit_process_resident_bytes" [] (f64_of_Z (default 0 (rd_resident_bytes rd))) in
  let* _u := set_field r "conduit_process_open_fds" [] (f64_of_Z (default 0 (rd_open_fds rd))) in
  let* _u := set_field r "conduit_process_max_fds" [] (f64_of_Z (default 0 (rd_max_fds rd))) in
  let* _u := set_field r "conduit_process_threads" [] (f64_of_Z (default 0 (rd_threads rd))) in
  refresh_cpu r (rd_cpu_seconds rd) sy.

(** ** The hub *)

(** A counter of a script is under the name and labels it was given; the registry of the crate accepts each metric name once. *)
Record UserMetricDelta := { ud_name : string; ud_labels : gmap string string; ud_delta : Z }.
Record UserRegistry := { ur_enabled : bool; ur_registered : gset string; ur_counters : gmap string Z; ur_poisoned : bool; ur_helps : gmap string string }.
Definition user_new (enabled : bool) (helps : gmap string string) : UserRegistry :=
  {| ur_enabled := enabled; ur_registered := ∅; ur_counters := ∅; ur_poisoned := false; ur_helps := helps |}.

Fixpoint join_labels (ls : list (string * string)) : string :=
  match ls with [] => "" | (k, v) :: ls => ("|" ++ k ++ "=" ++ v ++ join_labels ls)%string end.
Definition label_key (name : string) (labels : gmap string string) : string := (name ++ join_labels (sorted_entries labels))%string.
Definition sanitize_metric_name (name : string) : string := ("conduit_user_" ++ sanitize_user_metric_name name)%string.

(** [add_delta]; [None] with the registry left behind is a panic, which poisons the mutex if it is held. *)
Definition add_delta (d : UserMetricDelta) (u : UserRegistry) : option unit * UserRegistry :=
  if negb (ur_enabled u) || (ud_delta d =? 0) then (Some tt, u)
  else if ur_poisoned u then (None, u)
  else
    let key := label_key (ud_name d) (ud_labels d) in
    match ur_counters u !! key with
    | Some n =>
        (Some tt, {| ur_enabled := ur_enabled u; ur_registered := ur_registered u; ur_counters := <[key := wrap 64 (n + ud_delta d)]> (ur_counters u); ur_poisoned := false;
                     ur_helps := ur_helps u |})
    | None =>
        let metric_name := sanitize_metric_name (ud_name d) in
        if bool_decide (metric_name ∈ ur_registered u) then
          (None, {| ur_enabled := ur_enabled u; ur_registered := ur_registered u; ur_counters := ur_counters u; ur_poisoned := true; ur_helps := ur_helps u |})
        else
          (Some tt, {| ur_enabled := ur_enabled u; ur_registered := {[metric_name]} ∪ ur_registered u; ur_counters := <[key := wrap 64 (0 + ud_delta d)]> (ur_counters u);
                       ur_poisoned := false; ur_helps := ur_helps u |})
    end.

Record HotMetrics := { hm_builtin : BuiltinRegistry; hm_synced : Synced; hm_user : UserRegistry; hm_compiled : CompiledMetrics }.
Record MetricsHub := { hu_hot : HotMetrics; hu_generation : Z }.
Record MetricsPin := { pin_builtin : BuiltinRegistry; pin_generation : Z }.

Definition build_hot (cm : CompiledMetrics) (start_unix uptime : f64) : MetricEff HotMetrics :=
  let* r := new_from_plan_with_store (cm_plan cm) start_unix uptime in
  ret {| hm_builtin := r; hm_synced := synced_new; hm_user := user_new (cm_enabled cm) (user_helps (cm_plan cm)); hm_compiled := cm |}.
Definition hub_from_config (cm : CompiledMetrics) (start_unix uptime : f64) : MetricEff MetricsHub :=
  let* hot := build_hot cm start_unix uptime in ret {| hu_hot := hot; hu_generation := 1 |}.
Definition apply_compiled (cm : CompiledMetrics) (start_unix uptime : f64) (hub : MetricsHub) : MetricEff MetricsHub :=
  let* hot := build_hot cm start_unix uptime in ret {| hu_hot := hot; hu_generation := wrap 64 (hu_generation hub + 1) |}.
Definition acquire_pin (hub : MetricsHub) : MetricsPin := {| pin_builtin := hm_builtin (hu_hot hub); pin_generation := hu_generation hub |}.

(** [gather] of the builtin registry, with what [refresh_scrape_gauges] changes. *)
Definition builtin_gather (s : ScrapeGaugeSnapshot) (rd : Readings) (hub : MetricsHub) : MetricEff MetricsHub :=
  let hot := hu_hot hub in
  if br_enabled (hm_builtin hot) then
    let* sy := refresh_scrape_gauges (hm_builtin hot) s rd (hm_synced hot) in
    ret {| hu_hot := {| hm_builtin := hm_builtin hot; hm_synced := sy; hm_user := hm_user hot; hm_compiled := hm_compiled hot |}; hu_generation := hu_generation hub |}
  else ret hub.

(** The names of the families an export shows. *)
Definition event_sink_families : list string :=
  ["conduit_events_enqueued_query_total"; "conduit_events_enqueued_response_total"; "conduit_events_queue_dropped_total"; "conduit_events_delivered_total"].
Definition exported_families (hot : HotMetrics) (sinks : nat) : list string :=
  let plan := cm_plan (hm_compiled hot) in
  List.filter (emits_family plan)
    ((map_to_list (br_fields (hm_builtin hot))).*1 ++ elements (ur_registered (hm_user hot)) ++
     (if pl_event_export_emit plan && negb (Nat.eqb sinks 0) then event_sink_families else [])).

(** ** Histories *)

(** What happens to the metrics of a process: reloads, queries that take a pin, records through a pin however old, scrapes. *)
Inductive HubOp :=
  | OpApply (cm : CompiledMetrics) (start_unix uptime : f64)
  | OpPin
  | OpRecord (pin : nat) (e : Recorded)
  | OpScrape (s : ScrapeGaugeSnapshot) (rd : Readings).

Record History := { hy_hub : MetricsHub; hy_pins : list MetricsPin; hy_recorded : list (BuiltinRegistry * Recorded) }.

Definition hub_op (op : HubOp) (h : History) : MetricEff History :=
  match op with
  | OpApply cm a b => let* hub := apply_compiled cm a b (hy_hub h) in ret {| hy_hub := hub; hy_pins := hy_pins h; hy_recorded := hy_recorded h |}
  | OpPin => ret {| hy_hub := hy_hub h; hy_pins := hy_pins h ++ [acquire_pin (hy_hub h)]; hy_recorded := hy_recorded h |}
  | OpRecord i e =>
      match hy_pins h !! i with
      | Some pin =>
          let* _u := record (pin_builtin pin) e in
          ret {| hy_hub := hy_hub h; hy_pins := hy_pins h; hy_recorded := hy_recorded h ++ [(pin_builtin pin, e)] |}
      | None => ret h
      end
  | OpScrape s rd => let* hub := builtin_gather s rd (hy_hub h) in ret {| hy_hub := hub; hy_pins := hy_pins h; hy_recorded := hy_recorded h |}
  end.
Fixpoint hub_ops (ops : list HubOp) (h : History) : MetricEff History :=
  match ops with [] => ret h | op :: ops => let* h := hub_op op h in hub_ops ops h end.
Definition hub_run (cm : CompiledMetrics) (start_unix uptime : f64) (ops : list HubOp) : MetricEff History :=
  let* hub := hub_from_config cm start_unix uptime in hub_ops ops {| hy_hub := hub; hy_pins := []; hy_recorded := [] |}.
End Metrics.

(** ** The labels of a family *)

Definition all_families (sc : FamilyLabelSchemas) : list family := builtin_families sc true true true.
Definition find_family (sc : FamilyLabelSchemas) (name : string) : option family := List.find (fun f => String.eqb f.1.1 name) (all_families sc).
Definition family_labels (sc : FamilyLabelSchemas) (name : string) : list string := from_option snd [] (find_family sc name).

(** The schemas with every dimension: any other has the same labels or fewer, in the same order. *)
Definition full_schemas : FamilyLabelSchemas :=
  {| sc_volume := ["listener"; "protocol"; "qtype"; "qclass"; "ip_family"]; sc_responses := ["listener"; "protocol"; "rcode"; "ip_family"; "answer_source"];
     sc_responses_rcode := RcodeIana; sc_timing := ["pool"; "backend"]; sc_forward_failures := ["pool"; "backend"; "reason"];
     sc_acl := ["tier"; "action"; "listener"; "ip_family"] |}.
Definition family_kind (name : string) : option Kind := (fun f => f.1.2) <$> find_family full_schemas name.

Record schema_ok (sc : FamilyLabelSchemas) : Prop := {
  so_volume : sc_volume sc `sublist_of` sc_volume full_schemas;
  so_responses : sc_responses sc `sublist_of` sc_responses full_schemas;
  so_timing : sc_timing sc `sublist_of` sc_timing full_schemas;
  so_failures : sc_forward_failures sc `sublist_of` sc_forward_failures full_schemas;
  so_acl : sc_acl sc `sublist_of` sc_acl full_schemas }.

Lemma plan_schema_ok plan : plan_ok plan -> schema_ok (schemas_from_plan plan).
Proof. intros [_ _ _ Hd]. split; by apply Hd. Qed.

(** A family under some schemas and under the full ones. *)
Definition narrower (f g : family) : Prop := f.1 = g.1 /\ f.2 `sublist_of` g.2.

Lemma narrower_refl f : narrower f f.
Proof. by split. Qed.

Lemma narrower_list l : Forall2 narrower l l.
Proof. induction l; constructor; [apply narrower_refl|done]. Qed.

Lemma narrower_all sc : schema_ok sc -> Forall2 narrower (all_families sc) (all_families full_schemas).
Proof.
  intros [Hv Hr Ht Hf Ha]. unfold all_families, builtin_families.
  apply Forall2_app; [|apply Forall2_app; [apply narrower_list|apply Forall2_app; [|apply narrower_list]]].
  - unfold volume_families. cbn [app andb]. repeat (constructor; [split; cbn [fst snd]; [done|]|]); try done.
    all: destruct (volume_has_ip_family sc); repeat constructor.
  - unfold pipeline_families. cbn [app]. repeat (constructor; [split; cbn [fst snd]; [done|]|]); try done.
    by apply sublist_app.
Qed.

Lemma find_narrower (fs gs : list family) name :
  Forall2 narrower fs gs ->
  match List.find (fun f => String.eqb f.1.1 name) fs, List.find (fun f => String.eqb f.1.1 name) gs with
  | Some f, Some g => narrower f g
  | None, None => True
  | _, _ => False
  end.
Proof. induction 1 as [|f g fs gs [H1 H2] _ IH]; cbn [List.find]; [done|]. rewrite H1. destruct (String.eqb g.1.1 name); [by split|done]. Qed.

Lemma find_family_narrower sc name :
  schema_ok sc -> match find_family sc name, find_family full_schemas name with Some f, Some g => narrower f g | None, None => True | _, _ => False end.
Proof. intros Hsc. by apply find_narrower, narrower_all. Qed.

Lemma family_labels_sublist sc name : schema_ok sc -> family_labels sc name `sublist_of` family_labels full_schemas name.
Proof.
  intros Hn%(find_family_narrower _ name). unfold family_labels.
  destruct (find_family sc name), (find_family full_schemas name); cbn; [apply Hn|done|done|done].
Qed.

Lemma find_family_kind sc name f : schema_ok sc -> find_family sc name = Some f -> family_kind name = Some f.1.2.
Proof.
  intros Hn%(find_family_narrower _ name) Hf. unfold family_kind. rewrite Hf in Hn.
  destruct (find_family full_schemas name) as [g|]; [|done]. destruct Hn as [Hn _]. cbn. by rewrite Hn.
Qed.

Lemma family_names_NoDup sc : NoDup (all_families sc).*1.*1.
Proof. apply (bool_decide_unpack _). by vm_compute. Qed.

Lemma find_family_in sc name k labels : (name, k, labels) ∈ all_families sc -> find_family sc name = Some (name, k, labels).
Proof.
  intros Hin. unfold find_family. pose proof (family_names_NoDup sc) as Hnd. induction (all_families sc) as [|f fs IH]; [by apply not_elem_of_nil in Hin|].
  cbn [List.find fmap list_fmap] in *. apply NoDup_cons in Hnd as [Hn Hnd]. apply elem_of_cons in Hin as [<-|Hin]; cbn [fst].
  - by rewrite String.eqb_refl.
  - destruct (String.eqb_spec f.1.1 name) as [Heq|]; [|by apply IH]. destruct Hn. rewrite Heq.
    apply list_elem_of_fmap. exists (name, k). split; [done|]. apply list_elem_of_fmap. by exists (name, k, labels).
Qed.

Definition full_labels (name : string) : list string := family_labels full_schemas name.

Lemma full_labels_ok name : NoDup (full_labels name) /\ Forall (fun l => label_name_ok l = true) (full_labels name).
Proof.
  unfold full_labels, family_labels.
  assert (Forall (fun f : family => NoDup f.2 /\ Forall (fun l => label_name_ok l = true) f.2) (all_families full_schemas)) as H.
  { apply (bool_decide_unpack _). by vm_compute. }
  destruct (find_family full_schemas name) as [f|] eqn:E; cbn; [|split; constructor].
  apply List.find_some in E as [E _]. rewrite Forall_forall in H. apply H. by apply list_elem_of_In.
Qed.

(** Of the labels of a family, in its order, the sorted list determines the list. *)
Lemma sublist_perm_eq (l1 l2 l : list string) : NoDup l -> l1 `sublist_of` l -> l2 `sublist_of` l -> l1 ≡ₚ l2 -> l1 = l2.
Proof.
  intros Hnd H1. revert l2. induction H1 as [|a l1 l Hs IH|a l1 l Hs IH]; intros l2 H2 Hp.
  - by apply sublist_nil_r in H2.
  - apply NoDup_cons in Hnd as [Hn Hnd]. inversion H2 as [|? l2' ? Hs2|? l2' ? Hs2]; subst.
    + f_equal. apply IH; [done|done|]. by apply Permutation_cons_inv in Hp.
    + destruct Hn. apply (elem_of_submseteq l2); [rewrite <- Hp; by left|by apply sublist_submseteq].
  - apply NoDup_cons in Hnd as [Hn Hnd]. inversion H2 as [|? l2' ? Hs2|? l2' ? Hs2]; subst.
    + destruct Hn. apply (elem_of_submseteq l1); [rewrite Hp; by left|by apply sublist_submseteq].
    + by apply IH.
Qed.

Lemma identity_perm name l1 l2 : series_identity name l1 = series_identity name l2 -> l1 ≡ₚ l2.
Proof. intros [= H]. rewrite <- (merge_sort_Permutation str_le l1), <- (merge_sort_Permutation str_le l2). by rewrite H. Qed.

(** ** What a record means *)

(** Whether a registry counts an event, in which family, under which labels, and how much. *)
Record Effect := { ef_on : bool; ef_family : string; ef_arms : list (string * string); ef_amount : Z }.
Definition effect (r : BuiltinRegistry) (e : Recorded) : Effect :=
  let mk on family arms n := {| ef_on := on; ef_family := family; ef_arms := arms; ef_amount := n |} in
  match e with
  | Query l p t c a => mk (collects_volume r) "conduit_queries_total"
      [("listener", l); ("protocol", p); ("qtype", default "UNKNOWN" (qtype_label <$> t)); ("qclass", default "UNKNOWN" (qclass_label <$> c)); ("ip_family", ip_family_label a)] 1
  | ParseRejected x => mk (collects_failures r) "conduit_parse_rejected_total" [("reason", x)] 1
  | QueryDropped l p x a => mk (collects_volume r) "conduit_queries_dropped_total" [("listener", l); ("protocol", p); ("reason", x); ("ip_family", ip_family_label a)] 1
  | AclDecision t a l ip => mk (collects_volume r) "conduit_acl_decisions_total"
      [("tier", t); ("action", a); ("listener", l); ("ip_family", match ip with IpV6 _ => "v6" | IpV4 _ => "v4" end)] 1
  | QueryByPool p => mk (collects_volume r) "conduit_queries_by_pool_total" [("pool", p)] 1
  | Response l p c a s => mk (collects_volume r) "conduit_responses_total"
      [("listener", l); ("protocol", p); ("rcode", rcode_value (br_schemas r) c); ("ip_family", ip_family_label a); ("answer_source", default "" s)] 1
  | ResponseTruncated l p a s => mk (collects_volume r) "conduit_responses_truncated_total"
      [("listener", l); ("protocol", p); ("ip_family", ip_family_label a); ("answer_source", default "" s)] 1
  | ResponseDuration s l p _ => mk (collects_full r) "conduit_response_duration_seconds" [("answer_source", default "" s); ("listener", l); ("protocol", p)] 1
  | LookupOutcome f p o => mk (br_enabled r) "conduit_lookup_provider_outcomes_total" [("profile", f); ("provider", p); ("outcome", o)] 1
  | CacheLookup c p o => mk (br_enabled r) "conduit_cache_lookups_total" [("cache", c); ("profile", p); ("result", o)] 1
  | CacheFill c p => mk (collects_full r) "conduit_cache_fills_total" [("cache", c); ("profile", p)] 1
  | Coalesced c p => mk (collects_full r) "conduit_cache_singleflight_coalesced_total" [("cache", c); ("profile", p)] 1
  | LookupDuration f p _ => mk (collects_full r) "conduit_lookup_duration_seconds" [("profile", f); ("provider", p)] 1
  | CacheLookupDuration c p _ => mk (collects_full r) "conduit_cache_lookup_duration_seconds" [("cache", c); ("profile", p)] 1
  | CacheFillDuration c p _ => mk (collects_full r) "conduit_cache_fill_duration_seconds" [("cache", c); ("profile", p)] 1
  | EvictionDuration c o _ => mk (collects_full r) "conduit_cache_eviction_duration_seconds" [("cache", c); ("reason", o)] 1
  | Evictions c o n => mk (negb (n =? 0) && collects_full r) "conduit_cache_evictions_total" [("cache", c); ("reason", o)] n
  | LmdbError c o => mk (collects_full r) "conduit_cache_lmdb_errors_total" [("cache", c); ("reason", o)] 1
  | PhaseTime p _ => mk (collects_timing r) "conduit_phase_duration_seconds" [("phase", p)] 1
  | ForwardAttempt p b o => mk (collects_timing r) "conduit_forward_attempts_total" [("pool", p); ("backend", b); ("outcome", o)] 1
  | ForwardFailure p b o => mk (collects_failures r) "conduit_forward_errors_total" [("pool", p); ("backend", b); ("reason", o)] 1
  | ProbeResult p b o => mk (br_enabled r && br_health_enabled r) "conduit_probe_results_total" [("pool", p); ("backend", b); ("outcome", o)] 1
  | ForwardDuration p b _ => mk (collects_timing r) "conduit_forward_duration_seconds" [("pool", p); ("backend", b)] 1
  | Retry p => mk (collects_failures r) "conduit_retries_total" [("pool", p)] 1
  | ScriptError o s t => mk (collects_failures r) "conduit_script_errors_total" [("reason", o); ("script", s); ("table", t)] 1
  | SyncDuration c _ => mk true "conduit_cache_lmdb_periodic_sync_duration_seconds" [("cache", c)] 1
  end.

(** What the events recorded so far add to a series: those that its family counts and whose values agree on its labels. *)
Definition contribution (name : string) (labels : list string) (assign : string -> string) (re : BuiltinRegistry * Recorded) : Z :=
  let (r, e) := re in
  let ef := effect r e in
  if ef_on ef && is_someb (br_fields r !! ef_family ef) && String.eqb (ef_family ef) name &&
     bool_decide (series_identity name (family_labels (br_schemas r) name) = series_identity name labels) &&
     forallb (fun l => String.eqb (assign l) (dim_value (ef_arms ef) l)) labels
  then ef_amount ef else 0.
Definition tally (name : string) (labels : list string) (assign : string -> string) (recorded : list (BuiltinRegistry * Recorded)) : Z :=
  foldl (fun n re => n + contribution name labels assign re) 0 recorded.

(** The families that a scrape may change: gauges, and the counters that follow a total kept elsewhere. *)
Definition scraped_totals : list string := ["conduit_backend_health_transitions_total"; "conduit_cache_lmdb_periodic_sync_failures_total"].
Definition scraped (name : string) : Prop := family_kind name = Some KGauge \/ name ∈ scraped_totals.

(** ** Worlds *)

Section Laws.
Context `{PrometheusLaws}.
#[local] Abbreviation MetricEff A := (Eff World Panic A).

(** A series of the store has the kind of its family and its labels in the order of the family; no two share a vector. *)
Record world_ok (w : World) : Prop := {
  wo_series id k ref : wd_store w !! id = Some (k, ref) ->
    exists v, wd_heap w !! ref = Some v /\ vec_names v `sublist_of` full_labels (si_name id) /\ id = series_identity (si_name id) (vec_names v) /\
              family_kind (si_name id) = Some k;
  wo_inj id id' k k' ref : wd_store w !! id = Some (k, ref) -> wd_store w !! id' = Some (k', ref) -> id = id';
  wo_next ref v : wd_heap w !! ref = Some v -> (ref < wd_next w)%positive }.

(** What later worlds keep: series, vectors and the names of their labels. *)
Record extends (w w' : World) : Prop := {
  ex_store id x : wd_store w !! id = Some x -> wd_store w' !! id = Some x;
  ex_heap ref v : wd_heap w !! ref = Some v -> exists v', wd_heap w' !! ref = Some v' /\ vec_names v' = vec_names v;
  ex_new id k ref v : wd_store w' !! id = Some (k, ref) -> wd_heap w !! ref = Some v -> wd_store w !! id = Some (k, ref) }.

#[global] Instance extends_preorder : PreOrder extends.
Proof.
  split.
  - intros w. split; eauto.
  - intros w1 w2 w3 [S1 H1 N1] [S2 H2 N2]. split; [eauto| |].
    + intros ref v Hv. destruct (H1 ref v Hv) as (v2 & Hv2 & E2). destruct (H2 ref v2 Hv2) as (v3 & ? & E3). exists v3. by rewrite E3.
    + intros id k ref v Hid Hv. destruct (H1 ref v Hv) as (v2 & Hv2 & _). eauto.
Qed.

(** The value of a series for an assignment of values to its labels. *)
Definition series (w : World) (id : SeriesIdentity) (assign : string -> string) : Z :=
  default 0 (let! x := wd_store w !! id in let! v := wd_heap w !! x.2 in Some (vec_count v (assign <$> vec_names v))).

(** [quiet P w w']: [w'] is a later world in which only series of families in [P] may have changed. *)
Record quiet (P : string -> Prop) (w w' : World) : Prop := {
  qu_ok : world_ok w';
  qu_ext : extends w w';
  qu_series id assign : ~ P (si_name id) -> series w' id assign = series w id assign }.

Lemma quiet_refl P w : world_ok w -> quiet P w w.
Proof. by split. Qed.

Lemma quiet_trans P w1 w2 w3 : quiet P w1 w2 -> quiet P w2 w3 -> quiet P w1 w3.
Proof.
  intros [O1 E1 S1] [O2 E2 S2]. split; [done|by etransitivity|]. intros id assign Hn. by rewrite S2, S1.
Qed.

Lemma quiet_weaken (P Q : string -> Prop) w w' : (forall n, P n -> Q n) -> quiet P w w' -> quiet Q w w'.
Proof. intros HPQ [O E S]. split; [done|done|]. auto. Qed.

(** A new vector changes no series. *)
Lemma alloc_quiet w v : world_ok w -> let w' := MkWorld (wd_store w) (<[wd_next w := v]> (wd_heap w)) (Pos.succ (wd_next w)) in
  quiet (fun _ => False) w w'.
Proof.
  intros [Hs Hi Hn] w'. assert (forall ref v', wd_heap w !! ref = Some v' -> wd_heap w' !! ref = Some v') as Hh.
  { intros ref v' Hv. unfold w'. cbn. rewrite lookup_insert_ne; [done|]. intros <-. apply Hn in Hv. lia. }
  split; [split| |].
  - intros id k ref Hid. destruct (Hs id k ref Hid) as (v' & ? & ?). exists v'. split; [by apply Hh|done].
  - exact Hi.
  - intros ref v'. unfold w'. cbn. destruct (decide (ref = wd_next w)) as [->|Hne]; [lia|]. rewrite lookup_insert_ne by done. intros ?%Hn. lia.
  - split; [done| |done]. intros ref v' Hv. exists v'. split; [by apply Hh|done].
  - intros id assign _. unfold series. change (wd_store w') with (wd_store w). destruct (wd_store w !! id) as [[k ref]|] eqn:E; [|done]. cbn [snd].
    destruct (Hs id k ref E) as (v' & Hv & _). rewrite Hv. by rewrite (Hh ref v' Hv).
Qed.

(** [get_or_create] gives the vector of the series, with its labels in the order that was asked for. *)
Lemma get_or_create_spec w k name labels :
  world_ok w -> labels `sublist_of` full_labels name -> family_kind name = Some k ->
  exists ref w' v, get_or_create k name labels w = (Ok ref, w') /\ quiet (fun _ => False) w w' /\
    wd_store w' !! series_identity name labels = Some (k, ref) /\ wd_heap w' !! ref = Some v /\ vec_names v = labels.
Proof.
  intros Hw Hl Hk. unfold get_or_create. destruct (full_labels_ok name) as [Hnd Hok].
  destruct (wd_store w !! series_identity name labels) as [[k' ref]|] eqn:E.
  - destruct (wo_series w Hw _ _ _ E) as (v & Hv & Hsub & Hid & Hk'). change (si_name (series_identity name labels)) with name in Hsub, Hid, Hk'. assert (k' = k) as -> by congruence.
    rewrite decide_True by done. exists ref, w, v. split; [done|]. split; [by apply quiet_refl|]. split; [done|]. split; [done|].
    eapply sublist_perm_eq; [exact Hnd|done|done|]. symmetry. by eapply identity_perm.
  - destruct (new_law k labels) as (v & Hv & Hn & Hz & _).
    { by eapply sublist_NoDup. }
    { rewrite Forall_forall in *. intros l Hin. apply Hok. eapply elem_of_submseteq; [exact Hin|by apply sublist_submseteq]. }
    unfold alloc. rewrite Hv. eexists _, _, v. split; [done|].
    pose proof (alloc_quiet w v Hw) as Hq. cbv zeta in Hq. destruct Hq as [[Hs Hi Hx] [Es Eh En] Hq]. cbn [wd_store wd_heap wd_next] in *.
    split; [|split; [apply lookup_insert_eq|split; [apply lookup_insert_eq|done]]].
    assert (forall id k', wd_store w !! id = Some (k', wd_next w) -> False) as Hfresh.
    { intros id k' Hid. destruct (wo_series w Hw _ _ _ Hid) as (v' & Hv' & _). apply (wo_next w Hw) in Hv'. lia. }
    split; [split| |]; cbn [wd_store wd_heap wd_next].
    + intros id k' ref. destruct (decide (id = series_identity name labels)) as [->|Hne].
      * rewrite lookup_insert_eq. intros [= <- <-]. exists v. rewrite lookup_insert_eq. split; [done|]. rewrite Hn. done.
      * rewrite lookup_insert_ne by done. apply Hs.
    + intros id id' k1 k2 ref. destruct (decide (id = series_identity name labels)) as [->|Hne], (decide (id' = series_identity name labels)) as [->|Hne']; [done| | |].
      * rewrite lookup_insert_eq, lookup_insert_ne by done. intros [= <- <-] Hid. by destruct (Hfresh _ _ Hid).
      * rewrite lookup_insert_eq, lookup_insert_ne by done. intros Hid [= <- <-]. by destruct (Hfresh _ _ Hid).
      * rewrite !lookup_insert_ne by done. apply Hi.
    + exact Hx.
    + split; cbn [wd_store wd_heap].
      * intros id x Hid. rewrite lookup_insert_ne; [done|]. intros <-. by rewrite E in Hid.
      * exact Eh.
      * intros id k' ref v' Hid Hv'. destruct (decide (id = series_identity name labels)) as [->|Hne]; [|by rewrite lookup_insert_ne in Hid].
        rewrite lookup_insert_eq in Hid. injection Hid as <- <-. apply (wo_next w Hw) in Hv'. lia.
    + intros id assign Hf. rewrite <- (Hq id assign Hf). unfold series. cbn [wd_store wd_heap].
      destruct (decide (id = series_identity name labels)) as [->|Hne]; [|by rewrite lookup_insert_ne].
      rewrite lookup_insert_eq, E. cbn [snd]. rewrite lookup_insert_eq. cbn. by rewrite Hz.
Qed.

(** ** Registries *)

(** A field holds a series of the store under the labels of its family, or a metric of its own without labels. *)
Definition field_ok (w : World) (sc : FamilyLabelSchemas) (name : string) (ref : positive) : Prop :=
  exists v, wd_heap w !! ref = Some v /\ vec_names v = family_labels sc name /\
    match family_kind name with
    | Some k => wd_store w !! series_identity name (family_labels sc name) = Some (k, ref)
    | None => forall id k, wd_store w !! id <> Some (k, ref)
    end.
Record registry_ok (w : World) (r : BuiltinRegistry) : Prop := {
  ro_schemas : schema_ok (br_schemas r);
  ro_fields name ref : br_fields r !! name = Some ref -> field_ok w (br_schemas r) name ref }.

Lemma field_ok_extends w w' sc name ref : extends w w' -> field_ok w sc name ref -> field_ok w' sc name ref.
Proof.
  intros [Es Eh En] (v & Hv & Hn & Hst). destruct (Eh ref v Hv) as (v' & Hv' & Hn'). exists v'. rewrite Hn'. split; [done|]. split; [done|].
  destruct (family_kind name); [eauto|]. intros id k Hid. by apply (Hst id k), (En id k ref v).
Qed.

Lemma registry_ok_extends w w' r : extends w w' -> registry_ok w r -> registry_ok w' r.
Proof. intros He [Hs Hf]. split; [done|]. intros name ref Hr. by eapply field_ok_extends, Hf. Qed.

(** A call on the vector of a series changes that series only. *)
Lemma on_vec_spec w ref f v v' :
  world_ok w -> wd_heap w !! ref = Some v -> f v = Some v' -> vec_names v' = vec_names v ->
  exists w', on_vec ref f w = (Ok tt, w') /\ world_ok w' /\ extends w w' /\ wd_store w' = wd_store w /\
    (forall id assign, series w' id assign =
       if decide (snd <$> wd_store w !! id = Some ref) then vec_count v' (assign <$> vec_names v) else series w id assign).
Proof.
  intros [Hs Hi Hx] Hv Hf Hn. unfold on_vec. rewrite Hv. cbn [mbind option_bind]. rewrite Hf. eexists. split; [done|].
  assert (forall r u, wd_heap w !! r = Some u -> exists u', <[ref := v']> (wd_heap w) !! r = Some u' /\ vec_names u' = vec_names u) as Hh.
  { intros r u Hu. destruct (decide (r = ref)) as [->|Hne]; [rewrite lookup_insert_eq|rewrite lookup_insert_ne by done]; eexists; split; [done|congruence|done|done]. }
  split; [split|split; [split|split]]; cbn [wd_store wd_heap wd_next]; [| | | | | |done|].
  - intros id k r Hid. destruct (Hs id k r Hid) as (u & Hu & ? & ? & ?). destruct (Hh r u Hu) as (u' & ? & Hnu). exists u'. by rewrite Hnu.
  - exact Hi.
  - intros r u. destruct (decide (r = ref)) as [->|Hne]; [intros _; eauto|]. rewrite lookup_insert_ne by done. apply Hx.
  - done.
  - exact Hh.
  - done.
  - intros id assign. unfold series. cbn [wd_store wd_heap]. destruct (wd_store w !! id) as [[k r]|] eqn:E.
    + cbn [snd fmap option_fmap option_map]. case_decide as Hd.
      * injection Hd as ->. rewrite lookup_insert_eq. cbn. by rewrite Hn.
      * rewrite lookup_insert_ne by congruence. done.
    + done.
Qed.

(** [calm r P m]: whatever the world, [m] returns and only series of families in [P] change. *)
Definition calm {A} (r : BuiltinRegistry) (P : string -> Prop) (m : MetricEff A) : Prop :=
  forall w, world_ok w -> registry_ok w r -> exists a w', m w = (Ok a, w') /\ quiet P w w'.

Lemma calm_ret {A} r P (a : A) : calm r P (ret a).
Proof. intros w Hw _. exists a, w. split; [done|by apply quiet_refl]. Qed.

Lemma calm_bind {A B} r P (m : MetricEff A) (k : A -> MetricEff B) : calm r P m -> (forall a, calm r P (k a)) -> calm r P (bind m k).
Proof.
  intros Hm Hk w Hw Hr. destruct (Hm w Hw Hr) as (a & w1 & E1 & Q1).
  destruct (Hk a w1 (qu_ok _ _ _ Q1) (registry_ok_extends _ _ _ (qu_ext _ _ _ Q1) Hr)) as (b & w2 & E2 & Q2).
  exists b, w2. unfold bind. rewrite E1. split; [done|by eapply quiet_trans].
Qed.

Lemma calm_guarded r P b m : calm r P m -> calm r P (guarded b m).
Proof. intros Hm. destruct b; [done|apply calm_ret]. Qed.

Lemma calm_if {A} r P (b : bool) (m m' : MetricEff A) : calm r P m -> calm r P m' -> calm r P (if b then m else m').
Proof. by destruct b. Qed.

Lemma calm_field r (P : string -> Prop) name f :
  P name \/ family_kind name = None ->
  (forall v, vec_names v = family_labels (br_schemas r) name -> exists v', f v = Some v' /\ vec_names v' = vec_names v) ->
  calm r P (on_field r name f).
Proof.
  intros HP Hf w Hw Hr. unfold on_field. destruct (br_fields r !! name) as [ref|] eqn:E; [|exists tt, w; split; [done|by apply quiet_refl]].
  destruct (ro_fields w r Hr name ref E) as (v & Hv & Hn & Hst). destruct (Hf v Hn) as (v' & Hfv & Hn').
  destruct (on_vec_spec w ref f v v' Hw Hv Hfv Hn') as (w' & Ew & Hw' & Hx & _ & Hse). exists tt, w'. split; [done|].
  split; [done|done|]. intros id assign HnP. rewrite Hse. case_decide as Hd; [|done]. exfalso.
  destruct (wd_store w !! id) as [[k ref']|] eqn:Hid; [|done]. injection Hd as ->.
  destruct (family_kind name) as [k'|]; [|by apply (Hst id k)].
  pose proof (wo_inj w Hw _ _ _ _ _ Hid Hst) as ->. cbn [series_identity si_name] in HnP. by destruct HP.
Qed.

Lemma set_field_calm r (P : string -> Prop) name vals x :
  P name \/ family_kind name = None -> length vals = length (family_labels (br_schemas r) name) -> calm r P (set_field r name vals x).
Proof.
  intros HP Hl. apply calm_field; [done|]. intros v Hn. destruct (set_law v vals x) as (v' & ? & ? & _); [by rewrite Hn|eauto].
Qed.

Lemma inc_field_calm r (P : string -> Prop) name vals n :
  P name \/ family_kind name = None -> length vals = length (family_labels (br_schemas r) name) -> calm r P (inc_field r name vals n).
Proof.
  intros HP Hl. apply calm_field; [done|]. intros v Hn. destruct (inc_law v vals n) as (v' & ? & ? & _); [by rewrite Hn|eauto].
Qed.

(** *** Building *)

Lemma families_subset sc b1 b2 b3 f : f ∈ builtin_families sc b1 b2 b3 -> f ∈ all_families sc.
Proof.
  assert (builtin_families sc b1 b2 b3 `sublist_of` all_families sc) as Hs; [|intros Hin; eapply elem_of_submseteq; [exact Hin|by apply sublist_submseteq]].
  assert (forall (b : bool) (l : list family), (if b then l else []) `sublist_of` l) as Hif by (intros [] l; [done|apply sublist_nil_l]).
  unfold all_families, builtin_families. repeat apply sublist_app; try done; try apply Hif.
Qed.

Lemma build_vecs_spec sc fs : forall acc w,
  schema_ok sc -> (forall f, f ∈ fs -> f ∈ all_families sc) -> world_ok w -> (forall name ref, acc !! name = Some ref -> field_ok w sc name ref) ->
  exists fields w', build_vecs fs acc w = (Ok fields, w') /\ quiet (fun _ => False) w w' /\
    (forall name ref, fields !! name = Some ref -> field_ok w' sc name ref) /\
    (forall name, is_Some (fields !! name) <-> is_Some (acc !! name) \/ name ∈ fs.*1.*1).
Proof.
  induction fs as [|[[name k] labels] fs IH]; intros acc w Hsc Hfs Hw Hacc; cbn [build_vecs].
  { exists acc, w. split; [done|]. split; [by apply quiet_refl|]. split; [done|]. set_solver. }
  assert ((name, k, labels) ∈ all_families sc) as Hin by (apply Hfs; by left).
  pose proof (find_family_in sc name k labels Hin) as Hff.
  assert (labels = family_labels sc name) as -> by (unfold family_labels; by rewrite Hff).
  pose proof (find_family_kind sc name _ Hsc Hff) as Hk. cbn [fst snd] in Hk.
  destruct (get_or_create_spec w k name (family_labels sc name) Hw (family_labels_sublist sc name Hsc) Hk) as (ref & w1 & v & E1 & Q1 & Hst & Hv & Hn).
  destruct (IH (<[name := ref]> acc) w1) as (fields & w2 & E2 & Q2 & Hf & Hd); [done|intros f Hf; apply Hfs; by right|apply Q1| |].
  { intros n r. destruct (decide (n = name)) as [->|Hne].
    - rewrite lookup_insert_eq. intros [= <-]. exists v. split; [done|]. split; [done|]. by rewrite Hk.
    - rewrite lookup_insert_ne by done. intros Hr. eapply field_ok_extends; [apply Q1|by apply Hacc]. }
  exists fields, w2. unfold bind. rewrite E1. split; [done|]. split; [by eapply quiet_trans|]. split; [done|].
  intros n. rewrite Hd. cbn [fmap list_fmap fst]. rewrite elem_of_cons. destruct (decide (n = name)) as [->|Hne].
  - rewrite lookup_insert_eq. split; eauto.
  - rewrite lookup_insert_ne by done. naive_solver.
Qed.

Lemma build_singles_spec sc fs : forall acc w,
  (forall f, f ∈ fs -> find_family sc f.1 = None /\ family_kind f.1 = None) -> world_ok w -> (forall name ref, acc !! name = Some ref -> field_ok w sc name ref) ->
  exists fields w', build_singles fs acc w = (Ok fields, w') /\ quiet (fun _ => False) w w' /\
    (forall name ref, fields !! name = Some ref -> field_ok w' sc name ref) /\
    (forall name, is_Some (fields !! name) <-> is_Some (acc !! name) \/ name ∈ fs.*1).
Proof.
  induction fs as [|[name k] fs IH]; intros acc w Hfs Hw Hacc; cbn [build_singles].
  { exists acc, w. split; [done|]. split; [by apply quiet_refl|]. split; [done|]. set_solver. }
  destruct (Hfs (name, k)) as [Hff Hfk]; [by left|]. cbn [fst] in Hff, Hfk.
  destruct (new_law k []) as (v & Hv & Hn & _ & _); [constructor|constructor|]. unfold bind, alloc. rewrite Hv.
  pose proof (alloc_quiet w v Hw) as Q1. cbv zeta in Q1. set (w1 := MkWorld _ _ _) in *.
  destruct (IH (<[name := wd_next w]> acc) w1) as (fields & w2 & E2 & Q2 & Hf & Hd); [intros f Hf; apply Hfs; by right|apply Q1| |].
  { intros n r. destruct (decide (n = name)) as [->|Hne].
    - rewrite lookup_insert_eq. intros [= <-]. exists v. split; [apply lookup_insert_eq|]. unfold family_labels. rewrite Hff. split; [done|]. rewrite Hfk.
      intros id k' Hid. destruct (wo_series w Hw id k' (wd_next w) Hid) as (v' & Hv' & _). apply (wo_next w Hw) in Hv'. lia.
    - rewrite lookup_insert_ne by done. intros Hr. eapply field_ok_extends; [apply Q1|by apply Hacc]. }
  exists fields, w2. split; [done|]. split; [by eapply quiet_trans|]. split; [done|].
  intros n. rewrite Hd. cbn [fmap list_fmap fst]. rewrite elem_of_cons. destruct (decide (n = name)) as [->|Hne].
  - rewrite lookup_insert_eq. split; eauto.
  - rewrite lookup_insert_ne by done. naive_solver.
Qed.

Lemma singles_not_families sc b1 b2 b3 f : f ∈ builtin_singles b1 b2 b3 -> find_family sc f.1 = None /\ family_kind f.1 = None.
Proof.
  assert (Forall (fun n => find_family sc n = None /\ family_kind n = None)
    ["conduit_build_info"; "conduit_start_time_seconds"; "conduit_uptime_seconds"; "conduit_config_generation"; "conduit_slot_pool_exhausted_total"; "conduit_slots_in_use";
     "conduit_slots_capacity"; "conduit_process_resident_bytes"; "conduit_process_open_fds"; "conduit_process_max_fds"; "conduit_process_threads";
     "conduit_process_cpu_seconds_total"]) as Hall by (repeat constructor).
  rewrite Forall_forall in Hall. intros Hf. apply Hall.
  assert (f.1 ∈ (builtin_singles true true true).*1) as Hin; [|exact Hin].
  apply list_elem_of_fmap_2. eapply elem_of_submseteq; [exact Hf|]. apply sublist_submseteq.
  assert (forall (b : bool) (l : list (string * Kind)), (if b then l else []) `sublist_of` l) as Hif by (intros [] l; [done|apply sublist_nil_l]).
  unfold builtin_singles. repeat apply sublist_app; try done; apply Hif.
Qed.

(** The registry of a plan, built in any world. *)
Lemma new_internal_spec w en profile health vol fail tim proc sc a b :
  world_ok w -> schema_ok sc ->
  exists r w', new_internal en profile health vol fail tim proc sc a b w = (Ok r, w') /\ quiet (fun _ => False) w w' /\ registry_ok w' r /\
    br_schemas r = sc /\
    (forall name, is_Some (br_fields r !! name) <->
       let effective := en && negb (bool_decide (profile = ProfileOff)) in
       let full := bool_decide (profile = ProfileFull) in
       name ∈ (builtin_families sc effective full health).*1.*1 \/ name ∈ (builtin_singles effective full proc).*1).
Proof.
  intros Hw Hsc. unfold new_internal. set (effective := en && _). set (full := bool_decide _).
  destruct (build_vecs_spec sc (builtin_families sc effective full health) ∅ w) as (f1 & w1 & E1 & Q1 & Hf1 & Hd1); [done|apply families_subset|done|done|].
  destruct (build_singles_spec sc (builtin_singles effective full proc) f1 w1) as (f2 & w2 & E2 & Q2 & Hf2 & Hd2); [|apply Q1|done|].
  { intros f Hf. by eapply singles_not_families. }
  unfold bind at 1. rewrite E1. unfold bind at 1. rewrite E2.
  match goal with |- context [ret ?x] => set (r := x) end.
  assert (registry_ok w2 r) as Hr by done.
  destruct (calm_bind r (fun _ => False) (set_field r "conduit_build_info" [] (f64_of_Z 1)) (fun _ =>
    bind (set_field r "conduit_start_time_seconds" [] a) (fun _ => bind (set_field r "conduit_uptime_seconds" [] b) (fun _ => ret r)))) with (w := w2)
    as (r' & w3 & E3 & Q3); [| |apply Q2|done|].
  1: by apply set_field_calm; [right|].
  1: { intros _. apply calm_bind; [by apply set_field_calm; [right|]|]. intros _. apply calm_bind; [by apply set_field_calm; [right|]|]. intros _. apply calm_ret. }
  assert (r' = r) as ->.
  { repeat (apply bind_inv in E3 as (? & ? & _ & E3)). by injection E3. }
  exists r, w3. split; [done|]. split; [by eapply quiet_trans; [|eapply quiet_trans]|]. split; [by eapply registry_ok_extends; [apply Q3|]|]. split; [done|].
  intros name. cbn [br_fields r]. cbv zeta. rewrite Hd2, Hd1, lookup_empty. split; [intros [[[? [=]]|?]|?]; auto|intros [?|?]; auto].
Qed.

(** *** Recording *)

(** A call on the vector of a family with the values of an event, in the order of its labels. *)
Definition counts (f : Vec -> option Vec) (vals : list string) (n : Z) : Prop :=
  forall v, length vals = length (vec_names v) ->
    exists v', f v = Some v' /\ vec_names v' = vec_names v /\ (forall vals', vec_count v' vals' = add_at (vec_count v) vals n vals').

Lemma inc_counts vals n : counts (fun v => vec_inc_by v vals n) vals n.
Proof. intros v. apply inc_law. Qed.
Lemma observe_counts vals x : counts (fun v => vec_observe v vals x) vals 1.
Proof. intros v. apply observe_law. Qed.

Definition event_values (r : BuiltinRegistry) (e : Recorded) : list string := dim_value (ef_arms (effect r e)) <$> family_labels (br_schemas r) (ef_family (effect r e)).

Lemma timing_values_eq sc (pool backend outcome : string) :
  schema_ok sc -> dim_value [("pool", pool); ("backend", backend)] <$> sc_timing sc = dim_value [("pool", pool); ("backend", backend); ("outcome", outcome)] <$> sc_timing sc.
Proof.
  intros Hsc. apply list_fmap_ext. intros i dim Hd%list_elem_of_lookup_2.
  assert (dim ∈ ["pool"; "backend"]) as Hin by (eapply elem_of_submseteq; [exact Hd|apply sublist_submseteq, (so_timing sc Hsc)]).
  by repeat (apply elem_of_cons in Hin as [->|Hin]; [done|]); apply elem_of_nil in Hin.
Qed.

Lemma record_shape r e :
  schema_ok (br_schemas r) ->
  exists f, record r e = guarded (ef_on (effect r e)) (on_field r (ef_family (effect r e)) f) /\ counts f (event_values r e) (ef_amount (effect r e)) /\
    exists k, family_kind (ef_family (effect r e)) = Some k /\ k <> KGauge.
Proof.
  intros Hsc. unfold event_values.
  destruct e; eexists; (split; [|split; [first [eapply (observe_counts _ secs)|eapply inc_counts]|eexists; split; [reflexivity|done]]]);
    cbn [effect ef_on ef_family ef_arms ef_amount record]; try reflexivity.
  - unfold record_query_dropped, inc_field, family_labels, find_family. cbn. by destruct (volume_has_ip_family (br_schemas r)).
  - unfold record_response_truncated, inc_field, family_labels, find_family. cbn. by destruct (volume_has_ip_family (br_schemas r)).
  - unfold record_forward_attempt, inc_field, timing_values. rewrite (timing_values_eq _ pool backend outcome Hsc). 
    unfold family_labels. change (find_family (br_schemas r) "conduit_forward_attempts_total") with (Some ("conduit_forward_attempts_total", KCounter, sc_timing (br_schemas r) ++ ["outcome"])).
    cbn [from_option snd]. by rewrite fmap_app.
Qed.

Lemma wrap_add_l x n : wrap 64 (wrap 64 x + n) = wrap 64 (x + n).
Proof. unfold wrap. by rewrite Zplus_mod_idemp_l. Qed.

Lemma values_agree (assign value : string -> string) l1 l2 :
  l1 ≡ₚ l2 -> forallb (fun l => String.eqb (assign l) (value l)) l2 = bool_decide (assign <$> l1 = value <$> l1).
Proof.
  intros Hp. apply eq_true_iff_eq. rewrite List.forallb_forall, bool_decide_eq_true. setoid_rewrite String.eqb_eq. split.
  - intros Ha. apply list_fmap_ext. intros i l Hl%list_elem_of_lookup_2. apply Ha, list_elem_of_In. by rewrite <- Hp.
  - intros He l Hl. apply list_elem_of_In in Hl. rewrite <- Hp in Hl. apply list_elem_of_lookup in Hl as [i Hi].
    apply (f_equal (fun x => x !! i)) in He. rewrite !list_lookup_fmap, Hi in He. by injection He.
Qed.

(** An event is counted once, in its own series, under its own values; nothing else changes. *)
Lemma record_spec w r e :
  world_ok w -> registry_ok w r ->
  exists w', record r e w = (Ok tt, w') /\ world_ok w' /\ extends w w' /\
    (forall name labels assign t, series w (series_identity name labels) assign = wrap 64 t ->
       series w' (series_identity name labels) assign = wrap 64 (t + contribution name labels assign (r, e))).
Proof.
  intros Hw Hr. destruct (record_shape r e (ro_schemas _ _ Hr)) as (f & -> & Hc & k & Hk & _). unfold contribution. unfold event_values in Hc.
  destruct (effect r e) as [on fam arms n]. cbn [ef_on ef_family ef_arms ef_amount] in *.
  destruct on; cbn [guarded andb]; [|exists w; split_and!; [done..|intros; by rewrite Z.add_0_r]].
  unfold on_field. destruct (br_fields r !! fam) as [ref|] eqn:Ef; cbn [is_someb andb]; [|exists w; split_and!; [done..|intros; by rewrite Z.add_0_r]].
  destruct (ro_fields w r Hr fam ref Ef) as (v & Hv & Hn & Hst). rewrite Hk in Hst. destruct (Hc v) as (v' & Hfv & Hn' & Hcount); [by rewrite Hn, length_fmap|].
  destruct (on_vec_spec w ref f v v' Hw Hv Hfv Hn') as (w' & Ew & Hw' & Hx & _ & Hse). exists w'. split; [done|]. split; [done|]. split; [done|].
  intros name labels assign t Ht. rewrite Hse. destruct (String.eqb_spec fam name) as [<-|Hne]; cbn [andb].
  2: { rewrite Z.add_0_r, decide_False; [done|]. intros Hd. destruct (wd_store w !! series_identity name labels) as [[k' ref']|] eqn:Hid; [|done].
       injection Hd as ->. apply Hne. by injection (wo_inj w Hw _ _ _ _ _ Hst Hid). }
  destruct (bool_decide_reflect (series_identity fam (family_labels (br_schemas r) fam) = series_identity fam labels)) as [Heq|Hneq]; cbn [andb].
  2: { rewrite Z.add_0_r, decide_False; [done|]. intros Hd. destruct (wd_store w !! series_identity fam labels) as [[k' ref']|] eqn:Hid; [|done].
       injection Hd as ->. apply Hneq. exact (wo_inj w Hw _ _ _ _ _ Hst Hid). }
  rewrite <- Heq in *. rewrite decide_True by (by rewrite Hst). rewrite Hcount, Hn. unfold series in Ht. rewrite Hst in Ht. cbn [snd] in Ht.
  rewrite Hv, Hn in Ht. cbn [default from_option id] in Ht. unfold add_at.
  rewrite (values_agree assign (dim_value arms) _ labels (identity_perm _ _ _ Heq)).
  case_decide as Hd; [rewrite bool_decide_eq_true_2 by done|rewrite bool_decide_eq_false_2 by done].
  - by rewrite Ht, wrap_add_l.
  - by rewrite Z.add_0_r.
Qed.

(** *** Scrapes *)

Definition rows_ok (sc : FamilyLabelSchemas) (g : gauge_rows) : Prop :=
  family_kind g.1 = Some KGauge /\ Forall (fun row => length row.1 = length (family_labels sc g.1)) g.2.

Lemma refresh_gauge_calm r g : rows_ok (br_schemas r) g -> calm r scraped (refresh_gauge r g).
Proof.
  destruct g as [name rows]. intros [Hk Hrows]. cbn [fst snd] in *. apply calm_bind.
  - apply calm_field; [left; by left|]. intros v _. eexists. split; [done|]. apply reset_law.
  - intros _. cbn [fst snd]. induction Hrows as [|[vals x] rows Hl _ IH]; cbn [set_rows]; [apply calm_ret|].
    apply calm_bind; [apply set_field_calm; [left; by left|done]|by intros _].
Qed.

Lemma refresh_gauges_calm r gs : Forall (rows_ok (br_schemas r)) gs -> calm r scraped (refresh_gauges r gs).
Proof. induction 1 as [|g gs Hg _ IH]; cbn [refresh_gauges]; [apply calm_ret|]. apply calm_bind; [by apply refresh_gauge_calm|by intros _]. Qed.

Lemma rows_ok_intro sc name (rows : list gauge_row) n :
  family_kind name = Some KGauge -> length (family_labels sc name) = n -> Forall (fun row => length row.1 = n) rows -> rows_ok sc (name, rows).
Proof. intros Hk Hn Hr. split; [done|]. cbn [fst snd]. by rewrite Hn. Qed.

Ltac rows_tac := eapply rows_ok_intro; [reflexivity|reflexivity|];
  apply Forall_forall; intros row Hrow;
  repeat first [apply list_elem_of_fmap in Hrow as (? & -> & _) | apply list_elem_of_omap in Hrow as (x & _ & Hrow); apply fmap_Some in Hrow as (? & _ & ->)]; reflexivity.

Lemma topology_rows_ok sc s : Forall (rows_ok sc) (topology_rows s).
Proof. unfold topology_rows, listener_rows, backend_rows. cbn [app]. repeat (constructor; [rows_tac|]). constructor. Qed.
Lemma health_rows_ok sc s : Forall (rows_ok sc) (health_rows s).
Proof. unfold health_rows. repeat (constructor; [rows_tac|]). constructor. Qed.
Lemma cache_rows_ok sc s : Forall (rows_ok sc) (cache_rows s).
Proof. unfold cache_rows. repeat (constructor; [rows_tac|]). constructor. Qed.

Lemma sync_totals_calm `{Countable K} r name (labels : K -> list string) rows : forall last,
  name ∈ scraped_totals -> (forall k, length (labels k) = length (family_labels (br_schemas r) name)) -> calm r scraped (sync_totals r name labels rows last).
Proof.
  induction rows as [|[key total] rows IH]; intros last Hn Hl; cbn [sync_totals]; [apply calm_ret|].
  apply calm_if; [|by apply IH]. apply calm_bind; [apply inc_field_calm; [left; by right|done]|by intros _; apply IH].
Qed.

Lemma refresh_scrape_gauges_calm r s rd sy : calm r scraped (refresh_scrape_gauges r s rd sy).
Proof.
  assert (forall name vals x, find_family (br_schemas r) name = None -> family_kind name = None -> vals = [] -> calm r scraped (set_field r name vals x)) as Hset.
  { intros name vals x Hf Hk ->. apply set_field_calm; [by right|]. unfold family_labels. by rewrite Hf. }
  unfold refresh_scrape_gauges. repeat (apply calm_bind; [first [by apply Hset|apply refresh_gauges_calm; first [apply topology_rows_ok|apply cache_rows_ok]|idtac]|intros ?]).
  - unfold sync_exhaustion_counter. apply calm_if; [|apply calm_ret]. apply calm_bind; [by apply inc_field_calm; [right|]|intros _; apply calm_ret].
  - unfold refresh_health_scrape_gauges. apply calm_if; [|apply calm_ret].
    apply calm_bind; [apply refresh_gauges_calm, health_rows_ok|intros _]. apply calm_bind; [|intros ?].
    { unfold sync_health_transition_counters. apply calm_if; [|apply calm_ret]. apply calm_bind; [apply sync_totals_calm; [by left|done]|intros ?; apply calm_ret]. }
    apply calm_bind; [apply refresh_gauge_calm; unfold count_rows; rows_tac|intros _; apply calm_ret].
  - unfold sync_periodic_sync_failure_counters. apply calm_if; [|apply calm_ret].
    apply calm_bind; [apply sync_totals_calm; [right; by left|done]|intros ?; apply calm_ret].
  - unfold refresh_cpu. destruct (br_fields r !! _); [|apply calm_ret]. destruct (rd_cpu_seconds rd); [|apply calm_ret].
    apply calm_if; [|apply calm_ret]. apply calm_bind; [|intros _; apply calm_ret]. apply calm_guarded, calm_field; [by right|].
    intros v Hn. match goal with |- context [vec_add v [] ?x] => destruct (add_law v [] x) as (v' & ? & ? & _); [by rewrite Hn|eauto] end.
Qed.

(** ** Histories *)

Record history_ok (w : World) (h : History) : Prop := {
  hk_world : world_ok w;
  hk_hub : registry_ok w (hm_builtin (hu_hot (hy_hub h)));
  hk_pins : Forall (fun pin => registry_ok w (pin_builtin pin)) (hy_pins h);
  hk_counts name labels assign : ~ scraped name -> series w (series_identity name labels) assign = wrap 64 (tally name labels assign (hy_recorded h)) }.

Lemma history_quiet w w' h : quiet scraped w w' -> history_ok w h -> history_ok w' h.
Proof.
  intros [Hw Hx Hq] [_ Hh Hp Hc]. split; [done|by eapply registry_ok_extends| |].
  - eapply Forall_impl; [exact Hp|]. intros pin. by apply registry_ok_extends.
  - intros name labels assign Hn. rewrite Hq by done. by apply Hc.
Qed.

Lemma new_from_plan_spec w plan a b :
  world_ok w -> plan_ok plan -> exists r w', new_from_plan_with_store plan a b w = (Ok r, w') /\ quiet (fun _ => False) w w' /\ registry_ok w' r.
Proof.
  intros Hw Hp. edestruct new_internal_spec as (r & w' & E & Q & Hr & _); [exact Hw|by apply plan_schema_ok|]. exists r, w'. split; [exact E|done].
Qed.

Lemma tally_snoc name labels assign l x : tally name labels assign (l ++ [x]) = tally name labels assign l + contribution name labels assign x.
Proof. unfold tally. by rewrite foldl_app. Qed.

Definition op_ok (op : HubOp) : Prop := match op with OpApply cm _ _ => plan_ok (cm_plan cm) | _ => True end.

Lemma hub_op_ok op h w : op_ok op -> history_ok w h -> exists h' w', hub_op op h w = (Ok h', w') /\ history_ok w' h'.
Proof.
  intros Hop Hh. destruct op as [cm a b| |i e|s rd]; cbn [hub_op].
  - destruct (new_from_plan_spec w (cm_plan cm) a b (hk_world _ _ Hh) Hop) as (r & w' & E & Q & Hr).
    apply (quiet_weaken _ scraped) in Q; [|done]. destruct (history_quiet _ _ _ Q Hh) as [? _ ? ?].
    unfold apply_compiled, build_hot, bind. rewrite E. eexists _, _. split; [done|]. by split.
  - eexists _, w. split; [done|]. destruct Hh as [? ? Hp ?]. split; [done|done| |done]. apply Forall_app. split; [done|by constructor].
  - destruct (hy_pins h !! i) as [pin|] eqn:Ei; [|by eexists _, w].
    destruct Hh as [Hw Hh Hp Hc]. destruct (record_spec w (pin_builtin pin) e Hw) as (w' & E & Hw' & Hx & Hs); [by eapply Forall_lookup_1 in Hp|].
    unfold bind. rewrite E. eexists _, w'. split; [done|]. split; cbn [hy_hub hy_pins hy_recorded]; [done|by eapply registry_ok_extends| |].
    + eapply Forall_impl; [exact Hp|]. intros pin'. by apply registry_ok_extends.
    + intros name labels assign Hn. rewrite tally_snoc. by apply Hs, Hc.
  - unfold builtin_gather. destruct (br_enabled _); [|unfold bind; eexists _, w; split; [done|by destruct Hh]].
    destruct (refresh_scrape_gauges_calm (hm_builtin (hu_hot (hy_hub h))) s rd (hm_synced (hu_hot (hy_hub h))) w) as (sy & w' & E & Q); [apply Hh|apply Hh|].
    unfold bind. rewrite E. eexists _, w'. split; [done|]. destruct (history_quiet _ _ _ Q Hh). by split.
Qed.

Lemma hub_ops_ok ops : forall h w, Forall op_ok ops -> history_ok w h -> exists h' w', hub_ops ops h w = (Ok h', w') /\ history_ok w' h'.
Proof.
  induction ops as [|op ops IH]; intros h w Hops Hh; cbn [hub_ops]; [by eexists _, w|].
  apply Forall_cons in Hops as [Hop Hops]. destruct (hub_op_ok op h w Hop Hh) as (h1 & w1 & E1 & Hh1).
  destruct (IH h1 w1 Hops Hh1) as (h2 & w2 & E2 & Hh2). exists h2, w2. unfold bind. by rewrite E1.
Qed.

End Laws.

(** ** A concrete library *)

Record SampleVec := MkSample { sv_names : list string; sv_counts : gmap (list string) Z; sv_gauges : gmap (list string) f64 }.
Definition sample_at (v : SampleVec) (vals : list string) (f : SampleVec) : option SampleVec := if Nat.eqb (length vals) (length (sv_names v)) then Some f else None.
Definition sample_inc (v : SampleVec) (vals : list string) (n : Z) : option SampleVec :=
  sample_at v vals (MkSample (sv_names v) (<[vals := wrap 64 (default 0 (sv_counts v !! vals) + n)]> (sv_counts v)) (sv_gauges v)).

#[global] Instance sample_prometheus : Prometheus := {|
  Vec := SampleVec;
  vec_new _ labels := if bool_decide (NoDup labels) && forallb label_name_ok labels then Some (MkSample labels ∅ ∅) else None;
  vec_names := sv_names;
  vec_count v vals := default 0 (sv_counts v !! vals);
  vec_gauge v vals := sv_gauges v !! vals;
  vec_inc_by := sample_inc;
  vec_observe v vals _ := sample_inc v vals 1;
  vec_set v vals x := sample_at v vals (MkSample (sv_names v) (sv_counts v) (<[vals := x]> (sv_gauges v)));
  vec_add v vals x := sample_at v vals (MkSample (sv_names v) (sv_counts v) (<[vals := f64_add (default (f64_of_Z 0) (sv_gauges v !! vals)) x]> (sv_gauges v)));
  vec_reset v := MkSample (sv_names v) ∅ ∅ |}.

Lemma sample_at_ok v vals f : length vals = length (sv_names v) -> sample_at v vals f = Some f.
Proof. intros Hl. unfold sample_at. by rewrite Hl, Nat.eqb_refl. Qed.

Lemma sample_inc_ok v vals n : length vals = length (sv_names v) ->
  exists v', sample_inc v vals n = Some v' /\ sv_names v' = sv_names v /\
    (forall vals', default 0 (sv_counts v' !! vals') = add_at (fun x => default 0 (sv_counts v !! x)) vals n vals').
Proof.
  intros Hl. eexists. split; [by apply sample_at_ok|]. split; [done|]. intros vals'. unfold add_at. cbn [sv_counts].
  case_decide as Hd; [subst; by rewrite lookup_insert_eq|by rewrite lookup_insert_ne].
Qed.

#[global] Instance sample_laws : PrometheusLaws.
Proof.
  split.
  - intros k labels Hnd Hok. exists (MkSample labels ∅ ∅). cbn. rewrite bool_decide_eq_true_2 by done. rewrite (proj2 (List.forallb_forall _ _)); [done|].
    intros l Hl%list_elem_of_In. rewrite Forall_forall in Hok. by apply Hok.
  - intros v vals n Hl. by apply sample_inc_ok.
  - intros v vals x Hl. by apply sample_inc_ok.
  - intros v vals x Hl. eexists. split; [by apply sample_at_ok|]. split; [done|]. split; [done|]. intros vals'. cbn.
    case_decide as Hd; [subst; by rewrite lookup_insert_eq|by rewrite lookup_insert_ne].
  - intros v vals x Hl. eexists. split; [by apply sample_at_ok|]. by split.
  - intros v. split; [done|]. intros vals. cbn. apply lookup_empty.
Qed.

(** *** Examples *)

Definition standard_metrics : CompiledMetrics := compile_metrics (fun m => map_to_list m) (fun m => map_to_list m) (fun m => map_to_list m) (Some no_metrics).
Definition balanced_config : MetricsConfig :=
  MkMetrics (Some true) "" None None [] "standard" None (Some {| mg_default := "balanced"; mg_overrides := ∅ |}) ∅ None.
Definition balanced_metrics : CompiledMetrics := compile_metrics (fun m => map_to_list m) (fun m => map_to_list m) (fun m => map_to_list m) (Some balanced_config).

Lemma standard_metrics_ok : plan_ok (cm_plan standard_metrics).
Proof. apply compile_metrics_ok; by intros m. Qed.
Lemma balanced_metrics_ok : plan_ok (cm_plan balanced_metrics).
Proof. apply compile_metrics_ok; by intros m. Qed.

Definition query_event : Recorded := Query "l" "udp" (Some 1) (Some 1) (SockV4 0 53).
Definition reload_ops : list HubOp :=
  [OpPin; OpRecord 0 query_event; OpApply balanced_metrics (f64_of_Z 2) (f64_of_Z 0); OpPin; OpRecord 1 query_event; OpRecord 0 query_event].


(** What a run leaves: whether it returned, and what is read of it. *)
Definition run_value {A} (cm : CompiledMetrics) (ops : list HubOp) (f : History -> World -> A) : option A :=
  match hub_run cm (f64_of_Z 1) (f64_of_Z 0) ops empty_world with (Ok h, w) => Some (f h w) | (Err _, _) => None end.

Definition no_snapshot : ScrapeGaugeSnapshot :=
  {| sg_config_generation := 1; sg_pool_backend_counts := []; sg_forward_outstanding := []; sg_slots_in_use := 0; sg_slots_capacity := 0; sg_slot_pool_exhausted_total := 0;
     sg_listeners := []; sg_backends := []; sg_health_backends := []; sg_pool_backends_active := []; sg_cache_entry_counts := []; sg_cache_capacity := [] |}.
Definition one_transition : ScrapeGaugeSnapshot :=
  {| sg_config_generation := 1; sg_pool_backend_counts := []; sg_forward_outstanding := []; sg_slots_in_use := 0; sg_slots_capacity := 0; sg_slot_pool_exhausted_total := 0;
     sg_listeners := []; sg_backends := [];
     sg_health_backends := [{| hs_pool := "p"; hs_backend := "b"; hs_observed := f64_of_Z 1; hs_applied := f64_of_Z 1; hs_probe_automatic := f64_of_Z 1;
                               hs_effective_weight := f64_of_Z 1; hs_latency_ewma_ms := None; hs_transitions_total := 1 |}];
     sg_pool_backends_active := []; sg_cache_entry_counts := []; sg_cache_capacity := [] |}.
Definition no_readings : Readings :=
  {| rd_uptime := f64_of_Z 0; rd_resident_bytes := None; rd_open_fds := None; rd_max_fds := None; rd_threads := None; rd_cpu_seconds := None |}.
Definition transitions_shown (h : History) (w : World) : Z :=
  series w (series_identity "conduit_backend_health_transitions_total" ["pool"; "backend"]) (dim_value [("pool", "p"); ("backend", "b")]).

(** A total that a scrape has added to its counter is added again after every reload: the counter outlives the registry, the mark
    of what was added does not. One transition is shown as one, then as two. *)
Theorem transitions_counted_again :
  let scrape := OpScrape one_transition no_readings in
  let reload := OpApply standard_metrics (f64_of_Z 2) (f64_of_Z 0) in
  run_value standard_metrics [scrape; scrape] transitions_shown = Some 1 /\
  run_value standard_metrics [scrape; reload; scrape] transitions_shown = Some 2.
Proof. split; [vm_cast_no_check (eq_refl (Some 1))|vm_cast_no_check (eq_refl (Some 2))]. Qed.

Definition gauge_shown (name : string) (h : History) (w : World) : option f64 :=
  let! ref := br_fields (hm_builtin (hu_hot (hy_hub h))) !! name in let! v := wd_heap w !! ref in vec_gauge v [].

(** [conduit_start_time_seconds] is the time of the last reload: each registry sets it when it is built. *)
Theorem start_time_moves :
  run_value standard_metrics [] (gauge_shown "conduit_start_time_seconds") = Some (Some (f64_of_Z 1)) /\
  run_value standard_metrics [OpApply standard_metrics (f64_of_Z 2) (f64_of_Z 0)] (gauge_shown "conduit_start_time_seconds") = Some (Some (f64_of_Z 2)).
Proof. split; [vm_cast_no_check (eq_refl (Some (Some (f64_of_Z 1))))|vm_cast_no_check (eq_refl (Some (Some (f64_of_Z 2))))]. Qed.

(** A plan of balanced granularity collects and exports the details of caches and the runtime, and its registry has none of their families. *)
Theorem balanced_drops_families :
  let plan := cm_plan balanced_metrics in
  (collect_for plan CatCacheDetail && emit_for plan CatCacheDetail && collect_for plan CatRuntime && emit_for plan CatRuntime = true) /\
  run_value balanced_metrics []
    (fun h _ => (fun n => is_someb (br_fields (hm_builtin (hu_hot (hy_hub h))) !! n)) <$> ["conduit_cache_fills_total"; "conduit_cache_entries"; "conduit_slots_in_use"])
  = Some [false; false; false].
Proof. split; [vm_cast_no_check (eq_refl true)|vm_cast_no_check (eq_refl (Some [false; false; false]))]. Qed.

(** *** The counters of scripts *)

Definition add_deltas (ds : list UserMetricDelta) (u : UserRegistry) : option UserRegistry :=
  foldl (fun o d => let! u := o in match add_delta d u with (Some _, u) => Some u | (None, _) => None end) (Some u) ds.

(** Two increments of one metric that differ in the value of a label: the second panics with the lock held, and so does every later one. *)
Theorem second_label_set_panics :
  let eu := {| ud_name := "block_hits"; ud_labels := {["category" := "eu"]}; ud_delta := 1 |} in
  let us := {| ud_name := "block_hits"; ud_labels := {["category" := "us"]}; ud_delta := 1 |} in
  let u := user_new true ∅ in
  (is_someb (add_deltas [eu] u), is_someb (add_deltas [eu; us] u), is_someb (add_delta eu (add_delta us (add_delta eu u).2).2).1) = (true, false, false).
Proof. vm_cast_no_check (eq_refl (true, false, false)). Qed.

(** A reload forgets the counters of scripts. *)
Theorem reload_forgets_user_counters `{Prometheus} cm a b hub w hub' w' :
  apply_compiled cm a b hub w = (Ok hub', w') -> ur_counters (hm_user (hu_hot hub')) = ∅.
Proof. intros E. apply bind_inv in E as (hot & w1 & E1 & E2). apply bind_inv in E1 as (r & w2 & _ & E3). injection E2 as <- <-. by injection E3 as <- <-. Qed.

(** What scripts have added under a key. *)
Definition added (key : string) (ds : list UserMetricDelta) : Z :=
  foldl (fun n d => if String.eqb (label_key (ud_name d) (ud_labels d)) key then n + ud_delta d else n) 0 ds.

(** The increments of scripts that give each metric one set of labels, and no two metrics names that sanitize alike. *)
Definition distinct_metrics (ds : list UserMetricDelta) : Prop :=
  forall d d', d ∈ ds -> d' ∈ ds -> sanitize_metric_name (ud_name d) = sanitize_metric_name (ud_name d') ->
    label_key (ud_name d) (ud_labels d) = label_key (ud_name d') (ud_labels d').

Record users_counted (ds : list UserMetricDelta) (u : UserRegistry) : Prop := {
  uc_live : ur_enabled u = true /\ ur_poisoned u = false;
  uc_counters key : default 0 (ur_counters u !! key) = wrap 64 (added key ds);
  uc_registered n : n ∈ ur_registered u -> exists d, d ∈ ds /\ sanitize_metric_name (ud_name d) = n /\ is_Some (ur_counters u !! label_key (ud_name d) (ud_labels d)) }.

Lemma added_snoc key ds d : added key (ds ++ [d]) = added key ds + if String.eqb (label_key (ud_name d) (ud_labels d)) key then ud_delta d else 0.
Proof. unfold added. rewrite foldl_app. cbn [foldl]. destruct (String.eqb _ _); lia. Qed.

Lemma add_delta_counted ds d u : distinct_metrics (ds ++ [d]) -> users_counted ds u -> exists u', add_delta d u = (Some tt, u') /\ users_counted (ds ++ [d]) u'.
Proof.
  intros Hd [[He Hp] Hc Hr]. unfold add_delta. rewrite He, Hp. cbn [negb orb].
  assert (forall n, n ∈ ur_registered u -> exists d', d' ∈ ds ++ [d] /\ sanitize_metric_name (ud_name d') = n /\ is_Some (ur_counters u !! label_key (ud_name d') (ud_labels d')))
    as Hr' by (intros n (d' & Hin & ?)%Hr; exists d'; split; [apply elem_of_app; by left|done]).
  destruct (ud_delta d =? 0) eqn:E0.
  { exists u. split; [done|]. split; [done| |done]. intros key. rewrite added_snoc, Hc. apply Z.eqb_eq in E0. destruct (String.eqb _ _); f_equal; lia. }
  set (key := label_key (ud_name d) (ud_labels d)). assert (d ∈ ds ++ [d]) as Hself by (apply elem_of_app; right; by left).
  assert (forall x, default 0 (ur_counters u !! key) = x -> forall k, default 0 (<[key := wrap 64 (x + ud_delta d)]> (ur_counters u) !! k) = wrap 64 (added k (ds ++ [d]))) as Hins.
  { intros x Hx k. rewrite added_snoc. fold key. destruct (String.eqb_spec key k) as [<-|Hne].
    - rewrite lookup_insert_eq. cbn. rewrite <- Hx, Hc. apply wrap_add_l.
    - rewrite lookup_insert_ne by done. by rewrite Hc, Z.add_0_r. }
  destruct (ur_counters u !! key) as [n|] eqn:Ek.
  { eexists. split; [done|]. split; cbn; [done|by apply Hins|]. intros m (d' & ? & ? & ?)%Hr'. exists d'. split_and!; try done.
    destruct (decide (key = label_key (ud_name d') (ud_labels d'))) as [<-|]; [by rewrite lookup_insert_eq|by rewrite lookup_insert_ne]. }
  case_bool_decide as Hreg.
  { destruct (Hr' _ Hreg) as (d' & Hin & Hn & Hs). rewrite (Hd d' d Hin Hself Hn) in Hs. fold key in Hs. rewrite Ek in Hs. by destruct Hs. }
  eexists. split; [done|]. split; cbn; [done|by apply (Hins 0)|]. intros m [->%elem_of_singleton|Hm]%elem_of_union.
  - exists d. split_and!; [done|done|]. fold key. by rewrite lookup_insert_eq.
  - destruct (Hr' m Hm) as (d' & ? & ? & ?). exists d'. split_and!; try done.
    destruct (decide (key = label_key (ud_name d') (ud_labels d'))) as [<-|]; [by rewrite lookup_insert_eq|by rewrite lookup_insert_ne].
Qed.

(** The counters of scripts. If no metric is used with two sets of labels, and no two have names that sanitize alike, no increment
    panics, and each counter has what was added under its name and labels. *)
Theorem user_counters_exact ds helps :
  distinct_metrics ds ->
  exists u, add_deltas ds (user_new true helps) = Some u /\ forall key, default 0 (ur_counters u !! key) = wrap 64 (added key ds).
Proof.
  intros Hd. assert (exists u, add_deltas ds (user_new true helps) = Some u /\ users_counted ds u) as (u & Hu & [_ ? _]); [|by exists u].
  induction ds as [|d ds IH] using rev_ind.
  - eexists. split; [done|]. split; [done| |]; cbn.
    + intros key. by rewrite lookup_empty.
    + intros n Hn. by apply not_elem_of_empty in Hn.
  - destruct IH as (u & Hu & Hc); [intros d1 d2 H1 H2; apply Hd; apply elem_of_app; by left|].
    destruct (add_delta_counted ds d u Hd Hc) as (u' & Hu' & Hc'). exists u'. split; [|done].
    unfold add_deltas in *. rewrite foldl_app, Hu. cbn [foldl]. by rewrite Hu'.
Qed.

Lemma user_counters_exact_witness :
  let d n := {| ud_name := "block_hits"; ud_labels := {["category" := "eu"]}; ud_delta := n |} in
  exists u, add_deltas [d 1; d 2] (user_new true ∅) = Some u /\ default 0 (ur_counters u !! label_key "block_hits" {["category" := "eu"]}) = 3.
Proof.
  intros d. destruct (user_counters_exact [d 1; d 2] ∅) as (u & Hu & Hc).
  - intros d1 d2 [->|[->|[]%elem_of_nil]%elem_of_cons]%elem_of_cons [->|[->|[]%elem_of_nil]%elem_of_cons]%elem_of_cons _; reflexivity.
  - exists u. split; [exact Hu|]. rewrite Hc. reflexivity.
Defined.
