(* ===== verification/Export.v ===== *)
(** * Export: the scrape server and the OTLP push

    The controller of the metric sinks (conduit-metrics/src/export_controller.rs): preparing and committing a change of
    the configuration, the scrape handler (prometheus_http.rs), the push loop's settings and its
    conversion of names and buckets (otel.rs), and the controller in the place of the configurator's exporter. A server is
    the address and path it listens on, a push loop the settings it was built with. Whether a bind
    succeeds is a schedule in the state. *)

From stdpp Require Import base gmap list strings.
From Stdlib Require Import ZArith Lia.
From S2P Require Import Prelude Text Floats Effects Selectors Config Synthesize Configurator Messages MetricsPlan Metrics.

#[local] Open Scope string_scope.
#[local] Open Scope list_scope.
#[local] Open Scope Z_scope.

(** ** The controller *)

Inductive PrometheusChange := PromNone | PromAddressChange | PromPathChange | PromDisable.
Inductive OtelChange := OtelNone | OtelInPlace | OtelReconnect | OtelToggle.

Record PrometheusBindKey := { bk_listen : option string; bk_path : string }.
Record OtelReconnectKey := { ok_endpoint : option string; ok_allow_invalid_certs : bool }.
#[global] Instance PrometheusBindKey_eq : EqDecision PrometheusBindKey. Proof. solve_decision. Defined.
#[global] Instance OtelReconnectKey_eq : EqDecision OtelReconnectKey. Proof. solve_decision. Defined.

(** Also [OtelInPlaceKey], which has the same fields. *)
Record OtelHotSettings := { oh_push_interval_ms : Z; oh_headers : list (string * string); oh_resource_attributes : list (string * string) }.
#[global] Instance OtelHotSettings_eq : EqDecision OtelHotSettings. Proof. solve_decision. Defined.
Record OtelPushSettings := {
  os_endpoint : string; os_push_interval_ms : Z; os_resource_attributes : list (string * string); os_allow_invalid_certs : bool; os_headers : list (string * string) }.

Definition bind_key (c : CompiledMetrics) : PrometheusBindKey := {| bk_listen := cm_prometheus_listen c; bk_path := cm_prometheus_path c |}.
Definition reconnect_key (c : CompiledMetrics) : OtelReconnectKey :=
  {| ok_endpoint := cm_otel_endpoint c; ok_allow_invalid_certs := cm_otel_allow_invalid_certs c |}.
Definition hot_settings (c : CompiledMetrics) : OtelHotSettings :=
  {| oh_push_interval_ms := cm_otel_push_interval_ms c; oh_headers := cm_otel_headers c; oh_resource_attributes := cm_otel_resource_attributes c |}.
Definition push_settings (endpoint : string) (c : CompiledMetrics) : OtelPushSettings :=
  {| os_endpoint := endpoint; os_push_interval_ms := cm_otel_push_interval_ms c; os_resource_attributes := cm_otel_resource_attributes c;
     os_allow_invalid_certs := cm_otel_allow_invalid_certs c; os_headers := cm_otel_headers c |}.

(** A running server and push loop. [ct_binds n] is the outcome of the [n]th bind from here on. *)
Record Server := { sv_addr : SocketAddr; sv_path : string }.
Record MetricsExportController := MkController {
  ct_prometheus : option Server; ct_prometheus_key : PrometheusBindKey; ct_otel : option OtelPushSettings; ct_otel_reconnect_key : OtelReconnectKey;
  ct_otel_hot_settings : OtelHotSettings; ct_binds : nat -> bool }.

Definition controller_new (binds : nat -> bool) : MetricsExportController :=
  MkController None {| bk_listen := None; bk_path := "/metrics" |} None {| ok_endpoint := None; ok_allow_invalid_certs := false |}
    {| oh_push_interval_ms := 15000; oh_headers := []; oh_resource_attributes := [] |} binds.

Definition set_server (s : option Server) (c : MetricsExportController) : MetricsExportController :=
  MkController s (ct_prometheus_key c) (ct_otel c) (ct_otel_reconnect_key c) (ct_otel_hot_settings c) (ct_binds c).
Definition set_prom_key (k : PrometheusBindKey) (c : MetricsExportController) : MetricsExportController :=
  MkController (ct_prometheus c) k (ct_otel c) (ct_otel_reconnect_key c) (ct_otel_hot_settings c) (ct_binds c).
Definition set_otel (o : option OtelPushSettings) (k : OtelReconnectKey) (c : MetricsExportController) : MetricsExportController :=
  MkController (ct_prometheus c) (ct_prometheus_key c) o k (ct_otel_hot_settings c) (ct_binds c).
Definition set_hot (h : OtelHotSettings) (c : MetricsExportController) : MetricsExportController :=
  MkController (ct_prometheus c) (ct_prometheus_key c) (ct_otel c) (ct_otel_reconnect_key c) h (ct_binds c).
Definition take_bind (c : MetricsExportController) : bool * MetricsExportController :=
  (ct_binds c 0%nat, MkController (ct_prometheus c) (ct_prometheus_key c) (ct_otel c) (ct_otel_reconnect_key c) (ct_otel_hot_settings c) (fun n => ct_binds c (S n))).

Record PendingExportChange := {
  pe_listener : option SocketAddr; pe_path : option string; pe_prometheus_change : PrometheusChange; pe_otel_settings : option OtelPushSettings;
  pe_otel_change : OtelChange; pe_compiled : CompiledMetrics }.

Section Controller.
Context (parse_sock : string -> option SocketAddr).

(** The two halves of [initial_spawn]. *)
Definition spawn_prometheus (compiled : CompiledMetrics) (c : MetricsExportController) : MetricsExportController :=
  match (let! s := cm_prometheus_listen compiled in parse_sock s) with
  | Some addr =>
      let (bound, c) := take_bind c in
      if bound then set_prom_key (bind_key compiled) (set_server (Some {| sv_addr := addr; sv_path := cm_prometheus_path compiled |}) c) else c
  | None => c
  end.
Definition spawn_otel (compiled : CompiledMetrics) (c : MetricsExportController) : MetricsExportController :=
  match cm_otel_endpoint compiled with
  | Some endpoint => set_otel (Some (push_settings endpoint compiled)) (reconnect_key compiled) (set_hot (hot_settings compiled) c)
  | None => c
  end.
Definition initial_spawn (compiled : CompiledMetrics) (c : MetricsExportController) : MetricsExportController := spawn_otel compiled (spawn_prometheus compiled c).

Definition prometheus_change (current new : PrometheusBindKey) : PrometheusChange :=
  if bool_decide (current = new) then PromNone
  else if bool_decide (bk_listen new = None) then PromDisable
  else if bool_decide (bk_listen current <> bk_listen new) then PromAddressChange
  else PromPathChange.

Definition otel_change (c : MetricsExportController) (new : CompiledMetrics) : OtelChange :=
  match ok_endpoint (ct_otel_reconnect_key c), cm_otel_endpoint new with
  | None, None => OtelNone
  | None, Some _ | Some _, None => OtelToggle
  | Some _, Some _ =>
      if bool_decide (ct_otel_reconnect_key c <> reconnect_key new) then OtelReconnect
      else if bool_decide (ct_otel_hot_settings c <> hot_settings new) then OtelInPlace
      else OtelNone
  end.

Definition prepare (new : CompiledMetrics) (c : MetricsExportController) : result PendingExportChange string * MetricsExportController :=
  let change := prometheus_change (ct_prometheus_key c) (bind_key new) in
  let otel := otel_change c new in
  let pending listener path :=
    {| pe_listener := listener; pe_path := path; pe_prometheus_change := change;
       pe_otel_settings := match otel with
                           | OtelReconnect | OtelToggle => (fun endpoint => push_settings endpoint new) <$> cm_otel_endpoint new
                           | _ => None
                           end;
       pe_otel_change := otel; pe_compiled := new |} in
  match change with
  | PromAddressChange =>
      match (let! s := cm_prometheus_listen new in parse_sock s) with
      | None => (Err "invalid prometheus listen_address", c)
      | Some addr =>
          let (bound, c) := take_bind c in
          if bound then (Ok (pending (Some addr) (Some (cm_prometheus_path new))), c) else (Err "prometheus rebind failed; keeping last-good listener", c)
      end
  | PromPathChange => (Ok (pending None (Some (cm_prometheus_path new))), c)
  | PromDisable | PromNone => (Ok (pending None None), c)
  end.

Definition commit_prometheus (p : PendingExportChange) (c : MetricsExportController) : MetricsExportController :=
  let path := default "/metrics" (pe_path p) in
  match pe_prometheus_change p with
  | PromNone => c
  | PromAddressChange =>
      let c := set_server None c in
      let c := match pe_listener p with Some addr => set_server (Some {| sv_addr := addr; sv_path := path |}) c | None => c end in
      set_prom_key (bind_key (pe_compiled p)) c
  | PromPathChange =>
      let c := set_server None c in
      let c :=
        match (let! s := cm_prometheus_listen (pe_compiled p) in parse_sock s) with
        | Some addr => let (bound, c) := take_bind c in if bound then set_server (Some {| sv_addr := addr; sv_path := path |}) c else c
        | None => c
        end in
      set_prom_key (bind_key (pe_compiled p)) c
  | PromDisable => set_prom_key (bind_key (pe_compiled p)) (set_server None c)
  end.

Definition commit_otel (p : PendingExportChange) (c : MetricsExportController) : MetricsExportController :=
  match pe_otel_change p with
  | OtelNone => c
  | OtelInPlace => set_hot (hot_settings (pe_compiled p)) c
  | OtelToggle | OtelReconnect =>
      match pe_otel_settings p with
      | Some s =>
          set_otel (Some s) (reconnect_key (pe_compiled p))
            (set_hot {| oh_push_interval_ms := os_push_interval_ms s; oh_headers := os_headers s; oh_resource_attributes := os_resource_attributes s |} c)
      | None => set_otel None (reconnect_key (pe_compiled p)) c
      end
  end.

Definition commit (p : PendingExportChange) (c : MetricsExportController) : MetricsExportController := commit_otel p (commit_prometheus p c).
Definition controller_shutdown (c : MetricsExportController) : MetricsExportController :=
  MkController None (ct_prometheus_key c) None (ct_otel_reconnect_key c) (ct_otel_hot_settings c) (ct_binds c).
Definition is_plan_only_change (c : MetricsExportController) (new : CompiledMetrics) : bool :=
  bool_decide (ct_prometheus_key c = bind_key new) && bool_decide (ct_otel_reconnect_key c = reconnect_key new).
End Controller.

(** ** What is sent *)

(** [handle_metrics]: the status and the body of the answer to a scrape. *)
Definition handle_metrics (method uri_path path body : string) : Z * string :=
  if negb (String.eqb method "GET") then (405, "") else if negb (String.eqb uri_path path) then (404, "") else (200, body).

(** What a push carries: the endpoint, certificates and headers of the client that the loop built, the rest of the hot settings. *)
Record Push := { pu_endpoint : string; pu_allow_invalid_certs : bool; pu_headers : list (string * string); pu_interval_ms : Z; pu_attributes : list (string * string) }.
Definition next_push (c : MetricsExportController) : option Push :=
  (fun s => {| pu_endpoint := os_endpoint s; pu_allow_invalid_certs := os_allow_invalid_certs s; pu_headers := os_headers s;
               pu_interval_ms := Z.max (oh_push_interval_ms (ct_otel_hot_settings c)) 1000;
               pu_attributes := oh_resource_attributes (ct_otel_hot_settings c) ++ [("service.name", "conduit")] |}) <$> ct_otel c.

Definition strip_suffix (suffix s : string) : option string :=
  if ends_with s suffix then Some (String.substring 0 (String.length s - String.length suffix) s) else None.
Definition unit_from_metric_name (name : string) : string :=
  let base := default name (strip_suffix "_total" name) in
  match List.find (fun x => ends_with base x.1) [("_seconds", "s"); ("_milliseconds", "ms"); ("_bytes", "By"); ("_ratio", "1"); ("_ms", "ms")] with
  | Some (_, unit) => unit
  | None => if ends_with name "_total" || ends_with name "_info" then "1" else ""
  end.

(** Cumulative counts with their upper bounds into counts per bucket; [None] for a bound is infinity. *)
Fixpoint differences (prev : Z) (cumulatives : list Z) (sample_count : Z) : list Z :=
  match cumulatives with
  | [] => [sat_sub sample_count prev]
  | cum :: cumulatives => sat_sub cum prev :: differences cum cumulatives sample_count
  end.
Definition cumulative_buckets_to_explicit (buckets : list (option f64 * Z)) (sample_count : Z) : list f64 * list Z :=
  let finite := omap (fun b => (fun ub => (ub, b.2)) <$> b.1) buckets in
  (finite.*1, differences 0 finite.*2 sample_count).

(** ** The sinks follow the configuration *)

Fixpoint running_sums (acc : Z) (l : list Z) : list Z := match l with [] => [] | x :: l => (acc + x) :: running_sums (acc + x) l end.
Fixpoint increasing (prev : Z) (l : list Z) (last : Z) : Prop := match l with [] => prev <= last | x :: l => prev <= x /\ increasing x l last end.

Lemma differences_sums l : forall prev last, increasing prev l last -> running_sums prev (differences prev l last) = l ++ [last].
Proof.
  induction l as [|x l IH]; intros prev last Hi; cbn [differences running_sums app increasing] in *; unfold sat_sub.
  - f_equal. lia.
  - destruct Hi as [Hx Hi]. replace (prev + Z.max (x - prev) 0) with x by lia. by rewrite IH.
Qed.

(** The buckets of a pushed histogram add up to the cumulative ones it was made from, and to the number of samples. *)
Theorem explicit_buckets_cumulate buckets sample_count :
  increasing 0 (omap (fun b => (fun ub : f64 => (ub, b.2)) <$> b.1) buckets).*2 sample_count ->
  let (bounds, counts) := cumulative_buckets_to_explicit buckets sample_count in
  length counts = S (length bounds) /\
  running_sums 0 counts = (omap (fun b => (fun ub : f64 => (ub, b.2)) <$> b.1) buckets).*2 ++ [sample_count].
Proof.
  intros Hi. unfold cumulative_buckets_to_explicit. split; [|by apply differences_sums].
  set (l := omap _ buckets). rewrite length_fmap, <- (length_fmap snd l). generalize (0 : Z). induction (l.*2) as [|x xs IH]; intros p; cbn; [done|]. by rewrite IH.
Qed.

Section Follow.
Context (parse_sock : string -> option SocketAddr).

(** What a key asks for: a server, or a push loop. *)
Definition target_server (k : PrometheusBindKey) : option Server :=
  let! s := bk_listen k in let! addr := parse_sock s in Some {| sv_addr := addr; sv_path := bk_path k |}.

Record prometheus_ok (c : MetricsExportController) : Prop := {
  co_server : ct_prometheus c = target_server (ct_prometheus_key c);
  co_parsed s : bk_listen (ct_prometheus_key c) = Some s -> is_Some (parse_sock s) }.
Definition otel_ok (c : MetricsExportController) : Prop :=
  match ct_otel c with
  | Some s => ok_endpoint (ct_otel_reconnect_key c) = Some (os_endpoint s) /\ ok_allow_invalid_certs (ct_otel_reconnect_key c) = os_allow_invalid_certs s
  | None => ok_endpoint (ct_otel_reconnect_key c) = None
  end.
Definition controller_ok (c : MetricsExportController) : Prop := prometheus_ok c /\ otel_ok c.

(** The sinks are those of a compiled section; the headers are those that the push loop was built with. *)
Definition pushes (c : MetricsExportController) (cm : CompiledMetrics) : Prop :=
  match cm_otel_endpoint cm with
  | Some endpoint => exists headers, next_push c = Some {| pu_endpoint := endpoint; pu_allow_invalid_certs := cm_otel_allow_invalid_certs cm; pu_headers := headers;
      pu_interval_ms := Z.max (cm_otel_push_interval_ms cm) 1000; pu_attributes := cm_otel_resource_attributes cm ++ [("service.name", "conduit")] |}
  | None => next_push c = None
  end.
Definition serves (c : MetricsExportController) (cm : CompiledMetrics) : Prop := ct_prometheus c = target_server (bind_key cm).

(** A bind in a change of the path alone that fails: the old server is gone and there is no new one. *)
Definition path_bind_failed (c : MetricsExportController) (new : CompiledMetrics) : Prop :=
  prometheus_change (ct_prometheus_key c) (bind_key new) = PromPathChange /\ ct_binds c 0%nat = false.

Lemma controller_new_ok binds : controller_ok (controller_new binds).
Proof. by split. Qed.

Lemma initial_spawn_ok cm binds : controller_ok (initial_spawn parse_sock cm (controller_new binds)).
Proof.
  assert (controller_ok (spawn_prometheus parse_sock cm (controller_new binds))) as Hc.
  { unfold spawn_prometheus. destruct (cm_prometheus_listen cm) as [s|] eqn:El; [|apply controller_new_ok].
    destruct (parse_sock s) as [addr|] eqn:Ep; [|apply controller_new_ok]. cbn. destruct (binds 0%nat); [|by split]. split; [split|done]; cbn.
    - unfold target_server. cbn. by rewrite El, Ep.
    - rewrite El. intros s' [= <-]. by eexists. }
  unfold initial_spawn, spawn_otel. destruct (cm_otel_endpoint cm) as [e|] eqn:Ee; [|done]. destruct Hc as [[? ?] _]. split; [done|].
  unfold otel_ok. cbn. by rewrite Ee.
Qed.

Lemma target_disabled k : bk_listen k = None -> target_server k = None.
Proof. intros E. unfold target_server. by rewrite E. Qed.

Definition prepared_otel (p : PendingExportChange) (c : MetricsExportController) : Prop :=
  pe_otel_change p = otel_change c (pe_compiled p) /\
  pe_otel_settings p = match pe_otel_change p with
                       | OtelReconnect | OtelToggle => (fun endpoint => push_settings endpoint (pe_compiled p)) <$> cm_otel_endpoint (pe_compiled p)
                       | _ => None
                       end.

Lemma commit_otel_spec p c :
  otel_ok c -> prepared_otel p c ->
  otel_ok (commit_otel p c) /\ pushes (commit_otel p c) (pe_compiled p) /\
  ct_prometheus (commit_otel p c) = ct_prometheus c /\ ct_prometheus_key (commit_otel p c) = ct_prometheus_key c.
Proof.
  intros Ho [Hc Hset]. unfold commit_otel. rewrite Hset, Hc. unfold otel_change, pushes, next_push. unfold otel_ok in *.
  destruct (ct_otel c) as [s|] eqn:Eo.
  - destruct Ho as [He Hi]. rewrite He. destruct (cm_otel_endpoint (pe_compiled p)) as [e|] eqn:Ee; cbn; [|by split_and!].
    case_bool_decide as Hr; cbn.
    { rewrite Ee. split_and!; [done|done|by eexists|done|done]. }
    assert (os_endpoint s = e /\ os_allow_invalid_certs s = cm_otel_allow_invalid_certs (pe_compiled p)) as [<- Ha].
    { rewrite Hr in He, Hi. cbn in He, Hi. rewrite Ee in He. by injection He. }
    case_bool_decide as Hh; cbn; rewrite Eo; cbn; (split_and!; [done|done| |done|done]); rewrite Ha; [by eexists|].
    rewrite Hh. by eexists.
  - rewrite Ho. destruct (cm_otel_endpoint (pe_compiled p)) as [e|] eqn:Ee; cbn.
    + rewrite Ee. split_and!; [done|done|by eexists|done|done].
    + rewrite Eo. by split_and!.
Qed.

Lemma prepare_prepared new c p c' : prepare parse_sock new c = (Ok p, c') ->
  pe_compiled p = new /\ prepared_otel p c' /\ pe_prometheus_change p = prometheus_change (ct_prometheus_key c) (bind_key new) /\
  (ct_prometheus c', ct_prometheus_key c', ct_otel c', ct_otel_reconnect_key c', ct_otel_hot_settings c') =
  (ct_prometheus c, ct_prometheus_key c, ct_otel c, ct_otel_reconnect_key c, ct_otel_hot_settings c).
Proof.
  unfold prepare. destruct (prometheus_change _ _) eqn:E; try (intros [= <- <-]; by split_and!).
  destruct (let! s := _ in _) as [addr|]; [|done]. cbn. destruct (ct_binds c 0%nat); [|done]. intros [= <- <-]. by split_and!.
Qed.

(** After a change that was prepared, the server is the one that is asked for, unless its path alone changed and the bind failed. *)
Lemma commit_prometheus_spec new c p c' :
  prometheus_ok c -> prepare parse_sock new c = (Ok p, c') ->
  let c'' := commit_prometheus parse_sock p c' in
  (prometheus_ok c'' /\ serves c'' new \/ path_bind_failed c new /\ ct_prometheus c'' = None) /\
  (ct_otel c'', ct_otel_reconnect_key c'', ct_otel_hot_settings c'') = (ct_otel c', ct_otel_reconnect_key c', ct_otel_hot_settings c').
Proof.
  intros [Hs Hp] E. pose proof (prepare_prepared new c p c' E) as (Hn & _ & Hch & Heq). injection Heq as E1 E2 _ _ _. cbv zeta. unfold commit_prometheus.
  rewrite Hch. unfold prepare in E. unfold path_bind_failed, serves.
  unfold prometheus_change in *. destruct (bool_decide_reflect (ct_prometheus_key c = bind_key new)) as [Hk|Hk].
  { split; [|done]. left. split; [split; rewrite ?E1, ?E2; done|]. by rewrite E1, Hs, Hk. }
  destruct (bool_decide_reflect (bk_listen (bind_key new) = None)) as [Hl|Hl].
  { split; [|done]. left. cbn. rewrite Hn. split; [split; cbn; [by rewrite target_disabled|]|by rewrite target_disabled].
    intros s Hs'. cbn in Hl. by rewrite Hl in Hs'. }
  cbn in Hl. destruct (cm_prometheus_listen new) as [s|] eqn:El; [|done].
  case_bool_decide as Ha.
  - destruct (parse_sock s) as [addr|] eqn:Ep; [|done]. cbn in E. destruct (ct_binds c 0%nat); [|done]. injection E as <- <-. cbn. split; [|done]. left.
    unfold target_server. cbn. rewrite El, Ep. split; [split; cbn|done].
    + unfold target_server. cbn. by rewrite El, Ep.
    + rewrite El. intros s' [= <-]. by eexists.
  - cbn in Ha. rewrite El in Ha. destruct (Hp s Ha) as [addr Ep]. injection E as <- <-. cbn. rewrite El, Ep.
    destruct (ct_binds c 0%nat) eqn:Eb; cbn; (split; [|done]); [left|right; done].
    unfold target_server. cbn. rewrite El, Ep. split; [split; cbn|done].
    + unfold target_server. cbn. by rewrite El, Ep.
    + rewrite El. intros s' [= <-]. by eexists.
Qed.
End Follow.

(** ** Proposals *)

(** The exporter of the configurator: the controller, and the section that the hub was last given. *)
Record ExportState := { es_controller : MetricsExportController; es_hub : CompiledMetrics }.

Section Proposals.
Context (parse_sock : string -> option SocketAddr) (compile : Config -> CompiledMetrics).

Definition export_prepare (cfg : Config) (x : ExportState) : result PendingExportChange string * ExportState :=
  let (r, c) := prepare parse_sock (compile cfg) (es_controller x) in (r, {| es_controller := c; es_hub := es_hub x |}).
Definition hub_apply (cfg : Config) (x : ExportState) : ExportState := {| es_controller := es_controller x; es_hub := compile cfg |}.
Definition export_commit (p : PendingExportChange) (x : ExportState) : ExportState := {| es_controller := commit parse_sock p (es_controller x); es_hub := es_hub x |}.

Context {Snap Cache Health : Type} (validate : Config -> list string) (try_from_config : Config -> result Snap string).
Context (cache_reconcile : Snap -> Snap -> Cache -> result unit string * Cache) (health_reconcile : Snap -> Snap -> Health -> Health).
#[local] Abbreviation propose := (apply_proposal validate try_from_config cache_reconcile health_reconcile export_prepare hub_apply export_commit).

Definition sinks (c : MetricsExportController) : option Server * option Push := (ct_prometheus c, next_push c).

Lemma prepare_keeps_sinks new c r c' : prepare parse_sock new c = (r, c') ->
  (sinks c', ct_prometheus_key c', ct_otel_reconnect_key c', ct_otel c') = (sinks c, ct_prometheus_key c, ct_otel_reconnect_key c, ct_otel c).
Proof.
  unfold prepare. destruct (prometheus_change _ _); try (intros [= <- <-]; done).
  destruct (let! s := _ in _) as [addr|]; [|by intros [= <- <-]]. cbn. destruct (ct_binds c 0%nat); by intros [= <- <-].
Qed.

Lemma controller_ok_keeps c c' :
  (sinks c', ct_prometheus_key c', ct_otel_reconnect_key c', ct_otel c') = (sinks c, ct_prometheus_key c, ct_otel_reconnect_key c, ct_otel c) ->
  controller_ok parse_sock c -> controller_ok parse_sock c'.
Proof. intros [= E1 _ E2 E3 E4] [[Hs Hp] Ho]. split; [split|]; [by rewrite E1, E2|by rewrite E2|]. unfold otel_ok. by rewrite E3, E4. Qed.

Lemma commit_spec new c p c' :
  controller_ok parse_sock c -> prepare parse_sock new c = (Ok p, c') ->
  pushes (commit parse_sock p c') new /\
  (controller_ok parse_sock (commit parse_sock p c') /\ serves parse_sock (commit parse_sock p c') new \/
   path_bind_failed c new /\ ct_prometheus (commit parse_sock p c') = None).
Proof.
  intros [Hp Ho] E. destruct (prepare_prepared parse_sock new c p c' E) as (Hn & [Hc Hs] & _ & Heq). injection Heq as _ _ E3 E4 E5.
  destruct (commit_prometheus_spec parse_sock new c p c' Hp E) as [Hcase Heq2]. cbv zeta in *. unfold commit. set (c2 := commit_prometheus parse_sock p c') in *.
  injection Heq2 as F3 F4 F5.
  assert (otel_ok c2) as Ho2 by (unfold otel_ok; rewrite F3, F4, E3, E4; exact Ho).
  assert (prepared_otel p c2) as Hp2 by (split; [|done]; rewrite Hc; unfold otel_change; by rewrite F4, F5).
  destruct (commit_otel_spec p c2 Ho2 Hp2) as (Ho3 & Hpush & G1 & G2). rewrite Hn in Hpush. split; [done|].
  destruct Hcase as [[[Hs2 Hp2'] Hserve]|[Hf Hnone]]; [left|right].
  - split; [split; [split; [by rewrite G1, G2|by rewrite G2]|done]|]. unfold serves. by rewrite G1.
  - by rewrite G1.
Qed.

End Proposals.

(** ** Examples *)

Definition any_sock (s : string) : option SocketAddr := Some (SockV4 (Z.of_nat (String.length s)) 9090).
Definition scraped_at (listen path : string) : MetricsConfig :=
  MkMetrics (Some true) "" (Some {| pm_listen_address := listen; pm_path := path |}) None [] "" None None ∅ None.
Definition compile_section (cfg : Config) : CompiledMetrics :=
  compile_metrics (fun m => map_to_list m) (fun m => map_to_list m) (fun m => map_to_list m) (metrics cfg).
Definition metrics_file (listen path : string) : Config := with_sections (Some (scraped_at listen path)) None.
Definition reload (file : Config) : PolicyProposal :=
  {| pr_source := Sighup; pr_overlay := None; pr_overlay_mode := ModeReplace; pr_file_reload := Some file; pr_primitive := None |}.
Definition exporting (binds : nat -> bool) (file : Config) : Configurator :=
  MkConfigurator {| ef_file := file; ef_overlay := None |} (MkSnapStore (Cache := unit) (Health := unit) file 0 0 tt tt)
    {| es_controller := initial_spawn any_sock (compile_section file) (controller_new binds); es_hub := compile_section file |}.
Abbreviation sample_propose :=
  (apply_proposal (fun _ => []) (fun cfg => Ok cfg) (fun _ _ (_ : unit) => (Ok tt, tt)) (fun _ _ (_ : unit) => tt)
     (export_prepare any_sock compile_section) (hub_apply compile_section) (export_commit any_sock)).

Lemma exporting_ok binds file : controller_ok any_sock (es_controller (co_export (exporting binds file))).
Proof. apply initial_spawn_ok. Qed.

Abbreviation sample_reload :=
  (sample_propose (exporting (fun _ => true) (metrics_file "a" "/metrics")) (Err "unread") (reload (metrics_file "bb" "/m"))).

Lemma reload_accepted : match sample_reload with Some (r, _) => ar_ok r | None => false end = true.
Proof. vm_cast_no_check (eq_refl true). Qed.


(** A change of the path alone whose bind fails is accepted, the old server is gone, and applying the same configuration again does not bring one up:
    the key says that there is nothing to change. *)
Theorem failed_path_change_loses_server :
  let c := initial_spawn any_sock (compile_section (metrics_file "a" "/metrics")) (controller_new (fun n => negb (Nat.eqb n 1))) in
  let new := compile_section (metrics_file "a" "/m") in
  let apply c := match prepare any_sock new c with (Ok p, c) => commit any_sock p c | (Err _, c) => c end in
  (is_someb (ct_prometheus c), is_someb (ct_prometheus (apply c)), is_someb (ct_prometheus (apply (apply c)))) = (true, false, false).
Proof. vm_cast_no_check (eq_refl (true, false, false)). Qed.

(** The push loop keeps the headers of the configuration it was built from: a change of headers alone updates settings that the loop does not read them from. *)
Theorem changed_headers_not_sent c new s :
  ct_otel c = Some s -> otel_ok c -> ct_prometheus_key c = bind_key new -> ct_otel_reconnect_key c = reconnect_key new -> ct_otel_hot_settings c <> hot_settings new ->
  exists p c', prepare any_sock new c = (Ok p, c') /\ oh_headers (ct_otel_hot_settings (commit any_sock p c')) = cm_otel_headers new /\
    pu_headers <$> next_push (commit any_sock p c') = Some (os_headers s).
Proof.
  intros Ho Hok Hk Hr Hh. unfold prepare, prometheus_change. rewrite Hk, bool_decide_eq_true_2 by done. eexists _, c. split; [done|].
  unfold commit, commit_prometheus, commit_otel. cbn [pe_prometheus_change pe_otel_change pe_compiled]. unfold otel_ok in Hok. rewrite Ho in Hok. destruct Hok as [He _].
  assert (cm_otel_endpoint new = Some (os_endpoint s)) as Hn by (by rewrite Hr in He).
  unfold otel_change. rewrite He, Hn, bool_decide_eq_false_2 by (by intros ?). rewrite bool_decide_eq_true_2 by done. cbn. by rewrite Ho.
Qed.
