(* ===== verification/Yaml.v ===== *)
(** * Yaml: documents, and structs that are read from and written to them

    The configuration file is read and written with serde and serde_yaml. The library is the class
    [Yaml]: a document is a tree of nodes, the accessors are what a visitor is given for a node, and the
    constructors what the serializer makes. Only what the library documents is assumed, that a value
    that was written is read back ([YamlLaws]); what the accessors do with other nodes, such as a number where a
    string is expected, is left open. The derived implementations of [Serialize] and [Deserialize] are [Codec]s:
    a struct is the list of its fields with their attributes, and [struct_lawful] says when the attributes agree. *)

From stdpp Require Import base gmap list strings.
From Stdlib Require Import ZArith Lia.
From S2P Require Import Prelude Floats.

#[local] Open Scope string_scope.
#[local] Open Scope list_scope.
#[local] Open Scope Z_scope.

(** ** The library *)

Class Yaml := {
  Node : Type;
  Document : Type;
  y_null : Node;
  y_bool : bool -> Node;
  y_uint : Z -> Node;
  y_float : f64 -> Node;
  y_str : string -> Node;
  y_seq : list Node -> Node;
  y_map : list (Node * Node) -> Node;
  get_bool : Node -> option bool;
  get_uint : Node -> option Z;
  get_float : Node -> option f64;
  get_str : Node -> option string;
  (** [None] for null. *)
  get_option : Node -> option Node;
  get_seq : Node -> option (list Node);
  get_map : Node -> option (list (Node * Node));
  (** The entries that are handed to the visitor of a struct with these fields. *)
  get_struct : list string -> Node -> option (list (Node * Node));
  (** The buffered form of a node, from which untagged enums and flattened fields are read. *)
  content : Node -> Node;
  (** The type [Value]; a map with the same key twice is rejected. *)
  get_value : Node -> option Node;
  from_str : Document -> option Node;
  to_string : Node -> option Document;
}.

(** What a program writes, with no key twice in a map. *)
#[local] Set Warnings "-register-all".
Inductive distinct_keys {Y : Yaml} : Node -> Prop :=
| distinct_null : distinct_keys y_null
| distinct_bool b : distinct_keys (y_bool b)
| distinct_uint n : distinct_keys (y_uint n)
| distinct_float x : distinct_keys (y_float x)
| distinct_str s : distinct_keys (y_str s)
| distinct_seq l : Forall distinct_keys l -> distinct_keys (y_seq l)
| distinct_map (l : list (string * Node)) :
    NoDup l.*1 -> Forall (fun e => distinct_keys e.2) l -> distinct_keys (y_map ((fun e => (y_str e.1, e.2)) <$> l)).

Class YamlLaws (Y : Yaml) := {
  get_bool_written b : get_bool (y_bool b) = Some b;
  get_uint_written n : fits 64 n -> get_uint (y_uint n) = Some n;
  get_uint_str s : get_uint (y_str s) = None;
  get_float_written x : get_float (y_float x) = Some x;
  get_str_written s : get_str (y_str s) = Some s;
  get_option_null : get_option y_null = None;
  get_option_bool b : get_option (y_bool b) = Some (y_bool b);
  get_option_uint n : get_option (y_uint n) = Some (y_uint n);
  get_option_float x : get_option (y_float x) = Some (y_float x);
  get_option_str s : get_option (y_str s) = Some (y_str s);
  get_option_seq l : get_option (y_seq l) = Some (y_seq l);
  get_option_map l : get_option (y_map l) = Some (y_map l);
  get_seq_written l : get_seq (y_seq l) = Some l;
  get_seq_map l : get_seq (y_map l) = None;
  get_map_written l : get_map (y_map l) = Some l;
  get_struct_written names l : get_struct names (y_map l) = Some l;
  content_bool b : content (y_bool b) = y_bool b;
  content_uint n : content (y_uint n) = y_uint n;
  content_float x : content (y_float x) = y_float x;
  content_str s : content (y_str s) = y_str s;
  content_null : content y_null = y_null;
  content_seq l : content (y_seq l) = y_seq (content <$> l);
  content_map l : content (y_map l) = y_map ((fun e => (content e.1, content e.2)) <$> l);
  get_value_written n : distinct_keys n -> get_value n = Some n;
  text_roundtrip n : exists t, to_string n = Some t /\ from_str t = Some n;
}.

(** A [HashMap] is written in its own order. *)
Class HashOrder := {
  hash_iter : forall A, gmap string A -> list (string * A);
  hash_iter_perm : forall A (m : gmap string A), hash_iter A m ≡ₚ map_to_list m;
}.
Arguments hash_iter {_ A} m.

(** ** Codecs *)

Section Codecs.
Context {Y : Yaml}.

(** How a type is written and read, and the values that the Rust type has. *)
Record Codec (A : Type) := MkCodec { ser : A -> Node; de : Node -> option A; holds : A -> Prop }.
#[global] Arguments MkCodec {A}.
#[global] Arguments ser {A}.
#[global] Arguments de {A}.
#[global] Arguments holds {A}.

Definition bool_ : Codec bool := MkCodec y_bool get_bool (fun _ => True).
Definition uint (w : Z) : Codec Z :=
  MkCodec y_uint (fun n => let! z := get_uint n in if (0 <=? z) && (z <? 2 ^ w) then Some z else None) (fun z => fits w z).
Definition u32 : Codec Z := uint 32.
Definition u64 : Codec Z := uint 64.
Definition float_ : Codec f64 := MkCodec y_float get_float (fun _ => True).
Definition string_ : Codec string := MkCodec y_str get_str (fun _ => True).

Definition option_ {A} (c : Codec A) : Codec (option A) := MkCodec
  (fun o => match o with Some a => ser c a | None => y_null end)
  (fun n => match get_option n with Some n => Some <$> de c n | None => Some None end)
  (fun o => match o with Some a => holds c a | None => True end).

Definition vec {A} (c : Codec A) : Codec (list A) := MkCodec
  (fun l => y_seq (ser c <$> l)) (fun n => let! l := get_seq n in mapM (de c) l) (Forall (holds c)).

(** Reading the entries one by one; a later one with the same key replaces an earlier one. *)
Definition collect {A} (l : list (string * A)) : gmap string A := foldl (fun m e => <[e.1 := e.2]> m) ∅ l.
Definition entry {A} (c : Codec A) (e : Node * Node) : option (string * A) :=
  let! k := get_str e.1 in let! a := de c e.2 in Some (k, a).
Definition map_ `{HashOrder} {A} (c : Codec A) : Codec (gmap string A) := MkCodec
  (fun m => y_map ((fun e => (y_str e.1, ser c e.2)) <$> hash_iter m))
  (fun n => let! l := get_map n in collect <$> mapM (entry c) l)
  (map_Forall (fun _ => holds c)).

(** ** Structs *)

(** A field that is written, unless it is skipped. *)
Record Field := MkField { f_name : string; f_node : option Node; f_holds : Prop }.
Definition written (fs : list Field) : list (Node * Node) :=
  omap (fun f => (fun n => (y_str (f_name f), n)) <$> f_node f) fs.

Definition slot (k : string) (l : list (string * Node)) : option Node :=
  snd <$> List.find (fun e => String.eqb k e.1) l.

Definition count_key (k : string) (l : list (string * Node)) : nat := length (List.filter (fun e => String.eqb k e.1) l).
Definition named_entry (e : Node * Node) : option (string * Node) := let! k := get_str e.1 in Some (k, e.2).

(** [deny]: the attribute deny_unknown_fields. A known field must not be there twice. *)
Definition de_struct {A} (deny : bool) (names : list string) (build : list (string * Node) -> option A) (n : Node) : option A :=
  let! entries := get_struct names n in
  let! l := mapM named_entry entries in
  if forallb (fun k => Nat.leb (count_key k l) 1) names
     && (negb deny || forallb (fun e => bool_decide (e.1 ∈ names)) l)
  then build l else None.

(** A field of [R] with its attributes: [default] and [skip_serializing_if]. *)
Record Attr (R A : Type) := MkAttr {
  at_name : string; at_codec : Codec A; at_default : option A; at_skip : A -> bool; at_get : R -> A;
}.
#[global] Arguments MkAttr {R A}.
#[global] Arguments at_name {R A}.
#[global] Arguments at_codec {R A}.
#[global] Arguments at_default {R A}.
#[global] Arguments at_skip {R A}.
#[global] Arguments at_get {R A}.

Definition required {R A} (name : string) (c : Codec A) (get : R -> A) : Attr R A := MkAttr name c None (fun _ => false) get.
Definition defaulted {R A} (d : A) (name : string) (c : Codec A) (get : R -> A) : Attr R A := MkAttr name c (Some d) (fun _ => false) get.
Definition skipped {R A} (skip : A -> bool) (d : A) (name : string) (c : Codec A) (get : R -> A) : Attr R A :=
  MkAttr name c (Some d) skip get.

Definition write_attr {R A} (f : Attr R A) (r : R) : Field :=
  MkField (at_name f) (if at_skip f (at_get f r) then None else Some (ser (at_codec f) (at_get f r))) (holds (at_codec f) (at_get f r)).
(** A missing field has its default, or is an error. *)
Definition read_attr {R A} (f : Attr R A) (l : list (string * Node)) : option A :=
  match slot (at_name f) l with Some n => de (at_codec f) n | None => at_default f end.

(** The first fields of a struct [R], and what its constructor still needs. *)
Record Shape (R A : Type) := MkShape {
  sh_names : list string; sh_fields : R -> list Field; sh_read : list (string * Node) -> option A;
}.
#[global] Arguments MkShape {R A}.
#[global] Arguments sh_names {R A}.
#[global] Arguments sh_fields {R A}.
#[global] Arguments sh_read {R A}.

Definition fields_of {R A} (mk : A) : Shape R A := MkShape [] (fun _ => []) (fun _ => Some mk).
Definition with_field {R A B} (s : Shape R (A -> B)) (f : Attr R A) : Shape R B := MkShape
  (sh_names s ++ [at_name f]) (fun r => sh_fields s r ++ [write_attr f r])
  (fun l => let! g := sh_read s l in let! a := read_attr f l in Some (g a)).

Definition struct_codec {R} (deny : bool) (s : Shape R R) : Codec R := MkCodec
  (fun r => y_map (written (sh_fields s r))) (de_struct deny (sh_names s) (sh_read s)) (fun r => Forall f_holds (sh_fields s r)).
End Codecs.

Declare Scope serde_scope.
Notation "s ▷ f" := (with_field s f) (at level 50, left associativity) : serde_scope.

(** ** Laws of codecs *)

Section Laws.
Context {Y : Yaml} {L : YamlLaws Y}.

Class Lawful {A} (c : Codec A) := read_written a : holds c a -> de c (ser c a) = Some a.
Class NonNull {A} (c : Codec A) := option_written a : get_option (ser c a) = Some (ser c a).
(** What is written reads the same when it is buffered. *)
Class Plain {A} (c : Codec A) := content_written a : content (ser c a) = ser c a.

#[global] Instance bool_lawful : Lawful bool_.
Proof. intros b _. apply get_bool_written. Qed.
#[global] Instance uint_lawful w : (w <= 64)%Z -> Lawful (uint w).
Proof.
  intros Hw z Hz. cbn in *. unfold fits in Hz. assert (2 ^ w <= 2 ^ 64) by (apply Z.pow_le_mono_r; lia).
  rewrite get_uint_written by (unfold fits; lia). cbn. destruct (Z.leb_spec 0 z), (Z.ltb_spec z (2 ^ w)); done || lia.
Qed.
#[global] Instance u32_lawful : Lawful u32 := uint_lawful 32 ltac:(done).
#[global] Instance u64_lawful : Lawful u64 := uint_lawful 64 ltac:(done).
#[global] Instance float_lawful : Lawful float_.
Proof. intros b _. apply get_float_written. Qed.
#[global] Instance string_lawful : Lawful string_.
Proof. intros b _. apply get_str_written. Qed.

#[global] Instance bool_nonnull : NonNull bool_ := get_option_bool.
#[global] Instance u32_nonnull : NonNull u32 := get_option_uint.
#[global] Instance u64_nonnull : NonNull u64 := get_option_uint.
#[global] Instance float_nonnull : NonNull float_ := get_option_float.
#[global] Instance string_nonnull : NonNull string_ := get_option_str.
#[global] Instance vec_nonnull {A} (c : Codec A) : NonNull (vec c) := fun l => get_option_seq _.
#[global] Instance struct_nonnull {R} deny (s : Shape R R) : NonNull (struct_codec deny s) := fun r => get_option_map _.

#[global] Instance bool_plain : Plain bool_ := content_bool.
#[global] Instance u64_plain : Plain u64 := content_uint.
#[global] Instance string_plain : Plain string_ := content_str.
#[global] Instance vec_plain {A} (c : Codec A) : Plain c -> Plain (vec c).
Proof. intros Hc l. cbn. rewrite content_seq, <- list_fmap_compose. f_equal. apply list_fmap_ext. intros. apply Hc. Qed.
#[global] Instance option_plain {A} (c : Codec A) : Plain c -> Plain (option_ c).
Proof. intros Hc [a|]; cbn; [apply Hc|apply content_null]. Qed.

#[global] Instance option_lawful {A} (c : Codec A) : Lawful c -> NonNull c -> Lawful (option_ c).
Proof. intros Hc Hn [a|] Ha; cbn; [by rewrite option_written, read_written|by rewrite get_option_null]. Qed.

#[global] Instance vec_lawful {A} (c : Codec A) : Lawful c -> Lawful (vec c).
Proof.
  intros Hc l Hl. cbn. rewrite get_seq_written. cbn. induction Hl as [|a l Ha Hl IH]; [done|]. cbn.
  by rewrite read_written, IH.
Qed.

(** *** Maps *)

Lemma collect_app {A} (l k : list (string * A)) : NoDup (l ++ k).*1 ->
  foldl (fun (m : gmap string A) e => <[e.1 := e.2]> m) (list_to_map l) k = list_to_map (l ++ k).
Proof.
  revert l. induction k as [|[x a] k IH]; intros l Hn; [by rewrite app_nil_r|].
  assert (l ++ (x, a) :: k = (l ++ [(x, a)]) ++ k) as E by (by rewrite <- app_assoc). rewrite E in *.
  rewrite <- (IH _ Hn). cbn. f_equal. rewrite !fmap_app in Hn. apply NoDup_app in Hn as [Hn _].
  change (<[x := a]> (list_to_map l : gmap string A)) with (list_to_map ((x, a) :: l) : gmap string A).
  symmetry. apply list_to_map_proper; [by rewrite fmap_app|]. symmetry. apply Permutation_cons_append.
Qed.

Lemma collect_perm {A} (m : gmap string A) l : l ≡ₚ map_to_list m -> collect l = m.
Proof.
  intros Hl. assert (NoDup l.*1) as Hn by (rewrite Hl; apply NoDup_fst_map_to_list).
  unfold collect. change (∅ : gmap string A) with (list_to_map [] : gmap string A).
  rewrite collect_app by done. rewrite (list_to_map_proper _ _ Hn Hl). apply list_to_map_to_list.
Qed.

Lemma entries_written {A} (c : Codec A) l : Lawful c -> Forall (fun e => holds c e.2) l ->
  mapM (entry c) ((fun e => (y_str e.1, ser c e.2)) <$> l) = Some l.
Proof.
  intros Hc Hl. induction Hl as [|[k a] l Ha Hl IH]; [done|]. cbn in *. rewrite IH.
  unfold entry. cbn. by rewrite get_str_written; cbn; rewrite read_written.
Qed.

Context `{HashOrder}.

Lemma hash_iter_holds {A} (P : A -> Prop) (m : gmap string A) : map_Forall (fun _ => P) m -> Forall (fun e => P e.2) (hash_iter m).
Proof. intros Hm. rewrite hash_iter_perm. apply map_Forall_to_list in Hm. eapply Forall_impl; [exact Hm|]. by intros []. Qed.

#[global] Instance map_lawful {A} (c : Codec A) : Lawful c -> Lawful (map_ c).
Proof.
  intros Hc m Hm. cbn. rewrite get_map_written. cbn. rewrite entries_written by (done || by apply hash_iter_holds).
  cbn. f_equal. apply collect_perm, hash_iter_perm.
Qed.

(** *** Structs *)

Definition entries (fs : list Field) : list (string * Node) := omap (fun f => (fun n => (f_name f, n)) <$> f_node f) fs.

Lemma named_written fs : mapM named_entry (written fs) = Some (entries fs).
Proof.
  induction fs as [|[n [x|] p] fs IH]; cbn; [done| |exact IH]. unfold written in IH. rewrite IH.
  unfold named_entry. cbn. by rewrite get_str_written.
Qed.

Lemma entries_names fs : (entries fs).*1 `sublist_of` (f_name <$> fs).
Proof. induction fs as [|[n [x|] p] fs IH]; cbn; [constructor|by apply sublist_skip|by apply sublist_cons]. Qed.

Lemma count_key_le k l : NoDup l.*1 -> (count_key k l <= 1)%nat.
Proof.
  unfold count_key. induction l as [|[k' x] l IH]; cbn; [lia|]. intros [Hk Hl]%NoDup_cons.
  destruct (String.eqb_spec k k') as [->|]; [|by apply IH]. cbn.
  enough (List.filter (fun e => String.eqb k' e.1) l = []) as -> by (cbn; lia).
  clear IH Hl. induction l as [|[k x'] l IH]; cbn in *; [done|]. apply not_elem_of_cons in Hk as [Hne Hk].
  destruct (String.eqb_spec k' k); [done|]. by apply IH.
Qed.

Lemma slot_absent k l : k ∉ l.*1 -> slot k l = None.
Proof.
  unfold slot. induction l as [|[k' x] l IH]; cbn; [done|]. intros [Hk Hl]%not_elem_of_cons.
  destruct (String.eqb_spec k k'); [done|]. by apply IH.
Qed.

Lemma slot_entries fs f : NoDup (f_name <$> fs) -> f ∈ fs -> slot (f_name f) (entries fs) = f_node f.
Proof.
  induction fs as [|[n o p] fs IH]; [by intros _ ?%elem_of_nil|]. rewrite fmap_cons. intros [Hn Hfs]%NoDup_cons [->|Hf]%elem_of_cons.
  - destruct o as [x|]; [unfold slot; cbn; by rewrite String.eqb_refl|]. apply slot_absent.
    intros Hin. apply Hn. by eapply elem_of_submseteq, sublist_submseteq, entries_names.
  - rewrite <- (IH Hfs Hf). destruct o as [x|]; [|done]. unfold slot. cbn.
    destruct (String.eqb_spec (f_name f) n) as [<-|]; [|done]. destruct Hn. exact (list_elem_of_fmap_2 f_name _ _ Hf).
Qed.

Lemma de_written {R} deny names (build : list (string * Node) -> option R) fs :
  f_name <$> fs = names -> NoDup names -> de_struct deny names build (y_map (written fs)) = build (entries fs).
Proof.
  intros <- Hnd. unfold de_struct. rewrite get_struct_written. cbn. rewrite named_written. cbn.
  pose proof (entries_names fs) as Hsub.
  replace (forallb _ (f_name <$> fs)) with true.
  2: { symmetry. apply forallb_forall. intros k _. apply Nat.leb_le, count_key_le. by eapply sublist_NoDup. }
  replace (forallb _ (entries fs)) with true; [by rewrite orb_true_r|].
  symmetry. apply forallb_forall. intros e He. apply bool_decide_eq_true. eapply elem_of_submseteq; [|apply sublist_submseteq, Hsub].
  apply list_elem_of_fmap_2, list_elem_of_In, He.
Qed.

(** A field that is not written has its default. *)
Class GoodAttr {R A} (f : Attr R A) := skip_default a : at_skip f a = true -> at_default f = Some a.

(** The fields read so far give [v r] to the constructor, if [l] has what was written of [r]. *)
Class GoodShape {R A} (s : Shape R A) (v : R -> A) := {
  shape_names r : f_name <$> sh_fields s r = sh_names s;
  shape_read r l : Forall (fun f => slot (f_name f) l = f_node f) (sh_fields s r) -> Forall f_holds (sh_fields s r) ->
    sh_read s l = Some (v r);
}.

#[global] Instance fields_of_good {R A} (mk : A) : GoodShape (R := R) (fields_of mk) (fun _ => mk).
Proof. by split. Qed.

#[global] Instance with_field_good {R A B} (s : Shape R (A -> B)) v (f : Attr R A) :
  GoodShape s v -> Lawful (at_codec f) -> GoodAttr f -> GoodShape (with_field s f) (fun r => v r (at_get f r)).
Proof.
  intros Hs Hc Hf. split; intros r; cbn; [by rewrite fmap_app, shape_names|].
  intros l [Hl [Hx _]%Forall_cons]%Forall_app [Hh [Hhx _]%Forall_cons]%Forall_app. rewrite (shape_read r l Hl Hh). cbn in *.
  unfold read_attr. rewrite Hx. destruct (at_skip f (at_get f r)) eqn:E; [by rewrite (skip_default _ E)|]. by rewrite (read_written _ Hhx).
Qed.

Lemma with_field_holds {R A B} (s : Shape R (A -> B)) (f : Attr R A) r :
  Forall f_holds (sh_fields (with_field s f) r) <-> Forall f_holds (sh_fields s r) /\ holds (at_codec f) (at_get f r).
Proof. cbn [sh_fields with_field]. by rewrite Forall_app, Forall_singleton. Qed.

(** A struct is read back if its fields are, and what is skipped has its default. *)
Lemma struct_lawful {R} deny (s : Shape R R) v : GoodShape s v -> NoDup (sh_names s) -> (forall r, v r = r) -> Lawful (struct_codec deny s).
Proof.
  intros Hs Hn Hv r Hr. cbn in *. rewrite de_written by (done || apply shape_names).
  rewrite (shape_read r); [by rewrite Hv| |done]. apply Forall_forall. intros f. apply slot_entries. by rewrite shape_names.
Qed.

#[global] Instance required_good {R A} name (c : Codec A) (get : R -> A) : GoodAttr (required name c get).
Proof. by intros a. Qed.
#[global] Instance defaulted_good {R A} d name (c : Codec A) (get : R -> A) : GoodAttr (defaulted d name c get).
Proof. by intros a. Qed.

(** *** Keys *)

Class Distinct {A} (c : Codec A) := distinct_written a : holds c a -> distinct_keys (ser c a).

#[global] Instance bool_distinct : Distinct bool_ := fun b _ => distinct_bool b.
#[global] Instance u32_distinct : Distinct u32 := fun n _ => distinct_uint n.
#[global] Instance u64_distinct : Distinct u64 := fun n _ => distinct_uint n.
#[global] Instance float_distinct : Distinct float_ := fun x _ => distinct_float x.
#[global] Instance string_distinct : Distinct string_ := fun s _ => distinct_str s.
#[global] Instance option_distinct {A} (c : Codec A) : Distinct c -> Distinct (option_ c).
Proof. intros Hc [a|] Ha; cbn; [by apply Hc|apply distinct_null]. Qed.
#[global] Instance vec_distinct {A} (c : Codec A) : Distinct c -> Distinct (vec c).
Proof. intros Hc l Hl. apply distinct_seq, Forall_fmap. eapply Forall_impl; [exact Hl|exact Hc]. Qed.

Lemma distinct_entries {A} (c : Codec A) l : Distinct c -> NoDup l.*1 -> Forall (fun e => holds c e.2) l ->
  distinct_keys (y_map ((fun e => (y_str e.1, ser c e.2)) <$> l)).
Proof.
  intros Hc Hn Hl. replace (_ <$> l) with ((fun e => (y_str e.1, e.2)) <$> (prod_map id (ser c) <$> l)) by (by rewrite <- list_fmap_compose).
  apply distinct_map; [rewrite <- list_fmap_compose; exact Hn|]. apply Forall_fmap. eapply Forall_impl; [exact Hl|]. intros [k a]. apply Hc.
Qed.
Lemma hash_iter_keys {A} (m : gmap string A) : NoDup (hash_iter m).*1.
Proof. rewrite hash_iter_perm. apply NoDup_fst_map_to_list. Qed.
#[global] Instance map_distinct {A} (c : Codec A) : Distinct c -> Distinct (map_ c).
Proof. intros Hc m Hm. apply distinct_entries; [done|apply hash_iter_keys|by apply hash_iter_holds]. Qed.

Class DistinctShape {R A} (s : Shape R A) := distinct_shape r :
  Forall f_holds (sh_fields s r) -> Forall (fun f => forall n, f_node f = Some n -> distinct_keys n) (sh_fields s r).
#[global] Instance fields_of_distinct {R A} (mk : A) : DistinctShape (R := R) (fields_of mk).
Proof. intros r. constructor. Qed.
#[global] Instance with_field_distinct {R A B} (s : Shape R (A -> B)) (f : Attr R A) :
  DistinctShape s -> Distinct (at_codec f) -> DistinctShape (with_field s f).
Proof.
  intros Hs Hf r [H1 H2]%with_field_holds. apply Forall_app. split; [by apply Hs|]. apply Forall_singleton. cbn. intros n.
  destruct (at_skip f _); [done|]. intros [= <-]. by apply Hf.
Qed.

Lemma written_entries fs : written fs = (fun e => (y_str e.1, e.2)) <$> entries fs.
Proof. unfold written, entries. induction fs as [|[k [n|] p] fs IH]; cbn; [done|by f_equal|exact IH]. Qed.

Lemma struct_distinct {R} deny (s : Shape R R) v : GoodShape s v -> NoDup (sh_names s) -> DistinctShape s -> Distinct (struct_codec deny s).
Proof.
  intros Hs Hn Hd r Hr. cbn in *. rewrite written_entries. apply distinct_map.
  - eapply sublist_NoDup; [|apply entries_names]. by rewrite shape_names.
  - pose proof (Hd r Hr) as Hf. clear Hr. induction Hf as [|[k [n|] p] fs Hf Hr IH]; [constructor| |exact IH]. constructor; [by apply Hf|exact IH].
Qed.

(** *** The ranges of a value are decidable *)

Class RangeDec {A} (c : Codec A) := range_dec a :: Decision (holds c a).
#[global] Instance bool_range : RangeDec bool_ := fun _ => left I.
#[global] Instance float_range : RangeDec float_ := fun _ => left I.
#[global] Instance string_range : RangeDec string_ := fun _ => left I.
#[global] Instance uint_range w : RangeDec (uint w).
Proof. intros z. cbn. unfold fits. apply _. Defined.
#[global] Instance u32_range : RangeDec u32 := uint_range 32.
#[global] Instance u64_range : RangeDec u64 := uint_range 64.
#[global] Instance option_range {A} (c : Codec A) : RangeDec c -> RangeDec (option_ c) :=
  fun Hc o => match o with Some a => Hc a | None => left I end.
#[global] Instance vec_range {A} (c : Codec A) : RangeDec c -> RangeDec (vec c).
Proof. intros Hc l. cbn. apply _. Defined.
#[global] Instance map_range {A} (c : Codec A) : RangeDec c -> RangeDec (map_ c).
Proof. intros Hc m. cbn. apply _. Defined.

Class ShapeRange {R A} (s : Shape R A) := shape_range r : Decision (Forall f_holds (sh_fields s r)).
#[global] Instance fields_of_range {R A} (mk : A) : ShapeRange (R := R) (fields_of mk) := fun r => left (Forall_nil_2 _).
#[global] Instance with_field_range {R A B} (s : Shape R (A -> B)) (f : Attr R A) :
  ShapeRange s -> RangeDec (at_codec f) -> ShapeRange (with_field s f) | 10.
Proof.
  intros Hs Hf r. destruct (Hs r) as [H1|H1], (Hf (at_get f r)) as [H2|H2]; [left; by apply with_field_holds|right; by intros [? ?]%with_field_holds..].
Defined.
#[global] Instance struct_range {R} deny (s : Shape R R) : ShapeRange s -> RangeDec (struct_codec deny s) := fun Hs r => Hs r.
End Laws.
