(* ===== verification/FileSchema.v ===== *)
(** * FileSchema: the schema of the configuration file

    The structs of src/crates/conduit-config/src/file.rs with their serde attributes. Each is a record with the fields of
    the struct and a codec, one line per field: its name in the file, whether it must be there, its default, and when it is
    not written. The laws at the end say that every struct is read back as it was written; where a field is skipped that
    means that the predicate of the attribute holds only of the default. *)

From stdpp Require Import base gmap list strings.
From Stdlib Require Import ZArith Lia.
From S2P Require Import Prelude Floats Config Messages Compile Yaml.

#[local] Open Scope string_scope.
#[local] Open Scope list_scope.
#[local] Open Scope Z_scope.

(** The predicates of skip_serializing_if. *)
Definition is_nil {A} (l : list A) : bool := match l with [] => true | _ => false end.
Definition is_empty_map {A} (m : gmap string A) : bool := match map_to_list m with [] => true | _ => false end.
Definition is_zero_u64 (v : Z) : bool := v =? 0.
Definition is_zero_u32 (v : Z) : bool := v =? 0.
Definition is_false (v : bool) : bool := negb v.

(** ** The structs *)

Record YamlAclRule := MkYamlAclRule {
  yar_match_view : string; yar_action : string; yar_tag : option string;
}.
Record YamlAcls := MkYamlAcls {
  yac_default_action : string; yac_rules : list YamlAclRule;
}.
Definition default_acl_default_action : string := "allow".

Record YamlListener := MkYamlListener {
  yli_address : string; yli_protocol : string; yli_threads : option Z; yli_reuse_port : option bool;
  yli_name : option string; yli_rcvbuf : option Z; yli_acls : option YamlAcls;
}.
Record YamlListeners := MkYamlListeners {
  yls_threads : Z; yls_reuse_port : bool; yls_rcvbuf : Z; yls_sndbuf : Z; yls_listeners : list YamlListener;
}.
Definition DEFAULT_LISTENER_REUSE_PORT : bool := false.
Definition YamlListeners_default : YamlListeners := MkYamlListeners DEFAULT_LISTENER_THREADS DEFAULT_LISTENER_REUSE_PORT 0 0 [].
Definition default_listener_threads : Z := DEFAULT_LISTENER_THREADS.
Definition default_listener_reuse_port : bool := DEFAULT_LISTENER_REUSE_PORT.
Definition YamlListeners_is_default (y : YamlListeners) : bool :=
  (yls_threads y =? DEFAULT_LISTENER_THREADS) && Bool.eqb (yls_reuse_port y) DEFAULT_LISTENER_REUSE_PORT && (yls_rcvbuf y =? 0) &&
  (yls_sndbuf y =? 0) && is_nil (yls_listeners y).

Record YamlForward := MkYamlForward {
  yfc_outstanding_per_backend : Z; yfc_timeout_ms : Z; yfc_sources_v4 : list string; yfc_source_selection : string;
  yfc_sources_v6 : list string; yfc_upstream_transport : string; yfc_client_tcp_uses_upstream_tcp : bool;
}.
Definition default_forward_outstanding : Z := DEFAULT_FORWARD_OUTSTANDING_PER_BACKEND.
Definition default_forward_timeout_ms : Z := DEFAULT_FORWARD_TIMEOUT_MS.
Definition default_source_selection : string := DEFAULT_SOURCE_SELECTION.
Definition YamlForward_default : YamlForward :=
  MkYamlForward DEFAULT_FORWARD_OUTSTANDING_PER_BACKEND DEFAULT_FORWARD_TIMEOUT_MS [] default_source_selection [] "" false.
#[global] Instance YamlForward_eq : EqDecision YamlForward. Proof. solve_decision. Defined.
Definition YamlForward_is_default (y : YamlForward) : bool := bool_decide (y = YamlForward_default).

Record YamlOrchestrator := MkYamlOrchestrator {
  yor_max_attempts : Z; yor_max_txn_duration_ms : Z; yor_txn_table_capacity : Z;
}.
Definition DEFAULT_ORCHESTRATOR_MAX_ATTEMPTS : Z := 3.
Definition DEFAULT_ORCHESTRATOR_MAX_TXN_DURATION_MS : Z := 5000.
Definition DEFAULT_ORCHESTRATOR_TXN_TABLE_CAPACITY : Z := 1024.
Definition default_orchestrator_max_attempts : Z := DEFAULT_ORCHESTRATOR_MAX_ATTEMPTS.
Definition default_orchestrator_max_txn_duration_ms : Z := DEFAULT_ORCHESTRATOR_MAX_TXN_DURATION_MS.
Definition default_orchestrator_txn_table_capacity : Z := DEFAULT_ORCHESTRATOR_TXN_TABLE_CAPACITY.
Definition YamlOrchestrator_default : YamlOrchestrator :=
  MkYamlOrchestrator DEFAULT_ORCHESTRATOR_MAX_ATTEMPTS DEFAULT_ORCHESTRATOR_MAX_TXN_DURATION_MS DEFAULT_ORCHESTRATOR_TXN_TABLE_CAPACITY.
#[global] Instance YamlOrchestrator_eq : EqDecision YamlOrchestrator. Proof. solve_decision. Defined.
Definition YamlOrchestrator_is_default (y : YamlOrchestrator) : bool := bool_decide (y = YamlOrchestrator_default).

Record YamlSelector := MkYamlSelector {
  yse_selector_type : string; yse_value : string; yse_key : option string; yse_key_from : option string;
}.
Record YamlEventSinkFilters := MkYamlEventSinkFilters {
  yfi_tag_required : option string; yfi_selectors : list YamlSelector; yfi_sample_percent : option f64;
  yfi_sample_key : option string; yfi_sample_key_from : option string; yfi_pool : option string;
  yfi_backend : option string;
}.
Definition YamlEventSinkFilters_default : YamlEventSinkFilters := MkYamlEventSinkFilters None [] None None None None None.
Definition yaml_event_filters_nonempty (f : YamlEventSinkFilters) : bool :=
  is_someb (yfi_tag_required f) || negb (is_nil (yfi_selectors f)) || is_someb (yfi_sample_percent f) ||
  is_someb (Config.nonempty (yfi_sample_key f)) || is_someb (Config.nonempty (yfi_sample_key_from f)) ||
  is_someb (Config.nonempty (yfi_pool f)) || is_someb (Config.nonempty (yfi_backend f)).

Record YamlConnectRetry := MkYamlConnectRetry {
  ycr_initial_ms : Z; ycr_max_ms : Z; ycr_multiplier : f64; ycr_max_elapsed_ms : Z; ycr_jitter : bool;
}.
Definition default_connect_retry_jitter : bool := true.

Record YamlEventSink := MkYamlEventSink {
  yes_sink_type : string; yes_export_id : string; yes_name : option string; yes_destinations : list string;
  yes_emit : list string; yes_filters : YamlEventSinkFilters; yes_extra_fields : list string; yes_extra_tags : list string;
  yes_connect_retry : option YamlConnectRetry;
}.
Record YamlEvents := MkYamlEvents {
  yev_queue_depth : Z; yev_drop_policy : string; yev_sinks : list YamlEventSink;
}.
Definition DEFAULT_EVENTS_QUEUE_DEPTH : Z := 4096.
Definition DEFAULT_EVENTS_DROP_POLICY : string := "drop_oldest".
Definition default_events_queue_depth : Z := DEFAULT_EVENTS_QUEUE_DEPTH.
Definition default_events_drop_policy : string := DEFAULT_EVENTS_DROP_POLICY.
Definition YamlEvents_default : YamlEvents := MkYamlEvents DEFAULT_EVENTS_QUEUE_DEPTH DEFAULT_EVENTS_DROP_POLICY [].
Definition YamlEvents_is_default (y : YamlEvents) : bool :=
  (yev_queue_depth y =? DEFAULT_EVENTS_QUEUE_DEPTH) && String.eqb (yev_drop_policy y) DEFAULT_EVENTS_DROP_POLICY &&
  is_nil (yev_sinks y).

Record YamlRhai := MkYamlRhai {
  yrh_max_operations : Z; yrh_max_call_depth : Z; yrh_hook_timeout_ms : Z;
}.
Definition DEFAULT_RHAI_MAX_OPERATIONS : Z := 10000.
Definition DEFAULT_RHAI_MAX_CALL_DEPTH : Z := 32.
Definition default_rhai_max_operations : Z := DEFAULT_RHAI_MAX_OPERATIONS.
Definition default_rhai_max_call_depth : Z := DEFAULT_RHAI_MAX_CALL_DEPTH.
Definition YamlRhai_default : YamlRhai := MkYamlRhai DEFAULT_RHAI_MAX_OPERATIONS DEFAULT_RHAI_MAX_CALL_DEPTH 0.
#[global] Instance YamlRhai_eq : EqDecision YamlRhai. Proof. solve_decision. Defined.
Definition YamlRhai_is_default (y : YamlRhai) : bool := bool_decide (y = YamlRhai_default).

Record YamlBackend := MkYamlBackend {
  ybe_address : string; ybe_name : option string; ybe_weight : option Z; ybe_probe_qname : option string;
  ybe_probe_qtype : option string; ybe_probe_source : option string; ybe_transport : option string;
  ybe_remove : option bool;
}.
Record YamlHealthCheck := MkYamlHealthCheck {
  yhc_enabled : bool; yhc_interval_ms : option Z; yhc_timeout_ms : option Z; yhc_rise : option Z; yhc_fall : option Z;
  yhc_probe_qname : option string; yhc_probe_qtype : option string; yhc_acceptable_rcodes : list string;
  yhc_initial_state : option string; yhc_latency_weighting : option bool; yhc_min_eligible : option Z;
  yhc_passive_fast_trip : option bool; yhc_passive_fall : option Z;
}.
Record YamlPool := MkYamlPool {
  ypo_name : string; ypo_backends : list YamlBackend; ypo_sources_v4 : list string; ypo_sources_v6 : list string;
  ypo_max_inflight : option Z; ypo_health : option YamlHealthCheck; ypo_remove : option bool;
}.
Record YamlControlTls := MkYamlControlTls {
  ytl_cert_path : string; ytl_key_path : string; ytl_client_ca_path : option string;
}.
Record YamlControl := MkYamlControl {
  ycl_listen_address : string; ycl_reflection_enabled : bool; ycl_api_keys : list string; ycl_tls : option YamlControlTls;
}.
Definition DEFAULT_CONTROL_LISTEN_ADDRESS : string := "127.0.0.1:5199".
Definition default_control_listen_address : string := DEFAULT_CONTROL_LISTEN_ADDRESS.

Record YamlAction := MkYamlAction {
  yan_action_type : string; yan_value : string;
}.
Record YamlRule := MkYamlRule {
  yru_name : string; yru_hook : string; yru_selectors : list YamlSelector; yru_actions : list YamlAction;
}.
Record YamlRules := MkYamlRules {
  yrs_match_mode : string; yrs_rules : list YamlRule;
}.
Definition default_match_mode : string := "first_match".
Definition YamlRules_default : YamlRules := MkYamlRules default_match_mode [].

Record YamlAclDeniedSample := MkYamlAclDeniedSample {
  yas_mode : string; yas_rate : option f64; yas_nth : option Z;
}.
Record YamlQueryAccess := MkYamlQueryAccess {
  yqa_acl_denied : string; yqa_acl_denied_sample : option YamlAclDeniedSample;
}.
Record YamlLogging := MkYamlLogging {
  ylo_level : string; ylo_output : string; ylo_query_access : option YamlQueryAccess;
}.
Definition DEFAULT_LOG_LEVEL : string := "info".
Definition DEFAULT_LOG_OUTPUT : string := "stderr".
Definition default_log_level : string := DEFAULT_LOG_LEVEL.
Definition default_log_output : string := DEFAULT_LOG_OUTPUT.
Definition YamlLogging_default : YamlLogging := MkYamlLogging default_log_level default_log_output None.

Record YamlDataSource := MkYamlDataSource {
  yds_name : string; yds_source_type : string; yds_path : string; yds_key_column : string; yds_value_column : string;
  yds_max_file_bytes : option Z; yds_max_entries : option Z; yds_max_key_bytes : option Z; yds_max_value_bytes : option Z;
}.
Record YamlMetricsCategories := MkYamlMetricsCategories {
  ymc_include : option (list string); ymc_exclude : option (list string);
}.
(** An untagged enum: a list of dimensions, or a map. *)
Inductive YamlFamilyGranularity :=
| Dimensions (dimensions : list string)
| Detailed (dimensions : option (list string)) (rcode : string).
Record YamlGranularity := MkYamlGranularity {
  ymg_default : string; ymg_overrides : gmap string YamlFamilyGranularity;
}.
Record YamlCollectEmit := MkYamlCollectEmit {
  yce_collect : option bool; yce_emit : option bool;
}.
Record YamlPrometheusMetrics := MkYamlPrometheusMetrics {
  ypm_listen_address : string; ypm_path : string;
}.
Record YamlOtelMetrics := MkYamlOtelMetrics {
  yot_endpoint : string; yot_push_interval_ms : option Z; yot_resource_attributes : gmap string string;
  yot_allow_invalid_certs : option bool; yot_headers : gmap string string;
}.
Record YamlUserMetricExport := MkYamlUserMetricExport {
  yum_name : string; yum_export : string; yum_collect : option bool; yum_emit : option bool; yum_help : string;
}.
Record YamlMetrics := MkYamlMetrics {
  yme_enabled : option bool; yme_profile : string; yme_base : string; yme_categories : option YamlMetricsCategories;
  yme_granularity : option YamlGranularity; yme_collection : gmap string YamlCollectEmit;
  yme_event_export : option YamlCollectEmit; yme_prometheus : option YamlPrometheusMetrics;
  yme_otel : option YamlOtelMetrics; yme_user_metrics : list YamlUserMetricExport;
}.
Record YamlTracingActivation := MkYamlTracingActivation {
  yta_tag : option string; yta_selectors : list YamlSelector; yta_sample_percent : option f64;
  yta_sample_key : option string; yta_sample_key_from : option string;
}.
Definition YamlTracingActivation_default : YamlTracingActivation := MkYamlTracingActivation None [] None None None.

Record YamlTracingOutput := MkYamlTracingOutput {
  yto_log_json : bool;
}.
Definition YamlTracingOutput_default : YamlTracingOutput := MkYamlTracingOutput false.

Record YamlTracing := MkYamlTracing {
  ytr_enabled : bool; ytr_activation : YamlTracingActivation; ytr_output : YamlTracingOutput;
}.
Record YamlDataplane := MkYamlDataplane {
  ydp_runtime : string; ydp_policy_workers : Z; ydp_io_workers : Z; ydp_slot_chunk_size : option Z;
}.
Definition default_dataplane_runtime : string := DEFAULT_DATAPLANE_RUNTIME.
Definition default_policy_workers : Z := DEFAULT_POLICY_WORKERS.
Definition default_io_workers : Z := DEFAULT_IO_WORKERS.
Definition is_sync_default (y : YamlDataplane) : bool :=
  String.eqb (ydp_runtime y) DEFAULT_DATAPLANE_RUNTIME && (ydp_policy_workers y =? DEFAULT_POLICY_WORKERS) &&
  (ydp_io_workers y =? DEFAULT_IO_WORKERS) && is_none (ydp_slot_chunk_size y).

Record YamlShutdown := MkYamlShutdown {
  ysd_drain : option bool; ysd_drain_timeout_ms : option Z;
}.
Definition YamlShutdown_is_default (y : YamlShutdown) : bool := is_none (ysd_drain y) && is_none (ysd_drain_timeout_ms y).

Record YamlDataSourceLimits := MkYamlDataSourceLimits {
  ydl_max_file_bytes : Z; ydl_max_entries : Z; ydl_max_key_bytes : Z; ydl_max_value_bytes : Z; ydl_max_tables : Z;
  ydl_max_total_bytes : Z;
}.
Definition YamlDataSourceLimits_is_default (y : YamlDataSourceLimits) : bool :=
  (ydl_max_file_bytes y =? 0) && (ydl_max_entries y =? 0) && (ydl_max_key_bytes y =? 0) && (ydl_max_value_bytes y =? 0) &&
  (ydl_max_tables y =? 0) && (ydl_max_total_bytes y =? 0).

Record YamlCacheNegativeConfig := MkYamlCacheNegativeConfig {
  ycn_enabled : option bool; ycn_nxdomain_covers_descendants : option bool; ycn_servfail_ttl_secs : option Z;
}.
Record YamlCacheOnHitConfig := MkYamlCacheOnHitConfig {
  yoh_response_rules : string;
}.
Record YamlCacheTruncatedUdpConfig := MkYamlCacheTruncatedUdpConfig {
  ytu_enabled : option bool; ytu_ttl_secs : option Z;
}.
Record YamlCacheMemoryConfig := MkYamlCacheMemoryConfig {
  ycm_shard_count : option Z; ycm_eviction : option string;
}.
Inductive YamlMapSize := Bytes (n : Z) | Si (s : string).
Record YamlCacheLmdbConfig := MkYamlCacheLmdbConfig {
  ylm_path : string; ylm_map_size : YamlMapSize; ylm_when_full : option string; ylm_sample_size : option Z;
  ylm_shard_count : option Z; ylm_sync : option string; ylm_sync_interval : option string;
}.
Record YamlCacheKeyConfig := MkYamlCacheKeyConfig {
  yck_augment : option unit;
}.
Record YamlCacheInstance := MkYamlCacheInstance {
  yca_name : string; yca_cache_type : string; yca_negative_cache : option YamlCacheNegativeConfig;
  yca_on_hit : option YamlCacheOnHitConfig; yca_truncated_udp : option YamlCacheTruncatedUdpConfig;
  yca_rotate_rrset_on_serve : option bool; yca_memory : option YamlCacheMemoryConfig; yca_lmdb : option YamlCacheLmdbConfig;
  yca_key : option YamlCacheKeyConfig; yca_max_entries : option Z;
}.
Record YamlLookupProvider := MkYamlLookupProvider {
  ypv_provider_type : string; ypv_cache : option string;
}.
Record YamlLookupProfile := MkYamlLookupProfile {
  ypf_providers : list YamlLookupProvider;
}.
Record YamlLookup := MkYamlLookup {
  ylk_profiles : gmap string YamlLookupProfile;
}.
Definition YamlLookup_is_empty (y : YamlLookup) : bool := is_empty_map (ylk_profiles y).

Record YamlConfig := MkYamlConfig {
  yc_schema_version : Z; yc_listeners : YamlListeners; yc_forward : YamlForward; yc_orchestrator : YamlOrchestrator;
  yc_events : YamlEvents; yc_rhai : YamlRhai; yc_pools : list YamlPool; yc_control : option YamlControl;
  yc_rules : YamlRules; yc_logging : YamlLogging; yc_data_sources : list YamlDataSource; yc_metrics : option YamlMetrics;
  yc_tracing : option YamlTracing; yc_dataplane : option YamlDataplane; yc_shutdown : option YamlShutdown;
  yc_data_source_limits : option YamlDataSourceLimits; yc_caches : list YamlCacheInstance; yc_lookup : option YamlLookup;
  yc_acls : option YamlAcls;
}.
Record YamlOverlayPatch := MkYamlOverlayPatch {
  yo_schema_version : Z; yo_listeners : option YamlListeners; yo_forward : option YamlForward;
  yo_orchestrator : option YamlOrchestrator; yo_events : option YamlEvents; yo_rhai : option YamlRhai;
  yo_pools : list YamlPool; yo_control : option YamlControl; yo_rules : option YamlRules; yo_logging : option YamlLogging;
  yo_data_sources : list YamlDataSource; yo_metrics : option YamlMetrics; yo_tracing : option YamlTracing;
  yo_dataplane : option YamlDataplane; yo_shutdown : option YamlShutdown;
  yo_data_source_limits : option YamlDataSourceLimits; yo_caches : list YamlCacheInstance; yo_lookup : option YamlLookup;
  yo_acls : option YamlAcls;
}.

(** ** Their codecs *)

Section Serde.
Context {Y : Yaml} {O : HashOrder}.
#[local] Open Scope serde_scope.

Definition serde_YamlAclRule : Codec YamlAclRule := struct_codec true (fields_of MkYamlAclRule
  ▷ required "match" string_ yar_match_view
  ▷ required "action" string_ yar_action
  ▷ skipped is_none None "tag" (option_ string_) yar_tag).

Definition serde_YamlAcls : Codec YamlAcls := struct_codec true (fields_of MkYamlAcls
  ▷ defaulted default_acl_default_action "default_action" string_ yac_default_action
  ▷ defaulted [] "rules" (vec serde_YamlAclRule) yac_rules).

Definition serde_YamlListener : Codec YamlListener := struct_codec false (fields_of MkYamlListener
  ▷ required "address" string_ yli_address
  ▷ required "protocol" string_ yli_protocol
  ▷ skipped is_none None "threads" (option_ u32) yli_threads
  ▷ skipped is_none None "reuse_port" (option_ bool_) yli_reuse_port
  ▷ skipped is_none None "name" (option_ string_) yli_name
  ▷ skipped is_none None "rcvbuf" (option_ u32) yli_rcvbuf
  ▷ skipped is_none None "acls" (option_ serde_YamlAcls) yli_acls).

Definition serde_YamlListeners : Codec YamlListeners := struct_codec false (fields_of MkYamlListeners
  ▷ defaulted default_listener_threads "threads" u32 yls_threads
  ▷ defaulted default_listener_reuse_port "reuse_port" bool_ yls_reuse_port
  ▷ defaulted 0 "rcvbuf" u32 yls_rcvbuf
  ▷ defaulted 0 "sndbuf" u32 yls_sndbuf
  ▷ required "listeners" (vec serde_YamlListener) yls_listeners).

Definition serde_YamlForward : Codec YamlForward := struct_codec false (fields_of MkYamlForward
  ▷ defaulted default_forward_outstanding "outstanding_per_backend" u32 yfc_outstanding_per_backend
  ▷ defaulted default_forward_timeout_ms "timeout_ms" u32 yfc_timeout_ms
  ▷ defaulted [] "sources_v4" (vec string_) yfc_sources_v4
  ▷ defaulted default_source_selection "source_selection" string_ yfc_source_selection
  ▷ defaulted [] "sources_v6" (vec string_) yfc_sources_v6
  ▷ defaulted "" "upstream_transport" string_ yfc_upstream_transport
  ▷ defaulted false "client_tcp_uses_upstream_tcp" bool_ yfc_client_tcp_uses_upstream_tcp).

Definition serde_YamlOrchestrator : Codec YamlOrchestrator := struct_codec false (fields_of MkYamlOrchestrator
  ▷ defaulted default_orchestrator_max_attempts "max_attempts" u32 yor_max_attempts
  ▷ defaulted default_orchestrator_max_txn_duration_ms "max_txn_duration_ms" u32 yor_max_txn_duration_ms
  ▷ defaulted default_orchestrator_txn_table_capacity "txn_table_capacity" u32 yor_txn_table_capacity).

Definition serde_YamlSelector : Codec YamlSelector := struct_codec false (fields_of MkYamlSelector
  ▷ required "type" string_ yse_selector_type
  ▷ required "value" string_ yse_value
  ▷ skipped is_none None "key" (option_ string_) yse_key
  ▷ skipped is_none None "key_from" (option_ string_) yse_key_from).

Definition serde_YamlEventSinkFilters : Codec YamlEventSinkFilters := struct_codec false (fields_of MkYamlEventSinkFilters
  ▷ defaulted None "tag_required" (option_ string_) yfi_tag_required
  ▷ defaulted [] "selectors" (vec serde_YamlSelector) yfi_selectors
  ▷ defaulted None "sample_percent" (option_ float_) yfi_sample_percent
  ▷ skipped is_none None "sample_key" (option_ string_) yfi_sample_key
  ▷ skipped is_none None "sample_key_from" (option_ string_) yfi_sample_key_from
  ▷ defaulted None "pool" (option_ string_) yfi_pool
  ▷ defaulted None "backend" (option_ string_) yfi_backend).

Definition serde_YamlConnectRetry : Codec YamlConnectRetry := struct_codec false (fields_of MkYamlConnectRetry
  ▷ defaulted 0 "initial_ms" u32 ycr_initial_ms
  ▷ defaulted 0 "max_ms" u32 ycr_max_ms
  ▷ defaulted (f64_of_Z 0) "multiplier" float_ ycr_multiplier
  ▷ defaulted 0 "max_elapsed_ms" u32 ycr_max_elapsed_ms
  ▷ defaulted default_connect_retry_jitter "jitter" bool_ ycr_jitter).

Definition serde_YamlEventSink : Codec YamlEventSink := struct_codec false (fields_of MkYamlEventSink
  ▷ required "type" string_ yes_sink_type
  ▷ skipped is_empty "" "export_id" string_ yes_export_id
  ▷ defaulted None "name" (option_ string_) yes_name
  ▷ defaulted [] "destinations" (vec string_) yes_destinations
  ▷ defaulted [] "emit" (vec string_) yes_emit
  ▷ defaulted YamlEventSinkFilters_default "filters" serde_YamlEventSinkFilters yes_filters
  ▷ defaulted [] "extra_fields" (vec string_) yes_extra_fields
  ▷ defaulted [] "extra_tags" (vec string_) yes_extra_tags
  ▷ defaulted None "connect_retry" (option_ serde_YamlConnectRetry) yes_connect_retry).

Definition serde_YamlEvents : Codec YamlEvents := struct_codec false (fields_of MkYamlEvents
  ▷ defaulted default_events_queue_depth "queue_depth" u32 yev_queue_depth
  ▷ defaulted default_events_drop_policy "drop_policy" string_ yev_drop_policy
  ▷ defaulted [] "sinks" (vec serde_YamlEventSink) yev_sinks).

Definition serde_YamlRhai : Codec YamlRhai := struct_codec false (fields_of MkYamlRhai
  ▷ defaulted default_rhai_max_operations "max_operations" u64 yrh_max_operations
  ▷ defaulted default_rhai_max_call_depth "max_call_depth" u32 yrh_max_call_depth
  ▷ defaulted 0 "hook_timeout_ms" u32 yrh_hook_timeout_ms).

Definition serde_YamlBackend : Codec YamlBackend := struct_codec false (fields_of MkYamlBackend
  ▷ defaulted "" "address" string_ ybe_address
  ▷ skipped is_none None "name" (option_ string_) ybe_name
  ▷ skipped is_none None "weight" (option_ u32) ybe_weight
  ▷ skipped is_none None "probe_qname" (option_ string_) ybe_probe_qname
  ▷ skipped is_none None "probe_qtype" (option_ string_) ybe_probe_qtype
  ▷ skipped is_none None "probe_source" (option_ string_) ybe_probe_source
  ▷ skipped is_none None "transport" (option_ string_) ybe_transport
  ▷ skipped is_none None "remove" (option_ bool_) ybe_remove).

Definition serde_YamlHealthCheck : Codec YamlHealthCheck := struct_codec true (fields_of MkYamlHealthCheck
  ▷ defaulted false "enabled" bool_ yhc_enabled
  ▷ skipped is_none None "interval_ms" (option_ u32) yhc_interval_ms
  ▷ skipped is_none None "timeout_ms" (option_ u32) yhc_timeout_ms
  ▷ skipped is_none None "rise" (option_ u32) yhc_rise
  ▷ skipped is_none None "fall" (option_ u32) yhc_fall
  ▷ skipped is_none None "probe_qname" (option_ string_) yhc_probe_qname
  ▷ skipped is_none None "probe_qtype" (option_ string_) yhc_probe_qtype
  ▷ skipped is_nil [] "acceptable_rcodes" (vec string_) yhc_acceptable_rcodes
  ▷ skipped is_none None "initial_state" (option_ string_) yhc_initial_state
  ▷ skipped is_none None "latency_weighting" (option_ bool_) yhc_latency_weighting
  ▷ skipped is_none None "min_eligible" (option_ u32) yhc_min_eligible
  ▷ skipped is_none None "passive_fast_trip" (option_ bool_) yhc_passive_fast_trip
  ▷ skipped is_none None "passive_fall" (option_ u32) yhc_passive_fall).

Definition serde_YamlPool : Codec YamlPool := struct_codec false (fields_of MkYamlPool
  ▷ required "name" string_ ypo_name
  ▷ defaulted [] "backends" (vec serde_YamlBackend) ypo_backends
  ▷ defaulted [] "sources_v4" (vec string_) ypo_sources_v4
  ▷ defaulted [] "sources_v6" (vec string_) ypo_sources_v6
  ▷ skipped is_none None "max_inflight" (option_ u32) ypo_max_inflight
  ▷ skipped is_none None "health" (option_ serde_YamlHealthCheck) ypo_health
  ▷ skipped is_none None "remove" (option_ bool_) ypo_remove).

Definition serde_YamlControlTls : Codec YamlControlTls := struct_codec false (fields_of MkYamlControlTls
  ▷ required "cert_path" string_ ytl_cert_path
  ▷ required "key_path" string_ ytl_key_path
  ▷ skipped is_none None "client_ca_path" (option_ string_) ytl_client_ca_path).

Definition serde_YamlControl : Codec YamlControl := struct_codec false (fields_of MkYamlControl
  ▷ defaulted default_control_listen_address "listen_address" string_ ycl_listen_address
  ▷ skipped is_false false "reflection_enabled" bool_ ycl_reflection_enabled
  ▷ skipped is_nil [] "api_keys" (vec string_) ycl_api_keys
  ▷ skipped is_none None "tls" (option_ serde_YamlControlTls) ycl_tls).

Definition serde_YamlAction : Codec YamlAction := struct_codec false (fields_of MkYamlAction
  ▷ required "type" string_ yan_action_type
  ▷ defaulted "" "value" string_ yan_value).

Definition serde_YamlRule : Codec YamlRule := struct_codec false (fields_of MkYamlRule
  ▷ required "name" string_ yru_name
  ▷ required "hook" string_ yru_hook
  ▷ required "selectors" (vec serde_YamlSelector) yru_selectors
  ▷ required "actions" (vec serde_YamlAction) yru_actions).

Definition serde_YamlRules : Codec YamlRules := struct_codec false (fields_of MkYamlRules
  ▷ defaulted default_match_mode "match_mode" string_ yrs_match_mode
  ▷ defaulted [] "rules" (vec serde_YamlRule) yrs_rules).

Definition serde_YamlAclDeniedSample : Codec YamlAclDeniedSample := struct_codec true (fields_of MkYamlAclDeniedSample
  ▷ required "mode" string_ yas_mode
  ▷ skipped is_none None "rate" (option_ float_) yas_rate
  ▷ skipped is_none None "nth" (option_ u32) yas_nth).

Definition serde_YamlQueryAccess : Codec YamlQueryAccess := struct_codec true (fields_of MkYamlQueryAccess
  ▷ skipped is_empty "" "acl_denied" string_ yqa_acl_denied
  ▷ skipped is_none None "acl_denied_sample" (option_ serde_YamlAclDeniedSample) yqa_acl_denied_sample).

Definition serde_YamlLogging : Codec YamlLogging := struct_codec false (fields_of MkYamlLogging
  ▷ defaulted default_log_level "level" string_ ylo_level
  ▷ defaulted default_log_output "output" string_ ylo_output
  ▷ skipped is_none None "query_access" (option_ serde_YamlQueryAccess) ylo_query_access).

Definition serde_YamlDataSource : Codec YamlDataSource := struct_codec true (fields_of MkYamlDataSource
  ▷ required "name" string_ yds_name
  ▷ required "type" string_ yds_source_type
  ▷ required "path" string_ yds_path
  ▷ defaulted "" "key_column" string_ yds_key_column
  ▷ defaulted "" "value_column" string_ yds_value_column
  ▷ skipped is_none None "max_file_bytes" (option_ u64) yds_max_file_bytes
  ▷ skipped is_none None "max_entries" (option_ u64) yds_max_entries
  ▷ skipped is_none None "max_key_bytes" (option_ u32) yds_max_key_bytes
  ▷ skipped is_none None "max_value_bytes" (option_ u32) yds_max_value_bytes).

Definition serde_YamlMetricsCategories : Codec YamlMetricsCategories := struct_codec false (fields_of MkYamlMetricsCategories
  ▷ skipped is_none None "include" (option_ (vec string_)) ymc_include
  ▷ skipped is_none None "exclude" (option_ (vec string_)) ymc_exclude).

(** An untagged enum takes the first variant that the buffered value fits. *)
Definition serde_Detailed : Codec (option (list string) * string) := struct_codec false (fields_of pair
  ▷ skipped is_none None "dimensions" (option_ (vec string_)) fst
  ▷ skipped is_empty "" "rcode" string_ snd).
Definition serde_YamlFamilyGranularity : Codec YamlFamilyGranularity := MkCodec
  (fun y => match y with
            | Dimensions dimensions => ser (vec string_) dimensions
            | Detailed dimensions rcode => ser serde_Detailed (dimensions, rcode)
            end)
  (fun n => let n := content n in
            match de (vec string_) n with
            | Some dimensions => Some (Dimensions dimensions)
            | None => let! p := de serde_Detailed n in Some (Detailed p.1 p.2)
            end)
  (fun _ => True).

(** [overrides] is flattened: its keys are those of the struct. *)
Definition is_key (k : string) (e : Node * Node) : bool := bool_decide (get_str e.1 = Some k).
Definition buffered (e : Node * Node) : Node * Node := (content e.1, content e.2).
Definition serde_YamlGranularity : Codec YamlGranularity := MkCodec
  (fun y => y_map ((if is_empty (ymg_default y) then [] else [(y_str "default", y_str (ymg_default y))]) ++
                   ((fun e => (y_str e.1, ser serde_YamlFamilyGranularity e.2)) <$> hash_iter (ymg_overrides y))))
  (fun n =>
     let! l := get_map n in
     let! default := match List.filter (is_key "default") l with [] => Some "" | [e] => get_str e.2 | _ => None end in
     let! overrides := mapM (entry serde_YamlFamilyGranularity) (buffered <$> List.filter (fun e => negb (is_key "default" e)) l) in
     Some (MkYamlGranularity default (collect overrides)))
  (fun y => ymg_overrides y !! "default" = None).

Definition serde_YamlCollectEmit : Codec YamlCollectEmit := struct_codec false (fields_of MkYamlCollectEmit
  ▷ skipped is_none None "collect" (option_ bool_) yce_collect
  ▷ skipped is_none None "emit" (option_ bool_) yce_emit).

Definition serde_YamlPrometheusMetrics : Codec YamlPrometheusMetrics := struct_codec false (fields_of MkYamlPrometheusMetrics
  ▷ skipped is_empty "" "listen_address" string_ ypm_listen_address
  ▷ skipped is_empty "" "path" string_ ypm_path).

Definition serde_YamlOtelMetrics : Codec YamlOtelMetrics := struct_codec false (fields_of MkYamlOtelMetrics
  ▷ skipped is_empty "" "endpoint" string_ yot_endpoint
  ▷ skipped is_none None "push_interval_ms" (option_ u32) yot_push_interval_ms
  ▷ skipped is_empty_map ∅ "resource_attributes" (map_ string_) yot_resource_attributes
  ▷ skipped is_none None "allow_invalid_certs" (option_ bool_) yot_allow_invalid_certs
  ▷ skipped is_empty_map ∅ "headers" (map_ string_) yot_headers).

Definition serde_YamlUserMetricExport : Codec YamlUserMetricExport := struct_codec false (fields_of MkYamlUserMetricExport
  ▷ required "name" string_ yum_name
  ▷ skipped is_empty "" "export" string_ yum_export
  ▷ skipped is_none None "collect" (option_ bool_) yum_collect
  ▷ skipped is_none None "emit" (option_ bool_) yum_emit
  ▷ skipped is_empty "" "help" string_ yum_help).

Definition serde_YamlMetrics : Codec YamlMetrics := struct_codec false (fields_of MkYamlMetrics
  ▷ skipped is_none None "enabled" (option_ bool_) yme_enabled
  ▷ skipped is_empty "" "profile" string_ yme_profile
  ▷ skipped is_empty "" "base" string_ yme_base
  ▷ skipped is_none None "categories" (option_ serde_YamlMetricsCategories) yme_categories
  ▷ skipped is_none None "granularity" (option_ serde_YamlGranularity) yme_granularity
  ▷ skipped is_empty_map ∅ "collection" (map_ serde_YamlCollectEmit) yme_collection
  ▷ skipped is_none None "event_export" (option_ serde_YamlCollectEmit) yme_event_export
  ▷ defaulted None "prometheus" (option_ serde_YamlPrometheusMetrics) yme_prometheus
  ▷ defaulted None "otel" (option_ serde_YamlOtelMetrics) yme_otel
  ▷ defaulted [] "user_metrics" (vec serde_YamlUserMetricExport) yme_user_metrics).

Definition serde_YamlTracingActivation : Codec YamlTracingActivation := struct_codec false (fields_of MkYamlTracingActivation
  ▷ defaulted None "tag" (option_ string_) yta_tag
  ▷ defaulted [] "selectors" (vec serde_YamlSelector) yta_selectors
  ▷ defaulted None "sample_percent" (option_ float_) yta_sample_percent
  ▷ skipped is_none None "sample_key" (option_ string_) yta_sample_key
  ▷ skipped is_none None "sample_key_from" (option_ string_) yta_sample_key_from).

Definition serde_YamlTracingOutput : Codec YamlTracingOutput := struct_codec false (fields_of MkYamlTracingOutput
  ▷ defaulted false "log_json" bool_ yto_log_json).

Definition serde_YamlTracing : Codec YamlTracing := struct_codec false (fields_of MkYamlTracing
  ▷ defaulted false "enabled" bool_ ytr_enabled
  ▷ defaulted YamlTracingActivation_default "activation" serde_YamlTracingActivation ytr_activation
  ▷ defaulted YamlTracingOutput_default "output" serde_YamlTracingOutput ytr_output).

Definition serde_YamlDataplane : Codec YamlDataplane := struct_codec false (fields_of MkYamlDataplane
  ▷ defaulted default_dataplane_runtime "runtime" string_ ydp_runtime
  ▷ defaulted default_policy_workers "policy_workers" u32 ydp_policy_workers
  ▷ defaulted default_io_workers "io_workers" u32 ydp_io_workers
  ▷ skipped is_none None "slot_chunk_size" (option_ u32) ydp_slot_chunk_size).

Definition serde_YamlShutdown : Codec YamlShutdown := struct_codec true (fields_of MkYamlShutdown
  ▷ skipped is_none None "drain" (option_ bool_) ysd_drain
  ▷ skipped is_none None "drain_timeout_ms" (option_ u32) ysd_drain_timeout_ms).

Definition serde_YamlDataSourceLimits : Codec YamlDataSourceLimits := struct_codec true (fields_of MkYamlDataSourceLimits
  ▷ skipped is_zero_u64 0 "max_file_bytes" u64 ydl_max_file_bytes
  ▷ skipped is_zero_u64 0 "max_entries" u64 ydl_max_entries
  ▷ skipped is_zero_u32 0 "max_key_bytes" u32 ydl_max_key_bytes
  ▷ skipped is_zero_u32 0 "max_value_bytes" u32 ydl_max_value_bytes
  ▷ skipped is_zero_u32 0 "max_tables" u32 ydl_max_tables
  ▷ skipped is_zero_u64 0 "max_total_bytes" u64 ydl_max_total_bytes).

Definition serde_YamlCacheNegativeConfig : Codec YamlCacheNegativeConfig := struct_codec false (fields_of MkYamlCacheNegativeConfig
  ▷ skipped is_none None "enabled" (option_ bool_) ycn_enabled
  ▷ skipped is_none None "nxdomain_covers_descendants" (option_ bool_) ycn_nxdomain_covers_descendants
  ▷ skipped is_none None "servfail_ttl_secs" (option_ u32) ycn_servfail_ttl_secs).

Definition serde_YamlCacheOnHitConfig : Codec YamlCacheOnHitConfig := struct_codec false (fields_of MkYamlCacheOnHitConfig
  ▷ required "response_rules" string_ yoh_response_rules).

Definition serde_YamlCacheTruncatedUdpConfig : Codec YamlCacheTruncatedUdpConfig := struct_codec false (fields_of MkYamlCacheTruncatedUdpConfig
  ▷ skipped is_none None "enabled" (option_ bool_) ytu_enabled
  ▷ skipped is_none None "ttl_secs" (option_ u32) ytu_ttl_secs).

Definition serde_YamlCacheMemoryConfig : Codec YamlCacheMemoryConfig := struct_codec false (fields_of MkYamlCacheMemoryConfig
  ▷ skipped is_none None "shard_count" (option_ u32) ycm_shard_count
  ▷ skipped is_none None "eviction" (option_ string_) ycm_eviction).

Definition serde_YamlMapSize : Codec YamlMapSize := MkCodec
  (fun y => match y with Bytes n => ser u64 n | Si s => ser string_ s end)
  (fun n => let n := content n in
            match de u64 n with Some z => Some (Bytes z) | None => Si <$> de string_ n end)
  (fun y => match y with Bytes n => holds u64 n | Si s => True end).

Definition serde_YamlCacheLmdbConfig : Codec YamlCacheLmdbConfig := struct_codec false (fields_of MkYamlCacheLmdbConfig
  ▷ required "path" string_ ylm_path
  ▷ required "map_size" serde_YamlMapSize ylm_map_size
  ▷ skipped is_none None "when_full" (option_ string_) ylm_when_full
  ▷ skipped is_none None "sample_size" (option_ u32) ylm_sample_size
  ▷ skipped is_none None "shard_count" (option_ u32) ylm_shard_count
  ▷ skipped is_none None "sync" (option_ string_) ylm_sync
  ▷ skipped is_none None "sync_interval" (option_ string_) ylm_sync_interval).

Definition serde_YamlCacheKeyAugmentConfig : Codec unit := struct_codec false (fields_of tt).
Definition serde_YamlCacheKeyConfig : Codec YamlCacheKeyConfig := struct_codec false (fields_of MkYamlCacheKeyConfig
  ▷ skipped is_none None "augment" (option_ serde_YamlCacheKeyAugmentConfig) yck_augment).

Definition serde_YamlCacheInstance : Codec YamlCacheInstance := struct_codec false (fields_of MkYamlCacheInstance
  ▷ required "name" string_ yca_name
  ▷ required "type" string_ yca_cache_type
  ▷ skipped is_none None "negative_cache" (option_ serde_YamlCacheNegativeConfig) yca_negative_cache
  ▷ skipped is_none None "on_hit" (option_ serde_YamlCacheOnHitConfig) yca_on_hit
  ▷ skipped is_none None "truncated_udp" (option_ serde_YamlCacheTruncatedUdpConfig) yca_truncated_udp
  ▷ skipped is_none None "rotate_rrset_on_serve" (option_ bool_) yca_rotate_rrset_on_serve
  ▷ skipped is_none None "memory" (option_ serde_YamlCacheMemoryConfig) yca_memory
  ▷ skipped is_none None "lmdb" (option_ serde_YamlCacheLmdbConfig) yca_lmdb
  ▷ skipped is_none None "key" (option_ serde_YamlCacheKeyConfig) yca_key
  ▷ skipped is_none None "max_entries" (option_ u64) yca_max_entries).

Definition serde_YamlLookupProvider : Codec YamlLookupProvider := struct_codec false (fields_of MkYamlLookupProvider
  ▷ required "type" string_ ypv_provider_type
  ▷ skipped is_none None "cache" (option_ string_) ypv_cache).

Definition serde_YamlLookupProfile : Codec YamlLookupProfile := struct_codec false (fields_of MkYamlLookupProfile
  ▷ required "providers" (vec serde_YamlLookupProvider) ypf_providers).

Definition serde_YamlLookup : Codec YamlLookup := struct_codec false (fields_of MkYamlLookup
  ▷ skipped is_empty_map ∅ "profiles" (map_ serde_YamlLookupProfile) ylk_profiles).

Definition serde_YamlConfig : Codec YamlConfig := struct_codec true (fields_of MkYamlConfig
  ▷ required "schema_version" u32 yc_schema_version
  ▷ skipped YamlListeners_is_default YamlListeners_default "listeners" serde_YamlListeners yc_listeners
  ▷ skipped YamlForward_is_default YamlForward_default "forward" serde_YamlForward yc_forward
  ▷ skipped YamlOrchestrator_is_default YamlOrchestrator_default "orchestrator" serde_YamlOrchestrator yc_orchestrator
  ▷ skipped YamlEvents_is_default YamlEvents_default "events" serde_YamlEvents yc_events
  ▷ skipped YamlRhai_is_default YamlRhai_default "rhai" serde_YamlRhai yc_rhai
  ▷ required "pools" (vec serde_YamlPool) yc_pools
  ▷ skipped is_none None "control" (option_ serde_YamlControl) yc_control
  ▷ defaulted YamlRules_default "rules" serde_YamlRules yc_rules
  ▷ defaulted YamlLogging_default "logging" serde_YamlLogging yc_logging
  ▷ defaulted [] "data_sources" (vec serde_YamlDataSource) yc_data_sources
  ▷ defaulted None "metrics" (option_ serde_YamlMetrics) yc_metrics
  ▷ defaulted None "tracing" (option_ serde_YamlTracing) yc_tracing
  ▷ skipped is_none None "dataplane" (option_ serde_YamlDataplane) yc_dataplane
  ▷ skipped is_none None "shutdown" (option_ serde_YamlShutdown) yc_shutdown
  ▷ skipped is_none None "data_source_limits" (option_ serde_YamlDataSourceLimits) yc_data_source_limits
  ▷ skipped is_nil [] "caches" (vec serde_YamlCacheInstance) yc_caches
  ▷ skipped is_none None "lookup" (option_ serde_YamlLookup) yc_lookup
  ▷ skipped is_none None "acls" (option_ serde_YamlAcls) yc_acls).

Definition serde_YamlOverlayPatch : Codec YamlOverlayPatch := struct_codec true (fields_of MkYamlOverlayPatch
  ▷ required "schema_version" u32 yo_schema_version
  ▷ defaulted None "listeners" (option_ serde_YamlListeners) yo_listeners
  ▷ defaulted None "forward" (option_ serde_YamlForward) yo_forward
  ▷ defaulted None "orchestrator" (option_ serde_YamlOrchestrator) yo_orchestrator
  ▷ defaulted None "events" (option_ serde_YamlEvents) yo_events
  ▷ defaulted None "rhai" (option_ serde_YamlRhai) yo_rhai
  ▷ defaulted [] "pools" (vec serde_YamlPool) yo_pools
  ▷ defaulted None "control" (option_ serde_YamlControl) yo_control
  ▷ defaulted None "rules" (option_ serde_YamlRules) yo_rules
  ▷ defaulted None "logging" (option_ serde_YamlLogging) yo_logging
  ▷ defaulted [] "data_sources" (vec serde_YamlDataSource) yo_data_sources
  ▷ defaulted None "metrics" (option_ serde_YamlMetrics) yo_metrics
  ▷ defaulted None "tracing" (option_ serde_YamlTracing) yo_tracing
  ▷ defaulted None "dataplane" (option_ serde_YamlDataplane) yo_dataplane
  ▷ defaulted None "shutdown" (option_ serde_YamlShutdown) yo_shutdown
  ▷ defaulted None "data_source_limits" (option_ serde_YamlDataSourceLimits) yo_data_source_limits
  ▷ defaulted [] "caches" (vec serde_YamlCacheInstance) yo_caches
  ▷ defaulted None "lookup" (option_ serde_YamlLookup) yo_lookup
  ▷ defaulted None "acls" (option_ serde_YamlAcls) yo_acls).

End Serde.

(** ** What is written is read back *)

Ltac struct_laws := eapply struct_lawful; [typeclasses eauto|by apply (bool_decide_unpack _); vm_compute|by intros []].

Section Laws.
Context {Y : Yaml} {L : YamlLaws Y} {O : HashOrder}.

(** The predicates of the attributes hold only of the defaults. *)
Section Skipped.
Context {R : Type}.
#[global] Instance skip_none {A} name (c : Codec (option A)) (get : R -> option A) : GoodAttr (skipped is_none None name c get).
Proof. by intros []. Qed.
#[global] Instance skip_nil {A} name (c : Codec (list A)) (get : R -> list A) : GoodAttr (skipped is_nil [] name c get).
Proof. by intros []. Qed.
#[global] Instance skip_empty name (c : Codec string) (get : R -> string) : GoodAttr (skipped is_empty "" name c get).
Proof. by intros a ->%String.eqb_eq. Qed.
#[global] Instance skip_empty_map {A} name (c : Codec (gmap string A)) (get : R -> gmap string A) : GoodAttr (skipped is_empty_map ∅ name c get).
Proof. intros m. cbn. unfold is_empty_map. destruct (map_to_list m) eqn:E; [|done]. by apply map_to_list_empty_iff in E as ->. Qed.
#[global] Instance skip_zero_u32 name (c : Codec Z) (get : R -> Z) : GoodAttr (skipped is_zero_u32 0 name c get).
Proof. by intros a ->%Z.eqb_eq. Qed.
#[global] Instance skip_zero_u64 name (c : Codec Z) (get : R -> Z) : GoodAttr (skipped is_zero_u64 0 name c get).
Proof. by intros a ->%Z.eqb_eq. Qed.
#[global] Instance skip_false name (c : Codec bool) (get : R -> bool) : GoodAttr (skipped is_false false name c get).
Proof. by intros []. Qed.
#[global] Instance skip_listeners name c (get : R -> YamlListeners) : GoodAttr (skipped YamlListeners_is_default YamlListeners_default name c get).
Proof.
  intros [t r rb sb ls]. cbn. unfold YamlListeners_is_default. cbn. rewrite !andb_true_iff, !Z.eqb_eq, eqb_true_iff.
  intros ((((-> & ->) & ->) & ->) & Hls). by destruct ls.
Qed.
#[global] Instance skip_forward name c (get : R -> YamlForward) : GoodAttr (skipped YamlForward_is_default YamlForward_default name c get).
Proof. by intros a ->%bool_decide_eq_true. Qed.
#[global] Instance skip_orchestrator name c (get : R -> YamlOrchestrator) :
  GoodAttr (skipped YamlOrchestrator_is_default YamlOrchestrator_default name c get).
Proof. by intros a ->%bool_decide_eq_true. Qed.
#[global] Instance skip_rhai name c (get : R -> YamlRhai) : GoodAttr (skipped YamlRhai_is_default YamlRhai_default name c get).
Proof. by intros a ->%bool_decide_eq_true. Qed.
#[global] Instance skip_events name c (get : R -> YamlEvents) : GoodAttr (skipped YamlEvents_is_default YamlEvents_default name c get).
Proof.
  intros [d p ss]. cbn. unfold YamlEvents_is_default. cbn. rewrite !andb_true_iff, Z.eqb_eq, String.eqb_eq.
  intros ((-> & ->) & Hs). by destruct ss.
Qed.
End Skipped.

#[global] Instance lawful_YamlAclRule : Lawful serde_YamlAclRule.
Proof. struct_laws. Qed.
#[global] Instance lawful_YamlAcls : Lawful serde_YamlAcls.
Proof. struct_laws. Qed.
#[global] Instance lawful_YamlListener : Lawful serde_YamlListener.
Proof. struct_laws. Qed.
#[global] Instance lawful_YamlListeners : Lawful serde_YamlListeners.
Proof. struct_laws. Qed.
#[global] Instance lawful_YamlForward : Lawful serde_YamlForward.
Proof. struct_laws. Qed.
#[global] Instance lawful_YamlOrchestrator : Lawful serde_YamlOrchestrator.
Proof. struct_laws. Qed.
#[global] Instance lawful_YamlSelector : Lawful serde_YamlSelector.
Proof. struct_laws. Qed.
#[global] Instance lawful_YamlEventSinkFilters : Lawful serde_YamlEventSinkFilters.
Proof. struct_laws. Qed.
#[global] Instance lawful_YamlConnectRetry : Lawful serde_YamlConnectRetry.
Proof. struct_laws. Qed.
#[global] Instance lawful_YamlEventSink : Lawful serde_YamlEventSink.
Proof. struct_laws. Qed.
#[global] Instance lawful_YamlEvents : Lawful serde_YamlEvents.
Proof. struct_laws. Qed.
#[global] Instance lawful_YamlRhai : Lawful serde_YamlRhai.
Proof. struct_laws. Qed.
#[global] Instance lawful_YamlBackend : Lawful serde_YamlBackend.
Proof. struct_laws. Qed.
#[global] Instance lawful_YamlHealthCheck : Lawful serde_YamlHealthCheck.
Proof. struct_laws. Qed.
#[global] Instance lawful_YamlPool : Lawful serde_YamlPool.
Proof. struct_laws. Qed.
#[global] Instance lawful_YamlControlTls : Lawful serde_YamlControlTls.
Proof. struct_laws. Qed.
#[global] Instance lawful_YamlControl : Lawful serde_YamlControl.
Proof. struct_laws. Qed.
#[global] Instance lawful_YamlAction : Lawful serde_YamlAction.
Proof. struct_laws. Qed.
#[global] Instance lawful_YamlRule : Lawful serde_YamlRule.
Proof. struct_laws. Qed.
#[global] Instance lawful_YamlRules : Lawful serde_YamlRules.
Proof. struct_laws. Qed.
#[global] Instance lawful_YamlAclDeniedSample : Lawful serde_YamlAclDeniedSample.
Proof. struct_laws. Qed.
#[global] Instance lawful_YamlQueryAccess : Lawful serde_YamlQueryAccess.
Proof. struct_laws. Qed.
#[global] Instance lawful_YamlLogging : Lawful serde_YamlLogging.
Proof. struct_laws. Qed.
#[global] Instance lawful_YamlDataSource : Lawful serde_YamlDataSource.
Proof. struct_laws. Qed.
#[global] Instance lawful_YamlMetricsCategories : Lawful serde_YamlMetricsCategories.
Proof. struct_laws. Qed.
#[global] Instance lawful_Detailed : Lawful serde_Detailed.
Proof. struct_laws. Qed.
#[global] Instance family_plain : Plain serde_YamlFamilyGranularity.
Proof.
  intros [d|d r]; [apply (content_written (c := vec string_))|]. cbn. rewrite content_map. f_equal.
  destruct d as [d|], (is_empty r) eqn:E; cbn; rewrite ?E; cbn; rewrite ?content_str; [..|done|done];
    pose proof (content_written (c := vec string_) d) as Hd; cbn in Hd; by rewrite Hd.
Qed.
#[global] Instance lawful_YamlFamilyGranularity : Lawful serde_YamlFamilyGranularity.
Proof.
  intros y _. cbn [de serde_YamlFamilyGranularity]. rewrite content_written. destruct y as [d|d r].
  - cbn [ser serde_YamlFamilyGranularity]. by rewrite read_written by (by apply Forall_true).
  - cbn [ser serde_YamlFamilyGranularity]. cbn [de vec]. unfold serde_Detailed at 1. cbn [ser struct_codec]. rewrite get_seq_map. cbn [mbind option_bind].
    change (y_map _) with (ser serde_Detailed (d, r)). rewrite read_written; [done|]. repeat constructor. destruct d; [|done]. by apply Forall_true.
Qed.
#[global] Instance granularity_nonnull : NonNull serde_YamlGranularity := fun y => get_option_map _.
Lemma is_key_written k x n : is_key k (y_str x, n) = String.eqb x k.
Proof. unfold is_key. cbn. rewrite get_str_written. destruct (String.eqb_spec x k); case_bool_decide; congruence. Qed.
Lemma flattened_keys {A} k (c : Codec A) (es : list (string * A)) : k ∉ es.*1 ->
  let l := (fun e => (y_str e.1, ser c e.2)) <$> es in
  List.filter (is_key k) l = [] /\ List.filter (fun e => negb (is_key k e)) l = l.
Proof.
  induction es as [|[x a] es IH]; cbn; [done|]. intros [Hx Hes]%not_elem_of_cons. destruct (IH Hes) as [IH1 IH2].
  rewrite !is_key_written. destruct (String.eqb_spec x k); [done|]. cbn in *. by rewrite IH1, IH2.
Qed.
Lemma buffered_written (es : list (string * YamlFamilyGranularity)) : buffered <$> ((fun e => (y_str e.1, ser serde_YamlFamilyGranularity e.2)) <$> es) =
  (fun e => (y_str e.1, ser serde_YamlFamilyGranularity e.2)) <$> es.
Proof. rewrite <- list_fmap_compose. apply list_fmap_ext. intros i [x y] _. unfold buffered, compose. cbn [fst snd]. by rewrite content_str, content_written. Qed.

#[global] Instance lawful_YamlGranularity : Lawful serde_YamlGranularity.
Proof.
  intros [d o] Ho. cbn in Ho. cbn [de ser serde_YamlGranularity ymg_default ymg_overrides]. rewrite get_map_written. cbn [mbind option_bind].
  assert ("default" ∉ (hash_iter o).*1) as Hno.
  { rewrite hash_iter_perm. intros ([k a] & E & Ha)%list_elem_of_fmap. cbn in E. subst k. apply elem_of_map_to_list in Ha. congruence. }
  destruct (flattened_keys "default" serde_YamlFamilyGranularity _ Hno) as [E1 E2].
  rewrite !List.filter_app, E1, E2, app_nil_r.
  assert (exists default, match List.filter (is_key "default") (if is_empty d then [] else [(y_str "default", y_str d)]) with
            [] => Some "" | [e] => get_str e.2 | _ => None end = Some default /\ default = d /\
          List.filter (fun e => negb (is_key "default" e)) (if is_empty d then [] else [(y_str "default", y_str d)]) = []) as (d' & E3 & -> & E4).
  { destruct (is_empty d) eqn:E; [apply String.eqb_eq in E as ->; by exists ""|]. exists d. cbn. rewrite !is_key_written. cbn. by rewrite get_str_written. }
  rewrite E3, E4, app_nil_l, buffered_written, entries_written by (apply lawful_YamlFamilyGranularity || by apply hash_iter_holds). cbn.
  by rewrite (collect_perm o) by apply hash_iter_perm.
Qed.
#[global] Instance lawful_YamlCollectEmit : Lawful serde_YamlCollectEmit.
Proof. struct_laws. Qed.
#[global] Instance lawful_YamlPrometheusMetrics : Lawful serde_YamlPrometheusMetrics.
Proof. struct_laws. Qed.
#[global] Instance lawful_YamlOtelMetrics : Lawful serde_YamlOtelMetrics.
Proof. struct_laws. Qed.
#[global] Instance lawful_YamlUserMetricExport : Lawful serde_YamlUserMetricExport.
Proof. struct_laws. Qed.
#[global] Instance lawful_YamlMetrics : Lawful serde_YamlMetrics.
Proof. struct_laws. Qed.
#[global] Instance lawful_YamlTracingActivation : Lawful serde_YamlTracingActivation.
Proof. struct_laws. Qed.
#[global] Instance lawful_YamlTracingOutput : Lawful serde_YamlTracingOutput.
Proof. struct_laws. Qed.
#[global] Instance lawful_YamlTracing : Lawful serde_YamlTracing.
Proof. struct_laws. Qed.
#[global] Instance lawful_YamlDataplane : Lawful serde_YamlDataplane.
Proof. struct_laws. Qed.
#[global] Instance lawful_YamlShutdown : Lawful serde_YamlShutdown.
Proof. struct_laws. Qed.
#[global] Instance lawful_YamlDataSourceLimits : Lawful serde_YamlDataSourceLimits.
Proof. struct_laws. Qed.
#[global] Instance lawful_YamlCacheNegativeConfig : Lawful serde_YamlCacheNegativeConfig.
Proof. struct_laws. Qed.
#[global] Instance lawful_YamlCacheOnHitConfig : Lawful serde_YamlCacheOnHitConfig.
Proof. struct_laws. Qed.
#[global] Instance lawful_YamlCacheTruncatedUdpConfig : Lawful serde_YamlCacheTruncatedUdpConfig.
Proof. struct_laws. Qed.
#[global] Instance lawful_YamlCacheMemoryConfig : Lawful serde_YamlCacheMemoryConfig.
Proof. struct_laws. Qed.
#[global] Instance lawful_YamlMapSize : Lawful serde_YamlMapSize.
Proof.
  intros [n|t] Hy; cbn [de ser serde_YamlMapSize].
  - rewrite (content_written (c := u64) n). by rewrite (read_written (c := u64) n Hy).
  - cbn. by rewrite content_str, get_uint_str, get_str_written.
Qed.
#[global] Instance lawful_YamlCacheLmdbConfig : Lawful serde_YamlCacheLmdbConfig.
Proof. struct_laws. Qed.
#[global] Instance lawful_YamlCacheKeyAugmentConfig : Lawful serde_YamlCacheKeyAugmentConfig.
Proof. struct_laws. Qed.
#[global] Instance lawful_YamlCacheKeyConfig : Lawful serde_YamlCacheKeyConfig.
Proof. struct_laws. Qed.
#[global] Instance lawful_YamlCacheInstance : Lawful serde_YamlCacheInstance.
Proof. struct_laws. Qed.
#[global] Instance lawful_YamlLookupProvider : Lawful serde_YamlLookupProvider.
Proof. struct_laws. Qed.
#[global] Instance lawful_YamlLookupProfile : Lawful serde_YamlLookupProfile.
Proof. struct_laws. Qed.
#[global] Instance lawful_YamlLookup : Lawful serde_YamlLookup.
Proof. struct_laws. Qed.
#[global] Instance lawful_YamlConfig : Lawful serde_YamlConfig.
Proof. struct_laws. Qed.

#[global] Instance range_YamlFamilyGranularity : RangeDec serde_YamlFamilyGranularity := fun _ => left I.
#[global] Instance range_YamlGranularity : RangeDec serde_YamlGranularity.
Proof. intros y. cbn. apply _. Defined.
#[global] Instance range_YamlMapSize : RangeDec serde_YamlMapSize.
Proof. intros [n|t]; cbn; [apply u64_range|exact (left I)]. Defined.
#[global] Instance range_YamlConfig : RangeDec serde_YamlConfig.
Proof. unfold serde_YamlConfig. apply _. Defined.
End Laws.
