(* ===== verification/ConfigFile.v ===== *)
(** * ConfigFile: reading and writing the configuration file

    The conversions of src/crates/conduit-config/src/file.rs between the schema of the file ([FileSchema]) and the messages of the
    configuration ([Config], [Messages]), the functions that read a file, an overlay and a metrics section, and those
    that write them (file.rs, export.rs), with the sizes of size.rs. Reading is [None] where the code panics. The theorems
    on them are in [FileRoundTrip]. *)

From stdpp Require Import base gmap list strings.
From Stdlib Require Import ZArith Lia Ascii SpecFloat.
From S2P Require Import Prelude Text Floats Selectors Rules Routing Acl Config Messages Compile Snapshot Validate Yaml FileSchema.

#[local] Open Scope string_scope.
#[local] Open Scope list_scope.
#[local] Open Scope Z_scope.

(** [ConfigError]; of an error of the YAML library only that there is one. *)
Inductive ConfigError := YamlError | InvalidConfig (messages : list Msg) | InvalidOverlay (errors : list OverlayError).

(** ** Sizes *)

Section Sizes.
Context (parse_f64 : string -> option f64).

(** [s.is_char_boundary(i)] for [i] within [s]: the byte there does not continue a character. *)
Definition is_char_boundary (s : string) (i : nat) : bool :=
  match String.get i s with Some c => negb (in_range 128 191 c) | None => true end.

Definition take_str (n : nat) (s : string) : string := String.substring 0 n s.
Definition drop_str (n : nat) (s : string) : string := String.substring n (String.length s - n) s.

Definition si_multiplier (suffix : string) : option Z :=
  if String.eqb suffix "KB" then Some (10 ^ 3) else if String.eqb suffix "MB" then Some (10 ^ 6)
  else if String.eqb suffix "GB" then Some (10 ^ 9) else if String.eqb suffix "TB" then Some (10 ^ 12)
  else if String.eqb suffix "PB" then Some (10 ^ 15) else None.

Definition f64_is_finite (x : f64) : bool := match x with S754_zero _ | S754_finite _ _ _ => true | _ => false end.
Definition f64_gt (a b : f64) : bool := f64_lt b a.

(** Slicing in the middle of a character panics. *)
Definition parse_si_size (raw : string) : option (result Z Msg) :=
  let s := trim raw in
  if is_empty s then Some (Err ("size must not be empty", []))
  else
    let upper := to_ascii_uppercase s in
    if existsb (ends_with upper) ["KIB"; "MIB"; "GIB"; "TIB"; "PIB"] then Some (Err ("size uses binary IEC suffix", [raw]))
    else if str_forall is_digit s then
      Some (match parse_uint u64_max s with Some n => Ok n | None => Err ("size is not a valid byte count", [raw]) end)
    else if Nat.ltb (String.length s) 3 then Some (Err ("size must be bare bytes or a coefficient with SI suffix", [raw]))
    else
      let cut := (String.length s - 2)%nat in
      if negb (is_char_boundary upper cut) then None
      else
        let suffix := drop_str cut upper in
        let coef_str := take_str cut s in
        if is_empty coef_str then Some (Err ("size is missing a coefficient before the suffix", [raw]))
        else Some (match si_multiplier suffix with
          | None => Err ("size has unknown suffix", [raw; suffix])
          | Some multiplier =>
              match parse_f64 coef_str with
              | None => Err ("size has invalid coefficient", [raw; coef_str])
              | Some coef =>
                  if negb (f64_is_finite coef) || f64_lt coef (f64_of_Z 0)
                  then Err ("size coefficient must be a non-negative finite number", [raw])
                  else
                    let bytes := f64_mul coef (f64_of_Z multiplier) in
                    if negb (f64_is_finite bytes) || f64_gt bytes (f64_of_Z u64_max) then Err ("size exceeds maximum u64 bytes", [raw])
                    else Ok (floor_as 0 u64_max bytes)
              end
          end).
End Sizes.

(** ** From the file *)

Definition ShutdownConfig_of (y : YamlShutdown) : ShutdownConfig :=
  {| sd_drain := ysd_drain y; sd_drain_timeout_ms := ysd_drain_timeout_ms y |}.
Definition DataplaneConfig_of (y : YamlDataplane) : DataplaneConfig := {|
  dp_runtime := ydp_runtime y; dp_policy_workers := ydp_policy_workers y; dp_io_workers := ydp_io_workers y;
  dp_slot_chunk_size := ydp_slot_chunk_size y |}.

Definition PrometheusMetricsConfig_of (y : YamlPrometheusMetrics) : PrometheusMetricsConfig :=
  {| pm_listen_address := ypm_listen_address y; pm_path := ypm_path y |}.
Definition OtelMetricsConfig_of (y : YamlOtelMetrics) : OtelMetricsConfig := {|
  ot_endpoint := yot_endpoint y; ot_push_interval_ms := default 0 (yot_push_interval_ms y);
  ot_resource_attributes := yot_resource_attributes y; ot_allow_invalid_certs := yot_allow_invalid_certs y;
  ot_headers := yot_headers y |}.
(** [YamlFamilyGranularity::into_proto] and [from_proto]. *)
Definition into_proto (y : YamlFamilyGranularity) : MetricsDimensionList :=
  match y with
  | Dimensions dimensions => {| md_dimensions := dimensions; md_rcode := ""; md_dimensions_set := true |}
  | Detailed dimensions rcode =>
      {| md_dimensions := default [] dimensions; md_rcode := rcode; md_dimensions_set := is_someb dimensions |}
  end.
Definition from_proto (l : MetricsDimensionList) : YamlFamilyGranularity :=
  if negb (is_empty (md_rcode l)) || negb (md_dimensions_set l)
  then Detailed (if md_dimensions_set l then Some (md_dimensions l) else None) (md_rcode l)
  else Dimensions (md_dimensions l).
Definition MetricsConfig_of (y : YamlMetrics) : MetricsConfig := {|
  me_enabled := yme_enabled y; me_profile := yme_profile y;
  me_prometheus := PrometheusMetricsConfig_of <$> yme_prometheus y; me_otel := OtelMetricsConfig_of <$> yme_otel y;
  me_user_metrics := (fun u => {| um_name := yum_name u; um_export := yum_export u; um_collect := yum_collect u;
                                  um_emit := yum_emit u; um_help := yum_help u |}) <$> yme_user_metrics y;
  me_base := yme_base y;
  me_categories := (fun c => {| mc_include_set := is_someb (ymc_include c); mc_exclude_set := is_someb (ymc_exclude c);
                                mc_include := default [] (ymc_include c); mc_exclude := default [] (ymc_exclude c) |}) <$> yme_categories y;
  me_granularity := (fun g => {| mg_default := ymg_default g; mg_overrides := into_proto <$> ymg_overrides g |}) <$> yme_granularity y;
  me_collection := (fun ce => {| ce_collect := yce_collect ce; ce_emit := yce_emit ce |}) <$> yme_collection y;
  me_event_export := (fun ce => {| ee_collect := yce_collect ce; ee_emit := yce_emit ce |}) <$> yme_event_export y |}.

Definition Selector_of (y : YamlSelector) : Selector :=
  {| sel_type := yse_selector_type y; sel_value := yse_value y; sel_key := yse_key y; sel_key_from := yse_key_from y |}.
Definition Action_of (y : YamlAction) : Action := {| act_type := yan_action_type y; act_value := yan_value y |}.

(** The message [TracingOutput] is its one field. *)
Definition TracingOutput_of (y : YamlTracingOutput) : bool := yto_log_json y.
Definition TracingActivation_of (y : YamlTracingActivation) : TracingActivation := {|
  ta_tag := yta_tag y; ta_selectors := Selector_of <$> yta_selectors y; ta_sample_percent := yta_sample_percent y;
  ta_sample_key := yta_sample_key y; ta_sample_key_from := yta_sample_key_from y |}.
Definition TracingConfig_of (y : YamlTracing) : TracingConfig := {|
  tr_enabled := ytr_enabled y; tr_activation := Some (TracingActivation_of (ytr_activation y));
  tr_log_json := Some (TracingOutput_of (ytr_output y)) |}.

Definition AclDeniedSample_of (y : YamlAclDeniedSample) : AclDeniedSample :=
  {| as_mode := yas_mode y; as_rate := yas_rate y; as_nth := yas_nth y |}.
Definition QueryAccessLogging_of (y : YamlQueryAccess) : QueryAccessLogging :=
  {| qa_acl_denied := yqa_acl_denied y; qa_acl_denied_sample := AclDeniedSample_of <$> yqa_acl_denied_sample y |}.
Definition LoggingConfig_of (y : YamlLogging) : LoggingConfig :=
  {| lo_level := ylo_level y; lo_output := ylo_output y; lo_query_access := QueryAccessLogging_of <$> ylo_query_access y |}.

Definition AclRule_of (y : YamlAclRule) : AclRuleConfig := {| rc_match := yar_match_view y; rc_action := yar_action y; rc_tag := yar_tag y |}.
Definition AclsConfig_of (y : YamlAcls) : Acl.AclsConfig :=
  {| ac_default_action := yac_default_action y; ac_rules := AclRule_of <$> yac_rules y |}.

Definition Rule_of (y : YamlRule) : RuleConfig := {|
  ru_name := yru_name y; ru_hook := yru_hook y; ru_selectors := Selector_of <$> yru_selectors y;
  ru_actions := Action_of <$> yru_actions y |}.
Definition RulesConfig_of (y : YamlRules) : RulesConfig := {| rs_match_mode := yrs_match_mode y; rs_rules := Rule_of <$> yrs_rules y |}.

Definition Listener_of (y : YamlListener) : ListenerConfig := {|
  li_address := yli_address y; li_protocol := yli_protocol y; li_threads := yli_threads y; li_reuse_port := yli_reuse_port y;
  li_name := yli_name y; li_rcvbuf := yli_rcvbuf y; li_acls := AclsConfig_of <$> yli_acls y |}.
Definition ListenersConfig_of (y : YamlListeners) : ListenersConfig := {|
  ls_threads := yls_threads y; ls_reuse_port := yls_reuse_port y; ls_rcvbuf := yls_rcvbuf y; ls_sndbuf := yls_sndbuf y;
  ls_listeners := Listener_of <$> yls_listeners y |}.

Definition ForwardConfig_of (y : YamlForward) : ForwardConfig := {|
  fc_outstanding_per_backend := yfc_outstanding_per_backend y; fc_timeout_ms := yfc_timeout_ms y; fc_sources_v4 := yfc_sources_v4 y;
  fc_source_selection := yfc_source_selection y; fc_sources_v6 := yfc_sources_v6 y; fc_upstream_transport := yfc_upstream_transport y;
  fc_client_tcp_uses_upstream_tcp := yfc_client_tcp_uses_upstream_tcp y |}.
Definition OrchestratorConfig_of (y : YamlOrchestrator) : OrchestratorConfig := {|
  max_attempts := yor_max_attempts y; max_txn_duration_ms := yor_max_txn_duration_ms y; txn_table_capacity := yor_txn_table_capacity y |}.
Definition RhaiConfig_of (y : YamlRhai) : RhaiConfig :=
  {| max_operations := yrh_max_operations y; max_call_depth := yrh_max_call_depth y; hook_timeout_ms := yrh_hook_timeout_ms y |}.

Definition ConnectRetry_of (r : YamlConnectRetry) : ConnectRetry := {|
  cr_initial_ms := ycr_initial_ms r; cr_max_ms := ycr_max_ms r; cr_multiplier := ycr_multiplier r;
  cr_max_elapsed_ms := ycr_max_elapsed_ms r; cr_jitter := ycr_jitter r |}.
Definition EventSink_of (y : YamlEventSink) : EventSink :=
  let f := yes_filters y in
  let filters := if yaml_event_filters_nonempty f then Some {|
      fi_tag_required := yfi_tag_required f; fi_selectors := Selector_of <$> yfi_selectors f; fi_sample_percent := yfi_sample_percent f;
      fi_sample_key := yfi_sample_key f; fi_sample_key_from := yfi_sample_key_from f; fi_pool := yfi_pool f; fi_backend := yfi_backend f |}
    else None in
  {| es_type := yes_sink_type y; es_export_id := yes_export_id y; es_name := yes_name y; es_destinations := yes_destinations y;
     es_emit := yes_emit y; es_filters := filters; es_extra_fields := yes_extra_fields y; es_extra_tags := yes_extra_tags y;
     es_connect_retry := ConnectRetry_of <$> yes_connect_retry y |}.
Definition EventsConfig_of (y : YamlEvents) : EventsConfig :=
  {| ev_queue_depth := yev_queue_depth y; ev_drop_policy := yev_drop_policy y; ev_sinks := EventSink_of <$> yev_sinks y |}.

Definition DataSource_of (y : YamlDataSource) : Config.DataSource := {|
  Config.ds_name := yds_name y; Config.ds_type := yds_source_type y; ds_path := yds_path y; ds_key_column := yds_key_column y;
  ds_value_column := yds_value_column y; ds_max_file_bytes := yds_max_file_bytes y; ds_max_entries := yds_max_entries y;
  ds_max_key_bytes := yds_max_key_bytes y; ds_max_value_bytes := yds_max_value_bytes y |}.
Definition DataSourceLimits_of (y : YamlDataSourceLimits) : DataSourceLimits := {|
  dl_max_file_bytes := ydl_max_file_bytes y; dl_max_entries := ydl_max_entries y; dl_max_key_bytes := ydl_max_key_bytes y;
  dl_max_value_bytes := ydl_max_value_bytes y; dl_max_tables := ydl_max_tables y; dl_max_total_bytes := ydl_max_total_bytes y |}.

(** [o.filter(|r| *r)]. *)
Definition filter_true (o : option bool) : option bool := match o with Some true => Some true | _ => None end.

Definition HealthCheck_of (y : YamlHealthCheck) : HealthCheck := {|
  hc_enabled := yhc_enabled y; hc_interval_ms := yhc_interval_ms y; hc_timeout_ms := yhc_timeout_ms y; hc_rise := yhc_rise y;
  hc_fall := yhc_fall y; hc_probe_qname := yhc_probe_qname y; hc_probe_qtype := yhc_probe_qtype y;
  hc_acceptable_rcodes := yhc_acceptable_rcodes y; hc_initial_state := yhc_initial_state y;
  hc_latency_weighting := yhc_latency_weighting y; hc_min_eligible := yhc_min_eligible y;
  hc_passive_fast_trip := yhc_passive_fast_trip y; hc_passive_fall := yhc_passive_fall y |}.
Definition Backend_of (y : YamlBackend) : Config.Backend := {|
  be_address := ybe_address y; be_weight := ybe_weight y; be_name := ybe_name y; be_probe_qname := ybe_probe_qname y;
  be_probe_qtype := ybe_probe_qtype y; be_probe_source := ybe_probe_source y; be_transport := ybe_transport y;
  be_remove := filter_true (ybe_remove y) |}.
Definition Pool_of (y : YamlPool) : Pool := {|
  po_name := ypo_name y; po_backends := Backend_of <$> ypo_backends y; po_sources_v4 := ypo_sources_v4 y;
  po_sources_v6 := ypo_sources_v6 y; po_max_inflight := ypo_max_inflight y; po_health := HealthCheck_of <$> ypo_health y;
  po_remove := filter_true (ypo_remove y) |}.

Definition ControlTlsConfig_of (y : YamlControlTls) : ControlTlsConfig := {|
  tls_cert_path := ytl_cert_path y; tls_key_path := ytl_key_path y; tls_client_ca_path := default "" (ytl_client_ca_path y) |}.
Definition ControlConfig_of (y : YamlControl) : ControlConfig := {|
  cl_listen_address := ycl_listen_address y; cl_reflection_enabled := ycl_reflection_enabled y; cl_api_keys := ycl_api_keys y;
  cl_tls := ControlTlsConfig_of <$> ycl_tls y |}.

Definition LookupProvider_of (y : YamlLookupProvider) : LookupProvider := {| pv_type := ypv_provider_type y; pv_cache := ypv_cache y |}.
Definition LookupProfile_of (y : YamlLookupProfile) : LookupProfile := {| pf_providers := LookupProvider_of <$> ypf_providers y |}.
Definition LookupConfig_of (y : YamlLookup) : LookupConfig := {| lc_profiles := LookupProfile_of <$> ylk_profiles y |}.

Definition CacheNegativeConfig_of (y : YamlCacheNegativeConfig) : CacheNegativeConfig := {|
  cn_enabled := ycn_enabled y; cn_covers_descendants := ycn_nxdomain_covers_descendants y; cn_servfail_ttl := ycn_servfail_ttl_secs y |}.
Definition CacheTruncatedUdpConfig_of (y : YamlCacheTruncatedUdpConfig) : CacheTruncatedUdpConfig :=
  {| tu_enabled := ytu_enabled y; tu_ttl_secs := ytu_ttl_secs y |}.
Definition CacheOnHitConfig_of (y : YamlCacheOnHitConfig) : CacheOnHitConfig := {| oh_response_rules := yoh_response_rules y |}.
Definition CacheMemoryConfig_of (y : YamlCacheMemoryConfig) : CacheMemoryConfig :=
  {| cm_shard_count := ycm_shard_count y; cm_eviction := ycm_eviction y |}.
(** The message is whether it has the section [augment]. *)
Definition CacheKeyConfig_of (y : YamlCacheKeyConfig) : bool := is_someb (yck_augment y).

(** A loop with the operator [?] over calls that may panic. *)
Fixpoint try_collect {A B E} (f : A -> option (result B E)) (l : list A) : option (result (list B) E) :=
  match l with
  | [] => Some (Ok [])
  | a :: l =>
      let! r := f a in
      match r with
      | Err e => Some (Err e)
      | Ok b => let! rs := try_collect f l in Some (let? bs := rs in Ok (b :: bs))
      end
  end.

Section Read.
Context (parse_f64 : string -> option f64).

Definition cache_lmdb_from_yaml (y : YamlCacheLmdbConfig) : option (result CacheLmdbConfig ConfigError) :=
  let! size := match ylm_map_size y with
               | Bytes n => Some (Ok n)
               | Si s => let! r := parse_si_size parse_f64 s in Some (map_err (fun e => InvalidConfig [e]) r)
               end in
  Some (let? map_size_bytes := size in
        Ok {| lm_path := ylm_path y; lm_map_size_bytes := map_size_bytes; lm_when_full := ylm_when_full y;
              lm_sample_size := ylm_sample_size y; lm_shard_count := ylm_shard_count y; lm_sync := ylm_sync y;
              lm_sync_interval := ylm_sync_interval y |}).

Definition cache_instance_from_yaml (y : YamlCacheInstance) : option (result Config.CacheInstance ConfigError) :=
  let! lmdb := match yca_lmdb y with
               | None => Some (Ok None)
               | Some l => let! r := cache_lmdb_from_yaml l in Some (result_map Some r)
               end in
  Some (let? lmdb := lmdb in
        Ok {| ca_name := yca_name y; ca_type := yca_cache_type y; ca_negative_cache := CacheNegativeConfig_of <$> yca_negative_cache y;
              ca_on_hit := CacheOnHitConfig_of <$> yca_on_hit y; ca_truncated_udp := CacheTruncatedUdpConfig_of <$> yca_truncated_udp y;
              ca_rotate := yca_rotate_rrset_on_serve y; ca_memory := CacheMemoryConfig_of <$> yca_memory y; ca_lmdb := lmdb;
              ca_key := CacheKeyConfig_of <$> yca_key y; ca_max_entries := yca_max_entries y |}).

Definition config_from_overlay (y : YamlOverlayPatch) : option (result Config ConfigError) :=
  let! caches := try_collect cache_instance_from_yaml (yo_caches y) in
  Some (let? caches := caches in
        Ok {| schema_version := yo_schema_version y; listeners := ListenersConfig_of <$> yo_listeners y;
              forward := ForwardConfig_of <$> yo_forward y; orchestrator := OrchestratorConfig_of <$> yo_orchestrator y;
              events := EventsConfig_of <$> yo_events y; rhai := RhaiConfig_of <$> yo_rhai y; pools := Pool_of <$> yo_pools y;
              control := ControlConfig_of <$> yo_control y; Config.rules := RulesConfig_of <$> yo_rules y;
              logging := LoggingConfig_of <$> yo_logging y; data_sources := DataSource_of <$> yo_data_sources y;
              metrics := MetricsConfig_of <$> yo_metrics y; tracing := TracingConfig_of <$> yo_tracing y;
              dataplane := DataplaneConfig_of <$> yo_dataplane y; shutdown := ShutdownConfig_of <$> yo_shutdown y;
              data_source_limits := DataSourceLimits_of <$> yo_data_source_limits y; caches := caches;
              Config.lookup := LookupConfig_of <$> yo_lookup y; acls := AclsConfig_of <$> yo_acls y |}).

Definition config_from_yaml (y : YamlConfig) : option (result Config ConfigError) :=
  let! caches := try_collect cache_instance_from_yaml (yc_caches y) in
  Some (let? caches := caches in
        Ok {| schema_version := yc_schema_version y; listeners := Some (ListenersConfig_of (yc_listeners y));
              forward := Some (ForwardConfig_of (yc_forward y)); orchestrator := Some (OrchestratorConfig_of (yc_orchestrator y));
              events := Some (EventsConfig_of (yc_events y)); rhai := Some (RhaiConfig_of (yc_rhai y)); pools := Pool_of <$> yc_pools y;
              control := ControlConfig_of <$> yc_control y; Config.rules := Some (RulesConfig_of (yc_rules y));
              logging := Some (LoggingConfig_of (yc_logging y)); data_sources := DataSource_of <$> yc_data_sources y;
              metrics := MetricsConfig_of <$> yc_metrics y; tracing := TracingConfig_of <$> yc_tracing y;
              dataplane := DataplaneConfig_of <$> yc_dataplane y; shutdown := ShutdownConfig_of <$> yc_shutdown y;
              data_source_limits := DataSourceLimits_of <$> yc_data_source_limits y; caches := caches;
              Config.lookup := LookupConfig_of <$> yc_lookup y; acls := AclsConfig_of <$> yc_acls y |}).
End Read.

(** ** To the file *)

(** An empty string is written as the default. *)
Definition or_default (d s : string) : string := if is_empty s then d else s.

Definition YamlDataSourceLimits_from (d : DataSourceLimits) : YamlDataSourceLimits := {|
  ydl_max_file_bytes := dl_max_file_bytes d; ydl_max_entries := dl_max_entries d; ydl_max_key_bytes := dl_max_key_bytes d;
  ydl_max_value_bytes := dl_max_value_bytes d; ydl_max_tables := dl_max_tables d; ydl_max_total_bytes := dl_max_total_bytes d |}.
Definition YamlHealthCheck_from (h : HealthCheck) : YamlHealthCheck := {|
  yhc_enabled := hc_enabled h; yhc_interval_ms := hc_interval_ms h; yhc_timeout_ms := hc_timeout_ms h; yhc_rise := hc_rise h;
  yhc_fall := hc_fall h; yhc_probe_qname := hc_probe_qname h; yhc_probe_qtype := hc_probe_qtype h;
  yhc_acceptable_rcodes := hc_acceptable_rcodes h; yhc_initial_state := hc_initial_state h;
  yhc_latency_weighting := hc_latency_weighting h; yhc_min_eligible := hc_min_eligible h;
  yhc_passive_fast_trip := hc_passive_fast_trip h; yhc_passive_fall := hc_passive_fall h |}.
Definition YamlCacheLmdbConfig_from (c : CacheLmdbConfig) : YamlCacheLmdbConfig := {|
  ylm_path := lm_path c; ylm_map_size := Bytes (lm_map_size_bytes c); ylm_when_full := lm_when_full c;
  ylm_sample_size := lm_sample_size c; ylm_shard_count := lm_shard_count c; ylm_sync := lm_sync c;
  ylm_sync_interval := lm_sync_interval c |}.

Definition YamlPrometheusMetrics_from (p : PrometheusMetricsConfig) : YamlPrometheusMetrics :=
  {| ypm_listen_address := pm_listen_address p; ypm_path := pm_path p |}.
Definition YamlOtelMetrics_from (o : OtelMetricsConfig) : YamlOtelMetrics := {|
  yot_endpoint := ot_endpoint o; yot_push_interval_ms := if ot_push_interval_ms o =? 0 then None else Some (ot_push_interval_ms o);
  yot_resource_attributes := ot_resource_attributes o; yot_allow_invalid_certs := ot_allow_invalid_certs o;
  yot_headers := ot_headers o |}.
Definition YamlMetrics_from (m : MetricsConfig) : YamlMetrics := {|
  yme_enabled := me_enabled m; yme_profile := me_profile m; yme_prometheus := YamlPrometheusMetrics_from <$> me_prometheus m;
  yme_otel := YamlOtelMetrics_from <$> me_otel m;
  yme_user_metrics := (fun u => {| yum_name := um_name u; yum_export := um_export u; yum_collect := um_collect u;
                                   yum_emit := um_emit u; yum_help := um_help u |}) <$> me_user_metrics m;
  yme_base := me_base m;
  yme_categories := (fun c => {| ymc_include := if mc_include_set c then Some (mc_include c) else None;
                                 ymc_exclude := if mc_exclude_set c then Some (mc_exclude c) else None |}) <$> me_categories m;
  yme_granularity := (fun g => {| ymg_default := mg_default g; ymg_overrides := from_proto <$> mg_overrides g |}) <$> me_granularity m;
  yme_collection := (fun ce => {| yce_collect := ce_collect ce; yce_emit := ce_emit ce |}) <$> me_collection m;
  yme_event_export := (fun ce => {| yce_collect := ee_collect ce; yce_emit := ee_emit ce |}) <$> me_event_export m |}.

Definition YamlSelector_from (s : Selector) : YamlSelector :=
  {| yse_selector_type := sel_type s; yse_value := sel_value s; yse_key := sel_key s; yse_key_from := sel_key_from s |}.
Definition YamlAction_from (a : Action) : YamlAction := {| yan_action_type := act_type a; yan_value := act_value a |}.

Definition YamlTracingOutput_from (log_json : bool) : YamlTracingOutput := {| yto_log_json := log_json |}.
Definition YamlTracingActivation_from (a : TracingActivation) : YamlTracingActivation := {|
  yta_tag := ta_tag a; yta_selectors := YamlSelector_from <$> ta_selectors a; yta_sample_percent := ta_sample_percent a;
  yta_sample_key := ta_sample_key a; yta_sample_key_from := ta_sample_key_from a |}.
Definition YamlTracing_from (t : TracingConfig) : YamlTracing := {|
  ytr_enabled := tr_enabled t;
  ytr_activation := default YamlTracingActivation_default (YamlTracingActivation_from <$> tr_activation t);
  ytr_output := default YamlTracingOutput_default (YamlTracingOutput_from <$> tr_log_json t) |}.

Definition YamlAclDeniedSample_from (s : AclDeniedSample) : YamlAclDeniedSample :=
  {| yas_mode := as_mode s; yas_rate := as_rate s; yas_nth := as_nth s |}.
Definition YamlQueryAccess_from (q : QueryAccessLogging) : YamlQueryAccess :=
  {| yqa_acl_denied := qa_acl_denied q; yqa_acl_denied_sample := YamlAclDeniedSample_from <$> qa_acl_denied_sample q |}.
Definition YamlLogging_from (l : LoggingConfig) : YamlLogging := {|
  ylo_level := or_default default_log_level (lo_level l); ylo_output := or_default default_log_output (lo_output l);
  ylo_query_access := YamlQueryAccess_from <$> lo_query_access l |}.

Definition YamlAclRule_from (r : AclRuleConfig) : YamlAclRule := {| yar_match_view := rc_match r; yar_action := rc_action r; yar_tag := rc_tag r |}.
Definition YamlAcls_from (a : Acl.AclsConfig) : YamlAcls := {|
  yac_default_action := or_default default_acl_default_action (ac_default_action a); yac_rules := YamlAclRule_from <$> ac_rules a |}.

Definition YamlRule_from (r : RuleConfig) : YamlRule := {|
  yru_name := ru_name r; yru_hook := ru_hook r; yru_selectors := YamlSelector_from <$> ru_selectors r;
  yru_actions := YamlAction_from <$> ru_actions r |}.
Definition YamlRules_from (r : RulesConfig) : YamlRules := {| yrs_match_mode := rs_match_mode r; yrs_rules := YamlRule_from <$> rs_rules r |}.

Definition YamlListener_from (ln : ListenerConfig) : YamlListener := {|
  yli_address := li_address ln; yli_protocol := li_protocol ln; yli_threads := li_threads ln; yli_reuse_port := li_reuse_port ln;
  yli_name := li_name ln; yli_rcvbuf := li_rcvbuf ln; yli_acls := YamlAcls_from <$> li_acls ln |}.
Definition YamlListeners_from (l : ListenersConfig) : YamlListeners := {|
  yls_threads := ls_threads l; yls_reuse_port := ls_reuse_port l; yls_rcvbuf := ls_rcvbuf l; yls_sndbuf := ls_sndbuf l;
  yls_listeners := YamlListener_from <$> ls_listeners l |}.
Definition YamlForward_from (f : ForwardConfig) : YamlForward := {|
  yfc_outstanding_per_backend := fc_outstanding_per_backend f; yfc_timeout_ms := fc_timeout_ms f; yfc_sources_v4 := fc_sources_v4 f;
  yfc_source_selection := or_default default_source_selection (fc_source_selection f); yfc_sources_v6 := fc_sources_v6 f;
  yfc_upstream_transport := fc_upstream_transport f; yfc_client_tcp_uses_upstream_tcp := fc_client_tcp_uses_upstream_tcp f |}.
Definition YamlOrchestrator_from (o : OrchestratorConfig) : YamlOrchestrator := {|
  yor_max_attempts := max_attempts o; yor_max_txn_duration_ms := max_txn_duration_ms o; yor_txn_table_capacity := txn_table_capacity o |}.
Definition YamlRhai_from (r : RhaiConfig) : YamlRhai :=
  {| yrh_max_operations := max_operations r; yrh_max_call_depth := max_call_depth r; yrh_hook_timeout_ms := hook_timeout_ms r |}.

Definition YamlConnectRetry_from (r : ConnectRetry) : YamlConnectRetry := {|
  ycr_initial_ms := cr_initial_ms r; ycr_max_ms := cr_max_ms r; ycr_multiplier := cr_multiplier r;
  ycr_max_elapsed_ms := cr_max_elapsed_ms r; ycr_jitter := cr_jitter r |}.
Definition YamlEventSinkFilters_from (f : EventSinkFilters) : YamlEventSinkFilters := {|
  yfi_tag_required := fi_tag_required f; yfi_selectors := YamlSelector_from <$> fi_selectors f; yfi_sample_percent := fi_sample_percent f;
  yfi_sample_key := fi_sample_key f; yfi_sample_key_from := fi_sample_key_from f; yfi_pool := fi_pool f; yfi_backend := fi_backend f |}.
Definition YamlEventSink_from (s : EventSink) : YamlEventSink :=
  let '(name, export_id) := match resolve_sink_identity s with
    | Ok i => if String.eqb (id_name i) (id_export_id i) then (Some (id_name i), "") else (Some (id_name i), id_export_id i)
    | Err _ => (es_name s, es_export_id s)
    end in
  {| yes_sink_type := es_type s; yes_export_id := export_id; yes_name := name; yes_destinations := es_destinations s; yes_emit := es_emit s;
     yes_filters := default YamlEventSinkFilters_default (YamlEventSinkFilters_from <$> es_filters s);
     yes_extra_fields := es_extra_fields s; yes_extra_tags := es_extra_tags s;
     yes_connect_retry := YamlConnectRetry_from <$> es_connect_retry s |}.
Definition YamlEvents_from (o : EventsConfig) : YamlEvents :=
  {| yev_queue_depth := ev_queue_depth o; yev_drop_policy := ev_drop_policy o; yev_sinks := YamlEventSink_from <$> ev_sinks o |}.
Definition YamlDataSource_from (d : Config.DataSource) : YamlDataSource := {|
  yds_name := Config.ds_name d; yds_source_type := Config.ds_type d; yds_path := ds_path d; yds_key_column := ds_key_column d;
  yds_value_column := ds_value_column d; yds_max_file_bytes := ds_max_file_bytes d; yds_max_entries := ds_max_entries d;
  yds_max_key_bytes := ds_max_key_bytes d; yds_max_value_bytes := ds_max_value_bytes d |}.
(** Markers for removal are never written. *)
Definition YamlBackend_from (b : Config.Backend) : YamlBackend := {|
  ybe_address := be_address b; ybe_name := be_name b;
  ybe_weight := match be_weight b with Some w => if w =? DEFAULT_BACKEND_WEIGHT then None else Some w | None => None end;
  ybe_probe_qname := be_probe_qname b; ybe_probe_qtype := be_probe_qtype b; ybe_probe_source := be_probe_source b;
  ybe_transport := be_transport b; ybe_remove := None |}.
Definition YamlPool_from (p : Pool) : YamlPool := {|
  ypo_name := po_name p; ypo_backends := YamlBackend_from <$> po_backends p; ypo_sources_v4 := po_sources_v4 p;
  ypo_sources_v6 := po_sources_v6 p; ypo_max_inflight := po_max_inflight p; ypo_health := YamlHealthCheck_from <$> po_health p;
  ypo_remove := None |}.

Definition YamlControl_from (c : ControlConfig) : YamlControl := {|
  ycl_listen_address := cl_listen_address c; ycl_reflection_enabled := cl_reflection_enabled c; ycl_api_keys := cl_api_keys c;
  ycl_tls := (fun t => {| ytl_cert_path := tls_cert_path t; ytl_key_path := tls_key_path t;
                          ytl_client_ca_path := if is_empty (tls_client_ca_path t) then None else Some (tls_client_ca_path t) |}) <$> cl_tls c |}.

Definition YamlLookupProvider_from (p : LookupProvider) : YamlLookupProvider := {| ypv_provider_type := pv_type p; ypv_cache := pv_cache p |}.
Definition YamlLookupProfile_from (p : LookupProfile) : YamlLookupProfile := {| ypf_providers := YamlLookupProvider_from <$> pf_providers p |}.
Definition YamlLookup_from (l : LookupConfig) : YamlLookup := {| ylk_profiles := YamlLookupProfile_from <$> lc_profiles l |}.

Definition YamlCacheNegativeConfig_from (n : CacheNegativeConfig) : YamlCacheNegativeConfig := {|
  ycn_enabled := cn_enabled n; ycn_nxdomain_covers_descendants := cn_covers_descendants n; ycn_servfail_ttl_secs := cn_servfail_ttl n |}.
Definition YamlCacheTruncatedUdpConfig_from (t : CacheTruncatedUdpConfig) : YamlCacheTruncatedUdpConfig :=
  {| ytu_enabled := tu_enabled t; ytu_ttl_secs := tu_ttl_secs t |}.
Definition YamlCacheOnHitConfig_from (o : CacheOnHitConfig) : YamlCacheOnHitConfig := {| yoh_response_rules := oh_response_rules o |}.
Definition YamlCacheMemoryConfig_from (m : CacheMemoryConfig) : YamlCacheMemoryConfig :=
  {| ycm_shard_count := cm_shard_count m; ycm_eviction := cm_eviction m |}.
Definition YamlCacheKeyConfig_from (augment : bool) : YamlCacheKeyConfig := {| yck_augment := if augment then Some tt else None |}.
Definition YamlCacheInstance_from (c : Config.CacheInstance) : YamlCacheInstance := {|
  yca_name := ca_name c; yca_cache_type := ca_type c; yca_negative_cache := YamlCacheNegativeConfig_from <$> ca_negative_cache c;
  yca_on_hit := YamlCacheOnHitConfig_from <$> ca_on_hit c; yca_truncated_udp := YamlCacheTruncatedUdpConfig_from <$> ca_truncated_udp c;
  yca_rotate_rrset_on_serve := ca_rotate c; yca_memory := YamlCacheMemoryConfig_from <$> ca_memory c;
  yca_lmdb := YamlCacheLmdbConfig_from <$> ca_lmdb c; yca_key := YamlCacheKeyConfig_from <$> ca_key c;
  yca_max_entries := ca_max_entries c |}.

(** [and_then]: a section that says nothing is left out. *)
Definition unless {A} (skip : A -> bool) (o : option A) : option A := let! a := o in if skip a then None else Some a.

Definition config_to_yaml (cfg : Config) : YamlConfig := {|
  yc_schema_version := schema_version cfg; yc_listeners := default YamlListeners_default (YamlListeners_from <$> listeners cfg);
  yc_forward := default YamlForward_default (YamlForward_from <$> forward cfg);
  yc_orchestrator := default YamlOrchestrator_default (YamlOrchestrator_from <$> orchestrator cfg);
  yc_events := default YamlEvents_default (YamlEvents_from <$> events cfg);
  yc_rhai := default YamlRhai_default (YamlRhai_from <$> rhai cfg); yc_pools := YamlPool_from <$> pools cfg;
  yc_control := YamlControl_from <$> control cfg; yc_rules := default YamlRules_default (YamlRules_from <$> Config.rules cfg);
  yc_logging := default YamlLogging_default (YamlLogging_from <$> logging cfg);
  yc_data_sources := YamlDataSource_from <$> data_sources cfg; yc_metrics := YamlMetrics_from <$> metrics cfg;
  yc_tracing := YamlTracing_from <$> tracing cfg;
  yc_dataplane := unless is_sync_default ((fun d => {| ydp_runtime := dp_runtime d; ydp_policy_workers := dp_policy_workers d;
    ydp_io_workers := dp_io_workers d; ydp_slot_chunk_size := dp_slot_chunk_size d |}) <$> dataplane cfg);
  yc_shutdown := unless YamlShutdown_is_default
    ((fun s => {| ysd_drain := sd_drain s; ysd_drain_timeout_ms := sd_drain_timeout_ms s |}) <$> shutdown cfg);
  yc_data_source_limits := unless YamlDataSourceLimits_is_default (YamlDataSourceLimits_from <$> data_source_limits cfg);
  yc_caches := YamlCacheInstance_from <$> caches cfg;
  yc_lookup := unless YamlLookup_is_empty (YamlLookup_from <$> Config.lookup cfg); yc_acls := YamlAcls_from <$> acls cfg |}.

(** ** Documents *)

Section Files.
Context {Y : Yaml} {O : HashOrder} (parse_f64 : string -> option f64).

Definition export_yaml (cfg : Config) : result Document ConfigError :=
  match to_string (ser serde_YamlConfig (config_to_yaml cfg)) with Some t => Ok t | None => Err YamlError end.

Definition load_yaml (input : Document) : option (result Config ConfigError) :=
  match (let! n := from_str input in de serde_YamlConfig n) with
  | None => Some (Err YamlError)
  | Some y => config_from_yaml parse_f64 y
  end.

Definition load_overlay_patch (input : Document) : option (result Config ConfigError) :=
  match (let! n := from_str input in de serde_YamlOverlayPatch n) with
  | None => Some (Err YamlError)
  | Some y =>
      let! r := config_from_overlay parse_f64 y in
      Some (let? cfg := r in
            match validate_overlay_patch cfg with [] => Ok cfg | es => Err (InvalidOverlay es) end)
  end.

(** A bare section, or a document with the key [metrics]. *)
Definition load_metrics_yaml (input : Document) : result MetricsConfig ConfigError :=
  match (let! n := from_str input in let! value := get_value n in
         let metrics_value := match get_map value with
           | Some l => match List.find (is_key "metrics") l with Some e => e.2 | None => value end
           | None => value
           end in
         de serde_YamlMetrics metrics_value) with
  | Some y => Ok (MetricsConfig_of y)
  | None => Err YamlError
  end.
Definition export_metrics_yaml (m : MetricsConfig) : result Document ConfigError :=
  match to_string (ser serde_YamlMetrics (YamlMetrics_from m)) with Some t => Ok t | None => Err YamlError end.
End Files.
