(* ===== verification/FileRoundTrip.v ===== *)
(** * FileRoundTrip: an exported configuration is the configuration

    What the export of a configuration ([export_yaml]) is worth: the text is read back, the configuration that is read
    passes the validation and compiles to the same snapshot, event sinks, tracing and access rules as the one that was
    exported, and the export of it reads as itself. The differences between the two configurations, which the compilers
    do not see, are those of [reloaded]. Then the metrics section on its own, and sizes. *)

From stdpp Require Import base gmap list strings.
From Stdlib Require Import ZArith Lia.
From S2P Require Import Prelude Text Floats Selectors Script Rules Routing Acl Config Messages DataSources Compile Snapshot Validate Events MetricsPlan Yaml FileSchema ConfigFile.

#[local] Open Scope string_scope.
#[local] Open Scope list_scope.
#[local] Open Scope Z_scope.

(** ** Conversions that lose nothing *)

Lemma list_there_back {A B} (f : A -> B) (g : B -> A) (l : list A) : (forall a, g (f a) = a) -> g <$> (f <$> l) = l.
Proof. intros H. induction l as [|a l IH]; cbn in *; [done|]. by rewrite H, IH. Qed.
Lemma option_there_back {A B} (f : A -> B) (g : B -> A) (o : option A) : (forall a, g (f a) = a) -> g <$> (f <$> o) = o.
Proof. intros H. destruct o; cbn; [by rewrite H|done]. Qed.
Lemma map_there_back {A B} (f : A -> B) (g : B -> A) (m : gmap string A) : map_Forall (fun _ a => g (f a) = a) m -> g <$> (f <$> m) = m.
Proof. intros H. apply map_eq. intros k. rewrite !lookup_fmap. destruct (m !! k) as [a|] eqn:E; cbn; [by rewrite (H k a E)|done]. Qed.

Create HintDb there_back.
Ltac there_back := repeat first [rewrite list_there_back by (auto with there_back) | rewrite option_there_back by (auto with there_back)].

Lemma selector_back s : Selector_of (YamlSelector_from s) = s.
Proof. by destruct s. Qed.
Lemma action_back a : Action_of (YamlAction_from a) = a.
Proof. by destruct a. Qed.
#[export] Hint Resolve selector_back action_back : there_back.
Lemma rule_back r : Rule_of (YamlRule_from r) = r.
Proof. destruct r. unfold Rule_of. cbn. by there_back. Qed.
#[export] Hint Resolve rule_back : there_back.
Lemma rules_back r : RulesConfig_of (YamlRules_from r) = r.
Proof. destruct r. unfold RulesConfig_of. cbn. by there_back. Qed.

Lemma activation_back a : TracingActivation_of (YamlTracingActivation_from a) = a.
Proof. destruct a. unfold TracingActivation_of. cbn. by there_back. Qed.
Lemma denied_sample_back s : AclDeniedSample_of (YamlAclDeniedSample_from s) = s.
Proof. by destruct s. Qed.
#[export] Hint Resolve activation_back denied_sample_back : there_back.
Lemma query_access_back q : QueryAccessLogging_of (YamlQueryAccess_from q) = q.
Proof. destruct q. unfold QueryAccessLogging_of. cbn. by there_back. Qed.
Lemma acl_rule_back r : AclRule_of (YamlAclRule_from r) = r.
Proof. by destruct r. Qed.
Lemma orchestrator_back o : OrchestratorConfig_of (YamlOrchestrator_from o) = o.
Proof. by destruct o. Qed.
Lemma rhai_back r : RhaiConfig_of (YamlRhai_from r) = r.
Proof. by destruct r. Qed.
Lemma data_source_back d : DataSource_of (YamlDataSource_from d) = d.
Proof. by destruct d. Qed.
Lemma limits_back d : DataSourceLimits_of (YamlDataSourceLimits_from d) = d.
Proof. by destruct d. Qed.
Lemma health_back h : HealthCheck_of (YamlHealthCheck_from h) = h.
Proof. by destruct h. Qed.
Lemma retry_back r : ConnectRetry_of (YamlConnectRetry_from r) = r.
Proof. by destruct r. Qed.
#[export] Hint Resolve query_access_back acl_rule_back data_source_back limits_back health_back retry_back : there_back.

Lemma control_back c : ControlConfig_of (YamlControl_from c) = c.
Proof.
  destruct c. unfold ControlConfig_of. cbn. rewrite option_there_back; [done|]. intros []. unfold ControlTlsConfig_of. cbn.
  destruct (is_empty _) eqn:E; [apply String.eqb_eq in E as ->|]; done.
Qed.
Lemma provider_back p : LookupProvider_of (YamlLookupProvider_from p) = p.
Proof. by destruct p. Qed.
#[export] Hint Resolve control_back provider_back : there_back.
Lemma profile_back p : LookupProfile_of (YamlLookupProfile_from p) = p.
Proof. destruct p. unfold LookupProfile_of. cbn. by there_back. Qed.
Lemma lookup_back l : LookupConfig_of (YamlLookup_from l) = l.
Proof. destruct l. unfold LookupConfig_of. cbn. rewrite map_there_back; [done|]. intros ? ? ?. apply profile_back. Qed.

Lemma negative_back n : CacheNegativeConfig_of (YamlCacheNegativeConfig_from n) = n.
Proof. by destruct n. Qed.
Lemma truncated_back n : CacheTruncatedUdpConfig_of (YamlCacheTruncatedUdpConfig_from n) = n.
Proof. by destruct n. Qed.
Lemma on_hit_back n : CacheOnHitConfig_of (YamlCacheOnHitConfig_from n) = n.
Proof. by destruct n. Qed.
Lemma memory_back n : CacheMemoryConfig_of (YamlCacheMemoryConfig_from n) = n.
Proof. by destruct n. Qed.
Lemma key_back k : CacheKeyConfig_of (YamlCacheKeyConfig_from k) = k.
Proof. by destruct k. Qed.
#[export] Hint Resolve negative_back truncated_back on_hit_back memory_back key_back : there_back.
Lemma cache_back parse_f64 c : cache_instance_from_yaml parse_f64 (YamlCacheInstance_from c) = Some (Ok c).
Proof.
  destruct c as [? ? ? ? ? ? ? ? ? [[]|]]; unfold cache_instance_from_yaml; cbn; by there_back.
Qed.
Lemma caches_back parse_f64 cs : try_collect (cache_instance_from_yaml parse_f64) (YamlCacheInstance_from <$> cs) = Some (Ok cs).
Proof. induction cs as [|c cs IH]; [done|]. cbn [fmap list_fmap try_collect]. by rewrite cache_back; cbn [mbind option_bind]; setoid_rewrite IH. Qed.

(** A list of a metrics section that is not marked as given is empty, as in every section that is read from a file. *)
Definition marked_dimensions (l : MetricsDimensionList) : Prop := md_dimensions_set l = false -> md_dimensions l = [].
Definition marked_metrics (m : MetricsConfig) : Prop :=
  (forall c, me_categories m = Some c -> (mc_include_set c = false -> mc_include c = []) /\ (mc_exclude_set c = false -> mc_exclude c = [])) /\
  (forall g, me_granularity m = Some g -> map_Forall (fun _ => marked_dimensions) (mg_overrides g)).

Lemma dimensions_back l : marked_dimensions l -> into_proto (from_proto l) = l.
Proof.
  destruct l as [ds r set]. unfold marked_dimensions, from_proto. cbn. intros H.
  destruct (is_empty r) eqn:E; [apply String.eqb_eq in E as ->|]; destruct set; cbn; rewrite ?H by done; done.
Qed.
Lemma otel_back o : OtelMetricsConfig_of (YamlOtelMetrics_from o) = o.
Proof. destruct o as [? p ? ? ?]. unfold OtelMetricsConfig_of. cbn. by destruct (Z.eqb_spec p 0) as [->|]. Qed.
Lemma prometheus_back p : PrometheusMetricsConfig_of (YamlPrometheusMetrics_from p) = p.
Proof. by destruct p. Qed.
#[export] Hint Resolve otel_back prometheus_back : there_back.
Lemma metrics_back m : marked_metrics m -> MetricsConfig_of (YamlMetrics_from m) = m.
Proof.
  destruct m as [en pr pm ot um ba ca gr co ee]. intros [Hc Hg]. unfold MetricsConfig_of. cbn in *. there_back.
  rewrite list_there_back by (by intros []). rewrite (map_there_back _ _ co) by (by intros ? [] _).
  f_equal; [..|by destruct ee as [[]|]].
  - destruct ca as [[inc exc si se]|]; [|done]. destruct (Hc _ eq_refl) as [H1 H2]. cbn in *. destruct si, se; cbn; rewrite ?H1, ?H2 by done; done.
  - destruct gr as [[d o]|]; [|done]. cbn. rewrite map_there_back; [done|]. intros k l Hl. apply dimensions_back. by apply (Hg _ eq_refl k).
Qed.

(** ** What is read back *)

Definition reloaded_acls (a : Acl.AclsConfig) : Acl.AclsConfig := AclsConfig_of (YamlAcls_from a).
Definition reloaded_listeners (l : ListenersConfig) : ListenersConfig := ListenersConfig_of (YamlListeners_from l).
Definition reloaded_pool (p : Pool) : Pool := Pool_of (YamlPool_from p).
Definition reloaded_sink (s : EventSink) : EventSink := EventSink_of (YamlEventSink_from s).
Definition reloaded_tracing (t : TracingConfig) : TracingConfig := TracingConfig_of (YamlTracing_from t).

Definition reloaded (cfg : Config) : Config :=
  let y := config_to_yaml cfg in
  {| schema_version := schema_version cfg; listeners := Some (ListenersConfig_of (yc_listeners y));
     forward := Some (ForwardConfig_of (yc_forward y)); orchestrator := Some (OrchestratorConfig_of (yc_orchestrator y));
     events := Some (EventsConfig_of (yc_events y)); rhai := Some (RhaiConfig_of (yc_rhai y)); pools := reloaded_pool <$> pools cfg;
     control := control cfg; Config.rules := Some (RulesConfig_of (yc_rules y)); logging := Some (LoggingConfig_of (yc_logging y));
     data_sources := data_sources cfg; metrics := MetricsConfig_of <$> (YamlMetrics_from <$> metrics cfg);
     tracing := reloaded_tracing <$> tracing cfg; dataplane := DataplaneConfig_of <$> yc_dataplane y;
     shutdown := ShutdownConfig_of <$> yc_shutdown y; data_source_limits := DataSourceLimits_of <$> yc_data_source_limits y;
     caches := caches cfg; Config.lookup := LookupConfig_of <$> yc_lookup y; acls := reloaded_acls <$> acls cfg |}.

Lemma from_to_yaml parse_f64 cfg : config_from_yaml parse_f64 (config_to_yaml cfg) = Some (Ok (reloaded cfg)).
Proof.
  unfold config_from_yaml, reloaded. cbn [config_to_yaml yc_caches yc_pools yc_control yc_data_sources yc_metrics yc_tracing yc_acls yc_schema_version].
  rewrite caches_back. cbn [mbind option_bind]. there_back.
  rewrite (list_there_back YamlDataSource_from), <- list_fmap_compose by (auto with there_back).
  by destruct (tracing cfg), (acls cfg).
Qed.

(** ** Exporting again *)

Lemma or_default_again d s : is_empty d = false -> or_default d (or_default d s) = or_default d s.
Proof. intros Hd. unfold or_default. destruct (is_empty s) eqn:E; [by rewrite Hd|by rewrite E]. Qed.

Lemma acls_again a : YamlAcls_from (AclsConfig_of (YamlAcls_from a)) = YamlAcls_from a.
Proof. unfold YamlAcls_from, AclsConfig_of. cbn. rewrite or_default_again by done. by rewrite (list_there_back YamlAclRule_from) by apply acl_rule_back. Qed.
Lemma listeners_again l : YamlListeners_from (ListenersConfig_of (YamlListeners_from l)) = YamlListeners_from l.
Proof.
  unfold YamlListeners_from, ListenersConfig_of. cbn. f_equal. rewrite <- !list_fmap_compose. apply list_fmap_ext.
  intros i [? ? ? ? ? ? [a|]] _; [|done]. unfold compose, YamlListener_from. cbn. by rewrite acls_again.
Qed.
Lemma forward_again f : YamlForward_from (ForwardConfig_of (YamlForward_from f)) = YamlForward_from f.
Proof. unfold YamlForward_from. cbn. by rewrite or_default_again. Qed.
Lemma logging_again l : YamlLogging_from (LoggingConfig_of (YamlLogging_from l)) = YamlLogging_from l.
Proof. unfold YamlLogging_from. cbn. rewrite !or_default_again by done. by rewrite (option_there_back YamlQueryAccess_from) by apply query_access_back. Qed.
Lemma backend_again b : YamlBackend_from (Backend_of (YamlBackend_from b)) = YamlBackend_from b.
Proof. destruct b as [? [w|] ? ? ? ? ? ?]; [|done]. unfold YamlBackend_from. cbn. destruct (Z.eqb_spec w DEFAULT_BACKEND_WEIGHT) as [|Hw]; [done|]. by apply Z.eqb_neq in Hw as ->. Qed.
Lemma pool_again p : YamlPool_from (reloaded_pool p) = YamlPool_from p.
Proof.
  unfold reloaded_pool, YamlPool_from, Pool_of. cbn. rewrite (option_there_back YamlHealthCheck_from) by apply health_back.
  f_equal. rewrite <- !list_fmap_compose. apply list_fmap_ext. intros i b _. apply backend_again.
Qed.
Lemma tracing_again t : YamlTracing_from (reloaded_tracing t) = YamlTracing_from t.
Proof.
  destruct t as [e a j]. unfold reloaded_tracing, TracingConfig_of, YamlTracing_from. cbn. f_equal; [|by destruct j].
  destruct a as [a|]; [|done]. cbn. by rewrite activation_back.
Qed.

Lemma trim_end_again p s : trim_end_by p (trim_end_by p s) = trim_end_by p s.
Proof.
  induction s as [|c s IH]; [done|]. cbn. destruct (trim_end_by p s) as [|d r]; [destruct (p c) eqn:E; cbn; by rewrite ?E|].
  cbn in *. by rewrite IH.
Qed.
Lemma trim_again s : trim (trim s) = trim s.
Proof.
  destruct (trim s) as [|c r] eqn:E; [done|]. pose proof (trim_first _ _ _ E) as Hc. unfold trim at 1. cbn [trim_start_by]. rewrite Hc.
  rewrite <- E. unfold trim. apply trim_end_again.
Qed.

Lemma identity_shape s i : resolve_sink_identity s = Ok i ->
  is_empty (id_name i) = false /\ is_empty (id_export_id i) = false /\ (id_name i = id_export_id i \/ trim (id_export_id i) = id_export_id i).
Proof.
  unfold resolve_sink_identity, Config.nonempty. intros E. destruct (es_name s) as [m|]; cbn in E; [destruct (String.eqb m "") eqn:Em; cbn in E|];
    destruct (is_empty (trim (es_export_id s))) eqn:Et; cbn in E; simplify_eq; cbn [id_name id_export_id]; rewrite ?trim_again; auto.
Qed.

(** The identity of a sink survives: the name is written, and the export id where it is another one. *)
Lemma sink_identity_again s : resolve_sink_identity (reloaded_sink s) = resolve_sink_identity s.
Proof.
  unfold reloaded_sink, YamlEventSink_from. destruct (resolve_sink_identity s) as [[n x]|e] eqn:E.
  - destruct (identity_shape s _ E) as (Hn & Hx' & Hx). cbn [id_name id_export_id] in *.
    cbn. destruct (String.eqb_spec n x) as [->|Hne]; unfold resolve_sink_identity, Config.nonempty, EventSink_of; cbn; [by unfold is_empty in Hx'; rewrite Hx'|].
    destruct Hx as [|Hx]; [done|]. unfold trim in Hx. rewrite Hx, Hx'. unfold is_empty in Hn. by rewrite Hn.
  - exact E.
Qed.

Definition reloaded_filters (o : option EventSinkFilters) : option EventSinkFilters :=
  let! f := o in if yaml_event_filters_nonempty (YamlEventSinkFilters_from f) then Some f else None.

Lemma reloaded_sink_fields s : let r := reloaded_sink s in
  es_type r = es_type s /\ es_destinations r = es_destinations s /\ es_emit r = es_emit s /\ es_extra_fields r = es_extra_fields s /\
  es_extra_tags r = es_extra_tags s /\ es_connect_retry r = es_connect_retry s /\ es_filters r = reloaded_filters (es_filters s).
Proof.
  unfold reloaded_sink, YamlEventSink_from. destruct (match resolve_sink_identity s with Ok _ => _ | Err _ => _ end) as [n x].
  cbn. split_and!; try done; [by rewrite (option_there_back YamlConnectRetry_from) by apply retry_back|].
  destruct (es_filters s) as [f|]; [|done]. cbn. destruct (yaml_event_filters_nonempty _) eqn:E; [|done].
  f_equal. rewrite (list_there_back YamlSelector_from) by apply selector_back. by destruct f.
Qed.

Lemma reloaded_sink_identity s : let r := reloaded_sink s in
  match resolve_sink_identity s with
  | Ok i => es_name r = Some (id_name i) /\ es_export_id r = (if String.eqb (id_name i) (id_export_id i) then "" else id_export_id i)
  | Err _ => es_name r = es_name s /\ es_export_id r = es_export_id s
  end.
Proof. unfold reloaded_sink, YamlEventSink_from. destruct (resolve_sink_identity s) as [i|]; [|done]. by destruct (String.eqb _ _). Qed.

Lemma EventSink_eta a b : es_type a = es_type b -> es_export_id a = es_export_id b -> es_destinations a = es_destinations b ->
  es_emit a = es_emit b -> es_filters a = es_filters b -> es_extra_fields a = es_extra_fields b -> es_extra_tags a = es_extra_tags b ->
  es_name a = es_name b -> es_connect_retry a = es_connect_retry b -> a = b.
Proof. destruct a, b. cbn. intros. by subst. Qed.

Lemma reloaded_sink_again s : reloaded_sink (reloaded_sink s) = reloaded_sink s.
Proof.
  pose proof (reloaded_sink_fields (reloaded_sink s)) as (F1 & F2 & F3 & F4 & F5 & F6 & F7). cbv zeta in *.
  pose proof (reloaded_sink_fields s) as (G1 & G2 & G3 & G4 & G5 & G6 & G7). cbv zeta in *.
  pose proof (reloaded_sink_identity (reloaded_sink s)) as Hi. pose proof (reloaded_sink_identity s) as Hi'.
  cbv zeta in *. rewrite sink_identity_again in Hi.
  apply EventSink_eta; try done.
  - destruct (resolve_sink_identity s); destruct Hi as [_ ->], Hi' as [_ ->]; done.
  - rewrite F7, G7. destruct (es_filters s) as [f|]; [|done]. cbn. destruct (yaml_event_filters_nonempty _) eqn:E; cbn; by rewrite ?E.
  - destruct (resolve_sink_identity s); destruct Hi as [-> _], Hi' as [-> _]; done.
Qed.

Lemma unless_some {A} (skip : A -> bool) o a : unless skip o = Some a -> o = Some a /\ skip a = false.
Proof. destruct o as [x|]; [|done]. cbn. destruct (skip x) eqn:E; [done|]. by intros [= ->]. Qed.
Lemma unless_again {A B} (skip : A -> bool) (f : A -> B) (g : B -> A) (o : option A) : (forall a, g (f a) = a) ->
  unless skip (g <$> (f <$> unless skip o)) = unless skip o.
Proof. intros H. rewrite option_there_back by done. destruct (unless skip o) as [a|] eqn:E; [|done]. apply unless_some in E as [_ E]. cbn. by rewrite E. Qed.

Lemma Some_from_again {A B} (f : A -> B) (g : B -> A) (d : B) (o : option A) : (forall a, f (g (f a)) = f a) -> f (g d) = d ->
  Some (g (default d (f <$> Some (g (default d (f <$> o)))))) = Some (g (default d (f <$> o))).
Proof. intros H Hd. destruct o as [a|]; cbn; [by rewrite H|by rewrite Hd]. Qed.

Lemma marked_read y : marked_metrics (MetricsConfig_of y).
Proof.
  split; cbn.
  - intros c. destruct (yme_categories y) as [[i e]|]; [|done]. intros [= <-]. by destruct i, e.
  - intros g. destruct (yme_granularity y) as [[d o]|]; [|done]. intros [= <-] k l. cbn. rewrite lookup_fmap.
    intros (f & _ & ->)%fmap_Some. unfold marked_dimensions. by destruct f as [|[]].
Qed.

Lemma profile_to y : YamlLookupProfile_from (LookupProfile_of y) = y.
Proof. destruct y. unfold YamlLookupProfile_from. cbn. rewrite list_there_back; [done|]. by intros []. Qed.
Lemma lookup_to y : YamlLookup_from (LookupConfig_of y) = y.
Proof. destruct y. unfold YamlLookup_from. cbn. rewrite map_there_back; [done|]. intros ? ? _. apply profile_to. Qed.

Lemma events_reloaded o : EventsConfig_of (YamlEvents_from o) = MkEvents (ev_queue_depth o) (ev_drop_policy o) (reloaded_sink <$> ev_sinks o).
Proof. unfold EventsConfig_of. cbn. by rewrite <- list_fmap_compose. Qed.
Lemma events_again o : EventsConfig_of (YamlEvents_from (EventsConfig_of (YamlEvents_from o))) = EventsConfig_of (YamlEvents_from o).
Proof. rewrite !events_reloaded. cbn. f_equal. rewrite <- list_fmap_compose. apply list_fmap_ext. intros i s _. apply reloaded_sink_again. Qed.

(** Reading the export of what was read gives the same again. *)
Lemma reloaded_again cfg : reloaded (reloaded cfg) = reloaded cfg.
Proof.
  unfold reloaded. cbn [schema_version listeners forward orchestrator events rhai pools control Config.rules logging data_sources metrics
    tracing dataplane shutdown data_source_limits caches Config.lookup acls config_to_yaml yc_listeners yc_forward yc_orchestrator yc_events
    yc_rhai yc_rules yc_logging yc_dataplane yc_shutdown yc_data_source_limits yc_lookup].
  rewrite !unless_again by (by intros []). f_equal.
  - by apply Some_from_again; [apply listeners_again|].
  - by apply Some_from_again; [apply forward_again|].
  - destruct (events cfg) as [o|]; [|done]. f_equal. apply events_again.
  - rewrite <- list_fmap_compose. apply list_fmap_ext. intros i p _. unfold compose, reloaded_pool at 1. by rewrite pool_again.
  - apply Some_from_again; [|done]. intros r. by rewrite rules_back.
  - by apply Some_from_again; [apply logging_again|].
  - destruct (metrics cfg) as [m|]; [|done]. cbn. f_equal. apply metrics_back, marked_read.
  - destruct (tracing cfg) as [t|]; [|done]. cbn. f_equal. unfold reloaded_tracing at 1. by rewrite tracing_again.
  - by rewrite unless_again by apply lookup_to.
  - destruct (acls cfg) as [a|]; [|done]. cbn. f_equal. unfold reloaded_acls. by rewrite acls_again.
Qed.

(** ** What the compilers and the validation see of it *)

Lemma with_seen_fmap {A B} (key : A -> option string) (f f' : A -> bool -> list B) (g : A -> A) l :
  (forall a, key (g a) = key a) -> (forall a fresh, f' (g a) fresh = f a fresh) ->
  forall seen, with_seen key f' seen (g <$> l) = with_seen key f seen l.
Proof.
  intros Hk Hf. induction l as [|a l IH]; intros seen; [done|]. cbn in *. rewrite Hk. destruct (key a); by rewrite Hf, IH.
Qed.
Lemma flat_map_fmap {A B} (f f' : A -> list B) (g : A -> A) (l : list A) : (forall a, f' (g a) = f a) -> flat_map f' (g <$> l) = flat_map f l.
Proof. intros H. induction l as [|a l IH]; [done|]. cbn in *. by rewrite H, IH. Qed.
Lemma try_map_fmap {A B E} (f f' : A -> result B E) (g : A -> A) (l : list A) : (forall a, f' (g a) = f a) -> try_map f' (g <$> l) = try_map f l.
Proof. intros H. induction l as [|a l IH]; [done|]. cbn in *. by rewrite H, IH. Qed.

Definition reloaded_backend (b : Config.Backend) : Config.Backend := Backend_of (YamlBackend_from b).

Lemma reloaded_pool_fields p : reloaded_pool p =
  MkPoolCfg (po_name p) (reloaded_backend <$> po_backends p) (po_sources_v4 p) (po_sources_v6 p) (po_max_inflight p) (po_health p) None.
Proof.
  unfold reloaded_pool, Pool_of. cbn. rewrite (option_there_back YamlHealthCheck_from) by apply health_back.
  by rewrite <- list_fmap_compose.
Qed.

Lemma backend_weight b : effective_backend_weight (reloaded_backend b) = effective_backend_weight b.
Proof. destruct b as [? [w|] ? ? ? ? ? ?]; [|done]. unfold effective_backend_weight. cbn. by destruct (Z.eqb_spec w DEFAULT_BACKEND_WEIGHT) as [->|]. Qed.

Section Pools.
Context (parse_sock : string -> option SocketAddr) (parse_v4 parse_v6 : string -> option Z) (parse_ip : string -> option IpAddr).

Lemma validate_pool_reloaded p fresh : validate_pool parse_v4 parse_v6 (reloaded_pool p) fresh = validate_pool parse_v4 parse_v6 p fresh.
Proof.
  rewrite reloaded_pool_fields. unfold validate_pool. cbn [po_name po_backends po_sources_v4 po_sources_v6 po_max_inflight].
  rewrite (with_seen_fmap _ (validate_backend p)); [|done|intros b f; unfold validate_backend; by rewrite backend_weight].
  by destruct (po_backends p).
Qed.

Lemma addresses_reloaded cfg : validate_upstream_backend_addresses parse_sock (reloaded cfg) = validate_upstream_backend_addresses parse_sock cfg.
Proof.
  unfold validate_upstream_backend_addresses. cbn. apply flat_map_fmap. intros p. rewrite reloaded_pool_fields. by apply flat_map_fmap.
Qed.

Lemma pool_forwards_reloaded ps : forall m, compile_pool_forwards parse_v4 parse_v6 (reloaded_pool <$> ps) m = compile_pool_forwards parse_v4 parse_v6 ps m.
Proof.
  induction ps as [|p ps IH]; intros m; [done|]. cbn [fmap list_fmap compile_pool_forwards]. rewrite reloaded_pool_fields.
  change (compile_pool_forward parse_v4 parse_v6 (MkPoolCfg _ _ _ _ _ _ _)) with (compile_pool_forward parse_v4 parse_v6 p).
  destruct (compile_pool_forward parse_v4 parse_v6 p); [apply IH|done].
Qed.

Lemma health_reloaded ps : forall m, compile_health_pools parse_sock parse_ip (reloaded_pool <$> ps) m = compile_health_pools parse_sock parse_ip ps m.
Proof.
  induction ps as [|p ps IH]; intros m; [done|]. cbn [fmap list_fmap compile_health_pools]. rewrite reloaded_pool_fields. cbn [po_health po_name].
  destruct (po_health p) as [hc|]; [|apply IH]. destruct (hc_enabled hc); [|apply IH].
  assert (compile_pool_health parse_sock parse_ip (MkPoolCfg (po_name p) (reloaded_backend <$> po_backends p) (po_sources_v4 p) (po_sources_v6 p)
    (po_max_inflight p) (Some hc) None) hc = compile_pool_health parse_sock parse_ip p hc) as ->.
  { unfold compile_pool_health. cbn [po_name po_backends]. destruct (map_err _ (parse_qtype _)); [|done].
    by erewrite (try_map_fmap (compile_backend_health parse_sock parse_ip p _ _)) by done. }
  destruct (compile_pool_health parse_sock parse_ip p hc); [apply IH|done].
Qed.

Lemma validate_health_reloaded cfg : validate_health parse_ip (reloaded cfg) = validate_health parse_ip cfg.
Proof.
  unfold validate_health. cbn. apply flat_map_fmap. intros p. rewrite reloaded_pool_fields. unfold validate_pool_health. cbn [po_health po_backends po_name].
  destruct (po_health p) as [hc|]; [|done]. cbn [opt_check]. by rewrite (flat_map_fmap (validate_backend_health parse_ip p)).
Qed.
End Pools.

Definition reloaded_listener (l : ListenerConfig) : ListenerConfig := Listener_of (YamlListener_from l).
Lemma reloaded_listeners_fields l : reloaded_listeners l =
  {| ls_threads := ls_threads l; ls_reuse_port := ls_reuse_port l; ls_rcvbuf := ls_rcvbuf l; ls_sndbuf := ls_sndbuf l;
     ls_listeners := reloaded_listener <$> ls_listeners l |}.
Proof. unfold reloaded_listeners, ListenersConfig_of. cbn. by rewrite <- list_fmap_compose. Qed.

Lemma validate_listeners_reloaded to_lowercase l :
  validate_listeners to_lowercase (reloaded_listeners l) = validate_listeners to_lowercase l.
Proof.
  rewrite reloaded_listeners_fields. unfold validate_listeners. cbn [ls_threads ls_listeners]. f_equal. by apply with_seen_fmap.
Qed.

Lemma acl_block_reloaded w a names : validate_acl_block w (reloaded_acls a) names = validate_acl_block w a names.
Proof.
  unfold validate_acl_block, reloaded_acls, AclsConfig_of. cbn [ac_default_action ac_rules YamlAcls_from yac_default_action yac_rules].
  rewrite (list_there_back YamlAclRule_from) by apply acl_rule_back. f_equal. unfold or_default.
  destruct (is_empty (ac_default_action a)) eqn:E; [|done]. apply String.eqb_eq in E as ->. done.
Qed.

Lemma listener_acls_reloaded names ls : forall i,
  validate_listener_acls names i (acl_listener <$> (reloaded_listener <$> ls)) = validate_listener_acls names i (acl_listener <$> ls).
Proof.
  induction ls as [|l ls IH]; intros i; [done|]. cbn [fmap list_fmap validate_listener_acls]. rewrite IH. f_equal.
  destruct l as [? ? ? ? ? ? [a|]]; [|done]. cbn. apply acl_block_reloaded.
Qed.

(** A policy for the gate: the same decisions, whichever of the two tiers it comes from. *)
Lemma acl_compile_reloaded a : acl_compile (reloaded_acls a) = acl_compile a.
Proof.
  unfold acl_compile, reloaded_acls, AclsConfig_of. cbn [ac_default_action ac_rules YamlAcls_from yac_default_action yac_rules].
  rewrite (list_there_back YamlAclRule_from) by apply acl_rule_back. unfold or_default.
  destruct (is_empty (ac_default_action a)) eqn:E; [|done]. apply String.eqb_eq in E as ->. done.
Qed.

(** The sections that every file has, and no list that is not marked. *)
Record sections_present (cfg : Config) : Prop := {
  has_listeners : is_Some (listeners cfg); has_forward : is_Some (forward cfg); has_orchestrator : is_Some (orchestrator cfg);
  has_events : is_Some (events cfg); has_rhai : is_Some (rhai cfg); has_rules : is_Some (Config.rules cfg);
  has_logging : is_Some (logging cfg); has_marks : forall m, metrics cfg = Some m -> marked_metrics m;
}.

(** What is read from a file has every section. *)
Lemma read_complete parse_f64 y cfg : config_from_yaml parse_f64 y = Some (Ok cfg) -> sections_present cfg.
Proof.
  unfold config_from_yaml. destruct (try_collect _ _) as [[cs|]|]; [|done|done]. intros [= <-]. split; try by eexists.
  intros m. cbn. destruct (yc_metrics y) as [ym|]; [|done]. intros [= <-]. apply marked_read.
Qed.

Section Complete.
Context (cfg : Config) (Hc : sections_present cfg).

Lemma listeners_of_reloaded : exists l, listeners cfg = Some l /\ listeners (reloaded cfg) = Some (reloaded_listeners l).
Proof. destruct (has_listeners _ Hc) as [l E]. exists l. cbn. by rewrite E. Qed.
Lemma forward_of_reloaded : exists f, forward cfg = Some f /\ forward (reloaded cfg) = Some (ForwardConfig_of (YamlForward_from f)).
Proof. destruct (has_forward _ Hc) as [f E]. exists f. cbn. by rewrite E. Qed.
Lemma events_of_reloaded : exists o, events cfg = Some o /\
  events (reloaded cfg) = Some (MkEvents (ev_queue_depth o) (ev_drop_policy o) (reloaded_sink <$> ev_sinks o)).
Proof. destruct (has_events _ Hc) as [o E]. exists o. cbn. rewrite E. cbn. by rewrite events_reloaded. Qed.
Lemma orchestrator_of_reloaded : orchestrator (reloaded cfg) = orchestrator cfg.
Proof. destruct (has_orchestrator _ Hc) as [o E]. cbn. rewrite E. cbn. by rewrite orchestrator_back. Qed.
Lemma rhai_of_reloaded : rhai (reloaded cfg) = rhai cfg.
Proof. destruct (has_rhai _ Hc) as [r E]. cbn. rewrite E. cbn. by rewrite rhai_back. Qed.
Lemma rules_of_reloaded : Config.rules (reloaded cfg) = Config.rules cfg.
Proof. destruct (has_rules _ Hc) as [r E]. cbn. rewrite E. cbn. by rewrite rules_back. Qed.
Lemma metrics_of_reloaded : metrics (reloaded cfg) = metrics cfg.
Proof. cbn. destruct (metrics cfg) as [m|] eqn:E; [|done]. cbn. by rewrite metrics_back by (by eapply has_marks). Qed.

Lemma logging_reloaded : validate_logging (logging (reloaded cfg)) = validate_logging (logging cfg).
Proof.
  destruct (has_logging _ Hc) as [[l o q] E]. cbn. rewrite E. cbn. rewrite (option_there_back YamlQueryAccess_from) by apply query_access_back.
  unfold or_default. destruct (is_empty l) eqn:El, (is_empty o) eqn:Eo; cbn [lo_level lo_output lo_query_access validate_logging]; rewrite ?El, ?Eo; done.
Qed.

Lemma acls_reloaded : validate_acls (acl_view (reloaded cfg)) = validate_acls (acl_view cfg).
Proof.
  destruct listeners_of_reloaded as (l & El & Er). unfold validate_acls. change (cidr_names (acl_view (reloaded cfg))) with (cidr_names (acl_view cfg)).
  f_equal.
  - unfold acl_view. cbn. destruct (acls cfg); [|done]. cbn. by rewrite acl_block_reloaded.
  - unfold acl_view. cbn [cf_listeners]. rewrite El, Er, reloaded_listeners_fields. cbn. apply listener_acls_reloaded.
Qed.
End Complete.

(** *** Sections that say nothing are left out *)

Lemma dataplane_reloaded cfg : dataplane (reloaded cfg) = dataplane cfg \/ dataplane (reloaded cfg) = None /\
  dataplane cfg = Some {| dp_runtime := DEFAULT_DATAPLANE_RUNTIME; dp_policy_workers := DEFAULT_POLICY_WORKERS; dp_io_workers := DEFAULT_IO_WORKERS;
                          dp_slot_chunk_size := None |}.
Proof.
  cbn. destruct (dataplane cfg) as [[r p i s]|]; [|by left]. cbn. unfold is_sync_default. cbn.
  destruct (String.eqb_spec r DEFAULT_DATAPLANE_RUNTIME) as [->|]; [|by left].
  destruct (Z.eqb_spec p DEFAULT_POLICY_WORKERS) as [->|]; [|by left].
  destruct (Z.eqb_spec i DEFAULT_IO_WORKERS) as [->|]; [|by left]. destruct s; [by left|by right].
Qed.

Lemma limits_reloaded cfg : data_source_limits (reloaded cfg) = data_source_limits cfg \/
  data_source_limits (reloaded cfg) = None /\ data_source_limits cfg = Some (Build_DataSourceLimits 0 0 0 0 0 0).
Proof.
  cbn. destruct (data_source_limits cfg) as [[f e k v t b]|]; [|by left]. cbn. unfold YamlDataSourceLimits_is_default. cbn.
  destruct (Z.eqb_spec f 0) as [->|]; [|by left]. destruct (Z.eqb_spec e 0) as [->|]; [|by left].
  destruct (Z.eqb_spec k 0) as [->|]; [|by left]. destruct (Z.eqb_spec v 0) as [->|]; [|by left].
  destruct (Z.eqb_spec t 0) as [->|]; [|by left]. destruct (Z.eqb_spec b 0) as [->|]; [by right|by left].
Qed.

Lemma table_limits_reloaded cfg : limits_from_config (data_source_limits (reloaded cfg)) = limits_from_config (data_source_limits cfg).
Proof. destruct (limits_reloaded cfg) as [->|[-> ->]]; done. Qed.

Lemma effective_reloaded cfg : effective_dataplane_runtime (reloaded cfg) = effective_dataplane_runtime cfg /\
  effective_policy_workers (reloaded cfg) = effective_policy_workers cfg /\ effective_io_workers (reloaded cfg) = effective_io_workers cfg /\
  validate_dataplane (reloaded cfg) = validate_dataplane cfg /\ effective_drain (reloaded cfg) = effective_drain cfg /\
  effective_drain_timeout_ms (reloaded cfg) = effective_drain_timeout_ms cfg.
Proof.
  unfold effective_dataplane_runtime, effective_policy_workers, effective_io_workers, validate_dataplane, effective_drain, effective_drain_timeout_ms.
  destruct (dataplane_reloaded cfg) as [->|[-> ->]]; (split_and!; [done..| |]; cbn; destruct (shutdown cfg) as [[[d|] [t|]]|]; done).
Qed.

Lemma lookup_reloaded cfg : Config.lookup (reloaded cfg) = Config.lookup cfg \/
  Config.lookup (reloaded cfg) = None /\ exists l, Config.lookup cfg = Some l /\ lc_profiles l = ∅.
Proof.
  cbn. destruct (Config.lookup cfg) as [l|]; [|by left]. cbn. destruct (YamlLookup_is_empty (YamlLookup_from l)) eqn:E; cbn.
  - right. split; [done|]. exists l. split; [done|]. unfold YamlLookup_is_empty, is_empty_map in E. cbn in E.
    destruct (map_to_list _) eqn:Em; [|done]. apply map_to_list_empty_iff in Em. by apply fmap_empty_iff in Em.
  - left. by rewrite lookup_back.
Qed.

(** *** The sections of the snapshot *)

Section Snapshots.
Context (parse_sock : string -> option SocketAddr) (parse_v4 parse_v6 : string -> option Z) (parse_ip : string -> option IpAddr).
Context (to_lowercase : string -> string) (preflight : string -> result unit Msg).
Context (iter : gmap string LookupProfile -> list (string * LookupProfile)) (iter_empty : iter ∅ = []).
Context (cfg : Config) (Hc : sections_present cfg).

Lemma concurrency_reloaded : lookup_concurrency to_lowercase (reloaded cfg) = lookup_concurrency to_lowercase cfg.
Proof.
  unfold lookup_concurrency. destruct (effective_reloaded cfg) as (-> & -> & _). destruct (_ || _); [done|].
  destruct (listeners_of_reloaded cfg Hc) as (l & -> & ->). rewrite reloaded_listeners_fields. cbn [ls_listeners ls_threads].
  destruct (ls_listeners l) as [|ln lns] eqn:E; [done|]. cbn. do 2 f_equal. f_equal. f_equal.
  rewrite <- list_fmap_compose. by apply list_fmap_ext.
Qed.

Lemma compile_lookup_reloaded c : compile_lookup_from_config preflight to_lowercase iter cfg = Ok c ->
  compile_lookup_from_config preflight to_lowercase iter (reloaded cfg) = Ok c.
Proof.
  unfold compile_lookup_from_config. rewrite concurrency_reloaded. change (caches (reloaded cfg)) with (caches cfg).
  destruct (compile_cache_instances _ _ _ _); [|done]. destruct (lookup_reloaded cfg) as [->|(-> & l & -> & El)]; [done|].
  rewrite El, iter_empty. by case_bool_decide.
Qed.

Lemma compile_forward_reloaded :
  compile_forward_from_config parse_sock parse_v4 parse_v6 (reloaded cfg) = compile_forward_from_config parse_sock parse_v4 parse_v6 cfg.
Proof.
  unfold compile_forward_from_config. rewrite addresses_reloaded. destruct (validate_upstream_backend_addresses _ _); [|done].
  destruct (forward_of_reloaded cfg Hc) as (f & -> & ->). change (pools (reloaded cfg)) with (reloaded_pool <$> pools cfg).
  rewrite pool_forwards_reloaded. destruct f as [o t s4 sel s6 tr ct]. cbn. unfold or_default.
  destruct (is_empty sel) eqn:E; cbn; [done|by rewrite E].
Qed.
End Snapshots.

(** *** Event sinks *)

Section Sinks.
Context (parse_f64 : string -> option f64) (base_dir : option string).

Lemma nonempty_none o : is_someb (Config.nonempty o) = false -> o = None \/ o = Some "".
Proof. unfold Config.nonempty. destruct o as [x|]; [|by left]. cbn. destruct (String.eqb_spec x "") as [->|]; [by right|done]. Qed.
Lemma nonempty_none_set o : is_someb (Config.nonempty o) = false -> set_but_empty o = false -> o = None.
Proof. by intros [->| ->]%nonempty_none. Qed.
Lemma nonempty_key_none o : is_someb (Config.nonempty o) = false -> nonempty_key o = None.
Proof. by intros [->| ->]%nonempty_none. Qed.

(** Filters that are not written select every event. *)
Lemma silent_filters f name : yaml_event_filters_nonempty (YamlEventSinkFilters_from f) = false -> validate_filters parse_f64 f = [] ->
  parse_sink_filters parse_f64 (Some f) name = Some filters_default.
Proof.
  unfold yaml_event_filters_nonempty, validate_filters. cbn [YamlEventSinkFilters_from yfi_tag_required yfi_selectors yfi_sample_percent
    yfi_sample_key yfi_sample_key_from yfi_pool yfi_backend]. rewrite !orb_false_iff, !app_nil_iff, !check_nil, !negb_true_iff.
  intros ((((((Ht & Hs) & Hp) & Hk) & Hf) & Hpo) & Hb) (_ & _ & _ & Vp & Vb). apply negb_false_iff in Hs.
  destruct f as [t ss p po b k kf]. cbn in *. destruct t; [done|]. destruct ss; [|done]. destruct p; [done|].
  rewrite (nonempty_none_set po), (nonempty_none_set b) by done. cbn. unfold compile_sample_key_fields. by rewrite !nonempty_key_none.
Qed.

Lemma filters_reloaded o name : (forall f, o = Some f -> validate_filters parse_f64 f = []) ->
  parse_sink_filters parse_f64 (reloaded_filters o) name = parse_sink_filters parse_f64 o name.
Proof.
  intros Hv. destruct o as [f|]; [|done]. cbn [reloaded_filters mbind option_bind]. destruct (yaml_event_filters_nonempty _) eqn:E; [done|].
  by rewrite (silent_filters f name E (Hv _ eq_refl)).
Qed.

Lemma compile_sink_reloaded s : validate_sink parse_f64 s = [] -> compile_one_sink parse_f64 base_dir (reloaded_sink s) = compile_one_sink parse_f64 base_dir s.
Proof.
  intros Hv. unfold compile_one_sink, parse_connect_retry. rewrite sink_identity_again.
  destruct (reloaded_sink_fields s) as (-> & -> & -> & -> & -> & -> & ->). destruct (_ || _); [done|].
  destruct (resolve_sink_identity s) as [i|]; [|done]. cbn [result_ok mbind option_bind]. rewrite filters_reloaded; [done|].
  intros f Ef. unfold validate_sink in Hv. rewrite !app_nil_iff in Hv. destruct Hv as (_ & _ & _ & _ & _ & _ & _ & _ & _ & Hv).
  by rewrite on_some_nil in Hv; apply Hv.
Qed.

Lemma validate_sink_reloaded s : validate_sink parse_f64 s = [] -> validate_sink parse_f64 (reloaded_sink s) = [].
Proof.
  unfold validate_sink, parse_connect_retry. rewrite sink_identity_again, !app_nil_iff.
  destruct (reloaded_sink_fields s) as (-> & -> & -> & -> & -> & -> & ->). intros (H1 & H2 & H3 & H4 & H5 & H6 & H7 & H8 & H9 & H10).
  split_and!; try done.
  - pose proof (reloaded_sink_identity s) as Hi. cbv zeta in Hi. apply of_result_nil in H2 as [i Hr]. rewrite Hr in Hi. destruct Hi as [-> _].
    rewrite check_nil. apply negb_true_iff. by apply (identity_shape s i Hr).
  - rewrite on_some_nil in H10. rewrite on_some_nil. intros f. destruct (es_filters s) as [f'|]; [|done]. cbn.
    destruct (yaml_event_filters_nonempty _); [|done]. intros [= <-]. by apply H10.
Qed.

Lemma sink_identities_reloaded ss : forall names ids, sink_identity_errors names ids (reloaded_sink <$> ss) = sink_identity_errors names ids ss.
Proof.
  induction ss as [|s ss IH]; intros names ids; [done|]. cbn [fmap list_fmap sink_identity_errors]. rewrite sink_identity_again.
  destruct (resolve_sink_identity s); by setoid_rewrite IH.
Qed.

Lemma validate_events_reloaded o : validate_events parse_f64 o = [] ->
  validate_events parse_f64 (MkEvents (ev_queue_depth o) (ev_drop_policy o) (reloaded_sink <$> ev_sinks o)) = [].
Proof.
  unfold validate_events, validate_sink_identity_uniqueness. cbn [ev_queue_depth ev_drop_policy ev_sinks]. rewrite sink_identities_reloaded, !app_nil_iff.
  intros (H1 & H2 & H3 & H4). split_and!; try done. apply flat_map_nil. apply flat_map_nil in H3. apply Forall_fmap.
  eapply Forall_impl; [exact H3|]. intros s. apply validate_sink_reloaded.
Qed.

Lemma compile_events_reloaded cfg o : sections_present cfg -> events cfg = Some o -> validate_events parse_f64 o = [] ->
  compile_events parse_f64 base_dir (reloaded cfg) = compile_events parse_f64 base_dir cfg.
Proof.
  intros Hc Eo Hv. destruct (events_of_reloaded cfg Hc) as (o' & Eo' & Er). assert (o' = o) as -> by congruence. clear Eo'.
  unfold compile_events. rewrite Eo, Er. cbn [ev_queue_depth ev_drop_policy].
  assert (compile_sinks parse_f64 base_dir (MkEvents (ev_queue_depth o) (ev_drop_policy o) (reloaded_sink <$> ev_sinks o)) = compile_sinks parse_f64 base_dir o) as ->; [|done].
  unfold validate_events in Hv. rewrite !app_nil_iff in Hv. destruct Hv as (_ & _ & Hv & _). apply flat_map_nil in Hv.
  unfold compile_sinks. cbn [ev_sinks]. clear Er. induction Hv as [|s ss Hs Hss IH]; [done|]. cbn. rewrite compile_sink_reloaded by done.
  destruct (compile_one_sink parse_f64 base_dir s); [by f_equal|exact IH].
Qed.
End Sinks.

(** *** Metrics and tracing *)

Section Tracing.
Context (iter_overrides : gmap string MetricsDimensionList -> list (string * MetricsDimensionList)).
Context (iter_collection : gmap string MetricsCollectEmit -> list (string * MetricsCollectEmit)).
Context (parse_sock : string -> option SocketAddr) (parse_f64 : string -> option f64).

Lemma compile_tracing_reloaded o : compile_tracing parse_f64 (reloaded_tracing <$> o) = compile_tracing parse_f64 o.
Proof.
  destruct o as [[e a j]|]; [|done]. cbn. destruct e; [|done]. cbn. destruct a as [a|]; [|by destruct j]. cbn.
  rewrite (list_there_back YamlSelector_from) by apply selector_back. by destruct j.
Qed.

Lemma validate_metrics_reloaded cfg : sections_present cfg ->
  validate_metrics_tracing iter_overrides iter_collection parse_sock parse_f64 cfg = [] ->
  validate_metrics_tracing iter_overrides iter_collection parse_sock parse_f64 (reloaded cfg) = [].
Proof.
  intros Hc. unfold validate_metrics_tracing. rewrite metrics_of_reloaded, !app_nil_iff by done. intros [Hm Ht]. split; [done|].
  change (tracing (reloaded cfg)) with (reloaded_tracing <$> tracing cfg). destruct (tracing cfg) as [[e a j]|]; [|done]. cbn in *.
  destruct e; [|done]. destruct a as [a|]; [|done]. cbn in *. by rewrite (list_there_back YamlSelector_from) by apply selector_back.
Qed.
End Tracing.

(** *** The ranges of numbers *)

Section Ranges.
Context {Y : Yaml} {O : HashOrder}.

Definition with_events (y : YamlConfig) (e : YamlEvents) : YamlConfig :=
  MkYamlConfig (yc_schema_version y) (yc_listeners y) (yc_forward y) (yc_orchestrator y) e (yc_rhai y) (yc_pools y) (yc_control y)
    (yc_rules y) (yc_logging y) (yc_data_sources y) (yc_metrics y) (yc_tracing y) (yc_dataplane y) (yc_shutdown y)
    (yc_data_source_limits y) (yc_caches y) (yc_lookup y) (yc_acls y).

Lemma holds_with_events y e : holds serde_YamlConfig y -> holds serde_YamlEvents e -> holds serde_YamlConfig (with_events y e).
Proof.
  intros Hy He. unfold serde_YamlConfig in *. cbn [holds struct_codec] in *.
  repeat (let H := fresh "H" in apply with_field_holds in Hy as [Hy H]; apply with_field_holds; split; [|exact H || exact He]). exact Hy.
Qed.
Lemma holds_events y : holds serde_YamlConfig y -> holds serde_YamlEvents (yc_events y).
Proof.
  intros Hy. unfold serde_YamlConfig in *. cbn [holds struct_codec] in *.
  repeat (let H := fresh "H" in apply with_field_holds in Hy as [Hy H]; try exact H).
Qed.

Ltac holds_parts H := unfold struct_codec in H; cbn [holds] in H;
  repeat (let H' := fresh "H" in apply with_field_holds in H as [H H']; cbn [at_codec at_get required defaulted skipped] in H').
Ltac holds_fields := unfold struct_codec; cbn [holds];
  repeat (lazymatch goal with |- Forall f_holds (sh_fields (with_field _ _) _) => idtac end; apply with_field_holds; split; [|cbn [at_codec at_get required defaulted skipped]]).

Lemma string_option_holds (o : option string) : holds (option_ string_) o.
Proof. by destruct o. Qed.
Lemma strings_hold (l : list string) : holds (vec string_) l.
Proof. by apply Forall_true. Qed.
Lemma selector_holds y : holds serde_YamlSelector y.
Proof. unfold serde_YamlSelector. holds_fields; [constructor|done|done|apply string_option_holds..]. Qed.
Lemma filters_hold y : holds serde_YamlEventSinkFilters y.
Proof.
  unfold serde_YamlEventSinkFilters. holds_fields; try apply string_option_holds; [constructor| |by destruct (yfi_sample_percent y)].
  apply Forall_true. apply selector_holds.
Qed.
(** The only numbers of a sink are those of its retries. *)
Lemma sink_holds y : holds serde_YamlEventSink y <-> holds (option_ serde_YamlConnectRetry) (yes_connect_retry y).
Proof.
  split; [intros H; unfold serde_YamlEventSink in H; holds_parts H; assumption|]. intros H. unfold serde_YamlEventSink.
  holds_fields; try apply strings_hold; try apply string_option_holds; [constructor|done|done|apply filters_hold|exact H].
Qed.

Lemma retry_written s : yes_connect_retry (YamlEventSink_from s) = YamlConnectRetry_from <$> es_connect_retry s.
Proof. unfold YamlEventSink_from. by destruct (match resolve_sink_identity s with Ok _ => _ | Err _ => _ end). Qed.

Lemma events_holds_reloaded o : holds serde_YamlEvents (YamlEvents_from o) ->
  holds serde_YamlEvents (YamlEvents_from (MkEvents (ev_queue_depth o) (ev_drop_policy o) (reloaded_sink <$> ev_sinks o))).
Proof.
  intros H. unfold serde_YamlEvents in *. holds_parts H. holds_fields; [assumption..|]. cbn [YamlEvents_from yev_sinks ev_sinks] in *.
  cbn [holds vec] in *. rewrite !Forall_fmap in *. eapply Forall_impl; [eassumption|]. intros s. unfold compose. rewrite !sink_holds.
  rewrite !retry_written.
  by destruct (reloaded_sink_fields s) as (_ & _ & _ & _ & _ & -> & _).
Qed.

(** Only the event sinks are written differently the second time. *)
Lemma to_yaml_again cfg : sections_present cfg -> config_to_yaml (reloaded cfg) = with_events (config_to_yaml cfg) (yc_events (config_to_yaml (reloaded cfg))).
Proof.
  intros Hc. unfold with_events, config_to_yaml at 1. rewrite orchestrator_of_reloaded, rhai_of_reloaded, rules_of_reloaded, metrics_of_reloaded by done.
  f_equal.
  - destruct (listeners_of_reloaded cfg Hc) as (l & El & ->). cbn. rewrite El. apply listeners_again.
  - destruct (forward_of_reloaded cfg Hc) as (f & Ef & ->). cbn [config_to_yaml yc_forward]. rewrite Ef. apply forward_again.
  - cbn. rewrite <- list_fmap_compose. apply list_fmap_ext. intros i p _. apply pool_again.
  - destruct (has_logging _ Hc) as [l El]. cbn. rewrite El. apply logging_again.
  - cbn. destruct (tracing cfg) as [t|]; [|done]. cbn. by rewrite tracing_again.
  - by apply unless_again; intros [].
  - by apply unless_again; intros [].
  - by apply unless_again; intros [].
  - apply unless_again, lookup_to.
  - cbn. destruct (acls cfg) as [a|]; [|done]. exact (f_equal Some (acls_again a)).
Qed.

Lemma holds_reloaded cfg : sections_present cfg -> holds serde_YamlConfig (config_to_yaml cfg) -> holds serde_YamlConfig (config_to_yaml (reloaded cfg)).
Proof.
  intros Hc Hh. assert (config_to_yaml (reloaded cfg) = with_events (config_to_yaml cfg) (yc_events (config_to_yaml (reloaded cfg)))) as ->.
  - apply to_yaml_again, Hc.
  - apply holds_with_events; [done|]. apply holds_events in Hh. cbn [config_to_yaml yc_events] in *.
    destruct (events_of_reloaded cfg Hc) as (o & Eo & ->). rewrite Eo in Hh. by apply events_holds_reloaded.
Qed.
End Ranges.

(** ** The theorem *)

Lemma with_seen_ext {A B} (key : A -> option string) (f f' : A -> bool -> list B) l :
  (forall a fresh, f' a fresh = f a fresh) -> forall seen, with_seen key f' seen l = with_seen key f seen l.
Proof. intros Hf. induction l as [|a l IH]; intros seen; [done|]. cbn. destruct (key a); by rewrite Hf, IH. Qed.

Definition with_config `{PrefixTrie} (s : RuntimeSnapshot) (cfg : Config) : RuntimeSnapshot := {|
  rt_rules := rt_rules s; rt_scripting := rt_scripting s; rt_forward := rt_forward s; rt_pool_forward := rt_pool_forward s;
  rt_health := rt_health s; rt_lookup := rt_lookup s; rt_config := cfg |}.

(** The policies of the two tiers, the weights of the backends, and what is read from the other sections. *)
Definition acl_policies (cfg : Config) : option (option CompiledAclPolicy) * option (list (option (option CompiledAclPolicy))) :=
  (acl_compile <$> acls cfg, (fun l => (fun ln => acl_compile <$> li_acls ln) <$> ls_listeners l) <$> listeners cfg).
Definition weights (cfg : Config) : list (list Z) := (fun p => effective_backend_weight <$> po_backends p) <$> pools cfg.
Definition effective_settings (cfg : Config) : string * Z * Z * bool * Z :=
  (effective_dataplane_runtime cfg, effective_policy_workers cfg, effective_io_workers cfg, effective_drain cfg, effective_drain_timeout_ms cfg).

Section Reload.
Context {Y : Yaml} {L : YamlLaws Y} {O : HashOrder} `{PrefixTrie}.
Context (parse_net : string -> option IpNet) (parse_ip : string -> option IpAddr) (parse_sock : string -> option SocketAddr).
Context (parse_v4 parse_v6 : string -> option Z) (parse_f64 : string -> option f64) (to_lowercase : string -> string).
Context (preflight : string -> result unit Msg) (iter : gmap string LookupProfile -> list (string * LookupProfile)).
Context (disk : string -> result string string) (base_dir : option string).
Context (compile_source : string -> Script.ScriptPhase -> DataSourceStore -> result unit Msg).
Context (check_metrics : Config -> CompiledScripting -> result unit Msg).
Context (iter_overrides : gmap string MetricsDimensionList -> list (string * MetricsDimensionList)).
Context (iter_collection : gmap string MetricsCollectEmit -> list (string * MetricsCollectEmit)).
#[local] Abbreviation valid := (validate parse_sock parse_v4 parse_v6 parse_ip parse_f64 to_lowercase preflight iter
  (validate_metrics_tracing iter_overrides iter_collection parse_sock parse_f64)).
#[local] Abbreviation snapshot := (try_from_config_with_base parse_net parse_ip parse_sock parse_v4 parse_v6 parse_f64 to_lowercase preflight
  iter disk base_dir compile_source check_metrics).
(** The check of the metrics that scripts use looks at the metrics section. *)
Context (check_metrics_local : forall c c' s, metrics c = metrics c' -> check_metrics c s = check_metrics c' s).
Context (Hiter : iterates iter).

Lemma iter_empty : iter ∅ = [].
Proof. pose proof (Hiter ∅) as Hi. rewrite map_to_list_empty in Hi. by apply Permutation_nil_r in Hi. Qed.

Lemma snapshot_reloaded cfg s : sections_present cfg -> snapshot cfg = Some (Ok s) -> snapshot (reloaded cfg) = Some (Ok (with_config s (reloaded cfg))).
Proof.
  intros Hc. unfold try_from_config_with_base.
  assert (compile_scripts parse_net parse_ip disk base_dir compile_source check_metrics (reloaded cfg) =
    compile_scripts parse_net parse_ip disk base_dir compile_source check_metrics cfg) as ->.
  { unfold compile_scripts. rewrite table_limits_reloaded, rules_of_reloaded, rhai_of_reloaded by done. change (data_sources (reloaded cfg)) with (data_sources cfg).
    destruct (load_data_sources _ _ _ _ _ _) as [[st|]|]; [|done|done]. cbn. destruct (Config.rules cfg) as [rs|]; [|done].
    destruct (compile_all_scripts _ _ _ _) as [sc|]; [|done]. cbn. by rewrite (check_metrics_local (reloaded cfg) cfg) by (by apply metrics_of_reloaded). }
  destruct (compile_scripts _ _ _ _ _ _ _) as [[sc|]|]; [|done|done]. cbn [mbind option_bind map_err].
  rewrite compile_forward_reloaded, rules_of_reloaded by done. destruct (compile_forward_from_config _ _ _ _) as [fw|]; [|done]. cbn [map_err].
  unfold compile_health_from_config. change (pools (reloaded cfg)) with (reloaded_pool <$> pools cfg). rewrite health_reloaded.
  destruct (compile_health_pools _ _ _ _) as [h|]; [|done]. cbn [map_err].
  destruct (compile_lookup_from_config preflight to_lowercase iter cfg) as [lk|] eqn:El; [|done].
  rewrite (compile_lookup_reloaded to_lowercase preflight iter iter_empty cfg Hc lk El). cbn [map_err].
  destruct (rules_compile _ _ _ _ _); [|done]. by intros [= <-].
Qed.

Lemma rules_valid_reloaded cfg rs : sections_present cfg ->
  validate_rules parse_v4 parse_v6 parse_f64 (reloaded cfg) rs = validate_rules parse_v4 parse_v6 parse_f64 cfg rs.
Proof.
  intros Hc. unfold validate_rules. f_equal. apply with_seen_ext. intros r fresh. unfold validate_rule, configured_source_v4_addrs, configured_source_v6_addrs.
  destruct (forward_of_reloaded cfg Hc) as (f & -> & ->). change (pools (reloaded cfg)) with (reloaded_pool <$> pools cfg).
  rewrite !(flat_map_fmap _ _ reloaded_pool) by (intros; by rewrite reloaded_pool_fields). done.
Qed.

Lemma valid_reloaded cfg : sections_present cfg -> valid cfg = [] -> valid (reloaded cfg) = [].
Proof.
  intros Hc. unfold validate. rewrite !app_nil_iff.
  intros (V1 & V2 & V3 & V4 & V5 & V6 & V7 & V8 & V9 & V10 & V11 & V12 & V13 & V14 & V15 & V16 & V17 & V18 & V19).
  rewrite addresses_reloaded, validate_health_reloaded, logging_reloaded, orchestrator_of_reloaded, rules_of_reloaded, rhai_of_reloaded, acls_reloaded by done.
  destruct (effective_reloaded cfg) as (_ & _ & _ & -> & _). split_and!; try assumption.
  - destruct (listeners_of_reloaded cfg Hc) as (l & El & ->). rewrite El in V2. cbn in *. by rewrite validate_listeners_reloaded.
  - destruct (forward_of_reloaded cfg Hc) as (f & Ef & ->). rewrite Ef in V6. unfold validate_forward in *. cbn in *. unfold or_default.
    by destruct (is_empty (fc_source_selection f)) eqn:E; rewrite ?E in *.
  - apply fmap_nil_iff in V9. apply error_of_nil in V9 as [c Vc]. apply fmap_nil_iff, error_of_nil. exists c.
    by apply (compile_lookup_reloaded to_lowercase preflight iter iter_empty cfg Hc).
  - change (pools (reloaded cfg)) with (reloaded_pool <$> pools cfg).
    rewrite (with_seen_fmap _ (validate_pool parse_v4 parse_v6)); [done|intros; by rewrite reloaded_pool_fields|intros; apply validate_pool_reloaded].
  - destruct (events_of_reloaded cfg Hc) as (o & Eo & ->). rewrite Eo in V12. by apply validate_events_reloaded.
  - destruct (Config.rules cfg) as [rs|]; [|done]. cbn in *. by rewrite rules_valid_reloaded.
  - destruct (limits_reloaded cfg) as [->|[-> _]]; done.
  - by apply validate_metrics_reloaded.
Qed.

Lemma settings_reloaded cfg : sections_present cfg ->
  acl_policies (reloaded cfg) = acl_policies cfg /\ weights (reloaded cfg) = weights cfg /\ effective_settings (reloaded cfg) = effective_settings cfg.
Proof.
  intros Hc. split_and!.
  - unfold acl_policies. destruct (listeners_of_reloaded cfg Hc) as (l & -> & ->). change (acls (reloaded cfg)) with (reloaded_acls <$> acls cfg). f_equal.
    + destruct (acls cfg); [|done]. cbn. by rewrite acl_compile_reloaded.
    + rewrite reloaded_listeners_fields. cbn. f_equal. rewrite <- list_fmap_compose. apply list_fmap_ext. intros i [? ? ? ? ? ? [a|]] _; [|done].
      exact (f_equal Some (acl_compile_reloaded a)).
  - unfold weights. change (pools (reloaded cfg)) with (reloaded_pool <$> pools cfg). rewrite <- list_fmap_compose. apply list_fmap_ext. intros i p _.
    unfold compose. rewrite reloaded_pool_fields. cbn. rewrite <- list_fmap_compose. apply list_fmap_ext. intros j b _. apply backend_weight.
  - unfold effective_settings. by destruct (effective_reloaded cfg) as (-> & -> & -> & _ & -> & ->).
Qed.

Lemma export_loads cfg : holds serde_YamlConfig (config_to_yaml cfg) ->
  exists t, export_yaml cfg = Ok t /\ load_yaml parse_f64 t = Some (Ok (reloaded cfg)).
Proof.
  intros Hh. destruct (text_roundtrip (ser serde_YamlConfig (config_to_yaml cfg))) as (t & Et & Ef). exists t. unfold export_yaml, load_yaml.
  rewrite Et, Ef. cbn [mbind option_bind]. rewrite read_written by done. split; [done|apply from_to_yaml].
Qed.

Lemma complete_reloaded cfg : sections_present (reloaded cfg).
Proof. exact (read_complete parse_f64 _ _ (from_to_yaml parse_f64 cfg)). Qed.

(** C18: An export is a backup. A valid configuration with the sections that every file has is exported without an error, and
    the text is read back: as a configuration that is valid, compiles to the same snapshot, the same event sinks, the same
    tracing and access policies, has the same metrics section and weights, and runs in the same mode; and the export of
    that one reads as itself. *)
Theorem exported_configuration_reloads cfg :
  sections_present cfg -> holds serde_YamlConfig (config_to_yaml cfg) -> valid cfg = [] ->
  exists text cfg', export_yaml cfg = Ok text /\ load_yaml parse_f64 text = Some (Ok cfg') /\ valid cfg' = [] /\
    (forall s, snapshot cfg = Some (Ok s) -> snapshot cfg' = Some (Ok (with_config s cfg'))) /\
    compile_events parse_f64 base_dir cfg' = compile_events parse_f64 base_dir cfg /\
    compile_tracing parse_f64 (tracing cfg') = compile_tracing parse_f64 (tracing cfg) /\ metrics cfg' = metrics cfg /\
    acl_policies cfg' = acl_policies cfg /\ weights cfg' = weights cfg /\ effective_settings cfg' = effective_settings cfg /\
    exists text', export_yaml cfg' = Ok text' /\ load_yaml parse_f64 text' = Some (Ok cfg').
Proof.
  intros Hc Hh Hv. destruct (export_loads cfg Hh) as (t & Et & El). exists t, (reloaded cfg).
  destruct (settings_reloaded cfg Hc) as (Ha & Hw & He). split_and!; try done.
  - by apply valid_reloaded.
  - intros s. by apply snapshot_reloaded.
  - destruct (has_events _ Hc) as [o Eo]. eapply compile_events_reloaded; [done|exact Eo|].
    unfold validate in Hv. do 11 apply app_nil_iff in Hv as [_ Hv]. apply app_nil_iff in Hv as [Hv _]. by rewrite Eo in Hv.
  - apply compile_tracing_reloaded.
  - by apply metrics_of_reloaded.
  - destruct (export_loads (reloaded cfg) (holds_reloaded cfg Hc Hh)) as (t' & Et' & El'). exists t'. by rewrite reloaded_again in El'.
Qed.
End Reload.

(** ** A library for the witness: documents are trees *)

#[local] Set Warnings "-register-all".
Inductive Tree := TNull | TBool (b : bool) | TUint (n : Z) | TFloat (x : f64) | TStr (s : string) | TSeq (l : list Tree) | TMap (l : list (Tree * Tree)).

#[local] Instance trees : Yaml := {|
  Node := Tree; Document := Tree; y_null := TNull; y_bool := TBool; y_uint := TUint; y_float := TFloat; y_str := TStr; y_seq := TSeq; y_map := TMap;
  get_bool n := match n with TBool b => Some b | _ => None end; get_uint n := match n with TUint z => Some z | _ => None end;
  get_float n := match n with TFloat x => Some x | _ => None end; get_str n := match n with TStr s => Some s | _ => None end;
  get_option n := match n with TNull => None | n => Some n end; get_seq n := match n with TSeq l => Some l | _ => None end;
  get_map n := match n with TMap l => Some l | _ => None end; get_struct _ n := match n with TMap l => Some l | _ => None end;
  content n := n; get_value n := Some n; from_str n := Some n; to_string n := Some n |}.
#[local] Instance trees_laws : YamlLaws trees.
Proof.
  split; try done; cbn.
  - intros l. f_equal. symmetry. apply list_fmap_id.
  - intros l. f_equal. symmetry. rewrite <- (list_fmap_id l) at 2. apply list_fmap_ext. by intros i [].
  - intros n. by exists n.
Qed.
#[local] Instance listed_order : HashOrder := {| hash_iter A m := map_to_list m; hash_iter_perm A m := Permutation_refl _ |}.

Definition file_sink : EventSink :=
  MkSink "dnstap" "conduit" ["tcp:192.0.2.9:6000"] ["query"] None [] [] (Some "conduit")
    (Some {| cr_initial_ms := 500; cr_max_ms := 60000; cr_multiplier := f64_of_Z 2; cr_max_elapsed_ms := 0; cr_jitter := false |}).
Definition file_listener : ListenerConfig := {|
  li_address := "192.0.2.1:53"; li_protocol := "udp"; li_threads := None; li_reuse_port := None; li_name := None; li_rcvbuf := None;
  li_acls := Some {| ac_default_action := ""; ac_rules := [] |} |}.
Definition file_config : Config :=
  MkConfig 1 (Some {| ls_threads := 2; ls_reuse_port := true; ls_rcvbuf := 0; ls_sndbuf := 0; ls_listeners := [file_listener] |})
    (Some default_forward_config) (Some {| Config.max_attempts := 2; max_txn_duration_ms := 4000; txn_table_capacity := 512 |})
    (Some (MkEvents 1024 "drop_newest" [file_sink])) (Some {| max_operations := 500; max_call_depth := 8; hook_timeout_ms := 0 |})
    [sample_pool_cfg <| po_backends := [Backend_default <| be_address := "192.0.2.1:53" |> <| be_weight := Some 100 |>] |>] None
    (Some {| rs_match_mode := "first_match"; rs_rules := [sample_rule by_type] |})
    (Some {| lo_level := ""; lo_output := "stdout"; lo_query_access := None |}) [] None
    (Some {| tr_enabled := true; tr_activation := None; tr_log_json := None |})
    (Some {| dp_runtime := "sync"; dp_policy_workers := 1; dp_io_workers := 1; dp_slot_chunk_size := None |}) None None
    [sample_cache] (Some sample_lookup) (Some {| ac_default_action := "deny"; ac_rules := [] |}).

Lemma file_config_complete : sections_present file_config.
Proof. split; by eexists. Qed.

Lemma file_config_holds : holds serde_YamlConfig (config_to_yaml file_config).
Proof. apply (bool_decide_unpack _). vm_compute. exact I. Qed.
#[local] Instance file_trie : PrefixTrie := {|
  Trie := unit; trie_new := tt; trie_insert _ _ _ t := t; trie_get _ _ _ := None; trie_get_lpm _ _ _ := None |}.
Abbreviation file_valid := (validate sample_sock no_addr no_addr no_ip no_float to_ascii_lowercase any_path all_entries
  (validate_metrics_tracing map_to_list map_to_list sample_sock no_float)).
Abbreviation file_try := (try_from_config_with_base sample_net no_ip sample_sock no_addr no_addr no_float to_ascii_lowercase any_path
  all_entries sample_disk (Some "/etc/conduit") any_script any_metrics).

Lemma exported_configuration_reloads_witness :
  exists text cfg', export_yaml file_config = Ok text /\ load_yaml no_float text = Some (Ok cfg') /\ file_valid cfg' = [] /\
    forall s, file_try file_config = Some (Ok s) -> file_try cfg' = Some (Ok (with_config s cfg')).
Proof.
  destruct (exported_configuration_reloads sample_net no_ip sample_sock no_addr no_addr no_float to_ascii_lowercase any_path all_entries
    sample_disk (Some "/etc/conduit") any_script any_metrics map_to_list map_to_list (fun _ _ _ _ => eq_refl) (fun m => Permutation_refl _) file_config)
    as (text & cfg' & He & Hl & Hv & Hs & _).
  - exact file_config_complete.
  - exact file_config_holds.
  - vm_compute. reflexivity.
  - exists text, cfg'. split; [exact He|]. split; [exact Hl|]. split; [exact Hv|exact Hs].
Defined.

(** ** The metrics section on its own *)

Ltac distinct_struct := eapply struct_distinct; [typeclasses eauto|by apply (bool_decide_unpack _); vm_compute|typeclasses eauto].

Section MetricsSection.
Context {Y : Yaml} {L : YamlLaws Y} {O : HashOrder}.

#[local] Instance detailed_distinct : Distinct serde_Detailed.
Proof. distinct_struct. Qed.
#[local] Instance family_distinct : Distinct serde_YamlFamilyGranularity.
Proof.
  intros [d|d r] _; [apply (distinct_written (c := vec string_)); by apply Forall_true|]. apply (distinct_written (c := serde_Detailed) (d, r)).
  repeat constructor. destruct d; [|done]. by apply Forall_true.
Qed.
#[local] Instance granularity_distinct : Distinct serde_YamlGranularity.
Proof.
  intros [d o] Ho. cbn in Ho. cbn [ser serde_YamlGranularity ymg_default ymg_overrides].
  destruct (is_empty d); [apply distinct_entries; [typeclasses eauto|apply hash_iter_keys|by apply Forall_true]|].
  set (es := prod_map id (ser serde_YamlFamilyGranularity) <$> hash_iter o).
  replace (_ ++ _) with ((fun e => (y_str e.1, e.2)) <$> (("default", y_str d) :: es)) by (unfold es; cbn; by rewrite <- list_fmap_compose).
  assert (es.*1 = (hash_iter o).*1) as Ek by (unfold es; by rewrite <- list_fmap_compose).
  apply distinct_map; [|constructor; [apply distinct_str|]].
  - cbn [fmap list_fmap fst]. apply NoDup_cons. split; [|setoid_rewrite Ek; apply hash_iter_keys]. setoid_rewrite Ek. rewrite hash_iter_perm.
    intros ([k a] & E & Ha)%list_elem_of_fmap. cbn in E. subst k. apply elem_of_map_to_list in Ha. congruence.
  - apply Forall_fmap, Forall_true. intros [k a]. by apply family_distinct.
Qed.
#[local] Instance collect_emit_distinct : Distinct serde_YamlCollectEmit.
Proof. distinct_struct. Qed.
#[local] Instance prometheus_distinct : Distinct serde_YamlPrometheusMetrics.
Proof. distinct_struct. Qed.
#[local] Instance otel_distinct : Distinct serde_YamlOtelMetrics.
Proof. distinct_struct. Qed.
#[local] Instance user_metric_distinct : Distinct serde_YamlUserMetricExport.
Proof. distinct_struct. Qed.
#[local] Instance categories_distinct : Distinct serde_YamlMetricsCategories.
Proof. distinct_struct. Qed.
#[local] Instance metrics_distinct : Distinct serde_YamlMetrics.
Proof. distinct_struct. Qed.

Lemma no_such_key k fs : k ∉ f_name <$> fs -> List.find (is_key k) (written fs) = None.
Proof.
  induction fs as [|[n [x|] p] fs IH]; [done| |]; rewrite fmap_cons, not_elem_of_cons; cbn; [rewrite is_key_written|]; intros [Hne Hk];
    [destruct (String.eqb_spec n k); [congruence|]|]; by apply IH.
Qed.

Lemma metrics_written y : exists fs, ser serde_YamlMetrics y = y_map (written fs) /\ "metrics" ∉ f_name <$> fs.
Proof. eexists. split; [reflexivity|]. cbn. by apply (bool_decide_unpack _); vm_compute. Qed.

(** A metrics section that is exported on its own is read back as it was, by the function that also accepts a whole
    document with the key [metrics]. *)
Theorem exported_metrics_reload m : marked_metrics m -> holds serde_YamlMetrics (YamlMetrics_from m) ->
  exists text, export_metrics_yaml m = Ok text /\ load_metrics_yaml text = Ok m.
Proof.
  intros Hm Hh. set (n := ser serde_YamlMetrics (YamlMetrics_from m)). destruct (text_roundtrip n) as (t & Et & Ef). exists t.
  unfold export_metrics_yaml, load_metrics_yaml. fold n. rewrite Et, Ef. cbn [mbind option_bind]. split; [done|].
  rewrite get_value_written by (by apply metrics_distinct). cbn [mbind option_bind].
  destruct (metrics_written (YamlMetrics_from m)) as (fs & En & Hfs). fold n in En. rewrite En at 1. rewrite get_map_written, no_such_key by done.
  unfold n. by rewrite read_written, metrics_back.
Qed.
End MetricsSection.

(** ** Sizes *)

Lemma digits_val_bounds max s : forall acc n, 0 <= acc <= max -> digits_val max acc s = Some n -> 0 <= n <= max.
Proof.
  induction s as [|c s IH]; intros acc n Ha; cbn; [by intros [= <-]|]. unfold digit_of, in_range.
  destruct (Z.leb_spec 48 (byte_of c)); [|done]. destruct (byte_of c <=? 57); [|done]. cbn.
  destruct (Z.leb_spec (acc * 10 + (byte_of c - 48)) max); [|done]. apply IH. lia.
Qed.
Lemma parse_uint_bounds max s n : 0 <= max -> parse_uint max s = Some n -> 0 <= n <= max.
Proof. intros Hm. destruct s as [|c s]; [done|]. unfold parse_uint. destruct (byte_of c =? 43); [destruct s; [done|]|]; by apply digits_val_bounds. Qed.

Lemma floor_as_fits x : fits 64 (floor_as 0 u64_max x).
Proof.
  unfold floor_as, clamp, fits. replace u64_max with (2 ^ 64 - 1) by done.
  destruct x as [s|s| |s m e]; try destruct s; lia.
Qed.

(** A size is a 64-bit number of bytes: a larger one is rejected and never wraps. *)
Theorem size_fits parse_f64 raw n : parse_si_size parse_f64 raw = Some (Ok n) -> fits 64 n.
Proof.
  unfold parse_si_size. destruct (is_empty _); [done|]. destruct (existsb _ _); [done|].
  destruct (str_forall is_digit (trim raw)).
  - destruct (parse_uint u64_max (trim raw)) as [z|] eqn:E; intros [= <-]. apply parse_uint_bounds in E; [|done].
    replace u64_max with (2 ^ 64 - 1) in E by done. unfold fits. lia.
  - destruct (Nat.ltb _ _); [done|]. destruct (negb _); [done|]. destruct (is_empty _); [done|]. destruct (si_multiplier _); [|done].
    destruct (parse_f64 _) as [x|]; [|done]. destruct (_ || _); [done|]. destruct (_ || _); [done|]. intros [= <-]. apply floor_as_fits.
Qed.

(** A size that ends in a character of three bytes is cut inside of it, which panics. *)
Theorem size_in_character_panics parse_f64 : parse_si_size parse_f64 "10€" = None.
Proof. vm_compute. reflexivity. Qed.
